(* ===== verification/_CoqProject ===== *)
-Q . S2P
Prelude.v
Sys.v
Heap.v
Alloc.v
Gc.v
GcCorrect.v
Objects.v
Trie.v
Lists.v
ImageOk.v
Value.v
Intern.v
Sort.v
Printer.v
Reader.v
Prims.v
Interp.v
Machine.v
Simulate.v
Syntax.v
Path.v
Module.v
Shell.v
Sha256.v
Fasl.v
Init.v
Boot.v
Files.v
Processes.v
FileSystem.v
System.v
Main.v
GcSpec.v
HashSpec.v
RoundTrip.v
ShellSpec.v
ListSpec.v
Sha256Spec.v
InternSpec.v
Datum.v
DatumRead.v
PathBytes.v
PathSpec.v
ArithSpec.v
Running.v
Eval.v
EvalSpec.v
FdSpec.v
Keeps.v
CleanSpec.v
WaitSpec.v
OpenSpec.v
FileSpec.v
FaslSpec.v
MainSpec.v
ModuleSpec.v
RktioHash.v
RktioEnvvars.v
RktioWide.v
RktioHashSpec.v
RktioEnvvarsSpec.v
RktioWideSpec.v
Scope.v
Closed.v
PrintSafe.v
Sound.v
SoundSpec.v
Findings.v
