(* ===== verification/Prelude.v ===== *)
(** * The Zuo runtime of Racket, and three files of its I/O library, verified

    Zuo is the small language that drives the build of Racket.  Its whole
    runtime is one C file, racket/src/zuo/zuo.c: objects and a copying
    collector, tries, symbols, a printer, a reader, the primitives, a kernel
    evaluator with first-class continuations, paths, modules, shell quoting,
    SHA-256, heap images, descriptors, files, signals and processes.  This
    library models that file for Unix, on a little-endian machine with 64-bit
    pointers, and proves what its parts promise.

    Racket's own I/O goes through another library, rktio.  Three of its files
    that do not depend on the operating system are modelled beside Zuo, in the
    same monad: the hash tables of racket/src/rktio/rktio_hash.c, the sets of
    environment variables of rktio_envvars.c, and the conversions between bytes
    and 16-bit units of rktio_wide.c.  The two programs share no state and do
    not call each other.

    ** How the code is modelled

    A C function is a computation of the monad of this file: a state
    transformer that returns, ends the process with an error value, meets
    undefined behaviour, or runs for ever ([outcome]).  The state ([Heap.st]) has
    the heap, a finite map from addresses to objects, the bookkeeping of the
    memory manager, the constants [z.o_...] of the image and the registers
    [Z.o_...] of the running program, the two counters and the system's part
    ([Sys.sys]): the system calls made so far, the counter of suspensions of
    signals and the text written to standard output.  A pointer is an address,
    so sharing and mutation are those of the code: stores go through [put], and a
    theorem that an operation leaves old objects alone says so ([Objects.grows],
    [Keeps.keeps]).  Machine integers are values of [Z] with every conversion
    written out; strings are lists of bytes.

    The operating system is an argument: a function from the calls made so far,
    the present one last, to its answer, so that it may answer the same call
    differently each time.  What a theorem needs of it is a class over that
    function: [FdSpec.Stream] and [FdSpec.Writable] for a descriptor that is read
    or written, [CleanSpec.Answers], [WaitSpec.reaps], [FileSpec.Yields].

    A C loop is a recursive function.  Where it is not structural it has fuel:
    [heap_fuel] (the number of objects) for loops along a list, [input_fuel] (the
    length of the text) for loops over text, [path_fuel] for the loops of
    [zuo_build_path2], [trie_depth] (17, one level per nibble of a symbol
    identifier and one more) for tries.  Running out is [Diverge], and the
    theorems say that it does not happen: each one gives a result, not a
    property of the result if there is one.  Only the evaluator, whose programs
    may run for ever, and the loops around system calls have their number of
    steps as an argument; their theorems say which numbers are enough, in terms
    of the length of the data and of the interruptions that the system makes.
    The loops of the hash tables take one step for each slot;
    [RktioHash.rktio_hash_set] and [do_rehash] call each other, and a depth of 2
    is enough.
    The safety theorems [SoundSpec.closed_program_safe] and [eval_step_sound]
    say what a run that stops early implies.  The printer's bound is the number
    of objects that it prints ([PrintSafe.printed]), and it is enough.

    ** The files and the code they model

    - Prelude: machine integers, bytes, the monad.
    - Heap, Alloc: object layouts, roots, [zuo_new],
      [malloc_or_recycle]; the allocator's invariant [mem_ok].
    - Gc, GcCorrect, GcSpec: [zuo_update], [zuo_trace], [zuo_collect]; the
      reachable graph is copied isomorphically.
    - Objects, Lists, ImageOk: constructors, accessors, error functions; lists
      linked in place; the constants of a running state.
    - Trie, HashSpec: [zuo_trie_lookup], [_set], [_extend], [_remove], [_keys],
      [_keys_subset_p]; tables as finite maps behind the class [TableSpec].
    - Intern, InternSpec: [zuo_symbol_from_string] and the intern table.
    - Sort: [zuo_symbol_list_sort].
    - Printer, Reader, RoundTrip, Datum, DatumRead: [zuo_out] and [zuo_in] with
      their explicit stacks, [string-read], the #lang line; what is written reads
      back, for strings, integers and whole trees of data.
    - Prims, ArithSpec, ListSpec: the primitives on data.
    - Interp, Value, Machine, Syntax, Simulate, Eval, Running, EvalSpec:
      [check_syntax], [interp_step], [continue_step] and the loop of
      [zuo_kernel_eval]; the machine on trees and the big-step semantics they
      implement.
    - Scope, Closed, PrintSafe, Sound, SoundSpec: expressions whose variables are
      bound, values that such programs make, and the absence of undefined
      behaviour in evaluation and in printing, error messages included.
    - Path, PathBytes, PathSpec: path strings, [zuo_split_path],
      [zuo_build_path2], module paths, the runtime environment.
    - Module, ModuleSpec: the two hand-built closures of the kernel module,
      [module->hash] and the tables of declared and of pending modules.
    - Shell, ShellSpec: [string->shell] and [shell->strings].
    - Sha256, Sha256Spec: [string-sha256] and the standard it implements.
    - Fasl, FaslSpec: [zuo_fasl_dump] and [zuo_fasl_restore]; what is dumped
      comes back.
    - Init, Boot: the dispatchers, the table of primitives,
      [zuo_primitive_init], [zuo_image_init], [zuo_runtime_init]; the booted
      state at which hypotheses are evaluated.
    - Sys: system calls and their answers.
    - Files, FdSpec, OpenSpec: [zuo_drain], [zuo_fill], the fd primitives, the
      table of descriptors, [zuo_dump_image_and_exit].
    - FileSystem, FileSpec: [stat], [rm], [mv], [mkdir], [rmdir], [ls],
      [readlink], [symlink], [cp], [current-time].
    - Processes, Keeps, CleanSpec, WaitSpec: [zuo_suspend_signal], the table of
      cleanables, [zuo_clean_all], [zuo_process] on both sides of its fork,
      [zuo_process_wait].
    - System: all these as the primitives of the table, and programs run from
      their text to the system calls they make.
    - Main, MainSpec: [zuo_main] from its arguments to its end, the boot image,
      [zuo_self_path], [zuo_configure], the signal handler, and the functions
      [zuo_ext_...] for programs that embed the runtime.
    - RktioHash, RktioHashSpec: [rktio_hash_get], [_set], [_remove], [_get_key]
      and the two ways to free, with open addressing and vacated slots; the
      finite map that a table stands for.
    - RktioEnvvars, RktioEnvvarsSpec: [rktio_envvars_get], [_set], [_count],
      [_name_ref], [_value_ref], [_copy], [_free], the constructors from an
      environment and [rktio_envvars_to_block]; strings are in a store of their
      own, so that freeing twice is visible.
    - RktioWide, RktioWideSpec: [utf8ish_to_utf16ish], [utf16ish_to_utf8ish] and
      the functions that measure, allocate and fill with them.
    - Findings: runs on which the code does something else than it means to.

    ** What the theorems show

    The memory manager never hands out memory in use, and a collection keeps
    exactly the reachable graph (GcSpec). The syntax check decides the kernel
    grammar; one iteration of the evaluator is one step of a machine on trees
    with a collection allowed before it; and evaluation gives the value of the
    big-step semantics (EvalSpec). Hash tables are persistent finite maps
    (HashSpec); symbols are equal exactly when their names are (InternSpec);
    list and integer primitives compute what their names say, wrap-around and
    errors included (ListSpec, ArithSpec). Strings, integers and trees of data
    survive printing and reading (RoundTrip, DatumRead), arguments survive
    quoting and splitting (ShellSpec). A closed program never meets undefined
    behaviour, whatever errors it runs into, and printing its values always ends
    with a string (SoundSpec). Reads and writes
    deliver all bytes in order through short transfers and interruptions
    (FdSpec); opening ends with a handle or with the system's error (OpenSpec);
    copying moves the bytes of the source (FileSpec); cleaning up closes pipes,
    waits for processes and deletes files, in this order and with signals
    blocked, and repeats a call exactly as long as it is interrupted (CleanSpec); waiting returns a process that has ended (WaitSpec).
    Building paths ends for all arguments, leads where the arguments lead as
    long as that is not above the root, and leaves no [.] (PathSpec). A module is read at most once at a time and found
    again once it is registered (ModuleSpec). The digest is the one of the
    standard, in one piece or in many (Sha256Spec). A heap image brings back
    what the image roots reached, in another process on a machine with the same
    byte order (FaslSpec), also when the process boots from a file (MainSpec); an
    image of the other byte order is not recognised (Findings), and the command line is taken as its options say (MainSpec).

    In the I/O library: looking up, entering and removing in a hash table are the
    operations of the finite map it stands for, growing and shrinking included,
    outside of the cases that Findings runs (RktioHashSpec). A set of environment
    variables owns its strings: a lookup gives a copy of the value of the first
    entry with the name, setting a name changes what this name has and no other,
    and an environment that is read and then written as a block is the same, in
    a block of exactly its size
    (RktioEnvvarsSpec). The two
    conversions of paths are inverse to each other, unpaired surrogates included
    (RktioWideSpec).

    The interfaces are classes: [Modular] for the arithmetic loop, [TableSpec]
    for tables, [PrimSpec] for the primitives that the evaluator calls, [Joins]
    for the two ways to add a path; clients are proved against them and the
    code's functions are instances.

    ** Not modelled

    The log of opened files ([zuo_file_logging] is taken to be null); the search
    for the executable where there is no /proc; an image that is compiled into
    the executable ([EMBEDDED_IMAGE] is 0). A collection suspends signals, but
    its two calls are not recorded: no system call of the code happens in
    between. A failing computation carries its error value to its end, and
    [Processes.at_exit] says what is cleaned up then. The branches for Windows
    are not compiled on Unix. The text of error messages on standard error is
    the error value; the stack trace that precedes it is left out, as are the
    colours of such messages with their test for a terminal, and the output of the variables ZUO_LOG and ZUO_PROBE_EACH. The counters of symbols
    and handles, and of the objects and words of an image, are unbounded where
    the code has 32 bits; the theorems on images show that they stay in range
    while less than a gigabyte is in use. In the I/O library, the calls of
    [getenv], [setenv] and [unsetenv] and the lock around them, and a [malloc]
    that has no memory. Lengths are below 2^31 where a loop of
    the code counts in [int]. The other parts of the repository (the Racket
    virtual machines, the kernel of Chez Scheme, the other files of rktio, the launchers
    and the libraries they bring along) are programs of their own, which Zuo
    builds but does not call. *)

From Stdlib Require Export ZArith Lia String Ascii.
From stdpp Require Export base gmap list numbers strings fin_maps.

Open Scope Z_scope.

(** ** Fixed-width integers

    [zuo_int_t] is a signed 64-bit integer, [zuo_uint_t] its unsigned
    counterpart, [zuo_int32_t] a signed 32-bit integer.  A machine integer
    is its mathematical value; a conversion to a width is written out. *)

Definition to_u64 (n : Z) : Z := n mod 2 ^ 64.
Definition to_s64 (n : Z) : Z := (n + 2 ^ 63) mod 2 ^ 64 - 2 ^ 63.
Definition to_u32 (n : Z) : Z := n mod 2 ^ 32.
Definition to_s32 (n : Z) : Z := (n + 2 ^ 31) mod 2 ^ 32 - 2 ^ 31.
Definition to_u8 (n : Z) : Z := n mod 2 ^ 8.

Definition in_s64 (n : Z) : Prop := - 2 ^ 63 ≤ n < 2 ^ 63.
Definition in_u64 (n : Z) : Prop := 0 ≤ n < 2 ^ 64.
Definition in_s32 (n : Z) : Prop := - 2 ^ 31 ≤ n < 2 ^ 31.
Definition in_u32 (n : Z) : Prop := 0 ≤ n < 2 ^ 32.
Definition is_byte (n : Z) : Prop := 0 ≤ n < 256.

#[global] Instance in_s64_dec n : Decision (in_s64 n).
Proof. unfold in_s64. apply _. Defined.
#[global] Instance in_s32_dec n : Decision (in_s32 n).
Proof. unfold in_s32. apply _. Defined.
#[global] Instance is_byte_dec n : Decision (is_byte n).
Proof. unfold is_byte. apply _. Defined.

Lemma to_u64_range n : in_u64 (to_u64 n).
Proof. unfold in_u64, to_u64. apply Z.mod_pos_bound. lia. Qed.

Lemma to_s64_range n : in_s64 (to_s64 n).
Proof.
  unfold in_s64, to_s64.
  pose proof (Z.mod_pos_bound (n + 2 ^ 63) (2 ^ 64)). lia.
Qed.

Lemma to_s64_id n : in_s64 n → to_s64 n = n.
Proof. unfold in_s64, to_s64. intros. rewrite Z.mod_small; lia. Qed.

Lemma to_s32_id n : in_s32 n → to_s32 n = n.
Proof. unfold in_s32, to_s32. intros. rewrite Z.mod_small; lia. Qed.

Lemma to_u64_id n : in_u64 n → to_u64 n = n.
Proof. unfold in_u64, to_u64. intros. rewrite Z.mod_small; lia. Qed.

Lemma to_s64_cong a b : a mod 2 ^ 64 = b mod 2 ^ 64 → to_s64 a = to_s64 b.
Proof.
  intros E. unfold to_s64. f_equal.
  rewrite <- (Z.add_mod_idemp_l a), <- (Z.add_mod_idemp_l b), E; lia.
Qed.

Lemma to_s64_u64 n : to_s64 (to_u64 n) = to_s64 n.
Proof. apply to_s64_cong. unfold to_u64. rewrite Z.mod_mod; lia. Qed.

Lemma to_u64_s64 n : to_u64 (to_s64 n) = to_u64 n.
Proof.
  unfold to_u64, to_s64.
  rewrite Zminus_mod_idemp_l. f_equal. lia.
Qed.

Lemma to_u64_add_l a b : to_u64 (to_u64 a + b) = to_u64 (a + b).
Proof. unfold to_u64. apply Z.add_mod_idemp_l. lia. Qed.
Lemma to_u64_add_r a b : to_u64 (a + to_u64 b) = to_u64 (a + b).
Proof. unfold to_u64. apply Z.add_mod_idemp_r. lia. Qed.
Lemma to_u64_mul_l a b : to_u64 (to_u64 a * b) = to_u64 (a * b).
Proof. unfold to_u64. apply Z.mul_mod_idemp_l. lia. Qed.
Lemma to_u64_mul_r a b : to_u64 (a * to_u64 b) = to_u64 (a * b).
Proof. unfold to_u64. apply Z.mul_mod_idemp_r. lia. Qed.
Lemma to_u64_sub_l a b : to_u64 (to_u64 a - b) = to_u64 (a - b).
Proof. unfold to_u64. apply Zminus_mod_idemp_l. Qed.
Lemma to_u64_sub_r a b : to_u64 (a - to_u64 b) = to_u64 (a - b).
Proof. unfold to_u64. apply Zminus_mod_idemp_r. Qed.

(** Disjoint parts of a word are put together by [Z.lor]. *)
Lemma lor_shiftl_add a b k : 0 ≤ k → 0 ≤ b < 2 ^ k → Z.lor (Z.shiftl a k) b = a * 2 ^ k + b.
Proof.
  intros Hk Hb. rewrite <- Z.shiftl_mul_pow2 by done. symmetry. apply Z.add_nocarry_lor.
  apply Z.bits_inj'. intros n Hn. rewrite Z.land_spec, Z.bits_0. destruct (Z.ltb_spec n k).
  - by rewrite Z.shiftl_spec_low.
  - rewrite andb_false_iff. right. destruct (decide (b = 0)) as [->|]; [apply Z.bits_0|].
    apply Z.bits_above_log2; [lia|]. enough (Z.log2 b < k) by lia. apply Z.log2_lt_pow2; lia.
Qed.

Create Rewrite HintDb machine_int.
#[export] Hint Rewrite to_s64_u64 to_u64_s64 to_u64_add_l to_u64_add_r
  to_u64_mul_l to_u64_mul_r to_u64_sub_l to_u64_sub_r : machine_int.

(** ** Bytes and C strings

    A Zuo string's bytes are a [list Z] of values in [0, 255].  A C string
    literal is a Rocq [string]; [bytes_of] gives its bytes. *)

Fixpoint bytes_of (s : string) : list Z :=
  match s with
  | EmptyString => []
  | String a r => Z.of_nat (nat_of_ascii a) :: bytes_of r
  end.

(** The byte at index [i] of a NUL-terminated buffer that holds [s]: the
    terminator at index [length s], nothing beyond it. *)
Definition char_at (s : list Z) (i : Z) : option Z :=
  if decide (0 ≤ i) then
    if decide (i = Z.of_nat (length s)) then Some 0 else s !! Z.to_nat i
  else None.

(** [isdigit], [isalpha], [isspace], [isprint] and [tolower] in the C locale,
    which is the one in force as the program never calls [setlocale]. *)
Definition isdigit (c : Z) : bool := (48 <=? c) && (c <=? 57).
Definition isupper (c : Z) : bool := (65 <=? c) && (c <=? 90).
Definition islower (c : Z) : bool := (97 <=? c) && (c <=? 122).
Definition isalpha (c : Z) : bool := isupper c || islower c.
Definition isspace (c : Z) : bool := (c =? 32) || ((9 <=? c) && (c <=? 13)).
Definition isprint (c : Z) : bool := (32 <=? c) && (c <=? 126).
Definition tolower (c : Z) : Z := if isupper c then c + 32 else c.

(** [strchr(s, c) != NULL]: the terminator counts as a member. *)
Definition strchr (s : list Z) (c : Z) : bool :=
  (c =? 0) || existsb (Z.eqb c) s.

(** The bytes up to the first NUL: what C functions on [char *] see. *)
Fixpoint c_str (s : list Z) : list Z :=
  match s with
  | [] => []
  | c :: r => if c =? 0 then [] else c :: c_str r
  end.

Lemma c_str_id s : Forall (λ c, c ≠ 0) s → c_str s = s.
Proof.
  induction 1 as [|c s Hc _ IH]; [done|]. cbn.
  destruct (Z.eqb_spec c 0); [done|]. by rewrite IH.
Qed.

(** The sign of [strcmp] on two byte strings (compared as unsigned bytes). *)
Fixpoint strcmp_bytes (a b : list Z) : comparison :=
  match a, b with
  | [], [] => Eq
  | [], _ :: _ => Lt
  | _ :: _, [] => Gt
  | x :: a', y :: b' =>
      match x ?= y with Eq => strcmp_bytes a' b' | c => c end
  end.

Definition strcmp (a b : list Z) : comparison := strcmp_bytes (c_str a) (c_str b).

Lemma strcmp_bytes_refl a : strcmp_bytes a a = Eq.
Proof. induction a as [|x a IH]; [done|]. cbn. by rewrite Z.compare_refl. Qed.

Lemma strcmp_bytes_eq a b : strcmp_bytes a b = Eq → a = b.
Proof.
  revert b. induction a as [|x a IH]; intros [|y b]; try done. cbn.
  destruct (Z.compare_spec x y); try done. intros ?. f_equal; auto.
Qed.

Lemma strcmp_bytes_antisym a b : strcmp_bytes b a = CompOpp (strcmp_bytes a b).
Proof.
  revert b. induction a as [|x a IH]; intros [|y b]; try done. cbn.
  rewrite (Z.compare_antisym x y). destruct (x ?= y); cbn; auto.
Qed.

Lemma strcmp_bytes_trans a b c :
  strcmp_bytes a b ≠ Gt → strcmp_bytes b c ≠ Gt → strcmp_bytes a c ≠ Gt.
Proof.
  revert b c. induction a as [|x a IH]; intros [|y b] [|w c]; try done. cbn.
  destruct (Z.compare_spec x y), (Z.compare_spec y w), (Z.compare_spec x w);
    try done; try lia; eauto.
Qed.

(** ** Outcomes and the state monad

    A C function is a state transformer whose run ends in one of four ways:
    it returns, it ends the process through one of the error functions (all of
    them reach [exit]), it does something the C standard leaves undefined, or
    it runs for ever. *)

Inductive outcome (S E A : Type) : Type :=
  | Ok (a : A) (s : S)
  | Fail (e : E) (s : S)
  | UB (why : string)
  | Diverge.
Arguments Ok {S E A} _ _.
Arguments Fail {S E A} _ _.
Arguments UB {S E A} _.
Arguments Diverge {S E A}.

Definition comp (S E A : Type) : Type := S → outcome S E A.

Definition ret {S E A} (a : A) : comp S E A := λ s, Ok a s.

Definition bind {S E A B} (m : comp S E A) (f : A → comp S E B) : comp S E B :=
  λ s, match m s with
       | Ok a s' => f a s'
       | Fail e s' => Fail e s'
       | UB w => UB w
       | Diverge => Diverge
       end.

Declare Scope zuo_scope.
Delimit Scope zuo_scope with zuo.
Notation "x <- m ;; k" := (bind m (λ x, k))
  (at level 100, m at next level, right associativity) : zuo_scope.
Notation "m ;;; k" := (bind m (λ _, k))
  (at level 100, right associativity) : zuo_scope.
Open Scope zuo_scope.

Lemma bind_ok {S E A B} (m : comp S E A) (f : A → comp S E B) s a s' :
  m s = Ok a s' → bind m f s = f a s'.
Proof. unfold bind. by intros ->. Qed.

Lemma bind_fail {S E A B} (m : comp S E A) (f : A → comp S E B) s e s' :
  m s = Fail e s' → bind m f s = Fail e s'.
Proof. unfold bind. by intros ->. Qed.

Lemma bind_ub {S E A B} (m : comp S E A) (f : A → comp S E B) s w :
  m s = UB w → bind m f s = UB w.
Proof. unfold bind. by intros ->. Qed.

Lemma bind_Ok_inv {S E A B} (m : comp S E A) (f : A → comp S E B) s b s'' :
  bind m f s = Ok b s'' → ∃ a s', m s = Ok a s' ∧ f a s' = Ok b s''.
Proof. unfold bind. destruct (m s) eqn:?; naive_solver. Qed.

Lemma bind_assoc {S E A B C} (m : comp S E A) (f : A → comp S E B)
    (g : B → comp S E C) s :
  bind (bind m f) g s = bind m (λ a, bind (f a) g) s.
Proof. unfold bind. by destruct (m s). Qed.

(** A computation that neither meets undefined behaviour nor diverges from a
    state satisfying [P], and whose normal results satisfy [Q]. *)
Definition safe {S E A} (P : S → Prop) (m : comp S E A) (Q : A → S → Prop) : Prop :=
  ∀ s, P s →
    match m s with
    | Ok a s' => Q a s'
    | Fail _ _ => True
    | UB _ => False
    | Diverge => False
    end.

Lemma safe_ret {S E A} (P : S → Prop) (a : A) (Q : A → S → Prop) :
  (∀ s, P s → Q a s) → safe (E := E) P (ret a) Q.
Proof. intros H s Hs. cbn. auto. Qed.

Lemma safe_bind {S E A B} P (m : comp S E A) (f : A → comp S E B) R Q :
  safe P m R → (∀ a, safe (R a) (f a) Q) → safe P (bind m f) Q.
Proof.
  intros Hm Hf s Hs. specialize (Hm s Hs). unfold bind.
  destruct (m s); try done. by apply Hf.
Qed.

Lemma safe_conseq {S E A} (P P' : S → Prop) (m : comp S E A) (Q Q' : A → S → Prop) :
  safe P' m Q' → (∀ s, P s → P' s) → (∀ a s, Q' a s → Q a s) → safe P m Q.
Proof.
  intros Hm HP HQ s Hs. specialize (Hm s (HP s Hs)).
  destruct (m s); try done. by apply HQ.
Qed.

(** [step_ok H] runs the first computation of a [bind] with the equation [H]. *)
Ltac step_ok H := rewrite (bind_ok _ _ _ _ _ H); cbn beta.
Ltac inv_bind H :=
  let a := fresh "a" in let s := fresh "s" in let E := fresh "E" in
  apply bind_Ok_inv in H as (a & s & E & H).
