(* ===== verification/Sys.v ===== *)
(** * System calls

    What the C code asks of the operating system, and what the model keeps of
    it: the calls made so far, whether asynchronous signals are held back, and
    the text written through the C library's standard output.  The operating
    system itself is a parameter of the operations that call it: a function
    from the calls made so far, the present one last, to the answer. *)

From S2P Require Import Prelude.

Inductive open_flag := O_RDONLY | O_WRONLY | O_CREAT | O_EXCL | O_TRUNC | O_APPEND.

Inductive syscall : Type :=
  | Sopen (path : list Z) (flags : list open_flag) (mode : option Z)
  | Sread (fd amt : Z)
  | Swrite (fd : Z) (b : list Z)
  | Sclose (fd : Z)
  | Sgetfl (fd : Z)
  | Ssetfl (fd flags : Z)
  | Spoll (fds : list (Z * bool)) (timeout : Z)
  | Sisatty (fd : Z)
  | Spipe
  | Sfork
  | Sdup2 (fd fd' : Z)
  | Schdir (dir : list Z)
  | Sexecv (path : list Z) (argv : list (list Z))
  | Sexecve (path : list Z) (argv envp : list (list Z))
  | Swait
  | Swaitpid (pid : Z)
  | Sunlink (path : list Z)
  | Sblock
  | Sunblock
  | Sstat (path : list Z)
  | Slstat (path : list Z)
  | Sfstat (fd : Z)
  | Sfchmod (fd mode : Z)
  | Srename (path path' : list Z)
  | Smkdir (path : list Z) (mode : Z)
  | Srmdir (path : list Z)
  | Sopendir (path : list Z)
  | Sreaddir (dir : Z)
  | Sclosedir (dir : Z)
  | Sreadlink (path : list Z) (size : Z)
  | Ssymlink (target path : list Z)
  | Sgettimeofday
  | Ssigaction (sig : Z) (restart : bool).

(** The value of a call that succeeds with what it stores through its pointer
    arguments, or [errno] when it returns -1. *)
Inductive sysret : Type :=
  | Sret (r : Z) (out : list Z)
  | Serrno (e : Z).

Definition ENOENT : Z := 2.
Definition EINTR : Z := 4.
Definition EAGAIN : Z := 11.
Definition O_NONBLOCK : Z := 2048.

#[export] Instance open_flag_eq_dec : EqDecision open_flag.
Proof. solve_decision. Defined.
#[export] Instance syscall_eq_dec : EqDecision syscall.
Proof. solve_decision. Defined.

Record sys := Sys {
  sys_calls : list syscall;
  zuo_signal_suspended : Z;
  sys_stdout : list Z
}.

Definition sys_init : sys := Sys [] 0 [].

Definition set_sys_calls (v : list syscall) (r : sys) : sys :=
  let 'Sys _ x1 x2 := r in Sys v x1 x2.
Definition set_zuo_signal_suspended (v : Z) (r : sys) : sys :=
  let 'Sys x0 _ x2 := r in Sys x0 v x2.
Definition set_sys_stdout (v : list Z) (r : sys) : sys :=
  let 'Sys x0 x1 _ := r in Sys x0 x1 v.
