(* ===== verification/Heap.v ===== *)
(** * Objects, roots and the memory manager

    The object layouts of zuo.c, the GC roots, and the allocator and
    collector state, over which every other file is written.  A [zuo_t *] is
    an address; the heap is a finite map from addresses to objects. *)

From S2P Require Import Prelude Sys.

(** ** Addresses and object layouts *)

Abbreviation loc := Z (only parsing).

(** [zuo_tag_t] *)
Inductive zuo_tag_t : Set :=
  | zuo_singleton_tag
  | zuo_pair_tag
  | zuo_integer_tag
  | zuo_string_tag
  | zuo_symbol_tag
  | zuo_trie_node_tag
  | zuo_variable_tag
  | zuo_primitive_tag
  | zuo_closure_tag
  | zuo_handle_tag
  | zuo_opaque_tag
  | zuo_cont_tag
  | zuo_forwarded_tag.

#[export] Instance zuo_tag_t_eq_dec : EqDecision zuo_tag_t.
Proof. solve_decision. Defined.

Definition ZUO_TRIE_BFACTOR_BITS : Z := 4.
Definition ZUO_TRIE_BFACTOR : Z := Z.shiftl 1 ZUO_TRIE_BFACTOR_BITS.
Definition ZUO_TRIE_BFACTOR_MASK : Z := ZUO_TRIE_BFACTOR - 1.

(** only try to count up to this high for arity checking *)
Definition ZUO_MAX_PRIM_ARITY : Z := 10.

Inductive zuo_handle_status_t : Set :=
  | zuo_handle_open_fd_in_status
  | zuo_handle_open_fd_out_status
  | zuo_handle_closed_status
  | zuo_handle_process_running_status
  | zuo_handle_process_done_status
  | zuo_handle_cleanable_status.

Inductive zuo_cont_tag_t : Set :=
  | zuo_apply_cont
  | zuo_begin_cont
  | zuo_let_cont
  | zuo_if_cont
  | zuo_done_cont.

#[export] Instance zuo_cont_tag_t_eq_dec : EqDecision zuo_cont_tag_t.
Proof. solve_decision. Defined.

(** The calling conventions: the [dispatch_primitive*] functions. *)
Inductive dispatcher : Set :=
  | dispatch_primitive0 | dispatch_primitive1 | dispatch_primitive2
  | dispatch_primitive3 | dispatch_primitivea | dispatch_primitiveb
  | dispatch_primitivec | dispatch_primitiveC | dispatch_primitiveN.

#[export] Instance dispatcher_eq_dec : EqDecision dispatcher.
Proof. solve_decision. Defined.

(** An object: one constructor per [zuo_*_t] struct.  A [zuo_proc_t] (the C
    function behind a primitive) is its name in the primitive table. *)
Inductive obj : Type :=
  | Osingleton
  | Opair (car cdr : loc)
  | Ointeger (i : Z)
  | Ostring (s : list Z)
  | Osymbol (id : Z) (str : loc)
  | Otrie_node (count : Z) (key val : loc) (next : list loc)
  | Ovariable (name val : loc)
  | Oprimitive (disp : dispatcher) (proc : string) (arity_mask : Z) (name : loc)
  | Oclosure (lambda env : loc)
  | Ohandle (id : Z) (status : zuo_handle_status_t) (raw : Z)
  | Oopaque (tag val : loc)
  | Ocont (tag : zuo_cont_tag_t) (data env in_proc next : loc)
  | Oforwarded (forward : loc).

(** [obj->tag] *)
Definition obj_tag (o : obj) : zuo_tag_t :=
  match o with
  | Osingleton => zuo_singleton_tag
  | Opair _ _ => zuo_pair_tag
  | Ointeger _ => zuo_integer_tag
  | Ostring _ => zuo_string_tag
  | Osymbol _ _ => zuo_symbol_tag
  | Otrie_node _ _ _ _ => zuo_trie_node_tag
  | Ovariable _ _ => zuo_variable_tag
  | Oprimitive _ _ _ _ => zuo_primitive_tag
  | Oclosure _ _ => zuo_closure_tag
  | Ohandle _ _ _ => zuo_handle_tag
  | Oopaque _ _ => zuo_opaque_tag
  | Ocont _ _ _ _ _ => zuo_cont_tag
  | Oforwarded _ => zuo_forwarded_tag
  end.

(** [sizeof] of the layouts, for 8-byte pointers aligned at 8. *)
Definition sizeof_intptr : Z := 8.
Definition sizeof_forwarded : Z := 16.
Definition sizeof_integer : Z := 16.
Definition sizeof_pair : Z := 24.
Definition sizeof_string : Z := 24.
Definition sizeof_symbol : Z := 16.
Definition sizeof_trie_node : Z := 160.
Definition sizeof_variable : Z := 24.
Definition sizeof_primitive : Z := 40.
Definition sizeof_closure : Z := 24.
Definition sizeof_handle : Z := 32.
Definition sizeof_opaque : Z := 24.
Definition sizeof_cont : Z := 40.

Definition ZUO_STRING_ALLOC_SIZE (len : Z) : Z := sizeof_string + len.

(** ** Roots *)

(** [zuo_roots.image]: the roots kept in an image dump, in memory order. *)
Record image := Image {
  o_undefined : loc;
  o_true : loc;
  o_false : loc;
  o_null : loc;
  o_eof : loc;
  o_void : loc;
  o_empty_hash : loc;
  o_done_k : loc;
  o_apply : loc;
  o_call_cc : loc;
  o_call_prompt : loc;
  o_kernel_eval : loc;
  o_kernel_read_string : loc;
  o_module_to_hash_star : loc;
  o_get_read_and_eval : loc;
  o_register_module : loc;
  o_intern_table : loc;
  o_top_env : loc;
  o_modules : loc;
  o_quote_symbol : loc;
  o_lambda_symbol : loc;
  o_let_symbol : loc;
  o_begin_symbol : loc;
  o_if_symbol : loc
}.

Definition set_o_undefined (v : loc) (r : image) : image :=
  let 'Image _ x1 x2 x3 x4 x5 x6 x7 x8 x9 x10 x11 x12 x13 x14 x15 x16 x17 x18 x19 x20 x21 x22 x23 := r in
  Image v x1 x2 x3 x4 x5 x6 x7 x8 x9 x10 x11 x12 x13 x14 x15 x16 x17 x18 x19 x20 x21 x22 x23.
Definition set_o_true (v : loc) (r : image) : image :=
  let 'Image x0 _ x2 x3 x4 x5 x6 x7 x8 x9 x10 x11 x12 x13 x14 x15 x16 x17 x18 x19 x20 x21 x22 x23 := r in
  Image x0 v x2 x3 x4 x5 x6 x7 x8 x9 x10 x11 x12 x13 x14 x15 x16 x17 x18 x19 x20 x21 x22 x23.
Definition set_o_false (v : loc) (r : image) : image :=
  let 'Image x0 x1 _ x3 x4 x5 x6 x7 x8 x9 x10 x11 x12 x13 x14 x15 x16 x17 x18 x19 x20 x21 x22 x23 := r in
  Image x0 x1 v x3 x4 x5 x6 x7 x8 x9 x10 x11 x12 x13 x14 x15 x16 x17 x18 x19 x20 x21 x22 x23.
Definition set_o_null (v : loc) (r : image) : image :=
  let 'Image x0 x1 x2 _ x4 x5 x6 x7 x8 x9 x10 x11 x12 x13 x14 x15 x16 x17 x18 x19 x20 x21 x22 x23 := r in
  Image x0 x1 x2 v x4 x5 x6 x7 x8 x9 x10 x11 x12 x13 x14 x15 x16 x17 x18 x19 x20 x21 x22 x23.
Definition set_o_eof (v : loc) (r : image) : image :=
  let 'Image x0 x1 x2 x3 _ x5 x6 x7 x8 x9 x10 x11 x12 x13 x14 x15 x16 x17 x18 x19 x20 x21 x22 x23 := r in
  Image x0 x1 x2 x3 v x5 x6 x7 x8 x9 x10 x11 x12 x13 x14 x15 x16 x17 x18 x19 x20 x21 x22 x23.
Definition set_o_void (v : loc) (r : image) : image :=
  let 'Image x0 x1 x2 x3 x4 _ x6 x7 x8 x9 x10 x11 x12 x13 x14 x15 x16 x17 x18 x19 x20 x21 x22 x23 := r in
  Image x0 x1 x2 x3 x4 v x6 x7 x8 x9 x10 x11 x12 x13 x14 x15 x16 x17 x18 x19 x20 x21 x22 x23.
Definition set_o_empty_hash (v : loc) (r : image) : image :=
  let 'Image x0 x1 x2 x3 x4 x5 _ x7 x8 x9 x10 x11 x12 x13 x14 x15 x16 x17 x18 x19 x20 x21 x22 x23 := r in
  Image x0 x1 x2 x3 x4 x5 v x7 x8 x9 x10 x11 x12 x13 x14 x15 x16 x17 x18 x19 x20 x21 x22 x23.
Definition set_o_done_k (v : loc) (r : image) : image :=
  let 'Image x0 x1 x2 x3 x4 x5 x6 _ x8 x9 x10 x11 x12 x13 x14 x15 x16 x17 x18 x19 x20 x21 x22 x23 := r in
  Image x0 x1 x2 x3 x4 x5 x6 v x8 x9 x10 x11 x12 x13 x14 x15 x16 x17 x18 x19 x20 x21 x22 x23.
Definition set_o_apply (v : loc) (r : image) : image :=
  let 'Image x0 x1 x2 x3 x4 x5 x6 x7 _ x9 x10 x11 x12 x13 x14 x15 x16 x17 x18 x19 x20 x21 x22 x23 := r in
  Image x0 x1 x2 x3 x4 x5 x6 x7 v x9 x10 x11 x12 x13 x14 x15 x16 x17 x18 x19 x20 x21 x22 x23.
Definition set_o_call_cc (v : loc) (r : image) : image :=
  let 'Image x0 x1 x2 x3 x4 x5 x6 x7 x8 _ x10 x11 x12 x13 x14 x15 x16 x17 x18 x19 x20 x21 x22 x23 := r in
  Image x0 x1 x2 x3 x4 x5 x6 x7 x8 v x10 x11 x12 x13 x14 x15 x16 x17 x18 x19 x20 x21 x22 x23.
Definition set_o_call_prompt (v : loc) (r : image) : image :=
  let 'Image x0 x1 x2 x3 x4 x5 x6 x7 x8 x9 _ x11 x12 x13 x14 x15 x16 x17 x18 x19 x20 x21 x22 x23 := r in
  Image x0 x1 x2 x3 x4 x5 x6 x7 x8 x9 v x11 x12 x13 x14 x15 x16 x17 x18 x19 x20 x21 x22 x23.
Definition set_o_kernel_eval (v : loc) (r : image) : image :=
  let 'Image x0 x1 x2 x3 x4 x5 x6 x7 x8 x9 x10 _ x12 x13 x14 x15 x16 x17 x18 x19 x20 x21 x22 x23 := r in
  Image x0 x1 x2 x3 x4 x5 x6 x7 x8 x9 x10 v x12 x13 x14 x15 x16 x17 x18 x19 x20 x21 x22 x23.
Definition set_o_kernel_read_string (v : loc) (r : image) : image :=
  let 'Image x0 x1 x2 x3 x4 x5 x6 x7 x8 x9 x10 x11 _ x13 x14 x15 x16 x17 x18 x19 x20 x21 x22 x23 := r in
  Image x0 x1 x2 x3 x4 x5 x6 x7 x8 x9 x10 x11 v x13 x14 x15 x16 x17 x18 x19 x20 x21 x22 x23.
Definition set_o_module_to_hash_star (v : loc) (r : image) : image :=
  let 'Image x0 x1 x2 x3 x4 x5 x6 x7 x8 x9 x10 x11 x12 _ x14 x15 x16 x17 x18 x19 x20 x21 x22 x23 := r in
  Image x0 x1 x2 x3 x4 x5 x6 x7 x8 x9 x10 x11 x12 v x14 x15 x16 x17 x18 x19 x20 x21 x22 x23.
Definition set_o_get_read_and_eval (v : loc) (r : image) : image :=
  let 'Image x0 x1 x2 x3 x4 x5 x6 x7 x8 x9 x10 x11 x12 x13 _ x15 x16 x17 x18 x19 x20 x21 x22 x23 := r in
  Image x0 x1 x2 x3 x4 x5 x6 x7 x8 x9 x10 x11 x12 x13 v x15 x16 x17 x18 x19 x20 x21 x22 x23.
Definition set_o_register_module (v : loc) (r : image) : image :=
  let 'Image x0 x1 x2 x3 x4 x5 x6 x7 x8 x9 x10 x11 x12 x13 x14 _ x16 x17 x18 x19 x20 x21 x22 x23 := r in
  Image x0 x1 x2 x3 x4 x5 x6 x7 x8 x9 x10 x11 x12 x13 x14 v x16 x17 x18 x19 x20 x21 x22 x23.
Definition set_o_intern_table (v : loc) (r : image) : image :=
  let 'Image x0 x1 x2 x3 x4 x5 x6 x7 x8 x9 x10 x11 x12 x13 x14 x15 _ x17 x18 x19 x20 x21 x22 x23 := r in
  Image x0 x1 x2 x3 x4 x5 x6 x7 x8 x9 x10 x11 x12 x13 x14 x15 v x17 x18 x19 x20 x21 x22 x23.
Definition set_o_top_env (v : loc) (r : image) : image :=
  let 'Image x0 x1 x2 x3 x4 x5 x6 x7 x8 x9 x10 x11 x12 x13 x14 x15 x16 _ x18 x19 x20 x21 x22 x23 := r in
  Image x0 x1 x2 x3 x4 x5 x6 x7 x8 x9 x10 x11 x12 x13 x14 x15 x16 v x18 x19 x20 x21 x22 x23.
Definition set_o_modules (v : loc) (r : image) : image :=
  let 'Image x0 x1 x2 x3 x4 x5 x6 x7 x8 x9 x10 x11 x12 x13 x14 x15 x16 x17 _ x19 x20 x21 x22 x23 := r in
  Image x0 x1 x2 x3 x4 x5 x6 x7 x8 x9 x10 x11 x12 x13 x14 x15 x16 x17 v x19 x20 x21 x22 x23.
Definition set_o_quote_symbol (v : loc) (r : image) : image :=
  let 'Image x0 x1 x2 x3 x4 x5 x6 x7 x8 x9 x10 x11 x12 x13 x14 x15 x16 x17 x18 _ x20 x21 x22 x23 := r in
  Image x0 x1 x2 x3 x4 x5 x6 x7 x8 x9 x10 x11 x12 x13 x14 x15 x16 x17 x18 v x20 x21 x22 x23.
Definition set_o_lambda_symbol (v : loc) (r : image) : image :=
  let 'Image x0 x1 x2 x3 x4 x5 x6 x7 x8 x9 x10 x11 x12 x13 x14 x15 x16 x17 x18 x19 _ x21 x22 x23 := r in
  Image x0 x1 x2 x3 x4 x5 x6 x7 x8 x9 x10 x11 x12 x13 x14 x15 x16 x17 x18 x19 v x21 x22 x23.
Definition set_o_let_symbol (v : loc) (r : image) : image :=
  let 'Image x0 x1 x2 x3 x4 x5 x6 x7 x8 x9 x10 x11 x12 x13 x14 x15 x16 x17 x18 x19 x20 _ x22 x23 := r in
  Image x0 x1 x2 x3 x4 x5 x6 x7 x8 x9 x10 x11 x12 x13 x14 x15 x16 x17 x18 x19 x20 v x22 x23.
Definition set_o_begin_symbol (v : loc) (r : image) : image :=
  let 'Image x0 x1 x2 x3 x4 x5 x6 x7 x8 x9 x10 x11 x12 x13 x14 x15 x16 x17 x18 x19 x20 x21 _ x23 := r in
  Image x0 x1 x2 x3 x4 x5 x6 x7 x8 x9 x10 x11 x12 x13 x14 x15 x16 x17 x18 x19 x20 x21 v x23.
Definition set_o_if_symbol (v : loc) (r : image) : image :=
  let 'Image x0 x1 x2 x3 x4 x5 x6 x7 x8 x9 x10 x11 x12 x13 x14 x15 x16 x17 x18 x19 x20 x21 x22 _ := r in
  Image x0 x1 x2 x3 x4 x5 x6 x7 x8 x9 x10 x11 x12 x13 x14 x15 x16 x17 x18 x19 x20 x21 x22 v.

(** [zuo_roots.runtime]: the interpreter registers and the tables that are not
    part of a dump, in memory order (the Unix layout). *)
Record runtime := Runtime {
  o_interp_e : loc;
  o_interp_v : loc;
  o_interp_env : loc;
  o_interp_k : loc;
  o_interp_in_proc : loc;
  o_interp_meta_k : loc;
  o_pending_modules : loc;
  o_pid_table : loc;
  o_fd_table : loc;
  o_cleanable_table : loc;
  o_library_path : loc;
  o_runtime_env : loc;
  o_stash : loc
}.

Definition set_o_interp_e (v : loc) (r : runtime) : runtime :=
  let 'Runtime _ x1 x2 x3 x4 x5 x6 x7 x8 x9 x10 x11 x12 := r in
  Runtime v x1 x2 x3 x4 x5 x6 x7 x8 x9 x10 x11 x12.
Definition set_o_interp_v (v : loc) (r : runtime) : runtime :=
  let 'Runtime x0 _ x2 x3 x4 x5 x6 x7 x8 x9 x10 x11 x12 := r in
  Runtime x0 v x2 x3 x4 x5 x6 x7 x8 x9 x10 x11 x12.
Definition set_o_interp_env (v : loc) (r : runtime) : runtime :=
  let 'Runtime x0 x1 _ x3 x4 x5 x6 x7 x8 x9 x10 x11 x12 := r in
  Runtime x0 x1 v x3 x4 x5 x6 x7 x8 x9 x10 x11 x12.
Definition set_o_interp_k (v : loc) (r : runtime) : runtime :=
  let 'Runtime x0 x1 x2 _ x4 x5 x6 x7 x8 x9 x10 x11 x12 := r in
  Runtime x0 x1 x2 v x4 x5 x6 x7 x8 x9 x10 x11 x12.
Definition set_o_interp_in_proc (v : loc) (r : runtime) : runtime :=
  let 'Runtime x0 x1 x2 x3 _ x5 x6 x7 x8 x9 x10 x11 x12 := r in
  Runtime x0 x1 x2 x3 v x5 x6 x7 x8 x9 x10 x11 x12.
Definition set_o_interp_meta_k (v : loc) (r : runtime) : runtime :=
  let 'Runtime x0 x1 x2 x3 x4 _ x6 x7 x8 x9 x10 x11 x12 := r in
  Runtime x0 x1 x2 x3 x4 v x6 x7 x8 x9 x10 x11 x12.
Definition set_o_pending_modules (v : loc) (r : runtime) : runtime :=
  let 'Runtime x0 x1 x2 x3 x4 x5 _ x7 x8 x9 x10 x11 x12 := r in
  Runtime x0 x1 x2 x3 x4 x5 v x7 x8 x9 x10 x11 x12.
Definition set_o_pid_table (v : loc) (r : runtime) : runtime :=
  let 'Runtime x0 x1 x2 x3 x4 x5 x6 _ x8 x9 x10 x11 x12 := r in
  Runtime x0 x1 x2 x3 x4 x5 x6 v x8 x9 x10 x11 x12.
Definition set_o_fd_table (v : loc) (r : runtime) : runtime :=
  let 'Runtime x0 x1 x2 x3 x4 x5 x6 x7 _ x9 x10 x11 x12 := r in
  Runtime x0 x1 x2 x3 x4 x5 x6 x7 v x9 x10 x11 x12.
Definition set_o_cleanable_table (v : loc) (r : runtime) : runtime :=
  let 'Runtime x0 x1 x2 x3 x4 x5 x6 x7 x8 _ x10 x11 x12 := r in
  Runtime x0 x1 x2 x3 x4 x5 x6 x7 x8 v x10 x11 x12.
Definition set_o_library_path (v : loc) (r : runtime) : runtime :=
  let 'Runtime x0 x1 x2 x3 x4 x5 x6 x7 x8 x9 _ x11 x12 := r in
  Runtime x0 x1 x2 x3 x4 x5 x6 x7 x8 x9 v x11 x12.
Definition set_o_runtime_env (v : loc) (r : runtime) : runtime :=
  let 'Runtime x0 x1 x2 x3 x4 x5 x6 x7 x8 x9 x10 _ x12 := r in
  Runtime x0 x1 x2 x3 x4 x5 x6 x7 x8 x9 x10 v x12.
Definition set_o_stash (v : loc) (r : runtime) : runtime :=
  let 'Runtime x0 x1 x2 x3 x4 x5 x6 x7 x8 x9 x10 x11 _ := r in
  Runtime x0 x1 x2 x3 x4 x5 x6 x7 x8 x9 x10 x11 v.

(** The roots as the array of [zuo_t] pointers that the collector walks. *)
Definition image_list (r : image) : list loc :=
  let 'Image x0 x1 x2 x3 x4 x5 x6 x7 x8 x9 x10 x11 x12 x13 x14 x15 x16 x17 x18 x19 x20 x21 x22 x23 := r in
  [x0; x1; x2; x3; x4; x5; x6; x7; x8; x9; x10; x11; x12; x13; x14; x15; x16; x17; x18; x19; x20; x21; x22; x23].

Definition image_of_list (l : list loc) : option image :=
  match l with
  | [x0; x1; x2; x3; x4; x5; x6; x7; x8; x9; x10; x11; x12; x13; x14; x15; x16; x17; x18; x19; x20; x21; x22; x23] =>
      Some (Image x0 x1 x2 x3 x4 x5 x6 x7 x8 x9 x10 x11 x12 x13 x14 x15 x16 x17 x18 x19 x20 x21 x22 x23)
  | _ => None
  end.

Lemma image_of_list_list r : image_of_list (image_list r) = Some r.
Proof. by destruct r. Qed.

Lemma image_list_length r : length (image_list r) = 24%nat.
Proof. by destruct r. Qed.

Lemma image_of_list_Some l : length l = 24%nat → ∃ r, image_of_list l = Some r ∧ image_list r = l.
Proof. intros H. do 24 (destruct l as [|? l]; [done|]). destruct l; [|done]. eauto. Qed.

(** The roots as the array of [zuo_t] pointers that the collector walks. *)
Definition runtime_list (r : runtime) : list loc :=
  let 'Runtime x0 x1 x2 x3 x4 x5 x6 x7 x8 x9 x10 x11 x12 := r in
  [x0; x1; x2; x3; x4; x5; x6; x7; x8; x9; x10; x11; x12].

Definition runtime_of_list (l : list loc) : option runtime :=
  match l with
  | [x0; x1; x2; x3; x4; x5; x6; x7; x8; x9; x10; x11; x12] =>
      Some (Runtime x0 x1 x2 x3 x4 x5 x6 x7 x8 x9 x10 x11 x12)
  | _ => None
  end.

Lemma runtime_of_list_list r : runtime_of_list (runtime_list r) = Some r.
Proof. by destruct r. Qed.

Lemma runtime_list_length r : length (runtime_list r) = 13%nat.
Proof. by destruct r. Qed.

Lemma runtime_of_list_Some l : length l = 13%nat → ∃ r, runtime_of_list l = Some r ∧ runtime_list r = l.
Proof. intros H. do 13 (destruct l as [|? l]; [done|]). destruct l; [|done]. eauto. Qed.

(** ** The memory manager's state *)

(** [old_space_t]: a space and its size. *)
Record old_space_t := OldSpace { space : loc; size_of_space : Z }.

(** The allocator's globals.  [brk] is the first address [malloc] has not yet
    handed out; [to_space = 0] is the null pointer of the initial state. *)
Record mem := Mem {
  heap : gmap Z obj;
  brk : Z;
  heap_size : Z;
  to_space : Z;
  allocation_offset : Z;
  total_allocation : Z;
  gc_threshold : Z;
  old_spaces : list old_space_t;
  free_spaces : list old_space_t
}.

Definition set_heap (v : gmap Z obj) (r : mem) : mem :=
  let 'Mem _ x1 x2 x3 x4 x5 x6 x7 x8 := r in
  Mem v x1 x2 x3 x4 x5 x6 x7 x8.
Definition set_brk (v : Z) (r : mem) : mem :=
  let 'Mem x0 _ x2 x3 x4 x5 x6 x7 x8 := r in
  Mem x0 v x2 x3 x4 x5 x6 x7 x8.
Definition set_heap_size (v : Z) (r : mem) : mem :=
  let 'Mem x0 x1 _ x3 x4 x5 x6 x7 x8 := r in
  Mem x0 x1 v x3 x4 x5 x6 x7 x8.
Definition set_to_space (v : Z) (r : mem) : mem :=
  let 'Mem x0 x1 x2 _ x4 x5 x6 x7 x8 := r in
  Mem x0 x1 x2 v x4 x5 x6 x7 x8.
Definition set_allocation_offset (v : Z) (r : mem) : mem :=
  let 'Mem x0 x1 x2 x3 _ x5 x6 x7 x8 := r in
  Mem x0 x1 x2 x3 v x5 x6 x7 x8.
Definition set_total_allocation (v : Z) (r : mem) : mem :=
  let 'Mem x0 x1 x2 x3 x4 _ x6 x7 x8 := r in
  Mem x0 x1 x2 x3 x4 v x6 x7 x8.
Definition set_gc_threshold (v : Z) (r : mem) : mem :=
  let 'Mem x0 x1 x2 x3 x4 x5 _ x7 x8 := r in
  Mem x0 x1 x2 x3 x4 x5 v x7 x8.
Definition set_old_spaces (v : list old_space_t) (r : mem) : mem :=
  let 'Mem x0 x1 x2 x3 x4 x5 x6 _ x8 := r in
  Mem x0 x1 x2 x3 x4 x5 x6 v x8.
Definition set_free_spaces (v : list old_space_t) (r : mem) : mem :=
  let 'Mem x0 x1 x2 x3 x4 x5 x6 x7 _ := r in
  Mem x0 x1 x2 x3 x4 x5 x6 x7 v.

(** The whole C state of a Zuo process that the model follows. *)
Record st := St {
  s_mem : mem;
  s_img : image;
  s_rt : runtime;
  zuo_symbol_count : Z;
  zuo_handle_count : Z;
  s_sys : sys
}.

Definition set_s_mem (v : mem) (r : st) : st :=
  let 'St _ x1 x2 x3 x4 x5 := r in
  St v x1 x2 x3 x4 x5.
Definition set_s_img (v : image) (r : st) : st :=
  let 'St x0 _ x2 x3 x4 x5 := r in
  St x0 v x2 x3 x4 x5.
Definition set_s_rt (v : runtime) (r : st) : st :=
  let 'St x0 x1 _ x3 x4 x5 := r in
  St x0 x1 v x3 x4 x5.
Definition set_zuo_symbol_count (v : Z) (r : st) : st :=
  let 'St x0 x1 x2 _ x4 x5 := r in
  St x0 x1 x2 v x4 x5.
Definition set_zuo_handle_count (v : Z) (r : st) : st :=
  let 'St x0 x1 x2 x3 _ x5 := r in
  St x0 x1 x2 x3 v x5.
Definition set_s_sys (v : sys) (r : st) : st :=
  let 'St x0 x1 x2 x3 x4 _ := r in
  St x0 x1 x2 x3 x4 v.

(** ** The runtime monad *)

(** How a run ends when it ends the process.  The error functions all print a
    message, then a stack trace, and exit with status 1; what is printed is
    determined by the data kept here.  [Eexit] ends without a message,
    [E_exit] is [_exit], and [Eexec] when another program takes over the
    process. *)
Inductive error : Type :=
  | Epanic (s : string)
  | Efail (msg : list Z)
  | Efail1w (who msg : list Z) (o : loc)
  | Efail1w_errno (who msg : list Z) (o : loc) (errno : Z)
  | Eread (msg : list Z) (pos : Z) (where_ : loc)
  | Ebad_form (e : loc)
  | Eundefined (name : loc)
  | Eerror (objs : loc)
  | Eexit (v : Z)
  | E_exit (v : Z)
  | Eexec (path : list Z) (argv : list (list Z)).

Abbreviation M := (comp st error).

Definition ub {A} (why : string) : M A := λ _, UB why.
Definition fail {A} (e : error) : M A := λ s, Fail e s.
Definition get_st : M st := λ s, Ok s s.
Definition put_st (s : st) : M unit := λ _, Ok tt s.
Definition mod_st (f : st → st) : M unit := λ s, Ok tt (f s).

(** Writing through [stdout]. *)
Definition write_stdout (b : list Z) : M unit :=
  mod_st (λ s, set_s_sys (set_sys_stdout (sys_stdout (s_sys s) ++ b) (s_sys s)) s).

(** [z.field] and [Z.field], and assignments to them. *)
Definition zi (f : image → loc) : M loc := λ s, Ok (f (s_img s)) s.
Definition zr (f : runtime → loc) : M loc := λ s, Ok (f (s_rt s)) s.
Definition set_zi (f : loc → image → image) (v : loc) : M unit :=
  mod_st (λ s, set_s_img (f v (s_img s)) s).
Definition set_zr (f : loc → runtime → runtime) (v : loc) : M unit :=
  mod_st (λ s, set_s_rt (f v (s_rt s)) s).

(** [l == z.field] *)
Definition is_zi (f : image → loc) (l : loc) : M bool :=
  λ s, Ok (bool_decide (l = f (s_img s))) s.

(** The allocator's globals. *)
Definition gm {A} (f : mem → A) : M A := λ s, Ok (f (s_mem s)) s.
Definition mod_mem (f : mem → mem) : M unit := mod_st (λ s, set_s_mem (f (s_mem s)) s).

(** Reading and writing through a pointer; no object there is undefined
    behaviour. *)
Definition s_heap (s : st) : gmap Z obj := heap (s_mem s).
Definition get (l : loc) : M obj := λ s,
  match s_heap s !! l with
  | Some o => Ok o s
  | None => UB "access through an invalid pointer"
  end.
Definition set_heap_at (l : loc) (o : obj) (s : st) : st :=
  set_s_mem (set_heap (<[l := o]> (s_heap s)) (s_mem s)) s.
Definition put (l : loc) (o : obj) : M unit := λ s,
  match s_heap s !! l with
  | Some _ => Ok tt (set_heap_at l o s)
  | None => UB "store through an invalid pointer"
  end.

(** [l->tag == t] *)
Definition has_tag (t : zuo_tag_t) (l : loc) : M bool :=
  o <- get l ;; ret (bool_decide (obj_tag o = t)).

(** Casts: a field access through the wrong struct type is undefined. *)
Definition ZUO_CAR (l : loc) : M loc :=
  o <- get l ;;
  match o with Opair a _ => ret a | _ => ub "car of a non-pair" end.
Definition ZUO_CDR (l : loc) : M loc :=
  o <- get l ;;
  match o with Opair _ d => ret d | _ => ub "cdr of a non-pair" end.
Definition set_ZUO_CDR (l v : loc) : M unit :=
  o <- get l ;;
  match o with Opair a _ => put l (Opair a v) | _ => ub "cdr of a non-pair" end.
Definition ZUO_INT_I (l : loc) : M Z :=
  o <- get l ;;
  match o with Ointeger i => ret i | _ => ub "integer field of a non-integer" end.
Definition ZUO_UINT_I (l : loc) : M Z := i <- ZUO_INT_I l ;; ret (to_u64 i).
Definition ZUO_STRING_PTR (l : loc) : M (list Z) :=
  o <- get l ;;
  match o with Ostring b => ret b | _ => ub "string bytes of a non-string" end.
Definition ZUO_STRING_LEN (l : loc) : M Z :=
  b <- ZUO_STRING_PTR l ;; ret (Z.of_nat (length b)).
Definition symbol_id (l : loc) : M Z :=
  o <- get l ;;
  match o with Osymbol i _ => ret i | _ => ub "id of a non-symbol" end.
Definition symbol_str (l : loc) : M loc :=
  o <- get l ;;
  match o with Osymbol _ b => ret b | _ => ub "str of a non-symbol" end.

(** A loop that follows the links of heap objects makes at most as many
    iterations as the heap has objects, unless it runs for ever: it is given
    that many, and [Diverge] when they run out. *)
Definition heap_fuel (s : st) : nat := S (size (s_heap s)).

(** ** The memory manager *)

Definition ZUO_MIN_HEAP_SIZE : Z := 32 * 1024 * 1024.

(** Rounds up to a multiple of the pointer size. *)
Definition ALLOC_ALIGN (i : Z) : Z :=
  Z.land (i + (sizeof_intptr - 1)) (Z.lnot (sizeof_intptr - 1)).

(** [malloc] returns a block disjoint from every block it returned before. *)
Definition malloc (n : Z) : M loc :=
  b <- gm brk ;;
  mod_mem (set_brk (b + ALLOC_ALIGN n)) ;;;
  ret b.

(** What a block holds is lost when it is released. *)
Definition in_space (sp : old_space_t) (a : Z) : bool :=
  (space sp <=? a) && (a <? space sp + size_of_space sp).
Definition discard (sp : old_space_t) (h : gmap Z obj) : gmap Z obj :=
  filter (λ '(a, _), in_space sp a = false) h.
Definition free (sp : old_space_t) : M unit :=
  h <- gm heap ;; mod_mem (set_heap (discard sp h)).

(** The first recyclable space of at least [min_size], and the others. *)
Fixpoint find_space (min_size : Z) (l : list old_space_t) :
    option (old_space_t * list old_space_t) :=
  match l with
  | [] => None
  | sp :: l' =>
      if min_size <=? size_of_space sp then Some (sp, l')
      else match find_space min_size l' with
           | Some (r, l'') => Some (r, sp :: l'')
           | None => None
           end
  end.

(** The result is the space and the new value of [*size]. *)
Definition malloc_or_recycle (min_size size : Z) : M (loc * Z) :=
  fs <- gm free_spaces ;;
  match find_space min_size fs with
  | Some (sp, fs') =>
      mod_mem (set_free_spaces fs') ;;;
      ret (space sp, size_of_space sp)
  | None =>
      p <- malloc size ;;
      ret (p, size)
  end.

(** The first space is created on the first allocation. *)
Definition ensure_to_space : M unit :=
  t <- gm to_space ;;
  if decide (t = 0) then
    hs <- gm heap_size ;;
    r <- malloc_or_recycle hs hs ;;
    mod_mem (λ m, set_to_space (fst r) (set_heap_size (snd r) (set_gc_threshold (snd r) m)))
  else ret tt.

(** When the current space has no room, it joins the old spaces and another
    one takes its place. *)
Definition ensure_room (size : Z) : M unit :=
  off <- gm allocation_offset ;;
  hs <- gm heap_size ;;
  if hs <? off + size then
    t <- gm to_space ;;
    os <- gm old_spaces ;;
    mod_mem (set_old_spaces (OldSpace t hs :: os)) ;;;
    mod_mem (set_heap_size (if hs <? size then size * 2 else hs)) ;;;
    hs' <- gm heap_size ;;
    r <- malloc_or_recycle (size * 2) hs' ;;
    mod_mem (λ m, set_to_space (fst r) (set_heap_size (snd r) (set_allocation_offset 0 m)))
  else ret tt.

(** [zuo_new(tag, size)] followed by the stores that fill the object in. *)
Definition zuo_new (o : obj) (size : Z) : M loc :=
  if size <? sizeof_forwarded then ub "object too small to be forwarded" else
  let size := ALLOC_ALIGN size in
  ensure_to_space ;;;
  ensure_room size ;;;
  t <- gm to_space ;;
  off <- gm allocation_offset ;;
  let p := t + off in
  mod_mem (λ m,
    set_heap (<[p := o]> (heap m))
      (set_allocation_offset (allocation_offset m + size)
        (set_total_allocation (total_allocation m + size) m))) ;;;
  ret p.

(** [object_size(tag, maybe_string_len)] *)
Definition object_size (tag : zuo_tag_t) (maybe_string_len : Z) : Z :=
  match tag with
  | zuo_singleton_tag => sizeof_forwarded
  | zuo_integer_tag => sizeof_integer
  | zuo_string_tag => ZUO_STRING_ALLOC_SIZE maybe_string_len
  | zuo_pair_tag => sizeof_pair
  | zuo_symbol_tag => sizeof_symbol
  | zuo_trie_node_tag => sizeof_trie_node
  | zuo_variable_tag => sizeof_variable
  | zuo_primitive_tag => sizeof_primitive
  | zuo_closure_tag => sizeof_closure
  | zuo_handle_tag => sizeof_handle
  | zuo_opaque_tag => sizeof_opaque
  | zuo_cont_tag => sizeof_cont
  | zuo_forwarded_tag => sizeof_forwarded
  end.

(** [ZUO_STRING_LEN(obj)] read tentatively from any object: only its value for
    a string is used. *)
Definition tentative_len (o : obj) : Z :=
  match o with Ostring b => Z.of_nat (length b) | _ => 0 end.

(** The size an object takes in a space. *)
Definition space_of (o : obj) : Z :=
  ALLOC_ALIGN (object_size (obj_tag o) (tentative_len o)).
