(* ===== verification/Alloc.v ===== *)
(** * The allocator's invariant

    What [zuo_new], [malloc_or_recycle] and stores through pointers preserve:
    the spaces are disjoint and lie below the break, no object lies in the part
    of the current space that is still to be handed out nor in a space kept for
    recycling, and the bytes of all objects are accounted for by
    [total_allocation].  The constructors of [Objects] and everything after
    them use the allocator through [zuo_new_ok] alone. *)

From S2P Require Import Prelude Sys Heap.

(** ** Alignment *)

Lemma ALLOC_ALIGN_eq i : ALLOC_ALIGN i = (i + 7) / 8 * 8.
Proof.
  unfold ALLOC_ALIGN, sizeof_intptr. change (8 - 1) with (Z.ones 3).
  rewrite <- Z.ldiff_land, Z.ldiff_ones_r by lia.
  rewrite Z.shiftl_mul_pow2, Z.shiftr_div_pow2 by lia. done.
Qed.

Lemma ALLOC_ALIGN_bounds i : i ≤ ALLOC_ALIGN i < i + 8.
Proof. rewrite ALLOC_ALIGN_eq. pose proof (Z.div_mod (i + 7) 8). pose proof (Z.mod_pos_bound (i + 7) 8). lia. Qed.

Lemma ALLOC_ALIGN_divide i : (8 | ALLOC_ALIGN i).
Proof. rewrite ALLOC_ALIGN_eq. by exists ((i + 7) / 8). Qed.

Lemma object_size_pos t n : 0 ≤ n → sizeof_forwarded ≤ object_size t n.
Proof. destruct t; cbv -[Z.le Z.add]; lia. Qed.

Lemma tentative_len_nonneg o : 0 ≤ tentative_len o.
Proof. destruct o; cbn; lia. Qed.

Lemma space_of_pos o : 16 ≤ space_of o.
Proof.
  unfold space_of.
  pose proof (object_size_pos (obj_tag o) _ (tentative_len_nonneg o)) as H.
  pose proof (ALLOC_ALIGN_bounds (object_size (obj_tag o) (tentative_len o))).
  unfold sizeof_forwarded in H. lia.
Qed.

(** ** Spaces *)

Definition disjoint_spaces (a b : old_space_t) : Prop :=
  space a + size_of_space a ≤ space b ∨ space b + size_of_space b ≤ space a.

Fixpoint all_disjoint (l : list old_space_t) : Prop :=
  match l with
  | [] => True
  | a :: l' => Forall (disjoint_spaces a) l' ∧ all_disjoint l'
  end.

Lemma disjoint_spaces_sym a b : disjoint_spaces a b → disjoint_spaces b a.
Proof. unfold disjoint_spaces. lia. Qed.

Lemma all_disjoint_perm l l' : l ≡ₚ l' → all_disjoint l → all_disjoint l'.
Proof.
  induction 1 as [|x l l' Hp IH|x y l|l l' l'' _ IH1 _ IH2]; cbn; auto.
  - intros [Hx Hl]. split; [by rewrite <- Hp|auto].
  - intros (Hx & Hy & Hl). apply Forall_cons in Hx as [Hxy Hx].
    repeat split; auto. constructor; auto. by apply disjoint_spaces_sym.
Qed.

Lemma find_space_perm n l r l' :
  find_space n l = Some (r, l') → l ≡ₚ r :: l' ∧ n ≤ size_of_space r.
Proof.
  revert r l'. induction l as [|sp l IH]; intros r l'; cbn; [done|].
  destruct (Z.leb_spec n (size_of_space sp)).
  - intros [= <- <-]. auto.
  - destruct (find_space n l) as [[r0 l0]|]; [|done].
    intros [= <- <-]. destruct (IH _ _ eq_refl) as [Hp ?]. split; [|done].
    rewrite Hp. constructor.
Qed.

(** Every space lies between 1 and [b], and they are pairwise disjoint. *)
Definition spaces_ok (b : Z) (l : list old_space_t) : Prop :=
  Forall (λ sp, 0 < space sp ∧ 0 ≤ size_of_space sp ∧ space sp + size_of_space sp ≤ b) l
  ∧ all_disjoint l.

Lemma spaces_ok_perm b l l' : l ≡ₚ l' → spaces_ok b l → spaces_ok b l'.
Proof.
  intros Hp [Hb Hd]. split; [by rewrite <- Hp|by eapply all_disjoint_perm].
Qed.

Lemma spaces_ok_weaken b b' l : b ≤ b' → spaces_ok b l → spaces_ok b' l.
Proof.
  intros Hb [Hl Hd]. split; [|done]. eapply Forall_impl; [done|]. cbn. intros ?. lia.
Qed.

Lemma spaces_ok_fresh b l n :
  0 < b → 0 ≤ n → spaces_ok b l → spaces_ok (b + ALLOC_ALIGN n) (OldSpace b n :: l).
Proof.
  intros Hb Hn [Hl Hd]. pose proof (ALLOC_ALIGN_bounds n). split.
  - constructor; [cbn; lia|]. eapply Forall_impl; [done|]. cbn. intros ?. lia.
  - cbn. split; [|done]. eapply Forall_impl; [done|].
    unfold disjoint_spaces. cbn. intros ?. lia.
Qed.

Lemma spaces_ok_app_r b l l' : spaces_ok b (l ++ l') → spaces_ok b l'.
Proof.
  induction l as [|x l IH]; [done|]. intros [Hl [_ Hd]]. apply IH.
  split; [|done]. by apply Forall_cons in Hl as [_ ?].
Qed.

(** ** The invariant *)

Definition current_space (m : mem) : list old_space_t :=
  if decide (to_space m = 0) then [] else [OldSpace (to_space m) (heap_size m)].

Definition all_spaces (m : mem) : list old_space_t :=
  current_space m ++ old_spaces m ++ free_spaces m.

(** The bytes taken by all objects. *)
Definition heap_bytes (h : gmap Z obj) : Z :=
  map_fold (λ _ o n, space_of o + n) 0 h.

Record mem_ok (m : mem) : Prop := {
  mo_brk : 0 < brk m;
  mo_size : 0 ≤ heap_size m;
  mo_off : 0 ≤ allocation_offset m ≤ heap_size m;
  mo_spaces : spaces_ok (brk m) (all_spaces m);
  mo_fresh : to_space m = 0 → heap m = ∅ ∧ allocation_offset m = 0;
  mo_heap : ∀ a, is_Some (heap m !! a) →
    0 < a < brk m
    ∧ ¬ (to_space m + allocation_offset m ≤ a < to_space m + heap_size m)
    ∧ Forall (λ sp, in_space sp a = false) (free_spaces m)
    ∧ Exists (λ sp, in_space sp a = true) (current_space m ++ old_spaces m);
  mo_bytes : heap_bytes (heap m) ≤ total_allocation m }.

(** The allocator state before the first allocation. *)
Definition mem_init : mem :=
  Mem ∅ 4096 ZUO_MIN_HEAP_SIZE 0 0 0 0 [] [].

Lemma mem_init_ok : mem_ok mem_init.
Proof.
  split; try done.
  intros a [? H]. cbn in H. by rewrite lookup_empty in H.
Qed.

Lemma heap_bytes_empty : heap_bytes ∅ = 0.
Proof. apply map_fold_empty. Qed.

Lemma heap_bytes_insert h a o :
  h !! a = None → heap_bytes (<[a := o]> h) = space_of o + heap_bytes h.
Proof.
  intros H. unfold heap_bytes.
  rewrite map_fold_insert_L; [done| |done]. intros. lia.
Qed.

Lemma heap_bytes_update h a o o' :
  h !! a = Some o → heap_bytes (<[a := o']> h) = heap_bytes h - space_of o + space_of o'.
Proof.
  intros H. rewrite <- (insert_id _ _ _ H) at 2.
  rewrite <- (insert_delete_eq h a o), <- (insert_delete_eq h a o').
  rewrite !heap_bytes_insert by apply lookup_delete_eq. lia.
Qed.

Lemma heap_bytes_nonneg h : 0 ≤ heap_bytes h.
Proof.
  induction h as [|a o h Ha IH] using map_ind; [by rewrite heap_bytes_empty|].
  rewrite heap_bytes_insert by done. pose proof (space_of_pos o). lia.
Qed.

Lemma heap_bytes_elem h a o : h !! a = Some o → space_of o ≤ heap_bytes h.
Proof.
  intros H. rewrite <- (insert_id _ _ _ H), <- insert_delete_eq.
  rewrite heap_bytes_insert by apply lookup_delete_eq.
  pose proof (heap_bytes_nonneg (delete a h)). lia.
Qed.

(** ** What the allocator does *)

Lemma malloc_or_recycle_ok min_size size s b l :
  0 < b → 0 ≤ min_size → 0 ≤ size →
  brk (s_mem s) = b → spaces_ok b (l ++ free_spaces (s_mem s)) →
  ∃ p sz m', malloc_or_recycle min_size size s = Ok (p, sz) (set_s_mem m' s)
    ∧ (sz = size ∨ min_size ≤ sz)
    ∧ b ≤ brk m'
    ∧ spaces_ok (brk m') (OldSpace p sz :: l ++ free_spaces m')
    ∧ m' = set_brk (brk m') (set_free_spaces (free_spaces m') (s_mem s))
    ∧ ((p = b) ∨ OldSpace p sz ∈ free_spaces (s_mem s))
    ∧ (∀ sp, sp ∈ free_spaces m' → sp ∈ free_spaces (s_mem s)).
Proof.
  intros Hb Hmin Hsz Hbrk Hok. unfold malloc_or_recycle.
  rewrite (bind_ok (gm free_spaces) _ s (free_spaces (s_mem s)) s eq_refl).
  destruct (find_space min_size (free_spaces (s_mem s))) as [[sp fs']|] eqn:Hf.
  - apply find_space_perm in Hf as [Hp Hle].
    eexists _, _, (set_free_spaces fs' (s_mem s)). split; [done|].
    destruct s as [m ? ? ? ? ?], m; cbn in *. split; [auto|]. subst b.
    split; [done|]. split_and!; [|done| |].
    + eapply spaces_ok_perm; [|exact Hok]. rewrite Hp. destruct sp; cbn.
      by rewrite Permutation_middle.
    + right. rewrite Hp. destruct sp. apply list_elem_of_here.
    + intros x Hx. rewrite Hp. by apply list_elem_of_further.
  - eexists _, _, (set_brk (brk (s_mem s) + ALLOC_ALIGN size) (s_mem s)).
    split; [done|]. destruct s as [m ? ? ? ? ?], m; cbn in *. subst b.
    pose proof (ALLOC_ALIGN_bounds size).
    split_and!; auto; [lia|]. by apply spaces_ok_fresh.
Qed.

Lemma in_space_false sp a :
  in_space sp a = false ↔ ¬ (space sp ≤ a < space sp + size_of_space sp).
Proof. unfold in_space. rewrite andb_false_iff, Z.leb_gt, Z.ltb_ge. lia. Qed.

Lemma in_space_true sp a :
  in_space sp a = true ↔ space sp ≤ a < space sp + size_of_space sp.
Proof. unfold in_space. rewrite andb_true_iff, Z.leb_le, Z.ltb_lt. lia. Qed.

(** Making a space current keeps everything but the room left in it. *)
Lemma mem_ok_new_space m m' p sz :
  mem_ok m → brk m ≤ brk m' → 0 < p → 0 ≤ sz →
  heap m' = heap m → total_allocation m' = total_allocation m →
  to_space m' = p → heap_size m' = sz → allocation_offset m' = 0 →
  spaces_ok (brk m') (OldSpace p sz :: old_spaces m' ++ free_spaces m') →
  (p = brk m ∨ OldSpace p sz ∈ free_spaces m) →
  (∀ sp, sp ∈ free_spaces m' → sp ∈ free_spaces m) →
  (∀ sp, sp ∈ current_space m ++ old_spaces m → sp ∈ old_spaces m') →
  mem_ok m'.
Proof.
  intros [Hbrk Hsz Hoff Hsp Hfr Hh Hby] Hb Hp Hsz' Eh Et Ep Es Eo Hok Hnew Hfree Hold.
  split; rewrite ?Eh, ?Et, ?Ep, ?Es, ?Eo; try lia.
  - unfold all_spaces, current_space. rewrite Ep, Es.
    rewrite decide_False by lia. exact Hok.
  - intros a Ha. destruct (Hh a Ha) as (Ha1 & Ha2 & Ha3 & Ha4).
    rewrite Forall_forall in Ha3. split_and!; [lia|lia| | |].
    + destruct Hnew as [->|Hin]; [lia|].
      apply Ha3 in Hin. rewrite in_space_false in Hin. cbn in Hin. lia.
    + apply Forall_forall. auto.
    + apply Exists_exists in Ha4 as (sp & Hin & Hsp').
      apply Exists_exists. exists sp. split; [|done]. apply elem_of_app. auto.
Qed.

(** Bumping the offset by the size of the object stored there. *)
Lemma mem_ok_bump m o :
  mem_ok m → to_space m ≠ 0 → allocation_offset m + space_of o ≤ heap_size m →
  let p := to_space m + allocation_offset m in
  let m' := set_heap (<[p := o]> (heap m))
              (set_allocation_offset (allocation_offset m + space_of o)
                (set_total_allocation (total_allocation m + space_of o) m)) in
  heap m !! p = None ∧ 0 < p ∧ mem_ok m'.
Proof.
  intros [Hbrk Hsz Hoff Hsp Hfr Hh Hby] Ht Hroom p m'.
  pose proof (space_of_pos o) as Hpos.
  unfold all_spaces, current_space in Hsp. rewrite decide_False in Hsp by done.
  assert (Hsp' := Hsp). destruct Hsp' as [Hl Hd].
  cbn in Hl, Hd. apply Forall_cons in Hl as [Hcur Hl]. cbn in Hcur.
  destruct Hd as [Hd _].
  assert (Hnone : heap m !! p = None).
  { destruct (heap m !! p) eqn:E; [|done].
    destruct (Hh p) as (_ & H2 & _); [by rewrite E|]. subst p. lia. }
  split; [done|]. split; [subst p; lia|].
  destruct m as [h b hs ts off tot thr os fs]; cbn in *.
  split; cbn; auto; try lia.
  - unfold all_spaces, current_space. cbn. by rewrite decide_False.
  - intros a [x Ha]. destruct (decide (a = p)) as [->|Hne].
    + subst p. split_and!; [lia|lia|lia| |].
      * apply Forall_app in Hd as [_ Hd]. eapply Forall_impl; [exact Hd|].
        intros sp. rewrite in_space_false. unfold disjoint_spaces. cbn. lia.
      * unfold current_space. cbn. rewrite decide_False by done.
        apply Exists_cons_hd. apply in_space_true. cbn. lia.
    + rewrite lookup_insert_ne in Ha by done.
      destruct (Hh a) as (? & ? & ? & ?); [by rewrite Ha|]. split_and!; auto; lia.
  - rewrite heap_bytes_insert by done. lia.
Qed.

Lemma set_s_mem_id s : set_s_mem (s_mem s) s = s.
Proof. by destruct s. Qed.

Lemma s_mem_set m s : s_mem (set_s_mem m s) = m.
Proof. by destruct s. Qed.
Lemma set_s_mem_twice m m' s : set_s_mem m (set_s_mem m' s) = set_s_mem m s.
Proof. by destruct s. Qed.

Create Rewrite HintDb zuo_st.
#[export] Hint Rewrite s_mem_set set_s_mem_twice set_s_mem_id : zuo_st.

Lemma ensure_to_space_ok s :
  mem_ok (s_mem s) →
  ∃ m', ensure_to_space s = Ok tt (set_s_mem m' s)
    ∧ heap m' = s_heap s ∧ to_space m' ≠ 0 ∧ mem_ok m'.
Proof.
  intros Hok. unfold ensure_to_space.
  rewrite (bind_ok (gm to_space) _ s _ s eq_refl).
  destruct (decide (to_space (s_mem s) = 0)) as [Ht|Ht].
  2:{ exists (s_mem s). rewrite set_s_mem_id. done. }
  rewrite (bind_ok (gm heap_size) _ s _ s eq_refl).
  pose proof Hok as [Hbrk Hsz Hoff Hsp Hfr Hh Hby].
  unfold all_spaces, current_space in Hsp. rewrite decide_True in Hsp by done.
  destruct (malloc_or_recycle_ok (heap_size (s_mem s)) (heap_size (s_mem s)) s _ _
              Hbrk Hsz Hsz eq_refl Hsp)
    as (p & sz & m' & E & Hsz' & Hb & Hok' & Em & Hnew & Hfree).
  rewrite (bind_ok _ _ _ _ _ E). clear E.
  destruct s as [[h b hs ts off tot thr os fs] ? ? ? ? ?], m' as [h' b' hs' ts' off' tot' thr' os' fs'].
  cbn in *. inversion Em; subst; clear Em. destruct (Hfr eq_refl) as [-> ->].
  destruct Hok' as [Hl Hd]. pose proof Hl as Hl0.
  apply Forall_cons in Hl as [Hcur Hl]. cbn in Hcur.
  eexists. split; [reflexivity|]. cbn. split_and!; [done|lia|].
  eapply (mem_ok_new_space _ _ p sz Hok); cbn; auto; try lia.
  by split.
Qed.

Lemma ensure_room_ok size s :
  mem_ok (s_mem s) → to_space (s_mem s) ≠ 0 → 0 < size →
  ∃ m', ensure_room size s = Ok tt (set_s_mem m' s)
    ∧ heap m' = s_heap s ∧ to_space m' ≠ 0
    ∧ allocation_offset m' + size ≤ heap_size m' ∧ mem_ok m'.
Proof.
  intros Hok Ht Hs. unfold ensure_room.
  rewrite (bind_ok (gm allocation_offset) _ s _ s eq_refl).
  rewrite (bind_ok (gm heap_size) _ s _ s eq_refl).
  destruct (Z.ltb_spec (heap_size (s_mem s)) (allocation_offset (s_mem s) + size)) as [Hlt|Hge].
  2:{ exists (s_mem s). rewrite set_s_mem_id. done. }
  pose proof Hok as [Hbrk Hsz Hoff Hsp Hfr Hh Hby].
  unfold all_spaces, current_space in Hsp. rewrite decide_False in Hsp by done.
  destruct s as [[h b hs ts off tot thr os fs] si sr sc shc so]. cbn in *.
  set (hs1 := if hs <? size then size * 2 else hs).
  assert (Hhs1 : size ≤ hs1) by (subst hs1; destruct (Z.ltb_spec hs size); lia).
  set (s1 := St (Mem h b hs1 ts off tot thr (OldSpace ts hs :: os) fs) si sr sc shc so).
  assert (Hsp1 : spaces_ok b ((OldSpace ts hs :: os) ++ free_spaces (s_mem s1))) by done.
  destruct (malloc_or_recycle_ok (size * 2) hs1 s1 b _ Hbrk ltac:(lia) ltac:(lia) eq_refl Hsp1)
    as (p & sz & m' & E & Hsz' & Hb & Hok' & Em & Hnew & Hfree).
  exists (set_to_space p (set_heap_size sz (set_allocation_offset 0 m'))).
  split.
  { rewrite (bind_ok _ _ _ _ _ E). reflexivity. }
  destruct m' as [h' b' hs' ts' off' tot' thr' os' fs'].
  cbn in *. inversion Em; subst; clear Em.
  destruct Hok' as [Hl Hd]. pose proof Hl as Hl0.
  apply Forall_cons in Hl as [Hcur Hl]. cbn in Hcur.
  split_and!; [done|lia|destruct Hsz'; lia|].
  eapply (mem_ok_new_space _ _ p sz Hok); cbn; auto; try lia; [by split|].
  intros sp. unfold current_space. cbn. by rewrite decide_False.
Qed.

(** [zuo_new] stores the object at an address that held nothing, and nothing
    else of the heap changes. *)
Lemma zuo_new_ok o size s :
  mem_ok (s_mem s) → ALLOC_ALIGN size = space_of o → sizeof_forwarded ≤ size →
  ∃ p m', zuo_new o size s = Ok p (set_s_mem m' s)
    ∧ s_heap s !! p = None ∧ 0 < p
    ∧ heap m' = <[p := o]> (s_heap s)
    ∧ mem_ok m'.
Proof.
  intros Hok Hal Hsz. unfold zuo_new.
  rewrite (proj2 (Z.ltb_ge _ _) Hsz), Hal.
  destruct (ensure_to_space_ok s Hok) as (m1 & E1 & Hh1 & Ht1 & Hok1).
  rewrite (bind_ok _ _ _ _ _ E1).
  pose proof (space_of_pos o) as Hpos.
  destruct (ensure_room_ok (space_of o) (set_s_mem m1 s)) as (m2 & E2 & Hh2 & Ht2 & Hr2 & Hok2).
  { by rewrite s_mem_set. } { by rewrite s_mem_set. } { lia. }
  unfold s_heap in Hh2. autorewrite with zuo_st in *.
  rewrite (bind_ok _ _ _ _ _ E2).
  destruct (mem_ok_bump m2 o Hok2 Ht2 Hr2) as (Hn & Hp & Hok3).
  eexists _, _. split.
  { unfold bind, gm, mod_mem, mod_st, ret. by autorewrite with zuo_st. }
  rewrite <- Hh1, <- Hh2. split_and!; try done. by destruct m2.
Qed.
