(* ===== verification/Gc.v ===== *)
(** * The copying collector

    [zuo_collect] and the functions it calls: a Cheney-style two-space copy.
    The roots are updated first, then the copied objects are scanned in
    allocation order until the scan catches up with the allocation pointer. *)

From S2P Require Import Prelude Sys Heap Alloc.

(** ** Definitions *)

(** [zuo_update(addr)], as a function from the old to the new value of the
    pointer at [addr].  Copying past the end of the space is undefined. *)
Definition zuo_update (l : loc) : M loc :=
  o <- get l ;;
  (if decide (obj_tag o = zuo_forwarded_tag) then ret tt
   else
     let size := space_of o in
     t <- gm to_space ;;
     off <- gm allocation_offset ;;
     hs <- gm heap_size ;;
     (if hs <? off + size then ub "copy past the end of the space" else ret tt) ;;;
     let new_obj := t + off in
     mod_mem (set_allocation_offset (off + size)) ;;;
     mod_mem (λ m, set_heap (<[new_obj := o]> (heap m)) m) ;;;
     put l (Oforwarded new_obj)) ;;;
  o <- get l ;;
  match o with Oforwarded f => ret f | _ => ub "not forwarded" end.

(** In-order update of a block of pointers. *)
Fixpoint zuo_update_all (ls : list loc) : M (list loc) :=
  match ls with
  | [] => ret []
  | l :: ls' => l' <- zuo_update l ;; r <- zuo_update_all ls' ;; ret (l' :: r)
  end.

(** The switch of [zuo_trace]: the object with its pointers updated. *)
Definition zuo_trace_fields (o : obj) : M obj :=
  match o with
  | Osingleton | Ointeger _ | Ostring _ | Ohandle _ _ _ | Oforwarded _ => ret o
  | Opair car cdr =>
      car <- zuo_update car ;; cdr <- zuo_update cdr ;; ret (Opair car cdr)
  | Osymbol id str => str <- zuo_update str ;; ret (Osymbol id str)
  | Otrie_node count key val next =>
      key <- zuo_update key ;; val <- zuo_update val ;;
      next <- zuo_update_all next ;; ret (Otrie_node count key val next)
  | Ovariable name val =>
      name <- zuo_update name ;; val <- zuo_update val ;; ret (Ovariable name val)
  | Oprimitive d p a name => name <- zuo_update name ;; ret (Oprimitive d p a name)
  | Oclosure lambda env =>
      lambda <- zuo_update lambda ;; env <- zuo_update env ;; ret (Oclosure lambda env)
  | Oopaque tag val =>
      tag <- zuo_update tag ;; val <- zuo_update val ;; ret (Oopaque tag val)
  | Ocont t data env in_proc next =>
      data <- zuo_update data ;; env <- zuo_update env ;;
      in_proc <- zuo_update in_proc ;; next <- zuo_update next ;;
      ret (Ocont t data env in_proc next)
  end.

Definition zuo_trace (l : loc) : M unit :=
  o <- get l ;; o' <- zuo_trace_fields o ;; put l o'.

Fixpoint zuo_trace_loop (fuel : nat) (trace_offset : Z) : M unit :=
  off <- gm allocation_offset ;;
  if trace_offset <? off then
    match fuel with
    | O => λ _, Diverge
    | S fuel' =>
        t <- gm to_space ;;
        let l := t + trace_offset in
        zuo_trace l ;;;
        o <- get l ;;
        zuo_trace_loop fuel' (trace_offset + space_of o)
    end
  else ret tt.

(** The scan visits each copied object once, so as many steps as there are
    objects in the heap when it starts are enough ([collect_ok]). *)
Definition zuo_trace_objects : M unit :=
  λ s, zuo_trace_loop (heap_fuel s) 0 s.

Fixpoint free_all (l : list old_space_t) : M unit :=
  match l with
  | [] => ret tt
  | sp :: l' => free sp ;;; free_all l'
  end.

(** [zuo_finish_gc].  The spaces that were collected are kept for reuse; what
    they held is dead, and the model drops it. *)
Definition zuo_finish_gc (old_space : loc) (old_heap_size : Z)
    (old_old_spaces : list old_space_t) : M unit :=
  fs <- gm free_spaces ;;
  free_all fs ;;;
  let fs' := OldSpace old_space old_heap_size :: old_old_spaces in
  mod_mem (set_free_spaces fs') ;;;
  free_all fs' ;;;
  off <- gm allocation_offset ;;
  mod_mem (set_total_allocation off) ;;;
  let thr := off * 2 in
  mod_mem (set_gc_threshold (if thr <? ZUO_MIN_HEAP_SIZE then ZUO_MIN_HEAP_SIZE else thr)).

(** The roots, read and written as one array. *)
Definition roots_of (s : st) : list loc := image_list (s_img s) ++ runtime_list (s_rt s).
Definition update_roots : M unit :=
  l <- (λ s, Ok (roots_of s) s) ;;
  l' <- zuo_update_all l ;;
  match image_of_list (take 24 l'), runtime_of_list (drop 24 l') with
  | Some i, Some r => mod_st (λ s, set_s_rt r (set_s_img i s))
  | _, _ => ub "roots"
  end.

(** [zuo_collect], less the suspension of signals around it. *)
Definition zuo_collect : M unit :=
  old_space <- gm to_space ;;
  old_old_spaces <- gm old_spaces ;;
  old_heap_size <- gm heap_size ;;
  total <- gm total_allocation ;;
  mod_mem (set_old_spaces []) ;;;
  r <- malloc_or_recycle total (total * 2) ;;
  mod_mem (λ m, set_to_space (fst r) (set_heap_size (snd r) (set_allocation_offset 0 m))) ;;;
  update_roots ;;;
  zuo_trace_objects ;;;
  zuo_finish_gc old_space old_heap_size old_old_spaces.

Definition zuo_check_collect : M unit :=
  total <- gm total_allocation ;;
  thr <- gm gc_threshold ;;
  if thr <=? total then zuo_collect else ret tt.

Definition zuo_replace_heap (sp : loc) (size offset : Z) : M unit :=
  mod_mem (set_allocation_offset offset) ;;;
  t <- gm to_space ;;
  hs <- gm heap_size ;;
  os <- gm old_spaces ;;
  zuo_finish_gc t hs os ;;;
  mod_mem (λ m, set_old_spaces [] (set_heap_size size (set_to_space sp m))).
