(* ===== verification/GcCorrect.v ===== *)
(** * The collector preserves the reachable graph

    [zuo_collect] ends, copies the objects that the roots reach and no others,
    and leaves a heap that is the image of the reachable part of the old one
    under an injective renaming of addresses. *)

From S2P Require Import Prelude Sys Heap Alloc Gc.

(** ** The pointers of an object *)

Definition ptrs (o : obj) : list loc :=
  match o with
  | Osingleton | Ointeger _ | Ostring _ | Ohandle _ _ _ | Oforwarded _ => []
  | Opair a d => [a; d]
  | Osymbol _ s => [s]
  | Otrie_node _ k v n => k :: v :: n
  | Ovariable n v => [n; v]
  | Oprimitive _ _ _ n => [n]
  | Oclosure l e => [l; e]
  | Oopaque t v => [t; v]
  | Ocont _ d e p n => [d; e; p; n]
  end.

Definition map_obj (f : loc → loc) (o : obj) : obj :=
  match o with
  | Osingleton | Ointeger _ | Ostring _ | Ohandle _ _ _ | Oforwarded _ => o
  | Opair a d => Opair (f a) (f d)
  | Osymbol i s => Osymbol i (f s)
  | Otrie_node c k v n => Otrie_node c (f k) (f v) (f <$> n)
  | Ovariable n v => Ovariable (f n) (f v)
  | Oprimitive d p a n => Oprimitive d p a (f n)
  | Oclosure l e => Oclosure (f l) (f e)
  | Oopaque t v => Oopaque (f t) (f v)
  | Ocont t d e p n => Ocont t (f d) (f e) (f p) (f n)
  end.

Lemma map_obj_space f o : space_of (map_obj f o) = space_of o.
Proof. by destruct o. Qed.

Lemma map_obj_ext f g o : (∀ l, l ∈ ptrs o → f l = g l) → map_obj f o = map_obj g o.
Proof.
  intros H. destruct o; cbn in *; try done; f_equal; try (apply H; set_solver).
  apply list_fmap_ext. intros i x Hx%list_elem_of_lookup_2. apply H. set_solver.
Qed.

Lemma map_obj_ptrs f o : ptrs (map_obj f o) = f <$> ptrs o.
Proof. by destruct o. Qed.

(** What the roots reach. *)
Inductive reach (h : gmap Z obj) (roots : list loc) : loc → Prop :=
  | reach_root l : l ∈ roots → reach h roots l
  | reach_step l o p : reach h roots l → h !! l = Some o → p ∈ ptrs o → reach h roots p.

(** A heap without dangling pointers and without forwarding addresses. *)
Record heap_closed (h : gmap Z obj) (roots : list loc) : Prop := {
  hc_roots : Forall (λ p, is_Some (h !! p)) roots;
  hc_ptrs : ∀ a o, h !! a = Some o → Forall (λ p, is_Some (h !! p)) (ptrs o);
  hc_fwd : ∀ a f, h !! a ≠ Some (Oforwarded f) }.

(** ** [zuo_trace_fields] as one pass over the pointers *)

Definition rebuild (o : obj) (ls : list loc) : obj :=
  match o, ls with
  | Opair _ _, [a; d] => Opair a d
  | Osymbol i _, [s] => Osymbol i s
  | Otrie_node c _ _ _, k :: v :: n => Otrie_node c k v n
  | Ovariable _ _, [n; v] => Ovariable n v
  | Oprimitive d p a _, [n] => Oprimitive d p a n
  | Oclosure _ _, [l; e] => Oclosure l e
  | Oopaque _ _, [t; v] => Oopaque t v
  | Ocont t _ _ _ _, [d; e; p; n] => Ocont t d e p n
  | _, _ => o
  end.

Lemma rebuild_map f o : rebuild o (f <$> ptrs o) = map_obj f o.
Proof. by destruct o. Qed.

Lemma trace_fields_ptrs o s :
  zuo_trace_fields o s = (ls <- zuo_update_all (ptrs o) ;; ret (rebuild o ls)) s.
Proof.
  destruct o; cbn; try done; unfold bind, ret;
    repeat (case_match; try done; simplify_eq).
Qed.

(** ** The invariant of the copy *)

(** The copy changes nothing of the memory manager but the heap and the
    allocation pointer. *)
Definition same_spaces (m m' : mem) : Prop :=
  set_heap ∅ (set_allocation_offset 0 m') = set_heap ∅ (set_allocation_offset 0 m).

Lemma same_spaces_fields m m' :
  same_spaces m m' →
  brk m' = brk m ∧ free_spaces m' = free_spaces m ∧ old_spaces m' = old_spaces m.
Proof. unfold same_spaces. destruct m, m'. cbn. by intros [= -> -> -> -> -> -> ->]. Qed.

#[export] Instance same_spaces_equiv : Equivalence same_spaces.
Proof. unfold same_spaces. split; red; congruence. Qed.

Section layout.
Context (H0 : gmap Z obj) (base : Z).

(** The bytes of the object at [l] in the original heap. *)
Definition osize (l : loc) : Z := from_option space_of 0 (H0 !! l).

(** The objects copied so far, in order, determine where each one went: an
    address not copied yet is sent to the next free one. *)
Fixpoint offset_in (copied : list loc) (l : loc) : Z :=
  match copied with
  | [] => 0
  | x :: r => if decide (x = l) then 0 else osize x + offset_in r l
  end.
Definition fwd (copied : list loc) (l : loc) : loc := base + offset_in copied l.
Fixpoint total (copied : list loc) : Z :=
  match copied with [] => 0 | x :: r => osize x + total r end.

Lemma osize_nonneg l : 0 ≤ osize l.
Proof. unfold osize. destruct (H0 !! l) as [o|]; cbn; [pose proof (space_of_pos o)|]; lia. Qed.

Lemma osize_pos l : is_Some (H0 !! l) → 16 ≤ osize l.
Proof. unfold osize. intros [o ->]. apply space_of_pos. Qed.

Lemma total_nonneg c : 0 ≤ total c.
Proof. induction c as [|x c IH]; cbn; [|pose proof (osize_nonneg x)]; lia. Qed.

Lemma total_app c c' : total (c ++ c') = total c + total c'.
Proof. induction c as [|x c IH]; cbn; lia. Qed.

Lemma offset_in_notin c l : l ∉ c → offset_in c l = total c.
Proof.
  induction c as [|x c IH]; cbn; [done|]. intros H.
  rewrite decide_False by set_solver. rewrite IH; set_solver.
Qed.

Lemma offset_in_app c c' l : l ∈ c → offset_in (c ++ c') l = offset_in c l.
Proof.
  induction c as [|x c IH]; cbn; [set_solver|]. intros H.
  case_decide; [done|]. rewrite IH; set_solver.
Qed.

Lemma offset_in_snoc c l : l ∉ c → offset_in (c ++ [l]) l = total c.
Proof.
  induction c as [|x c IH]; cbn; intros H; [by rewrite decide_True|].
  rewrite decide_False by set_solver. rewrite IH; set_solver.
Qed.

Lemma offset_in_lookup c i l :
  NoDup c → c !! i = Some l → offset_in c l = total (take i c).
Proof.
  revert i. induction c as [|x c IH]; intros i Hnd Hi; [done|].
  apply NoDup_cons in Hnd as [Hx Hnd]. destruct i as [|i]; cbn in *.
  - simplify_eq. by rewrite decide_True.
  - rewrite decide_False; [by rewrite (IH i)|].
    intros ->. by apply list_elem_of_lookup_2 in Hi.
Qed.

Lemma offset_in_bound c l :
  l ∈ c → (∀ x, x ∈ c → is_Some (H0 !! x)) →
  0 ≤ offset_in c l ∧ offset_in c l + osize l ≤ total c.
Proof.
  induction c as [|x c IH]; cbn; [set_solver|]. intros H Hs.
  pose proof (total_nonneg c). pose proof (osize_nonneg x).
  case_decide as E; [subst; lia|].
  destruct IH; [set_solver|set_solver|lia].
Qed.

Lemma offset_in_inj c l l' :
  l ∈ c → l' ∈ c → (∀ x, x ∈ c → is_Some (H0 !! x)) →
  offset_in c l = offset_in c l' → l = l'.
Proof.
  induction c as [|x c IH]; cbn; [set_solver|]. intros H H' Hs.
  assert (Hx : 16 ≤ osize x) by (apply osize_pos; set_solver).
  assert (Hs' : ∀ y, y ∈ c → is_Some (H0 !! y)) by set_solver.
  case_decide as E1; case_decide as E2; try congruence.
  - assert (l' ∈ c) as Hl' by set_solver. destruct (offset_in_bound c l' Hl' Hs'). lia.
  - assert (l ∈ c) as Hl by set_solver. destruct (offset_in_bound c l Hl Hs'). lia.
  - intros ?. apply IH; [set_solver|set_solver|done|lia].
Qed.

(** Distinct objects of the original heap take no more than all of them. *)
Lemma total_le_heap_bytes c h :
  NoDup c → (∀ l, l ∈ c → ∃ o, h !! l = Some o ∧ osize l = space_of o) →
  total c ≤ heap_bytes h.
Proof.
  revert h. induction c as [|x c IH]; intros h Hnd Hs; cbn; [apply heap_bytes_nonneg|].
  apply NoDup_cons in Hnd as [Hx Hnd].
  destruct (Hs x) as (o & Ho & Eo); [set_solver|].
  rewrite <- (insert_id _ _ _ Ho), <- insert_delete_eq, heap_bytes_insert
    by apply lookup_delete_eq.
  rewrite Eo. apply Z.add_le_mono_l, IH; [done|].
  intros l Hl. destruct (Hs l) as (o' & Ho' & Eo'); [set_solver|].
  exists o'. rewrite lookup_delete_ne by (intros ->; done). done.
Qed.

(** A heap whose objects are the images of those copied. *)
Lemma heap_bytes_cover c g h :
  (∀ a o, h !! a = Some o → ∃ l, l ∈ c ∧ a = g l) →
  (∀ l o, l ∈ c → h !! g l = Some o → space_of o = osize l) →
  heap_bytes h ≤ total c.
Proof.
  revert h. induction c as [|x c IH]; intros h Hcov Hsz; cbn.
  { assert (h = ∅) as ->; [|by rewrite heap_bytes_empty].
    apply map_empty. intros a. destruct (h !! a) eqn:E; [|done].
    destruct (Hcov _ _ E) as (? & ? & _). set_solver. }
  assert (Hrest : heap_bytes (delete (g x) h) ≤ total c).
  { apply IH.
    - intros a o [Hne Ha]%lookup_delete_Some.
      destruct (Hcov _ _ Ha) as (l & [->|?]%elem_of_cons & ?); [congruence|eauto].
    - intros l o Hl [_ Ha]%lookup_delete_Some. apply Hsz; [set_solver|done]. }
  pose proof (osize_nonneg x).
  destruct (h !! g x) as [o|] eqn:E.
  - rewrite <- (insert_id _ _ _ E), <- insert_delete_eq, heap_bytes_insert
      by apply lookup_delete_eq.
    rewrite (Hsz x o); [lia|set_solver|done].
  - rewrite delete_id in Hrest by done. lia.
Qed.
End layout.

Section cheney.
Context (H0 : gmap Z obj) (roots : list loc) (base cap : Z).
Hypothesis Hclosed : heap_closed H0 roots.
Hypothesis Hsep : ∀ a, is_Some (H0 !! a) → ¬ (base ≤ a < base + cap).
Hypothesis Hcap : heap_bytes H0 ≤ cap.
Abbreviation osize := (osize H0).
Abbreviation fwd := (fwd H0 base).
Abbreviation offset_in := (offset_in H0).
Abbreviation total := (total H0).

Record cheney (copied : list loc) (k : nat) (m : mem) : Prop := {
  ch_to : to_space m = base;
  ch_cap : heap_size m = cap;
  ch_off : allocation_offset m = total copied;
  ch_nodup : NoDup copied;
  ch_dom : ∀ l, l ∈ copied → is_Some (H0 !! l);
  ch_from : ∀ l o, H0 !! l = Some o →
    heap m !! l = Some (if decide (l ∈ copied) then Oforwarded (fwd copied l) else o);
  ch_copy : ∀ i l o, copied !! i = Some l → H0 !! l = Some o →
    heap m !! fwd copied l = Some (if decide (i < k)%nat then map_obj (fwd copied) o else o);
  ch_scanned : ∀ i l o, (i < k)%nat → copied !! i = Some l → H0 !! l = Some o →
    ∀ p, p ∈ ptrs o → p ∈ copied;
  ch_only : ∀ a, is_Some (heap m !! a) →
    is_Some (H0 !! a) ∨ ∃ l, l ∈ copied ∧ a = fwd copied l;
  ch_reach : ∀ l, l ∈ copied → reach H0 roots l }.

Lemma cheney_total copied k m : cheney copied k m → total copied ≤ cap.
Proof.
  intros C. etransitivity; [|exact Hcap]. apply total_le_heap_bytes; [apply C|].
  intros l Hl. destruct (ch_dom _ _ _ C l Hl) as [o Ho]. exists o.
  unfold osize. by rewrite Ho.
Qed.

(** An address in the destination was not in the original heap. *)
Lemma fwd_fresh copied k m l :
  cheney copied k m → l ∈ copied → H0 !! fwd copied l = None.
Proof.
  intros C Hl. destruct (H0 !! fwd copied l) eqn:E; [|done]. exfalso.
  apply (Hsep (fwd copied l)); [by rewrite E|]. unfold fwd.
  destruct (offset_in_bound H0 copied l Hl (ch_dom _ _ _ C)).
  pose proof (cheney_total _ _ _ C).
  pose proof (osize_pos H0 l (ch_dom _ _ _ C l Hl)). lia.
Qed.

Lemma cheney_weaken_k copied k m l o :
  cheney copied k m → H0 !! l = Some o → l ∉ copied → heap m !! l = Some o.
Proof. intros C Ho Hl. rewrite (ch_from _ _ _ C _ _ Ho). by rewrite decide_False. Qed.

(** Copying one more object. *)
Lemma cheney_copy copied k m l o :
  cheney copied k m → (k ≤ length copied)%nat →
  H0 !! l = Some o → l ∉ copied → reach H0 roots l →
  let p := base + total copied in
  total copied + space_of o ≤ cap
  ∧ fwd (copied ++ [l]) l = p
  ∧ cheney (copied ++ [l]) k
      (set_heap (<[l := Oforwarded p]> (<[p := o]> (heap m)))
        (set_allocation_offset (total copied + space_of o) m)).
Proof.
  intros C Hk Ho Hl Hr p.
  assert (Hos : osize l = space_of o) by (unfold osize; by rewrite Ho).
  assert (Hnd : NoDup (copied ++ [l])).
  { apply NoDup_app. split_and!; [apply C| |apply NoDup_singleton].
    intros x Hx E%list_elem_of_singleton. by subst x. }
  assert (Hdom : ∀ x, x ∈ copied ++ [l] → is_Some (H0 !! x)).
  { intros x [Hx|E%list_elem_of_singleton]%elem_of_app; [by apply C|subst x; by rewrite Ho]. }
  assert (Htot : total (copied ++ [l]) ≤ cap).
  { etransitivity; [|exact Hcap]. apply total_le_heap_bytes; [done|].
    intros x Hx. destruct (Hdom x Hx) as [o' Ho']. exists o'. unfold osize. by rewrite Ho'. }
  rewrite total_app in Htot. cbn in Htot.
  assert (Hp : fwd (copied ++ [l]) l = p)
    by (unfold fwd, p; by rewrite offset_in_snoc).
  assert (Hstable : ∀ x, x ∈ copied → fwd (copied ++ [l]) x = fwd copied x)
    by (intros x Hx; unfold fwd; by rewrite offset_in_app).
  assert (Hpnone : H0 !! p = None).
  { destruct (H0 !! p) eqn:E; [|done]. exfalso. apply (Hsep p); [by rewrite E|].
    unfold p. pose proof (total_nonneg H0 copied). pose proof (space_of_pos o). lia. }
  assert (Hpl : p ≠ l) by (intros ->; congruence).
  assert (Hfp : ∀ x, x ∈ copied → fwd copied x ≠ p).
  { intros x Hx E. unfold fwd, p in E.
    destruct (offset_in_bound H0 copied x Hx (ch_dom _ _ _ C)).
    pose proof (osize_pos H0 x (ch_dom _ _ _ C x Hx)). lia. }
  split; [lia|]. split; [done|].
  destruct m as [h b hs ts off tot thr os fs]; destruct C; cbn in *; subst.
  split; cbn; auto.
  - rewrite total_app. cbn. lia.
  - intros x ox Hx. destruct (decide (x = l)) as [->|Hne].
    + rewrite lookup_insert_eq, decide_True by set_solver. by rewrite Hp.
    + rewrite lookup_insert_ne, lookup_insert_ne by (congruence || done).
      rewrite (ch_from0 _ _ Hx). do 2 f_equal.
      destruct (decide (x ∈ copied)).
      * rewrite decide_True by set_solver. by rewrite Hstable.
      * rewrite decide_False; [done|]. rewrite elem_of_app, list_elem_of_singleton. naive_solver.
  - intros i x ox Hi Hx. destruct (decide (x = l)) as [->|Hne].
    + rewrite Hp, lookup_insert_ne, lookup_insert_eq by done.
      assert (i = length copied) as ->.
      { eapply NoDup_lookup; [exact Hnd|exact Hi|]. by rewrite list_lookup_middle. }
      rewrite decide_False by lia. congruence.
    + assert (Hin : copied !! i = Some x).
      { apply lookup_app_Some in Hi as [?|[? Hi]]; [done|].
        apply list_elem_of_lookup_2 in Hi. set_solver. }
      assert (x ∈ copied) by (by eapply list_elem_of_lookup_2).
      rewrite Hstable, lookup_insert_ne, lookup_insert_ne; [|by apply not_eq_sym, Hfp|..|done].
      2:{ intros E. assert (Hn : H0 !! fwd copied x = None); [|by rewrite <- E in Hn; congruence].
          destruct (H0 !! fwd copied x) eqn:E'; [|done]. exfalso.
          apply (Hsep (fwd copied x)); [by rewrite E'|]. unfold fwd.
          destruct (offset_in_bound H0 copied x); [done|done|].
          pose proof (osize_pos H0 x). pose proof (space_of_pos o). rewrite Hx in *.
          assert (16 ≤ osize x) by (apply osize_pos; by rewrite Hx). lia. }
      rewrite (ch_copy0 _ _ _ Hin Hx). f_equal. case_decide; [|done].
      apply map_obj_ext. intros q Hq. symmetry. apply Hstable. eauto.
  - intros i x ox Hik Hi Hx q Hq. apply elem_of_app. left.
    assert (Hin : copied !! i = Some x) by (rewrite lookup_app_l in Hi by lia; done).
    eauto.
  - intros a [y Ha]. destruct (decide (a = l)) as [->|]; [left; by rewrite Ho|].
    rewrite lookup_insert_ne in Ha by done. destruct (decide (a = p)) as [->|].
    + right. exists l. rewrite Hp. split; [set_solver|done].
    + rewrite lookup_insert_ne in Ha by done.
      destruct (ch_only0 a) as [?|(x & ? & ?)]; [by rewrite Ha|by left|right].
      exists x. rewrite Hstable by done. split; [set_solver|done].
  - intros x [Hx|E%list_elem_of_singleton]%elem_of_app; [auto|by subst x].
Qed.

(** [zuo_update] forwards a pointer, copying its object if need be. *)
Lemma zuo_update_ok copied k s l :
  cheney copied k (s_mem s) → (k ≤ length copied)%nat →
  is_Some (H0 !! l) → reach H0 roots l →
  ∃ suf m', zuo_update l s = Ok (fwd (copied ++ suf) l) (set_s_mem m' s)
    ∧ cheney (copied ++ suf) k m' ∧ l ∈ copied ++ suf
    ∧ same_spaces (s_mem s) m'.
Proof.
  intros C Hk [o Ho] Hr. unfold zuo_update.
  pose proof (ch_from _ _ _ C l o Ho) as Hl.
  destruct (decide (l ∈ copied)) as [Hin|Hnin].
  - assert (G : get l s = Ok (Oforwarded (fwd copied l)) s)
      by (unfold get, s_heap; by rewrite Hl).
    rewrite (bind_ok _ _ _ _ _ G), decide_True by done.
    rewrite (bind_ok (ret tt) _ s tt s eq_refl), (bind_ok _ _ _ _ _ G).
    exists [], (s_mem s). rewrite app_nil_r, set_s_mem_id. by split_and!.
  - assert (G : get l s = Ok o s) by (unfold get, s_heap; by rewrite Hl).
    rewrite (bind_ok _ _ _ _ _ G).
    rewrite decide_False by (intros E; destruct o; try done; by eapply (hc_fwd _ _ Hclosed)).
    destruct (cheney_copy _ _ _ _ _ C Hk Ho Hnin Hr) as (Hroom & Hp & C').
    exists [l]. eexists. split; [|split; [exact C'|split; [set_solver|]]];
      [|by destruct (s_mem s)].
    destruct C, s as [[h b hs ts off tot thr os fs] ? ? ? ? ?]; cbn in *; subst.
    unfold bind, gm, mod_mem, mod_st, put, get, s_heap, set_heap_at, set_s_mem; cbn.
    destruct (Z.ltb_spec cap (total copied + space_of o)); [lia|]. cbn.
    rewrite lookup_insert_ne, Hl.
    2:{ intros E. apply (Hsep l); [by rewrite Ho|]. subst l.
        pose proof (total_nonneg H0 copied). pose proof (space_of_pos o). lia. }
    cbn. rewrite lookup_insert_eq. unfold ret. by rewrite Hp.
Qed.

Lemma zuo_update_all_ok ls copied k s :
  cheney copied k (s_mem s) → (k ≤ length copied)%nat →
  (∀ l, l ∈ ls → is_Some (H0 !! l) ∧ reach H0 roots l) →
  ∃ suf m', zuo_update_all ls s = Ok (fwd (copied ++ suf) <$> ls) (set_s_mem m' s)
    ∧ cheney (copied ++ suf) k m' ∧ (∀ l, l ∈ ls → l ∈ copied ++ suf)
    ∧ same_spaces (s_mem s) m'.
Proof.
  revert copied s. induction ls as [|l ls IH]; intros copied s C Hk Hls; cbn.
  { exists [], (s_mem s). rewrite app_nil_r, set_s_mem_id. split_and!; try done. set_solver. }
  destruct (Hls l) as [Hl Hr]; [set_solver|].
  destruct (zuo_update_ok copied k s l C Hk Hl Hr) as (suf & m1 & E1 & C1 & Hin & Hs1).
  rewrite (bind_ok _ _ _ _ _ E1).
  destruct (IH (copied ++ suf) (set_s_mem m1 s)) as (suf' & m2 & E2 & C2 & Hin2 & Hs2).
  { by rewrite s_mem_set. } { rewrite length_app. lia. } { set_solver. }
  rewrite (bind_ok _ _ _ _ _ E2). autorewrite with zuo_st in *.
  exists (suf ++ suf'), m2. rewrite app_assoc. split_and!.
  - unfold ret, fwd. by rewrite (offset_in_app H0 (copied ++ suf)) by done.
  - done.
  - intros x [->|Hx]%elem_of_cons; [|auto]. set_solver.
  - by etransitivity.
Qed.

(** [zuo_trace] on the next object to scan. *)
Lemma zuo_trace_ok copied k s l :
  cheney copied k (s_mem s) → copied !! k = Some l →
  ∃ suf m', zuo_trace (fwd copied l) s = Ok tt (set_s_mem m' s)
    ∧ cheney (copied ++ suf) (S k) m' ∧ same_spaces (s_mem s) m'.
Proof.
  intros C Hkl. assert (Hlk := lookup_lt_Some _ _ _ Hkl).
  assert (Hin : l ∈ copied) by (by eapply list_elem_of_lookup_2).
  destruct (ch_dom _ _ _ C l Hin) as [o Ho].
  pose proof (ch_copy _ _ _ C k l o Hkl Ho) as Hl.
  rewrite decide_False in Hl by lia.
  assert (G : get (fwd copied l) s = Ok o s) by (unfold get, s_heap; by rewrite Hl).
  unfold zuo_trace. rewrite (bind_ok _ _ _ _ _ G).
  pose proof (hc_ptrs _ _ Hclosed _ _ Ho) as Hp. rewrite Forall_forall in Hp.
  destruct (zuo_update_all_ok (ptrs o) copied k s C) as (suf & m1 & E1 & C1 & Hall & Hs1);
    [lia| |].
  { intros p Hp'. split; [auto|]. eapply reach_step; [|done|done]. by apply C. }
  assert (E : zuo_trace_fields o s = Ok (map_obj (fwd (copied ++ suf)) o) (set_s_mem m1 s)).
  { rewrite trace_fields_ptrs, (bind_ok _ _ _ _ _ E1). unfold ret. by rewrite rebuild_map. }
  rewrite (bind_ok _ _ _ _ _ E).
  assert (Hkl1 : (copied ++ suf) !! k = Some l) by (by rewrite lookup_app_l).
  pose proof (ch_copy _ _ _ C1 k l o Hkl1 Ho) as Hl1.
  rewrite decide_False in Hl1 by lia.
  replace (fwd (copied ++ suf) l) with (fwd copied l) in Hl1
    by (unfold fwd; by rewrite offset_in_app).
  exists suf, (set_heap (<[fwd copied l := map_obj (fwd (copied ++ suf)) o]> (heap m1)) m1).
  split; [|split].
  { unfold put, s_heap, set_heap_at. autorewrite with zuo_st. unfold s_heap.
    rewrite s_mem_set, Hl1. by autorewrite with zuo_st. }
  2:{ etransitivity; [exact Hs1|]. unfold same_spaces. by destruct m1. }
  assert (Hfr : H0 !! fwd (copied ++ suf) l = None) by (eapply fwd_fresh; [done|set_solver]).
  assert (Hf : fwd (copied ++ suf) l = fwd copied l) by (unfold fwd; by rewrite offset_in_app).
  rewrite Hf in Hfr.
  destruct m1 as [h b hs ts off tot thr os fs]; destruct C1; cbn in *; subst.
  split; cbn; auto.
  - intros x ox Hx. rewrite lookup_insert_ne by congruence. auto.
  - intros i x ox Hi Hx. destruct (decide (x = l)) as [->|Hne].
    + rewrite Hf, lookup_insert_eq.
      assert (i = k) as -> by (by eapply NoDup_lookup).
      rewrite decide_True by lia. congruence.
    + rewrite lookup_insert_ne.
      2:{ rewrite <- Hf. unfold fwd. intros Hof. apply Hne. symmetry.
          apply (offset_in_inj H0 (copied ++ suf)); [set_solver| |done|lia].
          by eapply list_elem_of_lookup_2. }
      rewrite (ch_copy0 _ _ _ Hi Hx).
      assert (i ≠ k) by congruence. f_equal.
      do 2 case_decide; try lia; done.
  - intros i x ox Hik Hi Hx q Hq. destruct (decide (i = k)) as [->|].
    + apply Hall. congruence.
    + eapply (ch_scanned0 i); eauto. lia.
  - intros a [y Ha]. destruct (decide (a = fwd copied l)) as [->|].
    + right. exists l. rewrite Hf. split; [set_solver|done].
    + rewrite lookup_insert_ne in Ha by done. apply ch_only0. by rewrite Ha.
Qed.

Lemma cheney_count copied k m : cheney copied k m → (length copied ≤ size H0)%nat.
Proof.
  intros C. rewrite <- (size_list_to_set (C := gset Z)) by apply C.
  rewrite <- (size_dom (D := gset Z) H0). apply subseteq_size.
  intros x Hx%elem_of_list_to_set. apply elem_of_dom. by apply C.
Qed.

Lemma zuo_trace_loop_ok fuel copied k s :
  cheney copied k (s_mem s) → (k ≤ length copied)%nat → (size H0 ≤ k + fuel)%nat →
  ∃ copied' m', zuo_trace_loop fuel (total (take k copied)) s = Ok tt (set_s_mem m' s)
    ∧ cheney copied' (length copied') m' ∧ (∀ l, l ∈ copied → l ∈ copied')
    ∧ (∀ l, l ∈ copied → fwd copied' l = fwd copied l)
    ∧ same_spaces (s_mem s) m'.
Proof.
  revert copied k s. induction fuel as [|fuel IH]; intros copied k s C Hk Hf.
  all: cbn -[bind gm]; rewrite (bind_ok (gm allocation_offset) _ s _ s eq_refl).
  all: rewrite (ch_off _ _ _ C).
  all: pose proof (cheney_count _ _ _ C) as Hcount.
  all: destruct (decide (k = length copied)) as [->|Hne].
  all: try (rewrite take_ge, Z.ltb_irrefl by lia;
            exists copied, (s_mem s); rewrite set_s_mem_id; by split_and!).
  { lia. }
  destruct (lookup_lt_is_Some_2 copied k) as [l Hl]; [lia|].
  assert (Hin : l ∈ copied) by (by eapply list_elem_of_lookup_2).
  destruct (ch_dom _ _ _ C l Hin) as [o Ho].
  pose proof (offset_in_lookup H0 _ _ _ (ch_nodup _ _ _ C) Hl) as Hoff.
  pose proof (offset_in_bound H0 _ _ Hin (ch_dom _ _ _ C)) as [_ Hb].
  pose proof (osize_pos H0 l (ch_dom _ _ _ C l Hin)).
  rewrite (proj2 (Z.ltb_lt _ _)) by lia.
  rewrite (bind_ok (gm to_space) _ s _ s eq_refl), (ch_to _ _ _ C).
  replace (base + total (take k copied)) with (fwd copied l) by (unfold fwd; lia).
  destruct (zuo_trace_ok copied k s l C Hl) as (suf & m1 & E1 & C1 & Hs1).
  rewrite (bind_ok _ _ _ _ _ E1).
  assert (Hf1 : fwd (copied ++ suf) l = fwd copied l) by (unfold fwd; by rewrite offset_in_app).
  assert (G : get (fwd copied l) (set_s_mem m1 s)
              = Ok (map_obj (fwd (copied ++ suf)) o) (set_s_mem m1 s)).
  { unfold get, s_heap. rewrite s_mem_set, <- Hf1.
    rewrite (ch_copy _ _ _ C1 k l o), decide_True; [done|lia|by rewrite lookup_app_l by lia|done]. }
  rewrite (bind_ok _ _ _ _ _ G), map_obj_space.
  assert (Ht : total (take k copied) + space_of o = total (take (S k) (copied ++ suf))).
  { rewrite take_app_le, (take_S_r _ _ _ Hl), total_app by lia. cbn.
    unfold osize. rewrite Ho. cbn. lia. }
  rewrite Ht.
  destruct (IH (copied ++ suf) (S k) (set_s_mem m1 s)) as (c' & m' & E' & C' & Hsub & Hst & Hs').
  { by rewrite s_mem_set. } { rewrite length_app. lia. } { lia. }
  autorewrite with zuo_st in *. exists c', m'. split_and!; try done.
  - set_solver.
  - intros x Hx. rewrite Hst by set_solver. unfold fwd. by rewrite offset_in_app.
  - by etransitivity.
Qed.

(** When the scan has caught up, what was copied is what the roots reach. *)
Lemma cheney_done copied m :
  cheney copied (length copied) m → (∀ l, l ∈ roots → l ∈ copied) →
  ∀ l, reach H0 roots l ↔ l ∈ copied.
Proof.
  intros C Hroots l. split; [|apply C].
  induction 1 as [l Hl|l o p Hr IH Ho Hp]; [auto|].
  apply list_elem_of_lookup in IH as [i Hi].
  eapply (ch_scanned _ _ _ C i l o); eauto. by eapply lookup_lt_Some.
Qed.

End cheney.

(** ** The end of a collection *)

Definition discard_all (l : list old_space_t) (h : gmap Z obj) : gmap Z obj :=
  foldl (λ h sp, discard sp h) h l.

Lemma free_all_run l s :
  free_all l s = Ok tt (set_s_mem (set_heap (discard_all l (s_heap s)) (s_mem s)) s).
Proof.
  revert s. induction l as [|sp l IH]; intros s.
  { destruct s as [[] ? ? ? ? ?]. done. }
  assert (E : free sp s = Ok tt (set_s_mem (set_heap (discard sp (s_heap s)) (s_mem s)) s)) by done.
  cbn [free_all]. rewrite (bind_ok _ _ _ _ _ E), IH.
  destruct s as [[] ? ? ? ? ?]. done.
Qed.

Lemma discard_all_lookup l h a :
  discard_all l h !! a
  = if decide (Forall (λ sp, in_space sp a = false) l) then h !! a else None.
Proof.
  revert h. induction l as [|sp l IH]; intros h; cbn.
  { by rewrite decide_True by constructor. }
  unfold discard_all in IH. rewrite IH. unfold discard.
  rewrite map_lookup_filter.
  destruct (h !! a) as [o|] eqn:E; cbn; [|by do 2 case_decide].
  destruct (decide (in_space sp a = false)) as [Hsp|Hsp];
    [rewrite option_guard_True by done|rewrite option_guard_False by done]; cbn;
    repeat case_decide; rewrite ?Forall_cons in *; naive_solver.
Qed.

Lemma zuo_finish_gc_run sp hs os s :
  let fs' := OldSpace sp hs :: os in
  let off := allocation_offset (s_mem s) in
  zuo_finish_gc sp hs os s
  = Ok tt (set_s_mem
      (set_gc_threshold (if off * 2 <? ZUO_MIN_HEAP_SIZE then ZUO_MIN_HEAP_SIZE else off * 2)
        (set_total_allocation off
          (set_heap (discard_all fs' (discard_all (free_spaces (s_mem s)) (s_heap s)))
            (set_free_spaces fs' (s_mem s))))) s).
Proof.
  intros fs' off. unfold zuo_finish_gc.
  rewrite (bind_ok (gm free_spaces) _ s _ s eq_refl).
  rewrite (bind_ok _ _ _ _ _ (free_all_run _ _)).
  rewrite (bind_ok (mod_mem _) _ _ _ _ eq_refl).
  rewrite (bind_ok _ _ _ _ _ (free_all_run _ _)).
  rewrite (bind_ok (gm _) _ _ _ _ eq_refl).
  destruct s as [[] ? ? ? ? ?]. done.
Qed.

(** [f] carries the part of [h] that [roots] reach onto the whole of [h']. *)
Record heap_iso (f : loc → loc) (h : gmap Z obj) (roots : list loc)
    (h' : gmap Z obj) (roots' : list loc) : Prop := {
  hi_roots : roots' = f <$> roots;
  hi_inj : ∀ l l', reach h roots l → reach h roots l' → f l = f l' → l = l';
  hi_copy : ∀ l o, reach h roots l → h !! l = Some o → h' !! f l = Some (map_obj f o);
  hi_only : ∀ a, is_Some (h' !! a) → ∃ l, reach h roots l ∧ a = f l }.

Lemma heap_closed_reach h roots l :
  heap_closed h roots → reach h roots l → is_Some (h !! l).
Proof.
  intros [Hr Hp _]. rewrite Forall_forall in Hr. induction 1 as [|l o p _ _ Ho Hin]; [auto|].
  specialize (Hp _ _ Ho). rewrite Forall_forall in Hp. auto.
Qed.

(** An isomorphic image of a closed heap is closed. *)
Lemma heap_iso_closed f h roots h' roots' :
  heap_closed h roots → heap_iso f h roots h' roots' → heap_closed h' roots'.
Proof.
  intros Hc [Er Hi Hcp Ho].
  assert (Hf : ∀ l, reach h roots l → is_Some (h' !! f l)).
  { intros l Hl. destruct (heap_closed_reach _ _ _ Hc Hl) as [o Hlo].
    rewrite (Hcp l o Hl Hlo). eauto. }
  split.
  - subst roots'. apply Forall_fmap, Forall_forall. intros l Hl. apply Hf. by constructor.
  - intros a o Ha. destruct (Ho a) as (l & Hl & ->); [by rewrite Ha|].
    destruct (heap_closed_reach _ _ _ Hc Hl) as [o0 Ho0].
    rewrite (Hcp l o0 Hl Ho0) in Ha. simplify_eq. rewrite map_obj_ptrs.
    apply Forall_fmap, Forall_forall. intros p Hp. apply Hf. by eapply reach_step.
  - intros a x Ha. destruct (Ho a) as (l & Hl & ->); [by rewrite Ha|].
    destruct (heap_closed_reach _ _ _ Hc Hl) as [o0 Ho0].
    rewrite (Hcp l o0 Hl Ho0) in Ha. destruct o0; simplify_eq.
    by eapply (hc_fwd _ _ Hc).
Qed.

Lemma update_roots_run s l' m' :
  zuo_update_all (roots_of s) s = Ok l' (set_s_mem m' s) → length l' = 37%nat →
  ∃ i r, image_list i ++ runtime_list r = l'
    ∧ update_roots s = Ok tt (set_s_rt r (set_s_img i (set_s_mem m' s))).
Proof.
  intros E Hlen.
  destruct (image_of_list_Some (take 24 l')) as (i & Ei & Hi); [rewrite length_take; lia|].
  destruct (runtime_of_list_Some (drop 24 l')) as (r & Er & Hr); [rewrite length_drop; lia|].
  exists i, r. split; [by rewrite Hi, Hr, take_drop|].
  unfold update_roots. unfold bind at 1. rewrite (bind_ok _ _ _ _ _ E), Ei, Er. done.
Qed.

Section finish.
Context (H0 : gmap Z obj) (roots : list loc) (base cap : Z).
Hypothesis Hclosed : heap_closed H0 roots.
Hypothesis Hsep : ∀ a, is_Some (H0 !! a) → ¬ (base ≤ a < base + cap).
Hypothesis Hcap : heap_bytes H0 ≤ cap.
Context (dead old : list old_space_t) (copied : list loc) (m : mem).
Hypothesis C : cheney H0 roots base cap copied (length copied) m.
Hypothesis Hroots : ∀ l, l ∈ roots → l ∈ copied.
Hypothesis Hold : ∀ a, is_Some (H0 !! a) → Exists (λ sp, in_space sp a = true) old.
Hypothesis Hsp : spaces_ok (brk m) (OldSpace base cap :: old ++ dead).

Let final := discard_all old (discard_all dead (heap m)).

(** Addresses in the new space survive, those of the old heap do not. *)
Lemma final_new l : l ∈ copied → final !! fwd H0 base copied l = heap m !! fwd H0 base copied l.
Proof.
  intros Hl. destruct (offset_in_bound H0 copied l Hl (ch_dom _ _ _ _ _ _ _ C)) as [Hlo Hhi].
  pose proof (cheney_total _ _ _ _ Hcap _ _ _ C).
  pose proof (osize_pos H0 l (ch_dom _ _ _ _ _ _ _ C l Hl)).
  assert (Hall : Forall (λ sp, in_space sp (fwd H0 base copied l) = false) (old ++ dead)).
  { destruct Hsp as [_ [Hd _]]. eapply Forall_impl; [exact Hd|].
    intros sp. unfold disjoint_spaces, fwd. cbn. rewrite in_space_false. lia. }
  apply Forall_app in Hall as [? ?].
  unfold final. rewrite !discard_all_lookup, !decide_True by done. done.
Qed.

Lemma final_old a : is_Some (H0 !! a) → final !! a = None.
Proof.
  intros Ha. unfold final. rewrite discard_all_lookup, decide_False; [done|].
  intros Hf. destruct (proj1 (Exists_exists _ _) (Hold a Ha)) as (sp & Hin & Hs).
  rewrite Forall_forall in Hf. rewrite (Hf sp Hin) in Hs. done.
Qed.

Lemma final_sub a o : final !! a = Some o → heap m !! a = Some o.
Proof. unfold final. rewrite !discard_all_lookup. repeat case_decide; done. Qed.

Lemma final_only a : is_Some (final !! a) → ∃ l, l ∈ copied ∧ a = fwd H0 base copied l.
Proof.
  intros [o Ha]. pose proof (final_sub _ _ Ha) as Hm.
  destruct (ch_only _ _ _ _ _ _ _ C a) as [Hin|?]; [by rewrite Hm| |done].
  apply final_old in Hin. congruence.
Qed.

Lemma final_iso : heap_iso (fwd H0 base copied) H0 roots final (fwd H0 base copied <$> roots).
Proof.
  pose proof (cheney_done _ _ _ _ _ _ C Hroots) as Hreach.
  split; [done|..].
  - intros l l' Hl%Hreach Hl'%Hreach E.
    apply (offset_in_inj H0 copied l l' Hl Hl' (ch_dom _ _ _ _ _ _ _ C)).
    unfold fwd in E. lia.
  - intros l o Hl%Hreach Ho. rewrite final_new by done.
    apply list_elem_of_lookup in Hl as [i Hi].
    rewrite (ch_copy _ _ _ _ _ _ _ C i l o Hi Ho), decide_True; [done|].
    by eapply lookup_lt_Some.
  - intros a Ha. destruct (final_only a Ha) as (l & Hl & ->). exists l.
    split; [by apply Hreach|done].
Qed.

Lemma final_bytes : heap_bytes final ≤ total H0 copied.
Proof.
  apply (heap_bytes_cover H0 copied (fwd H0 base copied)).
  - intros a o Ha. by apply final_only; rewrite Ha.
  - intros l o Hl Ha%final_sub.
    apply list_elem_of_lookup in Hl as [i Hi].
    destruct (ch_dom _ _ _ _ _ _ _ C l) as [o0 Ho0]; [by eapply list_elem_of_lookup_2|].
    rewrite (ch_copy _ _ _ _ _ _ _ C i l o0 Hi Ho0) in Ha.
    unfold osize. rewrite Ho0. cbn. case_decide; simplify_eq; [apply map_obj_space|done].
Qed.
End finish.


(** The memory manager's invariant after the spaces have been swapped. *)
Lemma gc_mem_ok H0 roots base cap copied m old dead :
  heap_bytes H0 ≤ cap → 0 < base → 0 < brk m → old_spaces m = [] →
  cheney H0 roots base cap copied (length copied) m →
  (∀ a, is_Some (H0 !! a) → Exists (λ sp, in_space sp a = true) old) →
  spaces_ok (brk m) (OldSpace base cap :: old ++ dead) →
  let off := allocation_offset m in
  mem_ok
    (set_gc_threshold (if off * 2 <? ZUO_MIN_HEAP_SIZE then ZUO_MIN_HEAP_SIZE else off * 2)
      (set_total_allocation off
        (set_heap (discard_all old (discard_all dead (heap m))) (set_free_spaces old m)))).
Proof.
  intros Hcap Hbase Hbrk Hos C Hold Hsp off.
  pose proof (cheney_total _ _ _ _ Hcap _ _ _ C) as Htot.
  pose proof (total_nonneg H0 copied) as Htot0.
  pose proof (final_bytes H0 roots base cap dead old copied m C Hold) as Hbytes.
  pose proof (final_only H0 roots base cap dead old copied m C Hold) as Honly.
  pose proof (ch_dom _ _ _ _ _ _ _ C) as Hdom.
  pose proof (ch_off _ _ _ _ _ _ _ C) as Hoff. subst off.
  pose proof (ch_to _ _ _ _ _ _ _ C). pose proof (ch_cap _ _ _ _ _ _ _ C).
  clear C. destruct m as [h b hs ts off tot thr os fs]; cbn in *; subst.
  assert (Hnew : spaces_ok b (OldSpace base cap :: old)).
  { destruct Hsp as [Hl [Hd1 Hd2]]. cbn in *. apply Forall_cons in Hl as [Hl1 Hl2].
    apply Forall_app in Hl2 as [Hl2 _]. apply Forall_app in Hd1 as [Hd1 _].
    split; [by constructor|]. split; [done|].
    clear -Hd2. induction old as [|x old IH]; [done|]. cbn in *.
    destruct Hd2 as [Hx Hd2]. apply Forall_app in Hx as [Hx _]. auto. }
  split; cbn; auto; try lia.
  - unfold all_spaces, current_space. cbn. by rewrite decide_False by lia.
  - intros a Ha. destruct (Honly a Ha) as (l & Hl & ->).
    destruct (offset_in_bound H0 copied l Hl Hdom) as [Hlo Hhi].
    pose proof (osize_pos H0 l (Hdom l Hl)).
    destruct Hnew as [Hl1 [Hd _]]. apply Forall_cons in Hl1 as [Hc _]. cbn in Hc.
    unfold fwd. split_and!; [lia|lia|lia| |].
    + eapply Forall_impl; [exact Hd|]. intros sp. unfold disjoint_spaces. cbn.
      rewrite in_space_false. lia.
    + unfold current_space. cbn. rewrite decide_False by lia.
      apply Exists_cons_hd, in_space_true. cbn. lia.
Qed.

(** The collector, from any state with a well-formed memory
    manager and no dangling pointer: [zuo_collect] ends (no invalid access, no
    copy past the end of the new space, no endless scan); the new heap is
    exactly the image of what the roots reached, under a renaming of addresses
    that merges no two objects; the roots are renamed alike; nothing else of
    the state changes; and no more memory is in use than before. *)
Lemma collect_ok s :
  mem_ok (s_mem s) → heap_closed (s_heap s) (roots_of s) →
  ∃ s' f, zuo_collect s = Ok tt s'
    ∧ heap_iso f (s_heap s) (roots_of s) (s_heap s') (roots_of s')
    ∧ mem_ok (s_mem s')
    ∧ heap_closed (s_heap s') (roots_of s')
    ∧ total_allocation (s_mem s') ≤ total_allocation (s_mem s)
    ∧ zuo_symbol_count s' = zuo_symbol_count s
    ∧ zuo_handle_count s' = zuo_handle_count s
    ∧ s_sys s' = s_sys s.
Proof.
  intros Hok Hclosed. set (m := s_mem s) in *.
  pose proof Hok as [Hbrk Hsz Hoff Hsp Hfr Hh Hby].
  assert (Ht : to_space m ≠ 0).
  { intros Ht. destruct (Hfr Ht) as [Hem _].
    pose proof (hc_roots _ _ Hclosed) as Hr. unfold s_heap in Hr. fold m in Hr.
    rewrite Hem in Hr. unfold roots_of in Hr. destruct (s_img s). cbn in Hr.
    apply Forall_cons in Hr as [[? Hx] _]. by rewrite lookup_empty in Hx. }
  set (old := OldSpace (to_space m) (heap_size m) :: old_spaces m).
  assert (Hcur : current_space m ++ old_spaces m = old)
    by (unfold current_space; by rewrite decide_False).
  unfold all_spaces in Hsp. rewrite app_assoc, Hcur in Hsp.
  pose proof (heap_bytes_nonneg (heap m)) as Hnn.
  set (s1 := set_s_mem (set_old_spaces [] m) s).
  destruct (malloc_or_recycle_ok (total_allocation m) (total_allocation m * 2) s1 (brk m) old)
    as (p & sz & m2 & E & Hsz2 & Hb & Hok2 & Em & Hnew & Hfree); try lia.
  { subst s1. rewrite s_mem_set. by destruct m. }
  { subst s1. rewrite s_mem_set. by destruct m. }
  assert (Es1 : s_mem s1 = set_old_spaces [] m) by (subst s1; by rewrite s_mem_set).
  rewrite Es1 in *.
  set (m3 := set_to_space p (set_heap_size sz (set_allocation_offset 0 m2))).
  set (s3 := set_s_mem m3 s).
  assert (Hm3 : heap m3 = s_heap s ∧ brk m3 = brk m2 ∧ free_spaces m3 = free_spaces m2
    ∧ old_spaces m3 = [] ∧ to_space m3 = p ∧ heap_size m3 = sz ∧ allocation_offset m3 = 0)
    by (unfold m3, s_heap; fold m; rewrite Em; by destruct m).
  destruct Hm3 as (Hh3 & Hb3 & Hf3 & Ho3 & Ht3 & Hs3 & Ha3).
  assert (Hp : 0 < p).
  { destruct Hok2 as [Hl _]. apply Forall_cons in Hl as [Hl _]. cbn in Hl. lia. }
  assert (Hsep : ∀ a, is_Some (s_heap s !! a) → ¬ (p ≤ a < p + sz)).
  { intros a Ha. destruct (Hh a Ha) as (Ha1 & _ & Ha2 & _).
    destruct Hnew as [->|Hin]; [lia|].
    rewrite Forall_forall in Ha2. specialize (Ha2 (OldSpace p sz)).
    rewrite in_space_false in Ha2. apply Ha2. by destruct m. }
  assert (Hcap : heap_bytes (s_heap s) ≤ sz) by (unfold s_heap; fold m; lia).
  set (H0 := s_heap s) in *. set (roots := roots_of s) in *.
  assert (C0 : cheney H0 roots p sz [] 0 m3).
  { split; auto; try done.
    - constructor.
    - intros l Hl. set_solver.
    - intros l o Hl. rewrite Hh3. by rewrite decide_False by set_solver.
    - intros a. rewrite Hh3. auto.
    - intros l Hl. set_solver. }
  destruct (zuo_update_all_ok H0 roots p sz Hclosed Hsep Hcap roots [] 0 s3)
    as (c1 & m4 & E4 & C4 & Hin4 & Hs4).
  { subst s3. by rewrite s_mem_set. } { cbn; lia. }
  { intros l Hl. pose proof (hc_roots _ _ Hclosed) as Hr. rewrite Forall_forall in Hr.
    split; [auto|by constructor]. }
  cbn [app] in *.
  assert (Hr3 : roots_of s3 = roots) by (unfold s3, roots; by destruct s).
  rewrite <- Hr3 in E4 at 1.
  destruct (update_roots_run s3 _ _ E4) as (i & r & Eir & E5).
  { rewrite length_fmap. subst roots. unfold roots_of. rewrite length_app.
    by rewrite image_list_length, runtime_list_length. }
  set (s5 := set_s_rt r (set_s_img i (set_s_mem m4 s3))) in *.
  assert (Hm5 : s_mem s5 = m4) by (subst s5 s3; by destruct s).
  destruct (zuo_trace_loop_ok H0 roots p sz Hclosed Hsep Hcap (heap_fuel s5) c1 0 s5)
    as (c2 & m6 & E6 & C6 & Hsub & Hst & Hs6).
  { by rewrite Hm5. } { lia. }
  { unfold heap_fuel. cbn. apply Nat.le_le_succ_r.
    unfold s_heap. rewrite Hm5, <- !(size_dom (D := gset Z)). apply subseteq_size.
    intros a Ha%elem_of_dom. apply elem_of_dom. destruct Ha as [o Ho].
    rewrite (ch_from _ _ _ _ _ _ _ C4 a o Ho). eauto. }
  cbn [take total] in E6.
  assert (Hs56 : same_spaces m3 m6).
  { rewrite Hm5 in Hs6. unfold s3 in Hs4. rewrite s_mem_set in Hs4. by transitivity m4. }
  assert (Hm6 : brk m6 = brk m2 ∧ free_spaces m6 = free_spaces m2 ∧ old_spaces m6 = []).
  { rewrite <- Hb3, <- Hf3, <- Ho3. by apply same_spaces_fields. }
  destruct Hm6 as (Hb6 & Hf6 & Ho6).
  assert (Hroots : ∀ l, l ∈ roots → l ∈ c2) by auto.
  assert (Hold : ∀ a, is_Some (H0 !! a) → Exists (λ sp, in_space sp a = true) old).
  { intros a Ha. rewrite <- Hcur. by destruct (Hh a Ha) as (_ & _ & _ & ?). }
  assert (Hspf : spaces_ok (brk m6) (OldSpace p sz :: old ++ free_spaces m6))
    by (rewrite Hb6, Hf6; exact Hok2).
  pose proof (final_iso H0 roots p sz Hcap _ _ c2 m6 C6 Hroots Hold Hspf) as Hiso.
  pose proof (gc_mem_ok H0 roots p sz c2 m6 old _ Hcap Hp ltac:(lia) Ho6 C6 Hold Hspf) as Hmem.
  cbn zeta in Hmem.
  eexists _, (fwd H0 p c2). split.
  { unfold zuo_collect.
    rewrite (bind_ok (gm to_space) _ _ _ _ eq_refl), (bind_ok (gm old_spaces) _ _ _ _ eq_refl).
    rewrite (bind_ok (gm heap_size) _ _ _ _ eq_refl), (bind_ok (gm total_allocation) _ _ _ _ eq_refl).
    rewrite (bind_ok (mod_mem _) _ _ _ _ eq_refl). fold m. fold s1.
    rewrite (bind_ok _ _ _ _ _ E), (bind_ok (mod_mem _) _ _ _ _ eq_refl).
    cbn [fst snd]. rewrite s_mem_set.
    assert (Es3 : set_s_mem m3 (set_s_mem m2 s1) = s3) by (subst s1 s3; by destruct s).
    fold m3. rewrite Es3, (bind_ok _ _ _ _ _ E5).
    rewrite (bind_ok zuo_trace_objects _ _ _ _ E6). apply zuo_finish_gc_run. }
  set (mf := set_gc_threshold _ _).
  assert (Hf : s_mem (set_s_mem mf (set_s_mem m6 s5)) = mf) by apply s_mem_set.
  assert (Hroots' : roots_of (set_s_mem mf (set_s_mem m6 s5)) = fwd H0 p c2 <$> roots).
  { transitivity (image_list i ++ runtime_list r); [unfold s5, s3; by destruct s|].
    rewrite Eir. apply list_fmap_ext. intros ? l Hl%list_elem_of_lookup_2. symmetry. auto. }
  assert (Hmf : mf = set_gc_threshold
     (if allocation_offset m6 * 2 <? ZUO_MIN_HEAP_SIZE then ZUO_MIN_HEAP_SIZE
      else allocation_offset m6 * 2)
     (set_total_allocation (allocation_offset m6)
        (set_heap (discard_all old (discard_all (free_spaces m6) (heap m6)))
           (set_free_spaces old m6)))) by (unfold mf, s_heap; autorewrite with zuo_st; done).
  assert (Hiso' : heap_iso (fwd H0 p c2) H0 roots (s_heap (set_s_mem mf (set_s_mem m6 s5)))
            (roots_of (set_s_mem mf (set_s_mem m6 s5)))).
  { rewrite Hroots'. unfold s_heap. rewrite Hf, Hmf. by destruct m6. }
  assert (Hrest : zuo_symbol_count s5 = zuo_symbol_count s
     ∧ zuo_handle_count s5 = zuo_handle_count s ∧ s_sys s5 = s_sys s)
    by (unfold s5, s3; by destruct s).
  split; [exact Hiso'|]. split; [rewrite Hf, Hmf; exact Hmem|].
  split; [by eapply heap_iso_closed|].
  split; [|by destruct s5].
  rewrite Hf, Hmf. transitivity (allocation_offset m6); [by destruct m6|].
  rewrite (ch_off _ _ _ _ _ _ _ C6). transitivity (heap_bytes (heap m)); [|done].
  apply total_le_heap_bytes; [apply C6|]. intros l Hl.
  destruct (ch_dom _ _ _ _ _ _ _ C6 l Hl) as [o Ho]. exists o. unfold osize. by rewrite Ho.
Qed.
