(* ===== verification/Objects.v ===== *)
(** * Object constructors and error functions

    The functions of zuo.c that allocate one object each, the accessors of
    trie nodes, and the functions that report an error and end the process. *)

From S2P Require Import Prelude Sys Heap Alloc.

(** ** Constructors *)

Definition zuo_integer (i : Z) : M loc := zuo_new (Ointeger i) sizeof_integer.

Definition zuo_cons (car cdr : loc) : M loc := zuo_new (Opair car cdr) sizeof_pair.

(** [zuo_sized_string(str, len)], where [b] are the [len] bytes at [str]; it
    fills in what [zuo_uninitialized_string(len)] allocates. *)
Definition zuo_sized_string (b : list Z) : M loc :=
  zuo_new (Ostring b) (ZUO_STRING_ALLOC_SIZE (Z.of_nat (length b))).

Definition zuo_string (str : list Z) : M loc := zuo_sized_string (c_str str).

Definition zuo_trie_node : M loc :=
  u <- zi o_undefined ;;
  zuo_new (Otrie_node 0 u u (replicate (Z.to_nat ZUO_TRIE_BFACTOR) u)) sizeof_trie_node.

Definition next_symbol_id : M Z :=
  λ s, Ok (zuo_symbol_count s) (set_zuo_symbol_count (zuo_symbol_count s + 1) s).

Definition zuo_make_symbol_from_string (str : loc) : M loc :=
  id <- next_symbol_id ;;
  zuo_new (Osymbol id str) sizeof_symbol.

Definition zuo_make_symbol (in_str : list Z) : M loc :=
  str <- zuo_string in_str ;; zuo_make_symbol_from_string str.

Definition zuo_variable (name : loc) : M loc :=
  u <- zi o_undefined ;; zuo_new (Ovariable name u) sizeof_variable.

Definition zuo_closure (lambda env : loc) : M loc := zuo_new (Oclosure lambda env) sizeof_closure.

Definition next_handle_id : M Z :=
  λ s, Ok (zuo_handle_count s) (set_zuo_handle_count (zuo_handle_count s + 1) s).

Definition zuo_handle (raw : Z) (status : zuo_handle_status_t) : M loc :=
  id <- next_handle_id ;;
  zuo_new (Ohandle id status raw) sizeof_handle.

Definition zuo_opaque (tag val : loc) : M loc := zuo_new (Oopaque tag val) sizeof_opaque.

Definition zuo_cont (tag : zuo_cont_tag_t) (data env in_proc next : loc) : M loc :=
  zuo_new (Ocont tag data env in_proc next) sizeof_cont.

(** ** Trie nodes *)

Definition trie_next (t : loc) (i : Z) : M loc :=
  o <- get t ;;
  match o with
  | Otrie_node _ _ _ next =>
      match next !! Z.to_nat i with Some l => ret l | None => ub "next out of bounds" end
  | _ => ub "next of a non-trie"
  end.
Definition set_trie_next (t : loc) (i : Z) (v : loc) : M unit :=
  o <- get t ;;
  match o with
  | Otrie_node c k w next =>
      if decide (Z.to_nat i < length next)%nat
      then put t (Otrie_node c k w (<[Z.to_nat i := v]> next))
      else ub "next out of bounds"
  | _ => ub "next of a non-trie"
  end.
Definition trie_val (t : loc) : M loc :=
  o <- get t ;; match o with Otrie_node _ _ v _ => ret v | _ => ub "val of a non-trie" end.
Definition trie_key (t : loc) : M loc :=
  o <- get t ;; match o with Otrie_node _ k _ _ => ret k | _ => ub "key of a non-trie" end.
Definition trie_count (t : loc) : M Z :=
  o <- get t ;; match o with Otrie_node c _ _ _ => ret c | _ => ub "count of a non-trie" end.
Definition set_trie_val (t v : loc) : M unit :=
  o <- get t ;;
  match o with Otrie_node c k _ n => put t (Otrie_node c k v n) | _ => ub "val of a non-trie" end.
Definition set_trie_kv (t k v : loc) : M unit :=
  o <- get t ;;
  match o with Otrie_node c _ _ n => put t (Otrie_node c k v n) | _ => ub "val of a non-trie" end.
Definition add_trie_count (t : loc) (d : Z) : M unit :=
  o <- get t ;;
  match o with Otrie_node c k v n => put t (Otrie_node (c + d) k v n) | _ => ub "count of a non-trie" end.

(** ** Errors *)

Definition zuo_panic {A} (s : string) : M A := fail (Epanic s).
Definition zuo_exit_int {A} (v : Z) : M A := fail (Eexit v).
Definition zuo_fail {A} (str : list Z) : M A := fail (Efail str).
Definition zuo_fail1w {A} (who : list Z) (str : list Z) (o : loc) : M A := fail (Efail1w who str o).
Definition zuo_fail1 {A} (str : list Z) (o : loc) : M A := zuo_fail1w [] str o.

(** "not an " before a vowel, "not a " otherwise. *)
Definition zuo_fail_arg {A} (who what : list Z) (o : loc) : M A :=
  let not_a :=
    match what with
    | c :: _ => if existsb (Z.eqb c) (bytes_of "aeiou") then bytes_of "not an " else bytes_of "not a "
    | [] => bytes_of "not a "
    end in
  zuo_fail1w who (not_a ++ what) o.

Definition check_string (who : list Z) (l : loc) : M unit :=
  b <- has_tag zuo_string_tag l ;; if b then ret tt else zuo_fail_arg who (bytes_of "string") l.
Definition check_symbol (who : list Z) (l : loc) : M unit :=
  b <- has_tag zuo_symbol_tag l ;; if b then ret tt else zuo_fail_arg who (bytes_of "symbol") l.
Definition check_integer (who : list Z) (l : loc) : M unit :=
  b <- has_tag zuo_integer_tag l ;; if b then ret tt else zuo_fail_arg who (bytes_of "integer") l.
Definition check_hash (who : list Z) (l : loc) : M unit :=
  b <- has_tag zuo_trie_node_tag l ;; if b then ret tt else zuo_fail_arg who (bytes_of "hash table") l.

(** ** What the constructors do *)

(** [s'] is [s] with the object [o] at the new address [p]. *)
Record allocd (s : st) (p : loc) (o : obj) (s' : st) : Prop := {
  al_fresh : s_heap s !! p = None;
  al_pos : 0 < p;
  al_heap : s_heap s' = <[p := o]> (s_heap s);
  al_ok : mem_ok (s_mem s');
  al_img : s_img s' = s_img s;
  al_rt : s_rt s' = s_rt s;
  al_out : s_sys s' = s_sys s }.

Lemma zuo_new_allocd o size s :
  mem_ok (s_mem s) → ALLOC_ALIGN size = space_of o → sizeof_forwarded ≤ size →
  ∃ p s', zuo_new o size s = Ok p s' ∧ allocd s p o s'
    ∧ zuo_symbol_count s' = zuo_symbol_count s
    ∧ zuo_handle_count s' = zuo_handle_count s.
Proof.
  intros Hok Hal Hsz.
  destruct (zuo_new_ok o size s Hok Hal Hsz) as (p & m' & E & Hn & Hp & Hh & Hok').
  exists p, (set_s_mem m' s). split; [done|]. split.
  - split; unfold s_heap; rewrite ?s_mem_set; try done; by destruct s.
  - by destruct s.
Qed.

(** The computation allocates [o] and changes nothing else. *)
Definition allocates (c : M loc) (o : st → obj) : Prop :=
  ∀ s, mem_ok (s_mem s) →
    ∃ p s', c s = Ok p s' ∧ allocd s p (o s) s'
      ∧ zuo_symbol_count s' = zuo_symbol_count s
      ∧ zuo_handle_count s' = zuo_handle_count s.

Lemma zuo_integer_ok i : allocates (zuo_integer i) (λ _, Ointeger i).
Proof. intros s Hok. by apply zuo_new_allocd. Qed.

Lemma zuo_cons_ok a d : allocates (zuo_cons a d) (λ _, Opair a d).
Proof. intros s Hok. by apply zuo_new_allocd. Qed.

Lemma zuo_sized_string_ok b : allocates (zuo_sized_string b) (λ _, Ostring b).
Proof.
  intros s Hok. apply zuo_new_allocd; [done|done|].
  unfold ZUO_STRING_ALLOC_SIZE, sizeof_string, sizeof_forwarded. lia.
Qed.

Lemma zuo_string_ok b : allocates (zuo_string b) (λ _, Ostring (c_str b)).
Proof. apply zuo_sized_string_ok. Qed.

Definition empty_node (s : st) : obj :=
  Otrie_node 0 (o_undefined (s_img s)) (o_undefined (s_img s)) (replicate 16 (o_undefined (s_img s))).

Lemma zuo_trie_node_ok : allocates zuo_trie_node empty_node.
Proof.
  intros s Hok. unfold zuo_trie_node.
  rewrite (bind_ok (zi o_undefined) _ _ _ _ eq_refl). by apply zuo_new_allocd.
Qed.

Lemma zuo_variable_ok n :
  allocates (zuo_variable n) (λ s, Ovariable n (o_undefined (s_img s))).
Proof.
  intros s Hok. unfold zuo_variable.
  rewrite (bind_ok (zi o_undefined) _ _ _ _ eq_refl). by apply zuo_new_allocd.
Qed.

Lemma zuo_closure_ok l e : allocates (zuo_closure l e) (λ _, Oclosure l e).
Proof. intros s Hok. by apply zuo_new_allocd. Qed.

Lemma zuo_opaque_ok t v : allocates (zuo_opaque t v) (λ _, Oopaque t v).
Proof. intros s Hok. by apply zuo_new_allocd. Qed.

Lemma zuo_cont_ok t d e p n : allocates (zuo_cont t d e p n) (λ _, Ocont t d e p n).
Proof. intros s Hok. by apply zuo_new_allocd. Qed.

(** A new symbol takes the next identifier. *)
Lemma zuo_make_symbol_from_string_ok str s :
  mem_ok (s_mem s) →
  ∃ p s', zuo_make_symbol_from_string str s = Ok p s'
    ∧ allocd s p (Osymbol (zuo_symbol_count s) str) s'
    ∧ zuo_symbol_count s' = zuo_symbol_count s + 1
    ∧ zuo_handle_count s' = zuo_handle_count s.
Proof.
  intros Hok. unfold zuo_make_symbol_from_string.
  rewrite (bind_ok next_symbol_id _ _ _ _ eq_refl).
  destruct (zuo_new_allocd (Osymbol (zuo_symbol_count s) str) sizeof_symbol
    (set_zuo_symbol_count (zuo_symbol_count s + 1) s)) as (p & s' & E & Ha & Hc & Hh);
    [by destruct s|done|done|].
  exists p, s'. split; [done|]. destruct Ha, s. split; [by split|]. done.
Qed.

(** ** Reading and writing *)

Lemma get_ok l o s : s_heap s !! l = Some o → get l s = Ok o s.
Proof. unfold get. by intros ->. Qed.

Lemma put_ok l o o' s : s_heap s !! l = Some o → put l o' s = Ok tt (set_heap_at l o' s).
Proof. unfold put. by intros ->. Qed.

Lemma s_heap_set l o s : s_heap (set_heap_at l o s) = <[l := o]> (s_heap s).
Proof. by destruct s as [[] ? ? ? ? ?]. Qed.
Lemma s_img_set l o s : s_img (set_heap_at l o s) = s_img s.
Proof. by destruct s. Qed.
Lemma s_rt_set l o s : s_rt (set_heap_at l o s) = s_rt s.
Proof. by destruct s. Qed.
Lemma s_count_set l o s : zuo_symbol_count (set_heap_at l o s) = zuo_symbol_count s.
Proof. by destruct s. Qed.
#[export] Hint Rewrite s_heap_set s_img_set s_rt_set s_count_set : zuo_st.

(** A store that keeps the size of the object keeps the memory manager's
    invariant. *)
Lemma put_mem_ok l o o' s :
  mem_ok (s_mem s) → s_heap s !! l = Some o → space_of o' = space_of o →
  mem_ok (s_mem (set_heap_at l o' s)).
Proof.
  intros [Hbrk Hsz Hoff Hsp Hfr Hh Hby] Hl Hspace.
  destruct s as [[h b hs ts off tot thr os fs] ? ? ? ? ?]; cbn in *.
  split; cbn; auto.
  - intros Ht. destruct (Hfr Ht) as [-> _]. unfold s_heap in Hl. cbn in Hl.
    by rewrite lookup_empty in Hl.
  - intros a Ha. apply Hh. unfold s_heap in *. cbn in *.
    destruct (decide (a = l)) as [->|]; [by rewrite Hl|].
    by rewrite lookup_insert_ne in Ha.
  - unfold s_heap in *. cbn in *. rewrite (heap_bytes_update _ _ _ _ Hl). lia.
Qed.

(** ** Growing the heap

    [grows s s' hn]: the run from [s] to [s'] added the objects [hn] at new
    addresses, and left every object of [s] and every global as it was. *)
Record grows (s s' : st) (hn : gmap Z obj) : Prop := {
  gr_disj : hn ##ₘ s_heap s;
  gr_heap : s_heap s' = hn ∪ s_heap s;
  gr_ok : mem_ok (s_mem s');
  gr_img : s_img s' = s_img s;
  gr_rt : s_rt s' = s_rt s;
  gr_sym : zuo_symbol_count s' = zuo_symbol_count s;
  gr_hdl : zuo_handle_count s' = zuo_handle_count s;
  gr_out : s_sys s' = s_sys s }.

Lemma grows_refl s : mem_ok (s_mem s) → grows s s ∅.
Proof.
  intros Hok. split; try done; [apply map_disjoint_empty_l|].
  by rewrite (left_id_L ∅ (∪)).
Qed.

Lemma grows_trans s1 s2 s3 hn hn' :
  grows s1 s2 hn → grows s2 s3 hn' → grows s1 s3 (hn' ∪ hn).
Proof.
  intros [Hd Hh Hok ? ? ? ? ?] [Hd' Hh' Hok' ? ? ? ? ?]. rewrite Hh in Hd'.
  apply map_disjoint_union_r in Hd' as [Hd1 Hd2]. split; try congruence.
  - by apply map_disjoint_union_l.
  - rewrite Hh', Hh. by rewrite (assoc_L (∪)).
Qed.

Lemma grows_subseteq s s' hn : grows s s' hn → s_heap s ⊆ s_heap s'.
Proof. intros [Hd -> _ _ _ _ _ _]. by apply map_union_subseteq_r. Qed.

Lemma grows_lookup s s' hn l o :
  grows s s' hn → s_heap s !! l = Some o → s_heap s' !! l = Some o.
Proof. intros Hg Hl. eapply lookup_weaken; [exact Hl|by eapply grows_subseteq]. Qed.

Lemma allocates_grows c o s :
  allocates c o → mem_ok (s_mem s) →
  ∃ p s', c s = Ok p s' ∧ s_heap s !! p = None ∧ grows s s' {[p := o s]}.
Proof.
  intros Hc Hok. destruct (Hc s Hok) as (p & s' & E & [] & ? & ?).
  exists p, s'. split; [done|]. split; [done|]. split; try done.
  - by apply map_disjoint_singleton_l.
  - by rewrite <- insert_union_singleton_l.
Qed.

(** A store into an object allocated since [s]. *)
Lemma grows_put s s' hn l o o' :
  grows s s' hn → hn !! l = Some o → space_of o' = space_of o →
  put l o' s' = Ok tt (set_heap_at l o' s') ∧ grows s (set_heap_at l o' s') (<[l := o']> hn).
Proof.
  intros [Hd Hh Hok ? ? ? ? ?] Hl Hsp.
  assert (Hl' : s_heap s' !! l = Some o) by (rewrite Hh; by apply lookup_union_Some_l).
  split; [by eapply put_ok|].
  assert (Hn : s_heap s !! l = None) by (by eapply map_disjoint_Some_l).
  split; autorewrite with zuo_st; try done.
  - apply map_disjoint_insert_l_2; done.
  - rewrite Hh. by rewrite insert_union_l.
  - by eapply put_mem_ok.
  - by destruct s'.
  - by destruct s'.
Qed.

(** ** Lists *)

(** The list at [l] has the elements [vs], with [nl] for the empty list. *)
Fixpoint is_list (h : gmap Z obj) (nl l : loc) (vs : list loc) : Prop :=
  match vs with
  | [] => l = nl
  | v :: vs' => ∃ d, l ≠ nl ∧ h !! l = Some (Opair v d) ∧ is_list h nl d vs'
  end.

Lemma is_list_weaken h h' nl l vs : h ⊆ h' → is_list h nl l vs → is_list h' nl l vs.
Proof.
  intros Hs. revert l. induction vs as [|v vs IH]; intros l; cbn; [done|].
  intros (d & Hne & Hl & Hd). exists d. split; [done|]. split; [|auto].
  by eapply lookup_weaken.
Qed.

Lemma is_list_nil_inv h nl vs : is_list h nl nl vs → vs = [].
Proof. destruct vs; [done|]. by intros (? & ? & _). Qed.

Lemma is_list_det h nl l vs vs' : is_list h nl l vs → is_list h nl l vs' → vs = vs'.
Proof.
  revert l vs'. induction vs as [|v vs IH]; intros l vs'; cbn.
  - intros -> H. by rewrite (is_list_nil_inv _ _ _ H).
  - intros (d & Hne & Hl & Hd). destruct vs' as [|v' vs']; cbn; [done|].
    intros (d' & _ & Hl' & Hd'). simplify_eq. f_equal. eauto.
Qed.

(** The cells of a list are distinct objects: a list is no longer than the
    heap is large, so [heap_fuel] is enough for a loop over it. *)
Lemma is_list_fuel h nl l vs : is_list h nl l vs → (length vs ≤ size h)%nat.
Proof.
  intros H.
  assert (Hgen : ∀ vs l, is_list h nl l vs →
    ∃ cells, length cells = length vs ∧ NoDup cells
      ∧ ∀ a, a ∈ cells → is_Some (h !! a) ∧ ∃ ws, is_list h nl a ws ∧ (length ws ≤ length vs)%nat).
  { clear. induction vs as [|v vs IH]; intros l H.
    { exists []. split_and!; [done|constructor|]. intros a Ha. set_solver. }
    pose proof H as (d & Hne & Hl & Hd). destruct (IH d Hd) as (cs & Hlen & Hnd & Hcs).
    exists (l :: cs). split_and!; [cbn; lia| |].
    - constructor; [|done]. intros Hin. destruct (Hcs l Hin) as (_ & ws & Hws & Hle).
      pose proof (is_list_det _ _ _ _ _ H Hws) as <-. cbn in Hle. lia.
    - intros a [->|Ha]%elem_of_cons.
      + split; [by rewrite Hl|]. exists (v :: vs). split; [done|lia].
      + destruct (Hcs a Ha) as (? & ws & ? & ?). split; [done|]. exists ws. cbn. split; [done|lia]. }
  destruct (Hgen vs l H) as (cells & <- & Hnd & Hin).
  rewrite <- (size_list_to_set (C := gset Z)) by done.
  rewrite <- (size_dom (D := gset Z) h). apply subseteq_size.
  intros x Hx%elem_of_list_to_set. apply elem_of_dom. by apply Hin.
Qed.
