(* ===== verification/Trie.v ===== *)
(** * Tries

    The persistent symbol-keyed maps ("hash tables") of zuo.c, section
    "tries", and their refinement to finite maps: a trie node reached by the
    nibbles of a symbol's identifier, least significant first, holds the key
    and value of that symbol. *)

From S2P Require Import Prelude Sys Heap Alloc Objects.

(** ** Definitions *)

(** A [zuo_int_t] has 16 nibbles, so a walk along one takes 16 steps. *)
Definition trie_fuel : nat := 16.

Fixpoint trie_lookup_loop (fuel : nat) (trie : loc) (id : Z) : M loc :=
  if 0 <? id then
    match fuel with
    | O => λ _, Diverge
    | S fuel' =>
        trie <- trie_next trie (Z.land id ZUO_TRIE_BFACTOR_MASK) ;;
        b <- is_zi o_undefined trie ;;
        if b then zi o_undefined
        else trie_lookup_loop fuel' trie (Z.shiftr id ZUO_TRIE_BFACTOR_BITS)
    end
  else trie_val trie.

Definition trie_lookup (trie : loc) (id : Z) : M loc := trie_lookup_loop trie_fuel trie id.

Definition zuo_trie_lookup (trie sym : loc) : M loc :=
  id <- symbol_id sym ;; trie_lookup trie id.

(** trie mutation, used only for the initial environment *)
Fixpoint trie_set_loop (fuel : nat) (trie : loc) (id : Z) : M loc :=
  if 0 <? id then
    match fuel with
    | O => λ _, Diverge
    | S fuel' =>
        next <- trie_next trie (Z.land id ZUO_TRIE_BFACTOR_MASK) ;;
        b <- is_zi o_undefined next ;;
        trie <- (if b then
                   next <- zuo_trie_node ;;
                   set_trie_next trie (Z.land id ZUO_TRIE_BFACTOR_MASK) next ;;;
                   ret next
                 else ret next) ;;
        trie_set_loop fuel' trie (Z.shiftr id ZUO_TRIE_BFACTOR_BITS)
    end
  else ret trie.

Definition trie_set (trie : loc) (id : Z) (key val : loc) : M unit :=
  trie <- trie_set_loop trie_fuel trie id ;; set_trie_kv trie key val.

Definition zuo_trie_set (trie sym val : loc) : M unit :=
  id <- symbol_id sym ;;
  trie_set trie id sym val ;;;
  add_trie_count trie 1.

Definition trie_clone (trie : loc) : M loc :=
  o <- get trie ;;
  match o with
  | Otrie_node _ _ _ _ => zuo_new o sizeof_trie_node
  | _ => ub "clone of a non-trie"
  end.

(** The result is the new trie and the value of [*added]. *)
Fixpoint trie_extend (fuel : nat) (trie : loc) (id : Z) (key val : loc) (added : Z) : M (loc * Z) :=
  b <- is_zi o_undefined trie ;;
  r <- (if b then n <- zuo_trie_node ;; ret ((n, n), 1)
        else n <- trie_clone trie ;; ret ((n, trie), added)) ;;
  let new_trie := fst (fst r) in
  let trie := snd (fst r) in
  let added := snd r in
  if 0 <? id then
    match fuel with
    | O => λ _, Diverge
    | S fuel' =>
        let i := Z.land id ZUO_TRIE_BFACTOR_MASK in
        sub <- trie_next trie i ;;
        r <- trie_extend fuel' sub (Z.shiftr id ZUO_TRIE_BFACTOR_BITS) key val added ;;
        set_trie_next new_trie i (fst r) ;;;
        add_trie_count new_trie (snd r) ;;;
        ret (new_trie, snd r)
    end
  else
    v <- trie_val new_trie ;;
    b <- is_zi o_undefined v ;;
    let added := if b then 1 else added in
    add_trie_count new_trie added ;;;
    set_trie_kv new_trie key val ;;;
    ret (new_trie, added).

Definition zuo_trie_extend (trie sym val : loc) : M loc :=
  id <- symbol_id sym ;;
  r <- trie_extend trie_fuel trie id sym val 0 ;;
  ret (fst r).

(** Is there a sub-trie at an index in [is]? *)
Fixpoint any_next (trie : loc) (is_ : list Z) : M bool :=
  match is_ with
  | [] => ret false
  | i :: is' =>
      n <- trie_next trie i ;;
      b <- is_zi o_undefined n ;;
      if b then any_next trie is' else ret true
  end.

(** [0 .. ZUO_TRIE_BFACTOR - 1] *)
Definition bfactor_indices : list Z := seqZ 0 ZUO_TRIE_BFACTOR.

(** What to return for a node that lost its value or its last sub-trie. *)
Definition trie_prune (new_trie : loc) (depth : Z) : M loc :=
  if 0 <? depth then
    b <- any_next new_trie bfactor_indices ;;
    if b then ret new_trie else zi o_undefined
  else ret new_trie.

Fixpoint trie_remove (fuel : nat) (trie : loc) (id : Z) (depth : Z) : M loc :=
  b <- is_zi o_undefined trie ;;
  if b then zi o_undefined
  else if 0 <? id then
    match fuel with
    | O => λ _, Diverge
    | S fuel' =>
        let i := Z.land id ZUO_TRIE_BFACTOR_MASK in
        old <- trie_next trie i ;;
        sub_trie <- trie_remove fuel' old (Z.shiftr id ZUO_TRIE_BFACTOR_BITS) (depth + 1) ;;
        if decide (sub_trie = old) then ret trie
        else
          new_trie <- trie_clone trie ;;
          set_trie_next new_trie i sub_trie ;;;
          add_trie_count new_trie (-1) ;;;
          b1 <- is_zi o_undefined sub_trie ;;
          v <- trie_val new_trie ;;
          b2 <- is_zi o_undefined v ;;
          if negb b1 || negb b2 then ret new_trie
          else trie_prune new_trie depth
    end
  else
    v <- trie_val trie ;;
    b <- is_zi o_undefined v ;;
    if b then ret trie
    else
      new_trie <- trie_clone trie ;;
      add_trie_count new_trie (-1) ;;;
      u <- zi o_undefined ;;
      set_trie_kv new_trie u u ;;;
      trie_prune new_trie depth.

Definition zuo_trie_remove (trie sym : loc) : M loc :=
  id <- symbol_id sym ;; trie_remove trie_fuel trie id 0.

(** The depth of recursion over whole tries: at most one level per nibble. *)
Definition trie_depth : nat := 17.

Fixpoint zuo_trie_keys_subset_p (fuel : nat) (trie1 trie2 : loc) : M bool :=
  match fuel with
  | O => λ _, Diverge
  | S fuel' =>
      if decide (trie1 = trie2) then ret true
      else
        b1 <- is_zi o_undefined trie1 ;;
        if b1 then ret true
        else
          b2 <- is_zi o_undefined trie2 ;;
          if b2 then ret false
          else
            c1 <- trie_count trie1 ;;
            c2 <- trie_count trie2 ;;
            if c2 <? c1 then ret false
            else
              (fix loop is_ :=
                 match is_ with
                 | [] => ret true
                 | i :: is' =>
                     n1 <- trie_next trie1 i ;;
                     n2 <- trie_next trie2 i ;;
                     b <- zuo_trie_keys_subset_p fuel' n1 n2 ;;
                     if b then loop is' else ret false
                 end) bfactor_indices
  end.

Fixpoint zuo_trie_keys (fuel : nat) (trie accum : loc) : M loc :=
  match fuel with
  | O => λ _, Diverge
  | S fuel' =>
      k <- trie_key trie ;;
      b <- is_zi o_undefined k ;;
      accum <- (if b then ret accum else zuo_cons k accum) ;;
      (fix loop is_ accum :=
         match is_ with
         | [] => ret accum
         | i :: is' =>
             n <- trie_next trie i ;;
             b <- is_zi o_undefined n ;;
             accum <- (if b then ret accum else zuo_trie_keys fuel' n accum) ;;
             loop is' accum
         end) bfactor_indices accum
  end.

(** ** The finite map a trie stands for *)

(** The entry a node itself holds. *)
Definition node_entry (u k v : loc) : option (loc * loc) :=
  if decide (v = u) then None else Some (k, v).

(** The part of a map under the nibble [i]: [mi] holds at [j] what [m] holds at
    [16 j + i]. *)
Definition submap (m mi : gmap Z (loc * loc)) (i : Z) : Prop :=
  (∀ j, 0 ≤ j → 0 < 16 * j + i → m !! (16 * j + i) = mi !! j) ∧ (i = 0 → mi !! 0 = None).

(** The trie at [t], of at most [d] levels below its root, holds the entries of
    [m]; if [full], every node's count is the number of entries under it. *)
Fixpoint trie_at (u : loc) (full : bool) (d : nat) (h : gmap Z obj) (t : loc)
    (m : gmap Z (loc * loc)) : Prop :=
  (t = u ∧ m = ∅) ∨
  (t ≠ u ∧ ∃ c k v next,
    h !! t = Some (Otrie_node c k v next)
    ∧ length next = 16%nat
    ∧ (full = true → c = Z.of_nat (size m))
    ∧ m !! 0 = node_entry u k v
    ∧ (k = u ↔ v = u)
    ∧ (∀ id, id < 0 → m !! id = None)
    ∧ match d with
      | O => next = replicate 16 u ∧ ∀ id, 0 < id → m !! id = None
      | S d' => ∀ i, 0 ≤ i < 16 →
          ∃ n mi, next !! Z.to_nat i = Some n ∧ trie_at u full d' h n mi ∧ submap m mi i
            ∧ (n = u ∨ mi ≠ ∅)
      end).

(** ** Nibbles *)

Lemma nibble_land id : Z.land id ZUO_TRIE_BFACTOR_MASK = id mod 16.
Proof. change ZUO_TRIE_BFACTOR_MASK with (Z.ones 4). rewrite Z.land_ones by lia. done. Qed.

Lemma nibble_shift id : Z.shiftr id ZUO_TRIE_BFACTOR_BITS = id / 16.
Proof. unfold ZUO_TRIE_BFACTOR_BITS. by rewrite Z.shiftr_div_pow2 by lia. Qed.

Lemma nibble_split id : id = 16 * (id / 16) + id mod 16.
Proof. apply Z.div_mod. lia. Qed.

Lemma nibble_bound id : 0 ≤ id mod 16 < 16.
Proof. apply Z.mod_pos_bound. lia. Qed.

Lemma nibble_div_bound id (n : nat) : 0 ≤ id < 16 ^ Z.of_nat (S n) → 0 ≤ id / 16 < 16 ^ Z.of_nat n.
Proof.
  intros [H1 H2]. rewrite Nat2Z.inj_succ, Z.pow_succ_r in H2 by lia.
  split; [apply Z.div_pos; lia|]. apply Z.div_lt_upper_bound; lia.
Qed.

(** [16 j + i] as the identifier that the nibble [i] leads into. *)
Lemma nibble_inj i i' j j' :
  0 ≤ i < 16 → 0 ≤ i' < 16 → 16 * j + i = 16 * j' + i' → i = i' ∧ j = j'.
Proof. lia. Qed.

#[export] Hint Rewrite nibble_land nibble_shift : zuo_st.

(** ** Basic facts about [trie_at] *)

Lemma trie_at_undefined u full d h : trie_at u full d h u ∅.
Proof. destruct d; by left. Qed.

Lemma trie_at_undefined_inv u full d h m : trie_at u full d h u m → m = ∅.
Proof. destruct d; intros [[_ ?]|[? _]]; done. Qed.

Lemma trie_at_nodes u full d h h' t m :
  (∀ l c k v next, h !! l = Some (Otrie_node c k v next) → h' !! l = Some (Otrie_node c k v next)) →
  trie_at u full d h t m → trie_at u full d h' t m.
Proof.
  intros Hs. revert t m. induction d as [|d IH]; intros t m; cbn;
    (intros [?|(Hne & c & k & v & next & Ht & Hrest)]; [by left|]; right; split; [done|];
     exists c, k, v, next; split; [by apply Hs|]).
  - done.
  - destruct Hrest as (Hl & Hc & H0 & Hk & Hn & Hsub). repeat (split; [done|]).
    intros i Hi. destruct (Hsub i Hi) as (n & mi & ? & ? & ? & ?). eauto 12.
Qed.

Lemma trie_at_weaken u full d h h' t m : h ⊆ h' → trie_at u full d h t m → trie_at u full d h' t m.
Proof. intros Hs. apply trie_at_nodes. intros l c k v next Hl. by eapply lookup_weaken. Qed.

(** The node under a nibble, for a trie that has one. *)
Lemma trie_at_sub u full d h t m c k v next i :
  trie_at u full d h t m → t ≠ u → h !! t = Some (Otrie_node c k v next) → 0 ≤ i < 16 →
  ∃ n mi, next !! Z.to_nat i = Some n ∧ submap m mi i
    ∧ match d with O => n = u ∧ mi = ∅ | S d' => trie_at u full d' h n mi end.
Proof.
  intros Ht Hne Hl Hi.
  destruct d as [|d]; destruct Ht as [[? _]|(_ & c' & k' & v' & next' & Hl' & Hlen & Hc & H0 & Hk & Hn & Hsub)];
    try done; rewrite Hl in Hl'; simplify_eq.
  - destruct Hsub as [-> Hsub]. exists u, ∅. split_and!; try done.
    + apply lookup_replicate. split; [done|lia].
    + split; [|done]. intros j Hj Hp. rewrite lookup_empty. by apply Hsub.
  - destruct (Hsub i Hi) as (n & mi & ? & ? & ? & ?). eauto.
Qed.

Lemma trie_next_ok t i c k v next n s :
  s_heap s !! t = Some (Otrie_node c k v next) → next !! Z.to_nat i = Some n →
  trie_next t i s = Ok n s.
Proof.
  intros Ht Hn. unfold trie_next. rewrite (bind_ok _ _ _ _ _ (get_ok _ _ _ Ht)). by rewrite Hn.
Qed.

Lemma trie_val_ok t c k v next s :
  s_heap s !! t = Some (Otrie_node c k v next) → trie_val t s = Ok v s.
Proof. intros Ht. unfold trie_val. by rewrite (bind_ok _ _ _ _ _ (get_ok _ _ _ Ht)). Qed.

Lemma is_zi_eq f l s : l = f (s_img s) → is_zi f l s = Ok true s.
Proof. intros ->. unfold is_zi. by rewrite bool_decide_true. Qed.

Lemma is_zi_ne f l s : l ≠ f (s_img s) → is_zi f l s = Ok false s.
Proof. intros H. unfold is_zi. by rewrite bool_decide_false. Qed.

(** ** Lookup *)

Lemma trie_lookup_loop_ok u full d t m fuel id s :
  u = o_undefined (s_img s) → trie_at u full d (s_heap s) t m → t ≠ u →
  0 ≤ id < 16 ^ Z.of_nat fuel →
  trie_lookup_loop fuel t id s = Ok (from_option snd u (m !! id)) s.
Proof.
  intros Hu. revert d t m id. induction fuel as [|fuel IH]; intros d t m id Ht Hne Hid.
  - assert (id = 0) as -> by (change (16 ^ Z.of_nat 0) with 1 in Hid; lia). cbn.
    destruct d; destruct Ht as [[? _]|(_ & c & k & v & next & Hl & _ & _ & H0 & _)]; try done;
      rewrite (trie_val_ok _ _ _ _ _ _ Hl), H0; unfold node_entry; by case_decide; subst.
  - cbn [trie_lookup_loop]. destruct (Z.ltb_spec 0 id) as [Hpos|Hz].
    + autorewrite with zuo_st.
      assert (∃ c k v next, s_heap s !! t = Some (Otrie_node c k v next)) as (c & k & v & next & Hl).
      { destruct d; destruct Ht as [[? _]|(_ & c & k & v & next & Hl & _)]; try done; eauto. }
      destruct (trie_at_sub _ _ _ _ _ _ _ _ _ _ (id mod 16) Ht Hne Hl (nibble_bound id))
        as (n & mi & Hn & [Hsub _] & Hrest).
      rewrite (bind_ok _ _ _ _ _ (trie_next_ok _ _ _ _ _ _ _ _ Hl Hn)).
      pose proof (nibble_div_bound id fuel Hid) as Hid'.
      assert (m !! id = mi !! (id / 16)) as ->.
      { rewrite (nibble_split id) at 1. apply Hsub; rewrite <- ?nibble_split; lia. }
      destruct (decide (n = u)) as [->|Hnu].
      * rewrite (bind_ok _ _ _ _ _ (is_zi_eq o_undefined u s Hu)).
        assert (mi = ∅) as ->.
        { destruct d; [by destruct Hrest|]. by eapply trie_at_undefined_inv. }
        rewrite lookup_empty. unfold zi. by subst u.
      * rewrite (bind_ok _ _ _ _ _ (is_zi_ne o_undefined n s ltac:(congruence))).
        destruct d as [|d]; [by destruct Hrest|]. by eapply IH.
    + assert (id = 0) as -> by lia.
      destruct d; destruct Ht as [[? _]|(_ & c & k & v & next & Hl & _ & _ & H0 & _)]; try done;
        rewrite (trie_val_ok _ _ _ _ _ _ Hl), H0; unfold node_entry; by case_decide; subst.
Qed.

(** ** Nodes *)

(** What a node's fields say of the map under it. *)
Definition node_ok (u : loc) (full : bool) (d : nat) (h : gmap Z obj) (c : Z) (k v : loc)
    (next : list loc) (m : gmap Z (loc * loc)) : Prop :=
  length next = 16%nat
  ∧ (full = true → c = Z.of_nat (size m))
  ∧ m !! 0 = node_entry u k v
  ∧ (k = u ↔ v = u)
  ∧ (∀ id, id < 0 → m !! id = None)
  ∧ match d with
    | O => next = replicate 16 u ∧ ∀ id, 0 < id → m !! id = None
    | S d' => ∀ i, 0 ≤ i < 16 →
        ∃ n mi, next !! Z.to_nat i = Some n ∧ trie_at u full d' h n mi ∧ submap m mi i
          ∧ (n = u ∨ mi ≠ ∅)
    end.

Lemma trie_at_node u full d h t m :
  trie_at u full d h t m ↔
  (t = u ∧ m = ∅) ∨
  (t ≠ u ∧ ∃ c k v next, h !! t = Some (Otrie_node c k v next) ∧ node_ok u full d h c k v next m).
Proof. by destruct d. Qed.

Lemma node_ok_empty u full d h : node_ok u full d h 0 u u (replicate 16 u) ∅.
Proof.
  unfold node_ok, node_entry. rewrite decide_True by done. split_and!; try done.
  destruct d as [|d]; [done|]. intros i Hi. exists u, ∅.
  split; [apply lookup_replicate; split; [done|lia]|].
  split; [apply trie_at_undefined|]. split; [|by left].
  split; [|done]. intros. by rewrite !lookup_empty.
Qed.

Lemma node_ok_weaken u full d h h' c k v next m :
  h ⊆ h' → node_ok u full d h c k v next m → node_ok u full d h' c k v next m.
Proof.
  intros Hs (? & ? & ? & ? & ? & Hsub). unfold node_ok. repeat (split; [done|]).
  destruct d as [|d]; [done|]. intros i Hi. destruct (Hsub i Hi) as (n & mi & ? & ? & ? & ?).
  exists n, mi. split; [done|]. split; [by eapply trie_at_weaken|done].
Qed.

(** The map of a node at depth 0 has at most the entry 0. *)
Lemma node_ok_0 u full h c k v next m id :
  node_ok u full 0 h c k v next m → id ≠ 0 → m !! id = None.
Proof.
  intros (_ & _ & _ & _ & Hn & _ & Hz) Hid. destruct (decide (id < 0)); [auto|apply Hz; lia].
Qed.

(** Replacing the sub-trie that the entry [id] is in. *)
Lemma node_ok_update_next u full d h h' c c' k v next m m' mi mi' n' id :
  node_ok u full (S d) h c k v next m → h ⊆ h' →
  0 < id → submap m mi (id mod 16) →
  trie_at u full d h' n' mi' →
  (∀ id', id' ≠ id → m' !! id' = m !! id') →
  (∀ j, j ≠ id / 16 → mi' !! j = mi !! j) →
  mi' !! (id / 16) = m' !! id →
  (n' = u ∨ mi' ≠ ∅) →
  (full = true → c' = Z.of_nat (size m')) →
  node_ok u full (S d) h' c' k v (<[Z.to_nat (id mod 16) := n']> next) m'.
Proof.
  intros (Hlen & Hc & H0 & Hk & Hn & Hsub) Hs Hid [Hmi Hmi0] Hn' Hm' Hmi' Heq Hnem Hc'.
  pose proof (nibble_bound id) as Hb. pose proof (nibble_split id) as Hsp.
  unfold node_ok. rewrite length_insert. split; [done|]. split; [done|].
  split; [rewrite Hm' by lia; done|]. split; [done|].
  split; [intros j Hj; rewrite Hm' by lia; auto|].
  intros i Hi. destruct (decide (i = id mod 16)) as [->|Hne].
  - exists n', mi'. split; [apply list_lookup_insert_eq; lia|]. split; [done|].
    split; [|done]. split.
    + intros j Hj Hp. destruct (decide (j = id / 16)) as [->|Hj'].
      * rewrite <- Hsp. by rewrite Heq.
      * rewrite Hm', Hmi' by lia. auto.
    + intros Hz. rewrite Hmi' by lia. auto.
  - destruct (Hsub i Hi) as (n & mi0 & Hn0 & Ht0 & [Hm0 Hm00] & Hnem0). exists n, mi0.
    split; [rewrite list_lookup_insert_ne by lia; done|].
    split; [by eapply trie_at_weaken|]. split; [|done]. split; [|done].
    intros j Hj Hp. rewrite Hm'; [auto|]. intros E. apply Hne. lia.
Qed.

(** Replacing the entry of the node itself. *)
Lemma node_ok_update_val u full d h c c' k v k' v' next m m' :
  node_ok u full d h c k v next m →
  m' !! 0 = node_entry u k' v' → (k' = u ↔ v' = u) →
  (∀ id, id ≠ 0 → m' !! id = m !! id) →
  (full = true → c' = Z.of_nat (size m')) →
  node_ok u full d h c' k' v' next m'.
Proof.
  intros (Hlen & Hc & H0 & Hk & Hn & Hsub) H0' Hk' Hm' Hc'.
  unfold node_ok. repeat (split; [done|]).
  split; [intros id Hid; rewrite Hm' by lia; auto|].
  destruct d as [|d].
  - destruct Hsub as [? Hz]. split; [done|]. intros id Hid. rewrite Hm' by lia. auto.
  - intros i Hi. destruct (Hsub i Hi) as (n & mi & ? & ? & [Hm Hm0] & ?). exists n, mi.
    split; [done|]. split; [done|]. split; [|done]. split; [|done].
    intros j Hj Hp. rewrite Hm' by lia. auto.
Qed.

(** ** Stores into a fresh node *)

Lemma space_of_node c k v n c' k' v' n' :
  space_of (Otrie_node c k v n) = space_of (Otrie_node c' k' v' n').
Proof. done. Qed.

Lemma set_trie_next_grows s s' hn p c k v next i n :
  grows s s' hn → hn !! p = Some (Otrie_node c k v next) → (Z.to_nat i < length next)%nat →
  set_trie_next p i n s' = Ok tt (set_heap_at p (Otrie_node c k v (<[Z.to_nat i := n]> next)) s')
  ∧ grows s (set_heap_at p (Otrie_node c k v (<[Z.to_nat i := n]> next)) s')
      (<[p := Otrie_node c k v (<[Z.to_nat i := n]> next)]> hn).
Proof.
  intros Hg Hp Hi. assert (Hp' : s_heap s' !! p = Some (Otrie_node c k v next))
    by (rewrite (gr_heap _ _ _ Hg); by apply lookup_union_Some_l).
  set (next' := <[Z.to_nat i := n]> next).
  destruct (grows_put s s' hn p _ (Otrie_node c k v next') Hg Hp eq_refl) as [Hput Hg'].
  split; [|exact Hg']. unfold set_trie_next. rewrite (bind_ok _ _ _ _ _ (get_ok _ _ _ Hp')).
  by rewrite decide_True.
Qed.

Lemma add_trie_count_grows s s' hn p c k v next a :
  grows s s' hn → hn !! p = Some (Otrie_node c k v next) →
  add_trie_count p a s' = Ok tt (set_heap_at p (Otrie_node (c + a) k v next) s')
  ∧ grows s (set_heap_at p (Otrie_node (c + a) k v next) s')
      (<[p := Otrie_node (c + a) k v next]> hn).
Proof.
  intros Hg Hp. assert (Hp' : s_heap s' !! p = Some (Otrie_node c k v next))
    by (rewrite (gr_heap _ _ _ Hg); by apply lookup_union_Some_l).
  destruct (grows_put s s' hn p _ (Otrie_node (c + a) k v next) Hg Hp eq_refl)
    as [Hput Hg'].
  split; [|exact Hg']. unfold add_trie_count. by rewrite (bind_ok _ _ _ _ _ (get_ok _ _ _ Hp')).
Qed.

Lemma set_trie_kv_grows s s' hn p c k v next k' v' :
  grows s s' hn → hn !! p = Some (Otrie_node c k v next) →
  set_trie_kv p k' v' s' = Ok tt (set_heap_at p (Otrie_node c k' v' next) s')
  ∧ grows s (set_heap_at p (Otrie_node c k' v' next) s') (<[p := Otrie_node c k' v' next]> hn).
Proof.
  intros Hg Hp. assert (Hp' : s_heap s' !! p = Some (Otrie_node c k v next))
    by (rewrite (gr_heap _ _ _ Hg); by apply lookup_union_Some_l).
  destruct (grows_put s s' hn p _ (Otrie_node c k' v' next) Hg Hp eq_refl)
    as [Hput Hg'].
  split; [|exact Hg']. unfold set_trie_kv. by rewrite (bind_ok _ _ _ _ _ (get_ok _ _ _ Hp')).
Qed.

(** ** Extension *)

(** What the trie operations assume of the state: the undefined value is an
    object, and part of the heap holds the trie. *)
Record trie_pre (u : loc) (s : st) (hb : gmap Z obj) : Prop := {
  tp_u : u = o_undefined (s_img s);
  tp_alive : is_Some (s_heap s !! u);
  tp_ok : mem_ok (s_mem s);
  tp_sub : hb ⊆ s_heap s }.

Lemma trie_pre_grows u s s' hb hn : trie_pre u s hb → grows s s' hn → trie_pre u s' hb.
Proof.
  intros [-> [o Ho] Hok Hs] Hg. split.
  - by rewrite (gr_img _ _ _ Hg).
  - exists o. by eapply grows_lookup.
  - apply Hg.
  - etransitivity; [exact Hs|]. by eapply grows_subseteq.
Qed.

Lemma trie_clone_ok t c k v next s :
  mem_ok (s_mem s) → s_heap s !! t = Some (Otrie_node c k v next) → length next = 16%nat →
  ∃ p s', trie_clone t s = Ok p s' ∧ s_heap s !! p = None
    ∧ grows s s' {[p := Otrie_node c k v next]}.
Proof.
  intros Hok Ht Hlen. unfold trie_clone. rewrite (bind_ok _ _ _ _ _ (get_ok _ _ _ Ht)).
  apply (allocates_grows _ (λ _, Otrie_node c k v next)); [|done].
  intros s0 Hok0. by apply zuo_new_allocd.
Qed.

Definition extend_start (trie : loc) (added : Z) : M ((loc * loc) * Z) :=
  b <- is_zi o_undefined trie ;;
  if b then n <- zuo_trie_node ;; ret ((n, n), 1)
  else n <- trie_clone trie ;; ret ((n, trie), added).

Lemma extend_start_ok u full d t m added s hb :
  trie_pre u s hb → trie_at u full d hb t m →
  ∃ p t' added' s1 c k v next,
    extend_start t added s = Ok ((p, t'), added') s1
    ∧ s_heap s !! p = None
    ∧ grows s s1 {[p := Otrie_node c k v next]}
    ∧ s_heap s1 !! t' = Some (Otrie_node c k v next)
    ∧ node_ok u full d hb c k v next m
    ∧ (t = u ∧ added' = 1 ∧ m = ∅ ∧ next = replicate 16 u ∨ t ≠ u ∧ added' = added).
Proof.
  intros Hpre Ht. destruct Hpre as [Hu Hal Hok Hs].
  apply trie_at_node in Ht as [[-> ->]|(Hne & c & k & v & next & Hl & Hnode)]; unfold extend_start.
  - rewrite (bind_ok _ _ _ _ _ (is_zi_eq o_undefined u s Hu)).
    destruct (allocates_grows _ _ s zuo_trie_node_ok Hok) as (p & s1 & E & Hp & Hg).
    rewrite (bind_ok _ _ _ _ _ E). unfold empty_node in Hg. rewrite <- Hu in Hg.
    exists p, p, 1, s1, 0, u, u, (replicate 16 u). split_and!; try done.
    + rewrite (gr_heap _ _ _ Hg). by apply lookup_union_Some_l, lookup_singleton_eq.
    + apply node_ok_empty.
    + by left.
  - rewrite (bind_ok _ _ _ _ _ (is_zi_ne o_undefined t s ltac:(congruence))).
    assert (Hl' : s_heap s !! t = Some (Otrie_node c k v next)) by (by eapply lookup_weaken).
    destruct (trie_clone_ok t c k v next s Hok Hl') as (p & s1 & E & Hp & Hg); [apply Hnode|].
    rewrite (bind_ok _ _ _ _ _ E).
    exists p, t, added, s1, c, k, v, next. split; [done|]. split; [done|]. split; [done|].
    split; [by eapply grows_lookup|]. split; [done|by right].
Qed.

Lemma trie_extend_eq fuel trie id key val added :
  trie_extend fuel trie id key val added =
  λ s, (r <- extend_start trie added ;;
  let new_trie := fst (fst r) in
  let trie := snd (fst r) in
  let added := snd r in
  if 0 <? id then
    match fuel with
    | O => λ _, Diverge
    | S fuel' =>
        let i := Z.land id ZUO_TRIE_BFACTOR_MASK in
        sub <- trie_next trie i ;;
        r <- trie_extend fuel' sub (Z.shiftr id ZUO_TRIE_BFACTOR_BITS) key val added ;;
        set_trie_next new_trie i (fst r) ;;;
        add_trie_count new_trie (snd r) ;;;
        ret (new_trie, snd r)
    end
  else
    v <- trie_val new_trie ;;
    b <- is_zi o_undefined v ;;
    let added := if b then 1 else added in
    add_trie_count new_trie added ;;;
    set_trie_kv new_trie key val ;;;
    ret (new_trie, added)) s.
Proof. by destruct fuel. Qed.

(** The entries added by an extension: 1 if the key was absent, else 0. *)
Definition entries_added (m : gmap Z (loc * loc)) (id : Z) : Z :=
  if decide (m !! id = None) then 1 else 0.

Lemma size_insert_added (m : gmap Z (loc * loc)) id e :
  Z.of_nat (size (<[id := e]> m)) = Z.of_nat (size m) + entries_added m id.
Proof.
  unfold entries_added. case_decide as H.
  - rewrite map_size_insert_None by done. lia.
  - rewrite map_size_insert_Some; [lia|]. destruct (m !! id); [eauto|done].
Qed.


Lemma extend_zero u full d hb c k v next m key val added p s s1 :
  u = o_undefined (s_img s) → node_ok u full d hb c k v next m →
  grows s s1 {[p := Otrie_node c k v next]} → hb ⊆ s_heap s →
  key ≠ u → val ≠ u → p ≠ u → (m !! 0 ≠ None → added = 0) →
  ∃ s' hn,
    (v <- trie_val p ;;
     b <- is_zi o_undefined v ;;
     let added := if b then 1 else added in
     add_trie_count p added ;;; set_trie_kv p key val ;;; ret (p, added)) s1
    = Ok (p, entries_added m 0) s'
    ∧ grows s s' hn ∧ is_Some (hn !! p) ∧ trie_at u full d (hn ∪ hb) p (<[0 := (key, val)]> m).
Proof.
  intros Hu Hnode Hg Hs Hk Hv Hp Hadd.
  assert (Hl : s_heap s1 !! p = Some (Otrie_node c k v next)).
  { rewrite (gr_heap _ _ _ Hg). by apply lookup_union_Some_l, lookup_singleton_eq. }
  rewrite (bind_ok _ _ _ _ _ (trie_val_ok _ _ _ _ _ _ Hl)).
  assert (Hb : is_zi o_undefined v s1 = Ok (bool_decide (v = u)) s1)
    by (unfold is_zi; by rewrite (gr_img _ _ _ Hg), <- Hu).
  rewrite (bind_ok _ _ _ _ _ Hb).
  assert (Ha : (if bool_decide (v = u) then 1 else added) = entries_added m 0).
  { pose proof Hnode as (_ & _ & H0 & _). unfold entries_added, node_entry in *. rewrite H0 in *.
    case_decide; [by rewrite bool_decide_true, decide_True|].
    rewrite bool_decide_false, decide_False by done. auto. }
  rewrite Ha. cbn zeta.
  destruct (add_trie_count_grows s s1 _ p c k v next (entries_added m 0) Hg) as [E1 Hg1];
    [by apply lookup_singleton_eq|].
  rewrite (bind_ok _ _ _ _ _ E1).
  destruct (set_trie_kv_grows s _ _ p (c + entries_added m 0) k v next key val Hg1) as [E2 Hg2];
    [by apply lookup_insert_eq|].
  rewrite (bind_ok _ _ _ _ _ E2).
  eexists _, _. split; [reflexivity|]. split; [exact Hg2|].
  split; [rewrite lookup_insert_eq; eauto|].
  apply trie_at_node. right. split; [done|].
  exists (c + entries_added m 0), key, val, next.
  split; [by apply lookup_union_Some_l, lookup_insert_eq|].
  apply (node_ok_weaken u full d hb).
  { apply map_union_subseteq_r. eapply map_disjoint_weaken_r; [apply Hg2|exact Hs]. }
  eapply node_ok_update_val; [exact Hnode|..].
  - rewrite lookup_insert_eq. unfold node_entry. by rewrite decide_False.
  - done.
  - intros id Hid. by rewrite lookup_insert_ne by done.
  - intros Hfull. pose proof Hnode as (_ & Hc & _). rewrite size_insert_added, Hc by done. done.
Qed.

Lemma trie_extend_ok u full d : ∀ fuel id t key val added s hb m,
  trie_pre u s hb → trie_at u full d hb t m →
  0 ≤ id < 16 ^ Z.of_nat d → id < 16 ^ Z.of_nat fuel → key ≠ u → val ≠ u →
  (added = 0 ∨ t = u) →
  ∃ p s' hn, trie_extend fuel t id key val added s = Ok (p, entries_added m id) s'
    ∧ grows s s' hn ∧ is_Some (hn !! p)
    ∧ trie_at u full d (hn ∪ hb) p (<[id := (key, val)]> m).
Proof.
  induction d as [|d IH]; intros fuel id t key val added s hb m Hpre Ht Hid Hfuel Hk Hv Hadd.
  all: destruct (extend_start_ok u full _ t m added s hb Hpre Ht)
    as (p & t' & added' & s1 & c & k & v & next & E1 & Hpn & Hg1 & Ht' & Hnode & Hcase).
  all: assert (Hpu : p ≠ u) by (intros ->; destruct (tp_alive _ _ _ Hpre); congruence).
  all: assert (Hadd' : m !! 0 ≠ None → added' = 0)
    by (destruct Hcase as [(-> & -> & -> & _)|[? ->]]; [done|by destruct Hadd]).
  all: rewrite trie_extend_eq, (bind_ok _ _ _ _ _ E1); cbn [fst snd]; cbn zeta.
  - assert (id = 0) as -> by (change (16 ^ Z.of_nat 0) with 1 in Hid; lia). cbn [Z.ltb Z.compare].
    destruct (extend_zero u full 0 hb c k v next m key val added' p s s1 (tp_u _ _ _ Hpre)
      Hnode Hg1 (tp_sub _ _ _ Hpre) Hk Hv Hpu Hadd') as (s' & hn & E & Hg & Hp & Hat).
    exists p, s', hn. split; [|done]. destruct fuel; exact E.
  - destruct (Z.ltb_spec 0 id) as [Hpos|Hz].
    2:{ assert (id = 0) as -> by lia.
      destruct (extend_zero u full (S d) hb c k v next m key val added' p s s1 (tp_u _ _ _ Hpre)
        Hnode Hg1 (tp_sub _ _ _ Hpre) Hk Hv Hpu Hadd') as (s' & hn & E & Hg & Hp & Hat).
      exists p, s', hn. split; [|done]. destruct fuel; exact E. }
    destruct fuel as [|fuel]; [change (16 ^ Z.of_nat 0) with 1 in Hfuel; lia|].
    autorewrite with zuo_st.
    pose proof (nibble_bound id) as Hb. pose proof (nibble_div_bound id d Hid) as Hid'.
    pose proof (nibble_div_bound id fuel ltac:(lia)) as [_ Hfuel'].
    pose proof Hnode as (Hlen & Hcnt & _ & _ & _ & Hsub).
    destruct (Hsub (id mod 16) Hb) as (n & mi & Hn & Hnt & Hmi & Hnem).
    rewrite (bind_ok _ _ _ _ _ (trie_next_ok _ _ _ _ _ _ _ _ Ht' Hn)).
    assert (Hadd1 : added' = 0 ∨ n = u).
    { destruct Hcase as [(-> & -> & -> & ->)|[? ->]]; [right|left; by destruct Hadd].
      apply lookup_replicate in Hn as [? _]. done. }
    destruct (IH fuel (id / 16) n key val added' s1 hb mi (trie_pre_grows _ _ _ _ _ Hpre Hg1)
      Hnt Hid' Hfuel' Hk Hv Hadd1) as (p2 & s2 & hn2 & E2 & Hg2 & _ & Hat2).
    rewrite (bind_ok _ _ _ _ _ E2). cbn [fst snd].
    pose proof (grows_trans _ _ _ _ _ Hg1 Hg2) as Hg12.
    assert (Hp2 : hn2 !! p = None).
    { eapply map_disjoint_Some_r; [apply Hg2|]. rewrite (gr_heap _ _ _ Hg1).
      apply lookup_union_Some_l, lookup_singleton_eq. }
    assert (Hp12 : (hn2 ∪ {[p := Otrie_node c k v next]}) !! p = Some (Otrie_node c k v next))
      by (rewrite lookup_union_r by done; apply lookup_singleton_eq).
    destruct (set_trie_next_grows s s2 _ p c k v next (id mod 16) p2 Hg12 Hp12) as [E3 Hg3]; [lia|].
    rewrite (bind_ok _ _ _ _ _ E3).
    destruct (add_trie_count_grows s _ _ p c k v _ (entries_added mi (id / 16)) Hg3
      (lookup_insert_eq _ _ _)) as [E4 Hg4].
    rewrite (bind_ok _ _ _ _ _ E4).
    assert (Hm : m !! id = mi !! (id / 16)).
    { destruct Hmi as [Hmi _]. rewrite (nibble_split id) at 1.
      apply Hmi; rewrite <- ?nibble_split; lia. }
    assert (Hea : entries_added mi (id / 16) = entries_added m id)
      by (unfold entries_added; by rewrite Hm).
    rewrite Hea in *.
    eexists p, _, _. split; [reflexivity|]. split; [exact Hg4|].
    split; [rewrite lookup_insert_eq; eauto|].
    apply trie_at_node. right. split; [done|].
    eexists _, k, v, _. split; [by apply lookup_union_Some_l, lookup_insert_eq|].
    assert (Hhb : hb ⊆ s_heap s) by apply Hpre.
    eapply (node_ok_update_next _ _ _ hb _ c); [exact Hnode| |done|exact Hmi| | | | | |].
    + apply map_union_subseteq_r. eapply map_disjoint_weaken_r; [apply Hg4|exact Hhb].
    + eapply trie_at_weaken; [|exact Hat2]. apply map_union_least.
      * apply map_subseteq_spec. intros i x Hi. apply lookup_union_Some_l.
        rewrite !lookup_insert_ne by congruence. by apply lookup_union_Some_l.
      * apply map_union_subseteq_r. eapply map_disjoint_weaken_r; [apply Hg4|exact Hhb].
    + intros id' Hne. by rewrite lookup_insert_ne by done.
    + intros j Hj. by rewrite lookup_insert_ne by done.
    + by rewrite !lookup_insert_eq.
    + right. apply insert_non_empty.
    + intros Hfull. rewrite size_insert_added, Hcnt by done. done.
Qed.

Lemma trie_at_neg u full d h t m id : trie_at u full d h t m → id < 0 → m !! id = None.
Proof.
  intros Ht Hid. apply trie_at_node in Ht as [[_ ->]|(_ & ? & ? & ? & ? & _ & Hn)].
  - apply lookup_empty.
  - destruct Hn as (_ & _ & _ & _ & Hneg & _). auto.
Qed.

(** ** Removal *)

Lemma any_next_ok t c k v next is_ s :
  s_heap s !! t = Some (Otrie_node c k v next) → length next = 16%nat →
  Forall (λ i, 0 ≤ i < 16) is_ →
  ∃ b, any_next t is_ s = Ok b s
    ∧ (b = false ↔ ∀ i n, i ∈ is_ → next !! Z.to_nat i = Some n → n = o_undefined (s_img s)).
Proof.
  intros Ht Hlen. induction is_ as [|i is_ IH]; intros Hall; cbn.
  { exists false. split; [done|]. split; [|done]. intros _ i n Hi. set_solver. }
  apply Forall_cons in Hall as [Hi Hall].
  destruct (lookup_lt_is_Some_2 next (Z.to_nat i)) as [n Hn]; [lia|].
  rewrite (bind_ok _ _ _ _ _ (trie_next_ok _ _ _ _ _ _ _ _ Ht Hn)).
  destruct (decide (n = o_undefined (s_img s))) as [Hu|Hu].
  - rewrite (bind_ok _ _ _ _ _ (is_zi_eq o_undefined n s Hu)).
    destruct (IH Hall) as (b & E & Hb). exists b. split; [done|]. rewrite Hb. split.
    + intros H j x [->|Hj]%elem_of_cons Hx; [congruence|eauto].
    + intros H j x Hj. apply H. set_solver.
  - rewrite (bind_ok _ _ _ _ _ (is_zi_ne o_undefined n s Hu)).
    exists true. split; [done|]. split; [done|]. intros H. exfalso. apply Hu. eapply H; [|done]. set_solver.
Qed.

Lemma node_ok_no_next u full d h c k next m :
  node_ok u full d h c k u next m → (∀ n, n ∈ next → n = u) → m = ∅.
Proof.
  intros Hnode Hall. pose proof Hnode as (Hlen & _ & H0 & _ & Hneg & Hsub).
  apply map_empty. intros id. destruct (decide (id = 0)) as [->|Hz].
  { rewrite H0. unfold node_entry. by rewrite decide_True. }
  destruct (decide (id < 0)) as [|Hge]; [auto|]. destruct d as [|d]; [apply Hsub; lia|].
  destruct (Hsub (id mod 16) (nibble_bound id)) as (n & mi & Hn & Ht & [Hmi _] & _).
  rewrite (Hall n) in Ht by (by eapply list_elem_of_lookup_2).
  apply trie_at_undefined_inv in Ht as ->.
  rewrite (nibble_split id), Hmi; [apply lookup_empty| |rewrite <- nibble_split; lia].
  apply Z.div_pos; lia.
Qed.

Lemma node_ok_empty_next u full d h c k v next i n :
  node_ok u full d h c k v next ∅ → next !! Z.to_nat i = Some n → n = u.
Proof.
  intros (Hlen & _ & _ & _ & _ & Hsub) Hn. pose proof (lookup_lt_Some _ _ _ Hn) as Hlt.
  destruct d as [|d].
  - destruct Hsub as [-> _]. by apply lookup_replicate in Hn as [? _].
  - destruct (Hsub (Z.of_nat (Z.to_nat i))) as (n' & mi & Hn' & Ht & [Hmi Hmi0] & Hnem); [lia|].
    rewrite Nat2Z.id, Hn in Hn'. simplify_eq. destruct Hnem as [->|Hnem]; [done|].
    exfalso. apply Hnem. apply map_empty. intros j.
    destruct (decide (j < 0)); [by eapply trie_at_neg|].
    destruct (decide (0 < 16 * j + Z.of_nat (Z.to_nat i))); [rewrite <- Hmi by lia; apply lookup_empty|].
    assert (j = 0) as -> by lia. apply Hmi0. lia.
Qed.

Lemma trie_prune_ok u full d s s' hn hb p c k next m depth :
  u = o_undefined (s_img s) → grows s s' hn → hn !! p = Some (Otrie_node c k u next) →
  p ≠ u → node_ok u full d (hn ∪ hb) c k u next m →
  ∃ t, trie_prune p depth s' = Ok t s' ∧ trie_at u full d (hn ∪ hb) t m
    ∧ (t = u ∨ t = p) ∧ (depth = 0 → t = p) ∧ (0 < depth → t = u ∨ m ≠ ∅).
Proof.
  intros Hu Hg Hp Hpu Hnode. unfold trie_prune.
  assert (Hat : trie_at u full d (hn ∪ hb) p m).
  { apply trie_at_node. right. split; [done|]. exists c, k, u, next.
    split; [by apply lookup_union_Some_l|done]. }
  destruct (Z.ltb_spec 0 depth) as [Hd|Hd]; [|exists p; repeat split; auto; lia].
  assert (Hp' : s_heap s' !! p = Some (Otrie_node c k u next))
    by (rewrite (gr_heap _ _ _ Hg); by apply lookup_union_Some_l).
  destruct (any_next_ok p c k u next bfactor_indices s' Hp') as (b & E & Hb); [apply Hnode| |].
  { unfold bfactor_indices. apply Forall_forall. intros i Hi%elem_of_seqZ.
    change ZUO_TRIE_BFACTOR with 16 in Hi. lia. }
  rewrite (bind_ok _ _ _ _ _ E). rewrite (gr_img _ _ _ Hg), <- Hu in Hb.
  destruct b.
  { exists p. split; [done|]. split; [done|]. split; [by right|]. split; [lia|].
    intros _. right. intros ->. discriminate (proj2 Hb). intros i n _ Hn.
    by eapply node_ok_empty_next. }
  exists u. split; [unfold zi; by rewrite (gr_img _ _ _ Hg), <- Hu|].
  split; [|split; [by left|split; [lia|by left]]].
  rewrite (node_ok_no_next _ _ _ _ _ _ _ _ Hnode); [apply trie_at_undefined|].
  intros n (i & Hi)%list_elem_of_lookup. eapply (proj1 Hb eq_refl (Z.of_nat i)).
  - unfold bfactor_indices. apply elem_of_seqZ. change ZUO_TRIE_BFACTOR with 16.
    apply lookup_lt_Some in Hi. pose proof Hnode as (Hlen & _). lia.
  - by rewrite Nat2Z.id.
Qed.

Lemma size_delete_Some (m : gmap Z (loc * loc)) id :
  is_Some (m !! id) → Z.of_nat (size (delete id m)) = Z.of_nat (size m) + -1.
Proof.
  intros [e He]. rewrite <- (insert_id _ _ _ He) at 2. rewrite <- insert_delete_eq.
  rewrite map_size_insert_None by apply lookup_delete_eq. lia.
Qed.

(** The common end of a removal: a fresh copy with one entry fewer. *)
Definition removed u full d (hb : gmap Z obj) (s s' : st) (t t' : loc) (depth id : Z)
    (m : gmap Z (loc * loc)) (hn : gmap Z obj) : Prop :=
  grows s s' hn
  ∧ trie_at u full d (hn ∪ hb) t' (delete id m)
  ∧ (m !! id = None → t' = t)
  ∧ (is_Some (m !! id) → t' = u ∨ is_Some (hn !! t'))
  ∧ (depth = 0 → t ≠ u → t' ≠ u)
  ∧ (0 < depth → t = u ∨ m ≠ ∅ → t' = u ∨ delete id m ≠ ∅).

Lemma removed_absent u full d hb s t depth id m :
  mem_ok (s_mem s) → trie_at u full d hb t m → m !! id = None →
  removed u full d hb s s t t depth id m ∅.
Proof.
  intros Hok Ht Hm. split; [by apply grows_refl|].
  rewrite (left_id_L ∅ (∪)), delete_id by done. split; [done|].
  split; [done|]. split; [intros [? ?]; congruence|done].
Qed.

Lemma trie_remove_zero u full d t depth s hb m :
  trie_pre u s hb → trie_at u full d hb t m → t ≠ u →
  ∃ t' s' hn,
    (v <- trie_val t ;;
     b <- is_zi o_undefined v ;;
     if b then ret t
     else
       new_trie <- trie_clone t ;;
       add_trie_count new_trie (-1) ;;;
       u <- zi o_undefined ;;
       set_trie_kv new_trie u u ;;;
       trie_prune new_trie depth) s = Ok t' s'
    ∧ removed u full d hb s s' t t' depth 0 m hn.
Proof.
  intros Hpre Ht Hne. pose proof Hpre as [Hu Hal Hok Hs].
  pose proof Ht as Ht0. apply trie_at_node in Ht as [[? _]|(_ & c & k & v & next & Hl & Hnode)]; [done|].
  assert (Hl' : s_heap s !! t = Some (Otrie_node c k v next)) by (by eapply lookup_weaken).
  rewrite (bind_ok _ _ _ _ _ (trie_val_ok _ _ _ _ _ _ Hl')).
  pose proof Hnode as (Hlen & Hc & H0 & _). unfold node_entry in H0.
  destruct (decide (v = u)) as [->|Hv].
  { rewrite (bind_ok _ _ _ _ _ (is_zi_eq o_undefined u s Hu)).
    exists t, s, ∅. split; [done|]. by apply removed_absent. }
  rewrite (bind_ok _ _ _ _ _ (is_zi_ne o_undefined v s ltac:(congruence))).
  destruct (trie_clone_ok t c k v next s Hok Hl' Hlen) as (p & s1 & E1 & Hpn & Hg1).
  rewrite (bind_ok _ _ _ _ _ E1).
  assert (Hpu : p ≠ u) by (intros ->; destruct Hal; congruence).
  destruct (add_trie_count_grows s s1 _ p c k v next (-1) Hg1 (lookup_singleton_eq _ _)) as [E2 Hg2].
  rewrite (bind_ok _ _ _ _ _ E2).
  assert (Ez : zi o_undefined (set_heap_at p (Otrie_node (c + -1) k v next) s1)
    = Ok u (set_heap_at p (Otrie_node (c + -1) k v next) s1))
    by (unfold zi; by rewrite (gr_img _ _ _ Hg2), <- Hu).
  rewrite (bind_ok _ _ _ _ _ Ez).
  destruct (set_trie_kv_grows s _ _ p (c + -1) k v next u u Hg2 (lookup_insert_eq _ _ _)) as [E3 Hg3].
  rewrite (bind_ok _ _ _ _ _ E3).
  destruct (trie_prune_ok u full d s _ _ hb p (c + -1) u next (delete 0 m) depth Hu Hg3
    (lookup_insert_eq _ _ _) Hpu) as (t' & E & Hat & Hcase & Hd & Hnem).
  { eapply node_ok_weaken; [|eapply node_ok_update_val; [exact Hnode|..]].
    - apply map_union_subseteq_r. eapply map_disjoint_weaken_r; [apply Hg3|exact Hs].
    - rewrite lookup_delete_eq. unfold node_entry. by rewrite decide_True.
    - done.
    - intros id Hid. by rewrite lookup_delete_ne by done.
    - intros Hf. rewrite size_delete_Some, Hc by (done || rewrite H0; eauto). done. }
  eexists t', _, _. split; [exact E|]. split; [exact Hg3|]. split; [done|].
  split; [congruence|]. split; [|split; [intros Hz; by rewrite (Hd Hz)|auto]].
  intros _. destruct Hcase as [->| ->]; [by left|right]. rewrite lookup_insert_eq. eauto.
Qed.

Lemma trie_remove_eq fuel trie id depth s :
  trie ≠ o_undefined (s_img s) →
  trie_remove fuel trie id depth s =
  (if 0 <? id then
    match fuel with
    | O => λ _, Diverge
    | S fuel' =>
        let i := Z.land id ZUO_TRIE_BFACTOR_MASK in
        old <- trie_next trie i ;;
        sub_trie <- trie_remove fuel' old (Z.shiftr id ZUO_TRIE_BFACTOR_BITS) (depth + 1) ;;
        if decide (sub_trie = old) then ret trie
        else
          new_trie <- trie_clone trie ;;
          set_trie_next new_trie i sub_trie ;;;
          add_trie_count new_trie (-1) ;;;
          b1 <- is_zi o_undefined sub_trie ;;
          v <- trie_val new_trie ;;
          b2 <- is_zi o_undefined v ;;
          if negb b1 || negb b2 then ret new_trie
          else trie_prune new_trie depth
    end
  else
    v <- trie_val trie ;;
    b <- is_zi o_undefined v ;;
    if b then ret trie
    else
      new_trie <- trie_clone trie ;;
      add_trie_count new_trie (-1) ;;;
      u <- zi o_undefined ;;
      set_trie_kv new_trie u u ;;;
      trie_prune new_trie depth) s.
Proof. intros H. destruct fuel; cbn [trie_remove]; by rewrite (bind_ok _ _ _ _ _ (is_zi_ne o_undefined trie s H)). Qed.

Lemma trie_remove_undefined fuel id depth s :
  trie_remove fuel (o_undefined (s_img s)) id depth s = Ok (o_undefined (s_img s)) s.
Proof. destruct fuel; cbn [trie_remove]; by rewrite (bind_ok _ _ _ _ _ (is_zi_eq o_undefined _ s eq_refl)). Qed.

Lemma trie_remove_ok u full d : ∀ fuel id t depth s hb m,
  trie_pre u s hb → trie_at u full d hb t m → 0 ≤ depth →
  0 ≤ id < 16 ^ Z.of_nat d → id < 16 ^ Z.of_nat fuel →
  ∃ t' s' hn, trie_remove fuel t id depth s = Ok t' s' ∧ removed u full d hb s s' t t' depth id m hn.
Proof.
  induction d as [|d IH]; intros fuel id t depth s hb m Hpre Ht Hdep Hid Hfuel.
  all: pose proof Hpre as [Hu Hal Hok Hs].
  all: destruct (decide (t = u)) as [->|Hne];
    [exists u, s, ∅; split; [rewrite Hu; apply trie_remove_undefined|];
     apply removed_absent; [done|done|by rewrite (trie_at_undefined_inv _ _ _ _ _ Ht)]|].
  all: rewrite trie_remove_eq by congruence.
  { assert (id = 0) as -> by (change (16 ^ Z.of_nat 0) with 1 in Hid; lia).
    destruct fuel; by apply trie_remove_zero. }
  destruct (Z.ltb_spec 0 id) as [Hpos|Hz].
  2:{ assert (id = 0) as -> by lia. destruct fuel; by apply trie_remove_zero. }
  destruct fuel as [|fuel]; [change (16 ^ Z.of_nat 0) with 1 in Hfuel; lia|].
  pose proof Ht as Ht0. apply trie_at_node in Ht as [[? _]|(_ & c & k & v & next & Hl & Hnode)]; [done|].
  assert (Hl' : s_heap s !! t = Some (Otrie_node c k v next)) by (by eapply lookup_weaken).
  autorewrite with zuo_st. cbn zeta.
  pose proof (nibble_bound id) as Hb. pose proof (nibble_div_bound id d Hid) as Hid'.
  pose proof (nibble_div_bound id fuel ltac:(lia)) as [_ Hfuel'].
  pose proof Hnode as (Hlen & Hcnt & _ & _ & _ & Hsub).
  destruct (Hsub (id mod 16) Hb) as (n & mi & Hn & Hnt & Hmi & Hnem).
  assert (Hm : m !! id = mi !! (id / 16)).
  { destruct Hmi as [Hmi _]. rewrite (nibble_split id) at 1.
    apply Hmi; rewrite <- ?nibble_split; lia. }
  rewrite (bind_ok _ _ _ _ _ (trie_next_ok _ _ _ _ _ _ _ _ Hl' Hn)).
  destruct (IH fuel (id / 16) n (depth + 1) s hb mi Hpre Hnt ltac:(lia) Hid' Hfuel')
    as (n' & s1 & hn1 & E1 & Hg1 & Hat1 & Habs & Hpres & _ & Hnem1).
  rewrite (bind_ok _ _ _ _ _ E1).
  destruct (m !! id) as [e|] eqn:Hme.
  2:{ rewrite decide_True by (by apply Habs). exists t, s1, hn1. split; [done|].
      split; [done|]. rewrite delete_id by done.
      split; [|split; [done|split; [intros [? ?]; congruence|by rewrite ?delete_id]]].
      eapply trie_at_weaken; [|exact Ht0]. apply map_union_subseteq_r.
      eapply map_disjoint_weaken_r; [apply Hg1|exact Hs]. }
  assert (Hn'n : n' ≠ n).
  { destruct Hpres as [->|[o Ho]]; [eauto|..].
    - intros ->. apply trie_at_undefined_inv in Hnt as ->. by rewrite lookup_empty in Hm.
    - intros ->. apply trie_at_node in Hnt as [[_ ->]|(_ & ? & ? & ? & ? & Hn' & _)].
      + by rewrite lookup_empty in Hm.
      + pose proof (map_disjoint_Some_l _ _ _ _ (gr_disj _ _ _ Hg1) Ho).
        pose proof (lookup_weaken _ _ _ _ Hn' Hs). congruence. }
  rewrite decide_False by done.
  assert (Hl1 : s_heap s1 !! t = Some (Otrie_node c k v next)) by (by eapply grows_lookup).
  destruct (trie_clone_ok t c k v next s1 (gr_ok _ _ _ Hg1) Hl1 Hlen) as (p & s2 & E2 & Hpn & Hg2).
  rewrite (bind_ok _ _ _ _ _ E2).
  assert (Hpu : p ≠ u).
  { intros ->. destruct Hal as [o Ho]. pose proof (grows_lookup _ _ _ _ _ Hg1 Ho). congruence. }
  pose proof (grows_trans _ _ _ _ _ Hg1 Hg2) as Hg12.
  assert (Hp1 : hn1 !! p = None).
  { rewrite (gr_heap _ _ _ Hg1) in Hpn. by apply lookup_union_None in Hpn as [? _]. }
  assert (Hp12 : ({[p := Otrie_node c k v next]} ∪ hn1) !! p = Some (Otrie_node c k v next))
    by (apply lookup_union_Some_l, lookup_singleton_eq).
  destruct (set_trie_next_grows s s2 _ p c k v next (id mod 16) n' Hg12 Hp12) as [E3 Hg3]; [lia|].
  rewrite (bind_ok _ _ _ _ _ E3).
  destruct (add_trie_count_grows s _ _ p c k v _ (-1) Hg3 (lookup_insert_eq _ _ _)) as [E4 Hg4].
  rewrite (bind_ok _ _ _ _ _ E4).
  set (s4 := set_heap_at p (Otrie_node (c + -1) k v _) _) in *.
  set (hn4 := <[p := Otrie_node (c + -1) k v _]> _) in *.
  set (next' := <[Z.to_nat (id mod 16) := n']> next) in *.
  assert (Hp4 : hn4 !! p = Some (Otrie_node (c + -1) k v next')) by apply lookup_insert_eq.
  assert (Hl4 : s_heap s4 !! p = Some (Otrie_node (c + -1) k v next'))
    by (rewrite (gr_heap _ _ _ Hg4); by apply lookup_union_Some_l).
  assert (Hbu : ∀ x, is_zi o_undefined x s4 = Ok (bool_decide (x = u)) s4)
    by (intros x; unfold is_zi; by rewrite (gr_img _ _ _ Hg4), <- Hu).
  rewrite (bind_ok _ _ _ _ _ (Hbu n')), (bind_ok _ _ _ _ _ (trie_val_ok _ _ _ _ _ _ Hl4)).
  rewrite (bind_ok _ _ _ _ _ (Hbu v)).
  assert (Hnode4 : node_ok u full (S d) (hn4 ∪ hb) (c + -1) k v next' (delete id m)).
  { eapply (node_ok_update_next _ _ _ hb _ c); [exact Hnode| |done|exact Hmi| | | | | |].
    - apply map_union_subseteq_r. eapply map_disjoint_weaken_r; [apply Hg4|exact Hs].
    - eapply trie_at_weaken; [|exact Hat1]. apply map_union_least.
      + apply map_subseteq_spec. intros i x Hi. apply lookup_union_Some_l. unfold hn4.
        rewrite !lookup_insert_ne by congruence. rewrite lookup_union_r; [done|].
        by rewrite lookup_singleton_ne by congruence.
      + apply map_union_subseteq_r. eapply map_disjoint_weaken_r; [apply Hg4|exact Hs].
    - intros id' Hne'. by rewrite lookup_delete_ne by done.
    - intros j Hj. by rewrite lookup_delete_ne by done.
    - by rewrite !lookup_delete_eq.
    - apply Hnem1; [lia|done].
    - intros Hf. rewrite size_delete_Some, Hcnt by (done || rewrite Hme; eauto). done. }
  assert (Hat4 : trie_at u full (S d) (hn4 ∪ hb) p (delete id m)).
  { apply trie_at_node. right. split; [done|]. exists (c + -1), k, v, next'.
    split; [by apply lookup_union_Some_l|done]. }
  destruct (negb (bool_decide (n' = u)) || negb (bool_decide (v = u))) eqn:Hcond.
  - exists p, s4, hn4. split; [done|]. split; [exact Hg4|]. split; [done|].
    split; [congruence|]. split; [intros _; right; rewrite Hp4; eauto|]. split; [done|].
    intros _ _. right. intros Hem. rewrite Hem in Hnode4.
    apply orb_true_iff in Hcond as [Hc|Hc]; apply negb_true_iff, bool_decide_eq_false in Hc; apply Hc.
    + eapply node_ok_empty_next; [exact Hnode4|]. unfold next'. apply list_lookup_insert_eq. lia.
    + destruct Hnode4 as (_ & _ & H0 & _). rewrite lookup_empty in H0. unfold node_entry in H0.
      by case_decide.
  - apply orb_false_iff in Hcond as [_ Hv%negb_false_iff%bool_decide_eq_true]. subst v.
    destruct (trie_prune_ok u full (S d) s s4 hn4 hb p (c + -1) k next' (delete id m) depth
      Hu Hg4 Hp4 Hpu Hnode4) as (t' & E & Hat & Hcase & Hd & Hnem4).
    exists t', s4, hn4. split; [exact E|]. split; [exact Hg4|]. split; [done|].
    split; [congruence|]. split; [|split; [intros Hz; by rewrite (Hd Hz)|auto]].
    intros _. destruct Hcase as [->| ->]; [by left|right]. rewrite Hp4. eauto.
Qed.

(** ** Keys *)

(** The keys of a list of entries, in order. *)
Definition entry_keys (es : list (Z * (loc * loc))) : list loc := (λ e, fst (snd e)) <$> es.

Definition relabel (i : Z) (e : Z * (loc * loc)) : Z * (loc * loc) := (16 * fst e + i, snd e).

Lemma entry_keys_relabel i es : entry_keys (relabel i <$> es) = entry_keys es.
Proof. unfold entry_keys. rewrite <- list_fmap_compose. done. Qed.

(** The entries of [m] under the nibble [i]. *)
Lemma submap_entries u full d h n m mi i es :
  0 ≤ i < 16 → submap m mi i → trie_at u full d h n mi → es ≡ₚ map_to_list mi →
  ∀ id e, (id, e) ∈ relabel i <$> es ↔ 0 < id ∧ id mod 16 = i ∧ m !! id = Some e.
Proof.
  intros Hi [Hmi Hmi0] Ht Hes id e. rewrite list_elem_of_fmap. split.
  - intros ([j e'] & [= -> ->] & Hin). cbn. rewrite Hes in Hin.
    apply elem_of_map_to_list in Hin.
    assert (0 ≤ j). { destruct (decide (j < 0)) as [Hj|]; [|lia].
      rewrite (trie_at_neg _ _ _ _ _ _ _ Ht Hj) in Hin. done. }
    assert (0 < 16 * j + i). { destruct (decide (i = 0)); [|lia].
      destruct (decide (j = 0)) as [->|]; [|lia]. rewrite Hmi0 in Hin by done. done. }
    split; [done|]. split; [|by rewrite Hmi].
    rewrite Z.add_comm, Z.mul_comm, Z.mod_add by lia. apply Z.mod_small. lia.
  - intros (Hid & Hmod & Hm). exists (id / 16, e). unfold relabel. cbn.
    pose proof (nibble_split id) as Hs. rewrite Hmod in Hs. rewrite <- Hs.
    split; [done|]. rewrite Hes. apply elem_of_map_to_list.
    rewrite <- Hmi; [by rewrite <- Hs|apply Z.div_pos; lia|lia].
Qed.

Lemma NoDup_relabel i es : NoDup es → NoDup (relabel i <$> es).
Proof.
  intros H. apply NoDup_fmap_2; [|done].
  intros [j e] [j' e'] [= ? ->]. cbn in *. f_equal. lia.
Qed.

Fixpoint keys_loop (rec : loc → loc → M loc) (trie : loc) (is_ : list Z) (accum : loc) : M loc :=
  match is_ with
  | [] => ret accum
  | i :: is' =>
      n <- trie_next trie i ;;
      b <- is_zi o_undefined n ;;
      accum <- (if b then ret accum else rec n accum) ;;
      keys_loop rec trie is' accum
  end.

Lemma zuo_trie_keys_eq fuel trie accum s :
  zuo_trie_keys (S fuel) trie accum s =
  (k <- trie_key trie ;;
   b <- is_zi o_undefined k ;;
   accum <- (if b then ret accum else zuo_cons k accum) ;;
   keys_loop (zuo_trie_keys fuel) trie bfactor_indices accum) s.
Proof. reflexivity. Qed.

Lemma elem_of_bfactor i : i ∈ bfactor_indices ↔ 0 ≤ i < 16.
Proof. unfold bfactor_indices. rewrite elem_of_seqZ. change ZUO_TRIE_BFACTOR with 16. lia. Qed.

Lemma NoDup_bfactor : NoDup bfactor_indices.
Proof. apply NoDup_seqZ. Qed.

(** A heap that grows keeps what is in it. *)
Record keys_pre (u nl : loc) (s : st) (hb : gmap Z obj) : Prop := {
  kp_pre : trie_pre u s hb;
  kp_nl : nl = o_null (s_img s);
  kp_alive : is_Some (s_heap s !! nl) }.

Lemma keys_pre_grows u nl s s' hb hn : keys_pre u nl s hb → grows s s' hn → keys_pre u nl s' hb.
Proof.
  intros [Hp -> [o Ho]] Hg. split.
  - by eapply trie_pre_grows.
  - by rewrite (gr_img _ _ _ Hg).
  - exists o. by eapply grows_lookup.
Qed.

Definition keys_spec (u nl : loc) (rec : loc → loc → M loc) (n : loc) (mi : gmap Z (loc * loc))
    (hb : gmap Z obj) : Prop :=
  ∀ accum s vs, keys_pre u nl s hb → is_list (s_heap s) nl accum vs →
  ∃ accum' s' hn es, rec n accum s = Ok accum' s' ∧ grows s s' hn
    ∧ is_list (s_heap s') nl accum' (entry_keys es ++ vs) ∧ es ≡ₚ map_to_list mi.

Lemma keys_loop_ok u nl full d hb c k v next m rec t is_ accum s vs :
  keys_pre u nl s hb → hb !! t = Some (Otrie_node c k v next) →
  length next = 16%nat →
  (∀ i, 0 ≤ i < 16 → ∃ n mi, next !! Z.to_nat i = Some n ∧ submap m mi i
    ∧ trie_at u full d hb n mi ∧ (n ≠ u → keys_spec u nl rec n mi hb)) →
  NoDup is_ → (∀ i, i ∈ is_ → 0 ≤ i < 16) → is_list (s_heap s) nl accum vs →
  ∃ accum' s' hn es, keys_loop rec t is_ accum s = Ok accum' s' ∧ grows s s' hn
    ∧ is_list (s_heap s') nl accum' (entry_keys es ++ vs) ∧ NoDup es
    ∧ ∀ id e, (id, e) ∈ es ↔ 0 < id ∧ id mod 16 ∈ is_ ∧ m !! id = Some e.
Proof.
  intros Hpre Hl Hlen Hsub. revert accum s vs Hpre.
  induction is_ as [|i is_ IH]; intros accum s vs Hpre Hnd Hall Hacc; cbn [keys_loop].
  { exists accum, s, ∅, []. split; [done|].
    split; [apply grows_refl, Hpre|]. split; [done|]. split; [constructor|].
    intros id e. set_solver. }
  apply NoDup_cons in Hnd as [Hi Hnd].
  assert (Hi16 : 0 ≤ i < 16) by (apply Hall; set_solver).
  assert (Hall' : ∀ j, j ∈ is_ → 0 ≤ j < 16) by (intros; apply Hall; set_solver).
  destruct (Hsub i Hi16) as (n & mi & Hn & Hmi & Hnt & Hspec).
  pose proof (kp_pre _ _ _ _ Hpre) as [Hu _ Hok Hs].
  assert (Hl' : s_heap s !! t = Some (Otrie_node c k v next)) by (by eapply lookup_weaken).
  rewrite (bind_ok _ _ _ _ _ (trie_next_ok _ _ _ _ _ _ _ _ Hl' Hn)).
  assert (Hstep : ∃ a1 s1 hn1 es1,
    (b <- is_zi o_undefined n ;; if b then ret accum else rec n accum) s = Ok a1 s1
    ∧ grows s s1 hn1 ∧ is_list (s_heap s1) nl a1 (entry_keys es1 ++ vs) ∧ es1 ≡ₚ map_to_list mi).
  { destruct (decide (n = u)) as [->|Hne].
    - rewrite (bind_ok _ _ _ _ _ (is_zi_eq o_undefined u s Hu)).
      exists accum, s, ∅, []. split; [done|]. split; [by apply grows_refl|]. split; [done|].
      by rewrite (trie_at_undefined_inv _ _ _ _ _ Hnt), map_to_list_empty.
    - rewrite (bind_ok _ _ _ _ _ (is_zi_ne o_undefined n s ltac:(congruence))).
      by apply Hspec. }
  destruct Hstep as (a1 & s1 & hn1 & es1 & E1 & Hg1 & Hl1 & Hes1).
  destruct (IH a1 s1 (entry_keys es1 ++ vs)) as (a2 & s2 & hn2 & es2 & E2 & Hg2 & Hl2 & Hnd2 & Hes2);
    [by eapply keys_pre_grows|done|done|done|].
  exists a2, s2, (hn2 ∪ hn1), (es2 ++ (relabel i <$> es1)).
  split.
  { rewrite <- bind_assoc, (bind_ok _ _ _ _ _ E1). exact E2. }
  split; [by eapply grows_trans|]. split.
  { unfold entry_keys in *. rewrite fmap_app, <- app_assoc.
    change ((λ e, (e.2).1) <$> (relabel i <$> es1)) with (entry_keys (relabel i <$> es1)).
    rewrite entry_keys_relabel. exact Hl2. }
  pose proof (submap_entries _ _ _ _ _ _ _ _ _ Hi16 Hmi Hnt Hes1) as Hrel.
  split.
  - apply NoDup_app. split; [done|]. split.
    + intros [id e] (_ & Hin & _)%Hes2 (_ & Hin' & _)%Hrel. congruence.
    + apply NoDup_relabel. rewrite Hes1. apply NoDup_map_to_list.
  - intros id e. rewrite elem_of_app, Hes2, Hrel, elem_of_cons. naive_solver.
Qed.

(** The node's own key is consed on first. *)
Lemma keys_first_ok u nl s hb k v (m : gmap Z (loc * loc)) accum vs :
  keys_pre u nl s hb → m !! 0 = node_entry u k v → (k = u ↔ v = u) →
  is_list (s_heap s) nl accum vs →
  ∃ a1 s1 hn1 es1,
    (b <- is_zi o_undefined k ;; if b then ret accum else zuo_cons k accum) s = Ok a1 s1
    ∧ grows s s1 hn1 ∧ is_list (s_heap s1) nl a1 (entry_keys es1 ++ vs) ∧ NoDup es1
    ∧ ∀ id e, (id, e) ∈ es1 ↔ id = 0 ∧ m !! id = Some e.
Proof.
  intros Hpre H0 Hkv Hacc. pose proof (kp_pre _ _ _ _ Hpre) as [Hu Hal Hok Hs].
  unfold node_entry in H0. destruct (decide (v = u)) as [Hv|Hv].
  - rewrite (bind_ok _ _ _ _ _ (is_zi_eq o_undefined k s ltac:(rewrite <- Hu; by apply Hkv))).
    exists accum, s, ∅, []. split; [done|]. split; [by apply grows_refl|].
    split; [done|]. split; [constructor|]. intros id e. split; [set_solver|].
    intros [-> ?]. congruence.
  - rewrite (bind_ok _ _ _ _ _ (is_zi_ne o_undefined k s ltac:(rewrite <- Hu; by intros ?%Hkv))).
    destruct (allocates_grows _ _ s (zuo_cons_ok k accum) Hok) as (p & s1 & E & Hp & Hg).
    exists p, s1, {[p := Opair k accum]}, [(0, (k, v))]. split; [done|]. split; [done|].
    split.
    { cbn. exists accum. split; [intros ->; destruct (kp_alive _ _ _ _ Hpre); congruence|].
      split; [rewrite (gr_heap _ _ _ Hg); apply lookup_union_Some_l, lookup_singleton_eq|].
      eapply is_list_weaken; [by eapply grows_subseteq|done]. }
    split; [apply NoDup_singleton|]. intros id e. rewrite list_elem_of_singleton.
    split; [intros [= -> ->]; done|]. intros [-> He]. congruence.
Qed.

(** The entries at the node and those under its nibbles are all of them. *)
Lemma keys_permutation (m : gmap Z (loc * loc)) (es1 es2 : list (Z * (loc * loc))) :
  (∀ id, id < 0 → m !! id = None) → NoDup es1 → NoDup es2 →
  (∀ id e, (id, e) ∈ es1 ↔ id = 0 ∧ m !! id = Some e) →
  (∀ id e, (id, e) ∈ es2 ↔ 0 < id ∧ id mod 16 ∈ bfactor_indices ∧ m !! id = Some e) →
  es2 ++ es1 ≡ₚ map_to_list m.
Proof.
  intros Hneg Hnd1 Hnd2 Hes1 Hes2. apply NoDup_Permutation; [|apply NoDup_map_to_list|].
  - apply NoDup_app. split; [done|]. split; [|done].
    intros [id e] (? & _ & _)%Hes2 (-> & _)%Hes1. lia.
  - intros [id e]. rewrite elem_of_app, Hes1, Hes2, elem_of_map_to_list, elem_of_bfactor.
    split; [naive_solver|]. intros He.
    destruct (decide (id = 0)) as [->|Hz]; [by right|left].
    destruct (decide (id < 0)); [rewrite Hneg in He by done; done|].
    split; [lia|]. split; [apply nibble_bound|done].
Qed.

Lemma zuo_trie_keys_step u nl full d fuel t hb c k v next (m : gmap Z (loc * loc)) :
  hb !! t = Some (Otrie_node c k v next) → length next = 16%nat →
  m !! 0 = node_entry u k v → (k = u ↔ v = u) → (∀ id, id < 0 → m !! id = None) →
  (∀ i, 0 ≤ i < 16 → ∃ n mi, next !! Z.to_nat i = Some n ∧ submap m mi i
    ∧ trie_at u full d hb n mi ∧ (n ≠ u → keys_spec u nl (zuo_trie_keys fuel) n mi hb)) →
  keys_spec u nl (zuo_trie_keys (S fuel)) t m hb.
Proof.
  intros Hl Hlen H0 Hkv Hneg Hsub accum s vs Hpre Hacc. rewrite zuo_trie_keys_eq.
  pose proof (kp_pre _ _ _ _ Hpre) as [Hu Hal Hok Hs].
  assert (Hl' : s_heap s !! t = Some (Otrie_node c k v next)) by (by eapply lookup_weaken).
  assert (Ek : trie_key t s = Ok k s)
    by (unfold trie_key; by rewrite (bind_ok _ _ _ _ _ (get_ok _ _ _ Hl'))).
  rewrite (bind_ok _ _ _ _ _ Ek).
  destruct (keys_first_ok u nl s hb k v m accum vs Hpre H0 Hkv Hacc)
    as (a1 & s1 & hn1 & es1 & E1 & Hg1 & Hl1 & Hnd1 & Hes1).
  destruct (keys_loop_ok u nl full d hb c k v next m (zuo_trie_keys fuel) t bfactor_indices a1 s1
    (entry_keys es1 ++ vs)) as (a2 & s2 & hn2 & es2 & E2 & Hg2 & Hl2 & Hnd2 & Hes2);
    [by eapply keys_pre_grows|done|done|done|apply NoDup_bfactor|intros i; apply elem_of_bfactor|done|].
  exists a2, s2, (hn2 ∪ hn1), (es2 ++ es1).
  split; [rewrite <- bind_assoc, (bind_ok _ _ _ _ _ E1); exact E2|].
  split; [by eapply grows_trans|].
  split; [unfold entry_keys in *; by rewrite fmap_app, <- app_assoc|].
  by apply keys_permutation.
Qed.

Lemma zuo_trie_keys_ok u nl full d : ∀ fuel t hb m,
  (d < fuel)%nat → trie_at u full d hb t m → t ≠ u → keys_spec u nl (zuo_trie_keys fuel) t m hb.
Proof.
  induction d as [|d IH]; intros [|fuel] t hb m Hf Ht Hne; try lia;
    apply trie_at_node in Ht as [[? _]|(_ & c & k & v & next & Hl & Hlen & _ & H0 & Hkv & Hneg & Hsub)];
    try done.
  - apply (zuo_trie_keys_step u nl full O fuel t hb c k v next); try done. destruct Hsub as [-> Hz].
    intros i Hi. exists u, ∅. split; [apply lookup_replicate; split; [done|lia]|].
    split; [split; [|done]; intros j Hj Hp; rewrite lookup_empty; by apply Hz|].
    split; [apply trie_at_undefined|done].
  - apply (zuo_trie_keys_step u nl full d fuel t hb c k v next); try done.
    intros i Hi. destruct (Hsub i Hi) as (n & mi & Hn & Hnt & Hmi & _). exists n, mi.
    split; [done|]. split; [done|]. split; [done|]. intros Hnu. apply IH; [lia|done|done].
Qed.
