(* ===== verification/Lists.v ===== *)
(** * Lists built in place

    Many functions of zuo.c build a list front to back: a fresh cell is linked
    to the last one by storing into its [cdr].  This file has the invariant of
    such a list under construction and the effect of a step. *)

From S2P Require Import Prelude Sys Heap Alloc Objects Trie.

(** ** Running the accessors *)

Lemma ZUO_CAR_ok s l a d : s_heap s !! l = Some (Opair a d) → ZUO_CAR l s = Ok a s.
Proof. intros H. unfold ZUO_CAR. by rewrite (bind_ok _ _ _ _ _ (get_ok _ _ _ H)). Qed.
Lemma ZUO_CDR_ok s l a d : s_heap s !! l = Some (Opair a d) → ZUO_CDR l s = Ok d s.
Proof. intros H. unfold ZUO_CDR. by rewrite (bind_ok _ _ _ _ _ (get_ok _ _ _ H)). Qed.
Lemma ZUO_INT_I_ok s l i : s_heap s !! l = Some (Ointeger i) → ZUO_INT_I l s = Ok i s.
Proof. intros H. unfold ZUO_INT_I. by rewrite (bind_ok _ _ _ _ _ (get_ok _ _ _ H)). Qed.
Lemma ZUO_STRING_PTR_ok s l b : s_heap s !! l = Some (Ostring b) → ZUO_STRING_PTR l s = Ok b s.
Proof. intros H. unfold ZUO_STRING_PTR. by rewrite (bind_ok _ _ _ _ _ (get_ok _ _ _ H)). Qed.
Lemma symbol_str_ok s l id str : s_heap s !! l = Some (Osymbol id str) → symbol_str l s = Ok str s.
Proof. intros H. unfold symbol_str. by rewrite (bind_ok _ _ _ _ _ (get_ok _ _ _ H)). Qed.

(** [run_step E] replaces the first computation of a sequence by its result. *)
Ltac run_step E := rewrite (bind_ok _ _ _ _ _ E); cbn beta iota.

Lemma has_tag_ok s l o t :
  s_heap s !! l = Some o → has_tag t l s = Ok (bool_decide (obj_tag o = t)) s.
Proof. intros Hl. unfold has_tag. by rewrite (bind_ok _ _ _ _ _ (get_ok _ _ _ Hl)). Qed.

Lemma is_zi_bool f l s : is_zi f l s = Ok (bool_decide (l = f (s_img s))) s.
Proof. done. Qed.

(** ** Segments *)

(** The cells [cs] hold [ws] in order; the last one leads to [b]. *)
Fixpoint cells (h : gmap Z obj) (cs ws : list loc) (b : loc) : Prop :=
  match cs, ws with
  | [], [] => True
  | c :: cs', w :: ws' => h !! c = Some (Opair w (hd b cs')) ∧ cells h cs' ws' b
  | _, _ => False
  end.

Lemma cells_weaken h h' cs ws b :
  (∀ c, c ∈ cs → h' !! c = h !! c) → cells h cs ws b → cells h' cs ws b.
Proof.
  revert ws. induction cs as [|c cs IH]; intros [|w ws] Heq; cbn; try done.
  intros [Hc Hcs]. split; [rewrite Heq; set_solver|]. apply IH; [set_solver|done].
Qed.

Lemma cells_list h nl cs ws b vs :
  cells h cs ws b → nl ∉ cs → is_list h nl b vs → is_list h nl (hd b cs) (ws ++ vs).
Proof.
  revert ws. induction cs as [|c cs IH]; intros [|w ws]; cbn; try done.
  intros [Hc Hcs] Hnl Hb. exists (hd b cs). split; [set_solver|]. split; [done|].
  apply IH; [done|set_solver|done].
Qed.

(** The last cell of a segment is redirected. *)
Lemma cells_redirect h cs ws l w b b' :
  cells h (cs ++ [l]) (ws ++ [w]) b → NoDup (cs ++ [l]) → length cs = length ws →
  cells (<[l := Opair w b']> h) (cs ++ [l]) (ws ++ [w]) b'.
Proof.
  revert ws. induction cs as [|c cs IH]; intros [|w' ws]; cbn [app cells]; try done.
  - intros _ _ _. split; [|done]. by rewrite lookup_insert_eq.
  - intros [Hc Hcs] [Hnin Hnd]%NoDup_cons [= Hlen]. split.
    + rewrite lookup_insert_ne; [|set_solver]. rewrite Hc. by destruct cs.
    + by apply IH.
Qed.

Lemma cells_snoc h cs ws p w b :
  cells h cs ws p → h !! p = Some (Opair w b) → cells h (cs ++ [p]) (ws ++ [w]) b.
Proof.
  revert ws. induction cs as [|c cs IH]; intros [|w' ws]; cbn; try done.
  intros [Hc Hcs] Hp. split; [|auto]. rewrite Hc. by destruct cs.
Qed.

Lemma cells_length h cs ws b : cells h cs ws b → length cs = length ws.
Proof. revert ws. induction cs as [|c cs IH]; intros [|w ws]; cbn; try done. intros [_ H]. f_equal; auto. Qed.

(** ** A list under construction

    [first] and [last] are the C variables, [cs] the cells, all of them among
    the objects [hn] allocated since the start. *)
Record seg (nl : loc) (hn : gmap Z obj) (cs : list loc) (first last : loc) (ws : list loc) : Prop := {
  sg_first : first = hd nl cs;
  sg_last : cs ≠ [] → ∃ cs', cs = cs' ++ [last];
  sg_nodup : NoDup cs;
  sg_nl : nl ∉ cs;
  sg_cells : cells hn cs ws nl }.

Lemma seg_nil nl hn last : seg nl hn [] nl last [].
Proof. split; try done; [constructor|set_solver]. Qed.

Lemma seg_dom nl hn cs first last ws c : seg nl hn cs first last ws → c ∈ cs → is_Some (hn !! c).
Proof.
  intros [_ _ _ _ Hcs]. revert ws Hcs. induction cs as [|c' cs IH]; intros ws Hcs Hc; [set_solver|].
  destruct ws as [|w ws]; [done|]. destruct Hcs as [Hc' Hcs].
  apply elem_of_cons in Hc as [->|Hc]; eauto.
Qed.

Lemma seg_first_nil nl hn cs first last ws :
  seg nl hn cs first last ws → first = nl ↔ cs = [].
Proof.
  intros [-> _ _ Hnl _]. destruct cs as [|c cs]; [done|]. cbn. split; [|done]. set_solver.
Qed.

Lemma set_ZUO_CDR_grows s s' hn l a d v :
  grows s s' hn → hn !! l = Some (Opair a d) →
  set_ZUO_CDR l v s' = Ok tt (set_heap_at l (Opair a v) s')
  ∧ grows s (set_heap_at l (Opair a v) s') (<[l := Opair a v]> hn).
Proof.
  intros Hg Hl.
  assert (Hl' : s_heap s' !! l = Some (Opair a d))
    by (rewrite (gr_heap _ _ _ Hg); by apply lookup_union_Some_l).
  destruct (grows_put s s' hn l _ (Opair a v) Hg Hl eq_refl) as [E Hg'].
  split; [|done]. unfold set_ZUO_CDR. by rewrite (bind_ok _ _ _ _ _ (get_ok _ _ _ Hl')).
Qed.

(** The tail of the idiom: [if (first == z.o_null) first = p; else last->cdr = p]. *)
Lemma seg_link s0 s hn nl cs first last ws x p s1 :
  grows s0 s hn → seg nl hn cs first last ws →
  s_heap s !! p = None → grows s s1 {[p := Opair x nl]} → p ≠ nl →
  ∃ s2 hn2, (if bool_decide (first = nl) then ret tt else set_ZUO_CDR last p) s1 = Ok tt s2
    ∧ grows s0 s2 hn2 ∧ seg nl hn2 (cs ++ [p]) (if bool_decide (first = nl) then p else first) p (ws ++ [x])
    ∧ p ∉ cs ∧ (∀ a, a ∉ cs → a ≠ p → hn2 !! a = hn !! a).
Proof.
  intros Hg Hseg Hp Hg1 Hpnl. pose proof (grows_trans _ _ _ _ _ Hg Hg1) as Hg01.
  assert (Hpn : hn !! p = None) by (rewrite (gr_heap _ _ _ Hg) in Hp; by apply lookup_union_None in Hp as [? _]).
  assert (Hpcs : p ∉ cs) by (intros Hin; destruct (seg_dom _ _ _ _ _ _ _ Hseg Hin); congruence).
  assert (Hp1 : ({[p := Opair x nl]} ∪ hn) !! p = Some (Opair x nl))
    by (apply lookup_union_Some_l, lookup_singleton_eq).
  assert (Hother : ∀ a, a ≠ p → ({[p := Opair x nl]} ∪ hn) !! a = hn !! a)
    by (intros a Ha; apply lookup_union_r; by rewrite lookup_singleton_ne).
  pose proof (seg_first_nil _ _ _ _ _ _ Hseg) as Hfn. destruct Hseg as [Hf Hl Hnd Hnl Hcs].
  destruct (decide (first = nl)) as [E|Hne].
  - rewrite bool_decide_true by done. apply Hfn in E as ->. destruct ws as [|w ws]; [|done].
    exists s1, ({[p := Opair x nl]} ∪ hn). split; [done|]. split; [done|]. split; [|split; [done|auto]].
    split; cbn; try done; [by exists []|apply NoDup_singleton|set_solver].
  - rewrite bool_decide_false by done. assert (Hcs0 : cs ≠ []) by tauto.
    destruct (Hl Hcs0) as [cs' Ecs]. destruct ws as [|w ws _] using rev_ind.
    { apply cells_length in Hcs. rewrite Ecs, length_app in Hcs. cbn in Hcs. lia. }
    assert (Hlen : length cs' = length ws).
    { apply cells_length in Hcs. rewrite Ecs, !length_app in Hcs. cbn in Hcs. lia. }
    assert (Hcs1 : cells ({[p := Opair x nl]} ∪ hn) cs (ws ++ [w]) nl).
    { eapply cells_weaken; [|exact Hcs]. intros c Hc. apply Hother. congruence. }
    assert (Hlast : ({[p := Opair x nl]} ∪ hn) !! last = Some (Opair w nl)).
    { rewrite Ecs in Hcs1. clear -Hcs1 Hlen. revert ws Hlen Hcs1.
      induction cs' as [|c cs' IH]; intros [|w' ws]; cbn; try done; [tauto|].
      intros [= ?] [_ ?]. eauto. }
    assert (Hlp : last ≠ p) by (rewrite Ecs in Hpcs; set_solver).
    destruct (set_ZUO_CDR_grows s0 s1 _ last w nl p Hg01 Hlast) as [E2 Hg2].
    exists (set_heap_at last (Opair w p) s1), (<[last := Opair w p]> ({[p := Opair x nl]} ∪ hn)).
    split; [done|]. split; [done|]. split; [|split; [done|]].
    + split.
      * rewrite Hf. by destruct cs.
      * intros _. by exists cs.
      * apply NoDup_app. split; [done|]. split; [set_solver|apply NoDup_singleton].
      * set_solver.
      * apply cells_snoc; [|by rewrite lookup_insert_ne].
        rewrite Ecs. apply (cells_redirect _ cs' ws last w nl p); [by rewrite <- Ecs|by rewrite <- Ecs|done].
    + intros a Ha Hap. rewrite lookup_insert_ne by (rewrite Ecs in Ha; set_solver). auto.
Qed.

(** The end: the last cell is redirected to the rest of the list. *)
Lemma seg_close s0 s hn nl cs first last ws b vs :
  grows s0 s hn → seg nl hn cs first last ws → cs ≠ [] →
  (∀ h', (∀ a, a ∉ cs → h' !! a = s_heap s !! a) → is_list h' nl b vs) →
  ∃ s' hn', set_ZUO_CDR last b s = Ok tt s' ∧ grows s0 s' hn'
    ∧ is_list (s_heap s') nl first (ws ++ vs).
Proof.
  intros Hg [Hf Hl Hnd Hnl Hcs] Hcs0 Hb. destruct (Hl Hcs0) as [cs' Ecs].
  destruct ws as [|w ws _] using rev_ind.
  { apply cells_length in Hcs. rewrite Ecs, length_app in Hcs. cbn in Hcs. lia. }
  assert (Hlen : length cs' = length ws).
  { apply cells_length in Hcs. rewrite Ecs, !length_app in Hcs. cbn in Hcs. lia. }
  assert (Hlast : hn !! last = Some (Opair w nl)).
  { rewrite Ecs in Hcs. clear -Hcs Hlen. revert ws Hlen Hcs.
    induction cs' as [|c cs' IH]; intros [|w' ws]; cbn; try done; [tauto|].
    intros [= ?] [_ ?]. eauto. }
  destruct (set_ZUO_CDR_grows s0 s hn last w nl b Hg Hlast) as [E Hg'].
  exists (set_heap_at last (Opair w b) s), (<[last := Opair w b]> hn). split; [done|]. split; [done|].
  rewrite s_heap_set.
  assert (Hcs' : cells (<[last := Opair w b]> hn) cs (ws ++ [w]) b).
  { rewrite Ecs. apply (cells_redirect _ cs' ws last w nl b); [by rewrite <- Ecs|by rewrite <- Ecs|done]. }
  replace first with (hd b cs) by (rewrite Hf; by destruct cs).
  apply cells_list; [|done|].
  - eapply cells_weaken; [|exact Hcs']. intros c Hc. rewrite (gr_heap _ _ _ Hg).
    destruct (decide (c = last)) as [->|Hne]; [by rewrite !lookup_insert_eq|].
    rewrite !lookup_insert_ne by done. apply lookup_union_l'.
    assert (Hx : seg nl hn cs first last (ws ++ [w])) by (by split).
    by apply (seg_dom _ _ _ _ _ _ _ Hx).
  - apply Hb. intros a Ha. rewrite lookup_insert_ne; [done|]. rewrite Ecs in Ha. set_solver.
Qed.

(** A segment that is not redirected is a list. *)
Lemma seg_list s0 s hn nl cs first last ws :
  grows s0 s hn → seg nl hn cs first last ws → is_list (s_heap s) nl first ws.
Proof.
  intros Hg Hseg. pose proof Hseg as [Hf _ _ Hnl Hcs].
  rewrite Hf, <- (app_nil_r ws). apply cells_list; [|done|done].
  eapply cells_weaken; [|exact Hcs]. intros c Hc. rewrite (gr_heap _ _ _ Hg).
  apply lookup_union_l'. by apply (seg_dom _ _ _ _ _ _ _ Hseg).
Qed.

(** ** Consing *)

(** The empty list is an object, and the memory manager is well formed. *)
Record list_pre (nl : loc) (s : st) : Prop := {
  lp_nl : nl = o_null (s_img s);
  lp_alive : is_Some (s_heap s !! nl);
  lp_ok : mem_ok (s_mem s) }.

Lemma list_pre_grows nl s s' hn : list_pre nl s → grows s s' hn → list_pre nl s'.
Proof.
  intros [-> [o Ho] Hok] Hg. split; [by rewrite (gr_img _ _ _ Hg)| |apply Hg].
  exists o. by eapply grows_lookup.
Qed.

Lemma zuo_cons_grows nl s a d :
  list_pre nl s →
  ∃ p s', zuo_cons a d s = Ok p s' ∧ s_heap s !! p = None ∧ p ≠ nl ∧ grows s s' {[p := Opair a d]}.
Proof.
  intros Hpre. destruct (allocates_grows _ _ s (zuo_cons_ok a d) (lp_ok _ _ Hpre)) as (p & s' & E & Hp & Hg).
  exists p, s'. split; [done|]. split; [done|]. split; [|done].
  intros ->. destruct (lp_alive _ _ Hpre). congruence.
Qed.

Lemma grows_new s s' p o : grows s s' {[p := o]} → s_heap s' !! p = Some o.
Proof. intros Hg. rewrite (gr_heap _ _ _ Hg). apply lookup_union_Some_l, lookup_singleton_eq. Qed.

Lemma grows_lookup_new s s' hn p o : grows s s' hn → hn !! p = Some o → s_heap s' !! p = Some o.
Proof. intros Hg Hp. rewrite (gr_heap _ _ _ Hg). by apply lookup_union_Some_l. Qed.

Lemma zuo_cons_list nl s a d vs :
  list_pre nl s → is_list (s_heap s) nl d vs →
  ∃ p s', zuo_cons a d s = Ok p s' ∧ grows s s' {[p := Opair a d]} ∧ is_list (s_heap s') nl p (a :: vs).
Proof.
  intros Hpre Hd. destruct (zuo_cons_grows nl s a d Hpre) as (p & s' & E & _ & Hne & Hg).
  exists p, s'. split; [done|]. split; [done|]. cbn. exists d. split; [done|].
  split; [by apply (grows_new s)|]. eapply is_list_weaken; [by eapply grows_subseteq|done].
Qed.

Lemma is_null_ok nl s l : list_pre nl s → is_zi o_null l s = Ok (bool_decide (l = nl)) s.
Proof. intros [-> _ _]. done. Qed.

Lemma is_list_grows nl s s' hn l vs :
  grows s s' hn → is_list (s_heap s) nl l vs → is_list (s_heap s') nl l vs.
Proof. intros Hg. apply is_list_weaken. by eapply grows_subseteq. Qed.

(** [heap_fuel] is enough for a loop over a list. *)
Lemma is_list_heap_fuel s nl l vs : is_list (s_heap s) nl l vs → (length vs < heap_fuel s)%nat.
Proof. intros H. apply is_list_fuel in H. unfold heap_fuel. lia. Qed.
