(* ===== verification/ImageOk.v ===== *)
(** * The image roots

    What every running state satisfies of the constants: the singletons are
    distinct objects, and the tables are trie nodes. *)

From S2P Require Import Prelude Sys Heap Alloc Gc GcCorrect Objects Trie Lists.

Definition singletons (z : image) : list loc :=
  [o_undefined z; o_true z; o_false z; o_null z; o_eof z; o_void z;
   o_apply z; o_call_cc z; o_call_prompt z; o_kernel_eval z].

Definition is_singleton (o : obj) : bool := match o with Osingleton => true | _ => false end.
Definition is_trie (o : obj) : bool := match o with Otrie_node _ _ _ n => Nat.eqb (length n) 16 | _ => false end.
Definition is_cont (o : obj) : bool := match o with Ocont _ _ _ _ _ => true | _ => false end.
Definition is_symbol (o : obj) : bool := match o with Osymbol _ _ => true | _ => false end.

(** The object at [l] satisfies [p]. *)
Definition obj_is (h : gmap Z obj) (p : obj → bool) (l : loc) : bool :=
  match h !! l with Some o => p o | None => false end.

Record image_ok (s : st) : Prop := {
  im_mem : mem_ok (s_mem s);
  im_single : Forall (λ l, s_heap s !! l = Some Osingleton) (singletons (s_img s));
  im_nodup : NoDup (singletons (s_img s));
  im_hash : obj_is (s_heap s) is_trie (o_empty_hash (s_img s)) = true;
  im_done : obj_is (s_heap s) is_cont (o_done_k (s_img s)) = true;
  im_syms : Forall (λ l, obj_is (s_heap s) is_symbol l = true)
    [o_quote_symbol (s_img s); o_lambda_symbol (s_img s); o_let_symbol (s_img s);
     o_begin_symbol (s_img s); o_if_symbol (s_img s)] }.

Lemma obj_is_grows s s' hn p l :
  grows s s' hn → obj_is (s_heap s) p l = true → obj_is (s_heap s') p l = true.
Proof.
  intros Hg. unfold obj_is. destruct (s_heap s !! l) as [o|] eqn:E; [|done].
  by rewrite (grows_lookup _ _ _ _ _ Hg E).
Qed.

Lemma image_ok_grows s s' hn : image_ok s → grows s s' hn → image_ok s'.
Proof.
  intros [H1 H2 H3 H4 H5 H6] Hg. split; rewrite ?(gr_img _ _ _ Hg); try done.
  - apply Hg.
  - eapply Forall_impl; [exact H2|]. cbn. intros l. by apply (grows_lookup _ _ _ _ _ Hg).
  - by eapply obj_is_grows.
  - by eapply obj_is_grows.
  - eapply Forall_impl; [exact H6|]. cbn. intros l. by apply (obj_is_grows _ _ _ _ _ Hg).
Qed.

Lemma image_single s l :
  image_ok s → l ∈ singletons (s_img s) → s_heap s !! l = Some Osingleton.
Proof. intros H Hl. pose proof (im_single _ H) as HF. rewrite Forall_forall in HF. auto. Qed.

(** An object that is not a singleton is none of the constants. *)
Lemma image_ne s l o :
  image_ok s → s_heap s !! l = Some o → o ≠ Osingleton → l ∉ singletons (s_img s).
Proof. intros H Hl Ho Hin. pose proof (image_single _ _ H Hin). congruence. Qed.

Lemma image_list_pre s : image_ok s → list_pre (o_null (s_img s)) s.
Proof.
  intros H. split; [done| |apply H]. rewrite (image_single s); [eauto|done|].
  unfold singletons. set_solver.
Qed.

(** Distinct constants are distinct addresses. *)
Ltac image_neq H :=
  let Hn := fresh in pose proof (im_nodup _ H) as Hn; unfold singletons in Hn;
  repeat (apply NoDup_cons in Hn as [? Hn]); set_solver.

(** ** Deciding it *)

Definition image_okb (s : st) : bool :=
  let h := s_heap s in
  let z := s_img s in
  forallb (obj_is h is_singleton) (singletons z)
  && bool_decide (NoDup (singletons z))
  && obj_is h is_trie (o_empty_hash z)
  && obj_is h is_cont (o_done_k z)
  && forallb (obj_is h is_symbol)
       [o_quote_symbol z; o_lambda_symbol z; o_let_symbol z; o_begin_symbol z; o_if_symbol z].

Lemma image_okb_sound s : mem_ok (s_mem s) → image_okb s = true → image_ok s.
Proof.
  unfold image_okb. intros Hm H.
  apply andb_true_iff in H as [H H5]. apply andb_true_iff in H as [H H4].
  apply andb_true_iff in H as [H H3]. apply andb_true_iff in H as [H1 H2].
  split; [done| |by apply bool_decide_eq_true in H2|done|done|].
  - apply Forall_forall. intros l Hl. rewrite List.forallb_forall in H1.
    specialize (H1 l (proj1 (list_elem_of_In _ _) Hl)). unfold obj_is in H1.
    destruct (s_heap s !! l) as [[]|]; done.
  - apply Forall_forall. intros l Hl. rewrite List.forallb_forall in H5.
    exact (H5 l (proj1 (list_elem_of_In _ _) Hl)).
Qed.
