(* ===== verification/Value.v ===== *)
(** * Values as trees

    The immutable values of the kernel language as trees, free of addresses,
    and the relation between an address and the tree it stands for.  The
    relation survives allocation and collection, so the interpreter can be
    specified on trees. *)

From S2P Require Import Prelude Sys Heap Alloc Gc GcCorrect Objects Trie Lists ImageOk.

(** ** Trees *)

(** [Vtop_env] is the kernel environment, [Vdone_k] the empty continuation; the
    name that a continuation keeps for stack traces is not part of its tree. *)
Inductive val : Type :=
  | Vnull | Vtrue | Vfalse | Veof | Vvoid
  | Vapply | Vcall_cc | Vcall_prompt | Vkernel_eval
  | Vtop_env | Vdone_k
  | Vint (i : Z)
  | Vstr (b : list Z)
  | Vsym (id : Z)
  | Vpair (a d : val)
  | Vclosure (lambda env : val)
  | Vprim (disp : dispatcher) (proc : string) (mask : Z)
  | Vcont (tag : zuo_cont_tag_t) (data env next : val).

#[export] Instance val_eq_dec : EqDecision val.
Proof. solve_decision. Defined.

(** The constants that the image roots name. *)
Definition const (z : image) (v : val) : option loc :=
  match v with
  | Vnull => Some (o_null z) | Vtrue => Some (o_true z) | Vfalse => Some (o_false z)
  | Veof => Some (o_eof z) | Vvoid => Some (o_void z) | Vapply => Some (o_apply z)
  | Vcall_cc => Some (o_call_cc z) | Vcall_prompt => Some (o_call_prompt z)
  | Vkernel_eval => Some (o_kernel_eval z) | Vtop_env => Some (o_top_env z)
  | Vdone_k => Some (o_done_k z)
  | _ => None
  end.

(** The tag of the object that stands for a tree. *)
Definition vtag (v : val) : zuo_tag_t :=
  match v with
  | Vint _ => zuo_integer_tag | Vstr _ => zuo_string_tag | Vsym _ => zuo_symbol_tag
  | Vpair _ _ => zuo_pair_tag | Vclosure _ _ => zuo_closure_tag
  | Vprim _ _ _ => zuo_primitive_tag | Vcont _ _ _ _ | Vdone_k => zuo_cont_tag
  | Vtop_env => zuo_trie_node_tag
  | _ => zuo_singleton_tag
  end.

(** The number of pairs along the tails. *)
Fixpoint spine (v : val) : nat := match v with Vpair _ d => S (spine d) | _ => O end.

(** ** Addresses that stand for trees *)

Fixpoint rep (z : image) (h : gmap Z obj) (l : loc) (v : val) : Prop :=
  match v with
  | Vint i => h !! l = Some (Ointeger i)
  | Vstr b => h !! l = Some (Ostring b)
  | Vsym id => ∃ str, h !! l = Some (Osymbol id str)
  | Vpair a d => ∃ la ld, h !! l = Some (Opair la ld) ∧ rep z h la a ∧ rep z h ld d
  | Vclosure a d => ∃ la ld, h !! l = Some (Oclosure la ld) ∧ rep z h la a ∧ rep z h ld d
  | Vprim disp proc mask => ∃ n, h !! l = Some (Oprimitive disp proc mask n)
  | Vcont tag data env next =>
      tag ≠ zuo_done_cont ∧ ∃ ld le lp ln, h !! l = Some (Ocont tag ld le lp ln)
        ∧ rep z h ld data ∧ rep z h le env ∧ rep z h ln next
  | _ => const z v = Some l
  end.

Lemma rep_weaken z h h' l v : h ⊆ h' → rep z h l v → rep z h' l v.
Proof.
  intros Hs. revert l. induction v; intros l; cbn; try done.
  - intros ?. by eapply lookup_weaken.
  - intros ?. by eapply lookup_weaken.
  - intros [str ?]. exists str. by eapply lookup_weaken.
  - intros (la & ld & ? & ? & ?). exists la, ld. split; [by eapply lookup_weaken|auto].
  - intros (la & ld & ? & ? & ?). exists la, ld. split; [by eapply lookup_weaken|auto].
  - intros [n ?]. exists n. by eapply lookup_weaken.
  - intros (? & ld & le & lp & ln & ? & ? & ? & ?). split; [done|]. exists ld, le, lp, ln.
    split; [by eapply lookup_weaken|auto].
Qed.

(** ** Looking up in the kernel environment *)

(** The value under [id] in the trie at [t]. *)
Fixpoint trie_get (fuel : nat) (u : loc) (h : gmap Z obj) (t : loc) (id : Z) : option loc :=
  match h !! t with
  | Some (Otrie_node _ _ v next) =>
      if 0 <? id then
        match fuel with
        | O => None
        | S fuel' =>
            n ← next !! Z.to_nat (id mod 16);
            if decide (n = u) then None else trie_get fuel' u h n (id / 16)
        end
      else if decide (v = u) then None else Some v
  | _ => None
  end.

Lemma trie_get_weaken fuel u h h' t id v :
  h ⊆ h' → trie_get fuel u h t id = Some v → trie_get fuel u h' t id = Some v.
Proof.
  intros Hs. revert t id. induction fuel as [|fuel IH]; intros t id; cbn;
    (destruct (h !! t) as [o|] eqn:Ht; [|done]; rewrite (lookup_weaken _ _ _ _ Ht Hs));
    destruct o as [| | | | |c k w next| | | | | | |]; try done.
  destruct (0 <? id); [|done]. destruct (next !! _) as [n|]; [|done]. cbn.
  destruct (decide (n = u)); [done|]. apply IH.
Qed.

Lemma trie_get_defined fuel u h t id v : trie_get fuel u h t id = Some v → v ≠ u.
Proof.
  revert t id. induction fuel as [|fuel IH]; intros t id; cbn; intros H;
    repeat case_match; simplify_eq; try done. destruct (next !! _) as [n|]; [|done]. cbn in H.
  destruct (decide (n = u)); [done|]. by eapply IH.
Qed.

Lemma trie_get_run fuel t id s v :
  trie_get fuel (o_undefined (s_img s)) (s_heap s) t id = Some v →
  trie_lookup_loop fuel t id s = Ok v s.
Proof.
  revert t id. induction fuel as [|fuel IH]; intros t id H.
  - cbn in *. destruct (s_heap s !! t) as [[| | | | |c k w next| | | | | | |]|] eqn:Ht; try done.
    destruct (0 <? id); [done|]. rewrite (trie_val_ok _ _ _ _ _ _ Ht). case_decide; by simplify_eq.
  - cbn in H |- *. destruct (s_heap s !! t) as [[| | | | |c k w next| | | | | | |]|] eqn:Ht; try done.
    destruct (0 <? id).
    + autorewrite with zuo_st. destruct (next !! _) as [n|] eqn:Hn; [|done]. cbn in H.
      run_step (trie_next_ok _ _ _ _ _ _ _ _ Ht Hn).
      case_decide; [done|]. run_step (is_zi_ne o_undefined n s ltac:(done)). auto.
    + rewrite (trie_val_ok _ _ _ _ _ _ Ht). case_decide; by simplify_eq.
Qed.

(** ** What every state of the interpreter satisfies *)

(** The identifiers of the symbols of the core forms. *)
Record keywords := Keywords { k_quote : Z; k_lambda : Z; k_let : Z; k_begin : Z; k_if : Z }.

(** The primitives that only the code of the kernel uses, without a name. *)
Definition private_procs : list string :=
  ["zuo_module_to_hash_star"; "zuo_kernel_read_string"; "zuo_get_read_and_eval"; "zuo_register_module"]%string.

Section invariant.
(** [T] gives values that the kernel environment has. *)
Context (K : keywords) (T : Z → option val).

Record heap_inv (z : image) (h : gmap Z obj) : Prop := {
  hv_single : Forall (λ l, h !! l = Some Osingleton) (singletons z);
  hv_nodup : NoDup (singletons z);
  hv_done : ∃ d e p n, h !! o_done_k z = Some (Ocont zuo_done_cont d e p n);
  hv_top : ∃ c k v n, h !! o_top_env z = Some (Otrie_node c k v n);
  hv_hash : obj_is h is_trie (o_empty_hash z) = true;
  hv_syms : ∀ l l' id n n', h !! l = Some (Osymbol id n) → h !! l' = Some (Osymbol id n') → l = l';
  hv_names : ∀ l id n, h !! l = Some (Osymbol id n) → ∃ b, h !! n = Some (Ostring b) ∧ Forall is_byte b;
  hv_procs : ∀ l d p m n, h !! l = Some (Oprimitive d p m n) → p ∉ private_procs → ∃ id str, h !! n = Some (Osymbol id str);
  hv_tries : ∀ l c k v next, h !! l = Some (Otrie_node c k v next) →
    length next = 16%nat ∧ Forall (λ n, n = o_undefined z ∨ obj_is h is_trie n = true) next;
  hv_intern : obj_is h is_trie (o_intern_table z) = true;
  hv_quote : rep z h (o_quote_symbol z) (Vsym (k_quote K));
  hv_lambda : rep z h (o_lambda_symbol z) (Vsym (k_lambda K));
  hv_let : rep z h (o_let_symbol z) (Vsym (k_let K));
  hv_begin : rep z h (o_begin_symbol z) (Vsym (k_begin K));
  hv_if : rep z h (o_if_symbol z) (Vsym (k_if K));
  hv_env : ∀ id v, T id = Some v →
    ∃ l, trie_get trie_fuel (o_undefined z) h (o_top_env z) id = Some l ∧ rep z h l v }.

Record ok (s : st) : Prop := {
  ok_mem : mem_ok (s_mem s);
  ok_inv : heap_inv (s_img s) (s_heap s);
  ok_closed : heap_closed (s_heap s) (roots_of s);
  ok_ids : ∀ l id n, s_heap s !! l = Some (Osymbol id n) → id < zuo_symbol_count s }.

Definition live (s : st) (l : loc) : Prop := is_Some (s_heap s !! l).
Definition reps (s : st) (l : loc) (v : val) : Prop := rep (s_img s) (s_heap s) l v.

(** [s'] has everything that [s] has. *)
Record ext (s s' : st) : Prop := {
  ext_ok : ok s';
  ext_img : s_img s' = s_img s;
  ext_live : ∀ l, live s l → live s' l;
  ext_pairs : ∀ l a d, s_heap s !! l = Some (Opair a d) → s_heap s' !! l = Some (Opair a d);
  ext_reps : ∀ l v, reps s l v → reps s' l v }.

Lemma ext_refl s : ok s → ext s s.
Proof. by split. Qed.
Lemma ext_trans s1 s2 s3 : ext s1 s2 → ext s2 s3 → ext s1 s3.
Proof. intros [] []. split; [done|congruence|auto..]. Qed.

(** ** The object of a tree *)

Section at_state.
Context (z : image) (h : gmap Z obj) (Hinv : heap_inv z h).

Lemma single_at l : l ∈ singletons z → h !! l = Some Osingleton.
Proof. intros Hl. pose proof (hv_single _ _ Hinv) as HF. rewrite Forall_forall in HF. auto. Qed.

Lemma undefined_at : h !! o_undefined z = Some Osingleton.
Proof. apply single_at. unfold singletons. set_solver. Qed.

Lemma rep_obj l v : rep z h l v → ∃ o, h !! l = Some o ∧ obj_tag o = vtag v.
Proof.
  destruct v; cbn; intros H; try (injection H as <-; exists Osingleton; split; [|done];
    apply single_at; unfold singletons; set_solver).
  - injection H as <-. destruct (hv_top _ _ Hinv) as (? & ? & ? & ? & ->). eauto.
  - injection H as <-. destruct (hv_done _ _ Hinv) as (? & ? & ? & ? & ->). eauto.
  - eauto.
  - eauto.
  - destruct H as [? ->]. eauto.
  - destruct H as (? & ? & -> & _). eauto.
  - destruct H as (? & ? & -> & _). eauto.
  - destruct H as [? ->]. eauto.
  - destruct H as (_ & ? & ? & ? & ? & -> & _). eauto.
Qed.

Lemma rep_live l v : rep z h l v → is_Some (h !! l).
Proof. intros (o & -> & _)%rep_obj. eauto. Qed.

(** No tree is the undefined value. *)
Lemma rep_defined l v : rep z h l v → l ≠ o_undefined z.
Proof.
  intros H ->. destruct (rep_obj _ _ H) as (o & Ho & Ht). rewrite undefined_at in Ho. simplify_eq.
  destruct v; cbn in Ht; try done; cbn in H; pose proof (hv_nodup _ _ Hinv) as Hn;
    unfold singletons in Hn; apply NoDup_cons in Hn as [Hn _]; set_solver.
Qed.

(** A constant that is a singleton object is known by its address. *)
Lemma rep_is_const l v c lc :
  vtag c = zuo_singleton_tag → const z c = Some lc → rep z h l v → l = lc ↔ v = c.
Proof.
  intros Hc Hlc Hl. split.
  - intros ->. assert (Hrc : rep z h lc c) by (by destruct c).
    destruct (rep_obj _ _ Hl) as (o & Ho & Ht), (rep_obj _ _ Hrc) as (o' & Ho' & Ht').
    assert (Hv : vtag v = zuo_singleton_tag) by congruence. clear Ho Ht Ho' Ht' o o'.
    pose proof (hv_nodup _ _ Hinv) as Hn. unfold singletons in Hn.
    repeat (apply NoDup_cons in Hn as [? Hn]).
    destruct c, v; cbn in Hc, Hv, Hlc, Hl; try done; simplify_eq; set_solver.
  - intros ->. destruct c; cbn in Hc, Hlc, Hl; try done; congruence.
Qed.

Lemma rep_sym_inj l l' id : rep z h l (Vsym id) → rep z h l' (Vsym id) → l = l'.
Proof. intros [n ?] [n' ?]. by eapply (hv_syms _ _ Hinv). Qed.

Lemma rep_is_sym l v id lk : rep z h lk (Vsym id) → rep z h l v → l = lk ↔ v = Vsym id.
Proof.
  intros Hk Hl. split; [|intros ->; by eapply rep_sym_inj].
  intros ->. destruct (rep_obj _ _ Hl) as (o & Ho & Ht), Hk as [n Hk].
  assert (Hv : vtag v = zuo_symbol_tag) by (rewrite Hk in Ho; by simplify_eq).
  destruct v; try done. destruct Hl as [n' Hl]. congruence.
Qed.

Lemma rep_done l v : rep z h l v → l = o_done_k z ↔ v = Vdone_k.
Proof.
  intros Hl. split; [|intros ->; cbn in Hl; congruence]. intros ->.
  destruct (hv_done _ _ Hinv) as (? & ? & ? & ? & Hd).
  destruct (rep_obj _ _ Hl) as (o & Ho & Ht). rewrite Hd in Ho. simplify_eq. cbn in Ht.
  destruct v; try done. destruct Hl as (Hne & ? & ? & ? & ? & Hl & _). congruence.
Qed.

(** An address stands for one tree. *)
Lemma rep_det v : ∀ l v', rep z h l v → rep z h l v' → v = v'.
Proof.
  induction v; intros l v' H H';
    destruct (rep_obj _ _ H) as (o & Ho & Ht), (rep_obj _ _ H') as (o' & Ho' & Ht');
    rewrite Ho in Ho'; injection Ho' as <-; rewrite Ht in Ht';
    try (symmetry; by apply (rep_is_const l v' _ l)).
  - by destruct v'.
  - symmetry. apply (rep_done l v' H'). cbn in H. congruence.
  - destruct v'; try done. cbn in H, H'. congruence.
  - destruct v'; try done. cbn in H, H'. congruence.
  - destruct v'; try done. destruct H as [? H], H' as [? H']. rewrite H in H'. by simplify_eq.
  - destruct v'; try done. destruct H as (? & ? & H & H1 & H2), H' as (? & ? & H' & H1' & H2').
    rewrite H in H'. simplify_eq. f_equal; eauto.
  - destruct v'; try done. destruct H as (? & ? & H & H1 & H2), H' as (? & ? & H' & H1' & H2').
    rewrite H in H'. simplify_eq. f_equal; eauto.
  - destruct v'; try done. destruct H as [? H], H' as [? H']. rewrite H in H'. by simplify_eq.
  - destruct v' as [| | | | | | | | | | | | | | | | |tag' data' env' next']; try done.
    + apply (rep_done l _ H). cbn in H'. congruence.
    + destruct H as (_ & ? & ? & ? & ? & H & H1 & H2 & H3), H' as (_ & ? & ? & ? & ? & H' & H1' & H2' & H3').
      rewrite H in H'. simplify_eq. f_equal; eauto.
Qed.

(** ** The length of a chain of pairs

    A chain is no longer than the heap is large, so [heap_fuel] is enough
    for a loop along it. *)
Lemma rep_spine l v : rep z h l v → (spine v ≤ size h)%nat.
Proof.
  intros H.
  assert (Hgen : ∃ cs, length cs = spine v ∧ NoDup cs
    ∧ ∀ c, c ∈ cs → is_Some (h !! c) ∧ ∃ w, rep z h c w ∧ (spine w ≤ spine v)%nat).
  { revert l H. induction v; intros l H; try (exists []; split; [done|split; [constructor|set_solver]]).
    pose proof H as (la & ld & Hl & _ & Hd). destruct (IHv2 ld Hd) as (cs & Hlen & Hnd & Hcs).
    exists (l :: cs). cbn. split; [by rewrite Hlen|]. split.
    - constructor; [|done]. intros Hin. destruct (Hcs l Hin) as (_ & w & Hw & Hle).
      rewrite <- (rep_det _ _ _ H Hw) in Hle. cbn in Hle. lia.
    - intros c [->|Hc]%elem_of_cons.
      + split; [by rewrite Hl|]. exists (Vpair v1 v2). split; [done|]. cbn. lia.
      + destruct (Hcs c Hc) as (? & w & ? & ?). split; [done|]. exists w. split; [done|lia]. }
  destruct Hgen as (cs & <- & Hnd & Hin).
  rewrite <- (size_list_to_set (C := gset Z)) by done.
  rewrite <- (size_dom (D := gset Z) h). apply subseteq_size.
  intros x Hx%elem_of_list_to_set. apply elem_of_dom. by apply Hin.
Qed.
End at_state.
End invariant.

#[global] Arguments reps : simpl never.

(** ** Allocation keeps the invariant *)

(** Neither a symbol nor a primitive, which have a name, nor a trie node. *)
Definition not_named (o : obj) : Prop :=
  match o with Osymbol _ _ | Oprimitive _ _ _ _ | Otrie_node _ _ _ _ => False | _ => True end.

Lemma obj_is_weaken h h' p l : h ⊆ h' → obj_is h p l = true → obj_is h' p l = true.
Proof. intros Hs. unfold obj_is. destruct (h !! l) eqn:E; [|done]. by rewrite (lookup_weaken _ _ _ _ E Hs). Qed.
Definition not_forwarded (o : obj) : Prop := ∀ f, o ≠ Oforwarded f.

Section growth.
Context (K : keywords) (T : Z → option val).
Abbreviation ok := (ok K T).
Abbreviation ext := (ext K T).

Lemma heap_inv_weaken z h h' :
  h ⊆ h' → (∀ l o, h' !! l = Some o → not_named o ∨ h !! l = Some o) →
  heap_inv K T z h → heap_inv K T z h'.
Proof.
  intros Hs Hnew [H1 H2 (? & ? & ? & ? & H3) (? & ? & ? & ? & H4) Hh H5 Hn Hp Ht Hi H6 H7 H8 H9 H10 H11].
  split; try (by eapply rep_weaken); try done.
  - eapply Forall_impl; [exact H1|]. cbn. intros l Hl. by eapply lookup_weaken.
  - do 4 eexists. by eapply lookup_weaken.
  - do 4 eexists. by eapply lookup_weaken.
  - by eapply obj_is_weaken.
  - intros l l' id n n' Hl Hl'. destruct (Hnew _ _ Hl) as [[]|Ho], (Hnew _ _ Hl') as [[]|Ho']. by eapply H5.
  - intros l id n Hl. destruct (Hnew _ _ Hl) as [[]|Ho]. destruct (Hn _ _ _ Ho) as (b & Hb & Hby). exists b. split; [by eapply lookup_weaken|done].
  - intros l d p m n Hl Hpr. destruct (Hnew _ _ Hl) as [[]|Ho]. destruct (Hp _ _ _ _ _ Ho Hpr) as (id & str & Hb).
    exists id, str. by eapply lookup_weaken.
  - intros l c k v next Hl. destruct (Hnew _ _ Hl) as [[]|Ho]. destruct (Ht _ _ _ _ _ Ho) as [Hlen HF]. split; [done|].
    eapply Forall_impl; [exact HF|]. intros n [?|?]; [by left|right; by eapply obj_is_weaken].
  - by eapply obj_is_weaken.
  - intros id v HT. destruct (H11 id v HT) as (l & Hl & Hr). exists l.
    split; [by eapply trie_get_weaken|by eapply rep_weaken].
Qed.

Lemma heap_closed_insert h roots p o :
  heap_closed h roots → h !! p = None → Forall (λ l, is_Some (h !! l)) (ptrs o) → not_forwarded o →
  heap_closed (<[p := o]> h) roots.
Proof.
  intros [H1 H2 H3] Hp Ho Hf.
  assert (Hmono : ∀ l, is_Some (h !! l) → is_Some (<[p := o]> h !! l)).
  { intros l Hl. apply lookup_insert_is_Some'. auto. }
  split.
  - eapply Forall_impl; [exact H1|]. auto.
  - intros a o' [[<- <-]|[Hne Ha]]%lookup_insert_Some; (eapply Forall_impl; [|exact Hmono]); eauto.
  - intros a f [[<- ->]|[Hne Ha]]%lookup_insert_Some; [by eapply Hf|by eapply H3].
Qed.

(** An object whose fields are live, at a new address. *)
Lemma ok_alloc s p o s' :
  ok s → allocd s p o s' → Forall (live s) (ptrs o) → not_forwarded o → not_named o →
  zuo_symbol_count s' = zuo_symbol_count s → ext s s'.
Proof.
  intros Hok Ha Ho Hf Hns Hc. destruct Ha as [Hp _ Hh Hm Hi Hr _].
  assert (Hs : s_heap s ⊆ s_heap s') by (rewrite Hh; by apply insert_subseteq).
  split; [|done|intros l [x Hx]; exists x; by eapply lookup_weaken
    |intros l a d Hl; by eapply lookup_weaken|intros l v; unfold reps; rewrite Hi; by apply rep_weaken].
  split; [done| | |].
  - rewrite Hi. eapply heap_inv_weaken; [exact Hs| |apply Hok]. intros l x Hl.
    rewrite Hh in Hl. apply lookup_insert_Some in Hl as [[_ <-]|[_ ?]]; [by left|by right].
  - rewrite Hh. unfold roots_of. rewrite Hi, Hr. apply heap_closed_insert; try done. apply Hok.
  - intros l id n Hl. rewrite Hc. rewrite Hh in Hl.
    apply lookup_insert_Some in Hl as [[_ ->]|[_ ?]]; [by destruct Hns|]. by eapply (ok_ids _ _ _ Hok).
Qed.

Lemma allocates_ext s c o :
  allocates c o → ok s → Forall (live s) (ptrs (o s)) → not_forwarded (o s) → not_named (o s) →
  ∃ p s', c s = Ok p s' ∧ ext s s' ∧ s_heap s' !! p = Some (o s) ∧ s_rt s' = s_rt s
    ∧ s_heap s !! p = None.
Proof.
  intros Hc Hok Ho Hf Hns. destruct (Hc s (ok_mem _ _ _ Hok)) as (p & s' & E & Ha & Hsc & _).
  exists p, s'. split; [done|]. split; [by eapply ok_alloc|].
  destruct Ha as [Hp _ Hh _ _ Hr _]. split; [rewrite Hh; apply lookup_insert_eq|done].
Qed.

Lemma live_reps s l v : ok s → reps s l v → live s l.
Proof. intros Hok. apply (rep_live K T). apply Hok. Qed.

Lemma zuo_cons_ext s a d va vd :
  ok s → reps s a va → reps s d vd →
  ∃ p s', zuo_cons a d s = Ok p s' ∧ ext s s' ∧ reps s' p (Vpair va vd) ∧ s_rt s' = s_rt s.
Proof.
  intros Hok Ha Hd.
  destruct (allocates_ext s _ _ (zuo_cons_ok a d) Hok) as (p & s' & E & He & Hp & Hr & _); try done.
  { repeat constructor; by eapply live_reps. }
  exists p, s'. split; [done|]. split; [done|]. split; [|done]. exists a, d. split; [done|].
  split; by apply (ext_reps _ _ _ _ He).
Qed.

(** The invariant includes that of the image roots. *)
Lemma ok_image s : ok s → image_ok s.
Proof.
  intros [Hm [H1 H2 (? & ? & ? & ? & H3) _ H4 _ _ _ _ _ [? K1] [? K2] [? K3] [? K4] [? K5] _] _ _].
  split; try done; unfold obj_is in *.
  - by rewrite H3.
  - repeat constructor; by rewrite ?K1, ?K2, ?K3, ?K4, ?K5.
Qed.

(** ** Registers *)

Lemma reps_set_rt s r l v : reps (set_s_rt r s) l v ↔ reps s l v.
Proof. by destruct s. Qed.
Lemma live_set_rt s r l : live (set_s_rt r s) l ↔ live s l.
Proof. by destruct s. Qed.

Lemma ext_set_rt s r : ok s → Forall (live s) (runtime_list r) → ext s (set_s_rt r s).
Proof.
  intros Hok Hr. split; [|by destruct s|intros l; by rewrite live_set_rt|by destruct s|intros l v; by rewrite reps_set_rt].
  destruct Hok as [H1 H2 [H3 H4 H5] H6]. destruct s. cbn in *. split; cbn; try done. split; try done.
  unfold roots_of in *. cbn in *. apply Forall_app in H3 as [? _]. by apply Forall_app.
Qed.

Lemma runtime_live s : ok s → Forall (live s) (runtime_list (s_rt s)).
Proof. intros Hok. destruct (ok_closed _ _ _ Hok) as [H _ _]. by apply Forall_app in H as [_ ?]. Qed.
Lemma image_live s : ok s → Forall (live s) (image_list (s_img s)).
Proof. intros Hok. destruct (ok_closed _ _ _ Hok) as [H _ _]. by apply Forall_app in H as [? _]. Qed.
End growth.

(** A register is set to a live address. *)
Ltac reg_live := 
  match goal with
  | Hok : ok ?K ?T ?s |- Forall (live ?s) (runtime_list _) =>
      let H := fresh in pose proof (runtime_live K T s Hok) as H; revert H;
      destruct (s_rt s); cbn; intros H; rewrite !Forall_cons in H |- *; tauto
  end.

(** ** Collection keeps the invariant *)

Section iso.
Context (f : loc → loc) (h : gmap Z obj) (roots : list loc) (h' : gmap Z obj) (roots' : list loc).
Context (Hiso : heap_iso f h roots h' roots').
Context (z z' : image).
Context (Hz : image_list z' = f <$> image_list z) (Hzr : ∀ l, l ∈ image_list z → l ∈ roots).

Lemma image_field_iso (p : image → loc) (i : nat) :
  (∀ x, image_list x !! i = Some (p x)) → p z' = f (p z) ∧ reach h roots (p z).
Proof.
  intros Hp. pose proof (Hp z') as H. rewrite Hz, list_lookup_fmap, (Hp z) in H. cbn in H.
  simplify_eq. split; [done|]. apply reach_root, Hzr. by eapply list_elem_of_lookup_2.
Qed.

Lemma const_iso v lc : const z v = Some lc → const z' v = Some (f lc) ∧ reach h roots lc.
Proof.
  destruct v; cbn; try done; intros [= <-].
  - by destruct (image_field_iso o_null 3) as [-> ?]; [by intros []|].
  - by destruct (image_field_iso o_true 1) as [-> ?]; [by intros []|].
  - by destruct (image_field_iso o_false 2) as [-> ?]; [by intros []|].
  - by destruct (image_field_iso o_eof 4) as [-> ?]; [by intros []|].
  - by destruct (image_field_iso o_void 5) as [-> ?]; [by intros []|].
  - by destruct (image_field_iso o_apply 8) as [-> ?]; [by intros []|].
  - by destruct (image_field_iso o_call_cc 9) as [-> ?]; [by intros []|].
  - by destruct (image_field_iso o_call_prompt 10) as [-> ?]; [by intros []|].
  - by destruct (image_field_iso o_kernel_eval 11) as [-> ?]; [by intros []|].
  - by destruct (image_field_iso o_top_env 17) as [-> ?]; [by intros []|].
  - by destruct (image_field_iso o_done_k 7) as [-> ?]; [by intros []|].
Qed.

Lemma copy_at l o : reach h roots l → h !! l = Some o → h' !! f l = Some (map_obj f o).
Proof. apply Hiso. Qed.
Lemma reach_ptr l o p : reach h roots l → h !! l = Some o → p ∈ ptrs o → reach h roots p.
Proof. apply reach_step. Qed.

(** The first pointers of an object. *)
Lemma reach_fst l o p ps : reach h roots l → h !! l = Some o → ptrs o = p :: ps → reach h roots p.
Proof. intros Hl Ho E. eapply reach_ptr; [exact Hl|exact Ho|]. rewrite E. apply list_elem_of_here. Qed.
Lemma reach_snd l o p q ps : reach h roots l → h !! l = Some o → ptrs o = q :: p :: ps → reach h roots p.
Proof. intros Hl Ho E. eapply reach_ptr; [exact Hl|exact Ho|]. rewrite E. apply list_elem_of_further, list_elem_of_here. Qed.

Lemma rep_iso l v : reach h roots l → rep z h l v → rep z' h' (f l) v.
Proof.
  revert l. induction v; intros l Hl; cbn [rep]; try (intros H; by apply const_iso in H as [? _]).
  - by apply (copy_at l (Ointeger i)).
  - by apply (copy_at l (Ostring b)).
  - intros [str H]. exists (f str). by apply (copy_at l (Osymbol id str)).
  - intros (la & ld & H & H1 & H2). exists (f la), (f ld). split; [by apply (copy_at l (Opair la ld))|].
    split; [apply IHv1|apply IHv2]; try done; (eapply reach_ptr; [exact Hl|exact H|cbn; set_solver]).
  - intros (la & ld & H & H1 & H2). exists (f la), (f ld). split; [by apply (copy_at l (Oclosure la ld))|].
    split; [apply IHv1|apply IHv2]; try done; (eapply reach_ptr; [exact Hl|exact H|cbn; set_solver]).
  - intros [n H]. exists (f n). by apply (copy_at l (Oprimitive _ _ _ n)).
  - intros (Ht & ld & le & lp & ln & H & H1 & H2 & H3). split; [done|]. exists (f ld), (f le), (f lp), (f ln).
    split; [by apply (copy_at l (Ocont tag ld le lp ln))|].
    split; [|split]; [apply IHv1|apply IHv2|apply IHv3]; try done;
      (eapply reach_ptr; [exact Hl|exact H|cbn; set_solver]).
Qed.

Lemma trie_get_iso fuel u t id v :
  reach h roots u → reach h roots t → trie_get fuel u h t id = Some v →
  trie_get fuel (f u) h' (f t) id = Some (f v) ∧ reach h roots v.
Proof.
  intros Hu. revert t id. induction fuel as [|fuel IH]; intros t id Ht H; cbn in H |- *;
    destruct (h !! t) as [o|] eqn:Ho; try done; rewrite (copy_at t o Ht Ho);
    destruct o as [| | | | |c k w next| | | | | | |]; try done; cbn.
  - destruct (0 <? id); [done|]. case_decide; simplify_eq.
    assert (Hw : reach h roots v) by (eapply reach_ptr; [exact Ht|exact Ho|cbn; set_solver]).
    rewrite decide_False; [done|]. intros E. by apply (hi_inj _ _ _ _ _ Hiso) in E.
  - destruct (0 <? id).
    + destruct (next !! _) as [n|] eqn:Hn; [|done]. cbn in H.
      rewrite list_lookup_fmap, Hn. cbn. case_decide; [done|].
      assert (Hr : reach h roots n).
      { eapply reach_ptr; [exact Ht|exact Ho|]. cbn. apply list_elem_of_lookup_2 in Hn. set_solver. }
      rewrite decide_False; [by apply IH|]. intros E. by apply (hi_inj _ _ _ _ _ Hiso) in E.
    + case_decide; simplify_eq.
      assert (Hw : reach h roots v) by (eapply reach_ptr; [exact Ht|exact Ho|cbn; set_solver]).
      rewrite decide_False; [done|]. intros E. by apply (hi_inj _ _ _ _ _ Hiso) in E.
Qed.

Lemma singletons_iso : singletons z' = f <$> singletons z ∧ ∀ l, l ∈ singletons z → reach h roots l.
Proof.
  split.
  - unfold singletons. destruct z, z'. cbn in *. by injection Hz as -> -> -> -> -> -> -> -> -> -> -> ->.
  - intros l Hl. apply reach_root, Hzr. unfold singletons in Hl. destruct z. cbn in *. set_solver.
Qed.

Lemma trie_iso l : reach h roots l → obj_is h is_trie l = true → obj_is h' is_trie (f l) = true.
Proof.
  intros Hr. unfold obj_is. destruct (h !! l) as [o|] eqn:E; [|done]. rewrite (copy_at _ _ Hr E).
  destruct o; try done. cbn. by rewrite length_fmap.
Qed.

Lemma heap_inv_iso K T : heap_closed h roots → heap_inv K T z h → heap_inv K T z' h'.
Proof.
  intros Hc [H1 H2 (? & ? & ? & ? & H3) (? & ? & ? & ? & H4) Hh H5 Hn Hp Htr Hit H6 H7 H8 H9 H10 H11].
  destruct singletons_iso as [Es Hs].
  destruct (const_iso Vdone_k _ eq_refl) as [[= Ed] Hd].
  destruct (const_iso Vtop_env _ eq_refl) as [[= Et] Ht].
  destruct (image_field_iso o_undefined 0) as [Eu Hu]; [by intros []|].
  split.
  - rewrite Es. apply Forall_fmap, Forall_forall. intros l Hl. rewrite Forall_forall in H1.
    apply (copy_at l Osingleton); auto.
  - rewrite Es. apply NoDup_fmap_2_strong; [|done]. intros l l' Hl Hl'. apply (hi_inj _ _ _ _ _ Hiso); auto.
  - rewrite Ed. do 4 eexists. exact (copy_at _ _ Hd H3).
  - rewrite Et. do 4 eexists. exact (copy_at _ _ Ht H4).
  - destruct (image_field_iso o_empty_hash 6) as [-> Hr]; [by intros []|]. by apply trie_iso.
  - intros l l' id n n' Hl Hl'.
    destruct (hi_only _ _ _ _ _ Hiso l) as (a & Ha & ->); [eauto|].
    destruct (hi_only _ _ _ _ _ Hiso l') as (b & Hb & ->); [eauto|].
    destruct (heap_closed_reach _ _ _ Hc Ha) as [oa Hoa], (heap_closed_reach _ _ _ Hc Hb) as [ob Hob].
    rewrite (copy_at _ _ Ha Hoa) in Hl. rewrite (copy_at _ _ Hb Hob) in Hl'.
    destruct oa; try done. destruct ob; try done. cbn in Hl, Hl'. simplify_eq. by rewrite (H5 _ _ _ _ _ Hoa Hob).
  - intros l id n Hl. destruct (hi_only _ _ _ _ _ Hiso l) as (a & Ha & ->); [eauto|].
    destruct (heap_closed_reach _ _ _ Hc Ha) as [oa Hoa]. rewrite (copy_at _ _ Ha Hoa) in Hl.
    destruct oa; try done. cbn in Hl. simplify_eq. destruct (Hn _ _ _ Hoa) as (b & Hb & Hby). exists b.
    split; [|done]. apply (copy_at _ (Ostring b)); [|done]. exact (reach_fst _ _ _ _ Ha Hoa eq_refl).
  - intros l d p m n Hl Hpr. destruct (hi_only _ _ _ _ _ Hiso l) as (a & Ha & ->); [eauto|].
    destruct (heap_closed_reach _ _ _ Hc Ha) as [oa Hoa]. rewrite (copy_at _ _ Ha Hoa) in Hl.
    destruct oa; try done. cbn in Hl. simplify_eq. destruct (Hp _ _ _ _ _ Hoa Hpr) as (id & str & Hb). exists id, (f str).
    apply (copy_at _ (Osymbol id str)); [|done]. exact (reach_fst _ _ _ _ Ha Hoa eq_refl).
  - intros l c k v next Hl. destruct (hi_only _ _ _ _ _ Hiso l) as (a & Ha & ->); [eauto|].
    destruct (heap_closed_reach _ _ _ Hc Ha) as [oa Hoa]. rewrite (copy_at _ _ Ha Hoa) in Hl.
    destruct oa as [| | | | |c' k' v' next'| | | | | | |]; try done. cbn in Hl. simplify_eq. destruct (Htr _ _ _ _ _ Hoa) as [Hlen HF].
    rewrite length_fmap. split; [done|]. apply Forall_fmap, Forall_forall. intros n Hn'. rewrite Forall_forall in HF.
    destruct (HF n Hn') as [->|Hnt]; [left; done|right]. apply trie_iso; [|done].
    eapply reach_ptr; [exact Ha|exact Hoa|]. by apply list_elem_of_further, list_elem_of_further.
  - destruct (image_field_iso o_intern_table 16) as [-> Hr]; [by intros []|]. by apply trie_iso.
  - destruct (image_field_iso o_quote_symbol 19) as [-> ?]; [by intros []|]. by apply rep_iso.
  - destruct (image_field_iso o_lambda_symbol 20) as [-> ?]; [by intros []|]. by apply rep_iso.
  - destruct (image_field_iso o_let_symbol 21) as [-> ?]; [by intros []|]. by apply rep_iso.
  - destruct (image_field_iso o_begin_symbol 22) as [-> ?]; [by intros []|]. by apply rep_iso.
  - destruct (image_field_iso o_if_symbol 23) as [-> ?]; [by intros []|]. by apply rep_iso.
  - intros id v HT. destruct (H11 id v HT) as (l & Hl & Hr).
    destruct (trie_get_iso _ _ _ _ _ Hu Ht Hl) as [Hl' Hrl]. exists (f l). rewrite Eu, Et.
    split; [done|]. by apply rep_iso.
Qed.
End iso.

(** A possible collection: the registers and the image are renamed together,
    and every tree that a register reaches is still there. *)
Lemma check_collect_ok K T s :
  ok K T s →
  ∃ s' f, zuo_check_collect s = Ok tt s' ∧ ok K T s'
    ∧ runtime_list (s_rt s') = f <$> runtime_list (s_rt s)
    ∧ image_list (s_img s') = f <$> image_list (s_img s)
    ∧ (∀ l a d, reach (s_heap s) (roots_of s) l → s_heap s !! l = Some (Opair a d) →
         s_heap s' !! f l = Some (Opair (f a) (f d)))
    ∧ ∀ l v, reach (s_heap s) (roots_of s) l → reps s l v → reps s' (f l) v.
Proof.
  intros Hok. unfold zuo_check_collect.
  rewrite (bind_ok (gm total_allocation) _ _ _ _ eq_refl), (bind_ok (gm gc_threshold) _ _ _ _ eq_refl).
  destruct (gc_threshold (s_mem s) <=? total_allocation (s_mem s)).
  2:{ exists s, id. rewrite !list_fmap_id. done. }
  destruct (collect_ok s (ok_mem _ _ _ Hok) (ok_closed _ _ _ Hok))
    as (s' & f & E & Hiso & Hm & Hc & _ & Hsc & _). exists s', f. split; [done|].
  pose proof (hi_roots _ _ _ _ _ Hiso) as Hr. unfold roots_of in Hr. rewrite fmap_app in Hr.
  apply app_inj_1 in Hr as [Ei Er]; [|by rewrite length_fmap, !image_list_length].
  assert (Hzr : ∀ l, l ∈ image_list (s_img s) → l ∈ roots_of s) by (unfold roots_of; set_solver).
  split; [|split; [done|split; [done|split]]].
  - split; [done| |done|].
    + eapply heap_inv_iso; try done; apply Hok.
    + intros l id n Hl. rewrite Hsc.
      destruct (hi_only _ _ _ _ _ Hiso l) as (a & Ha & ->); [eauto|].
      destruct (heap_closed_reach _ _ _ (ok_closed _ _ _ Hok) Ha) as [oa Hoa].
      rewrite (hi_copy _ _ _ _ _ Hiso _ _ Ha Hoa) in Hl. destruct oa; try done. cbn in Hl. simplify_eq.
      by eapply (ok_ids _ _ _ Hok).
  - intros l a d Hl Hp. exact (hi_copy _ _ _ _ _ Hiso _ _ Hl Hp).
  - intros l v Hl. by apply (rep_iso f _ _ _ _ Hiso _ _ Ei Hzr).
Qed.
