(* ===== verification/Intern.v ===== *)
(** * Symbols and the intern table

    [zuo_symbol_from_string] and its relatives.  The intern table is a trie
    that is mutated in place and that leads from the two nibbles of each byte
    of a name, low nibble first, to the symbol with that name. *)

From S2P Require Import Prelude Sys Heap Alloc Objects Trie.

(** ** Definitions *)

(** The walk along the bytes of the name.  The result is the node it reaches,
    or the value of the early [return z.o_false]. *)
Fixpoint intern_walk (str : list Z) (node str_obj : loc) : M (loc + loc) :=
  match str with
  | [] => ret (inr node)
  | c :: str' =>
      if c =? 0 then ret (inr node) else
      let lo := Z.land c ZUO_TRIE_BFACTOR_MASK in
      let hi := Z.shiftr c ZUO_TRIE_BFACTOR_BITS in
      n <- trie_next node lo ;;
      absent <- is_zi o_undefined n ;;
      look <- is_zi o_false str_obj ;;
      if absent && look then f <- zi o_false ;; ret (inl f)
      else
        (if absent then (q <- zuo_trie_node ;; set_trie_next node lo q) else ret tt) ;;;
        node <- trie_next node lo ;;
        n <- trie_next node hi ;;
        absent <- is_zi o_undefined n ;;
        (if absent then (q <- zuo_trie_node ;; set_trie_next node hi q) else ret tt) ;;;
        node <- trie_next node hi ;;
        intern_walk str' node str_obj
  end.

(** What happens at the node for the whole name. *)
Definition intern_at (in_str : list Z) (node str_obj : loc) : M loc :=
  v <- trie_val node ;;
  absent <- is_zi o_undefined v ;;
  if absent then
    look <- is_zi o_false str_obj ;;
    if look then zi o_false
    else
      fresh <- is_zi o_undefined str_obj ;;
      sym <- (if fresh then zuo_make_symbol in_str else zuo_make_symbol_from_string str_obj) ;;
      set_trie_val node sym ;;;
      trie_val node
  else ret v.

Definition zuo_symbol_from_string (in_str : list Z) (str_obj : loc) : M loc :=
  t <- zi o_intern_table ;;
  r <- intern_walk in_str t str_obj ;;
  match r with
  | inl f => ret f
  | inr node => intern_at in_str node str_obj
  end.

Definition zuo_symbol (in_str : list Z) : M loc :=
  u <- zi o_undefined ;; zuo_symbol_from_string in_str u.
