(* ===== verification/Sort.v ===== *)
(** * Sorting lists of symbols

    The merge sort that makes the order of hash keys deterministic. *)

From Stdlib Require Import Sorted.
From S2P Require Import Prelude Sys Heap Alloc Objects Trie Lists.

(** ** Definitions *)

(** [for (l = l_in, len = 0; l != z.o_null; l = _zuo_cdr(l)) len++;] *)
Fixpoint list_len_loop (fuel : nat) (l : loc) (len : Z) : M Z :=
  match fuel with
  | O => λ _, Diverge
  | S fuel' =>
      b <- is_zi o_null l ;;
      if b then ret len else d <- ZUO_CDR l ;; list_len_loop fuel' d (len + 1)
  end.

(** The first [i] elements of [l], reversed, and the rest of [l]. *)
Fixpoint split_loop (i : nat) (l left : loc) : M (loc * loc) :=
  match i with
  | O => ret (left, l)
  | S i' =>
      a <- ZUO_CAR l ;;
      left <- zuo_cons a left ;;
      d <- ZUO_CDR l ;;
      split_loop i' d left
  end.

(** The bytes of the name of the symbol at the head of [l]. *)
Definition first_symbol_name (l : loc) : M (list Z) :=
  a <- ZUO_CAR l ;; str <- symbol_str a ;; ZUO_STRING_PTR str.

(** [while ((left != z.o_null) && (right != z.o_null))]: the result is
    [first], [last], [left] and [right]. *)
Fixpoint merge_loop (fuel : nat) (left right first last : loc) : M (loc * loc * loc * loc) :=
  match fuel with
  | O => λ _, Diverge
  | S fuel' =>
      bl <- is_zi o_null left ;;
      br <- is_zi o_null right ;;
      if bl || br then ret (first, last, left, right)
      else
        nl <- first_symbol_name left ;;
        nr <- first_symbol_name right ;;
        let from_left := match strcmp nl nr with Gt => false | _ => true end in
        a <- ZUO_CAR (if from_left then left else right) ;;
        null <- zi o_null ;;
        p <- zuo_cons a null ;;
        d <- ZUO_CDR (if from_left then left else right) ;;
        b <- is_zi o_null first ;;
        (if b then ret tt else set_ZUO_CDR last p) ;;;
        merge_loop fuel' (if from_left then d else left) (if from_left then right else d)
          (if b then p else first) p
  end.

(** [fuel] bounds the depth of the recursion, which halves the length. *)
Fixpoint zuo_symbol_list_sort (fuel : nat) (l_in : loc) : M loc :=
  match fuel with
  | O => λ _, Diverge
  | S fuel' =>
      s <- get_st ;;
      len <- list_len_loop (heap_fuel s) l_in 0 ;;
      if len <? 2 then ret l_in
      else
        null <- zi o_null ;;
        r <- split_loop (Z.to_nat (Z.shiftr len 1)) l_in null ;;
        left <- zuo_symbol_list_sort fuel' (fst r) ;;
        right <- zuo_symbol_list_sort fuel' (snd r) ;;
        s <- get_st ;;
        r <- merge_loop (heap_fuel s) left right null null ;;
        let '(first, last, left_rest, right_rest) := r in
        b <- is_zi o_null left_rest ;;
        set_ZUO_CDR last (if b then right_rest else left_rest) ;;;
        ret first
  end.

(** The recursion is no deeper than the list is long. *)
Definition zuo_trie_sorted_keys (trie_in accum : loc) : M loc :=
  ks <- zuo_trie_keys trie_depth trie_in accum ;;
  s <- get_st ;;
  zuo_symbol_list_sort (heap_fuel s) ks.

(** ** The functions the loops compute *)

(** The symbol at [k] is named [b]. *)
Definition named (h : gmap Z obj) (k : loc) (b : list Z) : Prop :=
  ∃ id str, h !! k = Some (Osymbol id str) ∧ h !! str = Some (Ostring b).

Lemma named_weaken h h' k b : h ⊆ h' → named h k b → named h' k b.
Proof.
  intros Hs (id & str & Hk & Hb). exists id, str.
  split; by eapply lookup_weaken.
Qed.

Section spec.
Variable nm : loc → list Z.

(** [a] is not after [b]. *)
Definition name_leb (a b : loc) : bool :=
  match strcmp (nm a) (nm b) with Gt => false | _ => true end.

Fixpoint smerge (xs : list loc) : list loc → list loc :=
  fix go ys :=
    match xs, ys with
    | [], _ => ys
    | _, [] => xs
    | x :: xs', y :: ys' => if name_leb x y then x :: smerge xs' ys else y :: go ys'
    end.

Fixpoint ssort (fuel : nat) (vs : list loc) : list loc :=
  match fuel with
  | O => vs
  | S fuel' =>
      if (length vs <? 2)%nat then vs
      else
        let n := Nat.div2 (length vs) in
        smerge (ssort fuel' (rev (take n vs))) (ssort fuel' (drop n vs))
  end.

Lemma smerge_nil_r xs : smerge xs [] = xs.
Proof. by destruct xs. Qed.

Lemma smerge_cons x xs y ys :
  smerge (x :: xs) (y :: ys)
  = if name_leb x y then x :: smerge xs (y :: ys) else y :: smerge (x :: xs) ys.
Proof. done. Qed.

Lemma smerge_perm xs ys : smerge xs ys ≡ₚ xs ++ ys.
Proof.
  revert ys. induction xs as [|x xs IH]; [by destruct ys|].
  induction ys as [|y ys IHy]; [by rewrite app_nil_r|]. rewrite smerge_cons.
  destruct (name_leb x y); [by rewrite (IH (y :: ys))|].
  rewrite IHy. by rewrite <- Permutation_middle.
Qed.

Lemma ssort_perm fuel vs : ssort fuel vs ≡ₚ vs.
Proof.
  revert vs. induction fuel as [|fuel IH]; intros vs; [done|]. cbn [ssort].
  destruct (length vs <? 2)%nat; [done|]. rewrite smerge_perm, !IH.
  rewrite (Permutation_rev (take _ vs)) at 1. rewrite rev_involutive. by rewrite take_drop.
Qed.

Definition name_le (a b : loc) : Prop := strcmp (nm a) (nm b) ≠ Gt.

Lemma name_leb_true a b : name_leb a b = true → name_le a b.
Proof. unfold name_leb, name_le. by destruct (strcmp (nm a) (nm b)). Qed.
Lemma name_leb_false a b : name_leb a b = false → name_le b a.
Proof.
  unfold name_leb, name_le. unfold strcmp at 2. rewrite strcmp_bytes_antisym.
  fold (strcmp (nm a) (nm b)). by destruct (strcmp (nm a) (nm b)).
Qed.
Lemma name_le_trans a b c : name_le a b → name_le b c → name_le a c.
Proof. unfold name_le, strcmp. apply strcmp_bytes_trans. Qed.

(** Sorted in the strong sense: every element is before all later ones. *)
Lemma smerge_sorted xs ys :
  StronglySorted name_le xs → StronglySorted name_le ys → StronglySorted name_le (smerge xs ys).
Proof.
  revert ys. induction xs as [|x xs IH]; [by destruct ys|].
  induction ys as [|y ys IHy]; [done|]. intros Hx Hy. rewrite smerge_cons.
  pose proof Hx as [Hxs Hxa]%StronglySorted_inv. pose proof Hy as [Hys Hya]%StronglySorted_inv.
  destruct (name_leb x y) eqn:E.
  - apply SSorted_cons; [by apply IH|]. rewrite smerge_perm. apply Forall_app. split; [done|].
    apply name_leb_true in E. constructor; [done|].
    eapply Forall_impl; [exact Hya|]. intros w Hw. by eapply name_le_trans.
  - apply SSorted_cons; [by apply IHy|]. rewrite smerge_perm. apply name_leb_false in E.
    apply Forall_app. split; [|done]. constructor; [done|].
    eapply Forall_impl; [exact Hxa|]. intros w Hw. by eapply name_le_trans.
Qed.

Lemma ssort_sorted fuel vs : (length vs ≤ fuel)%nat → StronglySorted name_le (ssort fuel vs).
Proof.
  revert vs. induction fuel as [|fuel IH]; intros vs Hf.
  { destruct vs; [|cbn in Hf; lia]. constructor. }
  cbn [ssort]. destruct (Nat.ltb_spec (length vs) 2) as [Hl|Hl].
  { destruct vs as [|v [|w vs]]; cbn in Hl; try lia; repeat constructor. }
  assert (Nat.div2 (length vs) < length vs)%nat by (apply Nat.lt_div2; lia).
  assert (0 < Nat.div2 (length vs))%nat by (destruct vs as [|v [|w vs]]; cbn [length] in Hl; [lia|lia|cbn; apply Nat.lt_0_succ]).
  apply smerge_sorted; apply IH; rewrite ?length_rev, ?length_take, ?length_drop; lia.
Qed.
End spec.

(** ** The loops compute them *)

Lemma list_len_loop_ok nl s fuel l vs n :
  list_pre nl s → is_list (s_heap s) nl l vs → (length vs < fuel)%nat →
  list_len_loop fuel l n s = Ok (n + Z.of_nat (length vs)) s.
Proof.
  intros Hpre. revert l vs n. induction fuel as [|fuel IH]; intros l vs n Hl Hf; [lia|].
  cbn [list_len_loop]. run_step (is_null_ok nl s l Hpre).
  destruct vs as [|v vs]; cbn in Hl.
  - subst l. rewrite bool_decide_true by done. cbn. f_equal. lia.
  - destruct Hl as (d & Hne & Hc & Hd). rewrite bool_decide_false by done.
    run_step (ZUO_CDR_ok _ _ _ _ Hc). rewrite (IH d vs); [|done|cbn in Hf; lia].
    f_equal. cbn. lia.
Qed.

Lemma split_loop_ok nl i : ∀ s l vs left ls,
  list_pre nl s → is_list (s_heap s) nl l vs → is_list (s_heap s) nl left ls → (i ≤ length vs)%nat →
  ∃ left' l' s' hn, split_loop i l left s = Ok (left', l') s' ∧ grows s s' hn
    ∧ is_list (s_heap s') nl left' (rev (take i vs) ++ ls) ∧ is_list (s_heap s') nl l' (drop i vs).
Proof.
  induction i as [|i IH]; intros s l vs left ls Hpre Hl Hls Hi; cbn [split_loop].
  { exists left, l, s, ∅. split; [done|]. split; [apply grows_refl, Hpre|done]. }
  destruct vs as [|v vs]; [cbn in Hi; lia|]. destruct Hl as (d & Hne & Hc & Hd).
  run_step (ZUO_CAR_ok _ _ _ _ Hc).
  destruct (zuo_cons_list nl s v left ls Hpre Hls) as (p & s1 & E1 & Hg1 & Hp).
  run_step E1. run_step (ZUO_CDR_ok _ _ _ _ (grows_lookup _ _ _ _ _ Hg1 Hc)).
  destruct (IH s1 d vs p (v :: ls)) as (left' & l' & s' & hn & E & Hg & Hl1 & Hl2);
    [by eapply list_pre_grows|by eapply is_list_grows|done|cbn in Hi; lia|].
  exists left', l', s', (hn ∪ {[p := Opair v left]}). split; [done|].
  split; [by eapply grows_trans|]. cbn. by rewrite <- app_assoc.
Qed.

Lemma first_symbol_name_ok s l k d b :
  s_heap s !! l = Some (Opair k d) → named (s_heap s) k b → first_symbol_name l s = Ok b s.
Proof.
  intros Hl (id & str & Hk & Hb). unfold first_symbol_name.
  run_step (ZUO_CAR_ok _ _ _ _ Hl). run_step (symbol_str_ok _ _ _ _ Hk).
  by apply ZUO_STRING_PTR_ok.
Qed.

Section refinement.
Variables (nl : loc) (nm : loc → list Z).

(** The names of all the elements are in the heap. *)
Definition all_named (h : gmap Z obj) (vs : list loc) : Prop := ∀ k, k ∈ vs → named h k (nm k).

Lemma all_named_grows s s' hn vs :
  grows s s' hn → all_named (s_heap s) vs → all_named (s_heap s') vs.
Proof. intros Hg H k Hk. eapply named_weaken; [by eapply grows_subseteq|auto]. Qed.

(** The part of the list that is merged, and the two rests, one of them
    empty, make up the merge. *)
Lemma merge_loop_ok s0 fuel : ∀ left right first last s hn cs ws xs ys,
  list_pre nl s0 → grows s0 s hn → seg nl hn cs first last ws →
  is_list (s_heap s0) nl left xs → is_list (s_heap s0) nl right ys →
  all_named (s_heap s0) xs → all_named (s_heap s0) ys → (length xs + length ys < fuel)%nat →
  ∃ first' last' left' right' s' hn' cs' ws' xs' ys',
    merge_loop fuel left right first last s = Ok (first', last', left', right') s'
    ∧ grows s0 s' hn' ∧ seg nl hn' cs' first' last' ws'
    ∧ is_list (s_heap s0) nl left' xs' ∧ is_list (s_heap s0) nl right' ys'
    ∧ (xs' = [] ∨ ys' = []) ∧ ws' ++ xs' ++ ys' = ws ++ smerge nm xs ys
    ∧ (length ws ≤ length ws')%nat ∧ (xs ≠ [] → ys ≠ [] → ws' ≠ []).
Proof.
  induction fuel as [|fuel IH]; intros left right first last s hn cs ws xs ys Hpre0 Hg Hseg Hl Hr Hnl Hnr Hf;
    [lia|]. cbn [merge_loop]. pose proof (list_pre_grows _ _ _ _ Hpre0 Hg) as Hpre.
  run_step (is_null_ok nl s left Hpre). run_step (is_null_ok nl s right Hpre).
  destruct xs as [|x xs].
  { cbn in Hl. subst left. rewrite bool_decide_true by done. cbn [orb].
    exists first, last, nl, right, s, hn, cs, ws, [], ys. do 5 (split; [done|]). split; [by auto|].
    split; [by destruct ys|]. split; [lia|done]. }
  destruct ys as [|y ys].
  { cbn in Hr. subst right. rewrite (bool_decide_true (nl = nl)) by done. rewrite orb_true_r.
    exists first, last, left, nl, s, hn, cs, ws, (x :: xs), []. do 5 (split; [done|]). split; [by auto|].
    split; [by rewrite app_nil_r|]. split; [lia|done]. }
  destruct Hl as (dl & Hlne & Hlc & Hld). destruct Hr as (dr & Hrne & Hrc & Hrd).
  rewrite !bool_decide_false by done. cbn [orb].
  pose proof (grows_lookup _ _ _ _ _ Hg Hlc) as Hlc'. pose proof (grows_lookup _ _ _ _ _ Hg Hrc) as Hrc'.
  assert (Nx : named (s_heap s) x (nm x)) by (eapply (all_named_grows _ _ _ _ Hg Hnl); set_solver).
  assert (Ny : named (s_heap s) y (nm y)) by (eapply (all_named_grows _ _ _ _ Hg Hnr); set_solver).
  run_step (first_symbol_name_ok _ _ _ _ _ Hlc' Nx). run_step (first_symbol_name_ok _ _ _ _ _ Hrc' Ny).
  change (match strcmp (nm x) (nm y) with Gt => false | _ => true end) with (name_leb nm x y).
  rewrite smerge_cons. cbn zeta.
  set (fl := name_leb nm x y).
  set (c := if fl then left else right). set (e := if fl then x else y). set (d := if fl then dl else dr).
  assert (Hc : s_heap s !! c = Some (Opair e d)) by (unfold c, e, d; by destruct fl).
  run_step (ZUO_CAR_ok _ _ _ _ Hc).
  rewrite (bind_ok (zi o_null) _ s nl s) by (unfold zi; by rewrite <- (lp_nl _ _ Hpre)).
  destruct (zuo_cons_grows nl s e nl Hpre) as (p & s1 & E1 & Hp & Hpnl & Hg1). run_step E1.
  pose proof (list_pre_grows _ _ _ _ Hpre Hg1) as Hpre1.
  run_step (ZUO_CDR_ok _ _ _ _ (grows_lookup _ _ _ _ _ Hg1 Hc)).
  run_step (is_null_ok nl s1 first Hpre1).
  destruct (seg_link s0 s hn nl cs first last ws e p s1 Hg Hseg Hp Hg1 Hpnl)
    as (s2 & hn2 & E2 & Hg2 & Hseg2 & _).
  run_step E2.
  assert (Hnd : all_named (s_heap s0) xs ∧ all_named (s_heap s0) ys)
    by (split; intros k Hk; [apply Hnl|apply Hnr]; set_solver).
  destruct Hnd as [Hnxs Hnys].
  destruct (IH (if fl then d else left) (if fl then right else d)
    (if bool_decide (first = nl) then p else first) p s2 hn2 (cs ++ [p]) (ws ++ [e])
    (if fl then xs else x :: xs) (if fl then y :: ys else ys) Hpre0 Hg2 Hseg2)
    as (f' & l' & le' & ri' & s' & hn' & cs' & ws' & xs' & ys' & E & Hg' & Hseg' & Hl' & Hr' & Hor & Heq & Hlen & _).
  { unfold d. destruct fl; [done|]. cbn. eauto. }
  { unfold d. destruct fl; [|done]. cbn. eauto. }
  { destruct fl; [done|]. exact Hnl. }
  { destruct fl; [|done]. exact Hnr. }
  { destruct fl; cbn in *; lia. }
  exists f', l', le', ri', s', hn', cs', ws', xs', ys'. split; [exact E|].
  repeat (split; [done|]). split.
  - rewrite Heq, <- app_assoc. f_equal. unfold e. by destruct fl.
  - rewrite length_app in Hlen. cbn in Hlen. split; [lia|]. intros _ _ ->. cbn in Hlen. lia.
Qed.

Lemma zuo_symbol_list_sort_ok fuel : ∀ s l vs,
  list_pre nl s → is_list (s_heap s) nl l vs → all_named (s_heap s) vs → (length vs < fuel)%nat →
  ∃ l' s' hn, zuo_symbol_list_sort fuel l s = Ok l' s' ∧ grows s s' hn
    ∧ is_list (s_heap s') nl l' (ssort nm fuel vs).
Proof.
  induction fuel as [|fuel IH]; intros s l vs Hpre Hl Hn Hf; [lia|]. cbn [zuo_symbol_list_sort ssort].
  rewrite (bind_ok get_st _ s s s eq_refl).
  run_step (list_len_loop_ok nl s _ l vs 0 Hpre Hl (is_list_heap_fuel _ _ _ _ Hl)).
  destruct (Nat.ltb_spec (length vs) 2) as [Hlt|Hge].
  { rewrite (proj2 (Z.ltb_lt _ _)) by lia. exists l, s, ∅.
    split; [done|]. split; [apply grows_refl, Hpre|done]. }
  rewrite (proj2 (Z.ltb_ge _ _)) by lia.
  assert (Hz : ∀ s', list_pre nl s' → zi o_null s' = Ok nl s')
    by (intros s' Hp; unfold zi; by rewrite <- (lp_nl _ _ Hp)).
  run_step (Hz s Hpre).
  assert (En : Z.to_nat (Z.shiftr (0 + Z.of_nat (length vs)) 1) = Nat.div2 (length vs)).
  { rewrite Z.shiftr_div_pow2, Nat.div2_div by lia. change (2 ^ 1) with 2.
    apply Nat2Z.inj. rewrite Z2Nat.id, Nat2Z.inj_div by (apply Z.div_pos; lia). done. }
  rewrite En. set (n := Nat.div2 (length vs)) in *.
  assert (Hn1 : (0 < n < length vs)%nat).
  { split; [|apply Nat.lt_div2; lia]. unfold n.
    destruct vs as [|v [|w vs']]; cbn [length] in Hge; [lia|lia|cbn; apply Nat.lt_0_succ]. }
  destruct (split_loop_ok nl n s l vs nl [] Hpre Hl eq_refl) as (le & ri & s1 & hn1 & E1 & Hg1 & Hle & Hri);
    [lia|]. rewrite app_nil_r in Hle. run_step E1. cbn [fst snd].
  pose proof (list_pre_grows _ _ _ _ Hpre Hg1) as Hpre1.
  assert (Hnl : all_named (s_heap s1) (rev (take n vs))).
  { intros k Hk. apply (all_named_grows _ _ _ _ Hg1 Hn). rewrite <- (take_drop n vs).
    apply elem_of_app. left. rewrite list_elem_of_In in *. by apply in_rev. }
  assert (Hnr : all_named (s_heap s1) (drop n vs)).
  { intros k Hk. apply (all_named_grows _ _ _ _ Hg1 Hn). rewrite <- (take_drop n vs).
    apply elem_of_app. by right. }
  destruct (IH s1 le (rev (take n vs)) Hpre1 Hle Hnl) as (le' & s2 & hn2 & E2 & Hg2 & Hle');
    [rewrite length_rev, length_take; lia|]. run_step E2.
  pose proof (list_pre_grows _ _ _ _ Hpre1 Hg2) as Hpre2.
  destruct (IH s2 ri (drop n vs) Hpre2 (is_list_grows _ _ _ _ _ _ Hg2 Hri)
    (all_named_grows _ _ _ _ Hg2 Hnr)) as (ri' & s3 & hn3 & E3 & Hg3 & Hri');
    [rewrite length_drop; lia|]. run_step E3.
  pose proof (list_pre_grows _ _ _ _ Hpre2 Hg3) as Hpre3.
  rewrite (bind_ok get_st _ s3 s3 s3 eq_refl).
  apply (is_list_grows _ _ _ _ _ _ Hg3) in Hle'.
  assert (Hsn : all_named (s_heap s3) (ssort nm fuel (rev (take n vs)))
    ∧ all_named (s_heap s3) (ssort nm fuel (drop n vs))).
  { split; intros k Hk; rewrite ssort_perm in Hk;
      apply (all_named_grows _ _ _ _ Hg2), (all_named_grows _ _ _ _ Hg3) in Hnl;
      apply (all_named_grows _ _ _ _ Hg2), (all_named_grows _ _ _ _ Hg3) in Hnr; auto. }
  destruct Hsn as [Hsl Hsr].
  destruct (merge_loop_ok s3 (heap_fuel s3) le' ri' nl nl s3 ∅ [] []
    (ssort nm fuel (rev (take n vs))) (ssort nm fuel (drop n vs)) Hpre3 (grows_refl _ (lp_ok _ _ Hpre3))
    (seg_nil _ _ _) Hle' Hri' Hsl Hsr) as
    (f' & l' & lf & rt & s4 & hn4 & cs & ws & xs & ys & E4 & Hg4 & Hseg & Hxs & Hys & Hor & Heq & _ & Hne).
  { rewrite !ssort_perm, length_rev, length_take, length_drop.
    assert (Hl3 : is_list (s_heap s3) nl l vs)
      by (eapply is_list_grows; [exact Hg3|]; eapply is_list_grows; [exact Hg2|];
          by eapply is_list_grows).
    apply is_list_heap_fuel in Hl3. lia. }
  run_step E4. pose proof (list_pre_grows _ _ _ _ Hpre3 Hg4) as Hpre4.
  run_step (is_null_ok nl s4 lf Hpre4).
  assert (Hcs : cs ≠ []).
  { intros ->. destruct Hseg as [_ _ _ _ Hc]. destruct ws; [|done]. apply Hne; [..|done];
      intros Hnil; apply (f_equal length) in Hnil; rewrite ssort_perm in Hnil;
      rewrite ?length_rev, ?length_take, ?length_drop in Hnil; cbn in Hnil; lia. }
  assert (Hrest : ∀ h', (∀ a, a ∉ cs → h' !! a = s_heap s4 !! a) →
    is_list h' nl (if bool_decide (lf = nl) then rt else lf) (xs ++ ys)).
  { intros h' Hh'.
    assert (Hsub : s_heap s3 ⊆ h').
    { apply map_subseteq_spec. intros a o Ha. rewrite Hh'; [by eapply grows_lookup|].
      intros Hin. destruct (seg_dom _ _ _ _ _ _ _ Hseg Hin) as [o' Ho'].
      pose proof (map_disjoint_Some_l _ _ _ _ (gr_disj _ _ _ Hg4) Ho'). congruence. }
    apply (is_list_weaken _ _ _ _ _ Hsub) in Hxs, Hys. destruct xs as [|x xs].
    - cbn in Hxs. subst lf. by rewrite bool_decide_true.
    - destruct Hor as [?| ->]; [done|]. rewrite app_nil_r.
      rewrite bool_decide_false; [done|]. by destruct Hxs as (? & ? & _). }
  destruct (seg_close s3 s4 hn4 nl cs f' l' ws _ (xs ++ ys) Hg4 Hseg Hcs Hrest)
    as (s5 & hn5 & E5 & Hg5 & Hfin).
  run_step E5. exists f', s5, (hn5 ∪ (hn3 ∪ (hn2 ∪ hn1))). split; [done|].
  split; [|by rewrite Heq in Hfin].
  eapply grows_trans; [|exact Hg5]. eapply grows_trans; [|exact Hg3]. by eapply grows_trans.
Qed.
End refinement.
