(* ===== verification/Printer.v ===== *)
(** * Printing

    The output buffer, the printer [zuo_out] with its explicit stack of
    continuation frames (Zuo pairs that it allocates and reuses), and the
    functions that print to a string. *)

From S2P Require Import Prelude Sys Heap Alloc Objects Trie Intern Sort.

(** ** The output buffer *)

Inductive zuo_print_mode_t : Set :=
  | zuo_print_mode
  | zuo_write_mode
  | zuo_display_mode.

#[export] Instance zuo_print_mode_t_eq_dec : EqDecision zuo_print_mode_t.
Proof. solve_decision. Defined.

(** [out_s] is the first [len] bytes of the buffer, [out_size] its capacity. *)
Record zuo_out_t := Out { out_s : list Z; out_size : Z }.

Definition out_len (out : zuo_out_t) : Z := Z.of_nat (length (out_s out)).

Definition out_init : zuo_out_t := Out [] 32.

Definition out_char (out : zuo_out_t) (c : Z) : zuo_out_t :=
  Out (out_s out ++ [c])
    (if out_len out =? out_size out then out_size out * 2 else out_size out).

Definition out_string (out : zuo_out_t) (s : string) : zuo_out_t :=
  foldl out_char out (bytes_of s).

(** ** Integers *)

(** [for (n = 1, w = 1; di >= n; n *= 10, w++);] *)
Fixpoint digits_scale (fuel : nat) (di n : Z) : Z :=
  match fuel with
  | O => n
  | S fuel' => if n <=? di then digits_scale fuel' di (n * 10) else n
  end.

(** [while (n >= 1)] *)
Fixpoint out_digits (fuel : nat) (out : zuo_out_t) (i n add_back : Z) : zuo_out_t :=
  match fuel with
  | O => out
  | S fuel' =>
      if 1 <=? n then
        let out := out_char out (48 + Z.quot i n) in
        let i := i - Z.quot i n * n in
        out_digits fuel' out (i + add_back) (Z.quot n 10) 0
      else out
  end.

(** A 64-bit integer has at most 19 digits. *)
Definition max_digits : nat := 19.

Definition out_integer (out : zuo_out_t) (i : Z) : zuo_out_t :=
  let '(out, i, add_back) :=
    if i <? 0 then
      let out := out_char out 45 in
      let i := to_s64 (0 - to_u64 i) in
      if i <? 0 then (out, - (i + 1), 1) else (out, i, 0)
    else (out, i, 0) in
  let n := digits_scale max_digits (Z.quot i 10) 1 in
  out_digits max_digits out i n add_back.

(** ** Strings *)

(** One byte of a string literal; [next] is the byte after it. *)
Definition out_escaped (out : zuo_out_t) (c next : Z) : zuo_out_t :=
  if (c =? 34) || (c =? 92) then out_char (out_char out 92) c
  else if c =? 10 then out_char (out_char out 92) 110
  else if c =? 13 then out_char (out_char out 92) 114
  else if c =? 9 then out_char (out_char out 92) 116
  else if isprint c then out_char out c
  else
    let out := out_char out 92 in
    if (c =? 0) && ((next <? 48) || (55 <? next)) then out_char out 48
    else
      out_char
        (out_char
          (out_char out (48 + Z.land (Z.shiftr c 6) 7))
          (48 + Z.land (Z.shiftr c 3) 7))
        (48 + Z.land (Z.shiftr c 0) 7).

(** The byte after the last one is the terminator. *)
Fixpoint out_literal (out : zuo_out_t) (s : list Z) : zuo_out_t :=
  match s with
  | [] => out
  | c :: s' => out_literal (out_escaped out c (hd 0 s')) s'
  end.

Definition out_bytes (out : zuo_out_t) (s : list Z) : zuo_out_t := foldl out_char out s.

(** ** Objects *)

(** [while (p2->tag == zuo_pair_tag) p2 = cdr]: the end of a chain of pairs. *)
Fixpoint last_cdr (fuel : nat) (l : loc) : M loc :=
  match fuel with
  | O => λ _, Diverge
  | S fuel' =>
      b <- has_tag zuo_pair_tag l ;;
      if b then d <- ZUO_CDR l ;; last_cdr fuel' d else ret l
  end.

(** [stack = zuo_cons(zuo_cons(mode, v), stack)] *)
Definition push_frame (mode v stack : loc) : M loc :=
  f <- zuo_cons mode v ;; zuo_cons f stack.

Section zuo_out.
(** the direct recursive call, used only for atomic things *)
Variable self : zuo_out_t → loc → zuo_print_mode_t → M zuo_out_t.

Definition out_symbol (out : zuo_out_t) (obj : loc) (mode : zuo_print_mode_t) : M zuo_out_t :=
  str <- symbol_str obj ;;
  plain <- (if decide (mode = zuo_display_mode) then ret true
            else
              b <- ZUO_STRING_PTR str ;;
              f <- zi o_false ;;
              i <- zuo_symbol_from_string b f ;;
              ret (bool_decide (obj = i))) ;;
  if plain then
    self (if decide (mode = zuo_print_mode) then out_char out 39 else out) str zuo_display_mode
  else
    out <- self (out_string out "#<symbol:") str zuo_display_mode ;;
    ret (out_string out ">").

Definition out_pair (out : zuo_out_t) (obj : loc) (mode : zuo_print_mode_t) (stack : loc) :
    M (zuo_out_t * loc) :=
  let out := out_char out 40 in
  out <- (if decide (mode = zuo_print_mode) then
            s <- get_st ;;
            p2 <- last_cdr (heap_fuel s) obj ;;
            b <- is_zi o_null p2 ;;
            if b then ret (out_string out "list ")
            else
              d <- ZUO_CDR obj ;;
              b <- has_tag zuo_pair_tag d ;;
              ret (out_string out (if b then "list* " else "cons "))
          else ret out) ;;
  d <- ZUO_CDR obj ;;
  pair_recur <- zi o_true ;;
  stack <- push_frame pair_recur d stack ;;
  a <- ZUO_CAR obj ;;
  recur <- zi o_false ;;
  stack <- push_frame recur a stack ;;
  ret (out, stack).

Definition out_closure (out : zuo_out_t) (lambda : loc) : M zuo_out_t :=
  d <- ZUO_CDR lambda ;;
  dd <- ZUO_CDR d ;;
  let out := out_string out "#<procedure" in
  a <- ZUO_CAR dd ;;
  b <- has_tag zuo_string_tag a ;;
  out <- (if b then self (out_string out ":") a zuo_display_mode else ret out) ;;
  ret (out_string out ">").

Definition out_opaque (out : zuo_out_t) (tag : loc) : M zuo_out_t :=
  let out := out_string out "#<" in
  b1 <- has_tag zuo_string_tag tag ;;
  b2 <- has_tag zuo_symbol_tag tag ;;
  out <- (if b1 || b2 then self out tag zuo_display_mode else ret (out_string out "opaque")) ;;
  ret (out_string out ">").

Definition out_hash (out : zuo_out_t) (obj : loc) (mode : zuo_print_mode_t) (stack : loc) :
    M (zuo_out_t * loc) :=
  null <- zi o_null ;;
  keys <- zuo_trie_sorted_keys obj null ;;
  b <- is_zi o_null keys ;;
  let out :=
    if decide (mode = zuo_print_mode) then
      let out := out_string out "(hash" in if b then out else out_string out " "
    else out_string out "#hash(" in
  p <- zuo_cons keys obj ;;
  hash1_recur <- zi o_eof ;;
  stack <- push_frame hash1_recur p stack ;;
  ret (out, stack).

(** By the tag, for an object that is not one of the first singletons. *)
Definition out_tagged (out : zuo_out_t) (obj : loc) (mode : zuo_print_mode_t) (stack : loc) :
    M (zuo_out_t * loc) :=
  let atomic (m : M zuo_out_t) : M (zuo_out_t * loc) := out <- m ;; ret (out, stack) in
  o <- get obj ;;
  match o with
  | Ointeger i => ret (out_integer out i, stack)
  | Ostring s =>
      ret (if decide (mode = zuo_display_mode) then out_bytes out s
           else out_char (out_literal (out_char out 34) s) 34, stack)
  | Osymbol _ _ => atomic (out_symbol out obj mode)
  | Opair _ _ => out_pair out obj mode stack
  | Oprimitive _ _ _ name =>
      atomic (out <- self (out_string out "#<procedure:") name zuo_display_mode ;;
              ret (out_string out ">"))
  | Oclosure lambda _ => atomic (out_closure out lambda)
  | Oopaque tag _ => atomic (out_opaque out tag)
  | Otrie_node _ _ _ _ => out_hash out obj mode stack
  | Ohandle _ _ _ => ret (out_string out "#<handle>", stack)
  | Ocont _ _ _ _ _ => ret (out_string out "#<continuation>", stack)
  | Ovariable name _ =>
      atomic (out <- self (out_string out "#<variable:") name zuo_display_mode ;;
              ret (out_string out ">"))
  | Osingleton | Oforwarded _ =>
      z <- get_st ;;
      let z := s_img z in
      ret (if decide (obj = o_apply z) then out_string out "#<procedure:apply>"
           else if decide (obj = o_call_cc z) then out_string out "#<procedure:call/cc>"
           else if decide (obj = o_call_prompt z) then out_string out "#<procedure:call/prompt>"
           else if decide (obj = o_kernel_eval z) then out_string out "#<procedure:kernel-eval>"
           else out_string out "#<garbage>", stack)
  end.

(** The first half of the loop's body: what is printed for [obj] at once. *)
Definition out_begin (out : zuo_out_t) (obj : loc) (mode : zuo_print_mode_t) (stack : loc) :
    M (zuo_out_t * loc) :=
  z <- get_st ;;
  let z := s_img z in
  if decide (obj = o_undefined z) then ret (out_string out "#<undefined>", stack)
  else if decide (obj = o_null z) then
    ret (out_string (if decide (mode = zuo_print_mode) then out_string out "'" else out) "()", stack)
  else if decide (obj = o_false z) then ret (out_string out "#f", stack)
  else if decide (obj = o_true z) then ret (out_string out "#t", stack)
  else if decide (obj = o_eof z) then ret (out_string out "#<eof>", stack)
  else if decide (obj = o_void z) then ret (out_string out "#<void>", stack)
  else out_tagged out obj mode stack.

(** A frame's [op->car = m] and [op->cdr = v] ("reuse stack frame"). *)
Definition reuse_frame (op m v : loc) : M unit :=
  o <- get op ;;
  match o with Opair _ _ => put op (Opair m v) | _ => ub "stack frame is not a pair" end.

(** A pair's tail: the result is the object to print next, if any; without
    one the frame has been popped. *)
Definition resume_pair (out : zuo_out_t) (op obj stack : loc) (mode : zuo_print_mode_t) :
    M (zuo_out_t * loc * option loc) :=
  pair_recur <- zi o_true ;;
  b <- has_tag zuo_pair_tag obj ;;
  if b then
    let out := out_char out 32 in
    a <- ZUO_CAR obj ;;
    d <- ZUO_CDR obj ;;
    reuse_frame op pair_recur d ;;;
    ret (out, stack, Some a)
  else
    b <- is_zi o_null obj ;;
    if b then
      stack <- ZUO_CDR stack ;;
      ret (out_char out 41, stack, None)
    else
      let out := if decide (mode = zuo_print_mode) then out else out_char (out_char out 32) 46 in
      null <- zi o_null ;;
      reuse_frame op pair_recur null ;;;
      ret (out_char out 32, stack, Some obj).

(** The next key and value of a hash table. *)
Definition resume_hash (out : zuo_out_t) (first : bool) (op p stack : loc)
    (mode : zuo_print_mode_t) : M (zuo_out_t * loc * option loc) :=
  keys <- ZUO_CAR p ;;
  ht <- ZUO_CDR p ;;
  let printing := bool_decide (mode = zuo_print_mode) in
  let out := if negb first && negb printing then out_string out ")" else out in
  b <- is_zi o_null keys ;;
  if b then
    stack <- ZUO_CDR stack ;;
    ret (out_string out ")", stack, None)
  else
    key <- ZUO_CAR keys ;;
    let out := if first then out else out_string out " " in
    let out := if printing then out else out_string out "(" in
    out <- self out key mode ;;
    let out := out_string out (if printing then " " else " . ") in
    obj <- zuo_trie_lookup ht key ;;
    hash_recur <- zi o_null ;;
    reuse_frame op hash_recur p ;;;
    rest <- ZUO_CDR keys ;;
    reuse_frame p rest ht ;;;
    ret (out, stack, Some obj).

(** The inner [while (1)]: pop frames until there is an object to print;
    [None] is the function's return.  Each iteration that does not leave the
    loop pops a frame. *)
Fixpoint out_resume (fuel : nat) (out : zuo_out_t) (stack : loc) (mode : zuo_print_mode_t) :
    M (zuo_out_t * loc * option loc) :=
  match fuel with
  | O => λ _, Diverge
  | S fuel' =>
      b <- is_zi o_null stack ;;
      if b then ret (out, stack, None)
      else
        op <- ZUO_CAR stack ;;
        m <- ZUO_CAR op ;;
        v <- ZUO_CDR op ;;
        z <- get_st ;;
        let z := s_img z in
        if decide (m = o_false z) then
          stack <- ZUO_CDR stack ;;
          ret (out, stack, Some v)
        else
          r <- (if decide (m = o_true z) then resume_pair out op v stack mode
                else if decide (m = o_eof z) then resume_hash out true op v stack mode
                else if decide (m = o_null z) then resume_hash out false op v stack mode
                else zuo_panic "unrecognized operation on stack") ;;
          let '(out, stack, next) := r in
          match next with
          | Some obj => ret (out, stack, Some obj)
          | None => out_resume fuel' out stack mode
          end
  end.

(** The outer [while (1)]: one iteration per object printed. *)
Fixpoint out_loop (fuel : nat) (out : zuo_out_t) (obj : loc) (mode : zuo_print_mode_t)
    (stack : loc) : M zuo_out_t :=
  match fuel with
  | O => λ _, Diverge
  | S fuel' =>
      r <- out_begin out obj mode stack ;;
      s <- get_st ;;
      r <- out_resume (heap_fuel s) (fst r) (snd r) mode ;;
      let '(out, stack, next) := r in
      match next with
      | None => ret out
      | Some obj => out_loop fuel' out obj mode stack
      end
  end.
End zuo_out.

(** Direct calls nest at most three deep: a variable, primitive, opaque tag or
    hash key, the symbol that names it, and the string of that symbol. *)
Fixpoint zuo_out_nested (depth fuel : nat) (out : zuo_out_t) (obj : loc) (mode : zuo_print_mode_t) :
    M zuo_out_t :=
  match depth with
  | O => λ _, Diverge
  | S depth' =>
      null <- zi o_null ;;
      out_loop (zuo_out_nested depth' fuel) fuel out obj mode null
  end.

Definition out_depth : nat := 3.

(** [fuel] bounds the number of objects printed. *)
Definition zuo_out (fuel : nat) := zuo_out_nested out_depth fuel.

(** ** Printing to a stream or a string *)

Definition zuo_fout (fuel : nat) (obj : loc) (mode : zuo_print_mode_t) : M unit :=
  out <- zuo_out fuel out_init obj mode ;;
  write_stdout (out_s out).

Fixpoint to_string_loop (lfuel fuel : nat) (out : zuo_out_t) (objs : loc) (mode : zuo_print_mode_t) :
    M (zuo_out_t * loc) :=
  match lfuel with
  | O => λ _, Diverge
  | S lfuel' =>
      b <- has_tag zuo_pair_tag objs ;;
      if b then
        a <- ZUO_CAR objs ;;
        out <- zuo_out fuel out a mode ;;
        objs <- ZUO_CDR objs ;;
        b <- is_zi o_null objs ;;
        let out := if bool_decide (mode ≠ zuo_display_mode) && negb b then out_char out 32 else out in
        to_string_loop lfuel' fuel out objs mode
      else ret (out, objs)
  end.

Definition zuo_to_string (fuel : nat) (objs : loc) (mode : zuo_print_mode_t) : M loc :=
  s <- get_st ;;
  r <- to_string_loop (heap_fuel s) fuel out_init objs mode ;;
  b <- is_zi o_null (snd r) ;;
  out <- (if b then ret (fst r) else zuo_out fuel (fst r) (snd r) mode) ;;
  zuo_sized_string (out_s out).
