(* ===== verification/Reader.v ===== *)
(** * Reading

    The reader [zuo_in] with its explicit stack (Zuo pairs that it allocates
    and mutates), [string-read] and the [#lang] line.

    The input is a NUL-terminated buffer: its bytes are [s], [s_at] reads one
    of them, and a read beyond the terminator is undefined behaviour. *)

From S2P Require Import Prelude Sys Heap Alloc Objects Trie Intern.

(** ** Characters *)

Definition symbol_chars : list Z := bytes_of "~!@#$%^&*-_=+:<>?/.".

Definition s_at (s : list Z) (i : Z) : M Z :=
  match char_at s i with Some c => ret c | None => ub "read outside of the input" end.

Definition zuo_read_fail2 {A} (o : Z) (where_ : loc) (msg msg2 : list Z) : M A :=
  fail (Eread (msg ++ msg2) o where_).
Definition zuo_read_fail {A} (o : Z) (where_ : loc) (msg : string) : M A :=
  zuo_read_fail2 o where_ (bytes_of msg) [].

(** [isdigit(c) || isalpha(c) || strchr(symbol_chars, c)] *)
Definition is_symbol_char (c : Z) : bool := isdigit c || isalpha c || strchr symbol_chars c.
(** the same for a character that is not the terminator *)
Definition in_symbol (c : Z) : bool := negb (c =? 0) && is_symbol_char c.

Fixpoint peek_loop (s : list Z) (o : Z) (want : list Z) : M bool :=
  match want with
  | [] => c <- s_at s o ;; ret (negb (in_symbol c))
  | w :: want' =>
      c <- s_at s o ;;
      if c =? w then peek_loop s (o + 1) want' else ret false
  end.
Definition peek_input (s : list Z) (o : Z) (want : string) : M bool :=
  peek_loop s o (bytes_of want).

(** A loop that moves forward in the input makes at most as many iterations as
    there are bytes, and one more. *)
Definition input_fuel (s : list Z) : nat := S (S (length s)).

Fixpoint all_digits_loop (fuel : nat) (s : list Z) (i : Z) : M bool :=
  match fuel with
  | O => λ _, Diverge
  | S fuel' =>
      c <- s_at s i ;;
      if in_symbol c then
        if isdigit c then all_digits_loop fuel' s (i + 1) else ret false
      else ret true
  end.
Definition all_digits_before_delim (s : list Z) (i : Z) : M bool :=
  all_digits_loop (input_fuel s) s i.

(** ** Whitespace and comments *)

(** [while (isspace(s[*_o])) ( *_o)++;] *)
Fixpoint skip_spaces (fuel : nat) (s : list Z) (o : Z) : M Z :=
  match fuel with
  | O => λ _, Diverge
  | S fuel' => c <- s_at s o ;; if isspace c then skip_spaces fuel' s (o + 1) else ret o
  end.

(** to the end of the line *)
Fixpoint skip_line (fuel : nat) (s : list Z) (o : Z) : M Z :=
  match fuel with
  | O => λ _, Diverge
  | S fuel' =>
      c <- s_at s o ;;
      if (c =? 10) || (c =? 0) then ret o else skip_line fuel' s (o + 1)
  end.

(** to the end of a line that a backslash does not continue *)
Fixpoint skip_shebang (fuel : nat) (s : list Z) (o : Z) : M Z :=
  match fuel with
  | O => λ _, Diverge
  | S fuel' =>
      c <- s_at s o ;;
      inside <- (if negb (c =? 10) then ret true
                 else
                   c1 <- s_at s (o - 1) ;;
                   if c1 =? 92 then ret true
                   else c2 <- s_at s (o - 2) ;; ret ((c2 =? 92) && (c1 =? 13))) ;;
      if inside && negb (c =? 0) then skip_shebang fuel' s (o + 1) else ret o
  end.

(** The result is the position and the stack, onto which each [#;] pushes a
    frame. *)
Fixpoint skip_whitespace (fuel : nat) (s : list Z) (o : Z) (stack : loc) : M (Z * loc) :=
  match fuel with
  | O => λ _, Diverge
  | S fuel' =>
      o <- skip_spaces (input_fuel s) s o ;;
      c <- s_at s o ;;
      if c =? 59 then
        o <- skip_line (input_fuel s) s o ;; skip_whitespace fuel' s o stack
      else if c =? 35 then
        c1 <- s_at s (o + 1) ;;
        if c1 =? 33 then
          o <- skip_shebang (input_fuel s) s o ;; skip_whitespace fuel' s o stack
        else if c1 =? 59 then
          discard_recur <- zi o_undefined ;;
          null <- zi o_null ;;
          f <- zuo_cons discard_recur null ;;
          stack <- zuo_cons f stack ;;
          skip_whitespace fuel' s (o + 2) stack
        else ret (o, stack)
      else ret (o, stack)
  end.

(** ** String literals *)

Definition is_octal (c : Z) : bool := (48 <=? c) && (c <=? 55).

(** After a backslash and the octal digit [c2]: the value and the position. *)
Definition read_octal (s : list Z) (o c2 : Z) : M (Z * Z) :=
  let v := c2 - 48 in
  c3 <- s_at s o ;;
  if is_octal c3 then
    let v := Z.shiftl v 3 + (c3 - 48) in
    let o := o + 1 in
    if c2 <=? 51 then
      c3 <- s_at s o ;;
      if is_octal c3 then ret (Z.shiftl v 3 + (c3 - 48), o + 1) else ret (v, o)
    else ret (v, o)
  else ret (v, o).

(** [s2] is what has been read; the result is it and the position after the
    closing quote. *)
Fixpoint read_literal (fuel : nat) (s : list Z) (o : Z) (where_ : loc) (s2 : list Z) :
    M (list Z * Z) :=
  match fuel with
  | O => λ _, Diverge
  | S fuel' =>
      c <- s_at s o ;;
      if c =? 0 then zuo_read_fail o where_ "missing closing doublequote"
      else if c =? 34 then ret (s2, o + 1)
      else if c =? 92 then
        c2 <- s_at s (o + 1) ;;
        if (c2 =? 92) || (c2 =? 34) then read_literal fuel' s (o + 2) where_ (s2 ++ [c2])
        else if c2 =? 110 then read_literal fuel' s (o + 2) where_ (s2 ++ [10])
        else if c2 =? 114 then read_literal fuel' s (o + 2) where_ (s2 ++ [13])
        else if c2 =? 116 then read_literal fuel' s (o + 2) where_ (s2 ++ [9])
        else if is_octal c2 then
          r <- read_octal s (o + 2) c2 ;;
          read_literal fuel' s (snd r) where_ (s2 ++ [to_u8 (fst r)])
        else zuo_read_fail o where_ "bad character after backslash"
      else if c =? 10 then zuo_read_fail o where_ "newline in string literal"
      else if c =? 13 then zuo_read_fail o where_ "carriage return in string literal"
      else read_literal fuel' s (o + 1) where_ (s2 ++ [c])
  end.

(** ** Numbers and symbols *)

(** [while (isdigit(s[*_o]))], in unsigned arithmetic *)
Fixpoint read_digits (fuel : nat) (s : list Z) (o : Z) (where_ : loc) (n : Z) : M (Z * Z) :=
  match fuel with
  | O => λ _, Diverge
  | S fuel' =>
      c <- s_at s o ;;
      if isdigit c then
        let new_n := to_u64 (10 * n + (c - 48)) in
        if new_n <? n then zuo_read_fail o where_ "integer overflow"
        else read_digits fuel' s (o + 1) where_ new_n
      else ret (n, o)
  end.

Definition read_integer (s : list Z) (o c : Z) (where_ : loc) : M (loc * Z) :=
  let neg := c =? 45 in
  let o := if neg then o + 1 else o in
  c <- s_at s o ;;
  r <- read_digits (input_fuel s) s (o + 1) where_ (c - 48) ;;
  let '(n, o) := r in
  if neg then
    let n := to_u64 (0 - n) in
    if 0 <? to_s64 n then zuo_read_fail o where_ "integer overflow"
    else i <- zuo_integer (to_s64 n) ;; ret (i, o)
  else
    if to_s64 n <? 0 then zuo_read_fail o where_ "integer overflow"
    else i <- zuo_integer (to_s64 n) ;; ret (i, o).

(** The end of the symbol that starts at or before [o]. *)
Fixpoint symbol_end (fuel : nat) (s : list Z) (o : Z) : M Z :=
  match fuel with
  | O => λ _, Diverge
  | S fuel' => c <- s_at s o ;; if in_symbol c then symbol_end fuel' s (o + 1) else ret o
  end.

(** [memcpy] of the bytes from [a] up to [b] *)
Definition slice (s : list Z) (a b : Z) : list Z :=
  take (Z.to_nat (b - a)) (drop (Z.to_nat a) s).

Definition read_symbol (s : list Z) (o : Z) : M (loc * Z) :=
  e <- symbol_end (input_fuel s) s o ;;
  sym <- zuo_symbol (slice s o e) ;;
  ret (sym, e).

(** [#t], [#f], [#true] and [#false], after the [#] *)
Definition read_hash_mark (s : list Z) (o : Z) (where_ : loc) : M (loc * Z) :=
  b <- peek_input s o "true" ;;
  if b then v <- zi o_true ;; ret (v, o + 4) else
  b <- peek_input s o "false" ;;
  if b then v <- zi o_false ;; ret (v, o + 5) else
  b <- peek_input s o "t" ;;
  if b then v <- zi o_true ;; ret (v, o + 1) else
  b <- peek_input s o "f" ;;
  if b then v <- zi o_false ;; ret (v, o + 1) else
  zuo_read_fail o where_ "bad hash mark".

(** ** The stack *)

(** [(stack != z.o_null) && (ZUO_CAR(ZUO_CAR(stack)) == z.f)] *)
Definition top_is (stack : loc) (f : image → loc) : M bool :=
  b <- is_zi o_null stack ;;
  if b then ret false
  else
    op <- ZUO_CAR stack ;;
    m <- ZUO_CAR op ;;
    is_zi f m.

(** [ZUO_CAR(ZUO_CDR(ZUO_CAR(stack)))]: the list read so far *)
Definition top_list (stack : loc) : M loc :=
  op <- ZUO_CAR stack ;; d <- ZUO_CDR op ;; ZUO_CAR d.

(** [ZUO_CAR(l) = v] *)
Definition set_ZUO_CAR (l v : loc) : M unit :=
  o <- get l ;;
  match o with Opair _ d => put l (Opair v d) | _ => ub "car of a non-pair" end.

(** [stack = zuo_cons(zuo_cons(mode, v), stack)], to read on *)
Definition push_in (mode v stack : loc) (o : Z) : M (loc * Z * loc) :=
  f <- zuo_cons mode v ;;
  stack <- zuo_cons f stack ;;
  u <- zi o_undefined ;;
  ret (u, o, stack).

Definition read_after_dot (o c closer : Z) (where_ stack : loc) : M (loc * Z * loc) :=
  if negb (c =? closer) then zuo_read_fail o where_ "expected closer after dot"
  else
    obj <- top_list stack ;;
    stack <- ZUO_CDR stack ;;
    ret (obj, o + 1, stack).

Definition read_open (o c : Z) (stack : loc) : M (loc * Z * loc) :=
  null <- zi o_null ;;
  l <- zuo_cons null null ;;
  m <- (if c =? 40 then zi o_false else zi o_void) ;;
  push_in m l stack (o + 1).

Definition read_close (o c : Z) (where_ stack : loc) : M (loc * Z * loc) :=
  b1 <- top_is stack (if c =? 41 then o_false else o_void) ;;
  b2 <- (if b1 then ret true else top_is stack (if c =? 41 then o_null else o_empty_hash)) ;;
  if b2 then
    obj <- top_list stack ;;
    stack <- ZUO_CDR stack ;;
    ret (obj, o + 1, stack)
  else zuo_read_fail o where_ "unbalanced closer".

(** [(stack != z.o_null) && top mode is list && the list is not empty] *)
Definition dot_allowed (stack : loc) (f : image → loc) : M bool :=
  b <- top_is stack f ;;
  if b then l <- top_list stack ;; b <- is_zi o_null l ;; ret (negb b) else ret false.

Definition read_dot (o : Z) (where_ stack : loc) : M (loc * Z * loc) :=
  b1 <- dot_allowed stack o_false ;;
  b2 <- (if b1 then ret false else dot_allowed stack o_void) ;;
  (if b1 then op <- ZUO_CAR stack ;; m <- zi o_null ;; set_ZUO_CAR op m
   else if b2 then op <- ZUO_CAR stack ;; m <- zi o_empty_hash ;; set_ZUO_CAR op m
   else zuo_read_fail o where_ "misplaced `.`") ;;;
  u <- zi o_undefined ;;
  ret (u, o + 1, stack).

Definition read_quote (name : string) (o : Z) (stack : loc) : M (loc * Z * loc) :=
  sym <- zuo_symbol (bytes_of name) ;;
  m <- zi o_true ;;
  push_in m sym stack o.

(** ** One datum or one delimiter *)

(** The result is [obj] ([z.o_undefined] to read on), the position and the
    stack. *)
Definition read_begin (s : list Z) (o : Z) (where_ stack : loc) : M (loc * Z * loc) :=
  let atom (m : M (loc * Z)) : M (loc * Z * loc) := r <- m ;; ret (fst r, snd r, stack) in
  c <- s_at s o ;;
  paren_end <- top_is stack o_eof ;;
  bracket_end <- (if paren_end then ret false else top_is stack o_apply) ;;
  if paren_end then read_after_dot o c 41 where_ stack
  else if bracket_end then read_after_dot o c 93 where_ stack
  else if c =? 0 then obj <- zi o_eof ;; ret (obj, o, stack)
  else if (c =? 40) || (c =? 91) then read_open o c stack
  else if (c =? 41) || (c =? 93) then read_close o c where_ stack
  else
    c1 <- s_at s (o + 1) ;;
    if (c =? 34) || ((c =? 35) && (c1 =? 34)) then
      atom (r <- read_literal (input_fuel s) s (if c =? 35 then o + 2 else o + 1) where_ [] ;;
            str <- zuo_sized_string (fst r) ;;
            ret (str, snd r))
    else if c =? 35 then atom (read_hash_mark s (o + 1) where_)
    else
      digits <- (if isdigit c || ((c =? 45) && isdigit c1)
                 then all_digits_before_delim s (o + 1) else ret false) ;;
      if digits then atom (read_integer s o c where_)
      else if c =? 39 then read_quote "quote" (o + 1) stack
      else if c =? 96 then read_quote "quasiquote" (o + 1) stack
      else if c =? 44 then
        if c1 =? 64 then read_quote "unquote-splicing" (o + 2) stack
        else read_quote "unquote" (o + 1) stack
      else if (c =? 46) && negb (is_symbol_char c1) then read_dot o where_ stack
      else if is_symbol_char c then atom (read_symbol s o)
      else
        sc <- zuo_string [c] ;;
        zuo_fail1w (bytes_of "read") (bytes_of "unrecognized character") sc.

(** ** What a datum is for: the inner [while (1)] *)

(** [inl obj]: the function returns [obj]; [inr stack]: go on reading. *)
Fixpoint read_combine (fuel : nat) (o : Z) (where_ obj stack : loc) : M (loc + loc) :=
  match fuel with
  | O => λ _, Diverge
  | S fuel' =>
      b <- is_zi o_undefined obj ;;
      if b then ret (inr stack) else
      b <- is_zi o_null stack ;;
      if b then ret (inl obj) else
      op <- ZUO_CAR stack ;;
      m <- ZUO_CAR op ;;
      d <- ZUO_CDR op ;;
      eof <- is_zi o_eof obj ;;
      null <- zi o_null ;;
      z <- get_st ;;
      let z := s_img z in
      if decide (m = o_true z) then
        if eof then
          str <- symbol_str d ;;
          name <- ZUO_STRING_PTR str ;;
          zuo_read_fail2 o where_ (bytes_of "end of file after ") (c_str name)
        else
          l <- zuo_cons obj null ;;
          obj <- zuo_cons d l ;;
          stack <- ZUO_CDR stack ;;
          read_combine fuel' o where_ obj stack
      else if decide (m = o_undefined z) then
        if eof then zuo_read_fail o where_ "end of file after comment hash-semicolon"
        else stack <- ZUO_CDR stack ;; ret (inr stack)
      else if decide (m = o_false z ∨ m = o_void z) then
        if eof then zuo_read_fail o where_ "missing closer"
        else
          pr <- zuo_cons obj null ;;
          first <- ZUO_CAR d ;;
          b <- is_zi o_null first ;;
          (if b then set_ZUO_CAR d pr else (last <- ZUO_CDR d ;; set_ZUO_CDR last pr)) ;;;
          set_ZUO_CDR d pr ;;;
          ret (inr stack)
      else if decide (m = o_null z ∨ m = o_empty_hash z) then
        if eof then zuo_read_fail o where_ "end of file after dot"
        else
          last <- ZUO_CDR d ;;
          set_ZUO_CDR last obj ;;;
          set_ZUO_CAR op (if decide (m = o_null z) then o_eof z else o_apply z) ;;;
          ret (inr stack)
      else read_combine fuel' o where_ obj stack
  end.

(** ** The reader *)

Fixpoint in_loop (fuel : nat) (s : list Z) (o : Z) (where_ : loc) (skip_whitespace_only : bool)
    (stack : loc) : M (loc * Z) :=
  match fuel with
  | O => λ _, Diverge
  | S fuel' =>
      r <- skip_whitespace (input_fuel s) s o stack ;;
      let '(o, stack) := r in
      b <- is_zi o_null stack ;;
      if b && skip_whitespace_only then null <- zi o_null ;; ret (null, o)
      else
        r <- read_begin s o where_ stack ;;
        let '(obj, o, stack) := r in
        st <- get_st ;;
        r <- read_combine (heap_fuel st) o where_ obj stack ;;
        match r with
        | inl obj => ret (obj, o)
        | inr stack => in_loop fuel' s o where_ skip_whitespace_only stack
        end
  end.

(** The result is the datum, or [z.o_eof], and the value of [*_o]. *)
Definition zuo_in (s : list Z) (o : Z) (where_ : loc) (skip_whitespace_only : bool) : M (loc * Z) :=
  null <- zi o_null ;;
  in_loop (input_fuel s) s o where_ skip_whitespace_only null.

(** ** [string-read] and [#lang] *)

Fixpoint string_read_loop (fuel : nat) (s : list Z) (o : Z) (where_ first last : loc) : M loc :=
  match fuel with
  | O => λ _, Diverge
  | S fuel' =>
      r <- zuo_in s o where_ false ;;
      let '(obj, o) := r in
      b <- is_zi o_eof obj ;;
      if b then ret first
      else
        null <- zi o_null ;;
        p <- zuo_cons obj null ;;
        b <- is_zi o_null first ;;
        (if b then ret tt else set_ZUO_CDR last p) ;;;
        string_read_loop fuel' s o where_ (if b then p else first) p
  end.

Definition zuo_string_read (str start_i where_ : loc) : M loc :=
  let who := bytes_of "string-read" in
  check_string who str ;;;
  len <- ZUO_STRING_LEN str ;;
  u <- is_zi o_undefined start_i ;;
  start <- (if u then ret 0
            else
              check_integer who start_i ;;;
              start <- ZUO_INT_I start_i ;;
              if (start <? 0) || (len <? start)
              then zuo_fail1w who (bytes_of "starting index is out of bounds") start_i
              else ret start) ;;
  s <- ZUO_STRING_PTR str ;;
  if existsb (Z.eqb 0) (drop (Z.to_nat start) s)
  then zuo_fail1w who (bytes_of "nul character in input") str
  else
    null <- zi o_null ;;
    string_read_loop (input_fuel s) s start where_ null null.

Definition zuo_is_symbol_module_char (c : Z) : bool :=
  negb (c =? 0) && (isalpha c || isdigit c || strchr (bytes_of "-_+/") c).

(** Does [expect] start at [o]? *)
Fixpoint expect_at (s : list Z) (o : Z) (expect : list Z) : M bool :=
  match expect with
  | [] => ret true
  | e :: expect' =>
      c <- s_at s o ;;
      if c =? e then expect_at s (o + 1) expect' else ret false
  end.

Fixpoint module_char_end (fuel : nat) (s : list Z) (o : Z) : M Z :=
  match fuel with
  | O => λ _, Diverge
  | S fuel' =>
      c <- s_at s o ;;
      if zuo_is_symbol_module_char c then module_char_end fuel' s (o + 1) else ret o
  end.

(** The result is the module path and the value of [*_post]. *)
Definition zuo_read_language (s_in : list Z) (where_ : loc) : M (loc * Z) :=
  let s := c_str s_in in
  r <- zuo_in s 0 where_ true ;;
  let o := snd r in
  let expect := bytes_of "#lang " in
  b <- expect_at s o expect ;;
  if negb b then zuo_read_fail o where_ "expected #lang followed by a space"
  else
    let oi := o + Z.of_nat (length expect) in
    e <- module_char_end (input_fuel s) s oi ;;
    c <- s_at s e ;;
    if (e =? oi) || negb ((c =? 0) || isspace c)
    then zuo_read_fail o where_ "expected module library path after #lang"
    else
      r <- zuo_sized_string (slice s oi e) ;;
      b <- ZUO_STRING_PTR r ;;
      sym <- zuo_symbol_from_string b r ;;
      ret (sym, e).
