(* ===== verification/Prims.v ===== *)
(** * Object primitives

    The functions behind the primitives on pairs, lists, integers, strings,
    symbols, hash tables, opaque objects, variables and errors. *)

From S2P Require Import Prelude Sys Heap Alloc Objects Trie Intern Sort Printer Reader.

(** ** Predicates *)

(** [b ? z.o_true : z.o_false] *)
Definition zbool (b : bool) : M loc := if b then zi o_true else zi o_false.
Definition tag_p (t : zuo_tag_t) (obj : loc) : M loc := b <- has_tag t obj ;; zbool b.

Definition zuo_pair_p : loc → M loc := tag_p zuo_pair_tag.
Definition zuo_null_p (obj : loc) : M loc := b <- is_zi o_null obj ;; zbool b.
Definition zuo_integer_p : loc → M loc := tag_p zuo_integer_tag.
Definition zuo_string_p : loc → M loc := tag_p zuo_string_tag.
Definition zuo_symbol_p : loc → M loc := tag_p zuo_symbol_tag.
Definition zuo_procedure_p (obj : loc) : M loc :=
  o <- get obj ;;
  z <- get_st ;;
  let z := s_img z in
  zbool (bool_decide (obj_tag o = zuo_primitive_tag) || bool_decide (obj_tag o = zuo_closure_tag)
         || bool_decide (obj_tag o = zuo_cont_tag) || bool_decide (obj = o_apply z)
         || bool_decide (obj = o_call_cc z) || bool_decide (obj = o_call_prompt z)
         || bool_decide (obj = o_kernel_eval z)).
Definition zuo_hash_p : loc → M loc := tag_p zuo_trie_node_tag.
Definition zuo_list_p (obj : loc) : M loc :=
  s <- get_st ;;
  l <- last_cdr (heap_fuel s) obj ;;
  zuo_null_p l.

(** ** Pairs and lists *)

Definition zuo_car (obj : loc) : M loc :=
  b <- has_tag zuo_pair_tag obj ;;
  if b then ZUO_CAR obj else zuo_fail_arg (bytes_of "car") (bytes_of "pair") obj.
Definition zuo_cdr (obj : loc) : M loc :=
  b <- has_tag zuo_pair_tag obj ;;
  if b then ZUO_CDR obj else zuo_fail_arg (bytes_of "cdr") (bytes_of "pair") obj.

(** [while ((i > 0) && (lst->tag == zuo_pair_tag))]: what is left of the list
    and of the index. *)
Fixpoint list_tail_loop (fuel : nat) (lst : loc) (i : Z) : M loc :=
  match fuel with
  | O => λ _, Diverge
  | S fuel' =>
      if 0 <? i then
        b <- has_tag zuo_pair_tag lst ;;
        if b then d <- ZUO_CDR lst ;; list_tail_loop fuel' d (i - 1) else ret lst
      else ret lst
  end.

(** the index argument of [list-ref] and [list-set] *)
Definition list_index (who : list Z) (index : loc) : M Z :=
  b <- has_tag zuo_integer_tag index ;;
  i <- (if b then ZUO_INT_I index else ret (-1)) ;;
  if i <? 0 then zuo_fail_arg who (bytes_of "not a nonnegative integer") index else ret i.

Definition zuo_list_ref (lst index : loc) : M loc :=
  let who := bytes_of "list-ref" in
  i <- list_index who index ;;
  s <- get_st ;;
  lst <- list_tail_loop (heap_fuel s) lst i ;;
  b <- has_tag zuo_pair_tag lst ;;
  if b then ZUO_CAR lst else zuo_fail1w who (bytes_of "encountered a non-pair") lst.

(** [first], [last] and the tail of [lst], after copying [i] cells *)
Fixpoint list_copy_loop (fuel : nat) (lst : loc) (i : Z) (first last : loc) : M (loc * loc * loc) :=
  match fuel with
  | O => λ _, Diverge
  | S fuel' =>
      b <- (if 0 <? i then has_tag zuo_pair_tag lst else ret false) ;;
      if b then
        a <- ZUO_CAR lst ;;
        null <- zi o_null ;;
        pr <- zuo_cons a null ;;
        b <- is_zi o_null first ;;
        (if b then ret tt else set_ZUO_CDR last pr) ;;;
        d <- ZUO_CDR lst ;;
        list_copy_loop fuel' d (i - 1) (if b then pr else first) pr
      else ret (first, last, lst)
  end.

Definition zuo_list_set (lst index val : loc) : M loc :=
  let who := bytes_of "list-set" in
  i <- list_index who index ;;
  b <- (if i =? 0 then has_tag zuo_pair_tag lst else ret false) ;;
  if b then d <- ZUO_CDR lst ;; zuo_cons val d
  else
    s <- get_st ;;
    null <- zi o_null ;;
    r <- list_copy_loop (heap_fuel s) lst i null null ;;
    let '(first, last, lst) := r in
    b <- has_tag zuo_pair_tag lst ;;
    if b then
      d <- ZUO_CDR lst ;;
      p <- zuo_cons val d ;;
      set_ZUO_CDR last p ;;;
      ret first
    else zuo_fail1w who (bytes_of "encountered a non-pair") lst.

(** the end of the chain of pairs and their number *)
Fixpoint length_loop (fuel : nat) (l : loc) (len : Z) : M (loc * Z) :=
  match fuel with
  | O => λ _, Diverge
  | S fuel' =>
      b <- has_tag zuo_pair_tag l ;;
      if b then d <- ZUO_CDR l ;; length_loop fuel' d (len + 1) else ret (l, len)
  end.

Definition zuo_length_int (in_l : loc) : M Z :=
  s <- get_st ;;
  r <- length_loop (heap_fuel s) in_l 0 ;;
  b <- is_zi o_null (fst r) ;;
  if b then ret (snd r) else zuo_fail_arg (bytes_of "length") (bytes_of "list") in_l.

Definition zuo_length (in_l : loc) : M loc := n <- zuo_length_int in_l ;; zuo_integer n.

Fixpoint reverse_loop (fuel : nat) (l r : loc) : M (loc * loc) :=
  match fuel with
  | O => λ _, Diverge
  | S fuel' =>
      b <- has_tag zuo_pair_tag l ;;
      if b then
        a <- ZUO_CAR l ;;
        r <- zuo_cons a r ;;
        d <- ZUO_CDR l ;;
        reverse_loop fuel' d r
      else ret (l, r)
  end.

Definition zuo_reverse (in_l : loc) : M loc :=
  s <- get_st ;;
  null <- zi o_null ;;
  r <- reverse_loop (heap_fuel s) in_l null ;;
  b <- is_zi o_null (fst r) ;;
  if b then ret (snd r) else zuo_fail_arg (bytes_of "reverse") (bytes_of "list") in_l.

Definition zuo_list (objs : loc) : M loc := ret objs.

(** [last] is null (0) as long as there is no cell yet. *)
Definition append_link (first last p : loc) : M (loc * loc) :=
  if decide (last = 0) then ret (p, p) else set_ZUO_CDR last p ;;; ret (first, p).

(** copies the cells of [a] onto the end: the end of [a], [first], [last] *)
Fixpoint append_copy (fuel : nat) (a first last : loc) : M (loc * loc * loc) :=
  match fuel with
  | O => λ _, Diverge
  | S fuel' =>
      b <- has_tag zuo_pair_tag a ;;
      if b then
        x <- ZUO_CAR a ;;
        null <- zi o_null ;;
        p <- zuo_cons x null ;;
        r <- append_link first last p ;;
        d <- ZUO_CDR a ;;
        append_copy fuel' d (fst r) (snd r)
      else ret (a, first, last)
  end.

(** the lists but the last one: what is left of the arguments, [first], [last] *)
Fixpoint append_loop (fuel : nat) (l first last : loc) : M (loc * loc * loc) :=
  match fuel with
  | O => λ _, Diverge
  | S fuel' =>
      b <- has_tag zuo_pair_tag l ;;
      more <- (if b then d <- ZUO_CDR l ;; has_tag zuo_pair_tag d else ret false) ;;
      if more then
        a <- ZUO_CAR l ;;
        s <- get_st ;;
        r <- append_copy (heap_fuel s) a first last ;;
        let '(e, first, last) := r in
        b <- is_zi o_null e ;;
        if b then d <- ZUO_CDR l ;; append_loop fuel' d first last
        else zuo_fail_arg (bytes_of "append") (bytes_of "list") a
      else ret (l, first, last)
  end.

Definition zuo_append (objs : loc) : M loc :=
  s <- get_st ;;
  null <- zi o_null ;;
  r <- append_loop (heap_fuel s) objs null 0 ;;
  let '(l, first, last) := r in
  b <- has_tag zuo_pair_tag l ;;
  if b then
    a <- ZUO_CAR l ;;
    if decide (last = 0) then ret a else set_ZUO_CDR last a ;;; ret first
  else ret first.

(** ** Strings *)

(** the bytes of a list of integers, each checked first *)
Fixpoint build_string_check (fuel : nat) (l : loc) : M unit :=
  match fuel with
  | O => λ _, Diverge
  | S fuel' =>
      b <- is_zi o_null l ;;
      if b then ret tt
      else
        a <- ZUO_CAR l ;;
        b <- has_tag zuo_integer_tag a ;;
        i <- (if b then ZUO_INT_I a else ret (-1)) ;;
        if negb b || (i <? 0) || (255 <? i)
        then zuo_fail_arg (bytes_of "string") (bytes_of "integer in [0, 255]") a
        else d <- ZUO_CDR l ;; build_string_check fuel' d
  end.

Fixpoint build_string_fill (fuel : nat) (l : loc) (s : list Z) : M (list Z) :=
  match fuel with
  | O => λ _, Diverge
  | S fuel' =>
      b <- is_zi o_null l ;;
      if b then ret s
      else
        a <- ZUO_CAR l ;;
        i <- ZUO_INT_I a ;;
        d <- ZUO_CDR l ;;
        build_string_fill fuel' d (s ++ [to_u8 i])
  end.

Definition zuo_build_string (chars : loc) : M loc :=
  st <- get_st ;;
  build_string_check (heap_fuel st) chars ;;;
  s <- build_string_fill (heap_fuel st) chars [] ;;
  zuo_sized_string s.

Definition zuo_string_length (obj : loc) : M loc :=
  check_string (bytes_of "string-length") obj ;;;
  n <- ZUO_STRING_LEN obj ;;
  zuo_integer n.

(** The addition is in [zuo_int_t]: an overflow is undefined behaviour. *)
Definition check_string_ref_index (who : list Z) (obj i : loc) (width : Z) : M Z :=
  check_string who obj ;;;
  check_integer who i ;;;
  idx <- ZUO_INT_I i ;;
  if idx <? 0 then zuo_fail1w who (bytes_of "index out of bounds for string") i
  else if decide (in_s64 (idx + width)) then
    len <- ZUO_STRING_LEN obj ;;
    if len <? idx + width then zuo_fail1w who (bytes_of "index out of bounds for string") i
    else ret idx
  else ub "signed overflow".

(** [((zuo_string_t * )obj)->s[idx]] *)
Definition string_byte (obj : loc) (idx : Z) : M Z :=
  s <- ZUO_STRING_PTR obj ;;
  match char_at s idx with Some c => ret c | None => ub "read outside of a string" end.

Definition zuo_string_ref (obj i : loc) : M loc :=
  idx <- check_string_ref_index (bytes_of "string-ref") obj i 1 ;;
  c <- string_byte obj idx ;;
  zuo_integer c.

(** [memcpy] into a 32-bit unsigned integer of a little-endian machine *)
Definition zuo_string_u32_ref (obj i : loc) : M loc :=
  idx <- check_string_ref_index (bytes_of "string-u32-ref") obj i 4 ;;
  b0 <- string_byte obj idx ;;
  b1 <- string_byte obj (idx + 1) ;;
  b2 <- string_byte obj (idx + 2) ;;
  b3 <- string_byte obj (idx + 3) ;;
  zuo_integer (b0 + Z.shiftl b1 8 + Z.shiftl b2 16 + Z.shiftl b3 24).

Definition zuo_substring (obj start_i end_i : loc) : M loc :=
  let who := bytes_of "substring" in
  check_string who obj ;;;
  len <- ZUO_STRING_LEN obj ;;
  check_integer who start_i ;;;
  s_idx <- ZUO_INT_I start_i ;;
  u <- is_zi o_undefined end_i ;;
  e_idx <- (if u then ret len else check_integer who end_i ;;; ZUO_INT_I end_i) ;;
  if (s_idx <? 0) || (len <? s_idx)
  then zuo_fail1w who (bytes_of "starting index out of bounds for string") start_i
  else if (e_idx <? 0) || (len <? e_idx)
  then zuo_fail1w who (bytes_of "ending index out of bounds for string") end_i
  else if e_idx <? s_idx
  then zuo_fail1w who (bytes_of "ending index less than starting index") end_i
  else s <- ZUO_STRING_PTR obj ;; zuo_sized_string (slice s s_idx e_idx).

(** also used for paths: a nonempty string without NULs *)
Definition zuo_is_string_without_nul (obj : loc) : M bool :=
  b <- has_tag zuo_string_tag obj ;;
  if b then
    s <- ZUO_STRING_PTR obj ;;
    ret (negb (Nat.eqb (length s) 0) && forallb (λ c, negb (c =? 0)) s)
  else ret false.

Definition zuo_string_to_symbol (obj : loc) : M loc :=
  let who := bytes_of "string->symbol" in
  b <- zuo_is_string_without_nul obj ;;
  if b then s <- ZUO_STRING_PTR obj ;; zuo_symbol_from_string s obj
  else
    check_string who obj ;;;
    zuo_fail_arg who (bytes_of "string without a nul character") obj.

Definition zuo_string_to_uninterned_symbol (obj : loc) : M loc :=
  check_string (bytes_of "string->uninterned-symbol") obj ;;;
  zuo_make_symbol_from_string obj.

Definition zuo_symbol_to_string (obj : loc) : M loc :=
  check_symbol (bytes_of "symbol->string") obj ;;;
  symbol_str obj.

Definition zuo_string_eql (n m : loc) : M loc :=
  let who := bytes_of "string=?" in
  check_string who n ;;;
  check_string who m ;;;
  a <- ZUO_STRING_PTR n ;;
  b <- ZUO_STRING_PTR m ;;
  zbool (bool_decide (a = b)).

Definition zuo_string_ci_eql (n m : loc) : M loc :=
  let who := bytes_of "string-ci=?" in
  check_string who n ;;;
  check_string who m ;;;
  a <- ZUO_STRING_PTR n ;;
  b <- ZUO_STRING_PTR m ;;
  if negb (Nat.eqb (length a) (length b)) then zi o_false
  else zbool (bool_decide (tolower <$> a = tolower <$> b)).

(** [for (i = 0; i <= len - find_len; i++)]: the pieces found, last one first,
    and [start]. *)
Fixpoint split_loop_bytes (fuel : nat) (s fs : list Z) (keep_empty : bool) (i start : Z) (l : loc) :
    M (loc * Z) :=
  match fuel with
  | O => λ _, Diverge
  | S fuel' =>
      let find_len := Z.of_nat (length fs) in
      if i <=? Z.of_nat (length s) - find_len then
        if decide (slice s i (i + find_len) = fs) then
          l <- (if (start <? i) || keep_empty
                then p <- zuo_sized_string (slice s start i) ;; zuo_cons p l
                else ret l) ;;
          let i := i + (find_len - 1) in
          split_loop_bytes fuel' s fs keep_empty (i + 1) (i + 1) l
        else split_loop_bytes fuel' s fs keep_empty (i + 1) start l
      else ret (l, start)
  end.

Definition zuo_string_split (str find_str : loc) : M loc :=
  let who := bytes_of "string-split" in
  check_string who str ;;;
  u <- is_zi o_undefined find_str ;;
  r <- (if u then ret ([32], false)
        else
          b <- has_tag zuo_string_tag find_str ;;
          fs <- (if b then ZUO_STRING_PTR find_str else ret []) ;;
          if Z.of_nat (length fs) <? 1
          then zuo_fail_arg who (bytes_of "nonempty string") find_str
          else ret (fs, true)) ;;
  let '(fs, keep_empty) := r in
  s <- ZUO_STRING_PTR str ;;
  null <- zi o_null ;;
  r <- split_loop_bytes (S (S (length s))) s fs keep_empty 0 0 null ;;
  let '(l, start) := r in
  let len := Z.of_nat (length s) in
  l <- (if (start <? len) || keep_empty
        then p <- zuo_sized_string (slice s start len) ;; zuo_cons p l
        else ret l) ;;
  zuo_reverse l.

Definition zuo_tilde_v (fuel : nat) (objs : loc) : M loc := zuo_to_string fuel objs zuo_print_mode.
Definition zuo_tilde_s (fuel : nat) (objs : loc) : M loc := zuo_to_string fuel objs zuo_write_mode.
Definition zuo_tilde_a (fuel : nat) (objs : loc) : M loc := zuo_to_string fuel objs zuo_display_mode.

(** ** Hash tables *)

(** where the alternation of symbols and values ends *)
Fixpoint hash_check (fuel : nat) (l : loc) : M loc :=
  match fuel with
  | O => λ _, Diverge
  | S fuel' =>
      b <- has_tag zuo_pair_tag l ;;
      if b then
        a <- ZUO_CAR l ;;
        d <- ZUO_CDR l ;;
        b1 <- has_tag zuo_symbol_tag a ;;
        b2 <- has_tag zuo_pair_tag d ;;
        if negb b1 || negb b2 then ret l
        else dd <- ZUO_CDR d ;; hash_check fuel' dd
      else ret l
  end.

Fixpoint hash_fill (fuel : nat) (l ht : loc) : M loc :=
  match fuel with
  | O => λ _, Diverge
  | S fuel' =>
      b <- has_tag zuo_pair_tag l ;;
      if b then
        k <- ZUO_CAR l ;;
        d <- ZUO_CDR l ;;
        v <- ZUO_CAR d ;;
        ht <- zuo_trie_extend ht k v ;;
        dd <- ZUO_CDR d ;;
        hash_fill fuel' dd ht
      else ret ht
  end.

Definition zuo_hash (args : loc) : M loc :=
  s <- get_st ;;
  l <- hash_check (heap_fuel s) args ;;
  b <- is_zi o_null l ;;
  if b then ht <- zi o_empty_hash ;; hash_fill (heap_fuel s) args ht
  else zuo_fail1w (bytes_of "hash") (bytes_of "arguments not symbol keys interleaved with values") args.

Definition zuo_hash_count (ht : loc) : M loc :=
  check_hash (bytes_of "hash-count") ht ;;;
  c <- trie_count ht ;;
  zuo_integer c.

Definition zuo_hash_ref (ht sym defval : loc) : M loc :=
  let who := bytes_of "hash-ref" in
  check_hash who ht ;;;
  check_symbol who sym ;;;
  v <- zuo_trie_lookup ht sym ;;
  b <- is_zi o_undefined v ;;
  if b then
    b <- is_zi o_undefined defval ;;
    if b then zuo_fail1w who (bytes_of "key is not present") sym else ret defval
  else ret v.

Definition zuo_hash_set (ht sym val : loc) : M loc :=
  let who := bytes_of "hash-set" in
  check_hash who ht ;;;
  check_symbol who sym ;;;
  zuo_trie_extend ht sym val.

Definition zuo_hash_remove (ht sym : loc) : M loc :=
  let who := bytes_of "hash-remove" in
  check_hash who ht ;;;
  check_symbol who sym ;;;
  zuo_trie_remove ht sym.

Definition zuo_hash_keys (ht : loc) : M loc :=
  check_hash (bytes_of "hash-keys") ht ;;;
  null <- zi o_null ;;
  zuo_trie_sorted_keys ht null.

Definition zuo_hash_keys_subset_p (ht ht2 : loc) : M loc :=
  let who := bytes_of "hash-keys-subset?" in
  check_hash who ht ;;;
  check_hash who ht2 ;;;
  b <- zuo_trie_keys_subset_p trie_depth ht ht2 ;;
  zbool b.

Definition zuo_opaque_ref (tag obj defval : loc) : M loc :=
  o <- get obj ;;
  match o with
  | Oopaque t v => if decide (t = tag) then ret v else ret defval
  | _ => ret defval
  end.

(** ** Integers

    Sums, differences and products are computed in [zuo_uint_t], that is
    modulo 2^64, and converted back. *)

Definition check_ints (n m : loc) (who : list Z) : M unit :=
  check_integer who n ;;; check_integer who m.

(** [while (ns != z.o_null)]: [op] folds the integers into [i] *)
Fixpoint arith_loop (fuel : nat) (who : list Z) (op : Z → Z → Z) (ns : loc) (i : Z) : M Z :=
  match fuel with
  | O => λ _, Diverge
  | S fuel' =>
      b <- is_zi o_null ns ;;
      if b then ret i
      else
        n <- ZUO_CAR ns ;;
        check_integer who n ;;;
        u <- ZUO_UINT_I n ;;
        d <- ZUO_CDR ns ;;
        arith_loop fuel' who op d (to_u64 (op i u))
  end.

Definition zuo_add (ns : loc) : M loc :=
  s <- get_st ;;
  i <- arith_loop (heap_fuel s) (bytes_of "+") Z.add ns 0 ;;
  zuo_integer (to_s64 i).

Definition zuo_subtract (ns : loc) : M loc :=
  s <- get_st ;;
  n <- ZUO_CAR ns ;;
  check_integer (bytes_of "-") n ;;;
  i <- ZUO_UINT_I n ;;
  d <- ZUO_CDR ns ;;
  b <- is_zi o_null d ;;
  i <- (if b then ret (to_u64 (- i)) else arith_loop (heap_fuel s) (bytes_of "-") Z.sub d i) ;;
  zuo_integer (to_s64 i).

Definition zuo_multiply (ns : loc) : M loc :=
  s <- get_st ;;
  i <- arith_loop (heap_fuel s) (bytes_of "*") Z.mul ns 1 ;;
  zuo_integer (to_s64 i).

Definition zuo_quotient (n m : loc) : M loc :=
  let who := bytes_of "quotient" in
  check_ints n m who ;;;
  u <- ZUO_UINT_I m ;;
  let m_i := to_s64 u in
  if m_i =? 0 then zuo_fail1w who (bytes_of "divide by zero") m
  else if m_i =? -1 then u <- ZUO_UINT_I n ;; zuo_integer (to_s64 (to_u64 (0 - u)))
  else i <- ZUO_INT_I n ;; zuo_integer (Z.quot i m_i).

Definition zuo_remainder (n m : loc) : M loc :=
  let who := bytes_of "remainder" in
  check_ints n m who ;;;
  u <- ZUO_UINT_I m ;;
  let m_i := to_s64 u in
  if m_i =? 0 then zuo_fail1w who (bytes_of "divide by zero") m
  else if m_i =? -1 then zuo_integer 0
  else i <- ZUO_INT_I n ;; zuo_integer (Z.rem i m_i).

Definition zuo_not (obj : loc) : M loc := b <- is_zi o_false obj ;; zbool b.

Definition compare_ints (who : string) (cmp : Z → Z → bool) (n m : loc) : M loc :=
  check_ints n m (bytes_of who) ;;;
  i <- ZUO_INT_I n ;;
  j <- ZUO_INT_I m ;;
  zbool (cmp i j).
Definition zuo_eql : loc → loc → M loc := compare_ints "=" Z.eqb.
Definition zuo_lt : loc → loc → M loc := compare_ints "<" Z.ltb.
Definition zuo_le : loc → loc → M loc := compare_ints "<=" Z.leb.
Definition zuo_ge : loc → loc → M loc := compare_ints ">=" Z.geb.
Definition zuo_gt : loc → loc → M loc := compare_ints ">" Z.gtb.

Definition bitwise (who : string) (op : Z → Z → Z) (n m : loc) : M loc :=
  check_ints n m (bytes_of who) ;;;
  i <- ZUO_UINT_I n ;;
  j <- ZUO_UINT_I m ;;
  zuo_integer (to_s64 (op i j)).
Definition zuo_bitwise_and : loc → loc → M loc := bitwise "bitwise-and" Z.land.
Definition zuo_bitwise_ior : loc → loc → M loc := bitwise "bitwise-ior" Z.lor.
Definition zuo_bitwise_xor : loc → loc → M loc := bitwise "bitwise-xor" Z.lxor.
Definition zuo_bitwise_not (n : loc) : M loc :=
  check_integer (bytes_of "bitwise-not") n ;;;
  i <- ZUO_UINT_I n ;;
  zuo_integer (to_s64 (to_u64 (Z.lnot i))).

Definition zuo_eq (n m : loc) : M loc := zbool (bool_decide (n = m)).

(** ** Errors and exit *)

(** [zuo_falert]: a leading string is displayed as it is, the other objects
    are printed. *)
Definition zuo_falert (fuel : nat) (objs : loc) : M unit :=
  b <- has_tag zuo_pair_tag objs ;;
  lead <- (if b then a <- ZUO_CAR objs ;; has_tag zuo_string_tag a else ret false) ;;
  objs <- (if lead then
             a <- ZUO_CAR objs ;;
             zuo_fout fuel a zuo_display_mode ;;;
             d <- ZUO_CDR objs ;;
             b <- is_zi o_null d ;;
             (if b then ret tt
              else write_stdout (bytes_of ": ")) ;;;
             ret d
           else ret objs) ;;
  str <- zuo_tilde_v fuel objs ;;
  zuo_fout fuel str zuo_display_mode.

(** The message goes to the error stream; it is determined by [objs]. *)
Definition zuo_error (objs : loc) : M loc := fail (Eerror objs).

Definition zuo_arg_error (name what arg : loc) : M loc :=
  let who := bytes_of "arg-error" in
  check_symbol who name ;;;
  check_string who what ;;;
  str <- symbol_str name ;;
  n <- ZUO_STRING_PTR str ;;
  w <- ZUO_STRING_PTR what ;;
  zuo_fail_arg (c_str n) (c_str w) arg.

Definition zuo_arity_error (fuel : nat) (name args : loc) : M loc :=
  let who := bytes_of "arity-error" in
  f <- is_zi o_false name ;;
  b <- (if f then ret true else has_tag zuo_string_tag name) ;;
  if negb b then zuo_fail_arg who (bytes_of "string or #f") name else
  l <- zuo_list_p args ;;
  b <- is_zi o_true l ;;
  if negb b then zuo_fail_arg who (bytes_of "list") args else
  n <- is_zi o_null args ;;
  null <- zi o_null ;;
  shown <- (if n then zuo_string (bytes_of "[no arguments]") else zuo_tilde_v fuel args) ;;
  l <- zuo_cons shown null ;;
  m <- zuo_string (bytes_of ": wrong number of arguments: ") ;;
  l <- zuo_cons m l ;;
  p <- (if f then zuo_string (bytes_of "[procedure]") else ret name) ;;
  l <- zuo_cons p l ;;
  msg <- zuo_tilde_a fuel l ;;
  b <- ZUO_STRING_PTR msg ;;
  zuo_fail (c_str b).

Definition zuo_fail_arity {A} (fuel : nat) (rator args : loc) : M A :=
  o <- get rator ;;
  z <- get_st ;;
  let z := s_img z in
  name <-
    (match o with
     | Oprimitive _ _ _ n => symbol_str n
     | Oclosure lambda _ =>
         d <- ZUO_CDR lambda ;;
         body <- ZUO_CDR d ;;
         body_d <- ZUO_CDR body ;;
         b <- is_zi o_null body_d ;;
         if b then zi o_false else ZUO_CAR body
     | _ =>
         if decide (rator = o_apply z) then zuo_string (bytes_of "apply")
         else if decide (rator = o_call_cc z) then zuo_string (bytes_of "call/cc")
         else if decide (rator = o_call_prompt z) then zuo_string (bytes_of "call/prompt")
         else if decide (rator = o_kernel_eval z) then zuo_string (bytes_of "kernel-eval")
         else zi o_false
     end) ;;
  zuo_arity_error fuel name args ;;;
  ub "arity-error returned".

Definition zuo_exit (val : loc) : M loc :=
  u <- is_zi o_undefined val ;;
  if u then zuo_exit_int 0 else
  b <- has_tag zuo_integer_tag val ;;
  i <- (if b then ZUO_INT_I val else ret (-1)) ;;
  if (i <? 0) || (255 <? i) then zuo_fail_arg (bytes_of "exit") (bytes_of "integer in [0, 255]") val
  else zuo_exit_int i.

(** ** Variables and the rest *)

Definition zuo_prompt_avail_p (tag : loc) : M loc :=
  check_symbol (bytes_of "continuation-prompt-available?") tag ;;;
  meta_k <- zr o_interp_meta_k ;;
  b <- is_zi o_null meta_k ;;
  if b then zi o_false
  else
    a <- ZUO_CAR meta_k ;;
    d <- ZUO_CDR a ;;
    zbool (bool_decide (tag = d)).

Definition zuo_variable_p : loc → M loc := tag_p zuo_variable_tag.

Definition zuo_make_variable (name : loc) : M loc :=
  check_symbol (bytes_of "variable") name ;;; zuo_variable name.

Definition zuo_variable_ref (var : loc) : M loc :=
  o <- get var ;;
  match o with
  | Ovariable name val =>
      b <- is_zi o_undefined val ;;
      if b then fail (Eundefined name) else ret val
  | _ => zuo_fail_arg (bytes_of "variable-ref") (bytes_of "variable") var
  end.

Definition zuo_variable_set (var val : loc) : M loc :=
  o <- get var ;;
  match o with
  | Ovariable name old =>
      b <- is_zi o_undefined old ;;
      if b then put var (Ovariable name val) ;;; zi o_void
      else zuo_fail1w (bytes_of "variable-set!") (bytes_of "variable already has a value") var
  | _ => zuo_fail_arg (bytes_of "variable-set!") (bytes_of "variable") var
  end.

Definition zuo_make_void (args : loc) : M loc := zi o_void.

Definition zuo_kernel_env : M loc := zi o_top_env.
