(* ===== verification/Interp.v ===== *)
(** * The interpreter

    The syntax check of kernel expressions and the CEK-style machine whose
    registers are the runtime roots [o_interp_e], [o_interp_v],
    [o_interp_env], [o_interp_k], [o_interp_in_proc] and [o_interp_meta_k].

    The debugging output of [ZUO_PROBE_EACH] is left out. *)

From S2P Require Import Prelude Sys Heap Alloc Gc Objects Trie Intern Sort Printer Reader Prims.

(** ** Syntax *)

Definition bad_form {A} (e : loc) : M A := fail (Ebad_form e).

Definition is_pair : loc → M bool := has_tag zuo_pair_tag.
Definition is_null : loc → M bool := is_zi o_null.

(** [if (x->tag != zuo_pair_tag) bad_form(e);] *)
Definition need_pair (e x : loc) : M unit := b <- is_pair x ;; if b then ret tt else bad_form e.
Definition need_null (e x : loc) : M unit := b <- is_null x ;; if b then ret tt else bad_form e.
(** [if ((x->tag != zuo_pair_tag) || (_zuo_cdr(x) != z.o_null)) bad_form(e);] *)
Definition need_last (e x : loc) : M unit :=
  need_pair e x ;;; d <- ZUO_CDR x ;; need_null e d.
Definition need_symbol (e x : loc) : M unit :=
  b <- has_tag zuo_symbol_tag x ;; if b then ret tt else bad_form e.

Definition check_quote (e es : loc) : M loc :=
  d <- ZUO_CDR e ;; need_last e d ;;; ret es.

Definition check_if (e es : loc) : M loc :=
  d <- ZUO_CDR e ;;
  need_pair e d ;;;
  dd <- ZUO_CDR d ;;
  need_pair e dd ;;;
  ddd <- ZUO_CDR dd ;;
  need_last e ddd ;;;
  x <- ZUO_CAR ddd ;; es <- zuo_cons x es ;;
  x <- ZUO_CAR dd ;; es <- zuo_cons x es ;;
  x <- ZUO_CAR d ;; zuo_cons x es.

Fixpoint check_formals (fuel : nat) (e ad : loc) : M loc :=
  match fuel with
  | O => λ _, Diverge
  | S fuel' =>
      b <- is_pair ad ;;
      if b then
        a <- ZUO_CAR ad ;;
        need_symbol e a ;;;
        d <- ZUO_CDR ad ;;
        check_formals fuel' e d
      else ret ad
  end.

Definition check_lambda (e es : loc) : M loc :=
  d <- ZUO_CDR e ;;
  need_pair e d ;;;
  ad <- ZUO_CAR d ;;
  dd <- ZUO_CDR d ;;
  need_pair e dd ;;;
  ddd <- ZUO_CDR dd ;;
  b <- is_null ddd ;;
  dd <- (if b then ret dd
         else
           a <- ZUO_CAR dd ;;
           b <- has_tag zuo_string_tag a ;;
           if b then need_pair e ddd ;;; ret ddd else bad_form e) ;;
  ddd <- ZUO_CDR dd ;;
  need_null e ddd ;;;
  s <- get_st ;;
  ad <- check_formals (heap_fuel s) e ad ;;
  b <- is_null ad ;;
  (if b then ret tt else need_symbol e ad) ;;;
  x <- ZUO_CAR dd ;;
  zuo_cons x es.

Definition check_let (e es : loc) : M loc :=
  d <- ZUO_CDR e ;;
  need_pair e d ;;;
  ad <- ZUO_CAR d ;;
  dd <- ZUO_CDR d ;;
  need_last e dd ;;;
  need_last e ad ;;;
  aad <- ZUO_CAR ad ;;
  need_pair e aad ;;;
  x <- ZUO_CAR aad ;;
  need_symbol e x ;;;
  daad <- ZUO_CDR aad ;;
  need_last e daad ;;;
  adaad <- ZUO_CAR daad ;;
  es <- zuo_cons adaad es ;;
  x <- ZUO_CAR dd ;;
  zuo_cons x es.

(** [while (l->tag == zuo_pair_tag)]: the elements join the work list *)
Fixpoint check_each (fuel : nat) (l es : loc) : M (loc * loc) :=
  match fuel with
  | O => λ _, Diverge
  | S fuel' =>
      b <- is_pair l ;;
      if b then
        a <- ZUO_CAR l ;;
        es <- zuo_cons a es ;;
        d <- ZUO_CDR l ;;
        check_each fuel' d es
      else ret (l, es)
  end.

Definition check_seq (e l es : loc) : M loc :=
  s <- get_st ;;
  r <- check_each (heap_fuel s) l es ;;
  need_null e (fst r) ;;;
  ret (snd r).

Definition check_begin (e es : loc) : M loc :=
  l <- ZUO_CDR e ;; need_pair e l ;;; check_seq e l es.

(** One expression of the work list. *)
Definition check_form (e es : loc) : M loc :=
  b <- is_pair e ;;
  if b then
    rator <- ZUO_CAR e ;;
    z <- get_st ;;
    let z := s_img z in
    if decide (rator = o_quote_symbol z) then check_quote e es
    else if decide (rator = o_if_symbol z) then check_if e es
    else if decide (rator = o_lambda_symbol z) then check_lambda e es
    else if decide (rator = o_let_symbol z) then check_let e es
    else if decide (rator = o_begin_symbol z) then check_begin e es
    else check_seq e e es
  else ret es.

(** [fuel] bounds the number of subexpressions. *)
Fixpoint check_loop (fuel : nat) (es : loc) : M unit :=
  match fuel with
  | O => λ _, Diverge
  | S fuel' =>
      b <- is_null es ;;
      if b then ret tt
      else
        e <- ZUO_CAR es ;;
        es <- ZUO_CDR es ;;
        es <- check_form e es ;;
        check_loop fuel' es
  end.

Definition check_syntax (fuel : nat) (e : loc) : M unit :=
  null <- zi o_null ;;
  es <- zuo_cons e null ;;
  check_loop fuel es.

(** ** Environments *)

Definition env_extend (env sym val : loc) : M loc := p <- zuo_cons sym val ;; zuo_cons p env.

Fixpoint env_lookup_loop (fuel : nat) (env sym : loc) : M loc :=
  match fuel with
  | O => λ _, Diverge
  | S fuel' =>
      b <- is_pair env ;;
      if b then
        a <- ZUO_CAR env ;;
        k <- ZUO_CAR a ;;
        if decide (k = sym) then ZUO_CDR a
        else d <- ZUO_CDR env ;; env_lookup_loop fuel' d sym
      else zuo_trie_lookup env sym
  end.

Definition env_lookup (env sym : loc) : M loc :=
  s <- get_st ;; env_lookup_loop (heap_fuel s) env sym.

(** ** Evaluation *)

(** [Z.o_interp_k = zuo_cont(tag, data, Z.o_interp_env, Z.o_interp_in_proc, Z.o_interp_k)] *)
Definition push_cont (tag : zuo_cont_tag_t) (data : loc) : M unit :=
  env <- zr o_interp_env ;;
  in_proc <- zr o_interp_in_proc ;;
  k <- zr o_interp_k ;;
  k <- zuo_cont tag data env in_proc k ;;
  set_zr set_o_interp_k k.

Definition interp_pair (e : loc) : M unit :=
  rator <- ZUO_CAR e ;;
  z <- get_st ;;
  let z := s_img z in
  if decide (rator = o_quote_symbol z) then
    d <- ZUO_CDR e ;; v <- ZUO_CAR d ;; set_zr set_o_interp_v v
  else if decide (rator = o_if_symbol z) then
    d <- ZUO_CDR e ;;
    x <- ZUO_CAR d ;;
    set_zr set_o_interp_e x ;;;
    dd <- ZUO_CDR d ;;
    push_cont zuo_if_cont dd
  else if decide (rator = o_lambda_symbol z) then
    e <- zr o_interp_e ;;
    env <- zr o_interp_env ;;
    v <- zuo_closure e env ;;
    set_zr set_o_interp_v v
  else if decide (rator = o_let_symbol z) then
    d <- ZUO_CDR e ;;
    ad <- ZUO_CAR d ;;
    aad <- ZUO_CAR ad ;;
    daad <- ZUO_CDR aad ;;
    x <- ZUO_CAR daad ;;
    set_zr set_o_interp_e x ;;;
    push_cont zuo_let_cont d
  else if decide (rator = o_begin_symbol z) then
    d <- ZUO_CDR e ;;
    dd <- ZUO_CDR d ;;
    x <- ZUO_CAR d ;;
    set_zr set_o_interp_e x ;;;
    b <- is_null dd ;;
    if b then ret tt else push_cont zuo_begin_cont dd
  else
    set_zr set_o_interp_e rator ;;;
    null <- zi o_null ;;
    d <- ZUO_CDR e ;;
    data <- zuo_cons null d ;;
    push_cont zuo_apply_cont data.

Definition interp_step : M unit :=
  e <- zr o_interp_e ;;
  o <- get e ;;
  match obj_tag o with
  | zuo_symbol_tag =>
      env <- zr o_interp_env ;;
      val <- env_lookup env e ;;
      b <- is_zi o_undefined val ;;
      if b then zuo_fail1 (bytes_of "undefined") e else set_zr set_o_interp_v val
  | zuo_pair_tag => interp_pair e
  | _ => set_zr set_o_interp_v e
  end.

(** ** Application *)

(** [while (_zuo_cdr(rev_vals) != z.o_null)]: the operator, the arguments in
    order and their number *)
Fixpoint unreverse (fuel : nat) (rev_vals args : loc) (count : Z) : M (loc * loc * Z) :=
  match fuel with
  | O => λ _, Diverge
  | S fuel' =>
      d <- ZUO_CDR rev_vals ;;
      b <- is_null d ;;
      a <- ZUO_CAR rev_vals ;;
      if b then ret (a, args, count)
      else
        args <- zuo_cons a args ;;
        unreverse fuel' d args (count + 1)
  end.

(** [while (formals->tag == zuo_pair_tag)]: the environment, what is left of
    the arguments and of the formals *)
Fixpoint bind_formals (fuel : nat) (env formals args : loc) : M (loc * loc * loc) :=
  match fuel with
  | O => λ _, Diverge
  | S fuel' =>
      b <- is_pair formals ;;
      if b then
        b <- is_null args ;;
        if b then ret (env, formals, args)
        else
          f <- ZUO_CAR formals ;;
          a <- ZUO_CAR args ;;
          env <- env_extend env f a ;;
          args <- ZUO_CDR args ;;
          formals <- ZUO_CDR formals ;;
          bind_formals fuel' env formals args
      else ret (env, formals, args)
  end.

Definition apply_closure (fuel : nat) (rator lambda env args : loc) : M unit :=
  let all_args := args in
  d <- ZUO_CDR lambda ;;
  formals <- ZUO_CAR d ;;
  body <- ZUO_CDR d ;;
  body_d <- ZUO_CDR body ;;
  b <- is_null body_d ;;
  body <- (if b then f <- zi o_false ;; set_zr set_o_interp_in_proc f ;;; ret body
           else
             a <- ZUO_CAR body ;;
             b <- has_tag zuo_string_tag a ;;
             if b then set_zr set_o_interp_in_proc a ;;; ret body_d
             else f <- zi o_false ;; set_zr set_o_interp_in_proc f ;;; ret body) ;;
  s <- get_st ;;
  r <- bind_formals (heap_fuel s) env formals args ;;
  let '(env, formals, args) := r in
  b <- has_tag zuo_symbol_tag formals ;;
  env <- (if b then env_extend env formals args
          else
            b1 <- is_null formals ;;
            b2 <- is_null args ;;
            if negb b1 || negb b2 then zuo_fail_arity fuel rator all_args else ret env) ;;
  x <- ZUO_CAR body ;;
  set_zr set_o_interp_e x ;;;
  set_zr set_o_interp_env env ;;;
  u <- zi o_undefined ;;
  set_zr set_o_interp_v u.

(** [f->arity_mask & ((zuo_uint_t)1 << min(count, ZUO_MAX_PRIM_ARITY))] *)
Definition arity_accepts (mask count : Z) : bool :=
  negb (Z.land (to_u64 mask)
          (Z.shiftl 1 (if ZUO_MAX_PRIM_ARITY <=? count then ZUO_MAX_PRIM_ARITY else count)) =? 0).

Section apply.
(** [f->dispatcher(f->proc, args)] *)
Variable call_primitive : dispatcher → string → loc → M loc.

(** [while (1)], again for [apply], [call/cc] and [call/prompt] *)
Fixpoint apply_loop (afuel fuel : nat) (rator args : loc) (count : Z) : M unit :=
  match afuel with
  | O => λ _, Diverge
  | S afuel' =>
      o <- get rator ;;
      z <- get_st ;;
      let z := s_img z in
      match o with
      | Oclosure lambda env => apply_closure fuel rator lambda env args
      | Oprimitive disp proc mask _ =>
          if arity_accepts mask count then
            v <- call_primitive disp proc args ;; set_zr set_o_interp_v v
          else zuo_fail_arity fuel rator args
      | Ocont _ _ _ _ _ =>
          if count =? 1 then
            set_zr set_o_interp_k rator ;;;
            v <- ZUO_CAR args ;;
            set_zr set_o_interp_v v
          else zuo_fail_arity fuel rator args
      | _ =>
          if decide (rator = o_apply z) then
            if negb (count =? 2) then zuo_fail_arity fuel (o_apply z) args else
            rator <- ZUO_CAR args ;;
            d <- ZUO_CDR args ;;
            args <- ZUO_CAR d ;;
            l <- zuo_list_p args ;;
            b <- is_zi o_true l ;;
            if negb b then zuo_fail_arg (bytes_of "apply") (bytes_of "list") args else
            count <- zuo_length_int args ;;
            apply_loop afuel' fuel rator args count
          else if decide (rator = o_call_cc z) then
            if negb (count =? 1) then zuo_fail_arity fuel (o_call_cc z) args else
            rator <- ZUO_CAR args ;;
            k <- zr o_interp_k ;;
            null <- zi o_null ;;
            args <- zuo_cons k null ;;
            apply_loop afuel' fuel rator args count
          else if decide (rator = o_call_prompt z) then
            if negb (count =? 2) then zuo_fail_arity fuel (o_call_prompt z) args else
            rator <- ZUO_CAR args ;;
            d <- ZUO_CDR args ;;
            tag <- ZUO_CAR d ;;
            b <- has_tag zuo_symbol_tag tag ;;
            if negb b then zuo_fail1w (bytes_of "call/prompt") (bytes_of "not a symbol") tag else
            k <- zr o_interp_k ;;
            p <- zuo_cons k tag ;;
            meta_k <- zr o_interp_meta_k ;;
            meta_k <- zuo_cons p meta_k ;;
            set_zr set_o_interp_meta_k meta_k ;;;
            done_k <- zi o_done_k ;;
            set_zr set_o_interp_k done_k ;;;
            null <- zi o_null ;;
            apply_loop afuel' fuel rator null 0
          else if decide (rator = o_kernel_eval z) then
            if negb (count =? 1) then zuo_fail_arity fuel (o_kernel_eval z) args else
            e <- ZUO_CAR args ;;
            set_zr set_o_interp_e e ;;;
            check_syntax fuel e ;;;
            k <- zr o_interp_k ;;
            u <- zi o_undefined ;;
            p <- zuo_cons k u ;;
            meta_k <- zr o_interp_meta_k ;;
            meta_k <- zuo_cons p meta_k ;;
            set_zr set_o_interp_meta_k meta_k ;;;
            set_zr set_o_interp_v u ;;;
            env <- zi o_top_env ;;
            set_zr set_o_interp_env env ;;;
            done_k <- zi o_done_k ;;
            set_zr set_o_interp_k done_k
          else zuo_fail1 (bytes_of "not a procedure for application") rator
      end
  end.

(** ** Continuations *)

Definition continue_apply (fuel : nat) (data env : loc) : M unit :=
  rev_vals <- ZUO_CAR data ;;
  exps <- ZUO_CDR data ;;
  v <- zr o_interp_v ;;
  rev_vals <- zuo_cons v rev_vals ;;
  b <- is_null exps ;;
  if b then
    null <- zi o_null ;;
    s <- get_st ;;
    r <- unreverse (heap_fuel s) rev_vals null 0 ;;
    let '(rator, args, count) := r in
    apply_loop fuel fuel rator args count
  else
    x <- ZUO_CAR exps ;;
    set_zr set_o_interp_e x ;;;
    set_zr set_o_interp_env env ;;;
    d <- ZUO_CDR exps ;;
    data <- zuo_cons rev_vals d ;;
    push_cont zuo_apply_cont data ;;;
    u <- zi o_undefined ;;
    set_zr set_o_interp_v u.

Definition continue_let (data env : loc) : M unit :=
  d <- ZUO_CDR data ;;
  x <- ZUO_CAR d ;;
  set_zr set_o_interp_e x ;;;
  ad <- ZUO_CAR data ;;
  aad <- ZUO_CAR ad ;;
  sym <- ZUO_CAR aad ;;
  v <- zr o_interp_v ;;
  env <- env_extend env sym v ;;
  set_zr set_o_interp_env env ;;;
  u <- zi o_undefined ;;
  set_zr set_o_interp_v u.

Definition continue_begin (data env : loc) : M unit :=
  d <- ZUO_CDR data ;;
  x <- ZUO_CAR data ;;
  set_zr set_o_interp_e x ;;;
  set_zr set_o_interp_env env ;;;
  b <- is_null d ;;
  (if b then ret tt else push_cont zuo_begin_cont d) ;;;
  u <- zi o_undefined ;;
  set_zr set_o_interp_v u.

Definition continue_if (data env : loc) : M unit :=
  v <- zr o_interp_v ;;
  b <- is_zi o_false v ;;
  x <- (if b then d <- ZUO_CDR data ;; ZUO_CAR d else ZUO_CAR data) ;;
  set_zr set_o_interp_e x ;;;
  set_zr set_o_interp_env env ;;;
  u <- zi o_undefined ;;
  set_zr set_o_interp_v u.

Definition continue_step (fuel : nat) : M unit :=
  k <- zr o_interp_k ;;
  o <- get k ;;
  match o with
  | Ocont tag data env in_proc next =>
      set_zr set_o_interp_k next ;;;
      set_zr set_o_interp_in_proc in_proc ;;;
      match tag with
      | zuo_apply_cont => continue_apply fuel data env
      | zuo_let_cont => continue_let data env
      | zuo_begin_cont => continue_begin data env
      | zuo_if_cont => continue_if data env
      | zuo_done_cont => ret tt
      end
  | _ => ub "continuation register holds no continuation"
  end.

(** ** The main loop *)

(** One iteration; the value when the loop returns. *)
Definition eval_step (fuel : nat) : M (option loc) :=
  zuo_check_collect ;;;
  v <- zr o_interp_v ;;
  b <- is_zi o_undefined v ;;
  if b then interp_step ;;; ret None
  else
    k <- zr o_interp_k ;;
    b <- is_zi o_done_k k ;;
    if b then
      meta_k <- zr o_interp_meta_k ;;
      b <- is_null meta_k ;;
      if b then
        f <- zi o_false ;;
        set_zr set_o_interp_env f ;;;
        set_zr set_o_interp_v f ;;;
        set_zr set_o_interp_e f ;;;
        ret (Some v)
      else
        a <- ZUO_CAR meta_k ;;
        k <- ZUO_CAR a ;;
        set_zr set_o_interp_k k ;;;
        d <- zuo_cdr meta_k ;;
        set_zr set_o_interp_meta_k d ;;;
        ret None
    else continue_step fuel ;;; ret None.

Fixpoint eval_loop (steps fuel : nat) : M loc :=
  match steps with
  | O => λ _, Diverge
  | S steps' =>
      r <- eval_step fuel ;;
      match r with
      | Some v => ret v
      | None => eval_loop steps' fuel
      end
  end.

(** [steps] bounds the machine's steps and [fuel] the loops inside of one:
    a program that runs longer is reported as [Diverge]. *)
Definition zuo_kernel_eval (steps fuel : nat) (e : loc) : M loc :=
  check_syntax fuel e ;;;
  set_zr set_o_interp_e e ;;;
  u <- zi o_undefined ;;
  set_zr set_o_interp_v u ;;;
  env <- zi o_top_env ;;
  set_zr set_o_interp_env env ;;;
  done_k <- zi o_done_k ;;
  set_zr set_o_interp_k done_k ;;;
  null <- zi o_null ;;
  set_zr set_o_interp_meta_k null ;;;
  eval_loop steps fuel.
End apply.
