(* ===== verification/Machine.v ===== *)
(** * The kernel language on trees

    The specification of the interpreter: a CEK machine whose expressions,
    environments and continuations are trees, and a big-step semantics that the
    machine implements.  Nothing here mentions addresses, allocation or
    collection. *)

From S2P Require Import Prelude Sys Heap Alloc Gc GcCorrect Objects Trie Lists ImageOk Value Intern Sort Printer Reader Prims Interp.

#[local] Arguments Nat.ltb : simpl never.

(** ** Lists as trees *)

Fixpoint of_list (vs : list val) : val :=
  match vs with [] => Vnull | v :: vs' => Vpair v (of_list vs') end.

Fixpoint vlist (v : val) : option (list val) :=
  match v with
  | Vnull => Some []
  | Vpair a d => vs ← vlist d; Some (a :: vs)
  | _ => None
  end.

(** The number of nodes that pairs make. *)
Fixpoint vsize (v : val) : nat := match v with Vpair a d => S (vsize a + vsize d) | _ => 1%nat end.

Lemma vlist_of_list vs : vlist (of_list vs) = Some vs.
Proof. induction vs as [|v vs IH]; [done|]. cbn. by rewrite IH. Qed.

Lemma vlist_Some v vs : vlist v = Some vs → v = of_list vs.
Proof.
  revert vs. induction v; intros vs; cbn; try done; [by intros [= <-]|].
  destruct (vlist v2) as [ws|] eqn:E; [|done]. intros [= <-]. cbn. f_equal. by apply IHv2.
Qed.

Section machine.
(** [P] gives results of primitives. *)
Context (K : keywords) (T : Z → option val) (P : dispatcher → string → list val → option val).

(** ** Expressions *)

Inductive form :=
  | Fvar (id : Z) | Fconst (v : val) | Fquote (v : val) | Fif (c dd : val) | Flambda
  | Flet (x rhs d : val) | Fbegin (x dd : val) | Fapp (rator d : val).

(** The form of an expression, as far as [interp_step] looks. *)
Definition view (e : val) : option form :=
  match e with
  | Vsym id => Some (Fvar id)
  | Vpair rator d =>
      if decide (rator = Vsym (k_quote K)) then
        match d with Vpair x _ => Some (Fquote x) | _ => None end
      else if decide (rator = Vsym (k_if K)) then
        match d with Vpair c dd => Some (Fif c dd) | _ => None end
      else if decide (rator = Vsym (k_lambda K)) then Some Flambda
      else if decide (rator = Vsym (k_let K)) then
        match d with
        | Vpair (Vpair (Vpair x (Vpair rhs _)) _) _ => Some (Flet x rhs d)
        | _ => None
        end
      else if decide (rator = Vsym (k_begin K)) then
        match d with Vpair x dd => Some (Fbegin x dd) | _ => None end
      else Some (Fapp rator d)
  | v => Some (Fconst v)
  end.

Lemma view_let e x rhs d :
  view e = Some (Flet x rhs d) → ∃ r1 r2 r3, d = Vpair (Vpair (Vpair x (Vpair rhs r1)) r2) r3.
Proof.
  destruct e; cbn; try done. intros H. repeat (case_match; simplify_eq; try done). eauto.
Qed.

(** The grammar of kernel expressions. *)
Fixpoint wf_formals (f : val) : bool :=
  match f with
  | Vnull | Vsym _ => true
  | Vpair (Vsym _) f' => wf_formals f'
  | _ => false
  end.

Fixpoint wf_expr (e : val) : bool :=
  let seq := fix seq (l : val) : bool :=
    match l with
    | Vnull => true
    | Vpair a l' => wf_expr a && seq l'
    | _ => false
    end in
  match e with
  | Vpair rator d =>
      if decide (rator = Vsym (k_quote K)) then
        match d with Vpair _ Vnull => true | _ => false end
      else if decide (rator = Vsym (k_if K)) then
        match d with
        | Vpair a (Vpair b (Vpair c Vnull)) => wf_expr a && wf_expr b && wf_expr c
        | _ => false
        end
      else if decide (rator = Vsym (k_lambda K)) then
        match d with
        | Vpair f (Vpair b Vnull) => wf_formals f && wf_expr b
        | Vpair f (Vpair (Vstr _) (Vpair b Vnull)) => wf_formals f && wf_expr b
        | _ => false
        end
      else if decide (rator = Vsym (k_let K)) then
        match d with
        | Vpair (Vpair (Vpair (Vsym _) (Vpair rhs Vnull)) Vnull) (Vpair b Vnull) =>
            wf_expr rhs && wf_expr b
        | _ => false
        end
      else if decide (rator = Vsym (k_begin K)) then
        match d with Vpair a l => wf_expr a && seq l | _ => false end
      else wf_expr rator && seq d
  | _ => true
  end.

(** ** Environments *)

Fixpoint env_find (env : val) (id : Z) : option val :=
  match env with
  | Vpair (Vpair (Vsym id') v) env' => if decide (id' = id) then Some v else env_find env' id
  | Vtop_env => T id
  | _ => None
  end.

Definition env_add (env x v : val) : val := Vpair (Vpair x v) env.

(** ** Applying a closure *)

Fixpoint bind_args (formals args env : val) : option val :=
  match formals with
  | Vpair f fs =>
      match args with
      | Vpair a args' => bind_args fs args' (env_add env f a)
      | _ => None
      end
  | Vsym _ => Some (env_add env formals args)
  | Vnull => if decide (args = Vnull) then Some env else None
  | _ => None
  end.

(** The expression after the optional name of the function. *)
Definition lambda_body (b body_d : val) : option val :=
  match b, body_d with
  | _, Vnull => Some b
  | Vstr _, Vpair b' _ => Some b'
  | Vstr _, _ => None
  | _, _ => Some b
  end.

Definition enter (lambda env args : val) : option (val * val) :=
  match lambda with
  | Vpair _ (Vpair formals (Vpair b body_d)) =>
      body ← lambda_body b body_d;
      env' ← bind_args formals args env;
      Some (body, env')
  | _ => None
  end.

(** ** The machine *)

(** The suspended continuations, with the symbol of [call/prompt]. *)
Definition meta : Type := list (val * option Z).

Inductive astate :=
  | AEval (e env k : val) (m : meta)
  | ARet (v k : val) (m : meta).

Definition interp (e env k : val) (m : meta) : option astate :=
  f ← view e;
  match f with
  | Fvar id => v ← env_find env id; Some (ARet v k m)
  | Fconst v | Fquote v => Some (ARet v k m)
  | Fif c dd => Some (AEval c env (Vcont zuo_if_cont dd env k) m)
  | Flambda => Some (ARet (Vclosure e env) k m)
  | Flet _ rhs d => Some (AEval rhs env (Vcont zuo_let_cont d env k) m)
  | Fbegin x dd =>
      Some (AEval x env (if decide (dd = Vnull) then k else Vcont zuo_begin_cont dd env k) m)
  | Fapp rator d => Some (AEval rator env (Vcont zuo_apply_cont (Vpair Vnull d) env k) m)
  end.

(** [n] bounds the loops of a step: the chain of [apply], [call/cc] and
    [call/prompt], and the syntax check of [kernel-eval]. *)
Fixpoint apply_val (n : nat) (f args k : val) (m : meta) : option astate :=
  match n with
  | O => None
  | S n' =>
      match f with
      | Vclosure lambda env =>
          be ← enter lambda env args; Some (AEval (fst be) (snd be) k m)
      | Vprim disp proc mask =>
          vs ← vlist args;
          if arity_accepts mask (Z.of_nat (length vs)) then
            v ← P disp proc vs; Some (ARet v k m)
          else None
      | Vcont _ _ _ _ | Vdone_k =>
          match args with Vpair v Vnull => Some (ARet v f m) | _ => None end
      | Vapply =>
          match args with
          | Vpair f' (Vpair args' Vnull) => _ ← vlist args'; apply_val n' f' args' k m
          | _ => None
          end
      | Vcall_cc =>
          match args with Vpair f' Vnull => apply_val n' f' (Vpair k Vnull) k m | _ => None end
      | Vcall_prompt =>
          match args with
          | Vpair f' (Vpair (Vsym tag) Vnull) => apply_val n' f' Vnull Vdone_k ((k, Some tag) :: m)
          | _ => None
          end
      | Vkernel_eval =>
          match args with
          | Vpair e Vnull =>
              if wf_expr e && Nat.ltb (vsize e) n' then Some (AEval e Vtop_env Vdone_k ((k, None) :: m))
              else None
          | _ => None
          end
      | _ => None
      end
  end.

(** The operator and the arguments from the values in reverse order. *)
Fixpoint unrev (rev_vals args : val) : option (val * val) :=
  match rev_vals with
  | Vpair a Vnull => Some (a, args)
  | Vpair a d => unrev d (Vpair a args)
  | _ => None
  end.

Definition resume (n : nat) (v : val) (tag : zuo_cont_tag_t) (data env next : val) (m : meta) :
    option astate :=
  match tag, data with
  | zuo_apply_cont, Vpair rev_vals exps =>
      let rev_vals := Vpair v rev_vals in
      match exps with
      | Vnull => fa ← unrev rev_vals Vnull; apply_val n (fst fa) (snd fa) next m
      | Vpair x d => Some (AEval x env (Vcont zuo_apply_cont (Vpair rev_vals d) env next) m)
      | _ => None
      end
  | zuo_let_cont, Vpair (Vpair (Vpair x _) _) (Vpair b _) => Some (AEval b (env_add env x v) next m)
  | zuo_begin_cont, Vpair x d =>
      Some (AEval x env (if decide (d = Vnull) then next else Vcont zuo_begin_cont d env next) m)
  | zuo_if_cont, Vpair t d =>
      if decide (v = Vfalse) then
        match d with Vpair f _ => Some (AEval f env next m) | _ => None end
      else Some (AEval t env next m)
  | _, _ => None
  end.

Definition astep (n : nat) (a : astate) : option astate :=
  match a with
  | AEval e env k m => interp e env k m
  | ARet v (Vcont tag data env next) m => resume n v tag data env next m
  | ARet v Vdone_k ((k, _) :: m) => Some (ARet v k m)
  | ARet _ _ _ => None
  end.

(** [steps n j a b]: [j] steps lead from [a] to [b]. *)
Inductive asteps : nat → nat → astate → astate → Prop :=
  | asteps_refl n a : asteps n 0 a a
  | asteps_step n j a b c : astep n a = Some b → asteps n j b c → asteps n (S j) a c.

Lemma apply_val_mono n n' f args k m a :
  (n ≤ n')%nat → apply_val n f args k m = Some a → apply_val n' f args k m = Some a.
Proof.
  revert n' f args k m. induction n as [|n IH]; intros n' f args k m Hn H; [done|].
  destruct n' as [|n']; [lia|]. cbn in H |- *. destruct f; try done.
  - destruct args as [| | | | | | | | | | | | | |f' d| | |]; try done. destruct d as [| | | | | | | | | | | | | |as' d'| | |]; try done.
    destruct d'; try done. destruct (vlist as'); [|done]. apply (IH n'); [lia|done].
  - destruct args as [| | | | | | | | | | | | | |f' d| | |]; try done. destruct d; try done. apply (IH n'); [lia|done].
  - destruct args as [| | | | | | | | | | | | | |f' d| | |]; try done. destruct d as [| | | | | | | | | | | | | |t d'| | |]; try done.
    destruct t; try done. destruct d'; try done. apply (IH n'); [lia|done].
  - destruct args as [| | | | | | | | | | | | | |e d| | |]; try done. destruct d; try done.
    destruct (wf_expr e); [|done]. cbn in H |- *. destruct (Nat.ltb_spec (vsize e) n); [|done].
    rewrite (proj2 (Nat.ltb_lt (vsize e) n')) by lia. exact H.
Qed.

Lemma astep_mono n n' a b : (n ≤ n')%nat → astep n a = Some b → astep n' a = Some b.
Proof.
  intros Hn. destruct a as [|v k m]; [done|]. destruct k as [| | | | | | | | | | | | | | | | |tag data env next]; try done.
  cbn. unfold resume. destruct tag; try done. destruct data as [| | | | | | | | | | | | | |rv exps| | |]; try done.
  destruct exps; try done. destruct (unrev _ _); [|done]. cbn. by apply apply_val_mono.
Qed.

Lemma asteps_mono n n' j a b : (n ≤ n')%nat → asteps n j a b → asteps n' j a b.
Proof. intros Hn H. induction H; econstructor; eauto using astep_mono. Qed.

Lemma asteps_trans n j j' a b c : asteps n j a b → asteps n j' b c → asteps n (j + j') a c.
Proof. intros H1 H2. induction H1; cbn; [done|]. econstructor; eauto. Qed.

(** [a] leads to [b]. *)
Definition leads (a b : astate) : Prop := ∃ n j, asteps n j a b.

Lemma leads_refl a : leads a a.
Proof. exists 0%nat, 0%nat. constructor. Qed.
Lemma leads_trans a b c : leads a b → leads b c → leads a c.
Proof.
  intros (n & j & H1) (n' & j' & H2). exists (n `max` n')%nat, (j + j')%nat.
  eapply asteps_trans; (eapply asteps_mono; [|eassumption]); lia.
Qed.
Lemma leads_step n a b c : astep n a = Some b → leads b c → leads a c.
Proof.
  intros H (n' & j' & H2). exists (n `max` n')%nat, (S j').
  econstructor; [eapply astep_mono; [|exact H]; lia|]. eapply asteps_mono; [|exact H2]. lia.
Qed.

(** ** Big-step semantics *)

Definition branch (v dd : val) : option val :=
  match dd with
  | Vpair t d => if decide (v = Vfalse) then match d with Vpair f _ => Some f | _ => None end else Some t
  | _ => None
  end.

Definition let_body (d : val) : option val :=
  match d with Vpair _ (Vpair b _) => Some b | _ => None end.

Inductive eval : val → val → val → Prop :=
  | ev_var env e id v : view e = Some (Fvar id) → env_find env id = Some v → eval env e v
  | ev_const env e v : view e = Some (Fconst v) → eval env e v
  | ev_quote env e v : view e = Some (Fquote v) → eval env e v
  | ev_lambda env e : view e = Some Flambda → eval env e (Vclosure e env)
  | ev_if env e c dd v b r :
      view e = Some (Fif c dd) → eval env c v → branch v dd = Some b → eval env b r → eval env e r
  | ev_let env e x rhs d v b r :
      view e = Some (Flet x rhs d) → eval env rhs v → let_body d = Some b →
      eval (env_add env x v) b r → eval env e r
  | ev_begin env e x dd r : view e = Some (Fbegin x dd) → eval_seq env x dd r → eval env e r
  | ev_app env e rator d es f vs r :
      view e = Some (Fapp rator d) → vlist d = Some es →
      eval env rator f → eval_args env es vs → applies f vs r → eval env e r
with eval_seq : val → val → val → val → Prop :=
  | es_last env x r : eval env x r → eval_seq env x Vnull r
  | es_next env x v y dd r : eval env x v → eval_seq env y dd r → eval_seq env x (Vpair y dd) r
with eval_args : val → list val → list val → Prop :=
  | ea_nil env : eval_args env [] []
  | ea_cons env e es v vs : eval env e v → eval_args env es vs → eval_args env (e :: es) (v :: vs)
with applies : val → list val → val → Prop :=
  | ap_closure lambda env vs b env' r :
      enter lambda env (of_list vs) = Some (b, env') → eval env' b r → applies (Vclosure lambda env) vs r
  | ap_prim disp proc mask vs v :
      arity_accepts mask (Z.of_nat (length vs)) = true → P disp proc vs = Some v →
      applies (Vprim disp proc mask) vs v
  | ap_apply f args vs r : vlist args = Some vs → applies f vs r → applies Vapply [f; args] r
  | ap_call_cc f r : (∀ k, applies f [k] r) → applies Vcall_cc [f] r
  | ap_call_prompt f tag r : applies f [] r → applies Vcall_prompt [f; Vsym tag] r
  | ap_kernel_eval e r : wf_expr e = true → eval Vtop_env e r → applies Vkernel_eval [e] r.

Scheme eval_mind := Induction for eval Sort Prop
  with eval_seq_mind := Induction for eval_seq Sort Prop
  with eval_args_mind := Induction for eval_args Sort Prop
  with applies_mind := Induction for applies Sort Prop.

(** ** The machine implements it *)

Lemma unrev_ok f l acc : unrev (of_list (l ++ [f])) (of_list acc) = Some (f, of_list (reverse l ++ acc)).
Proof.
  revert acc. induction l as [|x l IH]; intros acc; [done|].
  cbn [app of_list unrev]. specialize (IH (x :: acc)). rewrite reverse_cons, <- app_assoc. cbn [app].
  destruct l; exact IH.
Qed.

Definition apply_leads (f args k : val) (m : meta) (b : astate) : Prop :=
  ∃ n a, apply_val n f args k m = Some a ∧ leads a b.

Lemma apply_now f args v0 pre env k m b :
  pre ++ [v0] = f :: args → apply_leads f (of_list args) k m b →
  leads (ARet v0 (Vcont zuo_apply_cont (Vpair (of_list (reverse pre)) Vnull) env k) m) b.
Proof.
  intros E (n & a & Ha & Hl). eapply (leads_step n); [|exact Hl]. cbn beta iota zeta delta [astep resume].
  assert (Er : Vpair v0 (of_list (reverse pre)) = of_list (reverse args ++ [f])).
  { change (Vpair v0 (of_list (reverse pre))) with (of_list (v0 :: reverse pre)).
    rewrite <- reverse_cons, <- E, reverse_app. done. }
  rewrite Er. change Vnull with (of_list []) at 1. rewrite unrev_ok, reverse_involutive, app_nil_r.
  exact Ha.
Qed.

Lemma big_step_machine env e v : eval env e v → ∀ k m, leads (AEval e env k m) (ARet v k m).
Proof.
  intros H. revert env e v H.
  apply (eval_mind
    (λ env e v _, ∀ k m, leads (AEval e env k m) (ARet v k m))
    (λ env x dd r _, ∀ k m, leads (AEval x env (if decide (dd = Vnull) then k else Vcont zuo_begin_cont dd env k) m) (ARet r k m))
    (λ env es vs _, ∀ pre v0 k m f args b, pre ++ v0 :: vs = f :: args → apply_leads f (of_list args) k m b →
      leads (ARet v0 (Vcont zuo_apply_cont (Vpair (of_list (reverse pre)) (of_list es)) env k) m) b)
    (λ f vs r _, ∀ k m, apply_leads f (of_list vs) k m (ARet r k m))).
  - intros env e id v Hv Hf k m. eapply (leads_step 0); [|apply leads_refl]. cbn. unfold interp. by rewrite Hv; cbn; rewrite Hf.
  - intros env e v Hv k m. eapply (leads_step 0); [|apply leads_refl]. cbn. unfold interp. by rewrite Hv.
  - intros env e v Hv k m. eapply (leads_step 0); [|apply leads_refl]. cbn. unfold interp. by rewrite Hv.
  - intros env e Hv k m. eapply (leads_step 0); [|apply leads_refl]. cbn. unfold interp. by rewrite Hv.
  - intros env e c dd v b r Hv _ IHc Hb _ IHb k m. eapply (leads_step 0); [cbn; unfold interp; by rewrite Hv|].
    eapply leads_trans; [apply IHc|]. eapply (leads_step 0); [|apply IHb]. cbn. unfold branch in Hb.
    destruct dd as [| | | | | | | | | | | | | |t d| | |]; try done. case_decide; [|by simplify_eq].
    destruct d; try done. by simplify_eq.
  - intros env e x rhs d v b r Hv _ IHr Hb _ IHb k m. eapply (leads_step 0); [cbn; unfold interp; by rewrite Hv|].
    eapply leads_trans; [apply IHr|]. eapply (leads_step 0); [|apply IHb].
    destruct (view_let _ _ _ _ Hv) as (r1 & r2 & r3 & ->). cbn in Hb |- *. destruct r3; try done. by simplify_eq.
  - intros env e x dd r Hv _ IH k m. eapply (leads_step 0); [cbn; unfold interp; by rewrite Hv|]. apply IH.
  - intros env e rator d es f vs r Hv Hd _ IHf _ IHa _ IHp k m.
    eapply (leads_step 0); [cbn; unfold interp; by rewrite Hv|]. eapply leads_trans; [apply IHf|].
    apply vlist_Some in Hd as ->. by apply (IHa [] f k m f vs).
  - intros env x r _ IH k m. apply IH.
  - intros env x v y dd r _ IHx _ IHs k m. rewrite decide_False by done. eapply leads_trans; [apply IHx|].
    by eapply (leads_step 0).
  - intros env pre v0 k m f args b E Hb. by eapply apply_now.
  - intros env e es v vs _ IHe _ IHs pre v0 k m f args b E Hb. cbn [of_list].
    eapply (leads_step 0); [done|]. eapply leads_trans; [apply IHe|].
    change (Vpair v0 (of_list (reverse pre))) with (of_list (v0 :: reverse pre)).
    rewrite <- (reverse_snoc pre v0). eapply IHs; [|exact Hb]. by rewrite <- app_assoc.
  - intros lambda env vs b env' r He _ IH k m. exists 1%nat. eexists. cbn. rewrite He. split; [done|]. apply IH.
  - intros disp proc mask vs v Ha Hp k m. exists 1%nat. eexists. cbn. rewrite vlist_of_list. cbn. rewrite Ha, Hp.
    split; [done|]. apply leads_refl.
  - intros f args vs r Hl _ IH k m. destruct (IH k m) as (n & a & Ha & Hld). exists (S n), a. split; [|done].
    cbn. rewrite Hl. cbn. by rewrite (vlist_Some _ _ Hl).
  - intros f r _ IH k m. destruct (IH k k m) as (n & a & Ha & Hld). by exists (S n), a.
  - intros f tag r _ IH k m. destruct (IH Vdone_k ((k, Some tag) :: m)) as (n & a & Ha & Hld).
    exists (S n), a. split; [done|]. eapply leads_trans; [exact Hld|]. by eapply (leads_step 0); [|apply leads_refl].
  - intros e r Hwf _ IH k m. exists (S (S (vsize e))). eexists. cbn [of_list apply_val]. rewrite Hwf.
    rewrite (proj2 (Nat.ltb_lt _ _) (Nat.lt_succ_diag_r (vsize e))). split; [done|].
    eapply leads_trans; [apply IH|]. by eapply (leads_step 0); [|apply leads_refl].
Qed.
End machine.
