(* ===== verification/Simulate.v ===== *)
(** * The interpreter refines the machine on trees

    A state of the interpreter stands for a state of the machine of
    [Machine.v] when its registers stand for the machine's trees; a step of the
    interpreter, with the collection that may come first, follows the
    machine. *)

From S2P Require Import Prelude Sys Heap Alloc Gc GcCorrect Objects Trie Lists ImageOk Value Intern Sort Printer Reader Prims Interp Machine.

(** What the interpreter expects of the primitives: [P] tells the results of
    some of them on trees. *)
Class PrimSpec (K : keywords) (T : Z → option val)
    (call : dispatcher → string → loc → M loc) (P : dispatcher → string → list val → option val) : Prop :=
  prim_ok : ∀ s disp proc mask args ls vs v,
    ok K T s → is_list (s_heap s) (o_null (s_img s)) args ls → Forall2 (reps s) ls vs →
    arity_accepts mask (Z.of_nat (length vs)) = true → P disp proc vs = Some v →
    ∃ l s', call disp proc args s = Ok l s' ∧ ext K T s s' ∧ s_rt s' = s_rt s ∧ reps s' l v.

(** Reading and setting registers. *)
Ltac regs :=
  repeat first
    [ rewrite (bind_ok (zr _) _ _ _ _ eq_refl)
    | rewrite (bind_ok (zi _) _ _ _ _ eq_refl)
    | rewrite (bind_ok get_st _ _ _ _ eq_refl)
    | rewrite (bind_ok (set_zr _ _) _ _ _ _ eq_refl)
    | rewrite (bind_ok (ret _) _ _ _ _ eq_refl) ]; cbn beta iota.

Section simulate.
Context (K : keywords) (T : Z → option val).
Abbreviation ok := (ok K T).
Abbreviation ext := (ext K T).

(** ** Reading trees *)

Lemma reps_tag s l v t : ok s → reps s l v → has_tag t l s = Ok (bool_decide (vtag v = t)) s.
Proof.
  intros Hok H. destruct (rep_obj K T _ _ (ok_inv _ _ _ Hok) _ _ H) as (o & Ho & <-). by apply has_tag_ok.
Qed.

Lemma reps_car s l a d : reps s l (Vpair a d) → ∃ la, ZUO_CAR l s = Ok la s ∧ reps s la a.
Proof. intros (la & ld & H & Ha & _). exists la. split; [|done]. by apply (ZUO_CAR_ok _ _ _ ld). Qed.
Lemma reps_cdr s l a d : reps s l (Vpair a d) → ∃ ld, ZUO_CDR l s = Ok ld s ∧ reps s ld d.
Proof. intros (la & ld & H & _ & Hd). exists ld. split; [|done]. by apply (ZUO_CDR_ok _ _ la). Qed.

Lemma reps_null s l v : ok s → reps s l v → is_null l s = Ok (bool_decide (v = Vnull)) s.
Proof.
  intros Hok H. unfold is_null, is_zi. f_equal. apply bool_decide_ext.
  by apply (rep_is_const K T _ _ (ok_inv _ _ _ Hok) l v Vnull).
Qed.

Lemma reps_const s l v f c :
  ok s → vtag c = zuo_singleton_tag → const (s_img s) c = Some (f (s_img s)) → reps s l v →
  is_zi f l s = Ok (bool_decide (v = c)) s.
Proof.
  intros Hok Hc Hf H. unfold is_zi. f_equal. apply bool_decide_ext.
  by apply (rep_is_const K T _ _ (ok_inv _ _ _ Hok) l v c).
Qed.

Lemma reps_defined s l v : ok s → reps s l v → is_zi o_undefined l s = Ok false s.
Proof. intros Hok H. apply is_zi_ne. by apply (rep_defined K T _ _ (ok_inv _ _ _ Hok) _ _ H). Qed.

Lemma reps_done s l v : ok s → reps s l v → is_zi o_done_k l s = Ok (bool_decide (v = Vdone_k)) s.
Proof.
  intros Hok H. unfold is_zi. f_equal. apply bool_decide_ext. by apply (rep_done K T _ _ (ok_inv _ _ _ Hok)).
Qed.

Lemma reps_list s l vs :
  ok s → reps s l (of_list vs) →
  ∃ ls, is_list (s_heap s) (o_null (s_img s)) l ls ∧ Forall2 (reps s) ls vs.
Proof.
  intros Hok. revert l. induction vs as [|v vs IH]; intros l H; cbn in H.
  - exists []. cbn. split; [|constructor]. by injection H.
  - destruct H as (la & ld & Hl & Ha & Hd). destruct (IH ld Hd) as (ls & Hls & HF).
    exists (la :: ls). split; [|by constructor]. exists ld. split; [|done]. intros ->.
    assert (E : s_heap s !! o_null (s_img s) = Some Osingleton)
      by (apply (single_at K T _ _ (ok_inv _ _ _ Hok)); unfold singletons; set_solver).
    congruence.
Qed.

(** The expression is the keyword, on both sides. *)
Lemma rator_is s l v (kw : image → loc) (id : Z) :
  ok s → reps s (kw (s_img s)) (Vsym id) → reps s l v → l = kw (s_img s) ↔ v = Vsym id.
Proof. intros Hok Hk Hl. by apply (rep_is_sym K T _ _ (ok_inv _ _ _ Hok) l v id). Qed.

(** ** The suspended continuations *)

Fixpoint rep_meta (s : st) (l : loc) (m : meta) : Prop :=
  match m with
  | [] => l = o_null (s_img s)
  | (k, t) :: m' =>
      ∃ a d lk lt, s_heap s !! l = Some (Opair a d) ∧ s_heap s !! a = Some (Opair lk lt)
        ∧ reps s lk k
        ∧ match t with Some id => reps s lt (Vsym id) | None => lt = o_undefined (s_img s) end
        ∧ rep_meta s d m'
  end.

Lemma rep_meta_ext s s' l m : ext s s' → rep_meta s l m → rep_meta s' l m.
Proof.
  intros He. revert l. induction m as [|[k t] m IH]; intros l; cbn; [by rewrite (ext_img _ _ _ _ He)|].
  intros (a & d & lk & lt & H1 & H2 & H3 & H4 & H5). exists a, d, lk, lt.
  split; [by apply (ext_pairs _ _ _ _ He)|]. split; [by apply (ext_pairs _ _ _ _ He)|].
  split; [by apply (ext_reps _ _ _ _ He)|]. split; [|auto].
  destruct t; [by apply (ext_reps _ _ _ _ He)|by rewrite (ext_img _ _ _ _ He)].
Qed.

Lemma rep_meta_live s l m : ok s → rep_meta s l m → live s l.
Proof.
  intros Hok. destruct m as [|[k t] m]; cbn.
  - intros ->. pose proof (image_live K T s Hok) as H. rewrite Forall_forall in H. apply H.
    destruct (s_img s). cbn. set_solver.
  - intros (? & ? & ? & ? & H & _). by exists (Opair x x0).
Qed.

(** ** States *)

Definition sim (s : st) (a : astate) : Prop :=
  ok s ∧
  match a with
  | AEval e env k m =>
      o_interp_v (s_rt s) = o_undefined (s_img s)
      ∧ reps s (o_interp_e (s_rt s)) e ∧ reps s (o_interp_env (s_rt s)) env
      ∧ reps s (o_interp_k (s_rt s)) k ∧ rep_meta s (o_interp_meta_k (s_rt s)) m
  | ARet v k m =>
      reps s (o_interp_v (s_rt s)) v
      ∧ reps s (o_interp_k (s_rt s)) k ∧ rep_meta s (o_interp_meta_k (s_rt s)) m
  end.

Lemma rep_meta_set_rt s r l m : rep_meta (set_s_rt r s) l m ↔ rep_meta s l m.
Proof.
  revert l. induction m as [|[k t] m IH]; intros l; cbn; [by destruct s|].
  assert (Hh : s_heap (set_s_rt r s) = s_heap s) by (by destruct s).
  assert (Hi : s_img (set_s_rt r s) = s_img s) by (by destruct s).
  destruct t; split; intros (a & d & lk & lt & H); exists a, d, lk, lt;
    rewrite ?Hh, ?Hi, ?reps_set_rt, ?IH in *; done.
Qed.

Lemma s_rt_set_rt r s : s_rt (set_s_rt r s) = r.
Proof. by destruct s. Qed.
Lemma s_img_set_rt r s : s_img (set_s_rt r s) = s_img s.
Proof. by destruct s. Qed.

(** [push_cont] with a new frame. *)
Lemma push_cont_ok s tag data vd ve vk :
  ok s → tag ≠ zuo_done_cont → reps s data vd → reps s (o_interp_env (s_rt s)) ve →
  reps s (o_interp_k (s_rt s)) vk →
  ∃ p s', push_cont tag data s = Ok tt s' ∧ ext s s' ∧ s_rt s' = set_o_interp_k p (s_rt s)
    ∧ reps s' p (Vcont tag vd ve vk).
Proof.
  intros Hok Ht Hd He Hk. unfold push_cont. regs.
  destruct (allocates_ext K T s _ _ (zuo_cont_ok tag data (o_interp_env (s_rt s)) (o_interp_in_proc (s_rt s)) (o_interp_k (s_rt s))) Hok)
    as (p & s1 & E & He1 & Hp & Hr & _); try done.
  { cbn. pose proof (runtime_live K T s Hok) as HL. destruct (s_rt s). cbn in *.
    rewrite !Forall_cons in HL. rewrite !Forall_cons. pose proof (live_reps K T _ _ _ Hok Hd). tauto. }
  run_step E. exists p, (set_s_rt (set_o_interp_k p (s_rt s1)) s1).
  split; [done|]. rewrite s_rt_set_rt, reps_set_rt, Hr. split; [|split; [done|]].
  - eapply ext_trans; [exact He1|]. pose proof (ext_ok _ _ _ _ He1) as Hok1. apply ext_set_rt; [done|].
    assert (live s1 p) by (by exists (Ocont tag data (o_interp_env (s_rt s)) (o_interp_in_proc (s_rt s)) (o_interp_k (s_rt s)))).
    rewrite <- Hr. reg_live.
  - split; [done|]. do 4 eexists. split; [exact Hp|]. split; [|split]; by apply (ext_reps _ _ _ _ He1).
Qed.

(** ** Evaluation *)

Lemma env_lookup_loop_ok s fuel env sym E id v :
  ok s → reps s env E → reps s sym (Vsym id) → env_find T E id = Some v → (spine E < fuel)%nat →
  ∃ l, env_lookup_loop fuel env sym s = Ok l s ∧ reps s l v.
Proof.
  intros Hok. revert env E. induction fuel as [|fuel IH]; intros env E He Hs Hf Hfuel; [lia|].
  cbn [env_lookup_loop]. unfold is_pair. run_step (reps_tag _ _ _ zuo_pair_tag Hok He).
  destruct E as [| | | | | | | | | | | | | |a d| | |]; try done.
  - rewrite bool_decide_false by done. destruct (hv_env _ _ _ _ (ok_inv _ _ _ Hok) id v Hf) as (l & Hl & Hr).
    exists l. split; [|done]. injection He as <-. unfold zuo_trie_lookup. destruct Hs as [str Hs].
    assert (Hid : symbol_id sym s = Ok id s)
      by (unfold symbol_id; by rewrite (bind_ok _ _ _ _ _ (get_ok _ _ _ Hs))).
    run_step Hid. by apply trie_get_run.
  - rewrite bool_decide_true by done.
    destruct a as [| | | | | | | | | | | | | |x w| | |]; try done. destruct x as [| | | | | | | | | | | | |id'| | | |]; try done.
    destruct (reps_car _ _ _ _ He) as (la & Ea & Ha), (reps_cdr _ _ _ _ He) as (ld & Ed & Hd).
    run_step Ea. destruct (reps_car _ _ _ _ Ha) as (lk & Ek & Hk), (reps_cdr _ _ _ _ Ha) as (lv & Ev & Hv).
    run_step Ek. cbn in Hf, Hfuel.
    pose proof (rep_is_sym K T _ _ (ok_inv _ _ _ Hok) _ _ _ _ Hs Hk) as Hiff.
    destruct (decide (id' = id)) as [->|Hne].
    + simplify_eq. rewrite decide_True by tauto. by exists lv.
    + rewrite decide_False by (intros ?; apply Hiff in H; congruence). run_step Ed. apply (IH ld d); try done. lia.
Qed.

Lemma env_lookup_ok s env sym E id v :
  ok s → reps s env E → reps s sym (Vsym id) → env_find T E id = Some v →
  ∃ l, env_lookup env sym s = Ok l s ∧ reps s l v.
Proof.
  intros Hok He Hs Hf. unfold env_lookup. regs. eapply env_lookup_loop_ok; try done.
  unfold heap_fuel. pose proof (rep_spine K T _ _ (ok_inv _ _ _ Hok) _ _ He). lia.
Qed.

(** Setting the value register ends an evaluation. *)
Lemma sim_ret s l v k m :
  ok s → reps s l v → reps s (o_interp_k (s_rt s)) k → rep_meta s (o_interp_meta_k (s_rt s)) m →
  sim (set_s_rt (set_o_interp_v l (s_rt s)) s) (ARet v k m).
Proof.
  intros Hok Hl Hk Hm. pose proof (live_reps K T _ _ _ Hok Hl). split.
  - apply (ext_ok K T s). apply ext_set_rt; [done|]. reg_live.
  - rewrite s_rt_set_rt, !reps_set_rt, rep_meta_set_rt. by destruct (s_rt s).
Qed.

(** A new frame for the rest of the expression. *)
Lemma sim_push s e tag data vd env k m :
  sim s (AEval e env k m) → tag ≠ zuo_done_cont → reps s data vd →
  ∃ s', push_cont tag data s = Ok tt s' ∧ sim s' (AEval e env (Vcont tag vd env k) m).
Proof.
  intros (Hok & Hu & He & Henv & Hk & Hm) Ht Hd.
  destruct (push_cont_ok s tag data vd env k) as (p & s' & E & He' & Hr' & Hp); try done.
  exists s'. split; [done|]. split; [apply He'|]. rewrite Hr', (ext_img _ _ _ _ He').
  assert (Hreg : ∀ l v, reps s l v → reps s' l v) by apply He'.
  assert (Hmeta : rep_meta s' (o_interp_meta_k (s_rt s)) m) by (by eapply rep_meta_ext).
  destruct (s_rt s). cbn in *. auto.
Qed.

(** An expression in place of another. *)
Lemma sim_set_e s e x vx env k m :
  sim s (AEval e env k m) → reps s x vx →
  sim (set_s_rt (set_o_interp_e x (s_rt s)) s) (AEval vx env k m).
Proof.
  intros (Hok & Hu & _ & Henv & Hk & Hm) Hx. pose proof (live_reps K T _ _ _ Hok Hx). split.
  - apply (ext_ok K T s). apply ext_set_rt; [done|]. reg_live.
  - rewrite s_rt_set_rt, s_img_set_rt, !reps_set_rt, rep_meta_set_rt. by destruct (s_rt s).
Qed.

(** A test for a core form takes the same way on both sides. *)
Lemma keyword_case {A B} s l v (kw : image → loc) (id : Z) (x y : A) (x' y' : B) (R : A → B → Prop) :
  ok s → reps s (kw (s_img s)) (Vsym id) → reps s l v →
  (v = Vsym id → R x x') → (v ≠ Vsym id → R y y') →
  R (if decide (l = kw (s_img s)) then x else y) (if decide (v = Vsym id) then x' else y').
Proof.
  intros Hok Hk Hl Hx Hy. pose proof (rator_is s l v kw id Hok Hk Hl) as Hiff.
  destruct (decide (v = Vsym id)) as [->|Hne].
  - rewrite decide_True by tauto. auto.
  - rewrite decide_False by tauto. auto.
Qed.

(** What [c] does from [s] is what the machine does. *)
Definition follows {A} (s : st) (c : M A) (a : option astate) : Prop :=
  ∀ b, a = Some b → ∃ x s', c s = Ok x s' ∧ sim s' b.

Lemma follows_some {A} s (c : M A) x s' b : c s = Ok x s' → sim s' b → follows s c (Some b).
Proof. intros E Hs b' [= <-]. eauto. Qed.

(** The cases of [interp_pair]. *)
Lemma interp_quote_ok s e env k m ld x d' :
  sim s (AEval e env k m) → reps s ld (Vpair x d') →
  follows s (v <- ZUO_CAR ld ;; set_zr set_o_interp_v v) (Some (ARet x k m)).
Proof.
  intros (Hok & _ & _ & _ & Hk & Hm) Hd. destruct (reps_car _ _ _ _ Hd) as (lx & Ex & Hx).
  eapply follows_some; [by run_step Ex|]. by apply sim_ret.
Qed.

Lemma interp_if_ok s e env k m ld c dd :
  sim s (AEval e env k m) → reps s ld (Vpair c dd) →
  follows s (x <- ZUO_CAR ld ;; set_zr set_o_interp_e x ;;; dd <- ZUO_CDR ld ;; push_cont zuo_if_cont dd)
    (Some (AEval c env (Vcont zuo_if_cont dd env k) m)).
Proof.
  intros Hs Hd. destruct (reps_car _ _ _ _ Hd) as (lx & Ex & Hx).
  pose proof (sim_set_e _ _ _ _ _ _ _ Hs Hx) as Hs1.
  destruct (reps_cdr (set_s_rt (set_o_interp_e lx (s_rt s)) s) ld c dd) as (ldd & Edd & Hdd); [by apply reps_set_rt|].
  destruct (sim_push _ _ zuo_if_cont _ _ _ _ _ Hs1 ltac:(done) Hdd) as (s' & E & Hs').
  eapply follows_some; [|exact Hs']. run_step Ex. regs. by run_step Edd.
Qed.

Lemma interp_lambda_ok s e env k m :
  sim s (AEval e env k m) →
  follows s (e <- zr o_interp_e ;; env <- zr o_interp_env ;; v <- zuo_closure e env ;; set_zr set_o_interp_v v)
    (Some (ARet (Vclosure e env) k m)).
Proof.
  intros (Hok & Hu & He & Henv & Hk & Hm).
  destruct (allocates_ext K T s _ _ (zuo_closure_ok (o_interp_e (s_rt s)) (o_interp_env (s_rt s))) Hok)
    as (p & s1 & E & He1 & Hp & Hr & _); try done.
  { repeat constructor; by eapply live_reps. }
  eapply follows_some; [regs; by run_step E|]. pose proof (ext_reps _ _ _ _ He1) as Hx.
  apply sim_ret; [apply He1| |rewrite Hr; auto|rewrite Hr; by eapply rep_meta_ext].
  do 2 eexists. split; [exact Hp|]. split; by apply Hx.
Qed.

Lemma interp_let_ok s e env k m ld x rhs r1 r2 r3 :
  sim s (AEval e env k m) → reps s ld (Vpair (Vpair (Vpair x (Vpair rhs r1)) r2) r3) →
  follows s
    (ad <- ZUO_CAR ld ;; aad <- ZUO_CAR ad ;; daad <- ZUO_CDR aad ;; x <- ZUO_CAR daad ;;
     set_zr set_o_interp_e x ;;; push_cont zuo_let_cont ld)
    (Some (AEval rhs env (Vcont zuo_let_cont (Vpair (Vpair (Vpair x (Vpair rhs r1)) r2) r3) env k) m)).
Proof.
  intros Hs Hd. destruct (reps_car _ _ _ _ Hd) as (l1 & E1 & H1).
  destruct (reps_car _ _ _ _ H1) as (l2 & E2 & H2). destruct (reps_cdr _ _ _ _ H2) as (l3 & E3 & H3).
  destruct (reps_car _ _ _ _ H3) as (l4 & E4 & H4).
  pose proof (sim_set_e _ _ _ _ _ _ _ Hs H4) as Hs1.
  destruct (sim_push _ _ zuo_let_cont ld _ _ _ _ Hs1 ltac:(done) (proj2 (reps_set_rt _ _ _ _) Hd)) as (s' & E & Hs').
  eapply follows_some; [|exact Hs']. run_step E1. run_step E2. run_step E3. run_step E4. by regs.
Qed.

Lemma interp_begin_ok s e env k m ld x dd :
  sim s (AEval e env k m) → reps s ld (Vpair x dd) →
  follows s
    (dd <- ZUO_CDR ld ;; x <- ZUO_CAR ld ;; set_zr set_o_interp_e x ;;; b <- is_null dd ;;
     if b then ret tt else push_cont zuo_begin_cont dd)
    (Some (AEval x env (if decide (dd = Vnull) then k else Vcont zuo_begin_cont dd env k) m)).
Proof.
  intros Hs Hd. destruct (reps_car _ _ _ _ Hd) as (lx & Ex & Hx), (reps_cdr _ _ _ _ Hd) as (ldd & Edd & Hdd).
  pose proof (sim_set_e _ _ _ _ _ _ _ Hs Hx) as Hs1. apply (proj2 (reps_set_rt s (set_o_interp_e lx (s_rt s)) _ _)) in Hdd.
  pose proof (reps_null _ _ _ (proj1 Hs1) Hdd) as En. destruct (decide (dd = Vnull)) as [->|Hne].
  - rewrite bool_decide_true in En by done. eapply follows_some; [|exact Hs1].
    run_step Edd. run_step Ex. regs. by run_step En.
  - rewrite bool_decide_false in En by done.
    destruct (sim_push _ _ zuo_begin_cont _ _ _ _ _ Hs1 ltac:(done) Hdd) as (s' & E & Hs').
    eapply follows_some; [|exact Hs']. run_step Edd. run_step Ex. regs. by run_step En.
Qed.

Lemma interp_app_ok s env k m le lr rator d :
  sim s (AEval (Vpair rator d) env k m) → reps s le (Vpair rator d) → reps s lr rator →
  follows s
    (set_zr set_o_interp_e lr ;;; null <- zi o_null ;; d <- ZUO_CDR le ;;
     data <- zuo_cons null d ;; push_cont zuo_apply_cont data)
    (Some (AEval rator env (Vcont zuo_apply_cont (Vpair Vnull d) env k) m)).
Proof.
  intros Hs He Hr. pose proof (sim_set_e _ _ _ _ _ _ _ Hs Hr) as Hs1.
  set (s1 := set_s_rt _ s) in *. destruct (reps_cdr s1 le rator d) as (ld & Ed & Hd); [by apply reps_set_rt|].
  assert (Hn : reps s1 (o_null (s_img s1)) Vnull) by done.
  destruct (zuo_cons_ext K T s1 _ _ _ _ (proj1 Hs1) Hn Hd) as (p & s2 & E2 & He2 & Hp & Hr2).
  assert (Hs2 : sim s2 (AEval rator env k m)).
  { destruct Hs1 as (_ & H1 & H2 & H3 & H4 & H5). split; [apply He2|]. rewrite Hr2, (ext_img _ _ _ _ He2).
    pose proof (ext_reps _ _ _ _ He2). split; [done|]. repeat (split; [by auto|]). by eapply rep_meta_ext. }
  destruct (sim_push _ _ zuo_apply_cont _ _ _ _ _ Hs2 ltac:(done) Hp) as (s' & E & Hs').
  eapply follows_some; [|exact Hs']. regs. fold s1. run_step Ed. by run_step E2.
Qed.

(** [keyword_case] for the choice of a computation. *)
Lemma follows_keyword {A} s l v (kw : image → loc) (id : Z) (c1 c2 : M A) (f1 f2 : option form) g :
  ok s → reps s (kw (s_img s)) (Vsym id) → reps s l v →
  (v = Vsym id → follows s c1 (f ← f1; g f)) → (v ≠ Vsym id → follows s c2 (f ← f2; g f)) →
  follows s (if decide (l = kw (s_img s)) then c1 else c2) (f ← (if decide (v = Vsym id) then f1 else f2); g f).
Proof.
  intros Hok Hk Hl H1 H2.
  exact (keyword_case s l v kw id c1 c2 f1 f2 (λ c a, follows s c (f ← a; g f)) Hok Hk Hl H1 H2).
Qed.

Lemma follows_step {A B} s (c : M A) (g : A → M B) x a :
  c s = Ok x s → follows s (g x) a → follows s (bind c g) a.
Proof. intros E Hf b Hb. destruct (Hf b Hb) as (y & s' & E' & Hs). exists y, s'. by run_step E. Qed.

Lemma interp_pair_ok s le rator d env k m :
  sim s (AEval (Vpair rator d) env k m) → o_interp_e (s_rt s) = le →
  follows s (interp_pair le) (interp K T (Vpair rator d) env k m).
Proof.
  intros Hsim Ele. pose proof Hsim as (Hok & _ & He & _). rewrite Ele in He.
  destruct (reps_car _ _ _ _ He) as (lr & Er & Hr), (reps_cdr _ _ _ _ He) as (ld & Ed & Hd).
  pose proof (ok_inv _ _ _ Hok) as Hinv. unfold interp_pair.
  eapply follows_step; [exact Er|]. eapply follows_step; [done|]. cbn zeta. unfold interp, view.
  apply follows_keyword; [done|apply Hinv|done|intros _|intros _].
  { eapply follows_step; [exact Ed|]. destruct d; try done. by eapply interp_quote_ok. }
  apply follows_keyword; [done|apply Hinv|done|intros _|intros _].
  { eapply follows_step; [exact Ed|]. destruct d; try done. by eapply interp_if_ok. }
  apply follows_keyword; [done|apply Hinv|done|intros _|intros _].
  { by apply interp_lambda_ok. }
  apply follows_keyword; [done|apply Hinv|done|intros _|intros _].
  { eapply follows_step; [exact Ed|]. destruct d as [| | | | | | | | | | | | | |ad r3| | |]; try done.
    destruct ad as [| | | | | | | | | | | | | |aad r2| | |]; try done. destruct aad as [| | | | | | | | | | | | | |x daad| | |]; try done.
    destruct daad as [| | | | | | | | | | | | | |rhs r1| | |]; try done. by eapply interp_let_ok. }
  apply follows_keyword; [done|apply Hinv|done|intros _|intros _].
  { eapply follows_step; [exact Ed|]. destruct d; try done. by eapply interp_begin_ok. }
  by eapply interp_app_ok.
Qed.

Lemma interp_step_ok s e env k m :
  sim s (AEval e env k m) → follows s interp_step (interp K T e env k m).
Proof.
  intros Hsim. pose proof Hsim as (Hok & Hu & He & Henv & Hk & Hm). unfold interp_step.
  eapply follows_step; [done|].
  destruct (rep_obj K T _ _ (ok_inv _ _ _ Hok) _ _ He) as (o & Ho & Ht).
  eapply follows_step; [exact (get_ok _ _ _ Ho)|]. rewrite Ht.
  assert (Hconst : follows s (set_zr set_o_interp_v (o_interp_e (s_rt s))) (Some (ARet e k m))).
  { eapply follows_some; [done|]. by apply sim_ret. }
  destruct e; try exact Hconst.
  - cbn [vtag interp view mbind option_bind]. unfold interp. cbn [view mbind option_bind].
    eapply follows_step; [done|]. destruct (env_find T env id) as [v|] eqn:Ef; [|done].
    destruct (env_lookup_ok _ _ _ _ _ _ Hok Henv He Ef) as (l & El & Hl).
    eapply follows_step; [exact El|]. eapply follows_step; [by eapply reps_defined|].
    eapply follows_some; [done|]. by apply sim_ret.
  - by apply interp_pair_ok.
Qed.

(** ** Application *)

(** The continuation registers. *)
Definition conts (s : st) (k : val) (m : meta) : Prop :=
  ok s ∧ reps s (o_interp_k (s_rt s)) k ∧ rep_meta s (o_interp_meta_k (s_rt s)) m.

Lemma conts_ext s s' k m : ext s s' → s_rt s' = s_rt s → conts s k m → conts s' k m.
Proof.
  intros He Hr (Hok & Hk & Hm). split; [apply He|]. rewrite Hr.
  split; [by apply (ext_reps _ _ _ _ He)|by eapply rep_meta_ext].
Qed.

Lemma set_s_rt_twice r r' s : set_s_rt r (set_s_rt r' s) = set_s_rt r s.
Proof. by destruct s. Qed.

Lemma undefined_live s : ok s → live s (o_undefined (s_img s)).
Proof. intros Hok. exists Osingleton. apply (undefined_at K T). apply Hok. Qed.

(** The registers for another expression in another environment. *)
Lemma sim_enter s x lenv e env k m r :
  conts s k m → reps s x e → reps s lenv env →
  o_interp_e r = x → o_interp_env r = lenv → o_interp_v r = o_undefined (s_img s) →
  o_interp_k r = o_interp_k (s_rt s) → o_interp_meta_k r = o_interp_meta_k (s_rt s) →
  Forall (live s) (runtime_list r) →
  sim (set_s_rt r s) (AEval e env k m).
Proof.
  intros (Hok & Hk & Hm) Hx He E1 E2 E3 E4 E5 Hr. split.
  - apply (ext_ok K T s). by apply ext_set_rt.
  - rewrite s_rt_set_rt, s_img_set_rt, !reps_set_rt, rep_meta_set_rt, E1, E2, E3, E4, E5. done.
Qed.

Lemma unreverse_ok fuel : ∀ s rv args RV A vs f A',
  ok s → reps s rv RV → reps s args A → unrev RV A = Some (f, A') → vlist A = Some vs →
  (spine RV ≤ fuel)%nat →
  ∃ lf la s' vs', unreverse fuel rv args (Z.of_nat (length vs)) s = Ok (lf, la, Z.of_nat (length vs')) s'
    ∧ ext s s' ∧ s_rt s' = s_rt s ∧ reps s' lf f ∧ reps s' la A' ∧ vlist A' = Some vs'.
Proof.
  induction fuel as [|fuel IH]; intros s rv args RV A vs f A' Hok Hrv HA Hu Hl Hfuel;
    destruct RV as [| | | | | | | | | | | | | |a d| | |]; try done; [cbn in Hfuel; lia|].
  destruct (reps_car _ _ _ _ Hrv) as (la & Ea & Ha), (reps_cdr _ _ _ _ Hrv) as (ld & Ed & Hd).
  cbn [unreverse]. run_step Ed. run_step (reps_null _ _ _ Hok Hd). run_step Ea. cbn in Hfuel.
  destruct (decide (d = Vnull)) as [->|Hne].
  - cbn in Hu. simplify_eq. rewrite bool_decide_true by done. exists la, args, s, vs.
    split; [done|]. split; [by apply ext_refl|]. done.
  - assert (Hu' : unrev d (Vpair a A) = Some (f, A')) by (by destruct d).
    rewrite bool_decide_false by done.
    destruct (zuo_cons_ext K T s _ _ _ _ Hok Ha HA) as (p & s1 & E1 & He1 & Hp & Hr1). run_step E1.
    destruct (IH s1 ld p d (Vpair a A) (a :: vs) f A') as (lf & la' & s' & vs' & E & He & Hr & H);
      [apply He1|by apply (ext_reps _ _ _ _ He1)|done|done|cbn; by rewrite Hl|lia|].
    exists lf, la', s', vs'. split.
    { rewrite <- E. f_equal. cbn [length]. lia. }
    split; [by eapply ext_trans|]. split; [congruence|done].
Qed.

Lemma env_extend_ok s env sym v E x w :
  ok s → reps s env E → reps s sym x → reps s v w →
  ∃ p s', env_extend env sym v s = Ok p s' ∧ ext s s' ∧ s_rt s' = s_rt s ∧ reps s' p (env_add E x w).
Proof.
  intros Hok He Hx Hw. unfold env_extend.
  destruct (zuo_cons_ext K T s _ _ _ _ Hok Hx Hw) as (p1 & s1 & E1 & He1 & Hp1 & Hr1). run_step E1.
  destruct (zuo_cons_ext K T s1 p1 env (Vpair x w) E) as (p & s' & E2 & He2 & Hp & Hr2);
    [apply He1|done|by apply (ext_reps _ _ _ _ He1)|].
  exists p, s'. split; [done|]. split; [by eapply ext_trans|]. split; [congruence|done].
Qed.

Lemma bind_formals_ok fuel : ∀ s env formals args E F A E',
  ok s → reps s env E → reps s formals F → reps s args A → bind_args F A E = Some E' →
  (spine F < fuel)%nat →
  ∃ lenv lf la s' E1 F1 A1, bind_formals fuel env formals args s = Ok (lenv, lf, la) s'
    ∧ ext s s' ∧ s_rt s' = s_rt s ∧ reps s' lenv E1 ∧ reps s' lf F1 ∧ reps s' la A1
    ∧ ((∃ id, F1 = Vsym id ∧ E' = env_add E1 F1 A1) ∨ (F1 = Vnull ∧ A1 = Vnull ∧ E' = E1)).
Proof.
  induction fuel as [|fuel IH]; intros s env formals args E F A E' Hok HE HF HA Hb Hfuel; [lia|].
  cbn [bind_formals]. unfold is_pair. run_step (reps_tag _ _ _ zuo_pair_tag Hok HF).
  destruct F as [| | | | | | | | | | | | |id|f fs| | |]; try done.
  - rewrite bool_decide_false by done. exists env, formals, args, s, E, Vnull, A.
    split; [done|]. split; [by apply ext_refl|]. cbn in Hb. case_decide; simplify_eq. auto 10.
  - rewrite bool_decide_false by done. exists env, formals, args, s, E, (Vsym id), A.
    split; [done|]. split; [by apply ext_refl|]. cbn in Hb. simplify_eq. eauto 10.
  - rewrite bool_decide_true by done. destruct A as [| | | | | | | | | | | | | |a as'| | |]; try done. cbn in Hb, Hfuel.
    run_step (reps_null _ _ _ Hok HA). rewrite bool_decide_false by done.
    destruct (reps_car _ _ _ _ HF) as (l1 & E1 & H1), (reps_cdr _ _ _ _ HF) as (l2 & E2 & H2).
    destruct (reps_car _ _ _ _ HA) as (l3 & E3 & H3), (reps_cdr _ _ _ _ HA) as (l4 & E4 & H4).
    run_step E1. run_step E3.
    destruct (env_extend_ok s env l1 l3 E f a Hok HE H1 H3) as (p & s1 & E5 & He1 & Hr1 & Hp). run_step E5.
    assert (HA' : reps s1 args (Vpair a as')) by (by apply (ext_reps _ _ _ _ He1)).
    assert (HF' : reps s1 formals (Vpair f fs)) by (by apply (ext_reps _ _ _ _ He1)).
    destruct (reps_cdr _ _ _ _ HA') as (l5 & E6 & H5), (reps_cdr _ _ _ _ HF') as (l6 & E7 & H6).
    run_step E6. run_step E7.
    destruct (IH s1 p l6 l5 _ _ _ E' (ext_ok _ _ _ _ He1) Hp H6 H5 Hb) as (lenv & lf & la & s' & X & F1 & A1 & E8 & He & Hr & Hrest); [lia|].
    exists lenv, lf, la, s', X, F1, A1. split; [done|]. split; [by eapply ext_trans|]. split; [congruence|done].
Qed.

Lemma conts_set_in_proc s l k m :
  conts s k m → live s l →
  ext s (set_s_rt (set_o_interp_in_proc l (s_rt s)) s)
  ∧ conts (set_s_rt (set_o_interp_in_proc l (s_rt s)) s) k m.
Proof.
  intros (Hok & Hk & Hm) Hl.
  assert (He : ext s (set_s_rt (set_o_interp_in_proc l (s_rt s)) s)) by (apply ext_set_rt; [done|reg_live]).
  split; [done|]. split; [apply He|]. rewrite s_rt_set_rt, reps_set_rt, rep_meta_set_rt. by destruct (s_rt s).
Qed.

(** Skipping the name of the function. *)
Lemma closure_body_ok s body b body_d x k m :
  conts s k m → reps s body (Vpair b body_d) → lambda_body b body_d = Some x →
  ∃ lb s' rest,
    (∀ B (g : loc → M B), (body_d <- ZUO_CDR body ;; n <- is_null body_d ;;
     body <- (if n then f <- zi o_false ;; set_zr set_o_interp_in_proc f ;;; ret body
      else a <- ZUO_CAR body ;; t <- has_tag zuo_string_tag a ;;
           if t then set_zr set_o_interp_in_proc a ;;; ret body_d
           else f <- zi o_false ;; set_zr set_o_interp_in_proc f ;;; ret body) ;; g body) s = g lb s')
    ∧ ext s s' ∧ conts s' k m ∧ reps s' lb (Vpair x rest).
Proof.
  intros Hc Hb Hx. pose proof Hc as (Hok & _).
  destruct (reps_car _ _ _ _ Hb) as (la & Ea & Ha), (reps_cdr _ _ _ _ Hb) as (ld & Ed & Hd).
  assert (Hfalse : reps s (o_false (s_img s)) Vfalse) by done. apply (live_reps K T _ _ _ Hok) in Hfalse.
  destruct (conts_set_in_proc s _ k m Hc Hfalse) as [Hef Hcf].
  pose proof (reps_null _ _ _ Hok Hd) as En. pose proof (reps_tag _ _ _ zuo_string_tag Hok Ha) as Es.
  destruct (decide (body_d = Vnull)) as [->|Hne].
  - rewrite bool_decide_true in En by done. exists body. eexists. exists Vnull. split.
    { intros B g. run_step Ed. run_step En. unfold bind at 1. by regs. }
    split; [done|]. split; [done|]. apply reps_set_rt. destruct b; cbn in Hx; by simplify_eq.
  - rewrite bool_decide_false in En by done.
    destruct (decide (vtag b = zuo_string_tag)) as [Hs|Hns].
    + rewrite bool_decide_true in Es by done.
      destruct (conts_set_in_proc s la k m Hc (live_reps K T _ _ _ Hok Ha)) as [Hea Hca].
      destruct b; try done. destruct body_d as [| | | | | | | | | | | | | |b' r'| | |]; try done. cbn in Hx. simplify_eq.
      exists ld. eexists. exists r'. split.
      { intros B g. run_step Ed. run_step En. unfold bind at 1. run_step Ea. run_step Es. by regs. }
      split; [done|]. split; [done|]. by apply reps_set_rt.
    + rewrite bool_decide_false in Es by done. exists body. eexists. exists body_d. split.
      { intros B g. run_step Ed. run_step En. unfold bind at 1. run_step Ea. run_step Es. by regs. }
      split; [done|]. split; [done|]. apply reps_set_rt.
      assert (lambda_body b body_d = Some b) as E by (by destruct b, body_d). rewrite E in Hx. by simplify_eq.
Qed.

Lemma apply_closure_ok s fuel rator lambda lenv args L E A k m :
  conts s k m → reps s lambda L → reps s lenv E → reps s args A →
  follows s (apply_closure fuel rator lambda lenv args)
    (be ← enter L E A; Some (AEval (fst be) (snd be) k m)).
Proof.
  intros Hc HL HE HA. unfold enter.
  destruct L as [| | | | | | | | | | | | | |x0 d| | |]; try done. destruct d as [| | | | | | | | | | | | | |F body| | |]; try done.
  destruct body as [| | | | | | | | | | | | | |b body_d| | |]; try done.
  destruct (lambda_body b body_d) as [x|] eqn:Hx; [|done]. destruct (bind_args F A E) as [E'|] eqn:Hb; [|done].
  cbn [mbind option_bind fst snd]. unfold apply_closure. cbn zeta.
  destruct (reps_cdr _ _ _ _ HL) as (l1 & E1 & H1). eapply follows_step; [exact E1|].
  destruct (reps_car _ _ _ _ H1) as (l2 & E2 & H2). eapply follows_step; [exact E2|].
  destruct (reps_cdr _ _ _ _ H1) as (l3 & E3 & H3). eapply follows_step; [exact E3|].
  destruct (closure_body_ok s l3 b body_d x k m Hc H3 Hx) as (lb & s1 & rest & E4 & He1 & Hc1 & Hlb).
  pose proof (ext_reps _ _ _ _ He1) as Hx1. pose proof (ext_ok _ _ _ _ He1) as Hok1.
  destruct (bind_formals_ok (heap_fuel s1) s1 lenv l2 args E F A E')
    as (le & lf & la & s2 & X & F1 & A1 & E5 & He2 & Hr2 & HX & HF & HA1 & Hcase); auto.
  { unfold heap_fuel. pose proof (rep_spine K T _ _ (ok_inv _ _ _ Hok1) _ _ (Hx1 _ _ H2)). lia. }
  pose proof (ext_ok _ _ _ _ He2) as Hok2. pose proof (conts_ext _ _ _ _ He2 Hr2 Hc1) as Hc2.
  assert (Henv : ∃ p s3,
      (if bool_decide (vtag F1 = zuo_symbol_tag) then env_extend le lf la
       else b1 <- is_null lf ;; b2 <- is_null la ;;
            if negb b1 || negb b2 then zuo_fail_arity fuel rator args else ret le) s2 = Ok p s3
      ∧ ext s2 s3 ∧ s_rt s3 = s_rt s2 ∧ reps s3 p E').
  { destruct Hcase as [(id & -> & ->)|(-> & -> & ->)].
    - rewrite bool_decide_true by done. by apply env_extend_ok.
    - rewrite bool_decide_false by done. run_step (reps_null _ _ _ Hok2 HF). run_step (reps_null _ _ _ Hok2 HA1).
      cbn. exists le, s2. split; [done|]. split; [by apply ext_refl|done]. }
  destruct Henv as (p & s3 & E6 & He3 & Hr3 & Hp).
  pose proof (conts_ext _ _ _ _ He3 Hr3 Hc2) as Hc3.
  assert (Hlb3 : reps s3 lb (Vpair x rest)) by (apply (ext_reps _ _ _ _ He3), (ext_reps _ _ _ _ He2), Hlb).
  destruct (reps_car _ _ _ _ Hlb3) as (lx & E7 & H7).
  pose proof (ext_ok _ _ _ _ He3) as Hok3. pose proof (undefined_live s3 Hok3).
  pose proof (live_reps K T _ _ _ Hok3 H7). pose proof (live_reps K T _ _ _ Hok3 Hp).
  apply (follows_some s _ tt (set_s_rt (set_o_interp_v (o_undefined (s_img s3)) (set_o_interp_env p
    (set_o_interp_e lx (s_rt s3)))) s3)).
  - rewrite E4. regs. run_step E5. run_step (reps_tag _ _ _ zuo_symbol_tag Hok2 HF). run_step E6. run_step E7.
    regs. unfold set_zr, mod_st. rewrite ?s_rt_set_rt, ?set_s_rt_twice, ?s_img_set_rt. reflexivity.
  - eapply (sim_enter s3 lx p); try done; try (by destruct (s_rt s3)). reg_live.
Qed.
End simulate.
