(* ===== verification/Syntax.v ===== *)
(** * The syntax check decides the kernel grammar

    [check_syntax] returns on exactly the expressions of the grammar
    [wf_expr], and ends with the "bad kernel syntax" error on all others. *)

From S2P Require Import Prelude Sys Heap Alloc Gc GcCorrect Objects Trie Lists ImageOk Value Intern Sort Printer Reader Prims Interp Machine Simulate.

Section syntax.
Context (K : keywords) (T : Z → option val).
Abbreviation ok := (ok K T).
Abbreviation ext := (ext K T).
Abbreviation wf := (wf_expr K).

(** ** Computations that return or reject *)

(** [c] returns with [Q], or rejects and then [bad] holds. *)
Definition verdict {A} (s : st) (c : M A) (Q : A → st → Prop) (bad : Prop) : Prop :=
  match c s with
  | Ok a s' => Q a s'
  | Fail (Ebad_form _) _ => bad
  | _ => False
  end.

Lemma verdict_step {A B} s (c : M A) (g : A → M B) x Q bad :
  c s = Ok x s → verdict s (g x) Q bad → verdict s (bind c g) Q bad.
Proof. intros E. unfold verdict. by rewrite (bind_ok _ _ _ _ _ E). Qed.

Lemma verdict_bind {A B} s (c : M A) (g : A → M B) R Q bad1 bad :
  verdict s c R bad1 → (bad1 → bad) → (∀ x s', R x s' → verdict s' (g x) Q bad) → verdict s (bind c g) Q bad.
Proof. unfold verdict, bind. destruct (c s) as [a s'|[] s'| |]; intros H1 H2 H3; try done; first [by apply H3|by apply H2]. Qed.

Lemma verdict_car {B} s l a d (g : loc → M B) Q bad :
  reps s l (Vpair a d) → (∀ la, reps s la a → verdict s (g la) Q bad) → verdict s (bind (ZUO_CAR l) g) Q bad.
Proof. intros H Hg. destruct (reps_car _ _ _ _ H) as (la & E & Ha). eapply verdict_step; eauto. Qed.
Lemma verdict_cdr {B} s l a d (g : loc → M B) Q bad :
  reps s l (Vpair a d) → (∀ ld, reps s ld d → verdict s (g ld) Q bad) → verdict s (bind (ZUO_CDR l) g) Q bad.
Proof. intros H Hg. destruct (reps_cdr _ _ _ _ H) as (ld & E & Hd). eapply verdict_step; eauto. Qed.

Lemma verdict_need_pair {B} s e l v (g : unit → M B) Q bad :
  ok s → reps s l v → (∀ a d, v = Vpair a d → verdict s (g tt) Q bad) →
  (vtag v ≠ zuo_pair_tag → bad) → verdict s (bind (need_pair e l) g) Q bad.
Proof.
  intros Hok H Hg Hbad. unfold need_pair, is_pair, verdict, bind.
  rewrite (reps_tag K T _ _ _ zuo_pair_tag Hok H). destruct (decide (vtag v = zuo_pair_tag)) as [E|E].
  - rewrite bool_decide_true by done. destruct v; try done. exact (Hg _ _ eq_refl).
  - rewrite bool_decide_false by done. cbn. auto.
Qed.

Lemma verdict_need_null {B} s e l v (g : unit → M B) Q bad :
  ok s → reps s l v → (v = Vnull → verdict s (g tt) Q bad) →
  (v ≠ Vnull → bad) → verdict s (bind (need_null e l) g) Q bad.
Proof.
  intros Hok H Hg Hbad. unfold need_null, verdict, bind.
  rewrite (reps_null K T _ _ _ Hok H). destruct (decide (v = Vnull)) as [E|E].
  - rewrite bool_decide_true by done. exact (Hg E).
  - rewrite bool_decide_false by done. cbn. auto.
Qed.

Lemma verdict_need_symbol {B} s e l v (g : unit → M B) Q bad :
  ok s → reps s l v → (∀ id, v = Vsym id → verdict s (g tt) Q bad) →
  (vtag v ≠ zuo_symbol_tag → bad) → verdict s (bind (need_symbol e l) g) Q bad.
Proof.
  intros Hok H Hg Hbad. unfold need_symbol, verdict, bind.
  rewrite (reps_tag K T _ _ _ zuo_symbol_tag Hok H). destruct (decide (vtag v = zuo_symbol_tag)) as [E|E].
  - rewrite bool_decide_true by done. destruct v; try done. exact (Hg _ eq_refl).
  - rewrite bool_decide_false by done. cbn. auto.
Qed.

Definition last_pair (v : val) : bool := match v with Vpair _ Vnull => true | _ => false end.

Lemma verdict_need_last {B} s e l v (g : unit → M B) Q bad :
  ok s → reps s l v → (∀ a, v = Vpair a Vnull → verdict s (g tt) Q bad) →
  (last_pair v = false → bad) → verdict s (bind (need_last e l) g) Q bad.
Proof.
  intros Hok H Hg Hbad. unfold need_last. unfold verdict. rewrite bind_assoc.
  apply (verdict_need_pair s e l v _ Q bad Hok H).
  - intros a d ->. unfold verdict. rewrite bind_assoc. apply (verdict_cdr _ _ _ _ _ Q bad H). intros ld Hd.
    apply (verdict_need_null s e ld d _ Q bad Hok Hd).
    + intros ->. exact (Hg _ eq_refl).
    + intros Hne. apply Hbad. by destruct d.
  - intros Hne. apply Hbad. by destruct v.
Qed.

(** ** One expression of the work list *)

Definition total_size (ws : list val) : nat := sum_list_with vsize ws.

(** The work list [ws] has been extended with expressions of fewer than [n]
    nodes, all of them well formed if [b]. *)
Definition work (s : st) (n : nat) (b : bool) (ws : list val) (les' : loc) (s' : st) : Prop :=
  ext s s' ∧ s_rt s' = s_rt s ∧
  ∃ ws', reps s' les' (of_list ws') ∧ (total_size ws' < n + total_size ws)%nat
    ∧ forallb wf ws' = b && forallb wf ws.

Definition checks (s : st) (c : M loc) (n : nat) (b : bool) (ws : list val) : Prop :=
  verdict s c (work s n b ws) (b = false).

(** Adding an expression in front of the work list. *)
Lemma checks_push s s0 a va les ws (g : loc → M loc) Q bad :
  ext s0 s → s_rt s = s_rt s0 → reps s a va → reps s les (of_list ws) →
  (∀ p s', ext s0 s' → s_rt s' = s_rt s0 → reps s' p (of_list (va :: ws)) →
     (∀ l v, reps s l v → reps s' l v) → verdict s' (g p) Q bad) →
  verdict s (p <- zuo_cons a les ;; g p) Q bad.
Proof.
  intros He Hr Ha Hl Hg.
  destruct (zuo_cons_ext K T s a les va (of_list ws) (ext_ok _ _ _ _ He) Ha Hl) as (p & s' & E' & He' & Hp & Hr').
  unfold verdict. rewrite (bind_ok _ _ _ _ _ E'). apply Hg; [by eapply ext_trans|congruence|done|apply He'].
Qed.

Lemma checks_last s s0 a va les ws n b ws0 bad :
  ext s0 s → s_rt s = s_rt s0 → reps s a va → reps s les (of_list ws) →
  (total_size (va :: ws) < n + total_size ws0)%nat → forallb wf (va :: ws) = b && forallb wf ws0 →
  verdict s (zuo_cons a les) (work s0 n b ws0) bad.
Proof.
  intros He Hr Ha Hl Hn Hb.
  destruct (zuo_cons_ext K T s a les va (of_list ws) (ext_ok _ _ _ _ He) Ha Hl) as (p & s' & E' & He' & Hp & Hr').
  unfold verdict. rewrite E'. split; [by eapply ext_trans|]. split; [congruence|]. by exists (va :: ws).
Qed.

(** The grammar, one form at a time. *)
Fixpoint wf_seq (l : val) : bool :=
  match l with Vnull => true | Vpair a l' => wf a && wf_seq l' | _ => false end.

Definition wf_lambda (d : val) : bool :=
  match d with
  | Vpair f (Vpair b Vnull) => wf_formals f && wf b
  | Vpair f (Vpair (Vstr _) (Vpair b Vnull)) => wf_formals f && wf b
  | _ => false
  end.
Definition wf_let (d : val) : bool :=
  match d with
  | Vpair (Vpair (Vpair (Vsym _) (Vpair rhs Vnull)) Vnull) (Vpair b Vnull) => wf rhs && wf b
  | _ => false
  end.
Definition wf_if (d : val) : bool :=
  match d with Vpair a (Vpair b (Vpair c Vnull)) => wf a && wf b && wf c | _ => false end.
Definition wf_begin (d : val) : bool :=
  match d with Vpair a l => wf a && wf_seq l | _ => false end.

Lemma wf_expr_eq rator d :
  wf (Vpair rator d) =
    (if decide (rator = Vsym (k_quote K)) then last_pair d
     else if decide (rator = Vsym (k_if K)) then wf_if d
     else if decide (rator = Vsym (k_lambda K)) then wf_lambda d
     else if decide (rator = Vsym (k_let K)) then wf_let d
     else if decide (rator = Vsym (k_begin K)) then wf_begin d
     else wf rator && wf_seq d).
Proof. cbn [wf_expr]. repeat (case_decide; [done|]). done. Qed.

Section forms.
Context (s : st) (e es : loc) (rator d : val) (ws : list val).
Context (Hok : ok s) (He : reps s e (Vpair rator d)) (Hes : reps s es (of_list ws)).

Lemma check_quote_ok : checks s (check_quote e es) (vsize (Vpair rator d)) (last_pair d) ws.
Proof.
  eapply verdict_cdr; [exact He|]. intros ld Hd. eapply verdict_need_last; [done|exact Hd| |done].
  intros a ->. cbn. split; [by apply ext_refl|]. split; [done|]. exists ws. split; [done|]. split; [lia|done].
Qed.

Lemma check_if_ok : checks s (check_if e es) (vsize (Vpair rator d)) (wf_if d) ws.
Proof.
  eapply verdict_cdr; [exact He|]. intros ld Hd.
  eapply verdict_need_pair; [done|exact Hd| |by destruct d]. intros a dd Ed. rewrite Ed in *.
  eapply verdict_cdr; [exact Hd|]. intros ldd Hdd.
  eapply verdict_need_pair; [done|exact Hdd| |by destruct dd]. intros b ddd Edd. rewrite Edd in *.
  eapply verdict_cdr; [exact Hdd|]. intros lddd Hddd.
  eapply verdict_need_last; [done|exact Hddd| |by destruct ddd as [| | | | | | | | | | | | | |? []| | |]]. intros c Eddd. rewrite Eddd in *.
  eapply verdict_car; [exact Hddd|]. intros lc Hc.
  eapply (checks_push s s); [by apply ext_refl|done|exact Hc|exact Hes|]. intros p1 s1 X1 R1 P1 M1.
  eapply verdict_car; [by apply M1; exact Hdd|]. intros lb Hb.
  eapply (checks_push s1 s); [done|done|exact Hb|exact P1|]. intros p2 s2 X2 R2 P2 M2.
  eapply verdict_car; [by apply M2, M1; exact Hd|]. intros la Ha.
  eapply checks_last; [done|done|exact Ha|exact P2|unfold total_size; cbn; lia|].
  cbn. by rewrite <- !andb_assoc.
Qed.

Lemma check_formals_ok fuel : ∀ ad F,
  reps s ad F → (spine F < fuel)%nat →
  verdict s (check_formals fuel e ad)
    (λ ad' s', s' = s ∧ ∃ F', reps s ad' F' ∧ vtag F' ≠ zuo_pair_tag ∧ wf_formals F' = wf_formals F)
    (wf_formals F = false).
Proof.
  induction fuel as [|fuel IH]; intros ad F HF Hfuel; [lia|]. cbn [check_formals]. unfold is_pair.
  eapply verdict_step; [by eapply reps_tag|]. destruct (decide (vtag F = zuo_pair_tag)) as [E|E].
  - rewrite bool_decide_true by done. destruct F as [| | | | | | | | | | | | | |f fs| | |]; try done. cbn in Hfuel.
    eapply verdict_car; [exact HF|]. intros lf Hf. eapply verdict_need_symbol; [done|exact Hf| |by destruct f].
    intros id ->. eapply verdict_cdr; [exact HF|]. intros lfs Hfs. cbn [wf_formals]. apply IH; [done|lia].
  - rewrite bool_decide_false by done. cbn. eauto.
Qed.

(** The end of [check_lambda], for formals at [ad] and a body at [dd]. *)
Lemma check_lambda_end ad dd F b r n :
  reps s ad F → reps s dd (Vpair b r) → (vsize b < n)%nat →
  checks s (ddd <- ZUO_CDR dd ;; need_null e ddd ;;; s <- get_st ;;
            ad <- check_formals (heap_fuel s) e ad ;; b <- is_null ad ;;
            (if b then ret tt else need_symbol e ad) ;;; x <- ZUO_CAR dd ;; zuo_cons x es)
    n (match r with Vnull => wf_formals F && wf b | _ => false end) ws.
Proof.
  intros HF Hdd Hn. eapply verdict_cdr; [exact Hdd|]. intros lr Hr.
  eapply verdict_need_null; [done|exact Hr| |by destruct r]. intros ->.
  eapply verdict_step; [done|]. eapply verdict_bind.
  { eapply check_formals_ok; [exact HF|]. unfold heap_fuel.
    pose proof (rep_spine K T _ _ (ok_inv _ _ _ Hok) _ _ HF). lia. }
  { by intros ->. }
  { intros ad' s' (-> & F' & HF' & HnF & <-). eapply verdict_step; [by eapply reps_null|].
    assert (Hend : wf_formals F' = true →
      verdict s (x <- ZUO_CAR dd ;; zuo_cons x es) (work s n (wf_formals F' && wf b) ws) (wf_formals F' && wf b = false)).
    { intros HwF. eapply verdict_car; [exact Hdd|]. intros lb Hb.
      eapply checks_last; [by apply ext_refl|done|exact Hb|exact Hes|unfold total_size; cbn; lia|].
      cbn. by rewrite HwF. }
    destruct (decide (F' = Vnull)) as [->|Hne].
    - rewrite bool_decide_true by done. by apply Hend.
    - rewrite bool_decide_false by done. eapply verdict_need_symbol; [done|exact HF'| |].
      + intros id ->. by apply Hend.
      + intros Hns. by destruct F'. }
Qed.

Lemma check_lambda_ok : checks s (check_lambda e es) (vsize (Vpair rator d)) (wf_lambda d) ws.
Proof.
  eapply verdict_cdr; [exact He|]. intros ld Hd.
  eapply verdict_need_pair; [done|exact Hd| |by destruct d]. intros F dd Ed. rewrite Ed in *.
  eapply verdict_car; [exact Hd|]. intros lF HF. eapply verdict_cdr; [exact Hd|]. intros ldd Hdd.
  eapply verdict_need_pair; [done|exact Hdd| |by destruct dd]. intros b ddd Edd. rewrite Edd in *.
  eapply verdict_cdr; [exact Hdd|]. intros lddd Hddd. eapply verdict_step; [by eapply reps_null|].
  destruct (decide (ddd = Vnull)) as [->|Hne].
  - rewrite bool_decide_true by done. eapply verdict_step; [done|].
    replace (wf_lambda (Vpair F (Vpair b Vnull))) with (wf_formals F && wf b) by (by destruct b).
    apply (check_lambda_end lF ldd F b Vnull); [done|done|cbn; lia].
  - rewrite bool_decide_false by done. unfold verdict. rewrite bind_assoc.
    apply (verdict_car s ldd b ddd); [done|]. intros lb Hb. unfold verdict. rewrite bind_assoc.
    eapply verdict_step; [by eapply reps_tag|]. destruct (decide (vtag b = zuo_string_tag)) as [Es|Es].
    + rewrite bool_decide_true by done. destruct b; try done. unfold verdict. rewrite bind_assoc.
      eapply verdict_need_pair; [done|exact Hddd| |by destruct ddd]. intros b' r ->.
      eapply verdict_step; [done|].
      replace (wf_lambda _) with (match r with Vnull => wf_formals F && wf b' | _ => false end) by done.
      apply (check_lambda_end lF lddd F b' r); [done|done|cbn; lia].
    + rewrite bool_decide_false by done. cbn. destruct ddd, b; done.
Qed.

Lemma check_let_ok : checks s (check_let e es) (vsize (Vpair rator d)) (wf_let d) ws.
Proof.
  assert (Hlast : ∀ ad b, last_pair b = false → wf_let (Vpair ad b) = false).
  { intros ad b. unfold wf_let, last_pair. repeat (case_match; try done). }
  assert (Hbind : ∀ ad b, last_pair ad = false → wf_let (Vpair ad b) = false).
  { intros ad b. unfold wf_let, last_pair. repeat (case_match; try done). }
  eapply verdict_cdr; [exact He|]. intros ld Hd.
  eapply verdict_need_pair; [done|exact Hd| |by destruct d]. intros ad dd Ed. rewrite Ed in *.
  eapply verdict_car; [exact Hd|]. intros lad Had. eapply verdict_cdr; [exact Hd|]. intros ldd Hdd.
  eapply verdict_need_last; [done|exact Hdd| |by apply Hlast]. intros b Edd. rewrite Edd in *.
  eapply verdict_need_last; [done|exact Had| |by apply Hbind].
  intros aad Ead. rewrite Ead in *.
  eapply verdict_car; [exact Had|]. intros laad Haad.
  eapply verdict_need_pair; [done|exact Haad| |by destruct aad]. intros x daad Eaad. rewrite Eaad in *.
  eapply verdict_car; [exact Haad|]. intros lx Hx.
  eapply verdict_need_symbol; [done|exact Hx| |by destruct x]. intros id Ex. rewrite Ex in *.
  eapply verdict_cdr; [exact Haad|]. intros ldaad Hdaad.
  eapply verdict_need_last; [done|exact Hdaad| |by destruct daad as [| | | | | | | | | | | | | |? []| | |]].
  intros rhs Edaad. rewrite Edaad in *.
  eapply verdict_car; [exact Hdaad|]. intros lr Hr.
  eapply (checks_push s s); [by apply ext_refl|done|exact Hr|exact Hes|]. intros p1 s1 X1 R1 P1 M1.
  eapply verdict_car; [by apply M1; exact Hdd|]. intros lb Hb.
  eapply checks_last; [done|done|exact Hb|exact P1|unfold total_size; cbn; lia|].
  cbn. by rewrite andb_assoc, (andb_comm (wf b)).
Qed.
End forms.

(** The elements of a list join the work list. *)
Lemma check_each_ok s0 fuel : ∀ s l es L ws n,
  ext s0 s → s_rt s = s_rt s0 → reps s l L → reps s es (of_list ws) → (spine L < fuel)%nat → (vsize L ≤ n)%nat →
  ∃ l' es' s' L' ws', check_each fuel l es s = Ok (l', es') s'
    ∧ ext s0 s' ∧ s_rt s' = s_rt s0 ∧ reps s' l' L' ∧ vtag L' ≠ zuo_pair_tag
    ∧ reps s' es' (of_list ws') ∧ (total_size ws' < n + total_size ws)%nat
    ∧ (if decide (L' = Vnull) then forallb wf ws' = wf_seq L && forallb wf ws else wf_seq L = false).
Proof.
  induction fuel as [|fuel IH]; intros s l es L ws n Hx Hr HL Hes Hfuel Hn; [lia|]. cbn [check_each]. unfold is_pair.
  pose proof (ext_ok _ _ _ _ Hx) as Hok. run_step (reps_tag K T _ _ _ zuo_pair_tag Hok HL).
  destruct (decide (vtag L = zuo_pair_tag)) as [E|E].
  - rewrite bool_decide_true by done. destruct L as [| | | | | | | | | | | | | |a d| | |]; try done. cbn in Hfuel, Hn.
    destruct (reps_car _ _ _ _ HL) as (la & Ea & Ha). run_step Ea.
    destruct (zuo_cons_ext K T s la es a (of_list ws) Hok Ha Hes) as (p & s1 & E1 & He1 & Hp & Hr1). run_step E1.
    destruct (reps_cdr s1 l a d) as (ld & Ed & Hd); [by apply (ext_reps _ _ _ _ He1)|]. run_step Ed.
    destruct (IH s1 ld p d (a :: ws) (vsize d)) as (l' & es' & s' & L' & ws' & E' & Hx' & Hr' & HL' & Ht & Hes' & Hsz & Hwf);
      [by eapply ext_trans|congruence|done|done|lia|lia|].
    exists l', es', s', L', ws'. split; [done|]. split; [done|]. split; [done|]. split; [done|]. split; [done|].
    split; [done|]. unfold total_size in *. cbn in Hsz |- *. split; [lia|].
    case_decide; [rewrite Hwf; cbn; by rewrite andb_assoc, (andb_comm (wf a))|by rewrite Hwf, andb_false_r].
  - rewrite bool_decide_false by done. exists l, es, s, L, ws. split; [done|].
    split; [done|]. split; [done|]. split; [done|]. split; [done|]. split; [done|].
    split; [destruct L; cbn in Hn; lia|]. case_decide; [by subst|by destruct L].
Qed.

Lemma check_seq_ok s e l es L ws n :
  ok s → reps s l L → reps s es (of_list ws) → (vsize L ≤ n)%nat →
  checks s (check_seq e l es) n (wf_seq L) ws.
Proof.
  intros Hok HL Hes Hn. eapply verdict_step; [done|].
  destruct (check_each_ok s (heap_fuel s) s l es L ws n) as (l' & es' & s' & L' & ws' & E & Hx & Hr & HL' & _ & Hes' & Hsz & Hwf);
    [by apply ext_refl|done|done|done| |done|].
  { unfold heap_fuel. pose proof (rep_spine K T _ _ (ok_inv _ _ _ Hok) _ _ HL). lia. }
  unfold verdict. rewrite (bind_ok _ _ _ _ _ E). cbn [fst snd].
  eapply (verdict_need_null s'); [apply Hx|exact HL'| |].
  - intros ->. rewrite decide_True in Hwf by done. cbn. split; [done|]. split; [done|]. by exists ws'.
  - intros Hne. by rewrite decide_False in Hwf.
Qed.

Lemma check_form_ok s e es E ws :
  ok s → reps s e E → reps s es (of_list ws) → checks s (check_form e es) (vsize E) (wf E) ws.
Proof.
  intros Hok He Hes. unfold check_form, is_pair. eapply verdict_step; [by eapply reps_tag|].
  destruct (decide (vtag E = zuo_pair_tag)) as [Et|Et].
  2:{ rewrite bool_decide_false by done. cbn. split; [by apply ext_refl|]. split; [done|]. exists ws.
      split; [done|]. split; [destruct E; cbn; lia|by destruct E]. }
  rewrite bool_decide_true by done. destruct E as [| | | | | | | | | | | | | |rator d| | |]; try done.
  eapply verdict_car; [exact He|]. intros lr Hr. eapply verdict_step; [done|]. cbn zeta.
  rewrite wf_expr_eq. pose proof (ok_inv _ _ _ Hok) as Hinv.
  apply (keyword_case K T s lr rator o_quote_symbol (k_quote K) _ _ _ _
    (λ c b, checks s c (vsize (Vpair rator d)) b ws)); [done|apply Hinv|done|intros _; by apply check_quote_ok|intros _].
  apply (keyword_case K T s lr rator o_if_symbol (k_if K) _ _ _ _
    (λ c b, checks s c (vsize (Vpair rator d)) b ws)); [done|apply Hinv|done|intros _; by apply check_if_ok|intros _].
  apply (keyword_case K T s lr rator o_lambda_symbol (k_lambda K) _ _ _ _
    (λ c b, checks s c (vsize (Vpair rator d)) b ws)); [done|apply Hinv|done|intros _; by apply check_lambda_ok|intros _].
  apply (keyword_case K T s lr rator o_let_symbol (k_let K) _ _ _ _
    (λ c b, checks s c (vsize (Vpair rator d)) b ws)); [done|apply Hinv|done|intros _; by apply check_let_ok|intros _].
  apply (keyword_case K T s lr rator o_begin_symbol (k_begin K) _ _ _ _
    (λ c b, checks s c (vsize (Vpair rator d)) b ws)); [done|apply Hinv|done|intros _|intros _].
  - unfold check_begin. eapply verdict_cdr; [exact He|]. intros ld Hd.
    eapply verdict_need_pair; [done|exact Hd| |by destruct d]. intros a l Ed. rewrite Ed in *.
    apply (check_seq_ok s e ld es (Vpair a l) ws); [done|done|done|cbn; lia].
  - change (wf rator && wf_seq d) with (wf_seq (Vpair rator d)). by apply check_seq_ok.
Qed.

(** ** The whole check *)

Lemma check_loop_ok s0 fuel : ∀ s es ws,
  ext s0 s → s_rt s = s_rt s0 → reps s es (of_list ws) → (total_size ws < fuel)%nat →
  verdict s (check_loop fuel es) (λ _ s', ext s0 s' ∧ s_rt s' = s_rt s0 ∧ forallb wf ws = true) (forallb wf ws = false).
Proof.
  induction fuel as [|fuel IH]; intros s es ws Hx Hr Hes Hfuel; [lia|]. cbn [check_loop].
  pose proof (ext_ok _ _ _ _ Hx) as Hok. eapply verdict_step; [by eapply reps_null|].
  destruct ws as [|w ws].
  - rewrite bool_decide_true by done. cbn. auto.
  - rewrite bool_decide_false by done. cbn [of_list] in Hes.
    eapply verdict_car; [exact Hes|]. intros le He. eapply verdict_cdr; [exact Hes|]. intros les' Hes'.
    eapply verdict_bind; [by apply check_form_ok| |].
    + cbn. by intros ->.
    + intros es' s' (Hx' & Hr' & ws' & Hws' & Hsz & Hwf). cbn [forallb]. rewrite <- Hwf.
      unfold total_size in *. cbn in Hfuel. apply IH; [by eapply ext_trans|congruence|done|lia].
Qed.

Lemma check_syntax_ok s fuel e E :
  ok s → reps s e E → (vsize E < fuel)%nat →
  verdict s (check_syntax fuel e) (λ _ s', ext s s' ∧ s_rt s' = s_rt s ∧ wf E = true) (wf E = false).
Proof.
  intros Hok He Hfuel. unfold check_syntax. eapply verdict_step; [done|].
  destruct (zuo_cons_ext K T s e (o_null (s_img s)) E Vnull Hok He eq_refl) as (p & s1 & E1 & He1 & Hp & Hr1).
  unfold verdict. rewrite (bind_ok _ _ _ _ _ E1).
  pose proof (check_loop_ok s fuel s1 p [E] He1 Hr1 Hp) as H. unfold verdict in H. cbn [forallb] in H.
  rewrite andb_true_r in H. apply H. unfold total_size. cbn. lia.
Qed.
End syntax.
