(* ===== verification/Path.v ===== *)
(** * Paths, module paths and environment variables

    The Unix branches of the path functions.  The current directory and the
    process environment come from the operating system and are arguments. *)

From S2P Require Import Prelude Sys Heap Alloc Objects Trie Intern Sort Printer Reader Prims.

(** ** Path strings *)

Definition ZUO_PATH_SEP : Z := 47.
Definition ZUO_IS_PATH_SEP (c : Z) : bool := c =? ZUO_PATH_SEP.

Definition zuo_is_path_string (obj : loc) : M bool := zuo_is_string_without_nul obj.

Definition zuo_path_string_p (obj : loc) : M loc := b <- zuo_is_path_string obj ;; zbool b.

(** [for (i = 0; i < str->len; i++)] over the bytes from [i] on: [None] for
    the early [return 0], or the last value of [saw_slash] *)
Fixpoint module_path_scan (len i saw_slash : Z) (s : list Z) : option Z :=
  match s with
  | [] => Some saw_slash
  | c :: s' =>
      let slash := c =? 47 in
      if slash && ((i =? 0) || (i =? len - 1) || (saw_slash =? i)) then None
      else if zuo_is_symbol_module_char c
      then module_path_scan len (i + 1) (if slash then i + 1 else saw_slash) s'
      else None
  end.

(** The result and the new value of [*_saw_slash]. *)
Definition zuo_is_module_path (obj : loc) (saw_slash : bool) : M (bool * bool) :=
  o <- get obj ;;
  match o with
  | Osymbol _ str =>
      s <- ZUO_STRING_PTR str ;;
      match s with
      | [] => ret (true, saw_slash)
      | _ :: _ =>
          ret (match module_path_scan (Z.of_nat (length s)) 0 0 s with
               | None => (false, saw_slash)
               | Some n => (true, 0 <? n)
               end)
      end
  | _ => b <- zuo_is_path_string obj ;; ret (b, saw_slash)
  end.

Definition zuo_module_path_p (obj : loc) : M loc :=
  r <- zuo_is_module_path obj false ;; zbool (fst r).

Definition check_path_string (who : list Z) (obj : loc) : M unit :=
  b <- zuo_is_path_string obj ;;
  if b then ret tt else zuo_fail_arg who (bytes_of "path string") obj.

Definition check_module_path (who : list Z) (obj : loc) : M unit :=
  r <- zuo_is_module_path obj false ;;
  if fst r then ret tt else zuo_fail_arg who (bytes_of "module path") obj.

(** [p[0] == '/'] *)
Definition zuo_path_is_absolute (p : list Z) : bool := hd 0 p =? 47.

Definition zuo_relative_path_p (obj : loc) : M loc :=
  check_path_string (bytes_of "relative-path?") obj ;;;
  p <- ZUO_STRING_PTR obj ;;
  zbool (negb (zuo_path_is_absolute p)).

(** ** Splitting *)

(** [for (i = len; i-- > 0; )]: [inl i] when a separator with an element after
    it is at [i - 1], [inr tail_seps] when the loop ends. *)
Fixpoint split_scan (p : list Z) (i : nat) (non_sep : bool) (tail_seps : Z) : (Z * Z) + Z :=
  match i with
  | O => inr tail_seps
  | S i' =>
      if ZUO_IS_PATH_SEP (nth i' p 0) then
        if non_sep then inl (Z.of_nat i, tail_seps) else split_scan p i' false (tail_seps + 1)
      else split_scan p i' true tail_seps
  end.

Definition zuo_split_path (p : loc) : M loc :=
  check_path_string (bytes_of "split-path") p ;;;
  s <- ZUO_STRING_PTR p ;;
  let len := Z.of_nat (length s) in
  match split_scan s (length s) false 0 with
  | inl (i, tail_seps) =>
      a <- zuo_sized_string (slice s 0 i) ;;
      d <- zuo_sized_string (slice s i (len - tail_seps)) ;;
      zuo_cons a d
  | inr tail_seps =>
      p <- (if 0 <? tail_seps then
              let tail_seps := if tail_seps =? len then tail_seps - 1 else tail_seps in
              zuo_sized_string (slice s 0 (len - tail_seps))
            else ret p) ;;
      f <- zi o_false ;;
      zuo_cons f p
  end.

(** ** Building *)

(** [pre] is never empty, so that it has a last byte. *)
Definition raw_path2 (pre post : list Z) : list Z :=
  if ZUO_IS_PATH_SEP (List.last pre 0) then pre ++ post else pre ++ [ZUO_PATH_SEP] ++ post.

Definition zuo_build_raw_path2 (pre post : loc) : M loc :=
  a <- ZUO_STRING_PTR pre ;;
  b <- ZUO_STRING_PTR post ;;
  match a with
  | [] => ub "last byte of an empty string"
  | _ :: _ => zuo_sized_string (raw_path2 a b)
  end.

(** [!strcmp(ZUO_STRING_PTR(l), lit)] *)
Definition string_is (l : loc) (lit : string) : M bool :=
  s <- ZUO_STRING_PTR l ;;
  ret (match strcmp s (bytes_of lit) with Eq => true | _ => false end).

(** The [do ... while] loop: the elements of [rel], first one first. *)
Fixpoint explode_loop (fuel : nat) (rel exploded : loc) : M loc :=
  match fuel with
  | O => λ _, Diverge
  | S fuel' =>
      l <- zuo_split_path rel ;;
      d <- ZUO_CDR l ;;
      exploded <- zuo_cons d exploded ;;
      rel <- ZUO_CAR l ;;
      b <- is_zi o_false rel ;;
      if b then ret exploded else explode_loop fuel' rel exploded
  end.

(** an element ".." of [rel]: the new base, elements and [ups] *)
Definition build_up (base exploded : loc) (ups : Z) : M (loc * loc * Z) :=
  l <- zuo_split_path base ;;
  base_elem <- ZUO_CDR l ;;
  base <- ZUO_CAR l ;;
  dot <- string_is base_elem "." ;;
  dotdot <- string_is base_elem ".." ;;
  top <- is_zi o_false base ;;
  r <- (if dot then
          if top then d <- ZUO_CDR exploded ;; ret (d, ups + 1) else ret (exploded, ups)
        else if dotdot then e <- zuo_cons base_elem exploded ;; ret (e, ups)
        else d <- ZUO_CDR exploded ;; ret (d, ups)) ;;
  base <- (if top then zuo_string (bytes_of ".") else ret base) ;;
  ret (base, fst r, snd r).

(** [while (exploded != z.o_null)] *)
Fixpoint build_loop (fuel : nat) (base exploded : loc) (ups : Z) : M (loc * Z) :=
  match fuel with
  | O => λ _, Diverge
  | S fuel' =>
      b <- is_zi o_null exploded ;;
      if b then ret (base, ups)
      else
        elem <- ZUO_CAR exploded ;;
        dot <- string_is elem "." ;;
        if dot then d <- ZUO_CDR exploded ;; build_loop fuel' base d ups
        else
          dotdot <- string_is elem ".." ;;
          if dotdot then
            r <- build_up base exploded ups ;;
            build_loop fuel' (fst (fst r)) (snd (fst r)) (snd r)
          else
            b <- string_is base "." ;;
            base <- (if b then ret elem else zuo_build_raw_path2 base elem) ;;
            d <- ZUO_CDR exploded ;;
            build_loop fuel' base d ups
  end.

(** [while ((ups--) > 0)] *)
Fixpoint ups_loop (ups : nat) (base : loc) : M loc :=
  match ups with
  | O => ret base
  | S ups' =>
      b <- string_is base "." ;;
      base <- (if b then zuo_string (bytes_of "..")
               else u <- zuo_string (bytes_of "..") ;; zuo_build_raw_path2 u base) ;;
      ups_loop ups' base
  end.

(** Each pass of the loops shortens [rel], [base] or the list of elements: the
    lengths of the two paths bound the number of passes. *)
Definition path_fuel (base rel : list Z) : nat := (4 * S (length base + length rel))%nat.

Definition zuo_build_path2 (base rel : loc) : M loc :=
  b <- ZUO_STRING_PTR base ;;
  r <- ZUO_STRING_PTR rel ;;
  null <- zi o_null ;;
  exploded <- explode_loop (path_fuel b r) rel null ;;
  r <- build_loop (path_fuel b r) base exploded 0 ;;
  ups_loop (Z.to_nat (snd r)) (fst r).

Fixpoint build_multi_loop (fuel : nat) (who : list Z) (build2 : loc → loc → M loc) (pre paths : loc) :
    M loc :=
  match fuel with
  | O => λ _, Diverge
  | S fuel' =>
      b <- is_zi o_null paths ;;
      if b then ret pre
      else
        post <- ZUO_CAR paths ;;
        paths <- ZUO_CDR paths ;;
        check_path_string who post ;;;
        p <- ZUO_STRING_PTR post ;;
        if zuo_path_is_absolute p
        then zuo_fail1w who (bytes_of "additional path is not relative") post
        else pre <- build2 pre post ;; build_multi_loop fuel' who build2 pre paths
  end.

Definition zuo_build_path_multi (who : list Z) (paths : loc) (build2 : loc → loc → M loc) : M loc :=
  s <- get_st ;;
  pre <- ZUO_CAR paths ;;
  check_path_string who pre ;;;
  paths <- ZUO_CDR paths ;;
  build_multi_loop (heap_fuel s) who build2 pre paths.

Definition zuo_build_raw_path (paths : loc) : M loc :=
  zuo_build_path_multi (bytes_of "build-raw-path") paths zuo_build_raw_path2.
Definition zuo_build_path (paths : loc) : M loc :=
  zuo_build_path_multi (bytes_of "build-path") paths zuo_build_path2.

Definition zuo_normalize_input_path (path : loc) : M loc :=
  dot <- zuo_string (bytes_of ".") ;; zuo_build_path2 dot path.

(** [cwd] is what [zuo_getcwd] returns. *)
Definition zuo_current_directory (cwd : list Z) : M loc := zuo_string cwd.

Definition zuo_path_to_complete_path (cwd : list Z) (path : loc) : M loc :=
  p <- ZUO_STRING_PTR path ;;
  if zuo_path_is_absolute p then ret path
  else d <- zuo_current_directory cwd ;; zuo_build_path2 d path.

(** ** Module paths *)

(** the display form of a list of strings *)
Definition zuo_concat3 (fuel : nat) (a b c : loc) : M loc :=
  null <- zi o_null ;;
  l <- zuo_cons c null ;;
  l <- zuo_cons b l ;;
  l <- zuo_cons a l ;;
  zuo_tilde_a fuel l.
Definition zuo_concat2 (fuel : nat) (a b : loc) : M loc :=
  null <- zi o_null ;;
  l <- zuo_cons b null ;;
  l <- zuo_cons a l ;;
  zuo_tilde_a fuel l.

Definition zuo_library_path_to_file_path (fuel : nat) (path : loc) : M loc :=
  b <- has_tag zuo_symbol_tag path ;;
  r <- (if b then zuo_is_module_path path false else ret (false, false)) ;;
  if negb (fst r)
  then zuo_fail_arg (bytes_of "module-path->path") (bytes_of "module library path") path
  else
    lib <- zr o_library_path ;;
    b <- is_zi o_false lib ;;
    if b then zuo_fail1 (bytes_of "no library path configured, cannot load module") path
    else
      str <- symbol_str path ;;
      suffix <- zuo_string (bytes_of ".zuo") ;;
      main <- zuo_string (bytes_of (if snd r then "" else "/main")) ;;
      strobj <- zuo_concat3 fuel str main suffix ;;
      zuo_build_path2 lib strobj.

Record rel_parse := RelParse {
  rp_i : Z; rp_bad : bool; rp_ups : Z; rp_ups_until : Z; rp_saw_non_dot : bool; rp_suffix : Z }.

(** one pass of [while (i < len)] *)
Definition rel_parse_step (s : list Z) (p : rel_parse) : M rel_parse :=
  let '(RelParse i bad ups ups_until saw suffix) := p in
  c <- s_at s i ;;
  c1 <- s_at s (i + 1) ;;
  if c =? 46 then
    r <- (if c1 =? 47 then ret (i + 2, bad, ups, saw, suffix)
          else if c1 =? 46 then
            c2 <- s_at s (i + 2) ;;
            let ups := if saw then ups else ups + 1 in
            if c2 =? 47 then ret (i + 3, bad, ups, saw, suffix)
            else ret (i, true, ups, saw, suffix)
          else
            zuo <- (if c1 =? 122 then
                      c2 <- s_at s (i + 2) ;;
                      if c2 =? 117 then
                        c3 <- s_at s (i + 3) ;;
                        if c3 =? 111 then c4 <- s_at s (i + 4) ;; ret (c4 =? 0) else ret false
                      else ret false
                    else ret false) ;;
            if zuo then ret (i + 4, bad, ups, true, 4) else ret (i, true, ups, saw, suffix)) ;;
    let '(i, bad, ups, saw, suffix) := r in
    ret (RelParse i bad ups (if saw then ups_until else i) saw suffix)
  else if zuo_is_symbol_module_char c then
    if c =? 47 then ret (RelParse i true ups ups_until true suffix)
    else if c1 =? 47 then ret (RelParse (i + 2) bad ups ups_until true suffix)
    else ret (RelParse (i + 1) bad ups ups_until true suffix)
  else ret (RelParse i true ups ups_until saw suffix).

Fixpoint rel_parse_loop (fuel : nat) (who : list Z) (rel : loc) (s : list Z) (p : rel_parse) : M rel_parse :=
  match fuel with
  | O => λ _, Diverge
  | S fuel' =>
      if rp_i p <? Z.of_nat (length s) then
        p <- rel_parse_step s p ;;
        if rp_bad p then zuo_fail_arg who (bytes_of "relative module library path") rel
        else rel_parse_loop fuel' who rel s p
      else ret p
  end.

(** The result and the value of [*_ups]. *)
Definition zuo_parse_relative_module_path (who : list Z) (rel_mod_path : loc) (strip_ups : bool) :
    M (loc * Z) :=
  s <- ZUO_STRING_PTR rel_mod_path ;;
  p <- rel_parse_loop (input_fuel s) who rel_mod_path s (RelParse 0 false 1 0 false 0) ;;
  if rp_suffix p =? 0
  then zuo_fail1w who (bytes_of "relative module library path lacks " ++ [34] ++ bytes_of ".zuo" ++ [34]) rel_mod_path
  else if strip_ups then
    r <- zuo_sized_string (slice s (rp_ups_until p) (Z.of_nat (length s) - rp_suffix p)) ;;
    ret (r, rp_ups p)
  else ret (rel_mod_path, rp_ups p).

(** [while (ups)] *)
Fixpoint module_ups (ups : nat) (who : list Z) (rel mod_path : loc) : M loc :=
  match ups with
  | O => ret mod_path
  | S ups' =>
      l <- zuo_split_path mod_path ;;
      mod_path <- ZUO_CAR l ;;
      b <- is_zi o_false mod_path ;;
      if b then zuo_fail1w who (bytes_of "too many up elements") rel
      else module_ups ups' who rel mod_path
  end.

Definition zuo_build_module_path (fuel : nat) (base_mod_path rel_mod_path : loc) : M loc :=
  let who := bytes_of "build-module-path" in
  check_module_path who rel_mod_path ;;;
  r <- zuo_is_module_path base_mod_path false ;;
  if negb (fst r) then zuo_fail_arg who (bytes_of "module path") base_mod_path else
  let saw_slash := snd r in
  b <- has_tag zuo_symbol_tag rel_mod_path ;;
  if b then ret rel_mod_path else
  p <- ZUO_STRING_PTR rel_mod_path ;;
  if zuo_path_is_absolute p then ret rel_mod_path else
  strip_ups <- has_tag zuo_symbol_tag base_mod_path ;;
  r <- zuo_parse_relative_module_path who rel_mod_path strip_ups ;;
  let '(rel_str, ups) := r in
  if strip_ups then
    mod_path <- symbol_str base_mod_path ;;
    mod_path <- (if saw_slash then ret mod_path
                 else m <- zuo_string (bytes_of "/main") ;; zuo_concat2 fuel mod_path m) ;;
    mod_path <- module_ups (Z.to_nat ups) who rel_mod_path mod_path ;;
    mod_path <- zuo_concat2 fuel mod_path rel_str ;;
    mod_path <- zuo_string_to_symbol mod_path ;;
    r <- zuo_is_module_path mod_path saw_slash ;;
    if fst r then ret mod_path
    else zuo_fail1w who (bytes_of "relative path is not valid in a symbolic module path") rel_mod_path
  else
    l <- zuo_split_path base_mod_path ;;
    base <- ZUO_CAR l ;;
    b <- is_zi o_false base ;;
    base <- (if b then zuo_string (bytes_of ".") else ret base) ;;
    zuo_build_path2 base rel_str.

(** ** Environment variables and the runtime environment *)

(** the length of the name: up to the first [=] or the terminator *)
Fixpoint name_length (p : list Z) : nat :=
  match p with
  | [] => O
  | c :: p' => if c =? 61 then O else S (name_length p')
  end.

(** [p+j+1] is beyond the terminator of an entry without [=]. *)
Fixpoint envvars_loop (ea : list (list Z)) (first last : loc) : M loc :=
  match ea with
  | [] => ret first
  | p :: ea' =>
      let j := name_length p in
      if decide (j < length p)%nat then
        val <- zuo_string (drop (S j) p) ;;
        name <- zuo_sized_string (take j p) ;;
        a <- zuo_cons name val ;;
        null <- zi o_null ;;
        pr <- zuo_cons a null ;;
        first <- (if decide (last = 0) then ret pr else set_ZUO_CDR last pr ;;; ret first) ;;
        envvars_loop ea' first pr
      else ub "read beyond an environment entry"
  end.

(** [environ] are the entries of the process environment. *)
Definition zuo_get_envvars (environ : list (list Z)) : M loc :=
  null <- zi o_null ;; envvars_loop environ null 0.

(** the entries [name=value] that [zuo_envvars_block] lays out, in order *)
Fixpoint envvars_block_loop (fuel : nat) (l : loc) : M (list (list Z)) :=
  match fuel with
  | O => λ _, Diverge
  | S fuel' =>
      b <- is_zi o_null l ;;
      if b then ret []
      else
        a <- ZUO_CAR l ;;
        k <- ZUO_CAR a ;;
        name <- ZUO_STRING_PTR k ;;
        v <- ZUO_CDR a ;;
        val <- ZUO_STRING_PTR v ;;
        d <- ZUO_CDR l ;;
        r <- envvars_block_loop fuel' d ;;
        ret ((name ++ [61] ++ val) :: r)
  end.
Definition zuo_envvars_block (envvars : loc) : M (list (list Z)) :=
  s <- get_st ;; envvars_block_loop (heap_fuel s) envvars.

Definition zuo_runtime_env : M loc := zr o_runtime_env.

(** [zuo_hash_set(ht, zuo_symbol(name), val)] *)
Definition env_set (ht : loc) (name : string) (val : loc) : M loc :=
  sym <- zuo_symbol (bytes_of name) ;; zuo_hash_set ht sym val.

(** [while (argc-- > 0)], from the last argument *)
Fixpoint argv_list (argv : list (list Z)) : M loc :=
  match argv with
  | [] => zi o_null
  | a :: argv' => l <- argv_list argv' ;; str <- zuo_string a ;; zuo_cons str l
  end.

Definition zuo_make_runtime_env (exe_path : loc) (load_file : list Z) (argv : list (list Z)) : M loc :=
  ht <- zi o_empty_hash ;;
  ht <- env_set ht "exe" exe_path ;;
  l <- argv_list argv ;;
  ht <- env_set ht "args" l ;;
  str <- zuo_string load_file ;;
  env_set ht "script" str.

Definition ZUO_VERSION : Z := 1.
Definition ZUO_MINOR_VERSION : Z := 15.

Definition zuo_finish_runtime_env (cwd : list Z) (environ : list (list Z)) (ht : loc) : M loc :=
  v <- zuo_integer ZUO_VERSION ;;
  ht <- env_set ht "version" v ;;
  v <- zuo_integer ZUO_MINOR_VERSION ;;
  ht <- env_set ht "minor-version" v ;;
  v <- zuo_current_directory cwd ;;
  ht <- env_set ht "dir" v ;;
  v <- zuo_get_envvars environ ;;
  ht <- env_set ht "env" v ;;
  type <- zuo_symbol (bytes_of "unix") ;;
  t <- zi o_true ;;
  ht <- env_set ht "can-exec?" t ;;
  ht <- env_set ht "system-type" type ;;
  env_set ht "toolchain-type" type.

(** ** Optional arguments through a hash table *)

(** The option and the new value of [*_options]. *)
Definition zuo_consume_option (options : loc) (name : string) : M (loc * loc) :=
  sym <- zuo_symbol (bytes_of name) ;;
  opt <- zuo_trie_lookup options sym ;;
  b <- is_zi o_undefined opt ;;
  options <- (if b then ret options else zuo_hash_remove options sym) ;;
  ret (opt, options).

Definition check_options_consumed (who : list Z) (options : loc) : M unit :=
  c <- trie_count options ;;
  if 0 <? c then
    keys <- zuo_hash_keys options ;;
    a <- ZUO_CAR keys ;;
    zuo_fail1w who (bytes_of "unrecognized or unused option") a
  else ret tt.
