(* ===== verification/Module.v ===== *)
(** * Modules

    The two hand-built closures of the kernel module, the private primitives
    they call, and the functions that start evaluation.  Reading a file is the
    operating system's, and an argument. *)

From S2P Require Import Prelude Sys Heap Alloc Gc Objects Trie Intern Sort Printer Reader Prims Interp Path.

(** ** The kernel module *)

(** the list of [xs] *)
Fixpoint zuo_list_of (xs : list loc) : M loc :=
  match xs with
  | [] => zi o_null
  | x :: xs' => l <- zuo_list_of xs' ;; zuo_cons x l
  end.

(** [zuo_trie_lookup(z.o_top_env, zuo_symbol(name))] *)
Definition top_env_ref (name : string) : M loc :=
  sym <- zuo_symbol (bytes_of name) ;;
  env <- zi o_top_env ;;
  zuo_trie_lookup env sym.

(** read-and-eval = (lambda arg "read-and-eval" (kernel-eval (kernel-read-from-string arg))) *)
Definition declare_read_and_eval (arg_id : loc) : M unit :=
  sym <- zuo_symbol (bytes_of "read-and-eval") ;;
  read <- zi o_kernel_read_string ;;
  read <- zuo_list_of [read; arg_id] ;;
  eval <- zi o_kernel_eval ;;
  call <- zuo_list_of [eval; read] ;;
  lam <- zi o_lambda_symbol ;;
  str <- symbol_str sym ;;
  lam <- zuo_list_of [lam; arg_id; str; call] ;;
  empty <- zi o_empty_hash ;;
  read_and_eval <- zuo_closure lam empty ;;
  md <- zuo_trie_extend empty sym read_and_eval ;;
  name <- zuo_symbol (bytes_of "zuo/kernel") ;;
  entry <- zuo_cons name md ;;
  modules <- zi o_modules ;;
  modules <- zuo_cons entry modules ;;
  set_zi set_o_modules modules.

(** module->hash = (lambda (mod) "module->hash"
      (let ([arg (module->hash* mod)])
        (if (hash? arg)
            arg
            (register-module
              mod
              (apply (get-read-and-eval (car arg) (module->hash (car arg))) (cdr arg)))))) *)
Definition declare_module_to_hash (arg_id : loc) : M loc :=
  null <- zi o_null ;;
  mod_id <- zuo_symbol (bytes_of "mod") ;;
  mod_ids <- zuo_cons mod_id null ;;
  args <- zuo_cons arg_id null ;;
  p <- top_env_ref "car" ;;
  car_arg <- zuo_cons p args ;;
  p <- top_env_ref "cdr" ;;
  cdr_arg <- zuo_cons p args ;;
  p <- top_env_ref "hash?" ;;
  hash_p_arg <- zuo_cons p args ;;
  p <- zi o_module_to_hash_star ;;
  module_to_hash_star_arg <- zuo_cons p mod_ids ;;
  f <- zi o_false ;;
  recur <- zuo_list_of [f; car_arg] ;;
  p <- zi o_get_read_and_eval ;;
  call <- zuo_list_of [p; car_arg; recur] ;;
  p <- zi o_apply ;;
  apply <- zuo_list_of [p; call; cdr_arg] ;;
  p <- zi o_register_module ;;
  reg_mod <- zuo_list_of [p; mod_id; apply] ;;
  p <- zi o_if_symbol ;;
  if_form <- zuo_list_of [p; hash_p_arg; arg_id; reg_mod] ;;
  b <- zuo_list_of [arg_id; module_to_hash_star_arg] ;;
  bind <- zuo_cons b null ;;
  p <- zi o_let_symbol ;;
  body <- zuo_list_of [p; bind; if_form] ;;
  p <- zi o_lambda_symbol ;;
  name <- zuo_string (bytes_of "module->hash") ;;
  lam <- zuo_list_of [p; mod_ids; name; body] ;;
  empty <- zi o_empty_hash ;;
  module_to_hash <- zuo_closure lam empty ;;
  set_ZUO_CAR recur module_to_hash ;;;
  ret module_to_hash.

Definition zuo_declare_kernel_module : M loc :=
  arg_id <- zuo_symbol (bytes_of "arg") ;;
  declare_read_and_eval arg_id ;;;
  declare_module_to_hash arg_id.

(** ** Private primitives *)

Definition zuo_kernel_read_string (fuel : nat) (args : loc) : M loc :=
  let who := bytes_of "read-and-eval" in
  n <- zuo_length_int args ;;
  (if negb (n =? 3) then
     name <- zuo_string who ;; zuo_arity_error fuel name args ;;; ub "arity-error returned"
   else ret tt) ;;;
  str <- ZUO_CAR args ;;
  d <- ZUO_CDR args ;;
  start_i <- ZUO_CAR d ;;
  dd <- ZUO_CDR d ;;
  mod_path <- ZUO_CAR dd ;;
  check_string who str ;;;
  check_integer who start_i ;;;
  check_module_path who mod_path ;;;
  start <- ZUO_INT_I start_i ;;
  len <- ZUO_STRING_LEN str ;;
  if (start <? 0) || (len <? start)
  then zuo_fail1w who (bytes_of "starting index is out of bounds") start_i
  else
    es <- zuo_string_read str start_i mod_path ;;
    b <- is_zi o_null es ;;
    if b then zuo_fail (bytes_of "zuo/kernel: no S-expression in input") else
    d <- ZUO_CDR es ;;
    b <- is_zi o_null d ;;
    if negb b then zuo_fail (bytes_of "zuo/kernel: more than one S-expression in input")
    else ZUO_CAR es.

Definition zuo_module_path_equal (a b : loc) : M bool :=
  sa <- has_tag zuo_symbol_tag a ;;
  if sa then ret (bool_decide (a = b)) else
  sb <- has_tag zuo_symbol_tag b ;;
  if sb then ret false else
  r <- zuo_string_eql a b ;;
  is_zi o_true r.

(** the declared module with this path *)
Fixpoint find_module (fuel : nat) (module_path l : loc) : M (option loc) :=
  match fuel with
  | O => λ _, Diverge
  | S fuel' =>
      b <- is_zi o_null l ;;
      if b then ret None
      else
        a <- ZUO_CAR l ;;
        p <- ZUO_CAR a ;;
        b <- zuo_module_path_equal module_path p ;;
        if b then m <- ZUO_CDR a ;; ret (Some m)
        else d <- ZUO_CDR l ;; find_module fuel' module_path d
  end.

Fixpoint is_pending (fuel : nat) (module_path l : loc) : M bool :=
  match fuel with
  | O => λ _, Diverge
  | S fuel' =>
      b <- is_zi o_null l ;;
      if b then ret false
      else
        p <- ZUO_CAR l ;;
        b <- zuo_module_path_equal module_path p ;;
        if b then ret true else d <- ZUO_CDR l ;; is_pending fuel' module_path d
  end.

Section modules.
(** the contents of the file at a path, as a string *)
Variable read_file : loc → M loc.

(** the text of the module, with its language and where its body starts *)
Definition read_module (fuel : nat) (module_path : loc) : M loc :=
  sym <- has_tag zuo_symbol_tag module_path ;;
  file_path <- (if sym then zuo_library_path_to_file_path fuel module_path
                else ret module_path) ;;
  str <- read_file file_path ;;
  b <- ZUO_STRING_PTR str ;;
  r <- zuo_read_language b module_path ;;
  let '(lang, post) := r in
  i <- zuo_integer post ;;
  zuo_list_of [lang; str; i; module_path].

Definition zuo_module_to_hash_star (fuel : nat) (module_path : loc) : M loc :=
  check_module_path (bytes_of "module->hash") module_path ;;;
  s <- get_st ;;
  modules <- zi o_modules ;;
  r <- find_module (heap_fuel s) module_path modules ;;
  match r with
  | Some m => ret m
  | None =>
      pending <- zr o_pending_modules ;;
      b <- is_pending (heap_fuel s) module_path pending ;;
      if b then zuo_fail1 (bytes_of "cycle in module loading") module_path
      else
        p <- zuo_cons module_path pending ;;
        set_zr set_o_pending_modules p ;;;
        read_module fuel module_path
  end.
End modules.

Definition zuo_register_module (module_path md : loc) : M loc :=
  b <- has_tag zuo_trie_node_tag md ;;
  if negb b then zuo_fail1 (bytes_of "module did not produce a hash table") module_path else
  pending <- zr o_pending_modules ;;
  none <- is_zi o_null pending ;;
  expected <- (if none then ret false
               else p <- ZUO_CAR pending ;; ret (bool_decide (module_path = p))) ;;
  if negb expected then zuo_fail1 (bytes_of "attempting to register unexpected module") module_path
  else
    entry <- zuo_cons module_path md ;;
    modules <- zi o_modules ;;
    modules <- zuo_cons entry modules ;;
    set_zi set_o_modules modules ;;;
    rest <- ZUO_CDR pending ;;
    set_zr set_o_pending_modules rest ;;;
    ret md.

Definition zuo_get_read_and_eval (lang md : loc) : M loc :=
  sym <- zuo_symbol (bytes_of "read-and-eval") ;;
  proc <- zuo_trie_lookup md sym ;;
  b <- has_tag zuo_closure_tag proc ;;
  if b then ret proc else zuo_fail1 (bytes_of "not a language module path") lang.

(** ** Starting evaluation *)

(** [Z.o_stash = zuo_cons(v, Z.o_stash)] and back *)
Definition stash_push (v : loc) : M unit :=
  st <- zr o_stash ;; st <- zuo_cons v st ;; set_zr set_o_stash st.
Definition stash_pop : M loc :=
  st <- zr o_stash ;; v <- ZUO_CAR st ;; d <- ZUO_CDR st ;; set_zr set_o_stash d ;;; ret v.
Definition stash_top : M loc := st <- zr o_stash ;; ZUO_CAR st.

Section start.
Variable call_primitive : dispatcher → string → loc → M loc.

Definition zuo_module_to_hash (steps fuel : nat) (module_path : loc) : M loc :=
  proc <- top_env_ref "module->hash" ;;
  quote <- zi o_quote_symbol ;;
  q <- zuo_list_of [quote; module_path] ;;
  e <- zuo_list_of [proc; q] ;;
  zuo_kernel_eval call_primitive steps fuel e.

Definition zuo_eval_module (steps fuel : nat) (module_path input_str : loc) : M loc :=
  pending <- zr o_pending_modules ;;
  pending <- zuo_cons module_path pending ;;
  set_zr set_o_pending_modules pending ;;;
  stash_push module_path ;;;
  stash_push input_str ;;;
  b <- ZUO_STRING_PTR input_str ;;
  r <- zuo_read_language b module_path ;;
  let '(lang, post) := r in
  stash_push lang ;;;
  md <- zuo_module_to_hash steps fuel lang ;;
  lang <- stash_pop ;;
  read_and_eval <- zuo_get_read_and_eval lang md ;;
  input_str <- stash_pop ;;
  module_path <- stash_top ;;
  quote <- zuo_symbol (bytes_of "quote") ;;
  quoted <- zuo_list_of [quote; module_path] ;;
  i <- zuo_integer post ;;
  e <- zuo_list_of [read_and_eval; input_str; i; quoted] ;;
  md <- zuo_kernel_eval call_primitive steps fuel e ;;
  module_path <- stash_pop ;;
  zuo_register_module module_path md.
End start.
