(* ===== verification/Shell.v ===== *)
(** * Shell command lines

    The Unix branches of [string->shell], which quotes a string for a shell,
    and [shell->strings], which splits a command line into its arguments in
    place. *)

From S2P Require Import Prelude Sys Heap Alloc Objects Trie Intern Sort Printer Reader Prims.

(** ** Quoting *)

(** needs single quotes: double quote, dollar, backquote, backslash, [!],
    star, [@] and [^] *)
Definition squote_char (c : Z) : bool :=
  (c =? 34) || (c =? 36) || (c =? 96) || (c =? 92) || (c =? 33) || (c =? 42) || (c =? 64) || (c =? 94).

(** needs double quotes *)
Definition dquote_char (c : Z) : bool :=
  isspace c || (c =? 39) || (c =? 124) || (c =? 38) || (c =? 59) || (c =? 40) || (c =? 41)
  || (c =? 60) || (c =? 62) || (c =? 91) || (c =? 93) || (c =? 63) || negb (isprint c).

(** one character: what has been written and whether a double quote is open *)
Definition quote_step (st : list Z * bool) (c : Z) : list Z * bool :=
  let '(p, quoting) := st in
  if squote_char c then ((if quoting then p ++ [34] else p) ++ [39; c; 39], false)
  else if dquote_char c then ((if quoting then p else p ++ [34]) ++ [c], true)
  else ((if quoting then p ++ [34] else p) ++ [c], false).

Definition zuo_string_to_shell_c (s : list Z) : list Z :=
  let s := c_str s in
  let init := match s with [] => ([34], true) | _ :: _ => ([], false) end in
  let '(p, quoting) := foldl quote_step init s in
  if quoting then p ++ [34] else p.

Definition zuo_string_to_shell (str : loc) : M loc :=
  check_string (bytes_of "string->shell") str ;;;
  s <- ZUO_STRING_PTR str ;;
  zuo_string (zuo_string_to_shell_c s).

(** ** Splitting *)

(** The state of the loop: [buf] is the buffer with its terminator, [command]
    the start of each argument found. *)
Record shell_st := ShellSt {
  sh_buf : list Z;
  sh_i : nat;
  sh_j : nat;
  sh_arg_start : nat;
  sh_in_quote : bool;
  sh_in_squote : bool;
  sh_did_create : bool;
  sh_command : list nat
}.

(** [buf[j++] = c] and [i += n] *)
Definition sh_write (c : Z) (n : nat) (s : shell_st) : shell_st :=
  ShellSt (<[sh_j s := c]> (sh_buf s)) (sh_i s + n) (S (sh_j s)) (sh_arg_start s)
    (sh_in_quote s) (sh_in_squote s) (sh_did_create s) (sh_command s).
Definition sh_skip (n : nat) (s : shell_st) : shell_st :=
  ShellSt (sh_buf s) (sh_i s + n) (sh_j s) (sh_arg_start s)
    (sh_in_quote s) (sh_in_squote s) (sh_did_create s) (sh_command s).
Definition sh_set_quotes (q sq create : bool) (s : shell_st) : shell_st :=
  ShellSt (sh_buf s) (sh_i s) (sh_j s) (sh_arg_start s) q sq create (sh_command s).

(** white space or the terminator outside of quotes *)
Definition sh_delimiter (s : shell_st) : shell_st :=
  let s :=
    if bool_decide (sh_arg_start s < sh_j s)%nat || sh_did_create s then
      let w := sh_write 0 0 s in
      ShellSt (sh_buf w) (sh_i w) (sh_j w) (sh_arg_start w)
        (sh_in_quote w) (sh_in_squote w) (sh_did_create w) (sh_command w ++ [sh_arg_start w])
    else s in
  ShellSt (sh_buf s) (S (sh_i s)) (sh_j s) (sh_j s)
    (sh_in_quote s) (sh_in_squote s) false (sh_command s).

(** One pass of the loop; [inr] when it breaks, [None] for a read beyond the
    buffer. *)
Definition shell_step (s : shell_st) : option (shell_st + shell_st) :=
  c ← sh_buf s !! sh_i s;
  let s := if c =? 0 then sh_set_quotes false false (sh_did_create s) s else s in
  if sh_in_quote s then
    if c =? 34 then Some (inl (sh_skip 1 (sh_set_quotes false (sh_in_squote s) (sh_did_create s) s)))
    else if c =? 92 then
      next_c ← sh_buf s !! S (sh_i s);
      if (next_c =? 36) || (next_c =? 96) || (next_c =? 92) || (next_c =? 10)
      then Some (inl (sh_write next_c 2 s))
      else Some (inl (sh_write c 1 s))
    else Some (inl (sh_write c 1 s))
  else if sh_in_squote s then
    if c =? 39 then Some (inl (sh_skip 1 (sh_set_quotes (sh_in_quote s) false (sh_did_create s) s)))
    else Some (inl (sh_write c 1 s))
  else if c =? 34 then Some (inl (sh_skip 1 (sh_set_quotes true (sh_in_squote s) true s)))
  else if c =? 39 then Some (inl (sh_skip 1 (sh_set_quotes (sh_in_quote s) true true s)))
  else if c =? 92 then
    next_c ← sh_buf s !! S (sh_i s);
    if next_c =? 10 then Some (inl (sh_skip 2 s)) else Some (inl (sh_write c 2 s))
  else if isspace c || (c =? 0) then
    let s := sh_delimiter s in
    if c =? 0 then Some (inr s) else Some (inl s)
  else Some (inl (sh_write c 1 s)).

Fixpoint shell_loop (fuel : nat) (s : shell_st) : option shell_st :=
  match fuel with
  | O => None
  | S fuel' =>
      r ← shell_step s;
      match r with
      | inl s => shell_loop fuel' s
      | inr s => Some s
      end
  end.

(** [argv]: the C strings at the starts of the arguments; [None] when the loop
    reads beyond the buffer.  Each pass advances [i]. *)
Definition zuo_shell_to_strings_c (buf : list Z) : option (list (list Z)) :=
  s ← shell_loop (S (length buf)) (ShellSt (buf ++ [0]) 0 0 0 false false false []);
  Some ((λ a, c_str (drop a (sh_buf s))) <$> sh_command s).

(** [for (lst = z.o_null; len--; )], from the last argument *)
Fixpoint strings_list (argv : list (list Z)) : M loc :=
  match argv with
  | [] => zi o_null
  | a :: argv' => l <- strings_list argv' ;; str <- zuo_string a ;; zuo_cons str l
  end.

(** [starts_exe] is unused on Unix; [zuo_string_to_c] copies the whole string
    and its terminator. *)
Definition zuo_shell_to_strings (str starts_exe : loc) : M loc :=
  check_string (bytes_of "shell->strings") str ;;;
  s <- ZUO_STRING_PTR str ;;
  match zuo_shell_to_strings_c s with
  | Some argv => strings_list argv
  | None => ub "read beyond the command line"
  end.
