(* ===== verification/Sha256.v ===== *)
(** * SHA-256

    The digest behind [string-sha256]: the block function with its unrolled
    rounds, the buffering of input that arrives in pieces, the final padding,
    and the hexadecimal result. *)

From S2P Require Import Prelude Sys Heap Alloc Objects.

(** ** Words *)

(** [GET_UINT32_BE(n, b, i)] *)
Definition GET_UINT32_BE (b : list Z) (i : nat) : Z :=
  Z.lor (Z.lor (Z.lor (Z.shiftl (nth i b 0) 24) (Z.shiftl (nth (i + 1) b 0) 16))
          (Z.shiftl (nth (i + 2) b 0) 8)) (nth (i + 3) b 0).

(** the four bytes that [PUT_UINT32_BE(n, b, i)] stores *)
Definition PUT_UINT32_BE (n : Z) : list Z :=
  [to_u8 (Z.shiftr n 24); to_u8 (Z.shiftr n 16); to_u8 (Z.shiftr n 8); to_u8 n].

Definition SHR (x n : Z) : Z := Z.shiftr (Z.land x 4294967295) n.
Definition ROTR (x n : Z) : Z := Z.lor (SHR x n) (to_u32 (Z.shiftl x (32 - n))).
Definition S0 (x : Z) : Z := Z.lxor (Z.lxor (ROTR x 7) (ROTR x 18)) (SHR x 3).
Definition S1 (x : Z) : Z := Z.lxor (Z.lxor (ROTR x 17) (ROTR x 19)) (SHR x 10).
Definition S2 (x : Z) : Z := Z.lxor (Z.lxor (ROTR x 2) (ROTR x 13)) (ROTR x 22).
Definition S3 (x : Z) : Z := Z.lxor (Z.lxor (ROTR x 6) (ROTR x 11)) (ROTR x 25).
Definition F0 (x y z : Z) : Z := Z.lor (Z.land x y) (Z.land z (Z.lor x y)).
Definition F1 (x y z : Z) : Z := Z.lxor z (Z.land x (Z.lxor y z)).

(** ** Contexts *)

Definition words8 : Type := (Z * Z * Z * Z * Z * Z * Z * Z)%type.

Record zuo_sha2_ctx_t := Ctx {
  total0 : Z;
  total1 : Z;
  sha_state : words8;
  sha_buffer : list Z;
  is224 : bool
}.

Definition sha256_start : words8 :=
  (0x6A09E667, 0xBB67AE85, 0x3C6EF372, 0xA54FF53A, 0x510E527F, 0x9B05688C, 0x1F83D9AB, 0x5BE0CD19).
Definition sha224_start : words8 :=
  (0xC1059ED8, 0x367CD507, 0x3070DD17, 0xF70E5939, 0xFFC00B31, 0x68581511, 0x64F98FA7, 0xBEFA4FA4).

Definition mbedtls_sha256_init : zuo_sha2_ctx_t :=
  Ctx 0 0 (0, 0, 0, 0, 0, 0, 0, 0) (replicate 64 0) false.

Definition mbedtls_sha256_starts_ret (ctx : zuo_sha2_ctx_t) (is224 : bool) : zuo_sha2_ctx_t :=
  Ctx 0 0 (if is224 then sha224_start else sha256_start) (sha_buffer ctx) is224.

(** ** The block function *)

Definition sha_K : list Z := [
  0x428A2F98; 0x71374491; 0xB5C0FBCF; 0xE9B5DBA5; 0x3956C25B; 0x59F111F1; 0x923F82A4; 0xAB1C5ED5;
  0xD807AA98; 0x12835B01; 0x243185BE; 0x550C7DC3; 0x72BE5D74; 0x80DEB1FE; 0x9BDC06A7; 0xC19BF174;
  0xE49B69C1; 0xEFBE4786; 0x0FC19DC6; 0x240CA1CC; 0x2DE92C6F; 0x4A7484AA; 0x5CB0A9DC; 0x76F988DA;
  0x983E5152; 0xA831C66D; 0xB00327C8; 0xBF597FC7; 0xC6E00BF3; 0xD5A79147; 0x06CA6351; 0x14292967;
  0x27B70A85; 0x2E1B2138; 0x4D2C6DFC; 0x53380D13; 0x650A7354; 0x766A0ABB; 0x81C2C92E; 0x92722C85;
  0xA2BFE8A1; 0xA81A664B; 0xC24B8B70; 0xC76C51A3; 0xD192E819; 0xD6990624; 0xF40E3585; 0x106AA070;
  0x19A4C116; 0x1E376C08; 0x2748774C; 0x34B0BCB5; 0x391C0CB3; 0x4ED8AA4A; 0x5B9CCA4F; 0x682E6FF3;
  0x748F82EE; 0x78A5636F; 0x84C87814; 0x8CC70208; 0x90BEFFFA; 0xA4506CEB; 0xBEF9A3F7; 0xC67178F2].

(** [R(t)]: the value that is stored as [W[t]] *)
Definition sha_R (W : list Z) (t : nat) : Z :=
  to_u32 (S1 (nth (t - 2) W 0) + nth (t - 7) W 0 + S0 (nth (t - 15) W 0) + nth (t - 16) W 0).

(** [P(a,b,c,d,e,f,g,h,x,K)]: the new values of [d] and [h] *)
Definition sha_P (a b c d e f g h x k : Z) : Z * Z :=
  let temp1 := to_u32 (h + S3 e + F1 e f g + k + x) in
  let temp2 := to_u32 (S2 a + F0 a b c) in
  (to_u32 (d + temp1), to_u32 (temp1 + temp2)).

(** eight rounds with the words in the roles that rotate back after them *)
Definition sha_P8 (A : words8) (W : list Z) (i : nat) : words8 :=
  let '(a0, a1, a2, a3, a4, a5, a6, a7) := A in
  let w n := nth (i + n) W 0 in
  let k n := nth (i + n) sha_K 0 in
  let '(a3, a7) := sha_P a0 a1 a2 a3 a4 a5 a6 a7 (w 0%nat) (k 0%nat) in
  let '(a2, a6) := sha_P a7 a0 a1 a2 a3 a4 a5 a6 (w 1%nat) (k 1%nat) in
  let '(a1, a5) := sha_P a6 a7 a0 a1 a2 a3 a4 a5 (w 2%nat) (k 2%nat) in
  let '(a0, a4) := sha_P a5 a6 a7 a0 a1 a2 a3 a4 (w 3%nat) (k 3%nat) in
  let '(a7, a3) := sha_P a4 a5 a6 a7 a0 a1 a2 a3 (w 4%nat) (k 4%nat) in
  let '(a6, a2) := sha_P a3 a4 a5 a6 a7 a0 a1 a2 (w 5%nat) (k 5%nat) in
  let '(a5, a1) := sha_P a2 a3 a4 a5 a6 a7 a0 a1 (w 6%nat) (k 6%nat) in
  let '(a4, a0) := sha_P a1 a2 a3 a4 a5 a6 a7 a0 (w 7%nat) (k 7%nat) in
  (a0, a1, a2, a3, a4, a5, a6, a7).

(** [W] with the words [i] up to [i + n - 1] added *)
Fixpoint sha_extend (W : list Z) (i n : nat) : list Z :=
  match n with
  | O => W
  | S n' => sha_extend (W ++ [sha_R W i]) (S i) n'
  end.

Definition sha_load (data : list Z) : list Z :=
  (λ i, GET_UINT32_BE data (4 * i)) <$> seq 0 16.

(** the second loop, with [n] passes left *)
Fixpoint sha_rounds (A : words8) (W : list Z) (i n : nat) : words8 :=
  match n with
  | O => A
  | S n' =>
      let W := sha_extend W i 8 in
      sha_rounds (sha_P8 A W i) W (i + 8) n'
  end.

Definition add_words (x y : words8) : words8 :=
  let '(x0, x1, x2, x3, x4, x5, x6, x7) := x in
  let '(y0, y1, y2, y3, y4, y5, y6, y7) := y in
  (to_u32 (x0 + y0), to_u32 (x1 + y1), to_u32 (x2 + y2), to_u32 (x3 + y3),
   to_u32 (x4 + y4), to_u32 (x5 + y5), to_u32 (x6 + y6), to_u32 (x7 + y7)).

Definition mbedtls_internal_sha256_process (state : words8) (data : list Z) : words8 :=
  let W := sha_load data in
  let A := sha_P8 state W 0 in
  let A := sha_P8 A W 8 in
  let A := sha_rounds A W 16 6 in
  add_words state A.

(** ** Input in pieces *)

(** [memcpy(ctx->buffer + left, input, n)] of the whole of [input] *)
Definition buffer_write (buffer : list Z) (left : nat) (input : list Z) : list Z :=
  take left buffer ++ input ++ drop (left + length input) buffer.

(** [while (ilen >= 64)]: the state and the rest of the input *)
Fixpoint sha_blocks (fuel : nat) (state : words8) (input : list Z) : words8 * list Z :=
  match fuel with
  | O => (state, input)
  | S fuel' =>
      if (64 <=? length input)%nat
      then sha_blocks fuel' (mbedtls_internal_sha256_process state (take 64 input)) (drop 64 input)
      else (state, input)
  end.

Definition mbedtls_sha256_update_ret (ctx : zuo_sha2_ctx_t) (input : list Z) : zuo_sha2_ctx_t :=
  match input with
  | [] => ctx
  | _ :: _ =>
      let ilen := Z.of_nat (length input) in
      let left0 := Z.to_nat (Z.land (total0 ctx) 63) in
      let fill := (64 - left0)%nat in
      let t0 := to_u32 (total0 ctx + to_u32 ilen) in
      let t1 := if t0 <? to_u32 ilen then to_u32 (total1 ctx + 1) else total1 ctx in
      let '(state, buffer, input, left1) :=
        if negb (left0 =? 0)%nat && (fill <=? length input)%nat then
          let buffer := buffer_write (sha_buffer ctx) left0 (take fill input) in
          (mbedtls_internal_sha256_process (sha_state ctx) buffer, buffer, drop fill input, 0%nat)
        else (sha_state ctx, sha_buffer ctx, input, left0) in
      let '(state, input) := sha_blocks (length input) state input in
      Ctx t0 t1 state
        (match input with [] => buffer | _ :: _ => buffer_write buffer left1 input end)
        (is224 ctx)
  end.

(** ** The end of the message *)

Definition sha256_padding : list Z := 128 :: replicate 63 0.

Definition put_words (w : words8) (is224 : bool) : list Z :=
  let '(x0, x1, x2, x3, x4, x5, x6, x7) := w in
  PUT_UINT32_BE x0 ++ PUT_UINT32_BE x1 ++ PUT_UINT32_BE x2 ++ PUT_UINT32_BE x3
  ++ PUT_UINT32_BE x4 ++ PUT_UINT32_BE x5 ++ PUT_UINT32_BE x6
  ++ (if is224 then [] else PUT_UINT32_BE x7).

Definition mbedtls_sha256_finish_ret (ctx : zuo_sha2_ctx_t) : list Z :=
  let high := Z.lor (Z.shiftr (total0 ctx) 29) (to_u32 (Z.shiftl (total1 ctx) 3)) in
  let low := to_u32 (Z.shiftl (total0 ctx) 3) in
  let msglen := PUT_UINT32_BE high ++ PUT_UINT32_BE low in
  let last := Z.to_nat (Z.land (total0 ctx) 63) in
  let padn := if (last <? 56)%nat then (56 - last)%nat else (120 - last)%nat in
  let ctx := mbedtls_sha256_update_ret ctx (take padn sha256_padding) in
  let ctx := mbedtls_sha256_update_ret ctx msglen in
  put_words (sha_state ctx) (is224 ctx).

Definition zuo_sha256_init : zuo_sha2_ctx_t :=
  mbedtls_sha256_starts_ret mbedtls_sha256_init false.
Definition zuo_sha256_update : zuo_sha2_ctx_t → list Z → zuo_sha2_ctx_t := mbedtls_sha256_update_ret.
Definition zuo_sha256_final : zuo_sha2_ctx_t → list Z := mbedtls_sha256_finish_ret.

(** ** The primitive *)

Definition hex_char (c : Z) : Z := if c <? 10 then c + 48 else c + 97 - 10.

Definition sha256_hex (s : list Z) : list Z :=
  d ← zuo_sha256_final (zuo_sha256_update zuo_sha256_init s);
  [hex_char (Z.shiftr d 4); hex_char (Z.land d 15)].

(** There is no check that [str] is a string. *)
Definition zuo_string_sha256 (str : loc) : M loc :=
  s <- ZUO_STRING_PTR str ;;
  zuo_sized_string (sha256_hex s).

(** A test vector of FIPS 180-2. *)
Example sha256_abc :
  sha256_hex (bytes_of "abc")
  = bytes_of "ba7816bf8f01cfea414140de5dae2223b00361a396177a9cb410ff61f20015ad".
Proof. vm_compute. reflexivity. Qed.
