(* ===== verification/Fasl.v ===== *)
(** * Heap images

    The table of primitives, the dump of the heap that is reachable from the
    image roots as a sequence of 32-bit integers, and its restoration.

    The restored heap is allocated by [malloc]: a field that the image does
    not supply holds whatever was there, which is an argument of the model. *)

From S2P Require Import Prelude Sys Heap Alloc Gc Objects.

(** ** The table of primitives *)

Record registered := Registered { r_dispatcher : dispatcher; r_proc : string; r_arity_mask : Z }.

Definition ZUO_MAX_PRIMITIVE_COUNT : nat := 128.

Definition zuo_register_primitive (table : list registered) (r : registered) : M (list registered) :=
  if decide (length table = ZUO_MAX_PRIMITIVE_COUNT) then zuo_panic "primitive table is too small"
  else ret (table ++ [r]).

Fixpoint find_proc (proc : string) (i : Z) (table : list registered) : option Z :=
  match table with
  | [] => None
  | r :: table' => if decide (proc = r_proc r) then Some i else find_proc proc (i + 1) table'
  end.

Definition zuo_primitive_to_id (table : list registered) (proc : string) : M Z :=
  match find_proc proc 0 table with
  | Some i => ret i
  | None => zuo_panic "could not find primitive"
  end.

Definition zuo_id_to_primitive (table : list registered) (i : Z) : M registered :=
  match (if decide (0 ≤ i) then table !! Z.to_nat i else None) with
  | Some r => ret r
  | None => ub "primitive index out of bounds"
  end.

(** ** 32-bit integers *)

Definition tag_int (t : zuo_tag_t) : Z :=
  match t with
  | zuo_singleton_tag => 0 | zuo_pair_tag => 1 | zuo_integer_tag => 2 | zuo_string_tag => 3
  | zuo_symbol_tag => 4 | zuo_trie_node_tag => 5 | zuo_variable_tag => 6 | zuo_primitive_tag => 7
  | zuo_closure_tag => 8 | zuo_handle_tag => 9 | zuo_opaque_tag => 10 | zuo_cont_tag => 11
  | zuo_forwarded_tag => 12
  end.

Definition all_tags : list zuo_tag_t :=
  [zuo_singleton_tag; zuo_pair_tag; zuo_integer_tag; zuo_string_tag; zuo_symbol_tag;
   zuo_trie_node_tag; zuo_variable_tag; zuo_primitive_tag; zuo_closure_tag; zuo_handle_tag;
   zuo_opaque_tag; zuo_cont_tag; zuo_forwarded_tag].
Definition int_tag (i : Z) : option zuo_tag_t :=
  if decide (0 ≤ i) then all_tags !! Z.to_nat i else None.

(** [*(zuo_int32_t * )"\0zuo"] on a little-endian machine *)
Definition zuo_magic : Z := 0x6F757A00.

Definition fasl_lo (i : Z) : Z := to_s32 (Z.land i 0xFFFFFFFF).
Definition fasl_hi (i : Z) : Z := to_s32 (Z.shiftr i 32).
Definition BUILD_INT (lo hi : Z) : Z :=
  to_s64 (Z.lor (to_u64 (Z.shiftl (to_u64 hi) 32)) (Z.land (to_u64 lo) 0xFFFFFFFF)).

Definition SWAP_ENDIAN (n : Z) : Z :=
  to_s32 (Z.lor (Z.lor (Z.lor (Z.shiftl (Z.land n 0xFF) 24) (Z.shiftl (Z.land n 0xFF00) 8))
                       (Z.shiftr (Z.land n 0xFF0000) 8))
                (Z.land (Z.shiftr n 24) 0xFF)).

(** ** Dump *)

(** [fo_index] is the shadow heap: the index of each object met so far;
    [fo_map] the offset in the image of each object written. *)
Record zuo_fasl_stream_out_t := FaslOut {
  fo_index : gmap Z Z;
  fo_objs : list loc;
  fo_map : list Z;
  fo_image : list Z
}.

Definition fasl_out_int32 (i : Z) (stream : zuo_fasl_stream_out_t) : zuo_fasl_stream_out_t :=
  FaslOut (fo_index stream) (fo_objs stream) (fo_map stream) (fo_image stream ++ [i]).

Definition fasl_out_ref (l : loc) (stream : zuo_fasl_stream_out_t) : zuo_fasl_stream_out_t :=
  match fo_index stream !! l with
  | Some i => fasl_out_int32 i stream
  | None =>
      let i := Z.of_nat (length (fo_objs stream)) in
      FaslOut (<[l := i]> (fo_index stream)) (fo_objs stream ++ [l]) (fo_map stream)
        (fo_image stream ++ [i])
  end.

Definition fasl_out_int (i : Z) (stream : zuo_fasl_stream_out_t) : zuo_fasl_stream_out_t :=
  fasl_out_int32 (fasl_hi i) (fasl_out_int32 (fasl_lo i) stream).

Definition fasl_out_refs (ls : list loc) (stream : zuo_fasl_stream_out_t) : zuo_fasl_stream_out_t :=
  foldl (λ st l, fasl_out_ref l st) stream ls.

(** the bits for the sub-tries that are not [z.o_undefined] *)
Fixpoint trie_mask (u : loc) (i : Z) (next : list loc) : Z :=
  match next with
  | [] => 0
  | n :: next' =>
      let rest := trie_mask u (i + 1) next' in
      if decide (n = u) then rest else Z.lor (Z.shiftl 1 i) rest
  end.

(** [zuo_fasl(obj, stream)] in the mode [zuo_fasl_out] *)
Definition zuo_fasl_out (table : list registered) (o : obj) (stream : zuo_fasl_stream_out_t) :
    M zuo_fasl_stream_out_t :=
  let stream := fasl_out_int32 (tag_int (obj_tag o)) stream in
  match o with
  | Osingleton => ret stream
  | Ointeger i => ret (fasl_out_int i stream)
  | Ostring s =>
      ret (foldl (λ st c, fasl_out_int32 c st) (fasl_out_int (Z.of_nat (length s)) stream) s)
  | Opair a d => ret (fasl_out_refs [a; d] stream)
  | Osymbol id str => ret (fasl_out_ref str (fasl_out_int32 id stream))
  | Otrie_node _ k v next =>
      u <- zi o_undefined ;;
      ret (fasl_out_refs ([k; v] ++ filter (λ n, n ≠ u) next)
             (fasl_out_int32 (trie_mask u 0 next) stream))
  | Ovariable name val => ret (fasl_out_refs [name; val] stream)
  | Oprimitive _ proc _ name =>
      id <- zuo_primitive_to_id table proc ;;
      ret (fasl_out_ref name (fasl_out_int32 id stream))
  | Oclosure lambda env => ret (fasl_out_refs [lambda; env] stream)
  | Oopaque tag val => ret (fasl_out_refs [tag; val] stream)
  | Ocont _ data env in_proc next => ret (fasl_out_refs [data; env; in_proc; next] stream)
  | Ohandle _ _ _ => zuo_panic "cannot dump heap with handles"
  | Oforwarded _ => ub "forwarded object in a dump"
  end.

(** [for (map_done = 0; map_done < stream.map_offset; map_done++)] *)
Fixpoint fasl_dump_loop (fuel : nat) (table : list registered) (map_done : nat)
    (stream : zuo_fasl_stream_out_t) : M zuo_fasl_stream_out_t :=
  match fo_objs stream !! map_done with
  | None => ret stream
  | Some l =>
      match fuel with
      | O => λ _, Diverge
      | S fuel' =>
          o <- get l ;;
          let stream := FaslOut (fo_index stream) (fo_objs stream)
                          (fo_map stream ++ [Z.of_nat (length (fo_image stream))]) (fo_image stream) in
          stream <- zuo_fasl_out table o stream ;;
          fasl_dump_loop fuel' table (S map_done) stream
      end
  end.

(** [zuo_fasl_roots] in the mode [zuo_fasl_out] *)
Definition zuo_fasl_roots_out (z : image) (stream : zuo_fasl_stream_out_t) : zuo_fasl_stream_out_t :=
  fasl_out_refs (image_list z) stream.

(** a dump as bytes, on a little-endian machine *)
Definition dump_bytes (dump : list Z) : list Z :=
  flat_map (λ w, [Z.land w 255; Z.land (Z.shiftr w 8) 255; Z.land (Z.shiftr w 16) 255; Z.land (Z.shiftr w 24) 255]) dump.

(** The dump as 32-bit integers: the header, the map and the image. *)
Definition zuo_fasl_dump (table : list registered) : M (list Z) :=
  zuo_collect ;;;
  s <- get_st ;;
  let stream := zuo_fasl_roots_out (s_img s) (FaslOut ∅ [] [] []) in
  stream <- fasl_dump_loop (heap_fuel s) table 0 stream ;;
  ret ([zuo_magic; Z.of_nat (length (fo_objs stream)); Z.of_nat (length (fo_image stream));
        zuo_symbol_count s] ++ fo_map stream ++ fo_image stream).

(** ** Restore *)

(** [fi_map] has the offset in the heap of each object. *)
Record zuo_fasl_stream_in_t := FaslIn {
  fi_heap : loc;
  fi_map : list Z;
  fi_image : list Z;
  fi_offset : Z
}.

(** bytes as 32-bit integers, on a little-endian machine; a rest of less than
    four bytes is not looked at *)
Fixpoint dump_words (b : list Z) : list Z :=
  match b with
  | b0 :: b1 :: b2 :: b3 :: b' =>
      to_s32 (Z.lor (Z.shiftl b3 24) (Z.lor (Z.shiftl b2 16) (Z.lor (Z.shiftl b1 8) b0))) :: dump_words b'
  | _ => []
  end.

(** a read of the dump *)
Definition dump_at (d : list Z) (i : Z) : M Z :=
  match (if decide (0 ≤ i) then d !! Z.to_nat i else None) with
  | Some v => ret v
  | None => ub "read outside of the dump"
  end.

Definition fasl_in_int32 (stream : zuo_fasl_stream_in_t) : M (Z * zuo_fasl_stream_in_t) :=
  v <- dump_at (fi_image stream) (fi_offset stream) ;;
  ret (v, FaslIn (fi_heap stream) (fi_map stream) (fi_image stream) (fi_offset stream + 1)).

Definition fasl_in_ref (stream : zuo_fasl_stream_in_t) : M (loc * zuo_fasl_stream_in_t) :=
  r <- fasl_in_int32 stream ;;
  delta <- dump_at (fi_map stream) (fst r) ;;
  ret (fi_heap stream + delta, snd r).

Definition fasl_in_int (stream : zuo_fasl_stream_in_t) : M (Z * zuo_fasl_stream_in_t) :=
  lo <- fasl_in_int32 stream ;;
  hi <- fasl_in_int32 (snd lo) ;;
  ret (BUILD_INT (fst lo) (fst hi), snd hi).

Fixpoint fasl_in_refs (n : nat) (stream : zuo_fasl_stream_in_t) : M (list loc * zuo_fasl_stream_in_t) :=
  match n with
  | O => ret ([], stream)
  | S n' =>
      r <- fasl_in_ref stream ;;
      rs <- fasl_in_refs n' (snd r) ;;
      ret (fst r :: fst rs, snd rs)
  end.

Fixpoint fasl_in_chars (n : nat) (stream : zuo_fasl_stream_in_t) : M (list Z * zuo_fasl_stream_in_t) :=
  match n with
  | O => ret ([], stream)
  | S n' =>
      c <- fasl_in_int32 stream ;;
      cs <- fasl_in_chars n' (snd c) ;;
      ret (to_u8 (fst c) :: fst cs, snd cs)
  end.

(** the sub-tries from index [i] on *)
Fixpoint fasl_in_next (u mask : Z) (i : Z) (n : nat) (stream : zuo_fasl_stream_in_t) :
    M (list loc * zuo_fasl_stream_in_t) :=
  match n with
  | O => ret ([], stream)
  | S n' =>
      r <- (if Z.testbit mask i then fasl_in_ref stream else ret (u, stream)) ;;
      rs <- fasl_in_next u mask (i + 1) n' (snd r) ;;
      ret (fst r :: fst rs, snd rs)
  end.

(** What uninitialised memory holds where the image has no value: the count of
    a trie node and the tag of a continuation. *)
Record garbage := Garbage { g_count : loc → Z; g_cont_tag : loc → zuo_cont_tag_t }.

(** [zuo_fasl(obj, stream)] in the mode [zuo_fasl_in], for the object at [l] *)
Definition zuo_fasl_in (table : list registered) (g : garbage) (l : loc) (stream : zuo_fasl_stream_in_t) :
    M (obj * zuo_fasl_stream_in_t) :=
  t <- fasl_in_int32 stream ;;
  let stream := snd t in
  match int_tag (fst t) with
  | Some zuo_singleton_tag => ret (Osingleton, stream)
  | Some zuo_integer_tag => r <- fasl_in_int stream ;; ret (Ointeger (fst r), snd r)
  | Some zuo_string_tag =>
      len <- fasl_in_int stream ;;
      r <- fasl_in_chars (Z.to_nat (fst len)) (snd len) ;;
      ret (Ostring (fst r), snd r)
  | Some zuo_pair_tag =>
      a <- fasl_in_ref stream ;;
      d <- fasl_in_ref (snd a) ;;
      ret (Opair (fst a) (fst d), snd d)
  | Some zuo_symbol_tag =>
      id <- fasl_in_int32 stream ;;
      str <- fasl_in_ref (snd id) ;;
      ret (Osymbol (fst id) (fst str), snd str)
  | Some zuo_trie_node_tag =>
      mask <- fasl_in_int32 stream ;;
      k <- fasl_in_ref (snd mask) ;;
      v <- fasl_in_ref (snd k) ;;
      u <- zi o_undefined ;;
      next <- fasl_in_next u (fst mask) 0 (Z.to_nat ZUO_TRIE_BFACTOR) (snd v) ;;
      ret (Otrie_node (g_count g l) (fst k) (fst v) (fst next), snd next)
  | Some zuo_variable_tag =>
      name <- fasl_in_ref stream ;;
      val <- fasl_in_ref (snd name) ;;
      ret (Ovariable (fst name) (fst val), snd val)
  | Some zuo_primitive_tag =>
      id <- fasl_in_int32 stream ;;
      r <- zuo_id_to_primitive table (fst id) ;;
      name <- fasl_in_ref (snd id) ;;
      ret (Oprimitive (r_dispatcher r) (r_proc r) (r_arity_mask r) (fst name), snd name)
  | Some zuo_closure_tag =>
      lambda <- fasl_in_ref stream ;;
      env <- fasl_in_ref (snd lambda) ;;
      ret (Oclosure (fst lambda) (fst env), snd env)
  | Some zuo_opaque_tag =>
      tag <- fasl_in_ref stream ;;
      val <- fasl_in_ref (snd tag) ;;
      ret (Oopaque (fst tag) (fst val), snd val)
  | Some zuo_cont_tag =>
      data <- fasl_in_ref stream ;;
      env <- fasl_in_ref (snd data) ;;
      in_proc <- fasl_in_ref (snd env) ;;
      next <- fasl_in_ref (snd in_proc) ;;
      ret (Ocont (g_cont_tag g l) (fst data) (fst env) (fst in_proc) (fst next), snd next)
  | Some zuo_handle_tag => zuo_panic "cannot dump heap with handles"
  | Some zuo_forwarded_tag | None => ub "unknown tag in the dump"
  end.

(** the offsets in the heap of the objects and the size of the heap, a 32-bit
    integer *)
Fixpoint fasl_layout (image : list Z) (map : list Z) (size : Z) : M (list Z * Z) :=
  match map with
  | [] => ret ([], size)
  | delta :: map' =>
      tag <- dump_at image delta ;;
      match int_tag tag with
      | None => ub "unknown tag in the dump"
      | Some t =>
          sz <- (if decide (t = zuo_string_tag) then
                   lo <- dump_at image (delta + 1) ;;
                   hi <- dump_at image (delta + 2) ;;
                   ret (object_size t (BUILD_INT lo hi))
                 else ret (object_size t 0)) ;;
          r <- fasl_layout image map' (to_s32 (size + ALLOC_ALIGN sz)) ;;
          ret (size :: fst r, snd r)
      end
  end.

(** [for (i = 0; i < map_len; i++)]: the objects, in the order of the map *)
Fixpoint fasl_restore_loop (table : list registered) (g : garbage) (map : list Z)
    (stream : zuo_fasl_stream_in_t) : M (gmap Z obj) :=
  match map with
  | [] => ret ∅
  | delta :: map' =>
      let l := fi_heap stream + delta in
      r <- zuo_fasl_in table g l stream ;;
      h <- fasl_restore_loop table g map' (snd r) ;;
      ret (<[l := fst r]> h)
  end.

(** [zuo_fasl_roots] in the mode [zuo_fasl_in] *)
Definition zuo_fasl_roots_in (stream : zuo_fasl_stream_in_t) : M zuo_fasl_stream_in_t :=
  r <- fasl_in_refs 24 stream ;;
  match image_of_list (fst r) with
  | Some z => mod_st (set_s_img z) ;;; ret (snd r)
  | None => ub "number of image roots"
  end.

(** the dump in the machine's byte order *)
Definition fasl_byte_order (dump : list Z) : M (list Z) :=
  magic <- dump_at dump 0 ;;
  if magic =? zuo_magic then ret dump
  else if magic =? SWAP_ENDIAN zuo_magic then ret (SWAP_ENDIAN <$> dump)
  else zuo_panic "image does not start with zuo magic".

Definition alloc_factor : Z := 2.

(** The dump is given as bytes.  The old heap is dropped by [zuo_replace_heap]. *)
Definition zuo_fasl_restore (table : list registered) (g : garbage) (dump_in : list Z) : M unit :=
  dump <- fasl_byte_order (dump_words dump_in) ;;
  map_len <- dump_at dump 1 ;;
  let map := take (Z.to_nat map_len) (drop 4 dump) in
  let image := drop (4 + Z.to_nat map_len) dump in
  layout <- fasl_layout image map 0 ;;
  let '(offsets, heap_size) := layout in
  (if decide (in_s32 (heap_size * alloc_factor)) then ret tt else ub "overflow of the heap size") ;;;
  heap <- malloc (heap_size * alloc_factor) ;;
  stream <- zuo_fasl_roots_in (FaslIn heap offsets image 0) ;;
  objs <- fasl_restore_loop table g offsets stream ;;
  mod_mem (λ m, set_heap (objs ∪ Heap.heap m) m) ;;;
  symbol_count <- dump_at dump 3 ;;
  mod_st (set_zuo_symbol_count symbol_count) ;;;
  mod_st (set_zuo_handle_count 0) ;;;
  zuo_replace_heap heap (heap_size * alloc_factor) heap_size.
