(* ===== verification/Init.v ===== *)
(** * Primitives and initialization

    The dispatchers of the primitive table, the table itself, and the
    construction of the initial state.  The primitives that act on the
    operating system (file descriptors, the file system, processes, signals,
    image files) are arguments of the table. *)

From S2P Require Import Prelude Sys Heap Alloc Gc Objects Trie Intern Sort Printer Reader Prims Interp Path Module Shell Sha256 Fasl.

(** ** Dispatchers *)

(** a C function of zero to three arguments *)
Inductive prim_fun : Type :=
  | PF0 (f : M loc)
  | PF1 (f : loc → M loc)
  | PF2 (f : loc → loc → M loc)
  | PF3 (f : loc → loc → loc → M loc).

(** an optional argument: [z.o_undefined] when the list has ended *)
Definition optional_arg (args : loc) : M loc :=
  b <- is_zi o_null args ;; if b then zi o_undefined else ZUO_CAR args.

Definition dispatch0 (f : M loc) (args : loc) : M loc := f.
Definition dispatch1 (f : loc → M loc) (args : loc) : M loc := a <- ZUO_CAR args ;; f a.
Definition dispatch2 (f : loc → loc → M loc) (args : loc) : M loc :=
  a <- ZUO_CAR args ;;
  d <- ZUO_CDR args ;;
  b <- ZUO_CAR d ;;
  f a b.
Definition dispatch3 (f : loc → loc → loc → M loc) (args : loc) : M loc :=
  a <- ZUO_CAR args ;;
  d <- ZUO_CDR args ;;
  b <- ZUO_CAR d ;;
  dd <- ZUO_CDR d ;;
  c <- ZUO_CAR dd ;;
  f a b c.
Definition dispatcha (f : loc → M loc) (args : loc) : M loc := a <- optional_arg args ;; f a.
Definition dispatchb (f : loc → loc → M loc) (args : loc) : M loc :=
  a <- ZUO_CAR args ;;
  d <- ZUO_CDR args ;;
  b <- optional_arg d ;;
  f a b.
Definition dispatchc (f : loc → loc → loc → M loc) (args : loc) : M loc :=
  a <- ZUO_CAR args ;;
  d <- ZUO_CDR args ;;
  b <- ZUO_CAR d ;;
  dd <- ZUO_CDR d ;;
  c <- optional_arg dd ;;
  f a b c.
Definition dispatchC (f : loc → loc → loc → M loc) (args : loc) : M loc :=
  a <- ZUO_CAR args ;;
  u <- zi o_undefined ;;
  args <- ZUO_CDR args ;;
  b <- is_zi o_null args ;;
  if b then f a u u
  else
    b <- ZUO_CAR args ;;
    args <- ZUO_CDR args ;;
    c <- optional_arg args ;;
    f a b c.
Definition dispatchN (f : loc → M loc) (args : loc) : M loc := f args.

(** [dispatcher(proc, args)]; a function called with the wrong number of
    arguments is undefined behaviour. *)
Definition dispatch (d : dispatcher) (f : prim_fun) (args : loc) : M loc :=
  match d, f with
  | dispatch_primitive0, PF0 f => dispatch0 f args
  | dispatch_primitive1, PF1 f => dispatch1 f args
  | dispatch_primitive2, PF2 f => dispatch2 f args
  | dispatch_primitive3, PF3 f => dispatch3 f args
  | dispatch_primitivea, PF1 f => dispatcha f args
  | dispatch_primitiveb, PF2 f => dispatchb f args
  | dispatch_primitivec, PF3 f => dispatchc f args
  | dispatch_primitiveC, PF3 f => dispatchC f args
  | dispatch_primitiveN, PF1 f => dispatchN f args
  | _, _ => ub "call through a function pointer of another type"
  end.

(** ** The table *)

Record prim := Prim {
  p_name : string;
  p_proc : string;
  p_dispatcher : dispatcher;
  p_mask : Z;
  p_fun : prim_fun
}.

(** What the operating system's side provides: the functions of zuo.c on file
    descriptors, files, processes, signals and images, by their names, and the
    contents of a file. *)
Record os_ops := OsOps {
  os0 : string → M loc;
  os1 : string → loc → M loc;
  os2 : string → loc → loc → M loc;
  os3 : string → loc → loc → loc → M loc;
  os_read_file : loc → M loc
}.

Definition zuo_handle_p : loc → M loc := tag_p zuo_handle_tag.

Section table.
Variables (os : os_ops) (fuel : nat).

(** the primitives of the top-level environment, in the order of
    [zuo_primitive_init] *)
Definition public_prims : list prim := [
  Prim "pair?" "zuo_pair_p" dispatch_primitive1 (2) (PF1 zuo_pair_p);
  Prim "null?" "zuo_null_p" dispatch_primitive1 (2) (PF1 zuo_null_p);
  Prim "integer?" "zuo_integer_p" dispatch_primitive1 (2) (PF1 zuo_integer_p);
  Prim "string?" "zuo_string_p" dispatch_primitive1 (2) (PF1 zuo_string_p);
  Prim "symbol?" "zuo_symbol_p" dispatch_primitive1 (2) (PF1 zuo_symbol_p);
  Prim "hash?" "zuo_hash_p" dispatch_primitive1 (2) (PF1 zuo_hash_p);
  Prim "list?" "zuo_list_p" dispatch_primitive1 (2) (PF1 zuo_list_p);
  Prim "procedure?" "zuo_procedure_p" dispatch_primitive1 (2) (PF1 zuo_procedure_p);
  Prim "path-string?" "zuo_path_string_p" dispatch_primitive1 (2) (PF1 zuo_path_string_p);
  Prim "variable?" "zuo_variable_p" dispatch_primitive1 (2) (PF1 zuo_variable_p);
  Prim "handle?" "zuo_handle_p" dispatch_primitive1 (2) (PF1 zuo_handle_p);
  Prim "void" "zuo_make_void" dispatch_primitiveN (-1) (PF1 zuo_make_void);
  Prim "cons" "zuo_cons" dispatch_primitive2 (4) (PF2 zuo_cons);
  Prim "car" "zuo_car" dispatch_primitive1 (2) (PF1 zuo_car);
  Prim "cdr" "zuo_cdr" dispatch_primitive1 (2) (PF1 zuo_cdr);
  Prim "list-ref" "zuo_list_ref" dispatch_primitive2 (4) (PF2 zuo_list_ref);
  Prim "list-set" "zuo_list_set" dispatch_primitive3 (8) (PF3 zuo_list_set);
  Prim "list" "zuo_list" dispatch_primitiveN (-1) (PF1 zuo_list);
  Prim "append" "zuo_append" dispatch_primitiveN (-1) (PF1 zuo_append);
  Prim "reverse" "zuo_reverse" dispatch_primitive1 (2) (PF1 zuo_reverse);
  Prim "length" "zuo_length" dispatch_primitive1 (2) (PF1 zuo_length);
  Prim "not" "zuo_not" dispatch_primitive1 (2) (PF1 zuo_not);
  Prim "eq?" "zuo_eq" dispatch_primitive2 (4) (PF2 zuo_eq);
  Prim "+" "zuo_add" dispatch_primitiveN (-1) (PF1 zuo_add);
  Prim "-" "zuo_subtract" dispatch_primitiveN (-2) (PF1 zuo_subtract);
  Prim "*" "zuo_multiply" dispatch_primitiveN (-1) (PF1 zuo_multiply);
  Prim "quotient" "zuo_quotient" dispatch_primitive2 (4) (PF2 zuo_quotient);
  Prim "remainder" "zuo_remainder" dispatch_primitive2 (4) (PF2 zuo_remainder);
  Prim "<" "zuo_lt" dispatch_primitive2 (4) (PF2 zuo_lt);
  Prim "<=" "zuo_le" dispatch_primitive2 (4) (PF2 zuo_le);
  Prim "=" "zuo_eql" dispatch_primitive2 (4) (PF2 zuo_eql);
  Prim ">=" "zuo_ge" dispatch_primitive2 (4) (PF2 zuo_ge);
  Prim ">" "zuo_gt" dispatch_primitive2 (4) (PF2 zuo_gt);
  Prim "bitwise-and" "zuo_bitwise_and" dispatch_primitive2 (4) (PF2 zuo_bitwise_and);
  Prim "bitwise-ior" "zuo_bitwise_ior" dispatch_primitive2 (4) (PF2 zuo_bitwise_ior);
  Prim "bitwise-xor" "zuo_bitwise_xor" dispatch_primitive2 (4) (PF2 zuo_bitwise_xor);
  Prim "bitwise-not" "zuo_bitwise_not" dispatch_primitive1 (2) (PF1 zuo_bitwise_not);
  Prim "string" "zuo_build_string" dispatch_primitiveN (-1) (PF1 zuo_build_string);
  Prim "string-length" "zuo_string_length" dispatch_primitive1 (2) (PF1 zuo_string_length);
  Prim "string-ref" "zuo_string_ref" dispatch_primitive2 (4) (PF2 zuo_string_ref);
  Prim "string-u32-ref" "zuo_string_u32_ref" dispatch_primitive2 (4) (PF2 zuo_string_u32_ref);
  Prim "substring" "zuo_substring" dispatch_primitivec (12) (PF3 zuo_substring);
  Prim "string=?" "zuo_string_eql" dispatch_primitive2 (4) (PF2 zuo_string_eql);
  Prim "string-ci=?" "zuo_string_ci_eql" dispatch_primitive2 (4) (PF2 zuo_string_ci_eql);
  Prim "string-split" "zuo_string_split" dispatch_primitiveb (6) (PF2 zuo_string_split);
  Prim "string->symbol" "zuo_string_to_symbol" dispatch_primitive1 (2) (PF1 zuo_string_to_symbol);
  Prim "string->uninterned-symbol" "zuo_string_to_uninterned_symbol" dispatch_primitive1 (2) (PF1 zuo_string_to_uninterned_symbol);
  Prim "symbol->string" "zuo_symbol_to_string" dispatch_primitive1 (2) (PF1 zuo_symbol_to_string);
  Prim "string-read" "zuo_string_read" dispatch_primitiveC (14) (PF3 zuo_string_read);
  Prim "hash" "zuo_hash" dispatch_primitiveN (-1) (PF1 zuo_hash);
  Prim "hash-ref" "zuo_hash_ref" dispatch_primitivec (12) (PF3 zuo_hash_ref);
  Prim "hash-set" "zuo_hash_set" dispatch_primitive3 (8) (PF3 zuo_hash_set);
  Prim "hash-remove" "zuo_hash_remove" dispatch_primitive2 (4) (PF2 zuo_hash_remove);
  Prim "hash-keys" "zuo_hash_keys" dispatch_primitive1 (2) (PF1 zuo_hash_keys);
  Prim "hash-count" "zuo_hash_count" dispatch_primitive1 (2) (PF1 zuo_hash_count);
  Prim "hash-keys-subset?" "zuo_hash_keys_subset_p" dispatch_primitive2 (4) (PF2 zuo_hash_keys_subset_p);
  Prim "opaque" "zuo_opaque" dispatch_primitive2 (4) (PF2 zuo_opaque);
  Prim "opaque-ref" "zuo_opaque_ref" dispatch_primitive3 (8) (PF3 zuo_opaque_ref);
  Prim "build-path" "zuo_build_path" dispatch_primitiveN (-2) (PF1 zuo_build_path);
  Prim "build-raw-path" "zuo_build_raw_path" dispatch_primitiveN (-2) (PF1 zuo_build_raw_path);
  Prim "split-path" "zuo_split_path" dispatch_primitive1 (2) (PF1 zuo_split_path);
  Prim "relative-path?" "zuo_relative_path_p" dispatch_primitive1 (2) (PF1 zuo_relative_path_p);
  Prim "build-module-path" "zuo_build_module_path" dispatch_primitive2 (4) (PF2 (zuo_build_module_path fuel));
  Prim "variable" "zuo_make_variable" dispatch_primitive1 (2) (PF1 zuo_make_variable);
  Prim "variable-ref" "zuo_variable_ref" dispatch_primitive1 (2) (PF1 zuo_variable_ref);
  Prim "variable-set!" "zuo_variable_set" dispatch_primitive2 (4) (PF2 zuo_variable_set);
  Prim "continuation-prompt-available?" "zuo_prompt_avail_p" dispatch_primitive1 (2) (PF1 zuo_prompt_avail_p);
  Prim "fd-open-input" "zuo_fd_open_input" dispatch_primitiveb (6) (PF2 (os2 os "zuo_fd_open_input"));
  Prim "fd-open-output" "zuo_fd_open_output" dispatch_primitiveb (6) (PF2 (os2 os "zuo_fd_open_output"));
  Prim "fd-close" "zuo_fd_close" dispatch_primitive1 (2) (PF1 (os1 os "zuo_fd_close"));
  Prim "fd-read" "zuo_fd_read" dispatch_primitive2 (4) (PF2 (os2 os "zuo_fd_read"));
  Prim "fd-write" "zuo_fd_write" dispatch_primitive2 (4) (PF2 (os2 os "zuo_fd_write"));
  Prim "fd-poll" "zuo_fd_poll" dispatch_primitiveb (6) (PF2 (os2 os "zuo_fd_poll"));
  Prim "fd-terminal?" "zuo_fd_terminal_p" dispatch_primitiveb (6) (PF2 (os2 os "zuo_fd_terminal_p"));
  Prim "fd-valid?" "zuo_fd_valid_p" dispatch_primitive1 (2) (PF1 (os1 os "zuo_fd_valid_p"));
  Prim "stat" "zuo_stat" dispatch_primitiveC (14) (PF3 (os3 os "zuo_stat"));
  Prim "rm" "zuo_rm" dispatch_primitive1 (2) (PF1 (os1 os "zuo_rm"));
  Prim "mv" "zuo_mv" dispatch_primitive2 (4) (PF2 (os2 os "zuo_mv"));
  Prim "mkdir" "zuo_mkdir" dispatch_primitive1 (2) (PF1 (os1 os "zuo_mkdir"));
  Prim "rmdir" "zuo_rmdir" dispatch_primitive1 (2) (PF1 (os1 os "zuo_rmdir"));
  Prim "ls" "zuo_ls" dispatch_primitive1 (2) (PF1 (os1 os "zuo_ls"));
  Prim "symlink" "zuo_ln" dispatch_primitive2 (4) (PF2 (os2 os "zuo_ln"));
  Prim "readlink" "zuo_readlink" dispatch_primitive1 (2) (PF1 (os1 os "zuo_readlink"));
  Prim "cp" "zuo_cp" dispatch_primitivec (12) (PF3 (os3 os "zuo_cp"));
  Prim "current-time" "zuo_current_time" dispatch_primitive0 (1) (PF0 (os0 os "zuo_current_time"));
  Prim "process" "zuo_process" dispatch_primitiveN (-2) (PF1 (os1 os "zuo_process"));
  Prim "process-status" "zuo_process_status" dispatch_primitive1 (2) (PF1 (os1 os "zuo_process_status"));
  Prim "process-wait" "zuo_process_wait" dispatch_primitiveN (-2) (PF1 (os1 os "zuo_process_wait"));
  Prim "suspend-signal" "zuo_suspend_signal" dispatch_primitive0 (1) (PF0 (os0 os "zuo_suspend_signal"));
  Prim "resume-signal" "zuo_resume_signal" dispatch_primitive0 (1) (PF0 (os0 os "zuo_resume_signal"));
  Prim "string->shell" "zuo_string_to_shell" dispatch_primitive1 (2) (PF1 zuo_string_to_shell);
  Prim "shell->strings" "zuo_shell_to_strings" dispatch_primitiveb (6) (PF2 zuo_shell_to_strings);
  Prim "string-sha256" "zuo_string_sha256" dispatch_primitive1 (2) (PF1 zuo_string_sha256);
  Prim "cleanable-file" "zuo_cleanable_file" dispatch_primitive1 (2) (PF1 (os1 os "zuo_cleanable_file"));
  Prim "cleanable-cancel" "zuo_cleanable_cancel" dispatch_primitive1 (2) (PF1 (os1 os "zuo_cleanable_cancel"));
  Prim "error" "zuo_error" dispatch_primitiveN (-1) (PF1 zuo_error);
  Prim "alert" "zuo_alert" dispatch_primitiveN (-1) (PF1 (os1 os "zuo_alert"));
  Prim "~v" "zuo_tilde_v" dispatch_primitiveN (-1) (PF1 (zuo_tilde_v fuel));
  Prim "~a" "zuo_tilde_a" dispatch_primitiveN (-1) (PF1 (zuo_tilde_a fuel));
  Prim "~s" "zuo_tilde_s" dispatch_primitiveN (-1) (PF1 (zuo_tilde_s fuel));
  Prim "arg-error" "zuo_arg_error" dispatch_primitive3 (8) (PF3 zuo_arg_error);
  Prim "arity-error" "zuo_arity_error" dispatch_primitive2 (4) (PF2 (zuo_arity_error fuel));
  Prim "exit" "zuo_exit" dispatch_primitivea (3) (PF1 zuo_exit);
  Prim "module-path?" "zuo_module_path_p" dispatch_primitive1 (2) (PF1 zuo_module_path_p);
  Prim "kernel-env" "zuo_kernel_env" dispatch_primitive0 (1) (PF0 zuo_kernel_env);
  Prim "runtime-env" "zuo_runtime_env" dispatch_primitive0 (1) (PF0 zuo_runtime_env);
  Prim "dump-image-and-exit" "zuo_dump_image_and_exit" dispatch_primitive1 (2) (PF1 (os1 os "zuo_dump_image_and_exit"))].

Definition private_prims : list prim := [
  Prim "" "zuo_kernel_read_string" dispatch_primitive1 2 (PF1 (zuo_kernel_read_string fuel));
  Prim "" "zuo_module_to_hash_star" dispatch_primitive1 2
    (PF1 (zuo_module_to_hash_star (os_read_file os) fuel));
  Prim "" "zuo_get_read_and_eval" dispatch_primitive2 4 (PF2 zuo_get_read_and_eval);
  Prim "" "zuo_register_module" dispatch_primitive2 4 (PF2 zuo_register_module)].

Definition all_prims : list prim := public_prims ++ private_prims.

(** [f->dispatcher(f->proc, args)] *)
Definition call_primitive (d : dispatcher) (proc : string) (args : loc) : M loc :=
  match list_find (λ p, p_proc p = proc) all_prims with
  | Some (_, p) => dispatch d (p_fun p) args
  | None => ub "unknown primitive"
  end.
End table.

(** ** Initialization *)

(** [zuo_primitive(dispatcher, proc, arity_mask, name)]: registers, and makes
    the object; the primitive table is threaded through. *)
Definition zuo_primitive (table : list registered) (p : prim) (name : loc) :
    M (list registered * loc) :=
  table <- zuo_register_primitive table (Registered (p_dispatcher p) (p_proc p) (p_mask p)) ;;
  u <- is_zi o_undefined name ;;
  if u then l <- zi o_undefined ;; ret (table, l)
  else
    l <- zuo_new (Oprimitive (p_dispatcher p) (p_proc p) (p_mask p) name) sizeof_primitive ;;
    ret (table, l).

(** [TRIE_SET_TOP_ENV(name, make_prim)] of the primitives; with an image to
    load, they are registered only. *)
Fixpoint top_env_prims (will_load_image : bool) (table : list registered) (ps : list prim) : M (list registered) :=
  match ps with
  | [] => ret table
  | p :: ps' =>
      if will_load_image then
        sym <- zi o_undefined ;;
        r <- zuo_primitive table p sym ;;
        top_env_prims will_load_image (fst r) ps'
      else
      sym <- zuo_symbol (bytes_of (p_name p)) ;;
      r <- zuo_primitive table p sym ;;
      env <- zi o_top_env ;;
      zuo_trie_set env sym (snd r) ;;;
      top_env_prims will_load_image (fst r) ps'
  end.

Definition new_singleton : M loc := zuo_new Osingleton sizeof_forwarded.

Definition zuo_sync_in_case_of_fail : M unit :=
  k <- zi o_done_k ;;
  set_zr set_o_interp_k k ;;;
  null <- zi o_null ;;
  set_zr set_o_interp_meta_k null ;;;
  u <- zi o_undefined ;;
  set_zr set_o_cleanable_table u.

(** a private primitive, with [z.o_void] for its name *)
Definition private_prim (p : prim) (table : list registered) (set : loc → image → image) :
    M (list registered) :=
  v <- zi o_void ;;
  r <- zuo_primitive table p v ;;
  set_zi set (snd r) ;;;
  ret (fst r).

Section init.
Variables (os : os_ops) (fuel : nat).

(** [zuo_primitive_init(will_load_image)], after the calls that it starts with
    (see [Main]) *)
Definition zuo_primitive_init (will_load_image : bool) : M (list registered) :=
  l <- new_singleton ;; set_zi set_o_undefined l ;;;
  l <- new_singleton ;; set_zi set_o_null l ;;;
  l <- new_singleton ;; set_zi set_o_void l ;;;
  u <- zi o_undefined ;;
  k <- zuo_cont zuo_done_cont u u u u ;; set_zi set_o_done_k k ;;;
  t <- zuo_trie_node ;; set_zi set_o_intern_table t ;;;
  t <- zuo_trie_node ;; set_zi set_o_top_env t ;;;
  zuo_sync_in_case_of_fail ;;;
  table <- top_env_prims will_load_image [] (public_prims os fuel) ;;
  match private_prims os fuel with
  | [p1; p2; p3; p4] =>
      table <- private_prim p1 table set_o_kernel_read_string ;;
      table <- private_prim p2 table set_o_module_to_hash_star ;;
      table <- private_prim p3 table set_o_get_read_and_eval ;;
      private_prim p4 table set_o_register_module
  | _ => ub "number of private primitives"
  end.
End init.

(** [ZUO_TOP_ENV_SET_VALUE(name, val)] *)
Definition top_env_set (name : string) (val : loc) : M unit :=
  env <- zi o_top_env ;;
  sym <- zuo_symbol (bytes_of name) ;;
  zuo_trie_set env sym val.

(** [z.field = zuo_symbol(name)] and [z.field = singleton] *)
Definition init_symbol (set : loc → image → image) (name : string) : M unit :=
  l <- zuo_symbol (bytes_of name) ;; set_zi set l.
Definition init_singleton (set : loc → image → image) : M unit :=
  l <- new_singleton ;; set_zi set l.

(** [zuo_image_init(NULL)] *)
Definition zuo_image_init : M unit :=
  init_singleton set_o_true ;;;
  init_singleton set_o_false ;;;
  init_singleton set_o_eof ;;;
  t <- zuo_trie_node ;; set_zi set_o_empty_hash t ;;;
  init_singleton set_o_apply ;;;
  init_singleton set_o_call_cc ;;;
  init_singleton set_o_call_prompt ;;;
  init_singleton set_o_kernel_eval ;;;
  init_symbol set_o_quote_symbol "quote" ;;;
  init_symbol set_o_lambda_symbol "lambda" ;;;
  init_symbol set_o_let_symbol "let" ;;;
  init_symbol set_o_begin_symbol "begin" ;;;
  init_symbol set_o_if_symbol "if" ;;;
  null <- zi o_null ;; set_zi set_o_modules null ;;;
  v <- zi o_apply ;; top_env_set "apply" v ;;;
  v <- zi o_call_cc ;; top_env_set "call/cc" v ;;;
  v <- zi o_call_prompt ;; top_env_set "call/prompt" v ;;;
  v <- zi o_kernel_eval ;; top_env_set "kernel-eval" v ;;;
  v <- zi o_eof ;; top_env_set "eof" v ;;;
  v <- zuo_declare_kernel_module ;; top_env_set "module->hash" v.

Definition zuo_runtime_init (cwd : list Z) (environ : list (list Z)) (lib_path runtime_env : loc) : M unit :=
  f <- zi o_false ;;
  set_zr set_o_interp_e f ;;;
  set_zr set_o_interp_env f ;;;
  set_zr set_o_interp_v f ;;;
  set_zr set_o_interp_in_proc f ;;;
  k <- zi o_done_k ;; set_zr set_o_interp_k k ;;;
  null <- zi o_null ;; set_zr set_o_interp_meta_k null ;;;
  set_zr set_o_pending_modules null ;;;
  set_zr set_o_stash f ;;;
  empty <- zi o_empty_hash ;;
  set_zr set_o_pid_table empty ;;;
  set_zr set_o_fd_table empty ;;;
  set_zr set_o_cleanable_table empty ;;;
  set_zr set_o_library_path lib_path ;;;
  env <- zuo_finish_runtime_env cwd environ runtime_env ;;
  set_zr set_o_runtime_env env.

(** The state before [main]: no memory in use, all roots null. *)
Definition initial_st : st :=
  St mem_init (Image 0 0 0 0 0 0 0 0 0 0 0 0 0 0 0 0 0 0 0 0 0 0 0 0)
    (Runtime 0 0 0 0 0 0 0 0 0 0 0 0 0) 0 0 sys_init.

(** The steps of [main] that build the runtime, for a process without a
    library path. *)
Definition boot (os : os_ops) (fuel : nat) (cwd : list Z) (environ argv : list (list Z)) : M (list registered) :=
  table <- zuo_primitive_init os fuel false ;;
  zuo_image_init ;;;
  exe <- zuo_string (bytes_of "zuo") ;;
  env <- zuo_make_runtime_env exe (bytes_of "main.zuo") argv ;;
  lib <- zi o_false ;;
  zuo_runtime_init cwd environ lib env ;;;
  ret table.
