(* ===== verification/Boot.v ===== *)
(** * A concrete initial state

    Boolean versions of the heap invariants, and the state that the modelled
    initialization builds, at which the hypotheses of theorems about running
    programs are evaluated. *)

From S2P Require Import Prelude Sys Heap Alloc Gc GcCorrect Objects Trie Lists ImageOk Intern Sort Printer Reader Prims Interp Path Module Shell Sha256 Fasl Init.

(** ** Deciding the invariants *)

Definition disjointb (a b : old_space_t) : bool :=
  (space a + size_of_space a <=? space b) || (space b + size_of_space b <=? space a).

Fixpoint all_disjointb (l : list old_space_t) : bool :=
  match l with
  | [] => true
  | x :: l' => forallb (disjointb x) l' && all_disjointb l'
  end.

Definition spaces_okb (b : Z) (l : list old_space_t) : bool :=
  forallb (λ sp, (0 <? space sp) && (0 <=? size_of_space sp) && (space sp + size_of_space sp <=? b)) l
  && all_disjointb l.

Definition addr_okb (m : mem) (a : Z) : bool :=
  (0 <? a) && (a <? brk m)
  && negb ((to_space m + allocation_offset m <=? a) && (a <? to_space m + heap_size m))
  && forallb (λ sp, negb (in_space sp a)) (free_spaces m)
  && existsb (λ sp, in_space sp a) (current_space m ++ old_spaces m).

Definition mem_okb (m : mem) : bool :=
  (0 <? brk m) && (0 <=? heap_size m) && (0 <=? allocation_offset m)
  && (allocation_offset m <=? heap_size m) && spaces_okb (brk m) (all_spaces m)
  && negb (to_space m =? 0)
  && forallb (λ e, addr_okb m (fst e)) (map_to_list (heap m))
  && (foldr (λ e n, space_of (snd e) + n) 0 (map_to_list (heap m)) <=? total_allocation m).

Definition heap_closedb (h : gmap Z obj) (roots : list loc) : bool :=
  let ok p := match h !! p with Some _ => true | None => false end in
  forallb ok roots
  && forallb (λ e, forallb ok (ptrs (snd e))
                   && match snd e with Oforwarded _ => false | _ => true end) (map_to_list h).

Lemma forallb_Forall {A} (f : A → bool) (P : A → Prop) l :
  (∀ x, f x = true → P x) → forallb f l = true → Forall P l.
Proof.
  intros Hf. induction l as [|x l IH]; cbn; [constructor|].
  intros [? ?]%andb_true_iff. constructor; auto.
Qed.

Ltac split_andb :=
  repeat match goal with
  | H : (_ && _)%bool = true |- _ => apply andb_true_iff in H as [H ?]
  end.

Lemma spaces_okb_sound b l : spaces_okb b l = true → spaces_ok b l.
Proof.
  unfold spaces_okb. intros H. split_andb. split.
  - eapply forallb_Forall; [|exact H]. intros sp Hsp. cbn in Hsp. split_andb. lia.
  - clear H. induction l as [|x l IH]; [done|]. cbn in *. split_andb. split; [|auto].
    eapply forallb_Forall; [|eassumption]. intros y Hy. unfold disjointb in Hy.
    unfold disjoint_spaces. apply orb_true_iff in Hy. lia.
Qed.

Lemma addr_okb_sound m a : addr_okb m a = true →
  0 < a < brk m ∧ ¬ (to_space m + allocation_offset m ≤ a < to_space m + heap_size m)
  ∧ Forall (λ sp, in_space sp a = false) (free_spaces m)
  ∧ Exists (λ sp, in_space sp a = true) (current_space m ++ old_spaces m).
Proof.
  unfold addr_okb. intros H. split_andb. split; [lia|]. split.
  { intros [? ?]. rewrite negb_true_iff in *. lia. }
  split.
  - eapply forallb_Forall; [|eassumption]. cbn. intros sp. by destruct (in_space sp a).
  - apply List.existsb_exists in H0 as (sp & Hin & Hsp). apply Exists_exists. exists sp.
    split; [by apply list_elem_of_In|done].
Qed.

Lemma mem_okb_sound m : mem_okb m = true → mem_ok m.
Proof.
  unfold mem_okb. intros H. split_andb. split; try lia.
  - by apply spaces_okb_sound.
  - intros a [o Ho]. apply addr_okb_sound.
    assert (Hin : (a, o) ∈ map_to_list (heap m)) by (by apply elem_of_map_to_list).
    rewrite List.forallb_forall in *. apply list_elem_of_In in Hin. by apply (H1 (a, o)).
  - unfold heap_bytes. rewrite map_fold_foldr.
    assert (E : ∀ l : list (Z * obj), foldr (λ e n, space_of (snd e) + n) 0 l
      = foldr (uncurry (λ _ o n, space_of o + n)) 0 l).
    { induction l as [|[? ?] l IH]; [done|]. cbn. by rewrite IH. }
    rewrite <- E. lia.
Qed.

Lemma heap_closedb_sound h roots : heap_closedb h roots = true → heap_closed h roots.
Proof.
  unfold heap_closedb. intros H. split_andb.
  assert (Hl : ∀ a o, h !! a = Some o →
    forallb (λ p, match h !! p with Some _ => true | None => false end) (ptrs o)
    && match o with Oforwarded _ => false | _ => true end = true).
  { intros a o Ho. rewrite List.forallb_forall in H0.
    apply (H0 (a, o)). apply list_elem_of_In. by apply elem_of_map_to_list. }
  assert (Hsome : ∀ p, match h !! p with Some _ => true | None => false end = true → is_Some (h !! p))
    by (intros p; destruct (h !! p); [eauto|done]).
  split.
  - eapply forallb_Forall; [exact Hsome|done].
  - intros a o Ho. specialize (Hl a o Ho). split_andb. eapply forallb_Forall; [exact Hsome|done].
  - intros a f Ha. specialize (Hl _ _ Ha). by apply andb_true_iff in Hl as [_ ?].
Qed.

(** ** The booted state *)

(** No primitive of the operating system is called by the examples. *)
Definition no_os : os_ops :=
  OsOps (λ _, ub "os") (λ _ _, ub "os") (λ _ _ _, ub "os") (λ _ _ _ _, ub "os") (λ _, ub "os").

Definition booted : st :=
  match boot no_os 100 (bytes_of "/") [] [] initial_st with
  | Ok _ s => s
  | _ => initial_st
  end.

Lemma booted_ok : mem_ok (s_mem booted).
Proof. apply mem_okb_sound. vm_compute. reflexivity. Qed.

Lemma booted_closed : heap_closed (s_heap booted) (roots_of booted).
Proof. apply heap_closedb_sound. vm_compute. reflexivity. Qed.

Lemma booted_image : image_ok booted.
Proof. apply image_okb_sound; [exact booted_ok|]. vm_compute. reflexivity. Qed.
