(* ===== verification/Files.v ===== *)
(** * Files and streams

    The file-descriptor operations of zuo.c, for Unix: opening, reading,
    writing, closing and polling, the table of descriptors that a child process
    must not inherit, and the dump of an image to a descriptor.  The operating
    system is the parameter [os]; a call that a signal interrupts is made
    again, [fuel] times at most.  The log of opened files is taken to be off
    ([zuo_file_logging] is null). *)

From S2P Require Import Prelude Sys Heap Alloc Gc Objects Trie Lists Intern Sort Prims Path Init Fasl.

Section files.
Variable os : list syscall → sysret.
Variable fuel : nat.

(** ** System calls *)

Definition sys_call (c : syscall) : M sysret := λ s,
  let calls := sys_calls (s_sys s) ++ [c] in
  Ok (os calls) (set_s_sys (set_sys_calls calls (s_sys s)) s).

(** [EINTR_RETRY(e)] *)
Fixpoint eintr_retry (n : nat) (c : syscall) : M sysret :=
  match n with
  | O => λ _, Diverge
  | S n' =>
      r <- sys_call c ;;
      match r with
      | Serrno e => if e =? EINTR then eintr_retry n' c else ret r
      | Sret _ _ => ret r
      end
  end.

Definition retry : syscall → M sysret := eintr_retry fuel.

(** ** Handles *)

Definition is_handle_with (p : zuo_handle_status_t → bool) (l : loc) : M bool :=
  o <- get l ;; ret match o with Ohandle _ status _ => p status | _ => false end.

(** [((zuo_handle_t * )obj)->id] *)
Definition handle_id (l : loc) : M Z :=
  o <- get l ;; match o with Ohandle id _ _ => ret id | _ => ub "id of a non-handle" end.

Definition ZUO_HANDLE_RAW (l : loc) : M Z :=
  o <- get l ;; match o with Ohandle _ _ raw => ret raw | _ => ub "handle field of a non-handle" end.

Definition set_handle (l : loc) (status : zuo_handle_status_t) (raw : Z) : M unit :=
  o <- get l ;;
  match o with Ohandle id _ _ => put l (Ohandle id status raw) | _ => ub "handle field of a non-handle" end.

(** [is_pipe] marks the ends of pipes to processes. *)
Definition zuo_fd_handle (handle : Z) (status : zuo_handle_status_t) (is_pipe : bool) : M loc :=
  h <- zuo_handle handle status ;;
  v <- zbool is_pipe ;;
  table <- zr o_fd_table ;;
  r <- trie_extend trie_fuel table handle h v 0 ;;
  set_zr set_o_fd_table (fst r) ;;;
  ret h.

(** ** Reading *)

(** What the memory of a new string holds is not read before it is written. *)
Definition zuo_uninitialized_string (len : Z) : M loc :=
  zuo_sized_string (replicate (Z.to_nat len) 0).

(** Storing the bytes [b] at [ZUO_STRING_PTR(s) + offset]. *)
Definition store_bytes (s : loc) (offset : Z) (b : list Z) : M unit :=
  buf <- ZUO_STRING_PTR s ;;
  let i := Z.to_nat offset in
  if Nat.leb (i + length b) (length buf)
  then put s (Ostring (take i buf ++ b ++ drop (i + length b) buf))
  else ub "store past the end of a string".

Definition set_nonblock (fd : Z) : M Z :=
  r <- retry (Sgetfl fd) ;;
  match r with
  | Serrno _ => zuo_fail (bytes_of "failed to access flags of file descriptor")
  | Sret old_fl _ =>
      r <- retry (Ssetfl fd (Z.lor old_fl O_NONBLOCK)) ;;
      match r with
      | Serrno _ => zuo_fail (bytes_of "failed to set file descriptor as nonblocking")
      | Sret _ _ => ret old_fl
      end
  end.

Definition restore_fl (fd old_fl : Z) : M unit :=
  r <- retry (Ssetfl fd old_fl) ;;
  match r with
  | Serrno _ => zuo_fail (bytes_of "failed to restore flags of file descriptor")
  | Sret _ _ => ret tt
  end.

(** [while ((amount < 0) || (offset < amount))]: the string, what is read of
    it and the new [amount] *)
Fixpoint drain_loop (n : nat) (fd : Z) (nonblock : bool) (amount : Z) (s : loc) (sz offset : Z) : M (loc * Z * Z) :=
  match n with
  | O => λ _, Diverge
  | S n' =>
      if (amount <? 0) || (offset <? amount) then
        let amt := if 4096 <? sz - offset then 4096 else sz - offset in
        old_fl <- (if nonblock then set_nonblock fd else ret 0) ;;
        r <- retry (Sread fd amt) ;;
        ga <- match r with
              | Sret got out => store_bytes s offset out ;;; ret (got, amount)
              | Serrno e =>
                  if e =? EAGAIN then ret (0, if offset =? 0 then 0 else amount)
                  else ret (-1, amount)
              end ;;
        let '(got, amount) := ga in
        (if nonblock then restore_fl fd old_fl else ret tt) ;;;
        if got <? 0 then zuo_fail (bytes_of "error reading stream")
        else if got =? 0 then ret (s, offset, amount)
        else
          let offset := offset + got in
          if offset =? sz then
            let new_sz := if (0 <=? amount) && (amount <? sz * 2) then amount else sz * 2 in
            new_s <- zuo_uninitialized_string new_sz ;;
            b <- ZUO_STRING_PTR s ;;
            store_bytes new_s 0 (take (Z.to_nat sz) b) ;;;
            drain_loop n' fd nonblock amount new_s new_sz offset
          else drain_loop n' fd nonblock amount s sz offset
      else ret (s, offset, amount)
  end.

(** -1 reads until the end of the file, and -2 what is there. *)
Definition zuo_drain (fd amount : Z) : M loc :=
  let sz := if (0 <=? amount) && (amount <? 256) then amount else 256 in
  s <- zuo_uninitialized_string sz ;;
  r <- drain_loop fuel fd (amount =? -2) amount s sz 0 ;;
  let '(s, offset, amount) := r in
  b <- ZUO_STRING_PTR s ;;
  put s (Ostring (take (Z.to_nat offset) b)) ;;;
  if (offset =? 0) && ((0 <? amount) || (amount =? -2)) then zi o_eof else ret s.

(** ** Writing *)

(** [while (done < len)] *)
Fixpoint fill_loop (n : nat) (s : list Z) (fd done : Z) : M unit :=
  match n with
  | O => λ _, Diverge
  | S n' =>
      let len := Z.of_nat (length s) in
      if done <? len then
        let amt := if 4096 <? len - done then 4096 else len - done in
        r <- retry (Swrite fd (take (Z.to_nat amt) (drop (Z.to_nat done) s))) ;;
        match r with
        | Serrno _ => zuo_fail (bytes_of "error writing to stream")
        | Sret did _ =>
            if did <? 0 then zuo_fail (bytes_of "error writing to stream")
            else fill_loop n' s fd (done + did)
        end
      else ret tt
  end.

Definition zuo_fill (s : list Z) (fd : Z) : M unit := fill_loop fuel s fd 0.

(** ** Closing *)

Definition zuo_close_handle (handle : Z) : M unit := retry (Sclose handle) ;;; ret tt.

Definition zuo_close (handle : Z) : M unit :=
  zuo_close_handle handle ;;;
  table <- zr o_fd_table ;;
  table <- trie_remove trie_fuel table handle 0 ;;
  set_zr set_o_fd_table table.

(** ** Opening *)

(** [options] is optional. *)
Definition given_options (options : loc) : M loc :=
  b <- is_zi o_undefined options ;; if b then zi o_empty_hash else ret options.

(** A nonnegative integer, or -1. *)
Definition fd_number (l : loc) : M Z :=
  b <- has_tag zuo_integer_tag l ;; if b then ZUO_INT_I l else ret (-1).

(** [zuo_fail1w_errno] *)
Definition zuo_fail1w_errno {A} (who str : list Z) (o : loc) (errno : Z) : M A := fail (Efail1w_errno who str o errno).

Definition zuo_fd_open_input_handle (path options : loc) : M Z :=
  let who := bytes_of "fd-open-input" in
  options <- given_options options ;;
  b <- zuo_is_path_string path ;;
  if b then
    check_hash who options ;;;
    check_options_consumed who options ;;;
    p <- ZUO_STRING_PTR path ;;
    r <- retry (Sopen p [O_RDONLY] None) ;;
    match r with
    | Serrno e => zuo_fail1w_errno who (bytes_of "file open failed") path e
    | Sret fd _ => ret fd
    end
  else
    stdin <- zuo_symbol (bytes_of "stdin") ;;
    if decide (path = stdin) then
      check_hash who options ;;;
      check_options_consumed who options ;;;
      ret 0
    else
      i <- fd_number path ;;
      if i <? 0 then zuo_fail_arg who (bytes_of "path string, 'stdin, or nonnegative integer") path
      else
        check_hash who options ;;;
        check_options_consumed who options ;;;
        ret (to_s32 i).

Definition zuo_fd_open_input (path options : loc) : M loc :=
  fd <- zuo_fd_open_input_handle path options ;;
  zuo_handle fd zuo_handle_open_fd_in_status.

(** The modes that the values of the option [exists] stand for. *)
Definition exists_modes : list (string * list open_flag) :=
  [ ("error", [O_CREAT; O_EXCL]); ("truncate", [O_CREAT; O_TRUNC]); ("must-truncate", [O_TRUNC]);
    ("append", [O_CREAT; O_APPEND]); ("update", []); ("can-update", [O_CREAT]) ].

Fixpoint exists_mode (who : list Z) (modes : list (string * list open_flag)) (exists_ : loc) : M (list open_flag) :=
  match modes with
  | [] => zuo_fail1w who (bytes_of "invalid exists mode") exists_
  | (name, mode) :: modes' =>
      sym <- zuo_symbol (bytes_of name) ;;
      if decide (exists_ = sym) then ret mode else exists_mode who modes' exists_
  end.

Definition zuo_fd_open_output (path options : loc) : M loc :=
  let who := bytes_of "fd-open-output" in
  options <- given_options options ;;
  b <- zuo_is_path_string path ;;
  if b then
    check_hash who options ;;;
    eo <- zuo_consume_option options "exists" ;;
    let '(exists_, options) := eo in
    check_options_consumed who options ;;;
    b <- is_zi o_undefined exists_ ;;
    mode <- (if b then ret [O_CREAT; O_EXCL] else exists_mode who exists_modes exists_) ;;
    p <- ZUO_STRING_PTR path ;;
    r <- retry (Sopen p (O_WRONLY :: mode) (Some 438)) ;;
    match r with
    | Serrno e => zuo_fail1w_errno who (bytes_of "file open failed") path e
    | Sret fd _ => zuo_fd_handle fd zuo_handle_open_fd_out_status false
    end
  else
    let opened fd :=
      check_hash who options ;;;
      check_options_consumed who options ;;;
      zuo_handle fd zuo_handle_open_fd_out_status in
    stdout <- zuo_symbol (bytes_of "stdout") ;;
    if decide (path = stdout) then opened 1
    else
      stderr <- zuo_symbol (bytes_of "stderr") ;;
      if decide (path = stderr) then opened 2
      else
        i <- fd_number path ;;
        if i <? 0 then zuo_fail_arg who (bytes_of "path string, 'stdout, 'stderr, or nonnegative integer") path
        else opened (to_s32 i).

(** ** The primitives on open descriptors *)

Definition is_in (s : zuo_handle_status_t) : bool :=
  match s with zuo_handle_open_fd_in_status => true | _ => false end.
Definition is_out (s : zuo_handle_status_t) : bool :=
  match s with zuo_handle_open_fd_out_status => true | _ => false end.

Definition zuo_is_input_output_fd (fd_h : loc) : M bool := is_handle_with (λ s, is_out s || is_in s) fd_h.

Definition zuo_check_input_output_fd (who : list Z) (fd_h : loc) : M unit :=
  b <- zuo_is_input_output_fd fd_h ;;
  if b then ret tt else zuo_fail_arg who (bytes_of "open input or output file descriptor") fd_h.

Definition zuo_fd_close (fd_h : loc) : M loc :=
  zuo_check_input_output_fd (bytes_of "fd-close") fd_h ;;;
  fd <- ZUO_HANDLE_RAW fd_h ;;
  zuo_close fd ;;;
  set_handle fd_h zuo_handle_closed_status fd ;;;
  zi o_void.

Definition zuo_fd_write (fd_h str : loc) : M loc :=
  let who := bytes_of "fd-write" in
  b <- is_handle_with is_out fd_h ;;
  if negb b then zuo_fail_arg who (bytes_of "open output file descriptor") fd_h else
  check_string who str ;;;
  s <- ZUO_STRING_PTR str ;;
  fd <- ZUO_HANDLE_RAW fd_h ;;
  zuo_fill s fd ;;;
  zi o_void.

Definition read_amount (who : list Z) (amount : loc) : M Z :=
  b <- is_zi o_eof amount ;;
  if b then ret (-1)
  else
    b <- has_tag zuo_symbol_tag amount ;;
    avail <- (if b then sym <- zuo_symbol (bytes_of "avail") ;; ret (bool_decide (amount = sym)) else ret false) ;;
    if avail : bool then ret (-2)
    else
      i <- fd_number amount ;;
      if i <? 0 then zuo_fail_arg who (bytes_of "nonnegative integer, eof, or 'avail") amount else ret i.

Definition zuo_fd_read (fd_h amount : loc) : M loc :=
  let who := bytes_of "fd-read" in
  b <- is_handle_with is_in fd_h ;;
  if negb b then zuo_fail_arg who (bytes_of "open input file descriptor") fd_h else
  amt <- read_amount who amount ;;
  fd <- ZUO_HANDLE_RAW fd_h ;;
  zuo_drain fd amt.

(** ** Polling *)

(** the check of the arguments: the descriptors, with whether they are polled
    for writing *)
Fixpoint poll_fds (n : nat) (who : list Z) (fds_i l : loc) : M (list (Z * bool)) :=
  match n with
  | O => λ _, Diverge
  | S n' =>
      b <- is_zi o_null l ;;
      if b then ret []
      else
        p <- has_tag zuo_pair_tag l ;;
        ok <- (if p then a <- ZUO_CAR l ;; zuo_is_input_output_fd a else ret false) ;;
        if negb ok then
          zuo_fail_arg who (bytes_of "list of open input and output file descriptor handles") fds_i
        else
          a <- ZUO_CAR l ;;
          fd <- ZUO_HANDLE_RAW a ;;
          out <- is_handle_with is_out a ;;
          d <- ZUO_CDR l ;;
          fds <- poll_fds n' who fds_i d ;;
          ret ((fd, out) :: fds)
  end.

Definition poll_timeout (who : list Z) (timeout_i : loc) : M Z :=
  b1 <- is_zi o_undefined timeout_i ;;
  b2 <- is_zi o_false timeout_i ;;
  if b1 || b2 then ret (-1)
  else
    i <- fd_number timeout_i ;;
    if i <? 0 then zuo_fail_arg who (bytes_of "nonnegative integer or #f") timeout_i else ret i.

(** The first index with an event, or -1. *)
Fixpoint first_ready (revents : list Z) (i : Z) : Z :=
  match revents with
  | [] => -1
  | r :: rs => if r =? 0 then first_ready rs (i + 1) else i
  end.

(** [for (l = fds_i; which > 0; l = _zuo_cdr(l)) which--;] *)
Fixpoint list_skip (n : nat) (l : loc) : M loc :=
  match n with O => ret l | S n' => d <- ZUO_CDR l ;; list_skip n' d end.

Definition zuo_fd_poll (fds_i timeout_i : loc) : M loc :=
  let who := bytes_of "fd-poll" in
  s <- get_st ;;
  fds <- poll_fds (heap_fuel s) who fds_i fds_i ;;
  timeout <- poll_timeout who timeout_i ;;
  r <- retry (Spoll fds (to_s32 timeout)) ;;
  which <- match r with
           | Serrno e => zuo_fail1w_errno who (bytes_of "poll failed") fds_i e
           | Sret ready revents =>
               if 0 <? ready then ret (first_ready (take (length fds) revents) 0)
               else if ready =? 0 then ret (Z.of_nat (length fds))
               else zuo_fail1w_errno who (bytes_of "poll failed") fds_i 0
           end ;;
  l <- list_skip (Z.to_nat which) fds_i ;;
  b <- is_zi o_null l ;;
  if b then zi o_false else ZUO_CAR l.

(** ** Terminals and validity *)

(** [zuo_ansi_ok] *)
Variable zuo_ansi_ok : bool.

Definition zuo_is_terminal (fd : Z) : M bool :=
  r <- sys_call (Sisatty fd) ;; ret match r with Sret i _ => negb (i =? 0) | Serrno _ => false end.

Definition zuo_fd_terminal_p (fd_h ansi : loc) : M loc :=
  zuo_check_input_output_fd (bytes_of "fd-ansi-terminal?") fd_h ;;;
  b1 <- is_zi o_undefined ansi ;;
  b2 <- is_zi o_false ansi ;;
  if negb b1 && negb b2 && negb zuo_ansi_ok then zi o_false
  else fd <- ZUO_HANDLE_RAW fd_h ;; b <- zuo_is_terminal fd ;; zbool b.

Definition zuo_fd_valid_p (fd_h : loc) : M loc :=
  zuo_check_input_output_fd (bytes_of "fd-valid?") fd_h ;;;
  fd <- ZUO_HANDLE_RAW fd_h ;;
  r <- retry (Sgetfl fd) ;;
  zbool match r with Sret _ _ => true | Serrno _ => false end.

(** ** Dumping an image *)

(** no runtime state is preserved *)
Definition forget_runtime : M unit :=
  u <- zi o_undefined ;;
  done_k <- zi o_done_k ;;
  null <- zi o_null ;;
  mod_st (set_s_rt (set_o_interp_k done_k (set_o_interp_meta_k null (Runtime u u u u u u u u u u u u u)))).

Definition zuo_dump_image_and_exit (table : list registered) (fd_obj : loc) : M loc :=
  b <- is_handle_with is_out fd_obj ;;
  if negb b then zuo_fail_arg (bytes_of "dump-image-and-exit") (bytes_of "open output file descriptor") fd_obj else
  fd <- ZUO_HANDLE_RAW fd_obj ;;
  forget_runtime ;;;
  dump <- zuo_fasl_dump table ;;
  zuo_fill (dump_bytes dump) fd ;;;
  fail (Eexit 0).
End files.
