(* ===== verification/Processes.v ===== *)
(** * Signals, cleanables and processes

    The sections of zuo.c, for Unix, that hold signals back, keep the table of
    what must be cleaned up when the process ends, and start child processes
    and wait for them. *)

From S2P Require Import Prelude Sys Heap Alloc Objects Trie Lists Intern Sort Printer Prims Path Init Files.

Section processes.
Variable os : list syscall → sysret.
Variable fuel : nat.
Abbreviation retry := (retry os fuel).

(** ** Signals *)

Definition INT_MAX : Z := 2 ^ 31 - 1.

Definition signal_suspended : M Z := λ s, Ok (zuo_signal_suspended (s_sys s)) s.
Definition set_signal_suspended (v : Z) : M unit :=
  mod_st (λ s, set_s_sys (set_zuo_signal_suspended v (s_sys s)) s).

Definition zuo_suspend_signal : M loc :=
  n <- signal_suspended ;;
  if n =? INT_MAX then ub "signed overflow" else
  set_signal_suspended (n + 1) ;;;
  (if n =? 0 then sys_call os Sblock ;;; ret tt else ret tt) ;;;
  zi o_void.

Definition zuo_resume_signal : M loc :=
  n <- signal_suspended ;;
  if n =? 0 then zi o_void
  else
    set_signal_suspended (n - 1) ;;;
    (if n - 1 =? 0 then sys_call os Sunblock ;;; ret tt else ret tt) ;;;
    zi o_void.

(** ** Alerts *)

(** on the standard output, [which] = 1; what goes to the error stream is left
    out *)
Definition zuo_print_terminal (which : Z) (str : list Z) : M unit :=
  b <- zuo_is_terminal os which ;;
  if b && (which =? 1) then write_stdout str else ret tt.

Definition zuo_alert_color : M unit :=
  zuo_suspend_signal ;;;
  zuo_print_terminal 1 ([27] ++ bytes_of "[94m").

(** [fflush] writes out what the C library has buffered, which is in the text
    of the standard output from the start. *)
Definition zuo_normal_color (which : Z) : M unit :=
  zuo_print_terminal which ([27] ++ bytes_of "[0m") ;;;
  zuo_resume_signal ;;;
  ret tt.

Definition zuo_alert (objs : loc) : M loc :=
  zuo_alert_color ;;;
  zuo_falert fuel objs ;;;
  write_stdout [10] ;;;
  zuo_normal_color 1 ;;;
  zi o_void.

(** ** Cleanables *)

(** signal must be suspended *)
Definition zuo_register_cleanable (p v : loc) : M unit :=
  id <- handle_id p ;;
  table <- zr o_cleanable_table ;;
  r <- trie_extend trie_fuel table id p v 0 ;;
  set_zr set_o_cleanable_table (fst r).

(** signal must be suspended *)
Definition zuo_unregister_cleanable (p : loc) : M unit :=
  id <- handle_id p ;;
  table <- zr o_cleanable_table ;;
  table <- trie_remove trie_fuel table id 0 ;;
  set_zr set_o_cleanable_table table.

Definition zuo_cleanable_file (path : loc) : M loc :=
  check_path_string (bytes_of "cleanable-file") path ;;;
  p <- zuo_handle 0 zuo_handle_cleanable_status ;;
  zuo_suspend_signal ;;;
  zuo_register_cleanable p path ;;;
  zuo_resume_signal ;;;
  ret p.

Definition is_cleanable (s : zuo_handle_status_t) : bool :=
  match s with zuo_handle_cleanable_status => true | _ => false end.

Definition zuo_cleanable_cancel (p : loc) : M loc :=
  b <- is_handle_with is_cleanable p ;;
  if negb b then zuo_fail_arg (bytes_of "cleanable-cancel") (bytes_of "cleanable handle") p else
  zuo_suspend_signal ;;;
  zuo_unregister_cleanable p ;;;
  zuo_resume_signal ;;;
  zi o_void.

(** [for (l = keys; l != z.o_null; l = _zuo_cdr(l))] *)
Fixpoint for_list (n : nat) (l : loc) (body : loc → M unit) : M unit :=
  match n with
  | O => λ _, Diverge
  | S n' =>
      b <- is_zi o_null l ;;
      if b then ret tt
      else a <- ZUO_CAR l ;; body a ;;; d <- ZUO_CDR l ;; for_list n' d body
  end.

(** close a pipe connected to a process *)
Definition clean_pipe (h : loc) : M unit :=
  fd <- ZUO_HANDLE_RAW h ;;
  table <- zr o_fd_table ;;
  v <- trie_lookup table fd ;;
  b <- is_zi o_true v ;;
  if b then zuo_close os fuel fd else ret tt.

(** wait for a process *)
Definition clean_process (k : loc) : M unit :=
  id <- handle_id k ;;
  table <- zr o_cleanable_table ;;
  v <- trie_lookup table id ;;
  b <- has_tag zuo_handle_tag v ;;
  if b then pid <- ZUO_HANDLE_RAW v ;; retry (Swaitpid pid) ;;; ret tt else ret tt.

(** delete a file *)
Definition clean_file (k : loc) : M unit :=
  id <- handle_id k ;;
  table <- zr o_cleanable_table ;;
  v <- trie_lookup table id ;;
  b <- has_tag zuo_string_tag v ;;
  if b then p <- ZUO_STRING_PTR v ;; sys_call os (Sunlink p) ;;; ret tt else ret tt.

Definition zuo_clean_all (skip_suspend : bool) : M unit :=
  table <- zr o_cleanable_table ;;
  b <- is_zi o_undefined table ;;
  if b then ret tt else
  (if skip_suspend then ret tt else zuo_suspend_signal ;;; ret tt) ;;;
  null <- zi o_null ;;
  keys <- zuo_trie_keys trie_depth table null ;;
  fds <- zr o_fd_table ;;
  open_fds <- zuo_trie_keys trie_depth fds null ;;
  s <- get_st ;;
  for_list (heap_fuel s) open_fds clean_pipe ;;;
  for_list (heap_fuel s) keys clean_process ;;;
  for_list (heap_fuel s) keys clean_file ;;;
  empty <- zi o_empty_hash ;;
  set_zr set_o_cleanable_table empty ;;;
  if skip_suspend then ret tt else zuo_resume_signal ;;; ret tt.

(** The handler of signals, and the last steps of the error functions and of
    [zuo_exit_int]. *)
Definition zuo_signal_received : M unit := zuo_clean_all false ;;; fail (E_exit 1).

(** How a computation ends the process: what it registered is cleaned up first,
    except by [zuo_panic], after [_exit], and when another program has taken
    over. *)
Definition at_exit {A} (c : M A) : M A := λ s,
  match c s with
  | Fail (Eexec _ _ | E_exit _ | Epanic _) _ => c s
  | Fail e s' => (zuo_clean_all false ;;; fail e) s'
  | r => r
  end.

(** ** Arguments of [process] *)

(** the fresh descriptors of a pipe *)
Definition zuo_pipe : M (Z * Z) :=
  r <- retry Spipe ;;
  match r with
  | Sret 0 [a; b] => ret (a, b)
  | _ => zuo_fail (bytes_of "pipe creation failed")
  end.

(** [zuo_string_to_c(obj)] *)
Definition zuo_string_to_c (obj : loc) : M (list Z) :=
  check_string (bytes_of "string->c") obj ;;; ZUO_STRING_PTR obj.

(** [for (l = args; l->tag == zuo_pair_tag; l = _zuo_cdr(l))]: the reversed
    arguments, their number and the options *)
Fixpoint process_args (n : nat) (who : list Z) (l rev_args : loc) (argc : Z) (options : loc) (can_options : bool) :
    M (loc * Z * loc) :=
  match n with
  | O => λ _, Diverge
  | S n' =>
      b <- has_tag zuo_pair_tag l ;;
      if negb b then ret (rev_args, argc, options) else
      a <- ZUO_CAR l ;;
      d <- ZUO_CDR l ;;
      b <- is_zi o_null a ;;
      if b then process_args n' who d rev_args argc options can_options
      else
        p <- has_tag zuo_pair_tag a ;;
        splice <- (if p then t <- zuo_list_p a ;; is_zi o_true t else ret false) ;;
        last <- is_zi o_null d ;;
        if splice then
          null <- zi o_null ;;
          x <- zuo_cons d null ;;
          x <- zuo_cons a x ;;
          x <- zuo_append x ;;
          l <- zuo_cons a x ;;
          d <- ZUO_CDR l ;;
          process_args n' who d rev_args argc options (if last then false else can_options)
        else
          str <- has_tag zuo_string_tag a ;;
          if negb str then
            if can_options && last then
              t <- has_tag zuo_trie_node_tag a ;;
              if t then process_args n' who d rev_args argc a can_options
              else zuo_fail_arg who (bytes_of "string, list, or hash table") a
            else zuo_fail_arg who (bytes_of "string or list") a
          else
            rev_args <- zuo_cons a rev_args ;;
            process_args n' who d rev_args (argc + 1) options can_options
  end.

(** [for (i = argc; i-- > 1; )]: [argv] from index 1 on *)
Fixpoint args_to_c (n : nat) (rev_args : loc) (acc : list (list Z)) : M (list (list Z)) :=
  match n with
  | O => ret acc
  | S n' =>
      a <- ZUO_CAR rev_args ;;
      c <- zuo_string_to_c a ;;
      d <- ZUO_CDR rev_args ;;
      args_to_c n' d (c_str c :: acc)
  end.

(** A standard stream of the child: what the child gets, the end that this
    process keeps, and whether it is a pipe. *)
Definition redirect (who : list Z) (options : loc) (name : string) (std : Z) (status : zuo_handle_status_t → bool)
    (what : list Z) : M (Z * Z * bool * loc) :=
  oo <- zuo_consume_option options name ;;
  let '(opt, options) := oo in
  b <- is_zi o_undefined opt ;;
  if b then ret (std, std, false, options)
  else
    sym <- zuo_symbol (bytes_of "pipe") ;;
    if decide (opt = sym) then
      rw <- zuo_pipe ;;
      let '(r, w) := rw in
      if std =? 0 then ret (r, w, true, options) else ret (w, r, true, options)
    else
      b <- is_handle_with status opt ;;
      if b then fd <- ZUO_HANDLE_RAW opt ;; ret (fd, std, false, options)
      else zuo_fail1w who what opt.

(** a name and a value for the environment, the name without NUL and '=' *)
Definition env_pair_ok (a : loc) : M bool :=
  b <- has_tag zuo_pair_tag a ;;
  if negb b then ret false else
  name <- ZUO_CAR a ;;
  b <- has_tag zuo_string_tag name ;;
  if negb b then ret false else
  s <- ZUO_STRING_PTR name ;;
  if existsb (λ c, (c =? 61) || (c =? 0)) s then ret false else
  val <- ZUO_CDR a ;;
  has_tag zuo_string_tag val.

(** where the check of the environment stops *)
Fixpoint env_check (n : nat) (ol : loc) : M loc :=
  match n with
  | O => λ _, Diverge
  | S n' =>
      b <- has_tag zuo_pair_tag ol ;;
      if negb b then ret ol else
      a <- ZUO_CAR ol ;;
      b <- env_pair_ok a ;;
      if negb b then ret ol else
      d <- ZUO_CDR ol ;;
      env_check n' d
  end.

Definition process_env (who : list Z) (opt : loc) : M (option (list (list Z))) :=
  b <- is_zi o_undefined opt ;;
  if b then ret None
  else
    s <- get_st ;;
    ol <- env_check (heap_fuel s) opt ;;
    b <- is_zi o_null ol ;;
    if negb b then zuo_fail_arg who (bytes_of "valid environment variables list") opt
    else env <- zuo_envvars_block opt ;; ret (Some (map c_str env)).

(** ** The child *)

(** [dup2] onto a standard descriptor, and the other end of a pipe closed *)
Definition child_stream (fd std other : Z) (is_pipe : bool) : M unit :=
  if fd =? std then ret tt
  else retry (Sdup2 fd std) ;;; (if is_pipe then retry (Sclose other) ;;; ret tt else ret tt).

Definition child_close (h : loc) : M unit := fd <- ZUO_HANDLE_RAW h ;; retry (Sclose fd) ;;; ret tt.

(** [execv] and [execve] come back only when they fail. *)
Definition child_exec (argv : list (list Z)) (env : option (list (list Z))) : M unit :=
  let path := hd [] argv in
  r <- sys_call os match env with None => Sexecv path argv | Some e => Sexecve path argv e end ;;
  match r with Sret _ _ => fail (Eexec path argv) | Serrno _ => ret tt end.

Definition zuo_child {A} (ins outs errs : Z * Z * bool) (open_fds dir : loc) (argv : list (list Z))
    (env : option (list (list Z))) : M A :=
  zuo_resume_signal ;;;
  (let '(fd, other, p) := ins in child_stream fd 0 other p) ;;;
  (let '(fd, other, p) := outs in child_stream fd 1 other p) ;;;
  (let '(fd, other, p) := errs in child_stream fd 2 other p) ;;;
  s <- get_st ;;
  for_list (heap_fuel s) open_fds child_close ;;;
  b <- is_zi o_undefined dir ;;
  ok <- (if b then ret true
         else p <- ZUO_STRING_PTR dir ;; r <- sys_call os (Schdir p) ;;
              ret match r with Sret _ _ => true | Serrno _ => false end) ;;
  (if ok : bool then child_exec argv env else ret tt) ;;;
  retry (Swrite 2 (bytes_of (if ok then "exec failed" else "chdir failed") ++ [10])) ;;;
  fail (E_exit 1).

(** ** [process] *)

(** [as_child] is false in the mode [exec?]. *)
Definition zuo_fork (as_child : bool) : M Z :=
  if as_child then r <- sys_call os Sfork ;; ret match r with Sret pid _ => pid | Serrno _ => -1 end
  else zuo_clean_all false ;;; ret 0.

Definition close_child_end (r : Z * Z * bool) : M unit :=
  let '(fd, _, is_pipe) := r in if is_pipe : bool then zuo_close os fuel fd else ret tt.

Definition result_pipe (ht : loc) (name : string) (r : Z * Z * bool) (status : zuo_handle_status_t) : M loc :=
  let '(_, fd, is_pipe) := r in
  if is_pipe : bool then
    sym <- zuo_symbol (bytes_of name) ;;
    h <- zuo_fd_handle fd status true ;;
    zuo_hash_set ht sym h
  else ret ht.

(** the child has started: its handle is entered into the tables *)
Definition zuo_started (pid : Z) (no_wait : bool) : M loc :=
  p <- zuo_handle pid zuo_handle_process_running_status ;;
  table <- zr o_pid_table ;;
  r <- trie_extend trie_fuel table pid p p 0 ;;
  set_zr set_o_pid_table (fst r) ;;;
  (if no_wait then ret tt else zuo_register_cleanable p p) ;;;
  ret p.

(** an option that is false or left out *)
Definition option_off (opt : loc) : M bool :=
  b1 <- is_zi o_false opt ;; b2 <- is_zi o_undefined opt ;; ret (b1 || b2).

Definition process_command (command : loc) : M loc :=
  c <- ZUO_STRING_PTR command ;;
  d <- (if zuo_path_is_absolute c then ret false
        else sp <- zuo_split_path command ;; d <- ZUO_CAR sp ;; is_zi o_false d) ;;
  if d : bool then dot <- zuo_string (bytes_of ".") ;; zuo_build_raw_path2 dot command else ret command.

Definition zuo_process (command_and_args : loc) : M loc :=
  let who := bytes_of "process" in
  command <- ZUO_CAR command_and_args ;;
  args <- ZUO_CDR command_and_args ;;
  check_path_string who command ;;;
  null <- zi o_null ;;
  empty <- zi o_empty_hash ;;
  ra <- process_args fuel who args null 1 empty true ;;
  let '(rev_args, argc, options) := ra in
  command <- process_command command ;;
  argv0 <- zuo_string_to_c command ;;
  argv <- args_to_c (Z.to_nat (argc - 1)) rev_args [] ;;
  let argv := c_str argv0 :: argv in
  ri <- redirect who options "stdin" 0 is_in (bytes_of "not 'pipe or an open input file descriptor") ;;
  let '(ins, options) := ri in
  ro <- redirect who options "stdout" 1 is_out (bytes_of "not 'pipe or an open output file descriptor") ;;
  let '(outs, options) := ro in
  re <- redirect who options "stderr" 2 is_out (bytes_of "not 'pipe or an open output file descriptor") ;;
  let '(errs, options) := re in
  dd <- zuo_consume_option options "dir" ;;
  let '(dir, options) := dd in
  b <- is_zi o_undefined dir ;;
  (if b then ret tt else check_path_string who dir) ;;;
  oo <- zuo_consume_option options "env" ;;
  let '(opt, options) := oo in
  env <- process_env who opt ;;
  oo <- zuo_consume_option options "cleanable?" ;;
  let '(opt, options) := oo in
  no_wait <- is_zi o_false opt ;;
  oo <- zuo_consume_option options "exec?" ;;
  let '(opt, options) := oo in
  as_child <- option_off opt ;;
  oo <- zuo_consume_option options "exact?" ;;
  let '(opt, options) := oo in
  off <- option_off opt ;;
  (if off then ret tt
   else if negb (argc =? 2) then zuo_fail1w who (bytes_of "too many arguments for 'exact? mode") opt
   else zuo_fail1w who (bytes_of "'exact? mode not suported") opt) ;;;
  check_options_consumed who options ;;;
  fds <- zr o_fd_table ;;
  open_fds <- zuo_trie_keys trie_depth fds null ;;
  zuo_suspend_signal ;;;
  pid <- zuo_fork as_child ;;
  if pid =? 0 then zuo_child ins outs errs open_fds dir argv env
  else if pid <? 0 then zuo_resume_signal ;;; zuo_fail (bytes_of "exec failed")
  else
    p_handle <- zuo_started pid no_wait ;;
    zuo_resume_signal ;;;
    close_child_end ins ;;;
    close_child_end outs ;;;
    close_child_end errs ;;;
    sym <- zuo_symbol (bytes_of "process") ;;
    result <- zuo_hash_set empty sym p_handle ;;
    result <- result_pipe result "stdin" ins zuo_handle_open_fd_out_status ;;
    result <- result_pipe result "stdout" outs zuo_handle_open_fd_in_status ;;
    result_pipe result "stderr" errs zuo_handle_open_fd_in_status.

(** ** Waiting *)

Definition is_running (s : zuo_handle_status_t) : bool :=
  match s with zuo_handle_process_running_status => true | _ => false end.
Definition is_done (s : zuo_handle_status_t) : bool :=
  match s with zuo_handle_process_done_status => true | _ => false end.

(** the handle is not a finished process, or it is not a running one *)
Definition is_process_handle (p : loc) : M bool :=
  is_handle_with (λ s, negb (is_done s) || negb (is_running s)) p.

Definition zuo_process_status (p : loc) : M loc :=
  b <- is_process_handle p ;;
  if negb b then zuo_fail_arg (bytes_of "process-status") (bytes_of "process handle") p else
  r <- is_handle_with is_running p ;;
  if r then zuo_symbol (bytes_of "running") else i <- ZUO_HANDLE_RAW p ;; zuo_integer i.

Definition check_process (p : loc) : M unit :=
  b <- is_process_handle p ;;
  if b then ret tt else zuo_fail_arg (bytes_of "process-wait") (bytes_of "process handle") p.

(** the first handle that is marked as done *)
Fixpoint find_done (n : nat) (l : loc) : M (option loc) :=
  match n with
  | O => λ _, Diverge
  | S n' =>
      b <- is_zi o_null l ;;
      if b then ret None
      else
        p <- ZUO_CAR l ;;
        b <- is_handle_with is_done p ;;
        if b then ret (Some p) else d <- ZUO_CDR l ;; find_done n' d
  end.

(** The status that [wait] stores. *)
Definition WTERMSIG (stat_loc : Z) : Z := Z.land stat_loc 127.
Definition WIFEXITED (stat_loc : Z) : bool := WTERMSIG stat_loc =? 0.
Definition WEXITSTATUS (stat_loc : Z) : Z := Z.land (Z.shiftr stat_loc 8) 255.

Definition exit_result (stat_loc : Z) : Z :=
  if WIFEXITED stat_loc then WEXITSTATUS stat_loc
  else let r := WTERMSIG stat_loc in if r =? 0 then 256 else r.

(** a child has ended: its handle is marked *)
Definition wait_mark (pid stat_loc : Z) : M unit :=
  table <- zr o_pid_table ;;
  p <- trie_lookup table pid ;;
  b <- has_tag zuo_handle_tag p ;;
  if b then
    set_handle p zuo_handle_process_done_status (exit_result stat_loc) ;;;
    table <- zr o_pid_table ;;
    table <- trie_remove trie_fuel table pid 0 ;;
    set_zr set_o_pid_table table ;;;
    zuo_suspend_signal ;;;
    zuo_unregister_cleanable p ;;;
    zuo_resume_signal ;;;
    ret tt
  else ret tt.

(** loop until one of the handles is marked as done *)
Fixpoint wait_loop (n : nat) (pids_i : loc) : M loc :=
  match n with
  | O => λ _, Diverge
  | S n' =>
      s <- get_st ;;
      r <- find_done (heap_fuel s) pids_i ;;
      match r with
      | Some p => ret p
      | None =>
          r <- retry Swait ;;
          match r with
          | Sret pid out =>
              if pid <? 0 then zuo_fail (bytes_of "process wait failed")
              else wait_mark pid (hd 0 out) ;;; wait_loop n' pids_i
          | Serrno _ => zuo_fail (bytes_of "process wait failed")
          end
      end
  end.

Definition zuo_process_wait (pids_i : loc) : M loc :=
  s <- get_st ;;
  for_list (heap_fuel s) pids_i check_process ;;;
  wait_loop fuel pids_i.
End processes.
