(* ===== verification/FileSystem.v ===== *)
(** * The file system

    The operations of zuo.c on files and directories, for Unix: [stat], [rm],
    [mv], [mkdir], [rmdir], [ls], [readlink], [symlink], [cp] and
    [current-time], over the operating system [os]. *)

From S2P Require Import Prelude Sys Heap Alloc Objects Trie Lists Intern Sort Prims Path Files.

Section filesystem.
Variable os : list syscall → sysret.
Variable fuel : nat.
Abbreviation retry := (retry os fuel).
Abbreviation sys_call := (sys_call os).

(** Whether nanoseconds are left out of times ([_POSIX_C_SOURCE]). *)
Variable posix_c_source : bool.

(** ** [stat] *)

Definition S_IFMT : Z := 61440.
Definition S_ISDIR (mode : Z) : bool := Z.land mode S_IFMT =? 16384.
Definition S_ISLNK (mode : Z) : bool := Z.land mode S_IFMT =? 40960.

(** The fields of [struct stat], in the order in which [zuo_stat] uses them. *)
Record stat_t := Stat {
  st_mode : Z; st_dev : Z; st_ino : Z; st_nlink : Z; st_uid : Z; st_gid : Z; st_rdev : Z;
  st_size : Z; st_blksize : Z; st_blocks : Z;
  st_atime : Z; st_atime_nsec : Z; st_mtime : Z; st_mtime_nsec : Z; st_ctime : Z; st_ctime_nsec : Z
}.

(** What the system stored. *)
Definition stat_of (out : list Z) : stat_t :=
  let f i := nth i out 0 in
  Stat (f 0%nat) (f 1%nat) (f 2%nat) (f 3%nat) (f 4%nat) (f 5%nat) (f 6%nat) (f 7%nat) (f 8%nat) (f 9%nat)
    (f 10%nat) (f 11%nat) (f 12%nat) (f 13%nat) (f 14%nat) (f 15%nat).

Definition stat_type (st : stat_t) : string :=
  if S_ISDIR (st_mode st) then "dir" else if S_ISLNK (st_mode st) then "link" else "file".

Definition stat_entries (st : stat_t) : list (string * Z) :=
  let nsec n := if posix_c_source then 0 else n in
  [ ("mode", st_mode st); ("device-id", st_dev st); ("inode", st_ino st); ("hardlink-count", st_nlink st);
    ("user-id", st_uid st); ("group-id", st_gid st); ("device-id-for-special-file", st_rdev st);
    ("size", st_size st); ("block-size", st_blksize st); ("block-count", st_blocks st);
    ("access-time-seconds", st_atime st); ("access-time-nanoseconds", nsec (st_atime_nsec st));
    ("modify-time-seconds", st_mtime st); ("modify-time-nanoseconds", nsec (st_mtime_nsec st));
    ("change-time-seconds", st_ctime st); ("change-time-nanoseconds", nsec (st_ctime_nsec st)) ].

(** [result = zuo_hash_set(result, zuo_symbol(name), zuo_integer(n))] for each *)
Fixpoint set_entries (result : loc) (es : list (string * Z)) : M loc :=
  match es with
  | [] => ret result
  | (name, n) :: es' =>
      sym <- zuo_symbol (bytes_of name) ;;
      i <- zuo_integer (to_s64 n) ;;
      result <- zuo_hash_set result sym i ;;
      set_entries result es'
  end.

Definition zuo_stat (path follow_links false_on_error : loc) : M loc :=
  let who := bytes_of "stat" in
  b <- is_zi o_undefined follow_links ;;
  follow_links <- (if b then zi o_true else ret follow_links) ;;
  b <- is_zi o_undefined false_on_error ;;
  false_on_error <- (if b then zi o_false else ret false_on_error) ;;
  check_path_string who path ;;;
  p <- ZUO_STRING_PTR path ;;
  nofollow <- is_zi o_false follow_links ;;
  r <- sys_call (if nofollow then Slstat p else Sstat p) ;;
  match r with
  | Serrno e =>
      b <- is_zi o_false false_on_error ;;
      if negb (e =? ENOENT) && b then zuo_fail1w_errno who (bytes_of "failed") path e else zi o_false
  | Sret _ out =>
      let st := stat_of out in
      result <- zi o_empty_hash ;;
      sym <- zuo_symbol (bytes_of "type") ;;
      ty <- zuo_symbol (bytes_of (stat_type st)) ;;
      result <- zuo_hash_set result sym ty ;;
      set_entries result (stat_entries st)
  end.

(** ** Changing directories *)

(** A call that is made once: nothing, or the error with [o]. *)
Definition once (who : list Z) (c : syscall) (o : M loc) : M loc :=
  r <- sys_call c ;;
  match r with
  | Sret _ _ => zi o_void
  | Serrno e => x <- o ;; zuo_fail1w_errno who (bytes_of "failed") x e
  end.

(** [zuo_cons(a, zuo_cons(b, z.o_null))] *)
Definition both (a b : loc) : M loc := null <- zi o_null ;; l <- zuo_cons b null ;; zuo_cons a l.

Definition zuo_rm (file_path : loc) : M loc :=
  let who := bytes_of "rm" in
  check_path_string who file_path ;;;
  p <- ZUO_STRING_PTR file_path ;;
  once who (Sunlink p) (ret file_path).

Definition zuo_mv (from_path to_path : loc) : M loc :=
  let who := bytes_of "mv" in
  check_path_string who from_path ;;;
  check_path_string who to_path ;;;
  p <- ZUO_STRING_PTR from_path ;;
  q <- ZUO_STRING_PTR to_path ;;
  once who (Srename p q) (both from_path to_path).

Definition zuo_mkdir (dir_path : loc) : M loc :=
  let who := bytes_of "mkdir" in
  check_path_string who dir_path ;;;
  p <- ZUO_STRING_PTR dir_path ;;
  once who (Smkdir p 511) (ret dir_path).

Definition zuo_rmdir (dir_path : loc) : M loc :=
  let who := bytes_of "rmdir" in
  check_path_string who dir_path ;;;
  p <- ZUO_STRING_PTR dir_path ;;
  once who (Srmdir p) (ret dir_path).

Definition zuo_ln (target_path link_path : loc) : M loc :=
  let who := bytes_of "symlink" in
  check_path_string who target_path ;;;
  check_path_string who link_path ;;;
  p <- ZUO_STRING_PTR target_path ;;
  q <- ZUO_STRING_PTR link_path ;;
  once who (Ssymlink p q) (both target_path link_path).

(** ** [ls] and [readlink] *)

Definition dot_or_dots (d_name : list Z) : bool :=
  bool_decide (d_name = [46]) || bool_decide (d_name = [46; 46]).

(** [while ((e = readdir(dir)))]: [last] is absent for NULL *)
Fixpoint ls_loop (n : nat) (dir : Z) (first : loc) (last : option loc) : M loc :=
  match n with
  | O => λ _, Diverge
  | S n' =>
      r <- sys_call (Sreaddir dir) ;;
      match r with
      | Serrno _ => ret first
      | Sret e d_name =>
          if e =? 0 then ret first
          else if dot_or_dots (c_str d_name) then ls_loop n' dir first last
          else
            s <- zuo_string d_name ;;
            null <- zi o_null ;;
            pr <- zuo_cons s null ;;
            match last with
            | None => ls_loop n' dir pr (Some pr)
            | Some l => set_ZUO_CDR l pr ;;; ls_loop n' dir first (Some pr)
            end
      end
  end.

Definition zuo_ls (dir_path : loc) : M loc :=
  let who := bytes_of "ls" in
  check_path_string who dir_path ;;;
  p <- ZUO_STRING_PTR dir_path ;;
  r <- sys_call (Sopendir p) ;;
  match r with
  | Serrno e => zuo_fail1w_errno who (bytes_of "failed") dir_path e
  | Sret dir _ =>
      null <- zi o_null ;;
      first <- ls_loop fuel dir null None ;;
      sys_call (Sclosedir dir) ;;;
      ret first
  end.

Fixpoint readlink_loop (n : nat) (who : list Z) (link_path : loc) (p : list Z) (buf_len : Z) : M loc :=
  match n with
  | O => λ _, Diverge
  | S n' =>
      r <- sys_call (Sreadlink p buf_len) ;;
      match r with
      | Serrno e => zuo_fail1w_errno who (bytes_of "failed") link_path e
      | Sret len out =>
          if len =? buf_len then readlink_loop n' who link_path p (buf_len * 2)
          else zuo_sized_string (take (Z.to_nat len) out)
      end
  end.

Definition zuo_readlink (link_path : loc) : M loc :=
  let who := bytes_of "readlink" in
  check_path_string who link_path ;;;
  p <- ZUO_STRING_PTR link_path ;;
  readlink_loop fuel who link_path p 256.

(** ** [cp] *)

(** [while (amt > 0)]: every write is from the start of the buffer *)
Fixpoint cp_write (n : nat) (who : list Z) (dest_path : loc) (dest_fd : Z) (buf : list Z) (amt : Z) : M unit :=
  match n with
  | O => λ _, Diverge
  | S n' =>
      if 0 <? amt then
        r <- retry (Swrite dest_fd (take (Z.to_nat amt) buf)) ;;
        match r with
        | Serrno e => zuo_fail1w_errno who (bytes_of "destination write failed") dest_path e
        | Sret len _ =>
            if len <? 0 then zuo_fail1w_errno who (bytes_of "destination write failed") dest_path 0
            else cp_write n' who dest_path dest_fd buf (amt - len)
        end
      else ret tt
  end.

Fixpoint cp_loop (n : nat) (who : list Z) (src_path dest_path : loc) (src_fd dest_fd : Z) : M unit :=
  match n with
  | O => λ _, Diverge
  | S n' =>
      r <- retry (Sread src_fd 4096) ;;
      match r with
      | Serrno e => zuo_fail1w_errno who (bytes_of "source read failed") src_path e
      | Sret amt buf =>
          if amt =? 0 then ret tt
          else if amt <? 0 then zuo_fail1w_errno who (bytes_of "source read failed") src_path 0
          else cp_write fuel who dest_path dest_fd buf amt ;;; cp_loop n' who src_path dest_path src_fd dest_fd
      end
  end.

(** The mode given, if there is one. *)
Definition cp_perms (who : list Z) (perms : loc) : M (option Z) :=
  b <- is_zi o_undefined perms ;;
  if b then ret None
  else
    t <- has_tag zuo_integer_tag perms ;;
    i <- (if t then ZUO_INT_I perms else ret (-1)) ;;
    if (i <? 0) || (65535 <? i) then zuo_fail1w who (bytes_of "not an integer in 0 to 65535") perms
    else ret (Some i).

(** The files copied, their names and the mode being known. *)
Definition cp_files (who : list Z) (src_path dest_path : loc) (perms : option Z) (replace_perms : bool) : M unit :=
  src <- ZUO_STRING_PTR src_path ;;
  dest <- ZUO_STRING_PTR dest_path ;;
  r <- retry (Sopen src [O_RDONLY] None) ;;
  match r with
  | Serrno e => zuo_fail1w_errno who (bytes_of "source open failed") src_path e
  | Sret src_fd _ =>
      mode <- match perms with
              | Some m => ret m
              | None =>
                  r <- sys_call (Sfstat src_fd) ;;
                  match r with
                  | Serrno e => zuo_fail1w_errno who (bytes_of "source stat failed") src_path e
                  | Sret _ out => ret (st_mode (stat_of out))
                  end
              end ;;
      r <- retry (Sopen dest [O_WRONLY; O_CREAT; O_TRUNC] (Some mode)) ;;
      match r with
      | Serrno e => zuo_fail1w_errno who (bytes_of "destination open failed") dest_path e
      | Sret dest_fd _ =>
          (if replace_perms then
             r <- sys_call (Sfchmod dest_fd mode) ;;
             match r with
             | Serrno e => zuo_fail1w_errno who (bytes_of "destination permissions update failed") dest_path e
             | Sret _ _ => ret tt
             end
           else ret tt) ;;;
          cp_loop fuel who src_path dest_path src_fd dest_fd ;;;
          retry (Sclose src_fd) ;;;
          retry (Sclose dest_fd) ;;;
          ret tt
      end
  end.

Definition zuo_cp (src_path dest_path options : loc) : M loc :=
  let who := bytes_of "cp" in
  check_path_string who src_path ;;;
  check_path_string who dest_path ;;;
  options <- given_options options ;;
  check_hash who options ;;;
  po <- zuo_consume_option options "mode" ;;
  let '(perms, options) := po in
  perms <- cp_perms who perms ;;
  ro <- zuo_consume_option options "replace-mode" ;;
  let '(replace_mode, options) := ro in
  b1 <- is_zi o_undefined replace_mode ;;
  b2 <- is_zi o_false replace_mode ;;
  let replace_perms := negb b1 || negb b2 in
  check_options_consumed who options ;;;
  cp_files who src_path dest_path perms replace_perms ;;;
  zi o_void.

(** ** Time *)

(** [gettimeofday], where [clock_gettime] is not asked for *)
Definition zuo_current_time : M loc :=
  r <- sys_call Sgettimeofday ;;
  match r with
  | Serrno _ => zuo_fail (bytes_of "error getting time")
  | Sret _ out =>
      s <- zuo_integer (nth 0 out 0) ;;
      u <- zuo_integer (nth 1 out 0 * 1000) ;;
      zuo_cons s u
  end.
End filesystem.
