(* ===== verification/System.v ===== *)
(** * The runtime over an operating system

    The primitives of the table that call the operating system, given by the
    modelled functions, and programs run from their text to the system calls
    they make. *)

From S2P Require Import Prelude Sys Heap Alloc Objects Trie Lists Intern Sort Printer Reader Prims Interp Path Module Shell Sha256 Fasl Init Boot Files Processes FileSystem.

Section system.
Variables (os : list syscall → sysret) (fuel : nat) (zuo_ansi_ok posix_c_source : bool) (table : list registered).

(** [zuo_fd_open_input_handle], [zuo_drain] and [zuo_close_handle], as modules
    are read *)
Definition read_file (path : loc) : M loc :=
  options <- zi o_empty_hash ;;
  in_ <- zuo_fd_open_input_handle os fuel path options ;;
  s <- zuo_drain os fuel in_ (-1) ;;
  zuo_close_handle os fuel in_ ;;;
  ret s.

(** The functions by their names *)
Definition unix0 : list (string * M loc) := [
  ("zuo_suspend_signal", zuo_suspend_signal os); ("zuo_resume_signal", zuo_resume_signal os);
  ("zuo_current_time", zuo_current_time os) ].

Definition unix1 : list (string * (loc → M loc)) := [
  ("zuo_fd_close", zuo_fd_close os fuel); ("zuo_fd_valid_p", zuo_fd_valid_p os fuel);
  ("zuo_rm", zuo_rm os); ("zuo_mkdir", zuo_mkdir os); ("zuo_rmdir", zuo_rmdir os);
  ("zuo_ls", zuo_ls os fuel); ("zuo_readlink", zuo_readlink os fuel);
  ("zuo_process", zuo_process os fuel); ("zuo_process_status", zuo_process_status);
  ("zuo_process_wait", zuo_process_wait os fuel);
  ("zuo_alert", zuo_alert os fuel); ("zuo_cleanable_file", zuo_cleanable_file os); ("zuo_cleanable_cancel", zuo_cleanable_cancel os);
  ("zuo_dump_image_and_exit", zuo_dump_image_and_exit os fuel table) ].

Definition unix2 : list (string * (loc → loc → M loc)) := [
  ("zuo_fd_open_input", zuo_fd_open_input os fuel); ("zuo_fd_open_output", zuo_fd_open_output os fuel);
  ("zuo_fd_read", zuo_fd_read os fuel); ("zuo_fd_write", zuo_fd_write os fuel);
  ("zuo_fd_poll", zuo_fd_poll os fuel); ("zuo_fd_terminal_p", zuo_fd_terminal_p os zuo_ansi_ok);
  ("zuo_mv", zuo_mv os); ("zuo_ln", zuo_ln os) ].

Definition unix3 : list (string * (loc → loc → loc → M loc)) := [
  ("zuo_stat", zuo_stat os posix_c_source); ("zuo_cp", zuo_cp os fuel) ].

Definition by_name {A} (ops : list (string * A)) (name : string) : option A :=
  snd ∘ snd <$> list_find (λ op, fst op = name) ops.

Definition unix_ops : os_ops :=
  OsOps
    (λ name, default (ub "unknown primitive") (by_name unix0 name))
    (λ name, default (λ _, ub "unknown primitive") (by_name unix1 name))
    (λ name, default (λ _ _, ub "unknown primitive") (by_name unix2 name))
    (λ name, default (λ _ _ _, ub "unknown primitive") (by_name unix3 name))
    read_file.
End system.

(** ** Programs and their system calls *)

(** A system in which a write takes two bytes at most, the child 100 is started
    and then exits with the code 3, and every other call succeeds with the value
    0 and gives no bytes. *)
Definition friendly_os (h : list syscall) : sysret :=
  match reverse h with
  | Swrite _ b :: _ => Sret (Z.min 2 (Z.of_nat (length b))) []
  | Sfork :: _ => Sret 100 []
  | Swait :: _ => Sret 100 [3 * 256]
  | _ => Sret 0 []
  end.

(** What is printed for the value of a program, and the calls that it makes,
    from its text. *)
Definition calls_in (os : list syscall → sysret) (program : list Z) : option (list Z * list syscall) :=
  match (f <- zi o_false ;;
         r <- zuo_in program 0 f false ;;
         v <- zuo_kernel_eval (call_primitive (unix_ops os 100 true true []) 200) 500 200 (fst r) ;;
         out <- zuo_out 200 out_init v zuo_write_mode ;;
         ret (out_s out)) booted with
  | Ok s σ => Some (s, sys_calls (s_sys σ))
  | _ => None
  end.

Definition calls_of : list Z → option (list Z * list syscall) := calls_in friendly_os.

Definition text (s : string) : list Z := [34] ++ bytes_of s ++ [34].

(** A file is opened, which must not exist, and three bytes are written. *)
Example write_calls :
  calls_of (bytes_of "(fd-write (fd-open-output " ++ text "a.txt" ++ bytes_of ") " ++ text "abc" ++ bytes_of ")")
  = Some (bytes_of "#<void>", [Sopen (bytes_of "a.txt") [O_WRONLY; O_CREAT; O_EXCL] (Some 438); Swrite 0 (bytes_of "abc"); Swrite 0 (bytes_of "c")]).
Proof. vm_compute. reflexivity. Qed.

(** A file is registered, and the registration taken back. *)
Example cleanable_calls :
  calls_of (bytes_of "(cleanable-cancel (cleanable-file " ++ text "a.txt" ++ bytes_of "))")
  = Some (bytes_of "#<void>", [Sblock; Sunblock; Sblock; Sunblock]).
Proof. vm_compute. reflexivity. Qed.

(** A child is started, waited for, and its status asked for: the value is its
    exit code. *)
Example process_calls :
  calls_of (bytes_of "(process-status (process-wait (hash-ref (process " ++ text "/bin/cc" ++ text "-c" ++ bytes_of ") 'process)))")
  = Some (bytes_of "3", [Sblock; Sfork; Sunblock; Swait; Sblock; Sunblock]).
Proof. vm_compute. reflexivity. Qed.

(** Signals are suspended while an alert is printed; its colour is for terminals
    only. *)
Example alert_calls :
  calls_of (bytes_of "(alert " ++ text "a" ++ bytes_of ")") = Some (bytes_of "#<void>", [Sblock; Sisatty 1; Sisatty 1; Sunblock]).
Proof. vm_compute. reflexivity. Qed.

(** The names in a directory are asked for one after the other. *)
Definition dir_os (h : list syscall) : sysret :=
  match reverse h with
  | Sreaddir _ :: h' => match length h' with 1%nat => Sret 1 (bytes_of ".") | 2%nat => Sret 1 (bytes_of "a") | 3%nat => Sret 1 (bytes_of "b") | _ => Sret 0 [] end
  | _ => Sret 9 []
  end.

Example ls_calls :
  calls_in dir_os (bytes_of "(ls " ++ text "d" ++ bytes_of ")")
  = Some ([40] ++ text "a" ++ [32] ++ text "b" ++ [41],
      [Sopendir (bytes_of "d"); Sreaddir 9; Sreaddir 9; Sreaddir 9; Sreaddir 9; Sclosedir 9]).
Proof. vm_compute. reflexivity. Qed.

(** A missing file has no status, and a directory has one. *)
Example stat_missing :
  calls_in (λ _, Serrno ENOENT) (bytes_of "(stat " ++ text "a" ++ bytes_of ")") = Some (bytes_of "#f", [Sstat (bytes_of "a")]).
Proof. vm_compute. reflexivity. Qed.
Example stat_type_of_dir :
  calls_in (λ _, Sret 0 [16877]) (bytes_of "(hash-ref (stat " ++ text "d" ++ bytes_of " #f) 'type)")
  = Some (bytes_of "dir", [Slstat (bytes_of "d")]).
Proof. vm_compute. reflexivity. Qed.
