(* ===== verification/Main.v ===== *)
(** * Starting and embedding the runtime

    [main] and what it calls: the command line, the environment variables that
    configure the process, the path of the executable, the boot image, and the
    functions for programs that embed the runtime.  Unix, with [/proc]; for
    Unix without it, [zuo_self_path_c] is not modelled. *)

From S2P Require Import Prelude Sys Heap Alloc Objects Trie Lists Intern Sort Printer Reader Prims Interp Path Module Shell Sha256 Fasl Init Boot Files Processes FileSystem System.

(** ** Environment variables *)

(** [getenv(name)]: the value in the first entry [name=value] *)
Fixpoint getenv (name : list Z) (environ : list (list Z)) : option (list Z) :=
  match environ with
  | [] => None
  | e :: environ' =>
      if decide (take (S (length name)) e = name ++ [61]) then Some (drop (S (length name)) e)
      else getenv name environ'
  end.

Definition ZUO_LIB_PATH : list Z := bytes_of "lib".

(** [zuo_configure], as far as the new value of [zuo_lib_path]; the others that
    it sets only control messages for debugging. *)
Definition zuo_configure (environ : list (list Z)) (zuo_lib_path : option (list Z)) : option (list Z) :=
  match getenv (bytes_of "ZUO_LIB_PATH") environ with
  | Some s => Some s
  | None => zuo_lib_path
  end.

(** ** The command line *)

(** [None] is the null pointer. *)
Record options := Options {
  boot_image : option (list Z);
  library_path : option (list Z);
  zuo_lib_path : option (list Z);
  zuo_file_logging : option (list Z);
  eval_argument : bool
}.

Definition initial_options : options := Options None None (Some ZUO_LIB_PATH) None false.

Inductive parsed :=
  | Phelp
  | Perror (msg : list Z)
  | Pgo (o : options) (argv : list (list Z)).

Definition expected_path (argv0 : list Z) (flag : string) : parsed :=
  Perror (argv0 ++ bytes_of ": expected a path after " ++ bytes_of flag).

(** [while (argc > 0)] *)
Fixpoint parse_flags (argv0 : list Z) (argv : list (list Z)) (o : options) : parsed :=
  let 'Options boot lib path log ev := o in
  match argv with
  | [] => Pgo o []
  | a :: argv' =>
      if decide (a = bytes_of "-h") then Phelp
      else if decide (a = bytes_of "--help") then Phelp
      else if decide (a = bytes_of "-B" ∨ a = bytes_of "--boot") then
        match argv' with
        | v :: argv'' => parse_flags argv0 argv'' (Options (Some v) lib path log ev)
        | [] => expected_path argv0 "-B"
        end
      else if decide (a = bytes_of "-X" ∨ a = bytes_of "--collects") then
        match argv' with
        | v :: argv'' =>
            match v with
            | [] => parse_flags argv0 argv'' (Options boot lib None log ev)
            | _ => parse_flags argv0 argv'' (Options boot (Some v) path log ev)
            end
        | [] => expected_path argv0 "-X"
        end
      else if decide (a = bytes_of "-M") then
        match argv' with
        | v :: argv'' => parse_flags argv0 argv'' (Options boot lib path (Some v) ev)
        | [] => expected_path argv0 "-M"
        end
      else if decide (a = bytes_of "-c") then parse_flags argv0 argv' (Options boot lib path log true)
      else if decide (a = bytes_of "--") then Pgo o argv'
      else if decide (head a = Some 45) then Perror (argv0 ++ bytes_of ": unrecognized flag: " ++ a)
      else Pgo o argv
  end.

(** The whole command line: the options, the file to load and its arguments *)
Definition parse_command_line (argv0 : list Z) (argv : list (list Z)) :
    parsed + options * option (list Z) * list (list Z) :=
  match parse_flags argv0 argv initial_options with
  | Pgo o (load_file :: args) => inr (o, Some load_file, args)
  | Pgo o [] =>
      if eval_argument o then inl (Perror (argv0 ++ bytes_of ": expected an argument after -c"))
      else inr (o, None, [])
  | p => inl p
  end.

(** a line of the text that [-h] prints *)
Definition line (s : string) : list Z := bytes_of s ++ [10].
Definition quoted (s : string) : list Z := [34] ++ bytes_of s ++ [34].

Definition usage (argv0 : list Z) : list Z :=
  [10] ++ bytes_of "usage: " ++ argv0 ++ line " [<option> ...] [<file-or-dir> <argument> ...]" ++ [10]
  ++ line "If <file-or-dir> is a file, it is used as a module path to load."
  ++ bytes_of "If <file-or-dir> is a directory, " ++ quoted "main.zuo" ++ line " is loded."
  ++ bytes_of "If <file-or-dir> is " ++ quoted "" ++ line ", a module is read from stdin."
  ++ line "But if `-c` is provided, <file-or-dir> is parsed as a module."
  ++ line "The <argument>s are made available via the `system-env` procedure."
  ++ [10] ++ line "Supported <option>s:" ++ [10]
  ++ line "  -B <file>, --boot <file>"
  ++ line "     Load dump from <file> as the initial image"
  ++ line "  -X <dir>, --collects <dir>"
  ++ line "     Use <dir> as the library-collection root, overriding `ZUO_LIB`;"
  ++ bytes_of "     the default is " ++ [34] ++ ZUO_LIB_PATH ++ [34] ++ line " relative to the executable"
  ++ line "  -M <file>"
  ++ line "     Log the path of each opened file to <file>"
  ++ line "  -c"
  ++ line "     Use <file-or-dir> as module text, instead of the name of"
  ++ line "     a file or directory"
  ++ line "  --"
  ++ line "     No argument following this switch is used as a switch"
  ++ line "  -h, --help"
  ++ line "     Show this information and exit, ignoring other options"
  ++ [10]
  ++ line "If an <option> switch is provided multiple times, the last"
  ++ line "instance takes precedence."
  ++ [10].

Section main.
Variables (os : list syscall → sysret) (fuel steps : nat) (posix_c_source : bool) (g : garbage).
Variables (cwd : list Z) (environ : list (list Z)).

(** ** The path of the executable *)

(** [while (1)], with a buffer of [blen] bytes *)
Fixpoint self_path_loop (n : nat) (blen : Z) : M (list Z) :=
  match n with
  | O => λ _, Diverge
  | S n' =>
      r <- sys_call os (Sreadlink (bytes_of "/proc/self/exe") (blen - 1)) ;;
      match r with
      | Serrno _ => zuo_fail (bytes_of "failed to get self")
      | Sret len out =>
          if len =? blen - 1 then self_path_loop n' (blen * 2)
          else if len <? 0 then zuo_fail (bytes_of "failed to get self")
          else ret (take (Z.to_nat len) out)
      end
  end.

Definition zuo_self_path_c : M (list Z) := self_path_loop fuel 256.

Definition zuo_self_path : M loc := s <- zuo_self_path_c ;; zuo_string s.

(** ** Signals, primitives and the image *)

Definition SIGINT : Z := 2.

Definition zuo_init_signal_handler : M unit := sys_call os (Ssigaction SIGINT true) ;;; ret tt.

(** The table of primitives, which only [zuo_dump_image_and_exit] needs, is
    made before any program runs: it is given to the primitives as [table]. *)
Definition unix_primitives (table : list registered) : os_ops := unix_ops os fuel true posix_c_source table.

(** [zuo_primitive_init] from its start *)
Definition primitive_init (will_load_image : bool) : M (list registered) :=
  zuo_init_signal_handler ;;;
  zuo_primitive_init (unix_primitives []) fuel will_load_image.

Definition image_init (table : list registered) (boot_image : option (list Z)) : M unit :=
  match boot_image with
  | Some path =>
      p <- zuo_string path ;;
      options <- zuo_trie_node ;;
      in_ <- zuo_fd_open_input_handle os fuel p options ;;
      dump <- zuo_drain os fuel in_ (-1) ;;
      zuo_close_handle os fuel in_ ;;;
      b <- ZUO_STRING_PTR dump ;;
      zuo_fasl_restore table g b ;;;
      zuo_sync_in_case_of_fail
  | None => zuo_image_init
  end.

(** ** [main] *)

(** the library path, or [#f] *)
Definition main_lib_path (o : options) (exe_path : loc) : M loc :=
  match library_path o with
  | Some p => s <- zuo_string p ;; zuo_path_to_complete_path cwd s
  | None =>
      match zuo_lib_path o with
      | Some p =>
          lib_path <- zuo_string p ;;
          r <- zuo_relative_path_p lib_path ;;
          b <- is_zi o_true r ;;
          if b then
            parts <- zuo_split_path exe_path ;;
            base <- ZUO_CAR parts ;;
            zuo_build_path2 base lib_path
          else ret lib_path
      | None => zi o_false
      end
  end.

(** the file to load and the module path for it *)
Definition main_load_path (argv0 : list Z) (eval_argument : bool) (load_file : option (list Z)) : M (list Z * loc) :=
  t <- zi o_true ;;
  match load_file with
  | None =>
      let load_file := bytes_of "main.zuo" in
      load_path <- zuo_string load_file ;;
      st <- zuo_stat os posix_c_source load_path t t ;;
      b <- is_zi o_false st ;;
      if b then zuo_fail (argv0 ++ bytes_of ": no file specified, and no " ++ quoted "main.zuo" ++ bytes_of " found")
      else ret (load_file, load_path)
  | Some load_file =>
      if eval_argument then p <- zuo_string (bytes_of "argument") ;; ret (load_file, p)
      else if decide (load_file = []) then p <- zuo_string (bytes_of "stdin") ;; ret (load_file, p)
      else
        load_path <- zuo_string load_file ;;
        load_path <- zuo_normalize_input_path load_path ;;
        st <- zuo_stat os posix_c_source load_path t t ;;
        none <- is_zi o_false st ;;
        dir <- (if none then ret false
                else
                  sym <- zuo_symbol (bytes_of "type") ;;
                  ty <- zuo_trie_lookup st sym ;;
                  d <- zuo_symbol (bytes_of "dir") ;;
                  ret (bool_decide (ty = d))) ;;
        if negb dir then ret (load_file, load_path)
        else
          m <- zuo_string (bytes_of "main.zuo") ;;
          if decide (load_file = bytes_of ".") then ret (load_file, m)
          else p <- zuo_build_path2 load_path m ;; ret (load_file, p)
  end.

(** loading the module *)
Definition main_module (table : list registered) (eval_argument : bool) (load_file : list Z) (load_path : loc) : M loc :=
  let call := call_primitive (unix_primitives table) fuel in
  if eval_argument then
    input <- zuo_string load_file ;; zuo_eval_module call steps fuel load_path input
  else if decide (load_file = []) then
    stdin <- zuo_symbol (bytes_of "stdin") ;;
    empty <- zi o_empty_hash ;;
    in_ <- zuo_fd_open_input_handle os fuel stdin empty ;;
    input <- zuo_drain os fuel in_ (-1) ;;
    zuo_eval_module call steps fuel load_path input
  else zuo_module_to_hash call steps fuel load_path.

(** running the procedure [main] of the submodules, if there is one *)
Definition main_submodule (table : list registered) (mod_ht : loc) : M unit :=
  sym <- zuo_symbol (bytes_of "submodules") ;;
  submods <- zuo_trie_lookup mod_ht sym ;;
  b <- has_tag zuo_trie_node_tag submods ;;
  if negb b then ret tt
  else
    sym <- zuo_symbol (bytes_of "main") ;;
    main_proc <- zuo_trie_lookup submods sym ;;
    none <- is_zi o_undefined main_proc ;;
    if none then ret tt
    else
      p <- zuo_procedure_p main_proc ;;
      t <- is_zi o_true p ;;
      (if negb t then zuo_fail1 (bytes_of "main is not a procedure") main_proc else ret tt) ;;;
      null <- zi o_null ;;
      e <- zuo_cons main_proc null ;;
      zuo_kernel_eval (call_primitive (unix_primitives table) fuel) steps fuel e ;;;
      ret tt.

(** An error of the command line is printed before the empty message of
    [zuo_fail]. *)
Definition zuo_main (argv0 : list Z) (argv : list (list Z)) : M unit :=
  match parse_command_line argv0 argv with
  | inl Phelp => write_stdout (usage argv0) ;;; fail (Eexit 0)
  | inl (Perror msg) => zuo_fail msg
  | inl (Pgo _ _) => ub "not a result of parse_command_line"
  | inr (o, load_file, args) =>
      table <- primitive_init (bool_decide (is_Some (boot_image o))) ;;
      let 'Options boot lib path log ev := o in
      let o := Options boot lib (zuo_configure environ path) log ev in
      image_init table boot ;;;
      exe_path <- zuo_self_path ;;
      lib_path <- main_lib_path o exe_path ;;
      fp <- main_load_path argv0 ev load_file ;;
      let '(load_file, load_path) := fp in
      env <- zuo_make_runtime_env exe_path load_file args ;;
      zuo_runtime_init cwd environ lib_path env ;;;
      mod_ht <- main_module table ev load_file load_path ;;
      main_submodule table mod_ht ;;;
      zuo_exit_int 0
  end.

(** The first two steps of a program that embeds the runtime *)
Definition zuo_ext_primitive_init : M (list registered) := primitive_init false.
Definition zuo_ext_image_init (table : list registered) (boot_image : option (list Z)) : M unit := image_init table boot_image.

(** The process from its start: what was registered is cleaned up at the end. *)
Definition main (argv0 : list Z) (argv : list (list Z)) : M unit := at_exit os fuel (zuo_main argv0 argv).
End main.

(** ** Embedding *)

Section embedded.
Variables (fuel steps : nat) (call_primitive : dispatcher → string → loc → M loc).

(** [ZUO_TOP_ENV_SET_PRIMITIVEN(name, proc, arity_mask)] of a function of the
    embedding program *)
Definition zuo_ext_add_primitive (table : list registered) (proc : string) (arity_mask : Z) (name : list Z) :
    M (list registered) :=
  sym <- zuo_symbol name ;;
  table <- zuo_register_primitive table (Registered dispatch_primitiveN proc arity_mask) ;;
  p <- zuo_new (Oprimitive dispatch_primitiveN proc arity_mask sym) sizeof_primitive ;;
  env <- zi o_top_env ;;
  zuo_trie_set env sym p ;;;
  ret table.

Definition zuo_ext_false : M loc := zi o_false.
Definition zuo_ext_true : M loc := zi o_true.
Definition zuo_ext_null : M loc := zi o_null.
Definition zuo_ext_void : M loc := zi o_void.
Definition zuo_ext_eof : M loc := zi o_eof.
Definition zuo_ext_empty_hash : M loc := zi o_empty_hash.
Definition zuo_ext_integer (i : Z) : M loc := zuo_integer i.
Definition zuo_ext_integer_value (v : loc) : M Z := ZUO_INT_I v.
Definition zuo_ext_cons (car cdr : loc) : M loc := zuo_cons car cdr.
Definition zuo_ext_car (obj : loc) : M loc := ZUO_CAR obj.
Definition zuo_ext_cdr (obj : loc) : M loc := ZUO_CDR obj.
Definition zuo_ext_string (str : list Z) : M loc := zuo_sized_string str.
Definition zuo_ext_string_length (str : loc) : M Z := ZUO_STRING_LEN str.
Definition zuo_ext_string_ptr (str : loc) : M (list Z) := ZUO_STRING_PTR str.
Definition zuo_ext_symbol (str : list Z) : M loc := zuo_symbol str.
Definition zuo_ext_hash_ref (ht key fail : loc) : M loc := zuo_hash_ref ht key fail.
Definition zuo_ext_hash_set (ht key val : loc) : M loc := zuo_hash_set ht key val.
Definition zuo_ext_kernel_env : M loc := zi o_top_env.

(** [for (l = zuo_cons(proc, args); l != z.o_null; l = _zuo_cdr(l))]: the
    elements of [l] in front of [quoted], each quoted, the last one first *)
Fixpoint quote_all (n : nat) (quote l quoted : loc) : M loc :=
  match n with
  | O => λ _, Diverge
  | S n' =>
      b <- is_zi o_null l ;;
      if b then ret quoted
      else
        a <- ZUO_CAR l ;;
        null <- zi o_null ;;
        e <- zuo_cons a null ;;
        e <- zuo_cons quote e ;;
        quoted <- zuo_cons e quoted ;;
        d <- ZUO_CDR l ;;
        quote_all n' quote d quoted
  end.

(** Primitives are called at once, so without a collection. *)
Definition zuo_ext_apply (proc args : loc) : M loc :=
  o <- get proc ;;
  match o with
  | Oprimitive d f _ _ => call_primitive d f args
  | _ =>
      quote <- zuo_symbol (bytes_of "quote") ;;
      l <- zuo_cons proc args ;;
      s <- get_st ;;
      null <- zi o_null ;;
      quoted <- quote_all (heap_fuel s) quote l null ;;
      e <- zuo_reverse quoted ;;
      zuo_kernel_eval call_primitive steps fuel e
  end.

Definition zuo_ext_runtime_init (cwd : list Z) (environ : list (list Z)) (lib_path runtime_env : loc) : M unit :=
  zuo_runtime_init cwd environ lib_path runtime_env.

Definition zuo_ext_eval_module (as_module_path : loc) (content : list Z) : M loc :=
  input <- zuo_sized_string content ;;
  zuo_eval_module call_primitive steps fuel as_module_path input.

Definition zuo_ext_stash_push (v : loc) : M unit := stash_push v.
Definition zuo_ext_stash_pop : M loc := stash_pop.
End embedded.
