(* ===== verification/GcSpec.v ===== *)
(** * What the memory manager promises

    The allocator and the collector as a client sees them. *)

From S2P Require Import Prelude Sys Heap Alloc Gc GcCorrect Objects Trie Lists ImageOk Intern Sort Printer Reader Prims Interp Path Module Shell Sha256 Fasl Init Boot.

(** C3. The collector is correct.  From any state with a well-formed memory
    manager and no dangling pointer, [zuo_collect] ends (no invalid access, no
    copy past the end of the new space, no endless scan); the new heap is
    exactly the image of what the roots reached, under a renaming of addresses
    that merges no two objects; the roots are renamed alike; nothing else of
    the state changes; and no more memory is in use than before. *)
Theorem zuo_collect_correct s :
  mem_ok (s_mem s) → heap_closed (s_heap s) (roots_of s) →
  ∃ s' f, zuo_collect s = Ok tt s'
    ∧ heap_iso f (s_heap s) (roots_of s) (s_heap s') (roots_of s')
    ∧ mem_ok (s_mem s')
    ∧ heap_closed (s_heap s') (roots_of s')
    ∧ total_allocation (s_mem s') ≤ total_allocation (s_mem s)
    ∧ zuo_symbol_count s' = zuo_symbol_count s
    ∧ zuo_handle_count s' = zuo_handle_count s
    ∧ s_sys s' = s_sys s.
Proof. apply collect_ok. Qed.

Lemma zuo_collect_correct_witness :
  mem_ok (s_mem booted) ∧ heap_closed (s_heap booted) (roots_of booted)
  ∧ ∃ s', zuo_collect booted = Ok tt s' ∧ zuo_symbol_count s' = zuo_symbol_count booted.
Proof.
  split; [exact booted_ok|]. split; [exact booted_closed|].
  destruct (zuo_collect_correct booted booted_ok booted_closed)
    as (s' & f & E & _ & _ & _ & _ & Hc & _). exists s'. by split.
Defined.

(** C5. The allocator is correct.  An allocation from a well-formed memory
    manager (with room in the current space or not: a new space may be taken
    from the free ones or from [malloc]) succeeds, at an address where no
    object was; the object is there, every other object and all roots are
    unchanged, and the memory manager is well formed again. *)
Theorem zuo_new_correct o size s :
  mem_ok (s_mem s) → ALLOC_ALIGN size = space_of o → sizeof_forwarded ≤ size →
  ∃ p s', zuo_new o size s = Ok p s'
    ∧ s_heap s !! p = None
    ∧ s_heap s' = <[p := o]> (s_heap s)
    ∧ mem_ok (s_mem s')
    ∧ s_img s' = s_img s ∧ s_rt s' = s_rt s
    ∧ zuo_symbol_count s' = zuo_symbol_count s
    ∧ zuo_handle_count s' = zuo_handle_count s.
Proof.
  intros Hok Hal Hsz.
  destruct (zuo_new_allocd o size s Hok Hal Hsz) as (p & s' & E & [Hp _ Hh Hm Hi Hr _] & Hc & Hd).
  exists p, s'. auto 10.
Qed.

Lemma zuo_new_correct_witness :
  ∃ p s', zuo_new (Ostring (replicate 4000 65)) (ZUO_STRING_ALLOC_SIZE 4000) initial_st = Ok p s'
    ∧ mem_ok (s_mem s').
Proof.
  destruct (zuo_new_correct (Ostring (replicate 4000 65)) (ZUO_STRING_ALLOC_SIZE 4000) initial_st)
    as (p & s' & E & _ & _ & Hm & _).
  - exact mem_init_ok.
  - unfold space_of, object_size, tentative_len. cbn [obj_tag].
    rewrite length_replicate. reflexivity.
  - unfold ZUO_STRING_ALLOC_SIZE, sizeof_forwarded, sizeof_string. lia.
  - by exists p, s'.
Defined.
