(* ===== verification/HashSpec.v ===== *)
(** * Hash tables as finite maps

    The interface that the trie operations offer to their clients: persistent
    finite maps from symbols to values.  The interface is a class, the tries of
    [Trie] are its instance, and the theorems about the hash primitives are
    proved against the class. *)

From Stdlib Require Import Sorted.
From S2P Require Import Prelude Sys Heap Alloc Gc GcCorrect Objects Trie Lists Intern Sort Printer Reader Prims Interp Path Module Shell Sha256 Fasl Init Boot.

(** ** Symbols as keys *)

(** The symbol at [l] has the identifier [id], a nonnegative [zuo_int32_t]. *)
Definition sym_at (h : gmap Z obj) (l : loc) (id : Z) : Prop :=
  (∃ str, h !! l = Some (Osymbol id str)) ∧ 0 ≤ id < 2 ^ 31.

(** The undefined value is an object, and the memory manager is well formed. *)
Definition base_ok (s : st) : Prop :=
  mem_ok (s_mem s) ∧ is_Some (s_heap s !! o_undefined (s_img s)).

Lemma base_ok_grows s s' hn : base_ok s → grows s s' hn → base_ok s'.
Proof.
  intros [Hok [o Ho]] Hg. split; [apply Hg|]. rewrite (gr_img _ _ _ Hg).
  exists o. by eapply grows_lookup.
Qed.

Lemma sym_at_weaken h h' l id : h ⊆ h' → sym_at h l id → sym_at h' l id.
Proof. intros Hs [[str Hl] Hid]. split; [|done]. exists str. by eapply lookup_weaken. Qed.

Lemma symbol_id_ok s l id : sym_at (s_heap s) l id → symbol_id l s = Ok id s.
Proof.
  intros [[str Hl] _]. unfold symbol_id. by rewrite (bind_ok _ _ _ _ _ (get_ok _ _ _ Hl)).
Qed.

Lemma check_symbol_ok s l id who : sym_at (s_heap s) l id → check_symbol who l s = Ok tt s.
Proof.
  intros [[str Hl] _]. unfold check_symbol.
  by rewrite (bind_ok _ _ _ _ _ (has_tag_ok _ _ _ _ Hl)).
Qed.

(** ** The interface *)

Abbreviation fmap_t := (gmap Z (loc * loc)).

(** The value found, or the undefined value. *)
Definition found (s : st) (e : option (loc * loc)) : loc := from_option snd (o_undefined (s_img s)) e.

Class TableSpec (rep : st → loc → fmap_t → Prop)
    (lookup : loc → loc → M loc) (extend : loc → loc → loc → M loc)
    (remove : loc → loc → M loc) (count : loc → M Z) : Prop := {
  ts_grows s s' hn t m : grows s s' hn → rep s t m → rep s' t m;
  ts_lookup s t m k id :
    base_ok s → rep s t m → sym_at (s_heap s) k id → lookup t k s = Ok (found s (m !! id)) s;
  ts_extend s t m k id v :
    base_ok s → rep s t m → sym_at (s_heap s) k id →
    k ≠ o_undefined (s_img s) → v ≠ o_undefined (s_img s) →
    ∃ t' s' hn, extend t k v s = Ok t' s' ∧ grows s s' hn ∧ rep s' t' (<[id := (k, v)]> m);
  ts_remove s t m k id :
    base_ok s → rep s t m → sym_at (s_heap s) k id →
    ∃ t' s' hn, remove t k s = Ok t' s' ∧ grows s s' hn ∧ rep s' t' (delete id m)
      ∧ (m !! id = None → t' = t);
  ts_defined s t m id e : rep s t m → m !! id = Some e → snd e ≠ o_undefined (s_img s);
  ts_count s t m : rep s t m → count t s = Ok (Z.of_nat (size m)) s;
  ts_node s t m : rep s t m → ∃ c k v n, s_heap s !! t = Some (Otrie_node c k v n)
}.

(** ** Tries implement it *)

(** A 31-bit identifier has eight nibbles. *)
Definition hash_depth : nat := 8.

Definition hash_at (s : st) (t : loc) (m : fmap_t) : Prop :=
  t ≠ o_undefined (s_img s)
  ∧ trie_at (o_undefined (s_img s)) true hash_depth (s_heap s) t m.

Lemma id_bounds id :
  0 ≤ id < 2 ^ 31 →
  0 ≤ id < 16 ^ Z.of_nat hash_depth ∧ id < 16 ^ Z.of_nat trie_fuel.
Proof.
  intros H. change (16 ^ Z.of_nat hash_depth) with (2 ^ 32).
  change (16 ^ Z.of_nat trie_fuel) with (2 ^ 64). lia.
Qed.

Lemma hash_at_pre s : base_ok s → trie_pre (o_undefined (s_img s)) s (s_heap s).
Proof. intros [Hok Hal]. by split. Qed.

Lemma hash_at_node s t m :
  hash_at s t m → ∃ c k v n, s_heap s !! t = Some (Otrie_node c k v n) ∧ c = Z.of_nat (size m).
Proof.
  intros [Hne Ht]. apply trie_at_node in Ht as [[? _]|(_ & c & k & v & n & Hl & _ & Hc & _)]; [done|].
  exists c, k, v, n. auto.
Qed.

Lemma hash_grows s s' hn t m : grows s s' hn → hash_at s t m → hash_at s' t m.
Proof.
  intros Hg [Hne Ht]. unfold hash_at. rewrite (gr_img _ _ _ Hg). split; [done|].
  eapply trie_at_weaken; [by eapply grows_subseteq|done].
Qed.

(** The operations on a table by identifier. *)
Lemma id_lookup s t m id :
  hash_at s t m → 0 ≤ id < 2 ^ 31 → trie_lookup t id s = Ok (found s (m !! id)) s.
Proof.
  intros [Hne Ht] Hid. unfold trie_lookup. eapply trie_lookup_loop_ok; try done. pose proof (id_bounds id Hid). lia.
Qed.

Lemma id_extend s t m k id v :
  base_ok s → hash_at s t m → 0 ≤ id < 2 ^ 31 → k ≠ o_undefined (s_img s) → v ≠ o_undefined (s_img s) →
  ∃ t' s' hn, trie_extend trie_fuel t id k v 0 s = Ok (t', entries_added m id) s' ∧ grows s s' hn
    ∧ hash_at s' t' (<[id := (k, v)]> m).
Proof.
  intros Hb [Hne Ht] Hid Hku Hvu. destruct (id_bounds id Hid) as [Hid1 Hid2].
  destruct (trie_extend_ok _ true hash_depth trie_fuel id t k v 0 s (s_heap s) m
    (hash_at_pre s Hb) Ht Hid1 Hid2 Hku Hvu (or_introl eq_refl)) as (p & s' & hn & E & Hg & Hp & Hat).
  exists p, s', hn. split; [done|]. split; [done|].
  unfold hash_at. rewrite (gr_img _ _ _ Hg), (gr_heap _ _ _ Hg). split; [|done].
  intros ->. destruct Hb as [_ [o Ho]], Hp as [o' Ho'].
  pose proof (map_disjoint_Some_l _ _ _ _ (gr_disj _ _ _ Hg) Ho'). congruence.
Qed.

Lemma id_remove s t m id :
  base_ok s → hash_at s t m → 0 ≤ id < 2 ^ 31 →
  ∃ t' s' hn, trie_remove trie_fuel t id 0 s = Ok t' s' ∧ grows s s' hn ∧ hash_at s' t' (delete id m)
    ∧ (m !! id = None → t' = t).
Proof.
  intros Hb [Hne Ht] Hid. destruct (id_bounds id Hid) as [Hid1 Hid2].
  destruct (trie_remove_ok _ true hash_depth trie_fuel id t 0 s (s_heap s) m
    (hash_at_pre s Hb) Ht (Z.le_refl 0) Hid1 Hid2) as (t' & s' & hn & E & Hg & Hat & Habs & _ & Hnu & _).
  exists t', s', hn. split; [done|]. split; [done|]. split; [|done].
  unfold hash_at. rewrite (gr_img _ _ _ Hg), (gr_heap _ _ _ Hg). auto.
Qed.

(** A symbol stands for its identifier. *)
Lemma hash_lookup s t m k id :
  hash_at s t m → sym_at (s_heap s) k id → zuo_trie_lookup t k s = Ok (found s (m !! id)) s.
Proof.
  intros Ht Hk. unfold zuo_trie_lookup. rewrite (bind_ok _ _ _ _ _ (symbol_id_ok _ _ _ Hk)).
  by apply id_lookup, Hk.
Qed.

Lemma hash_extend s t m k id v :
  base_ok s → hash_at s t m → sym_at (s_heap s) k id →
  k ≠ o_undefined (s_img s) → v ≠ o_undefined (s_img s) →
  ∃ t' s' hn, zuo_trie_extend t k v s = Ok t' s' ∧ grows s s' hn ∧ hash_at s' t' (<[id := (k, v)]> m).
Proof.
  intros Hb Ht Hk Hku Hvu. unfold zuo_trie_extend. rewrite (bind_ok _ _ _ _ _ (symbol_id_ok _ _ _ Hk)).
  destruct (id_extend s t m k id v Hb Ht (proj2 Hk) Hku Hvu) as (p & s' & hn & E & Hg & Hat).
  exists p, s', hn. by rewrite (bind_ok _ _ _ _ _ E).
Qed.

Lemma hash_remove s t m k id :
  base_ok s → hash_at s t m → sym_at (s_heap s) k id →
  ∃ t' s' hn, zuo_trie_remove t k s = Ok t' s' ∧ grows s s' hn ∧ hash_at s' t' (delete id m)
    ∧ (m !! id = None → t' = t).
Proof.
  intros Hb Ht Hk. unfold zuo_trie_remove. rewrite (bind_ok _ _ _ _ _ (symbol_id_ok _ _ _ Hk)).
  exact (id_remove s t m id Hb Ht (proj2 Hk)).
Qed.

Lemma hash_count s t m : hash_at s t m → trie_count t s = Ok (Z.of_nat (size m)) s.
Proof.
  intros H. destruct (hash_at_node s t m H) as (c & k & v & n & Hl & ->).
  unfold trie_count. by rewrite (bind_ok _ _ _ _ _ (get_ok _ _ _ Hl)).
Qed.

(** A stored value is never the undefined value. *)
Lemma trie_at_defined u full d h t m id e :
  trie_at u full d h t m → m !! id = Some e → snd e ≠ u.
Proof.
  revert t m id. induction d as [|d IH]; intros t m id Ht He;
    apply trie_at_node in Ht as [[_ ->]|(_ & c & k & v & n & _ & _ & _ & H0 & _ & Hneg & Hsub)];
    try (by rewrite lookup_empty in He);
    (destruct (decide (id < 0)); [by rewrite Hneg in He|]);
    (destruct (decide (id = 0)) as [->|Hz];
      [rewrite H0 in He; unfold node_entry in He; case_decide; [done|]; by simplify_eq|]).
  - destruct Hsub as [_ Hsub]. rewrite Hsub in He by lia. done.
  - destruct (Hsub (id mod 16) (nibble_bound id)) as (n' & mi & _ & Hn & [Hmi _] & _).
    apply (IH _ _ (id / 16) Hn). rewrite <- Hmi; [|apply Z.div_pos; lia|rewrite <- nibble_split; lia].
    by rewrite <- nibble_split.
Qed.

#[export] Instance trie_table :
  TableSpec hash_at zuo_trie_lookup zuo_trie_extend zuo_trie_remove trie_count.
Proof.
  split.
  - intros s s' hn t m. apply hash_grows.
  - intros s t m k id _. apply hash_lookup.
  - intros s t m k id v. apply hash_extend.
  - intros s t m k id. apply hash_remove.
  - intros s t m id e [_ Ht]. by apply (trie_at_defined _ _ _ _ _ _ _ _ Ht).
  - intros s t m. apply hash_count.
  - intros s t m H. destruct (hash_at_node s t m H) as (c & k & v & n & Hl & _). eauto.
Qed.

(** ** The hash primitives, over any implementation of the interface *)

Section clients.
Context {rep : st → loc → fmap_t → Prop}.
Context `{!TableSpec rep zuo_trie_lookup zuo_trie_extend zuo_trie_remove trie_count}.

Lemma check_hash_ok s t m who : rep s t m → check_hash who t s = Ok tt s.
Proof using All.
  intros Ht. destruct (ts_node s t m Ht) as (c & k & v & n & Hl). unfold check_hash.
  by rewrite (bind_ok _ _ _ _ _ (has_tag_ok _ _ _ _ Hl)).
Qed.

Lemma hash_ref_client s t m k id d :
  base_ok s → rep s t m → sym_at (s_heap s) k id →
  zuo_hash_ref t k d s =
    match m !! id with
    | Some e => Ok (snd e) s
    | None =>
        if decide (d = o_undefined (s_img s))
        then Fail (Efail1w (bytes_of "hash-ref") (bytes_of "key is not present") k) s
        else Ok d s
    end.
Proof using All.
  intros Hb Ht Hk. unfold zuo_hash_ref.
  rewrite (bind_ok _ _ _ _ _ (check_hash_ok _ _ _ _ Ht)).
  rewrite (bind_ok _ _ _ _ _ (check_symbol_ok _ _ _ _ Hk)).
  rewrite (bind_ok _ _ _ _ _ (ts_lookup s t m k id Hb Ht Hk)). unfold found.
  destruct (m !! id) as [e|] eqn:He; cbn [from_option].
  - rewrite (bind_ok _ _ _ _ _ (is_zi_ne o_undefined _ s (ts_defined s t m id e Ht He))). done.
  - rewrite (bind_ok _ _ _ _ _ (is_zi_eq o_undefined _ s eq_refl)). case_decide as Hd.
    + by rewrite (bind_ok _ _ _ _ _ (is_zi_eq o_undefined _ s Hd)).
    + by rewrite (bind_ok _ _ _ _ _ (is_zi_ne o_undefined _ s Hd)).
Qed.

Lemma hash_set_client s t m k id v :
  base_ok s → rep s t m → sym_at (s_heap s) k id →
  k ≠ o_undefined (s_img s) → v ≠ o_undefined (s_img s) →
  ∃ t' s' hn, zuo_hash_set t k v s = Ok t' s' ∧ grows s s' hn
    ∧ rep s' t' (<[id := (k, v)]> m) ∧ rep s' t m.
Proof using All.
  intros Hb Ht Hk Hku Hvu. unfold zuo_hash_set.
  rewrite (bind_ok _ _ _ _ _ (check_hash_ok _ _ _ _ Ht)).
  rewrite (bind_ok _ _ _ _ _ (check_symbol_ok _ _ _ _ Hk)).
  destruct (ts_extend s t m k id v Hb Ht Hk Hku Hvu) as (t' & s' & hn & E & Hg & Hr).
  exists t', s', hn. split; [done|]. split; [done|]. split; [done|]. by apply (ts_grows s s' hn).
Qed.

Lemma hash_remove_client s t m k id :
  base_ok s → rep s t m → sym_at (s_heap s) k id →
  ∃ t' s' hn, zuo_hash_remove t k s = Ok t' s' ∧ grows s s' hn
    ∧ rep s' t' (delete id m) ∧ rep s' t m ∧ (m !! id = None → t' = t).
Proof using All.
  intros Hb Ht Hk. unfold zuo_hash_remove.
  rewrite (bind_ok _ _ _ _ _ (check_hash_ok _ _ _ _ Ht)).
  rewrite (bind_ok _ _ _ _ _ (check_symbol_ok _ _ _ _ Hk)).
  destruct (ts_remove s t m k id Hb Ht Hk) as (t' & s' & hn & E & Hg & Hr & Hsame).
  exists t', s', hn. split; [done|]. split; [done|]. split; [done|].
  split; [by apply (ts_grows s s' hn)|done].
Qed.

Lemma hash_count_client s t m :
  base_ok s → rep s t m →
  ∃ l s', zuo_hash_count t s = Ok l s' ∧ grows s s' {[l := Ointeger (Z.of_nat (size m))]}.
Proof using All.
  intros [Hok _] Ht. unfold zuo_hash_count.
  rewrite (bind_ok _ _ _ _ _ (check_hash_ok _ _ _ _ Ht)).
  rewrite (bind_ok _ _ _ _ _ (ts_count s t m Ht)).
  destruct (allocates_grows _ _ s (zuo_integer_ok (Z.of_nat (size m))) Hok) as (p & s' & E & _ & Hg).
  eauto.
Qed.
End clients.

(** ** The theorems *)

(** C12.  [hash-ref] returns the value of the key, the default where there is
    none, and reports an error where there is no default either. *)
Theorem hash_ref_correct s t m k id d :
  base_ok s → hash_at s t m → sym_at (s_heap s) k id →
  zuo_hash_ref t k d s =
    match m !! id with
    | Some e => Ok (snd e) s
    | None =>
        if decide (d = o_undefined (s_img s))
        then Fail (Efail1w (bytes_of "hash-ref") (bytes_of "key is not present") k) s
        else Ok d s
    end.
Proof. apply hash_ref_client. Qed.

(** C10.  [hash-set] ends with a table for the updated map; the table it was
    given still stands for the map it stood for, and no object of the old heap
    changes. *)
Theorem hash_set_correct s t m k id v :
  base_ok s → hash_at s t m → sym_at (s_heap s) k id →
  k ≠ o_undefined (s_img s) → v ≠ o_undefined (s_img s) →
  ∃ t' s' hn, zuo_hash_set t k v s = Ok t' s' ∧ grows s s' hn
    ∧ hash_at s' t' (<[id := (k, v)]> m) ∧ hash_at s' t m.
Proof. apply hash_set_client. Qed.

(** C11.  [hash-remove] ends with a table without the key, prunes the branches
    that became empty, keeps the old table, and returns the very same table
    when the key is absent. *)
Theorem hash_remove_correct s t m k id :
  base_ok s → hash_at s t m → sym_at (s_heap s) k id →
  ∃ t' s' hn, zuo_hash_remove t k s = Ok t' s' ∧ grows s s' hn
    ∧ hash_at s' t' (delete id m) ∧ hash_at s' t m ∧ (m !! id = None → t' = t).
Proof. apply hash_remove_client. Qed.

(** [hash-count] is the number of keys. *)
Theorem hash_count_correct s t m :
  base_ok s → hash_at s t m →
  ∃ l s', zuo_hash_count t s = Ok l s' ∧ grows s s' {[l := Ointeger (Z.of_nat (size m))]}.
Proof. apply hash_count_client. Qed.

(** [hash-keys] is the list of the keys, each once, sorted by name. *)
Theorem hash_keys_correct s t m nm :
  base_ok s → list_pre (o_null (s_img s)) s → hash_at s t m →
  (∀ id k v, m !! id = Some (k, v) → named (s_heap s) k (nm k)) →
  ∃ l s' hn ks, zuo_hash_keys t s = Ok l s' ∧ grows s s' hn
    ∧ is_list (s_heap s') (o_null (s_img s)) l ks
    ∧ ks ≡ₚ entry_keys (map_to_list m) ∧ StronglySorted (name_le nm) ks.
Proof.
  intros Hb Hpre Ht Hnm. unfold zuo_hash_keys, zuo_trie_sorted_keys.
  rewrite (bind_ok _ _ _ _ _ (check_hash_ok _ _ _ _ Ht)).
  rewrite (bind_ok (zi o_null) _ s _ s eq_refl).
  set (nl := o_null (s_img s)) in *. pose proof Ht as [Hne Htr].
  destruct (zuo_trie_keys_ok (o_undefined (s_img s)) nl true hash_depth trie_depth t (s_heap s) m)
    with (accum := nl) (s := s) (vs := @nil loc) as (l & s1 & hn1 & es & E1 & Hg1 & Hl & Hes);
    [unfold hash_depth, trie_depth; lia|done|done| |done|].
  { split; [by apply hash_at_pre|done|apply Hpre]. }
  rewrite app_nil_r in Hl. run_step E1. rewrite (bind_ok get_st _ s1 s1 s1 eq_refl).
  assert (Hn : all_named nm (s_heap s1) (entry_keys es)).
  { eapply all_named_grows; [exact Hg1|]. intros k Hk. unfold entry_keys in Hk.
    apply list_elem_of_fmap in Hk as ([id [k' v]] & -> & Hin). cbn. rewrite Hes in Hin.
    apply elem_of_map_to_list in Hin. by eapply Hnm. }
  destruct (zuo_symbol_list_sort_ok nl nm (heap_fuel s1) s1 l (entry_keys es)
    (list_pre_grows _ _ _ _ Hpre Hg1) Hl Hn (is_list_heap_fuel _ _ _ _ Hl)) as (l' & s2 & hn2 & E2 & Hg2 & Hl').
  eexists l', s2, _, _. split; [exact E2|]. split; [by eapply grows_trans|]. split; [exact Hl'|].
  split; [|apply ssort_sorted; pose proof (is_list_heap_fuel _ _ _ _ Hl); lia].
  rewrite ssort_perm. unfold entry_keys. by rewrite Hes.
Qed.

(** ** Witnesses, at the booted state *)

Lemma booted_base : base_ok booted.
Proof. split; [exact booted_ok|]. eexists. vm_compute. reflexivity. Qed.

Lemma booted_list : list_pre (o_null (s_img booted)) booted.
Proof. split; [done| |exact booted_ok]. eexists. vm_compute. reflexivity. Qed.

(** The empty table of the booted state. *)
Lemma booted_empty : hash_at booted (o_empty_hash (s_img booted)) ∅.
Proof.
  assert (Hne : bool_decide (o_empty_hash (s_img booted) = o_undefined (s_img booted)) = false)
    by (vm_compute; reflexivity).
  apply bool_decide_eq_false in Hne. split; [done|]. apply trie_at_node. right. split; [done|].
  eexists _, _, _, _. split; [|apply node_ok_empty]. vm_compute. reflexivity.
Qed.

Lemma booted_quote : sym_at (s_heap booted) (o_quote_symbol (s_img booted)) 107.
Proof. split; [|lia]. eexists. vm_compute. reflexivity. Qed.

Lemma booted_defined :
  o_quote_symbol (s_img booted) ≠ o_undefined (s_img booted)
  ∧ o_void (s_img booted) ≠ o_undefined (s_img booted).
Proof. split; intros H; vm_compute in H; discriminate. Qed.

Lemma hash_set_correct_witness :
  ∃ t' s' hn, zuo_hash_set (o_empty_hash (s_img booted)) (o_quote_symbol (s_img booted))
      (o_void (s_img booted)) booted = Ok t' s' ∧ grows booted s' hn
    ∧ hash_at s' t' (<[107 := (o_quote_symbol (s_img booted), o_void (s_img booted))]> ∅)
    ∧ hash_at s' (o_empty_hash (s_img booted)) ∅.
Proof.
  apply (hash_set_correct booted _ ∅ _ 107 _ booted_base booted_empty booted_quote);
    apply booted_defined.
Defined.

Lemma hash_ref_correct_witness :
  zuo_hash_ref (o_empty_hash (s_img booted)) (o_quote_symbol (s_img booted))
    (o_void (s_img booted)) booted = Ok (o_void (s_img booted)) booted.
Proof.
  rewrite (hash_ref_correct booted _ ∅ _ 107 _ booted_base booted_empty booted_quote).
  rewrite lookup_empty, decide_False by apply booted_defined. reflexivity.
Defined.

Lemma hash_remove_correct_witness :
  ∃ t' s' hn, zuo_hash_remove (o_empty_hash (s_img booted)) (o_quote_symbol (s_img booted)) booted
      = Ok t' s' ∧ grows booted s' hn
    ∧ hash_at s' t' (delete 107 ∅) ∧ hash_at s' (o_empty_hash (s_img booted)) ∅
    ∧ ((∅ : fmap_t) !! 107 = None → t' = o_empty_hash (s_img booted)).
Proof. exact (hash_remove_correct booted _ ∅ _ 107 booted_base booted_empty booted_quote). Defined.

Lemma hash_count_correct_witness :
  ∃ l s', zuo_hash_count (o_empty_hash (s_img booted)) booted = Ok l s'
    ∧ grows booted s' {[l := Ointeger 0]}.
Proof. exact (hash_count_correct booted _ ∅ booted_base booted_empty). Defined.

Lemma hash_keys_correct_witness :
  ∃ l s' hn ks, zuo_hash_keys (o_empty_hash (s_img booted)) booted = Ok l s' ∧ grows booted s' hn
    ∧ is_list (s_heap s') (o_null (s_img booted)) l ks
    ∧ ks ≡ₚ entry_keys (map_to_list ∅) ∧ StronglySorted (name_le (λ _, [])) ks.
Proof.
  apply (hash_keys_correct booted _ ∅ _ booted_base booted_list booted_empty).
  intros id k v H. by rewrite lookup_empty in H.
Defined.
