(* ===== verification/RoundTrip.v ===== *)
(** * Printing and reading back

    What [~s] writes for a string or an integer, [string-read] reads back. *)

From S2P Require Import Prelude Sys Heap Alloc Gc GcCorrect Objects Trie Lists ImageOk Intern Sort Printer Reader Prims Interp Path Module Shell Sha256 Fasl Init Boot.

(** ** The output buffer *)

(** The buffer never overflows: its capacity is at least its length. *)
Definition out_ok (out : zuo_out_t) : Prop := out_len out ≤ out_size out ∧ 0 < out_size out.

Lemma out_init_ok : out_ok out_init.
Proof. done. Qed.

Lemma out_char_ok out c : out_ok out → out_ok (out_char out c).
Proof.
  unfold out_ok, out_char, out_len. cbn. rewrite length_app. cbn.
  case (Z.eqb_spec (Z.of_nat (length (out_s out))) (out_size out)); lia.
Qed.

(** [out'] is [out] with the bytes [b] added. *)
Definition adds (out out' : zuo_out_t) (b : list Z) : Prop :=
  out_s out' = out_s out ++ b ∧ (out_ok out → out_ok out').

Lemma adds_nil out : adds out out [].
Proof. split; [by rewrite app_nil_r|done]. Qed.

Lemma adds_char out c : adds out (out_char out c) [c].
Proof. split; [done|apply out_char_ok]. Qed.

Lemma adds_trans o1 o2 o3 b1 b2 : adds o1 o2 b1 → adds o2 o3 b2 → adds o1 o3 (b1 ++ b2).
Proof. intros [H1 K1] [H2 K2]. split; [by rewrite H2, H1, app_assoc|auto]. Qed.

Lemma adds_out_char o1 o2 b c : adds o1 o2 b → adds o1 (out_char o2 c) (b ++ [c]).
Proof. intros H. eapply adds_trans; [exact H|apply adds_char]. Qed.

Lemma adds_bytes out b : adds out (foldl out_char out b) b.
Proof.
  revert out. induction b as [|c b IH]; intros out; [apply adds_nil|].
  apply (adds_trans _ (out_char out c) _ [c]); [apply adds_char|apply IH].
Qed.

(** ** String literals *)

(** The text of one byte of a literal; [next] is the byte after it. *)
Definition esc (c next : Z) : list Z :=
  if (c =? 34) || (c =? 92) then [92; c]
  else if c =? 10 then [92; 110]
  else if c =? 13 then [92; 114]
  else if c =? 9 then [92; 116]
  else if isprint c then [c]
  else if (c =? 0) && ((next <? 48) || (55 <? next)) then [92; 48]
  else [92; 48 + Z.land (Z.shiftr c 6) 7; 48 + Z.land (Z.shiftr c 3) 7; 48 + Z.land (Z.shiftr c 0) 7].

Fixpoint literal (s : list Z) : list Z :=
  match s with
  | [] => []
  | c :: s' => esc c (hd 0 s') ++ literal s'
  end.

Lemma out_escaped_adds out c next : adds out (out_escaped out c next) (esc c next).
Proof.
  unfold out_escaped, esc.
  destruct ((c =? 34) || (c =? 92)); [apply (adds_out_char _ _ [92]), adds_char|].
  destruct (c =? 10); [apply (adds_out_char _ _ [92]), adds_char|].
  destruct (c =? 13); [apply (adds_out_char _ _ [92]), adds_char|].
  destruct (c =? 9); [apply (adds_out_char _ _ [92]), adds_char|].
  destruct (isprint c); [apply adds_char|].
  destruct ((c =? 0) && ((next <? 48) || (55 <? next)));
    [apply (adds_out_char _ _ [92]), adds_char|].
  apply (adds_out_char _ _ [92; _; _]), (adds_out_char _ _ [92; _]), (adds_out_char _ _ [92]), adds_char.
Qed.

Lemma out_literal_adds out s : adds out (out_literal out s) (literal s).
Proof.
  revert out. induction s as [|c s IH]; intros out; [apply adds_nil|]. cbn [out_literal literal].
  eapply adds_trans; [apply out_escaped_adds|apply IH].
Qed.

(** *** Reading it back *)

Lemma s_at_off (pre txt : list Z) k c o (s : st) :
  txt !! k = Some c → o = Z.of_nat (length pre) + Z.of_nat k → s_at (pre ++ txt) o s = Ok c s.
Proof.
  intros Hk ->. unfold s_at, char_at. pose proof (lookup_lt_Some _ _ _ Hk).
  rewrite decide_True by lia. rewrite decide_False by (rewrite length_app; lia).
  rewrite <- Nat2Z.inj_add, Nat2Z.id.
  rewrite lookup_app_r by lia. by replace (length pre + k - length pre)%nat with k by lia; rewrite Hk.
Qed.

(** [read_at pre txt k c]: the next byte read is [c], at [k] in [txt]. *)
Ltac read_at pre txt k c :=
  match goal with
  | |- context [bind (s_at (pre ++ txt) ?o) _ ?s] =>
      rewrite (bind_ok _ _ _ _ _ (s_at_off pre txt k c o s
        ltac:(first [reflexivity|assumption]) ltac:(lia)))
  end.

(** What the reader does with the bytes at [o]: it consumes [txt], adds [c]. *)
Definition reads_as (txt : list Z) (c : Z) (post : list Z) : Prop :=
  ∀ pre fuel where_ acc s,
    read_literal (S fuel) (pre ++ txt ++ post) (Z.of_nat (length pre)) where_ acc s
    = read_literal fuel (pre ++ txt ++ post) (Z.of_nat (length pre + length txt)) where_ (acc ++ [c]) s.

Lemma read_octal_three pre txt c2 c3 c4 o s :
  is_octal c3 = true → is_octal c4 = true → c2 ≤ 51 →
  txt !! 2%nat = Some c3 → txt !! 3%nat = Some c4 → o = Z.of_nat (length pre) + 2 →
  read_octal (pre ++ txt) o c2 s
  = Ok (Z.shiftl (Z.shiftl (c2 - 48) 3 + (c3 - 48)) 3 + (c4 - 48), o + 1 + 1) s.
Proof.
  intros H3 H4 Hc2 Ht3 Ht4 ->. unfold read_octal.
  read_at pre txt 2%nat c3. rewrite H3.
  rewrite (proj2 (Z.leb_le _ _)) by lia. cbn zeta.
  read_at pre txt 3%nat c4. rewrite H4. done.
Qed.

Lemma land7 x : 0 ≤ Z.land x 7 < 8.
Proof. change 7 with (Z.ones 3). rewrite Z.land_ones by lia. apply Z.mod_pos_bound. lia. Qed.

(** A byte is made of three octal digits, the first at most 3. *)
Lemma octal_digits c :
  is_byte c → Z.land (Z.shiftr c 6) 7 ≤ 3
  ∧ Z.shiftl (Z.shiftl (Z.land (Z.shiftr c 6) 7) 3 + Z.land (Z.shiftr c 3) 7) 3 + Z.land (Z.shiftr c 0) 7 = c.
Proof.
  intros [H1 H2]. change 7 with (Z.ones 3). rewrite !Z.land_ones, !Z.shiftr_div_pow2, !Z.shiftl_mul_pow2 by lia.
  change (2 ^ 6) with 64. change (2 ^ 3) with 8. change (2 ^ 0) with 1. rewrite Z.div_1_r.
  assert (c / 64 < 4) by (apply Z.div_lt_upper_bound; lia).
  assert (0 ≤ c / 64) by (apply Z.div_pos; lia).
  rewrite (Z.mod_small (c / 64)) by lia. split; [lia|].
  pose proof (Z.div_mod c 8). pose proof (Z.div_mod (c / 8) 8).
  rewrite (Z.div_div c 8 8) in * by lia. change (8 * 8) with 64 in *. lia.
Qed.

Lemma is_octal_true d : 0 ≤ d < 8 → is_octal (48 + d) = true.
Proof. unfold is_octal. lia. Qed.

Lemma esc_reads c next post :
  is_byte c → post ≠ [] →
  (c = 0 → is_octal next = false → is_octal (hd 0 post) = false) →
  reads_as (esc c next) c post.
Proof.
  intros Hc Hpost Hnext pre fuel w acc s. unfold esc. cbn [read_literal].
  destruct ((c =? 34) || (c =? 92)) eqn:E1.
  { read_at pre ([92; c] ++ post) 0%nat 92.
    cbn [Z.eqb Pos.eqb]. read_at pre ([92; c] ++ post) 1%nat c.
    replace ((c =? 92) || (c =? 34)) with true by (rewrite orb_comm; done).
    do 2 f_equal. cbn. lia. }
  apply orb_false_iff in E1 as [E34%Z.eqb_neq E92%Z.eqb_neq].
  assert (Hsimple : ∀ x e, c = x →
    (e = 110 ∧ x = 10) ∨ (e = 114 ∧ x = 13) ∨ (e = 116 ∧ x = 9) →
    read_literal (S fuel) (pre ++ [92; e] ++ post) (Z.of_nat (length pre)) w acc s
    = read_literal fuel (pre ++ [92; e] ++ post) (Z.of_nat (length pre + 2)) w (acc ++ [x]) s).
  { intros x e _ Hx. cbn [read_literal].
    read_at pre ([92; e] ++ post) 0%nat 92.
    cbn [Z.eqb Pos.eqb]. read_at pre ([92; e] ++ post) 1%nat e.
    destruct Hx as [[-> ->]|[[-> ->]|[-> ->]]]; cbn -[read_literal]; do 2 f_equal; lia. }
  destruct (Z.eqb_spec c 10) as [E|E10]; [exact (Hsimple c 110 eq_refl ltac:(auto))|].
  destruct (Z.eqb_spec c 13) as [E|E13]; [exact (Hsimple c 114 eq_refl ltac:(auto))|].
  destruct (Z.eqb_spec c 9) as [E|E9]; [exact (Hsimple c 116 eq_refl ltac:(auto))|]. clear Hsimple.
  destruct (isprint c) eqn:Epr.
  { read_at pre ([c] ++ post) 0%nat c.
    unfold isprint in Epr. apply andb_true_iff in Epr as [?%Z.leb_le _].
    rewrite !(proj2 (Z.eqb_neq _ _)) by lia. do 2 f_equal. cbn. lia. }
  destruct ((c =? 0) && ((next <? 48) || (55 <? next))) eqn:E0.
  - apply andb_true_iff in E0 as [->%Z.eqb_eq Hn].
    assert (Ho : is_octal (hd 0 post) = false).
    { apply Hnext; [done|]. unfold is_octal. apply orb_true_iff in Hn. lia. }
    destruct post as [|q post]; [done|]. cbn [hd] in Ho.
    read_at pre ([92; 48] ++ q :: post) 0%nat 92.
    cbn [Z.eqb Pos.eqb].
    read_at pre ([92; 48] ++ q :: post) 1%nat 48.
    cbn [Z.eqb Pos.eqb orb]. change (is_octal 48) with true. cbn iota. unfold read_octal.
    rewrite bind_assoc.
    read_at pre ([92; 48] ++ q :: post) 2%nat q.
    rewrite Ho. cbn -[read_literal app]. do 2 f_equal. lia.
  - set (d2 := Z.land (Z.shiftr c 6) 7). set (d1 := Z.land (Z.shiftr c 3) 7). set (d0 := Z.land (Z.shiftr c 0) 7).
    pose proof (land7 (Z.shiftr c 6)) as H2. pose proof (land7 (Z.shiftr c 3)) as H1.
    pose proof (land7 (Z.shiftr c 0)) as H0. destruct (octal_digits c Hc) as [Hle Hval].
    fold d2 in H2, Hle, Hval. fold d1 in H1, Hval. fold d0 in H0, Hval.
    set (txt := [92; 48 + d2; 48 + d1; 48 + d0] ++ post).
    read_at pre txt 0%nat 92. cbn [Z.eqb Pos.eqb].
    read_at pre txt 1%nat (48 + d2).
    rewrite (proj2 (Z.eqb_neq (48 + d2) 92)), (proj2 (Z.eqb_neq (48 + d2) 34)),
      (proj2 (Z.eqb_neq (48 + d2) 110)), (proj2 (Z.eqb_neq (48 + d2) 114)),
      (proj2 (Z.eqb_neq (48 + d2) 116)) by lia.
    cbn [orb]. rewrite is_octal_true by lia.
    rewrite (bind_ok _ _ _ _ _ (read_octal_three pre txt (48 + d2) (48 + d1) (48 + d0) (Z.of_nat (length pre) + 2) s
      (is_octal_true _ H1) (is_octal_true _ H0) ltac:(lia) eq_refl eq_refl ltac:(lia))).
    cbn [fst snd]. replace (48 + d2 - 48) with d2 by lia. replace (48 + d1 - 48) with d1 by lia.
    replace (48 + d0 - 48) with d0 by lia. rewrite Hval. unfold to_u8.
    rewrite Z.mod_small by (destruct Hc; lia). f_equal. cbn. lia.
Qed.

(** The first character of the text of a literal is an octal digit only where
    the byte itself is one. *)
Lemma literal_head s post :
  Forall is_byte s → is_octal (hd 0 s) = false →
  is_octal (hd 0 (literal s ++ 34 :: post)) = false.
Proof.
  intros Hs Hn. destruct s as [|c s]; [done|]. cbn [literal]. cbn [hd] in Hn. unfold esc.
  repeat case_match; try done.
Qed.

(** *** The round trip *)

Lemma read_literal_ok s : ∀ pre post fuel where_ acc σ,
  Forall is_byte s → (length s < fuel)%nat →
  read_literal fuel (pre ++ literal s ++ 34 :: post) (Z.of_nat (length pre)) where_ acc σ
  = Ok (acc ++ s, Z.of_nat (length pre + length (literal s)) + 1) σ.
Proof.
  induction s as [|c s IH]; intros pre post fuel w acc σ Hs Hf; (destruct fuel as [|fuel]; [cbn in Hf; lia|]).
  - cbn [literal app]. cbn [read_literal]. read_at pre (34 :: post) 0%nat 34. cbn.
    rewrite app_nil_r. do 2 f_equal. lia.
  - apply Forall_cons in Hs as [Hc Hs]. cbn [literal]. rewrite <- app_assoc.
    rewrite (esc_reads c (hd 0 s) (literal s ++ 34 :: post)); [|done|by destruct (literal s)|].
    2:{ intros _ Hn. by apply literal_head. }
    rewrite (app_assoc pre), <- length_app, (IH (pre ++ esc c (hd 0 s))) by (done || (cbn in Hf; lia)).
    rewrite <- app_assoc. cbn [app]. do 2 f_equal. rewrite !length_app. lia.
Qed.

(** ** Atoms at the top level of the printer and the reader *)

Lemma decide_notin {A} (l x : loc) (xs : list loc) (a b : A) :
  l ∉ xs → x ∈ xs → (if decide (l = x) then a else b) = b.
Proof. intros Hl Hx. rewrite decide_False; [done|]. by intros ->. Qed.

(** An object that is printed at once. *)
Lemma zuo_out_atom fuel s l o out out' mode :
  image_ok s → s_heap s !! l = Some o → o ≠ Osingleton →
  (∀ self, out_tagged self out l mode (o_null (s_img s)) s = Ok (out', o_null (s_img s)) s) →
  zuo_out (S fuel) out l mode s = Ok out' s.
Proof.
  intros Him Hl Ho Ht. pose proof (image_ne s l o Him Hl Ho) as Hne.
  unfold zuo_out, out_depth. cbn [zuo_out_nested].
  rewrite (bind_ok (zi o_null) _ s (o_null (s_img s)) s eq_refl). cbn [out_loop].
  assert (E : ∀ self, out_begin self out l mode (o_null (s_img s)) s = Ok (out', o_null (s_img s)) s).
  { intros self. unfold out_begin. rewrite (bind_ok get_st _ s s s eq_refl). cbn zeta.
    rewrite !(decide_notin l _ (singletons (s_img s))) by (done || (unfold singletons; set_solver)).
    apply Ht. }
  rewrite (bind_ok _ _ _ _ _ (E _)). rewrite (bind_ok get_st _ s s s eq_refl). cbn [fst snd].
  unfold heap_fuel. cbn [out_resume].
  rewrite bind_assoc, (bind_ok _ _ _ _ _ (is_zi_eq o_null (o_null (s_img s)) s eq_refl)).
  reflexivity.
Qed.

(** A byte that starts a datum: not white space, not the start of a comment. *)
Definition starts_datum (s : list Z) : Prop :=
  ∃ c r, s = c :: r ∧ isspace c = false ∧ c ≠ 59 ∧ c ≠ 35.

Lemma skip_whitespace_none s stack σ :
  starts_datum s → skip_whitespace (input_fuel s) s 0 stack σ = Ok (0, stack) σ.
Proof.
  intros (c & r & -> & Hsp & H59 & H35).
  assert (E : s_at (c :: r) 0 σ = Ok c σ) by (apply (s_at_off [] (c :: r) 0 c); done).
  assert (Es : skip_spaces (input_fuel (c :: r)) (c :: r) 0 σ = Ok 0 σ).
  { change (input_fuel (c :: r)) with (S (S (length (c :: r)))).
    generalize (S (length (c :: r))). intros n. cbn [skip_spaces].
    by rewrite (bind_ok _ _ _ _ _ E), Hsp. }
  change (input_fuel (c :: r)) with (S (S (length (c :: r)))) at 1.
  generalize (S (length (c :: r))) as n. intros n. cbn [skip_whitespace].
  rewrite (bind_ok _ _ _ _ _ Es), (bind_ok _ _ _ _ _ E).
  by rewrite !(proj2 (Z.eqb_neq _ _)) by done.
Qed.

(** With nothing on the stack, the datum is the result. *)
Lemma zuo_in_atom s where_ σ p o σ' hn :
  image_ok σ → starts_datum s →
  read_begin s 0 where_ (o_null (s_img σ)) σ = Ok (p, o, o_null (s_img σ)) σ' →
  grows σ σ' hn → p ≠ o_undefined (s_img σ) →
  zuo_in s 0 where_ false σ = Ok (p, o) σ'.
Proof.
  intros Him Hst E Hg Hp. unfold zuo_in.
  rewrite (bind_ok (zi o_null) _ σ (o_null (s_img σ)) σ eq_refl). change (input_fuel s) with (S (S (length s))).
  generalize (S (length s)) as n. intros n. cbn [in_loop].
  rewrite (bind_ok _ _ _ _ _ (skip_whitespace_none s _ σ Hst)).
  rewrite (bind_ok _ _ _ _ _ (is_zi_eq o_null (o_null (s_img σ)) σ eq_refl)). cbn [andb].
  rewrite (bind_ok _ _ _ _ _ E). rewrite (bind_ok get_st _ σ' σ' σ' eq_refl).
  unfold heap_fuel. cbn [read_combine]. rewrite bind_assoc.
  rewrite (bind_ok _ _ _ _ _ (is_zi_ne o_undefined p σ' ltac:(by rewrite (gr_img _ _ _ Hg)))).
  cbn beta iota. rewrite bind_assoc.
  rewrite (bind_ok _ _ _ _ _ (is_zi_eq o_null (o_null (s_img σ)) σ' ltac:(by rewrite (gr_img _ _ _ Hg)))).
  reflexivity.
Qed.

Lemma top_is_null σ f : top_is (o_null (s_img σ)) f σ = Ok false σ.
Proof. unfold top_is. by rewrite (bind_ok _ _ _ _ _ (is_zi_eq o_null _ σ eq_refl)). Qed.

(** A fresh object is not the undefined value. *)
Lemma fresh_defined σ p : image_ok σ → s_heap σ !! p = None → p ≠ o_undefined (s_img σ).
Proof.
  intros Him Hp ->. rewrite (image_single σ) in Hp; [done|done|]. unfold singletons. set_solver.
Qed.

(** ** Strings *)

(** The text of a string literal. *)
Definition string_text (b : list Z) : list Z := 34 :: literal b ++ [34].

Lemma literal_length b : (length b ≤ length (literal b))%nat.
Proof.
  induction b as [|c b IH]; [done|]. cbn [literal]. rewrite length_app.
  assert (H : 1 ≤ Z.of_nat (length (esc c (hd 0 b)))) by (unfold esc; repeat case_match; cbn; lia).
  cbn. lia.
Qed.

(** Writing a string and reading the text gives a new string with the same
    bytes, whatever they are: the printer ends after one object, never
    overflows its buffer, changes nothing, and the reader consumes exactly the
    text. *)
Theorem string_write_read fuel s l b where_ :
  image_ok s → s_heap s !! l = Some (Ostring b) → Forall is_byte b →
  ∃ out, zuo_out (S fuel) out_init l zuo_write_mode s = Ok out s ∧ out_ok out
    ∧ ∃ p s', zuo_in (out_s out) 0 where_ false s = Ok (p, out_len out) s'
        ∧ grows s s' {[p := Ostring b]}.
Proof.
  intros Him Hl Hb.
  set (out := out_char (out_literal (out_char out_init 34) b) 34). exists out.
  assert (Hadds : adds out_init out (string_text b)).
  { unfold out, string_text. change (34 :: literal b ++ [34]) with (([34] ++ literal b) ++ [34]).
    apply adds_out_char. eapply adds_trans; [apply adds_char|apply out_literal_adds]. }
  destruct Hadds as [Htxt Hok]. cbn [out_init out_s app] in Htxt.
  split.
  { eapply zuo_out_atom; [done|exact Hl|done|]. intros self. unfold out_tagged.
    by rewrite (bind_ok _ _ _ _ _ (get_ok _ _ _ Hl)). }
  split; [apply Hok, out_init_ok|].
  destruct (allocates_grows _ _ s (zuo_sized_string_ok b) (im_mem _ Him)) as (p & s' & E & Hp & Hg).
  exists p, s'. split; [|done]. unfold out_len. rewrite Htxt.
  eapply zuo_in_atom; [done|by eexists _, _|..| exact Hg|by apply fresh_defined].
  unfold read_begin.
  assert (E0 : s_at (string_text b) 0 s = Ok 34 s) by (apply (s_at_off [] (string_text b) 0 34); done).
  rewrite (bind_ok _ _ _ _ _ E0), (bind_ok _ _ _ _ _ (top_is_null s o_eof)).
  rewrite (bind_ok _ _ _ _ _ (top_is_null s o_apply)). cbn [Z.eqb Pos.eqb orb].
  assert (E1 : ∃ c1, s_at (string_text b) (0 + 1) s = Ok c1 s).
  { unfold string_text. destruct (literal b ++ [34]) as [|c1 r] eqn:El; [by destruct (literal b)|].
    exists c1. by apply (s_at_off [34] (c1 :: r) 0 c1). }
  destruct E1 as [c1 E1]. rewrite (bind_ok _ _ _ _ _ E1). cbn [orb].
  rewrite !bind_assoc. unfold string_text.
  change (34 :: literal b ++ [34]) with ([34] ++ literal b ++ 34 :: []).
  change (0 + 1) with (Z.of_nat (length [34])).
  assert (Hf : (length b < input_fuel ([34%Z] ++ literal b ++ [34%Z]))%nat)
    by (pose proof (literal_length b); unfold input_fuel; rewrite !length_app; cbn; lia).
  rewrite (bind_ok _ _ _ _ _ (read_literal_ok b [34] [] _ where_ [] s Hb Hf)).
  cbn [fst snd app]. rewrite bind_assoc, (bind_ok _ _ _ _ _ E). cbn [bind ret fst snd].
  do 3 f_equal. cbn. rewrite length_app. cbn. lia.
Qed.

Lemma string_write_read_witness :
  ∃ l s, s_heap s !! l = Some (Ostring [0; 55; 34; 200])
    ∧ ∃ out, zuo_out 1 out_init l zuo_write_mode s = Ok out s ∧ out_ok out
      ∧ ∃ p s', zuo_in (out_s out) 0 0 false s = Ok (p, out_len out) s'
          ∧ grows s s' {[p := Ostring [0; 55; 34; 200]]}.
Proof.
  destruct (allocates_grows _ _ booted (zuo_sized_string_ok [0; 55; 34; 200]) booted_ok)
    as (l & s & _ & _ & Hg).
  exists l, s. split; [by apply (grows_new booted)|].
  apply (string_write_read 0 s l [0; 55; 34; 200] 0).
  - by apply (image_ok_grows booted _ _ booted_image Hg).
  - by apply (grows_new booted).
  - repeat constructor; done.
Defined.

(** ** Integers *)

(** The [k + 1] decimal digits of [i]. *)
Fixpoint digits (k : nat) (i : Z) : list Z :=
  match k with
  | O => [48 + i]
  | S k' => (48 + i / 10 ^ Z.of_nat k) :: digits k' (i mod 10 ^ Z.of_nat k)
  end.

(** What the digits stand for, after [n]. *)
Definition digits_value (n : Z) (ds : list Z) : Z := foldl (λ n c, 10 * n + (c - 48)) n ds.

Definition all_digits (ds : list Z) : Prop := Forall (λ c, isdigit c = true) ds.

Lemma digits_value_ok k : ∀ i n,
  0 ≤ i < 10 ^ Z.of_nat (S k) →
  digits_value n (digits k i) = n * 10 ^ Z.of_nat (S k) + i ∧ all_digits (digits k i).
Proof.
  induction k as [|k IH]; intros i n Hi.
  - change (10 ^ Z.of_nat 1) with 10 in *. split; [cbn; lia|].
    repeat constructor. unfold isdigit. lia.
  - cbn [digits]. unfold digits_value. cbn [foldl].
    set (P := 10 ^ Z.of_nat (S k)) in *.
    assert (HP : 10 ^ Z.of_nat (S (S k)) = 10 * P) by (unfold P; rewrite (Nat2Z.inj_succ (S k)), Z.pow_succ_r; lia).
    assert (0 < P) by (unfold P; lia).
    destruct (IH (i mod P) (10 * n + (48 + i / P - 48))) as [Hv Hd]; [apply Z.mod_pos_bound; lia|].
    fold P in Hv, Hd. pose proof (Z.div_mod i P). split.
    + unfold digits_value in Hv. rewrite Hv, HP. lia.
    + constructor; [|done]. assert (i / P < 10) by (apply Z.div_lt_upper_bound; lia).
      assert (0 ≤ i / P) by (apply Z.div_pos; lia). unfold isdigit. lia.
Qed.

Lemma digits_not_nil k i : digits k i ≠ [].
Proof. by destruct k. Qed.

Lemma out_digits_adds k : ∀ fuel out i,
  0 ≤ i → (k < fuel)%nat → adds out (out_digits fuel out i (10 ^ Z.of_nat k) 0) (digits k i).
Proof.
  induction k as [|k IH]; intros [|fuel] out i Hi Hf; try lia; cbn [out_digits digits].
  - cbn -[out_digits Z.quot]. change (Z.quot 1 10) with 0.
    replace (out_digits fuel _ _ 0 0) with (out_char out (48 + i ÷ 1)) by (by destruct fuel).
    rewrite Z.quot_1_r. apply adds_char.
  - set (P := 10 ^ Z.of_nat (S k)). assert (0 < P) by (unfold P; lia).
    rewrite (proj2 (Z.leb_le 1 P)) by lia. rewrite Z.quot_div_nonneg by lia. cbn zeta.
    rewrite Z.add_0_r. replace (i - i / P * P) with (i mod P) by (rewrite Z.mod_eq; lia).
    replace (Z.quot P 10) with (10 ^ Z.of_nat k).
    2:{ unfold P. rewrite Nat2Z.inj_succ, Z.pow_succ_r, Z.mul_comm, Z.quot_mul; lia. }
    apply (adds_trans _ (out_char out (48 + i / P)) _ [48 + i / P]); [apply adds_char|].
    apply IH; [apply Z.mod_pos_bound; lia|lia].
Qed.

Lemma digits_scale_ok fuel : ∀ di j,
  0 ≤ di < 10 ^ Z.of_nat (j + fuel) →
  ∃ k, digits_scale fuel di (10 ^ Z.of_nat j) = 10 ^ Z.of_nat k ∧ di < 10 ^ Z.of_nat k
    ∧ (j ≤ k ≤ j + fuel)%nat.
Proof.
  induction fuel as [|fuel IH]; intros di j Hdi; cbn [digits_scale].
  - exists j. rewrite Nat.add_0_r in *. split; [done|]. split; [apply Hdi|lia].
  - destruct (Z.leb_spec (10 ^ Z.of_nat j) di).
    + replace (10 ^ Z.of_nat j * 10) with (10 ^ Z.of_nat (S j))
        by (rewrite Nat2Z.inj_succ, Z.pow_succ_r; lia).
      destruct (IH di (S j)) as (k & E & Hk & Hb).
      { replace (S j + fuel)%nat with (j + S fuel)%nat by lia. done. }
      exists k. split; [done|]. split; [done|lia].
    + exists j. split; [done|]. split; [lia|lia].
Qed.

(** The text of an integer: a sign and the digits of its absolute value. *)
Lemma out_integer_adds out i :
  in_s64 i →
  ∃ ds, adds out (out_integer out i) ((if i <? 0 then [45] else []) ++ ds)
    ∧ ds ≠ [] ∧ all_digits ds ∧ digits_value 0 ds = Z.abs i.
Proof.
  intros Hi. unfold in_s64 in Hi.
  assert (Hpos : ∀ out j, 0 ≤ j < 2 ^ 63 →
    ∃ ds, adds out (out_digits max_digits out j (digits_scale max_digits (Z.quot j 10) 1) 0) ds
      ∧ ds ≠ [] ∧ all_digits ds ∧ digits_value 0 ds = j).
  { clear. intros out j Hj. rewrite Z.quot_div_nonneg by lia.
    assert (j / 10 < 10 ^ 18) by (apply Z.div_lt_upper_bound; lia).
    assert (0 ≤ j / 10) by (apply Z.div_pos; lia).
    assert (Hk : ∃ k, digits_scale max_digits (j / 10) 1 = 10 ^ Z.of_nat k
      ∧ j / 10 < 10 ^ Z.of_nat k ∧ (k ≤ 18)%nat).
    { destruct (digits_scale_ok 18 (j / 10) 0) as (k & E & Hk & Hb); [split; [lia|done]|].
      exists k. split; [|split; [done|lia]]. rewrite <- E.
      change (10 ^ Z.of_nat 0) with 1 in *. unfold max_digits.
      assert (Hmono : ∀ f n, digits_scale f (j / 10) n ≤ j / 10 ∨ digits_scale (S f) (j / 10) n = digits_scale f (j / 10) n).
      { induction f as [|f IHf]; intros n.
        - cbn [digits_scale]. destruct (Z.leb_spec n (j / 10)); [by left|by right].
        - change (digits_scale (S (S f)) (j / 10) n) with
            (if n <=? j / 10 then digits_scale (S f) (j / 10) (n * 10) else n).
          change (digits_scale (S f) (j / 10) n) with
            (if n <=? j / 10 then digits_scale f (j / 10) (n * 10) else n).
          destruct (n <=? j / 10); [apply IHf|by right]. }
      destruct (Hmono 18%nat 1) as [Hle|Heq]; [rewrite E in Hle; lia|exact Heq]. }
    destruct Hk as (k & -> & Hk & Hk18).
    assert (Hj' : 0 ≤ j < 10 ^ Z.of_nat (S k)).
    { split; [lia|]. rewrite Nat2Z.inj_succ, Z.pow_succ_r by lia. pose proof (Z.mod_pos_bound j 10).
      pose proof (Z.div_mod j 10). lia. }
    exists (digits k j). split; [apply out_digits_adds; unfold max_digits; lia|].
    split; [apply digits_not_nil|]. destruct (digits_value_ok k j 0 Hj') as [Hv Hd].
    split; [done|]. rewrite Hv. lia. }
  unfold out_integer. destruct (Z.ltb_spec i 0) as [Hneg|Hnn].
  2:{ cbn zeta. destruct (Hpos out i ltac:(lia)) as (ds & Ha & Hne & Hd & Hv).
      exists ds. rewrite Z.abs_eq by lia. done. }
  destruct (decide (i = - 2 ^ 63)) as [->|Hmin].
  - exists (bytes_of "9223372036854775808"). split; [|split; [done|split; [|done]]].
    + change (to_s64 (0 - to_u64 (- 2 ^ 63))) with (- 2 ^ 63). cbn zeta.
      change (- 2 ^ 63 <? 0) with true. cbn iota.
      change ([45] ++ bytes_of "9223372036854775808") with (bytes_of "-9223372036854775808").
      match goal with |- adds _ ?o _ =>
        replace o with (foldl out_char out (bytes_of "-9223372036854775808"))
          by (lazy -[out_char]; reflexivity) end.
      apply adds_bytes.
    + repeat constructor.
  - assert (Eneg : to_s64 (0 - to_u64 i) = - i).
    { rewrite <- to_s64_u64, to_u64_sub_r, to_s64_u64. apply (to_s64_id (0 - i)). unfold in_s64. lia. }
    rewrite Eneg. rewrite (proj2 (Z.ltb_ge (- i) 0)) by lia. cbn zeta.
    destruct (Hpos (out_char out 45) (- i) ltac:(lia)) as (ds & Ha & Hne & Hd & Hv).
    exists ds. split; [|split; [done|split; [done|lia]]].
    eapply adds_trans; [apply adds_char|exact Ha].
Qed.

(** *** Reading it back *)

Lemma s_at_end s o (σ : st) : o = Z.of_nat (length s) → s_at s o σ = Ok 0 σ.
Proof.
  intros ->. unfold s_at, char_at. rewrite decide_True by lia. by rewrite decide_True by done.
Qed.

Lemma isdigit_range c : isdigit c = true → 48 ≤ c ≤ 57.
Proof. unfold isdigit. lia. Qed.

Lemma digits_value_mono ds : ∀ n, all_digits ds → 0 ≤ n → n ≤ digits_value n ds.
Proof.
  induction ds as [|c ds IH]; intros n Hd Hn; [done|]. apply Forall_cons in Hd as [Hc%isdigit_range Hd].
  unfold digits_value. cbn [foldl]. specialize (IH (10 * n + (c - 48)) Hd ltac:(lia)).
  unfold digits_value in IH. lia.
Qed.

(** The byte at [k], the terminator after the last one. *)
Lemma s_at_nth (pre txt : list Z) k o (σ : st) :
  (k ≤ length txt)%nat → o = Z.of_nat (length pre + k) → s_at (pre ++ txt) o σ = Ok (nth k txt 0) σ.
Proof.
  intros Hk ->. destruct (decide (k = length txt)) as [->|Hne].
  - rewrite nth_overflow by lia. apply s_at_end. by rewrite length_app.
  - destruct (lookup_lt_is_Some_2 txt k ltac:(lia)) as [c Hc]. rewrite (nth_lookup_Some _ _ 0 _ Hc).
    apply (s_at_off pre txt k c); [done|lia].
Qed.

Lemma in_symbol_digit c : isdigit c = true → in_symbol c = true.
Proof.
  intros Hc. unfold in_symbol, is_symbol_char. rewrite Hc. apply isdigit_range in Hc.
  by rewrite (proj2 (Z.eqb_neq c 0)) by lia.
Qed.

(** The symbol characters [r] up to a delimiter: are they digits? *)
Lemma all_digits_loop_ok r : ∀ fuel pre post σ,
  Forall (λ c, in_symbol c = true) r → in_symbol (hd 0 post) = false → (length r < fuel)%nat →
  all_digits_loop fuel (pre ++ r ++ post) (Z.of_nat (length pre)) σ = Ok (forallb isdigit r) σ.
Proof.
  induction r as [|c r IH]; intros [|fuel] pre post σ Hr Hp Hf; try (cbn in Hf; lia); cbn [all_digits_loop].
  - rewrite (bind_ok _ _ _ _ _ (s_at_nth pre post 0 (Z.of_nat (length pre)) σ ltac:(lia) ltac:(lia))).
    replace (nth 0 post 0) with (hd 0 post) by (by destruct post). by rewrite Hp.
  - apply Forall_cons in Hr as [Hc Hr]. cbn [app]. read_at pre (c :: r ++ post) 0%nat c. rewrite Hc. cbn [forallb].
    destruct (isdigit c); [|done]. specialize (IH fuel (pre ++ [c]) post σ Hr Hp ltac:(cbn in Hf; lia)).
    rewrite <- app_assoc, length_app, Nat2Z.inj_add in IH. exact IH.
Qed.

Lemma read_digits_ok ds : ∀ fuel pre post where_ n σ,
  all_digits ds → isdigit (hd 0 post) = false → (length ds < fuel)%nat → 0 ≤ n → digits_value n ds ≤ 2 ^ 63 →
  read_digits fuel (pre ++ ds ++ post) (Z.of_nat (length pre)) where_ n σ
  = Ok (digits_value n ds, Z.of_nat (length pre + length ds)) σ.
Proof.
  induction ds as [|c ds IH]; intros [|fuel] pre post w n σ Hd Hp Hf Hn Hv; try (cbn in Hf; lia); cbn [read_digits].
  - rewrite (bind_ok _ _ _ _ _ (s_at_nth pre post 0 (Z.of_nat (length pre)) σ ltac:(lia) ltac:(lia))).
    replace (nth 0 post 0) with (hd 0 post) by (by destruct post). rewrite Hp. cbn. by rewrite Nat.add_0_r.
  - apply Forall_cons in Hd as [Hc Hd]. pose proof (isdigit_range c Hc) as Hr.
    cbn [app]. read_at pre (c :: ds ++ post) 0%nat c. rewrite Hc.
    pose proof (digits_value_mono ds (10 * n + (c - 48)) Hd ltac:(lia)) as Hm.
    unfold digits_value in Hv. cbn [foldl] in Hv. fold (digits_value (10 * n + (c - 48)) ds) in Hv.
    rewrite to_u64_id by (unfold in_u64; lia). rewrite (proj2 (Z.ltb_ge _ _)) by lia.
    specialize (IH fuel (pre ++ [c]) post w (10 * n + (c - 48)) σ Hd Hp ltac:(cbn in Hf; lia) ltac:(lia) Hv).
    rewrite <- app_assoc, length_app, Nat2Z.inj_add in IH. cbn [app] in IH.
    replace (Z.of_nat (length pre) + 1) with (Z.of_nat (length pre) + Z.of_nat (length [c])) by (cbn; lia).
    cbn [app]. rewrite IH. unfold digits_value. cbn [foldl length]. do 2 f_equal. lia.
Qed.

(** The two shapes of an integer's text, up to a delimiter. *)
Lemma read_integer_ok pre post c ds i where_ s p s' :
  all_digits (c :: ds) → digits_value 0 (c :: ds) = Z.abs i → in_s64 i → isdigit (hd 0 post) = false →
  zuo_integer i s = Ok p s' →
  let txt := (if i <? 0 then [45] else []) ++ c :: ds in
  read_integer (pre ++ txt ++ post) (Z.of_nat (length pre)) (hd 0 txt) where_ s = Ok (p, Z.of_nat (length pre + length txt)) s'.
Proof.
  intros Hd Hv Hi Hp E. unfold in_s64 in Hi. apply Forall_cons in Hd as [Hc Hds].
  pose proof (isdigit_range c Hc) as Hr.
  assert (Hv' : digits_value (c - 48) ds = Z.abs i) by (rewrite <- Hv; done).
  assert (Hle : digits_value (c - 48) ds ≤ 2 ^ 63) by lia.
  unfold read_integer. destruct (Z.ltb_spec i 0) as [Hneg|Hpos]; cbn [app hd].
  - cbn [Z.eqb Pos.eqb]. cbn zeta. read_at pre (45 :: c :: ds ++ post) 1%nat c.
    assert (Hf : (length ds < input_fuel (pre ++ 45%Z :: c :: ds ++ post))%nat)
      by (unfold input_fuel; rewrite !length_app; cbn; rewrite length_app; lia).
    pose proof (read_digits_ok ds _ (pre ++ [45; c]) post where_ (c - 48) s Hds Hp Hf ltac:(lia) Hle) as Er.
    rewrite <- app_assoc in Er. cbn [app] in Er. rewrite length_app in Er. cbn [length] in Er.
    replace (Z.of_nat (length pre + 2)) with (Z.of_nat (length pre) + 1 + 1) in Er by lia.
    rewrite (bind_ok _ _ _ _ _ Er). rewrite Hv'. rewrite to_s64_u64. replace (0 - Z.abs i) with i by lia.
    rewrite to_s64_id by done. rewrite (proj2 (Z.ltb_ge 0 i)) by lia.
    rewrite (bind_ok _ _ _ _ _ E). unfold ret. do 2 f_equal. cbn. lia.
  - rewrite (proj2 (Z.eqb_neq c 45)) by lia. cbn zeta. read_at pre (c :: ds ++ post) 0%nat c.
    assert (Hf : (length ds < input_fuel (pre ++ c :: ds ++ post))%nat)
      by (unfold input_fuel; rewrite !length_app; cbn; rewrite length_app; lia).
    pose proof (read_digits_ok ds _ (pre ++ [c]) post where_ (c - 48) s Hds Hp Hf ltac:(lia) Hle) as Er.
    rewrite <- app_assoc in Er. cbn [app] in Er. rewrite length_app in Er. cbn [length] in Er.
    replace (Z.of_nat (length pre + 1)) with (Z.of_nat (length pre) + 1) in Er by lia.
    rewrite (bind_ok _ _ _ _ _ Er). rewrite Hv'. replace (Z.abs i) with i by lia. rewrite to_s64_id by done.
    rewrite (proj2 (Z.ltb_ge i 0)) by lia. rewrite (bind_ok _ _ _ _ _ E). unfold ret. do 2 f_equal. cbn. lia.
Qed.

(** Writing an integer and reading the text gives the same integer, also
    for the least one, whose absolute value is not representable. *)
Theorem integer_write_read fuel s l i where_ :
  image_ok s → s_heap s !! l = Some (Ointeger i) → in_s64 i →
  ∃ out, zuo_out (S fuel) out_init l zuo_write_mode s = Ok out s ∧ out_ok out
    ∧ ∃ p s', zuo_in (out_s out) 0 where_ false s = Ok (p, out_len out) s'
        ∧ grows s s' {[p := Ointeger i]}.
Proof.
  intros Him Hl Hi. exists (out_integer out_init i).
  destruct (out_integer_adds out_init i Hi) as (ds & [Htxt Hok] & Hne & Hd & Hv).
  split.
  { eapply zuo_out_atom; [done|exact Hl|done|]. intros self. unfold out_tagged.
    by rewrite (bind_ok _ _ _ _ _ (get_ok _ _ _ Hl)). }
  split; [apply Hok, out_init_ok|].
  destruct (allocates_grows _ _ s (zuo_integer_ok i) (im_mem _ Him)) as (p & s' & E & Hp & Hg).
  exists p, s'. split; [|done]. unfold out_len. rewrite Htxt. cbn [out_init out_s app].
  destruct ds as [|c ds]; [done|]. pose proof Hd as [Hc Hds]%Forall_cons.
  pose proof (isdigit_range c Hc) as Hr.
  set (txt := (if i <? 0 then [45] else []) ++ c :: ds).
  assert (Hhd : ∃ c0 r, txt = c0 :: r ∧ (c0 = 45 ∨ 48 ≤ c0 ≤ 57)
    ∧ (∃ c1, s_at txt (0 + 1) s = Ok c1 s ∧ isdigit c0 || ((c0 =? 45) && isdigit c1) = true)
    ∧ all_digits_before_delim txt (0 + 1) s = Ok true s).
  { unfold txt. destruct (i <? 0); cbn [app].
    - exists 45, (c :: ds). split; [done|]. split; [by left|]. split.
      + exists c. split; [by apply (s_at_off [45] (c :: ds) 0 c)|by rewrite Hc].
      + rewrite <- (proj2 (List.forallb_forall isdigit (c :: ds)) (proj1 (List.Forall_forall _ _) Hd)).
        pose proof (all_digits_loop_ok (c :: ds) (input_fuel (45 :: c :: ds)) [45] [] s) as Ed. rewrite app_nil_r in Ed. apply Ed;
          [eapply Forall_impl; [exact Hd|apply in_symbol_digit]|done|unfold input_fuel; cbn; lia].
    - exists c, ds. split; [done|]. split; [by right|]. split.
      + rewrite Hc. destruct ds as [|c1 ds].
        * exists 0. split; [by apply s_at_end|done].
        * exists c1. split; [by apply (s_at_off [c] (c1 :: ds) 0 c1)|done].
      + rewrite <- (proj2 (List.forallb_forall isdigit ds) (proj1 (List.Forall_forall _ _) Hds)).
        pose proof (all_digits_loop_ok ds (input_fuel (c :: ds)) [c] [] s) as Ed. rewrite app_nil_r in Ed. apply Ed;
          [eapply Forall_impl; [exact Hds|apply in_symbol_digit]|done|unfold input_fuel; cbn; lia]. }
  destruct Hhd as (c0 & r & Et & Hc0 & (c1 & E1 & Hdig) & Eall).
  eapply zuo_in_atom; [done| | |exact Hg|by apply fresh_defined].
  { exists c0, r. split; [done|]. unfold isspace. lia. }
  unfold read_begin.
  assert (E0 : s_at txt 0 s = Ok c0 s) by (rewrite Et; by apply (s_at_off [] (c0 :: r) 0 c0)).
  rewrite (bind_ok _ _ _ _ _ E0), (bind_ok _ _ _ _ _ (top_is_null s o_eof)).
  rewrite (bind_ok _ _ _ _ _ (top_is_null s o_apply)).
  rewrite (proj2 (Z.eqb_neq c0 0)), (proj2 (Z.eqb_neq c0 40)), (proj2 (Z.eqb_neq c0 91)),
    (proj2 (Z.eqb_neq c0 41)), (proj2 (Z.eqb_neq c0 93)), (proj2 (Z.eqb_neq c0 34)),
    (proj2 (Z.eqb_neq c0 35)) by lia. cbn [orb].
  rewrite (bind_ok _ _ _ _ _ E1). cbn [orb andb]. rewrite Hdig, (bind_ok _ _ _ _ _ Eall).
  pose proof (read_integer_ok [] [] c ds i where_ s p s' Hd Hv Hi eq_refl E) as Er. cbn zeta in Er. fold txt in Er.
  rewrite app_nil_r in Er. cbn [app length Nat.add] in Er. change (Z.of_nat 0) with 0 in Er.
  replace (hd 0 txt) with c0 in Er by (by rewrite Et). by rewrite (bind_ok _ _ _ _ _ Er).
Qed.

Lemma integer_write_read_witness :
  ∃ l s, s_heap s !! l = Some (Ointeger (- 2 ^ 63))
    ∧ ∃ out, zuo_out 1 out_init l zuo_write_mode s = Ok out s ∧ out_ok out
      ∧ ∃ p s', zuo_in (out_s out) 0 0 false s = Ok (p, out_len out) s'
          ∧ grows s s' {[p := Ointeger (- 2 ^ 63)]}.
Proof.
  destruct (allocates_grows _ _ booted (zuo_integer_ok (- 2 ^ 63)) booted_ok) as (l & s & _ & _ & Hg).
  exists l, s. split; [by apply (grows_new booted)|].
  apply (integer_write_read 0 s l (- 2 ^ 63) 0).
  - by apply (image_ok_grows booted _ _ booted_image Hg).
  - by apply (grows_new booted).
  - unfold in_s64. lia.
Defined.
