(* ===== verification/ShellSpec.v ===== *)
(** * Quoting and splitting are inverse

    The text that [string->shell] makes for each of a list of arguments,
    joined by spaces, is split by [shell->strings] into the arguments. *)

From S2P Require Import Prelude Sys Heap Alloc Gc GcCorrect Objects Trie Lists ImageOk Intern Sort Printer Reader Prims Interp Path Module Shell Sha256 Fasl Init Boot.

(** ** The text of an argument *)

(** The text for the rest [s] of a string, with a double quote open or not. *)
Fixpoint qtext (quoting : bool) (s : list Z) : list Z :=
  match s with
  | [] => if quoting then [34] else []
  | c :: s' =>
      if squote_char c then (if quoting then [34] else []) ++ [39; c; 39] ++ qtext false s'
      else if dquote_char c then (if quoting then [] else [34]) ++ c :: qtext true s'
      else (if quoting then [34] else []) ++ c :: qtext false s'
  end.

Definition shell_text (s : list Z) : list Z :=
  match s with [] => [34; 34] | _ :: _ => qtext false s end.

Definition arg_char (c : Z) : Prop := 0 < c < 256.

Lemma quote_step_text s : ∀ p quoting,
  (let '(p', q) := foldl quote_step (p, quoting) s in if q then p' ++ [34] else p')
  = p ++ qtext quoting s.
Proof.
  induction s as [|c s IH]; intros p quoting.
  - cbn. destruct quoting; [done|by rewrite app_nil_r].
  - cbn [foldl qtext]. unfold quote_step at 2. destruct (squote_char c); [|destruct (dquote_char c)];
      rewrite IH; destruct quoting; by rewrite <- ?app_assoc.
Qed.

Lemma zuo_string_to_shell_c_text s : Forall arg_char s → zuo_string_to_shell_c s = shell_text s.
Proof.
  intros Hs. unfold zuo_string_to_shell_c.
  rewrite c_str_id by (eapply Forall_impl; [exact Hs|]; unfold arg_char; cbn; lia).
  destruct s as [|c s]; [done|]. apply (quote_step_text (c :: s) [] false).
Qed.

(** ** The splitter's buffer *)

(** [W] has been written, [rest] is unread; what is between is stale. *)
Record at_ (s : shell_st) (W rest : list Z) (starts : list nat) (start : nat) (q sq cr : bool) : Prop := {
  at_buf : ∃ stale, sh_buf s = W ++ stale ++ rest ∧ sh_i s = (length W + length stale)%nat;
  at_j : sh_j s = length W;
  at_start : sh_arg_start s = start;
  at_q : sh_in_quote s = q;
  at_sq : sh_in_squote s = sq;
  at_cr : sh_did_create s = cr;
  at_cmd : sh_command s = starts }.

(** From [s] the loop reaches [s'] after [n] passes. *)
Definition runs (n : nat) (s s' : shell_st) : Prop :=
  ∀ fuel, shell_loop (n + fuel) s = shell_loop fuel s'.

Lemma runs_refl s : runs 0 s s.
Proof. done. Qed.
Lemma runs_trans n m s1 s2 s3 : runs n s1 s2 → runs m s2 s3 → runs (n + m) s1 s3.
Proof. intros H1 H2 fuel. by rewrite <- Nat.add_assoc, H1, H2. Qed.
Lemma runs_step s s' : shell_step s = Some (inl s') → runs 1 s s'.
Proof. intros H fuel. cbn. by rewrite H. Qed.

Lemma at_read s W c rest starts start q sq cr :
  at_ s W (c :: rest) starts start q sq cr → sh_buf s !! sh_i s = Some c.
Proof.
  intros [(stale & Hb & Hi) _ _ _ _ _ _]. rewrite Hb, Hi, app_assoc.
  rewrite lookup_app_r by (rewrite length_app; lia).
  rewrite length_app. by rewrite Nat.sub_diag.
Qed.

(** Copying a byte. *)
Lemma at_write s W c c' rest starts start q sq cr :
  at_ s W (c :: rest) starts start q sq cr →
  at_ (sh_write c' 1 s) (W ++ [c']) rest starts start q sq cr.
Proof.
  intros [(stale & Hb & Hi) Hj H1 H2 H3 H4 H5]. split; cbn; try done; [|rewrite Hj, length_app; cbn; lia].
  exists (tail (stale ++ [c])). rewrite Hb, Hj, Hi. split.
  - rewrite insert_app_r_alt, Nat.sub_diag by lia. rewrite <- (app_assoc W). f_equal.
    destruct stale as [|x stale]; [done|]. cbn. f_equal. by rewrite <- app_assoc.
  - rewrite length_app. destruct stale as [|x stale]; cbn; [lia|]. rewrite length_app. cbn. lia.
Qed.

(** Skipping a byte. *)
Lemma at_skip s W c rest starts start q sq cr q' sq' cr' :
  at_ s W (c :: rest) starts start q sq cr →
  at_ (sh_skip 1 (sh_set_quotes q' sq' cr' s)) W rest starts start q' sq' cr'.
Proof.
  intros [(stale & Hb & Hi) Hj H1 H2 H3 H4 H5]. split; cbn; try done.
  exists (stale ++ [c]). rewrite Hb, Hi, length_app, <- app_assoc. cbn. split; [done|lia].
Qed.

(** ** Steps on the characters of a text *)

Lemma squote_char_spec c : squote_char c = true → c ≠ 0 ∧ c ≠ 39.
Proof. unfold squote_char. lia. Qed.

Lemma dquote_char_spec c : squote_char c = false → arg_char c → c ≠ 0 ∧ c ≠ 34 ∧ c ≠ 92.
Proof. unfold squote_char, arg_char. lia. Qed.

Lemma plain_char_spec c :
  squote_char c = false → dquote_char c = false →
  c ≠ 0 ∧ c ≠ 34 ∧ c ≠ 39 ∧ c ≠ 92 ∧ isspace c = false.
Proof. unfold squote_char, dquote_char, isprint. destruct (isspace c); lia. Qed.

Ltac shell_run H :=
  unfold shell_step; rewrite (at_read _ _ _ _ _ _ _ _ _ H); cbn [mbind option_bind];
  pose proof (at_q _ _ _ _ _ _ _ _ H); pose proof (at_sq _ _ _ _ _ _ _ _ H);
  pose proof (at_cr _ _ _ _ _ _ _ _ H).

Lemma step_plain s W c rest starts start cr :
  squote_char c = false → dquote_char c = false →
  at_ s W (c :: rest) starts start false false cr →
  ∃ s', runs 1 s s' ∧ at_ s' (W ++ [c]) rest starts start false false cr.
Proof.
  intros Hs Hd H. destruct (plain_char_spec c Hs Hd) as (H0 & H34 & H39 & H92 & Hsp).
  exists (sh_write c 1 s). split; [|by eapply at_write]. apply runs_step. shell_run H.
  rewrite (proj2 (Z.eqb_neq c 0)) by done. rewrite H1, H2.
  rewrite (proj2 (Z.eqb_neq c 34)), (proj2 (Z.eqb_neq c 39)), (proj2 (Z.eqb_neq c 92)), Hsp by done. done.
Qed.

Lemma step_quoted s W c rest starts start cr :
  squote_char c = false → arg_char c → at_ s W (c :: rest) starts start true false cr →
  ∃ s', runs 1 s s' ∧ at_ s' (W ++ [c]) rest starts start true false cr.
Proof.
  intros Hs Ha H. destruct (dquote_char_spec c Hs Ha) as (H0 & H34 & H92).
  exists (sh_write c 1 s). split; [|by eapply at_write]. apply runs_step. shell_run H.
  rewrite (proj2 (Z.eqb_neq c 0)) by done. rewrite H1.
  by rewrite (proj2 (Z.eqb_neq c 34)), (proj2 (Z.eqb_neq c 92)) by done.
Qed.

Lemma step_open s W rest starts start cr :
  at_ s W (34 :: rest) starts start false false cr →
  ∃ s', runs 1 s s' ∧ at_ s' W rest starts start true false true.
Proof.
  intros H. eexists. split; [|by eapply (at_skip _ _ _ _ _ _ _ _ _ true false true)].
  apply runs_step. shell_run H. cbn. rewrite H0, H1. done.
Qed.

Lemma step_close s W rest starts start cr :
  at_ s W (34 :: rest) starts start true false cr →
  ∃ s', runs 1 s s' ∧ at_ s' W rest starts start false false cr.
Proof.
  intros H. eexists. split; [|by eapply (at_skip _ _ _ _ _ _ _ _ _ false false cr)].
  apply runs_step. shell_run H. cbn. rewrite H0, H1, H2. done.
Qed.

Lemma step_single s W c rest starts start cr :
  squote_char c = true → at_ s W (39 :: c :: 39 :: rest) starts start false false cr →
  ∃ s', runs 3 s s' ∧ at_ s' (W ++ [c]) rest starts start false false true.
Proof.
  intros Hs H. destruct (squote_char_spec c Hs) as [H0 H39].
  assert (E1 : ∃ s1, runs 1 s s1 ∧ at_ s1 W (c :: 39 :: rest) starts start false true true).
  { eexists. split; [|by eapply (at_skip _ _ _ _ _ _ _ _ _ false true true)].
    apply runs_step. shell_run H. cbn. rewrite H1, H2. done. }
  destruct E1 as (s1 & R1 & A1).
  assert (E2 : ∃ s2, runs 1 s1 s2 ∧ at_ s2 (W ++ [c]) (39 :: rest) starts start false true true).
  { exists (sh_write c 1 s1). split; [|by eapply at_write]. apply runs_step. shell_run A1.
    rewrite (proj2 (Z.eqb_neq c 0)) by done. rewrite H1, H2.
    by rewrite (proj2 (Z.eqb_neq c 39)) by done. }
  destruct E2 as (s2 & R2 & A2).
  assert (E3 : ∃ s3, runs 1 s2 s3 ∧ at_ s3 (W ++ [c]) rest starts start false false true).
  { eexists. split; [|by eapply (at_skip _ _ _ _ _ _ _ _ _ false false true)].
    apply runs_step. shell_run A2. cbn. rewrite H1, H2, H3. done. }
  destruct E3 as (s3 & R3 & A3). exists s3. split; [|done].
  apply (runs_trans 1 2 _ s1); [done|]. by apply (runs_trans 1 1 _ s2).
Qed.

(** ** A whole argument *)

(** The loop reads the text of [s] and has then written [s]. *)
Lemma text_run s : ∀ st W rest starts start q cr,
  Forall arg_char s → at_ st W (qtext q s ++ rest) starts start q false cr →
  ∃ st' cr', runs (length (qtext q s)) st st' ∧ at_ st' (W ++ s) rest starts start false false cr'
    ∧ (cr = true → cr' = true).
Proof.
  induction s as [|c s IH]; intros st W rest starts start q cr Hs H.
  - cbn [qtext] in *. rewrite app_nil_r. destruct q; cbn [app length] in *.
    + destruct (step_close _ _ _ _ _ _ H) as (st' & R & A). by exists st', cr.
    + exists st, cr. split; [apply runs_refl|done].
  - inversion_clear Hs as [|?? Hc Hs'].
    (* what closes or opens a quote before [c] *)
    assert (Hclose : ∀ rest', q = true → at_ st W (34 :: rest') starts start q false cr →
              ∃ st1, runs 1 st st1 ∧ at_ st1 W rest' starts start false false cr).
    { intros rest' -> A. by eapply step_close. }
    assert (Hcont : ∀ k st1 q1 cr1, runs k st st1 → at_ st1 (W ++ [c]) (qtext q1 s ++ rest) starts start q1 false cr1 →
              (cr = true → cr1 = true) →
              ∃ st' cr', runs (k + length (qtext q1 s)) st st' ∧ at_ st' (W ++ c :: s) rest starts start false false cr'
                ∧ (cr = true → cr' = true)).
    { intros k st1 q1 cr1 R A Hcr. destruct (IH _ _ _ _ _ _ _ Hs' A) as (st' & cr' & R' & A' & Hcr').
      exists st', cr'. rewrite <- app_assoc in A'. split; [by eapply runs_trans|]. auto. }
    cbn [qtext] in *. destruct (squote_char c) eqn:Es; [|destruct (dquote_char c) eqn:Ed]; destruct q; cbn [app length] in *.
    + destruct (Hclose _ eq_refl H) as (st1 & R1 & A1).
      destruct (step_single _ _ _ _ _ _ _ Es A1) as (st2 & R2 & A2).
      apply (Hcont 4%nat st2 false true); [by apply (runs_trans 1 3 _ st1)|done..].
    + destruct (step_single _ _ _ _ _ _ _ Es H) as (st2 & R2 & A2). by apply (Hcont 3%nat st2 false true).
    + destruct (step_quoted _ _ _ _ _ _ _ Es Hc H) as (st2 & R2 & A2). by apply (Hcont 1%nat st2 true cr).
    + destruct (step_open _ _ _ _ _ _ H) as (st1 & R1 & A1).
      destruct (step_quoted _ _ _ _ _ _ _ Es Hc A1) as (st2 & R2 & A2).
      apply (Hcont 2%nat st2 true true); [by apply (runs_trans 1 1 _ st1)|done..].
    + destruct (Hclose _ eq_refl H) as (st1 & R1 & A1).
      destruct (step_plain _ _ _ _ _ _ _ Es Ed A1) as (st2 & R2 & A2).
      apply (Hcont 2%nat st2 false cr); [by apply (runs_trans 1 1 _ st1)|done..].
    + destruct (step_plain _ _ _ _ _ _ _ Es Ed H) as (st2 & R2 & A2). by apply (Hcont 1%nat st2 false cr).
Qed.

(** Either something is written for the argument or a quote was seen. *)
Lemma shell_text_run s st W rest starts :
  Forall arg_char s → at_ st W (shell_text s ++ rest) starts (length W) false false false →
  ∃ st' cr', runs (length (shell_text s)) st st' ∧ at_ st' (W ++ s) rest starts (length W) false false cr'
    ∧ ((length W < length (W ++ s))%nat ∨ cr' = true).
Proof.
  intros Hs H. destruct s as [|c s].
  - cbn in *. destruct (step_open _ _ _ _ _ _ H) as (st1 & R1 & A1).
    destruct (step_close _ _ _ _ _ _ A1) as (st2 & R2 & A2). exists st2, true. rewrite app_nil_r.
    split; [by apply (runs_trans 1 1 _ st1)|auto].
  - destruct (text_run _ _ _ _ _ _ _ _ Hs H) as (st' & cr' & R & A & _). exists st', cr'.
    split; [done|]. split; [done|]. left. rewrite length_app. cbn. lia.
Qed.

(** ** The end of an argument *)

Lemma at_delimiter s W d rest starts start cr :
  (start < length W)%nat ∨ cr = true → at_ s W (d :: rest) starts start false false cr →
  at_ (sh_delimiter s) (W ++ [0]) rest (starts ++ [start]) (S (length W)) false false false.
Proof.
  intros Hc A. pose proof (at_write _ _ _ 0 _ _ _ _ _ _ A) as B.
  destruct A as [_ Hj Hst Hq Hsq Hcr Hcmd]. destruct B as [(stale & Hb & Hi) Hj' _ _ _ _ _].
  unfold sh_delimiter. rewrite Hst, Hj, Hcr.
  assert (bool_decide (start < length W)%nat || cr = true) as ->
    by (destruct Hc as [?| ->]; [by rewrite bool_decide_true|apply orb_true_r]).
  split; cbn in *; try done; try congruence. exists stale. split; [done|lia].
Qed.

Lemma step_space s W rest starts start cr :
  (start < length W)%nat ∨ cr = true → at_ s W (32 :: rest) starts start false false cr →
  ∃ s', runs 1 s s' ∧ at_ s' (W ++ [0]) rest (starts ++ [start]) (S (length W)) false false false.
Proof.
  intros Hc H. exists (sh_delimiter s). split; [|by eapply at_delimiter].
  apply runs_step. shell_run H. cbn. by rewrite H0, H1.
Qed.

Lemma step_end s W rest starts start cr :
  (start < length W)%nat ∨ cr = true → at_ s W (0 :: rest) starts start false false cr →
  ∃ s', shell_step s = Some (inr s')
    ∧ at_ s' (W ++ [0]) rest (starts ++ [start]) (S (length W)) false false false.
Proof.
  intros Hc H.
  exists (sh_delimiter (sh_set_quotes false false (sh_did_create s) s)). split.
  - shell_run H. done.
  - eapply at_delimiter; [done|]. by destruct H; split.
Qed.

(** ** All arguments *)

(** The command line for a list of arguments: their texts with a space
    between. *)
Fixpoint command_line (args : list (list Z)) : list Z :=
  match args with
  | [] => []
  | [a] => zuo_string_to_shell_c a
  | a :: args' => zuo_string_to_shell_c a ++ 32 :: command_line args'
  end.

Definition ended (a : list Z) : list Z := a ++ [0].

Fixpoint offsets (at0 : nat) (args : list (list Z)) : list nat :=
  match args with [] => [] | a :: args' => at0 :: offsets (at0 + S (length a)) args' end.

Lemma args_run args : ∀ a st W starts,
  Forall (Forall arg_char) (a :: args) →
  at_ st W (command_line (a :: args) ++ [0]) starts (length W) false false false →
  ∃ st' stale, shell_loop (S (length (command_line (a :: args)))) st = Some st'
    ∧ sh_buf st' = W ++ concat (ended <$> a :: args) ++ stale
    ∧ sh_command st' = starts ++ offsets (length W) (a :: args).
Proof.
  induction args as [|b args IH]; intros a st W starts Hall H; apply Forall_cons in Hall as [Ha Hall].
  - cbn [command_line] in *. rewrite zuo_string_to_shell_c_text in * by done.
    destruct (shell_text_run _ _ _ _ _ Ha H) as (s1 & cr & R1 & A1 & Hne).
    destruct (step_end _ _ _ _ _ _ Hne A1) as (s2 & E & A2).
    destruct A2 as [(stale & Hb & _) _ _ _ _ _ Hcmd]. exists s2, stale.
    rewrite <- (Nat.add_1_r (length _)), R1. cbn [shell_loop]. rewrite E. cbn. split; [done|].
    split; [|done]. rewrite Hb. unfold ended. by rewrite !app_nil_r, <- !app_assoc.
  - change (command_line (a :: b :: args)) with (zuo_string_to_shell_c a ++ 32 :: command_line (b :: args)) in *.
    rewrite zuo_string_to_shell_c_text in * by done. rewrite <- app_assoc in H. cbn [app] in H.
    destruct (shell_text_run _ _ _ _ _ Ha H) as (s1 & cr & R1 & A1 & Hne).
    destruct (step_space _ _ _ _ _ _ Hne A1) as (s2 & R2 & A2).
    assert (El : S (length (W ++ a)) = length ((W ++ a) ++ [0])) by (rewrite !length_app; cbn; lia).
    rewrite El in A2. destruct (IH b s2 _ _ Hall A2) as (st' & stale & E & Hb & Hcmd).
    exists st', stale. rewrite length_app. cbn [length]. rewrite <- Nat.add_succ_r, R1, (R2 _ : shell_loop (S _) _ = _), E.
    split; [done|]. split.
    + rewrite Hb. cbn [fmap list_fmap concat]. unfold ended. by rewrite <- !app_assoc.
    + rewrite Hcmd, <- app_assoc. cbn [app offsets]. rewrite !length_app. cbn [length]. replace (length W + S (length a))%nat with (length W + length a + 1)%nat by lia. done.
Qed.

Lemma c_str_ended a rest : Forall arg_char a → c_str (a ++ 0 :: rest) = a.
Proof.
  induction 1 as [|c a Hc Ha IH]; [done|]. cbn. rewrite (proj2 (Z.eqb_neq c 0)) by (unfold arg_char in Hc; lia).
  by rewrite IH.
Qed.

Lemma offsets_read args : ∀ W stale,
  Forall (Forall arg_char) args →
  (λ n, c_str (drop n (W ++ concat (ended <$> args) ++ stale))) <$> offsets (length W) args = args.
Proof.
  induction args as [|a args IH]; intros W stale Hall; [done|]. apply Forall_cons in Hall as [Ha Hall].
  cbn [offsets fmap list_fmap concat]. unfold ended at 1. f_equal.
  - rewrite drop_app_length, <- !app_assoc. by apply c_str_ended.
  - specialize (IH (W ++ a ++ [0]) stale Hall). rewrite !length_app, Nat.add_1_r in IH. 
    etrans; [|exact IH]. apply list_fmap_ext. intros ? n _. unfold ended at 1. by rewrite <- !app_assoc.
Qed.

Lemma split_command_line args :
  Forall (Forall arg_char) args → zuo_shell_to_strings_c (command_line args) = Some args.
Proof.
  intros Hall. unfold zuo_shell_to_strings_c. destruct args as [|a args]; [done|].
  destruct (args_run args a (ShellSt (command_line (a :: args) ++ [0]) 0 0 0 false false false []) [] [] Hall)
    as (st & stale & -> & Hb & Hcmd).
  { split; try done. by exists []. }
  cbn [mbind option_bind]. rewrite Hb, Hcmd. f_equal. apply (offsets_read (a :: args) [] stale Hall).
Qed.

(** ** Strings in the heap *)

Definition strings_at (s : st) (ls : list loc) (bs : list (list Z)) : Prop :=
  Forall2 (λ l b, s_heap s !! l = Some (Ostring b)) ls bs.

Lemma strings_at_grows s s' hn ls bs : grows s s' hn → strings_at s ls bs → strings_at s' ls bs.
Proof. intros Hg H. eapply Forall2_impl; [exact H|]. intros l b. by eapply grows_lookup. Qed.

(** [string->shell] on each string of a list. *)
Fixpoint shell_all (ls : list loc) : M (list loc) :=
  match ls with
  | [] => ret []
  | l :: ls' => q <- zuo_string_to_shell l ;; qs <- shell_all ls' ;; ret (q :: qs)
  end.

(** The texts with a space between. *)
Fixpoint joined (ts : list (list Z)) : list Z :=
  match ts with
  | [] => []
  | [t] => t
  | t :: ts' => t ++ 32 :: joined ts'
  end.

Lemma command_line_joined args : command_line args = joined (zuo_string_to_shell_c <$> args).
Proof. induction args as [|a [|b args] IH]; [done..|]. change (command_line (a :: b :: args)) with (zuo_string_to_shell_c a ++ 32 :: command_line (b :: args)). by rewrite IH. Qed.

Lemma qtext_chars s : ∀ quoting, Forall arg_char s → Forall arg_char (qtext quoting s).
Proof.
  induction s as [|c s IH]; intros quoting Hs; cbn; [destruct quoting; by repeat constructor|].
  apply Forall_cons in Hs as [Hc Hs]. pose proof (IH false Hs). pose proof (IH true Hs).
  repeat case_match; cbn; repeat (constructor; [done|]); try done.
Qed.

Lemma zuo_string_to_shell_ok s l b :
  mem_ok (s_mem s) → s_heap s !! l = Some (Ostring b) → Forall arg_char b →
  ∃ q s' hn, zuo_string_to_shell l s = Ok q s' ∧ grows s s' hn ∧ s_heap s' !! q = Some (Ostring (zuo_string_to_shell_c b)).
Proof.
  intros Hm Hl Hb. unfold zuo_string_to_shell, check_string. rewrite bind_assoc. run_step (has_tag_ok _ _ _ zuo_string_tag Hl).
  rewrite bool_decide_true by done. cbn [negb]. rewrite (bind_ok (ret tt) _ _ _ _ eq_refl). run_step (ZUO_STRING_PTR_ok _ _ _ Hl).
  destruct (allocates_grows _ _ s (zuo_string_ok (zuo_string_to_shell_c b)) Hm) as (q & s' & E & _ & Hg).
  exists q, s'. eexists. split; [done|]. split; [exact Hg|]. rewrite (grows_new _ _ _ _ Hg), c_str_id; [done|].
  rewrite zuo_string_to_shell_c_text by done. assert (Hq : Forall arg_char (shell_text b)) by (destruct b; [by repeat constructor|by apply qtext_chars]).
  eapply Forall_impl; [exact Hq|]. unfold arg_char. cbn. lia.
Qed.

Lemma shell_all_ok ls : ∀ s args,
  mem_ok (s_mem s) → strings_at s ls args → Forall (Forall arg_char) args →
  ∃ qs s' hn, shell_all ls s = Ok qs s' ∧ grows s s' hn ∧ strings_at s' qs (zuo_string_to_shell_c <$> args).
Proof.
  induction ls as [|l ls IH]; intros s args Hm Hl Ha; cbn [shell_all].
  - apply Forall2_nil_inv_l in Hl as ->. exists [], s, ∅. split; [done|]. split; [by apply grows_refl|constructor].
  - apply Forall2_cons_inv_l in Hl as (a & args' & Hl & Hls & ->). apply Forall_cons in Ha as [Ha Has].
    destruct (zuo_string_to_shell_ok s l a Hm Hl Ha) as (q & s1 & hn1 & E1 & G1 & Hq). run_step E1.
    destruct (IH s1 args' (gr_ok _ _ _ G1) (strings_at_grows _ _ _ _ _ G1 Hls) Has) as (qs & s2 & hn2 & E2 & G2 & Hqs). run_step E2.
    exists (q :: qs), s2, (hn2 ∪ hn1). split; [done|]. split; [by eapply grows_trans|]. constructor; [by eapply grows_lookup|done].
Qed.

Lemma strings_list_ok args : ∀ s,
  image_ok s → Forall (Forall arg_char) args →
  ∃ l rs s' hn, strings_list args s = Ok l s' ∧ grows s s' hn ∧ is_list (s_heap s') (o_null (s_img s)) l rs ∧ strings_at s' rs args.
Proof.
  induction args as [|a args IH]; intros s Hs Ha; cbn [strings_list].
  - exists (o_null (s_img s)), [], s, ∅. split; [done|]. split; [apply grows_refl, Hs|]. split; [done|constructor].
  - apply Forall_cons in Ha as [Ha Has]. destruct (IH s Hs Has) as (d & rs & s1 & hn1 & E1 & G1 & Hd & Hrs). run_step E1.
    destruct (allocates_grows _ _ s1 (zuo_string_ok a) (gr_ok _ _ _ G1)) as (str & s2 & E2 & _ & G2). run_step E2.
    rewrite c_str_id in G2 by (eapply Forall_impl; [exact Ha|]; unfold arg_char; cbn; lia).
    pose proof (grows_trans _ _ _ _ _ G1 G2) as G12. pose proof (image_ok_grows _ _ _ Hs G12) as Hs2.
    pose proof (image_list_pre _ Hs2) as Hpre. rewrite (gr_img _ _ _ G12) in Hpre.
    destruct (zuo_cons_list _ s2 str d rs Hpre (is_list_grows _ _ _ _ _ _ G2 Hd)) as (p & s3 & E3 & G3 & Hp).
    exists p, (str :: rs), s3. eexists. split; [exact E3|]. split; [exact (grows_trans _ _ _ _ _ G12 G3)|]. split; [done|].
    apply (strings_at_grows _ _ _ _ _ G3). constructor; [exact (grows_new _ _ _ _ G2)|exact (strings_at_grows _ _ _ _ _ G2 Hrs)].
Qed.

(** C16. Quoting and splitting are inverse on Unix, for strings of bytes other
    than 0: [string->shell] on each string of a list makes new strings, and
    [shell->strings] on any string that is made of their texts with one space
    between them, then or in a later state, returns a list of strings with the
    original contents, in the order of the arguments.  Empty arguments and the
    characters that a shell treats specially come back; nothing is read beyond
    the command line, and both only add objects to the heap. *)
Theorem shell_quote_split s ls args starts_exe :
  image_ok s → strings_at s ls args → Forall (Forall arg_char) args →
  ∃ qs texts s1 hn1, shell_all ls s = Ok qs s1 ∧ strings_at s1 qs texts ∧ grows s s1 hn1
    ∧ ∀ s2 str, image_ok s2 → s_heap s2 !! str = Some (Ostring (joined texts)) →
      ∃ l rs s3 hn3, zuo_shell_to_strings str starts_exe s2 = Ok l s3 ∧ grows s2 s3 hn3
        ∧ is_list (s_heap s3) (o_null (s_img s2)) l rs ∧ strings_at s3 rs args.
Proof.
  intros Hs Hl Ha. destruct (shell_all_ok ls s args (im_mem _ Hs) Hl Ha) as (qs & s1 & hn1 & E1 & G1 & Hq).
  exists qs, (zuo_string_to_shell_c <$> args), s1, hn1. do 3 (split; [done|]). intros s2 str Hs2 Hstr.
  unfold zuo_shell_to_strings, check_string. rewrite bind_assoc. run_step (has_tag_ok _ _ _ zuo_string_tag Hstr).
  rewrite bool_decide_true by done. cbn [negb]. rewrite (bind_ok (ret tt) _ _ _ _ eq_refl). run_step (ZUO_STRING_PTR_ok _ _ _ Hstr).
  rewrite <- command_line_joined, (split_command_line _ Ha). by apply strings_list_ok.
Qed.

(** A state with some strings *)
Definition words : list (list Z) := [bytes_of "cc"; bytes_of "a b"; []; bytes_of "$x'y"].

Definition with_words : list loc * st :=
  match (a <- zuo_string (bytes_of "cc") ;; b <- zuo_string (bytes_of "a b") ;; c <- zuo_string [] ;; d <- zuo_string (bytes_of "$x'y") ;;
         ret [a; b; c; d]) booted with
  | Ok ls s => (ls, s)
  | _ => ([], booted)
  end.

Lemma with_words_ok : image_ok (snd with_words) ∧ strings_at (snd with_words) (fst with_words) words.
Proof.
  destruct (allocates_grows _ _ booted (zuo_string_ok (bytes_of "cc")) booted_ok) as (a & s1 & E1 & _ & G1).
  destruct (allocates_grows _ _ s1 (zuo_string_ok (bytes_of "a b")) (gr_ok _ _ _ G1)) as (b & s2 & E2 & _ & G2).
  destruct (allocates_grows _ _ s2 (zuo_string_ok []) (gr_ok _ _ _ G2)) as (c & s3 & E3 & _ & G3).
  destruct (allocates_grows _ _ s3 (zuo_string_ok (bytes_of "$x'y")) (gr_ok _ _ _ G3)) as (d & s4 & E4 & _ & G4).
  unfold with_words. rewrite (bind_ok _ _ _ _ _ E1), (bind_ok _ _ _ _ _ E2), (bind_ok _ _ _ _ _ E3), (bind_ok _ _ _ _ _ E4).
  cbn [fst snd]. pose proof (grows_trans _ _ _ _ _ G3 G4) as G34. pose proof (grows_trans _ _ _ _ _ G2 G34) as G24.
  split; [exact (image_ok_grows _ _ _ booted_image (grows_trans _ _ _ _ _ G1 G24))|].
  constructor; [exact (grows_lookup _ _ _ _ _ G24 (grows_new _ _ _ _ G1))|].
  constructor; [exact (grows_lookup _ _ _ _ _ G34 (grows_new _ _ _ _ G2))|].
  constructor; [exact (grows_lookup _ _ _ _ _ G4 (grows_new _ _ _ _ G3))|].
  constructor; [exact (grows_new _ _ _ _ G4)|constructor].
Qed.

Lemma shell_quote_split_witness :
  ∃ qs texts s1 hn1, shell_all (fst with_words) (snd with_words) = Ok qs s1 ∧ strings_at s1 qs texts ∧ grows (snd with_words) s1 hn1
    ∧ ∀ s2 str, image_ok s2 → s_heap s2 !! str = Some (Ostring (joined texts)) →
      ∃ l rs s3 hn3, zuo_shell_to_strings str 0 s2 = Ok l s3 ∧ grows s2 s3 hn3
        ∧ is_list (s_heap s3) (o_null (s_img s2)) l rs ∧ strings_at s3 rs words.
Proof.
  destruct with_words_ok as [H1 H2]. refine (shell_quote_split (snd with_words) (fst with_words) words 0 H1 H2 _).
  repeat constructor.
Defined.
