(* ===== verification/ListSpec.v ===== *)
(** * The list primitives

    [length], [reverse], [append], [list-ref] and [list-set] on the lists that
    [is_list] describes. *)

From S2P Require Import Prelude Sys Heap Alloc Gc GcCorrect Objects Trie Lists ImageOk Intern Sort Printer Reader Prims Interp Path Module Shell Sha256 Fasl Init Boot.

Abbreviation null_of s := (o_null (s_img s)).

(** ** Walking along a list *)

Lemma null_single s : image_ok s → s_heap s !! null_of s = Some Osingleton.
Proof. intros H. apply (image_single s); [done|]. unfold singletons. set_solver. Qed.

(** The test of the loops over lists. *)
Lemma list_tag s l vs :
  image_ok s → is_list (s_heap s) (null_of s) l vs →
  has_tag zuo_pair_tag l s = Ok (match vs with [] => false | _ :: _ => true end) s.
Proof.
  intros Him Hl. destruct vs as [|v vs]; cbn in Hl.
  - subst. by rewrite (has_tag_ok _ _ _ _ (null_single s Him)).
  - destruct Hl as (d & _ & Hl & _). by rewrite (has_tag_ok _ _ _ _ Hl).
Qed.

Lemma list_car s l v vs : is_list (s_heap s) (null_of s) l (v :: vs) → ZUO_CAR l s = Ok v s.
Proof. intros (d & _ & Hl & _). by eapply ZUO_CAR_ok. Qed.
Lemma list_cdr s l v vs :
  is_list (s_heap s) (null_of s) l (v :: vs) →
  ∃ d, ZUO_CDR l s = Ok d s ∧ is_list (s_heap s) (null_of s) d vs.
Proof. intros (d & _ & Hl & Hd). exists d. split; [by eapply ZUO_CDR_ok|done]. Qed.

Lemma last_cdr_ok s fuel : ∀ l vs,
  image_ok s → is_list (s_heap s) (null_of s) l vs → (length vs < fuel)%nat →
  last_cdr fuel l s = Ok (null_of s) s.
Proof.
  induction fuel as [|fuel IH]; intros l vs Him Hl Hf; [lia|]. cbn [last_cdr].
  run_step (list_tag _ _ _ Him Hl). destruct vs as [|v vs]; [by cbn in Hl; subst|].
  destruct (list_cdr _ _ _ _ Hl) as (d & Ed & Hd). run_step Ed. apply (IH d vs); [done|done|cbn in Hf; lia].
Qed.

Lemma length_loop_ok s fuel : ∀ l vs n,
  image_ok s → is_list (s_heap s) (null_of s) l vs → (length vs < fuel)%nat →
  length_loop fuel l n s = Ok (null_of s, n + Z.of_nat (length vs)) s.
Proof.
  induction fuel as [|fuel IH]; intros l vs n Him Hl Hf; [lia|]. cbn [length_loop].
  run_step (list_tag _ _ _ Him Hl). destruct vs as [|v vs].
  - cbn in Hl |- *. subst. by rewrite Z.add_0_r.
  - destruct (list_cdr _ _ _ _ Hl) as (d & Ed & Hd). run_step Ed.
    rewrite (IH d vs); [|done|done|cbn in Hf; lia]. f_equal. f_equal. cbn [length]. lia.
Qed.

Lemma zuo_list_p_ok s l vs :
  image_ok s → is_list (s_heap s) (null_of s) l vs → zuo_list_p l s = Ok (o_true (s_img s)) s.
Proof.
  intros Him Hl. unfold zuo_list_p. rewrite (bind_ok get_st _ _ _ _ eq_refl).
  run_step (last_cdr_ok s _ l vs Him Hl (is_list_heap_fuel _ _ _ _ Hl)).
  unfold zuo_null_p. by run_step (is_zi_eq o_null (null_of s) s eq_refl).
Qed.

Lemma zuo_length_int_ok s l vs :
  image_ok s → is_list (s_heap s) (null_of s) l vs → zuo_length_int l s = Ok (Z.of_nat (length vs)) s.
Proof.
  intros Him Hl. unfold zuo_length_int. rewrite (bind_ok get_st _ _ _ _ eq_refl).
  run_step (length_loop_ok s _ l vs 0 Him Hl (is_list_heap_fuel _ _ _ _ Hl)). cbn [fst snd].
  by run_step (is_zi_eq o_null (null_of s) s eq_refl).
Qed.

(** ** [reverse] *)

Lemma reverse_loop_ok fuel : ∀ s l r vs ws,
  image_ok s → is_list (s_heap s) (null_of s) l vs → is_list (s_heap s) (null_of s) r ws →
  (length vs < fuel)%nat →
  ∃ r' s' hn, reverse_loop fuel l r s = Ok (null_of s, r') s' ∧ grows s s' hn
    ∧ is_list (s_heap s') (null_of s) r' (reverse vs ++ ws).
Proof.
  induction fuel as [|fuel IH]; intros s l r vs ws Him Hl Hr Hf; [lia|]. cbn [reverse_loop].
  run_step (list_tag _ _ _ Him Hl). destruct vs as [|v vs].
  - cbn in Hl. subst. exists r, s, ∅. split; [done|]. split; [apply grows_refl; apply Him|done].
  - run_step (list_car _ _ _ _ Hl).
    destruct (zuo_cons_list _ s v r ws (image_list_pre s Him) Hr) as (p & s1 & E1 & Hg1 & Hp). run_step E1.
    pose proof (is_list_grows _ _ _ _ _ _ Hg1 Hl) as Hl1. rewrite <- (gr_img _ _ _ Hg1) in Hl1.
    destruct (list_cdr _ _ _ _ Hl1) as (d & Ed & Hd). run_step Ed.
    destruct (IH s1 d p vs (v :: ws)) as (r' & s' & hn & E & Hg & Hr');
      [by eapply image_ok_grows|done|by rewrite (gr_img _ _ _ Hg1)|cbn in Hf; lia|].
    rewrite (gr_img _ _ _ Hg1) in E, Hr'. exists r', s'. eexists. split; [done|].
    split; [by eapply grows_trans|]. by rewrite reverse_cons, <- app_assoc.
Qed.

(** ** [append] *)

(** The cells copied so far; [last] is 0 as long as there is none. *)
Definition appending (s0 s : st) (hn : gmap Z obj) (cs : list loc) (first last : loc) (ws : list loc) : Prop :=
  grows s0 s hn ∧ seg (null_of s0) hn cs first last ws ∧ (last = 0 ↔ cs = []).

Lemma append_link_ok s0 s hn cs first last ws x :
  image_ok s0 → appending s0 s hn cs first last ws →
  ∃ p first' s' hn' cs', (p <- zuo_cons x (null_of s0) ;; append_link first last p) s = Ok (first', p) s'
    ∧ appending s0 s' hn' cs' first' p (ws ++ [x]).
Proof.
  intros Him (Hg & Hseg & Hlast).
  pose proof (list_pre_grows _ _ _ _ (image_list_pre s0 Him) Hg) as Hpre.
  destruct (zuo_cons_ok x (null_of s0) s (lp_ok _ _ Hpre)) as (p' & s1' & E' & [_ Hp0 _ _ _ _ _] & _).
  destruct (zuo_cons_grows _ s x (null_of s0) Hpre) as (p & s1 & E & Hp & Hpn & Hg1).
  rewrite E' in E. injection E as -> ->.
  destruct (seg_link s0 s hn (null_of s0) cs first last ws x p s1 Hg Hseg Hp Hg1 Hpn)
    as (s2 & hn2 & E2 & Hg2 & Hseg2 & _).
  pose proof (seg_first_nil _ _ _ _ _ _ Hseg) as Hfn.
  exists p, (if bool_decide (first = null_of s0) then p else first), s2, hn2, (cs ++ [p]). split.
  - run_step E'. unfold append_link. destruct (decide (last = 0)) as [Hz|Hz].
    + rewrite bool_decide_true in E2 |- * by tauto. unfold ret in *. by injection E2 as <-.
    + rewrite bool_decide_false in E2 |- * by tauto. by run_step E2.
  - split; [done|]. split; [done|]. split; [lia|]. by intros []%app_nil.
Qed.

Lemma append_copy_ok s0 fuel : ∀ s hn cs first last ws a vs,
  image_ok s0 → appending s0 s hn cs first last ws → is_list (s_heap s0) (null_of s0) a vs →
  (length vs < fuel)%nat →
  ∃ first' last' s' hn' cs', append_copy fuel a first last s = Ok (null_of s0, first', last') s'
    ∧ appending s0 s' hn' cs' first' last' (ws ++ vs).
Proof.
  induction fuel as [|fuel IH]; intros s hn cs first last ws a vs Him Hap Ha Hf; [lia|]. cbn [append_copy].
  pose proof Hap as (Hg & _). pose proof (image_ok_grows _ _ _ Him Hg) as Him1.
  pose proof (is_list_grows _ _ _ _ _ _ Hg Ha) as Ha1. pose proof (gr_img _ _ _ Hg) as Hi.
  rewrite <- Hi in Ha1. run_step (list_tag _ _ _ Him1 Ha1). destruct vs as [|v vs].
  - cbn in Ha. subst a. exists first, last, s, hn, cs. rewrite app_nil_r. done.
  - run_step (list_car _ _ _ _ Ha1). rewrite (bind_ok (zi o_null) _ _ _ _ eq_refl), Hi.
    destruct (append_link_ok s0 s hn cs first last ws v Him Hap) as (p & first' & s1 & hn1 & cs1 & E1 & Hap1).
    rewrite <- bind_assoc, (bind_ok _ _ _ _ _ E1). cbn [fst snd].
    pose proof Hap1 as (Hg1 & _). pose proof (is_list_grows _ _ _ _ _ _ Hg1 Ha) as Ha2.
    rewrite <- (gr_img _ _ _ Hg1) in Ha2. destruct (list_cdr _ _ _ _ Ha2) as (d & Ed & _). run_step Ed.
    destruct Ha as (d' & _ & Hl & Hd').
    assert (d = d') as ->.
    { assert (E : ZUO_CDR a s1 = Ok d' s1) by (eapply ZUO_CDR_ok, grows_lookup; done). congruence. }
    destruct (IH s1 hn1 cs1 first' p (ws ++ [v]) d' vs Him Hap1 Hd') as (f & l & s' & hn' & cs' & E & Hap'); [cbn in Hf; lia|].
    rewrite <- app_assoc in Hap'. exists f, l, s', hn', cs'. done.
Qed.

(** The lists [ls], but the last of them, hold [vss]. *)
Lemma append_loop_ok s0 fuel : ∀ s hn cs first last ws l ls vss lst,
  image_ok s0 → appending s0 s hn cs first last ws →
  is_list (s_heap s0) (null_of s0) l (ls ++ [lst]) → Forall2 (is_list (s_heap s0) (null_of s0)) ls vss →
  (length ls < fuel)%nat →
  ∃ l' first' last' s' hn' cs', append_loop fuel l first last s = Ok (l', first', last') s'
    ∧ appending s0 s' hn' cs' first' last' (ws ++ concat vss)
    ∧ is_list (s_heap s0) (null_of s0) l' [lst].
Proof.
  induction fuel as [|fuel IH]; intros s hn cs first last ws l ls vss lst Him Hap Hl HF Hf; [lia|]. cbn [append_loop].
  pose proof Hap as (Hg & _). pose proof (image_ok_grows _ _ _ Him Hg) as Him1.
  pose proof (is_list_grows _ _ _ _ _ _ Hg Hl) as Hl1. pose proof (gr_img _ _ _ Hg) as Hi.
  rewrite <- Hi in Hl1. run_step (list_tag _ _ _ Him1 Hl1).
  destruct ls as [|a ls]; inversion HF as [|? vs ? vss' Ha HF']; subst.
  - cbn [app] in *. rewrite bind_assoc.
    destruct (list_cdr _ _ _ _ Hl1) as (d & Ed & Hd). run_step Ed. run_step (list_tag _ _ _ Him1 Hd).
    exists l, first, last, s, hn, cs. cbn [concat]. rewrite app_nil_r. done.
  - cbn [app] in Hl, Hl1 |- *. rewrite bind_assoc.
    destruct (list_cdr _ _ _ _ Hl1) as (d & Ed & Hd). run_step Ed. run_step (list_tag _ _ _ Him1 Hd).
    replace (match ls ++ [lst] with [] => false | _ => true end) with true by (by destruct ls).
    run_step (list_car _ _ _ _ Hl1). rewrite (bind_ok get_st _ _ _ _ eq_refl).
    destruct (append_copy_ok s0 (heap_fuel s) s hn cs first last ws a vs Him Hap Ha) as (f & la & s1 & hn1 & cs1 & E1 & Hap1).
    { apply (is_list_heap_fuel s (null_of s0) a). by eapply is_list_grows. }
    rewrite (bind_ok _ _ _ _ _ E1). pose proof Hap1 as (Hg1 & _). pose proof (gr_img _ _ _ Hg1) as Hi1.
    rewrite (bind_ok _ _ _ _ _ (is_zi_eq o_null (null_of s0) s1 ltac:(congruence))).
    pose proof (is_list_grows _ _ _ _ _ _ Hg1 Hl) as Hl2.
    destruct Hl as (d' & _ & Hd0 & Hd').
    rewrite (bind_ok _ _ _ _ _ (ZUO_CDR_ok _ _ _ _ (grows_lookup _ _ _ _ _ Hg1 Hd0))).
    destruct (IH s1 hn1 cs1 f la (ws ++ vs) d' ls vss' lst Him Hap1 Hd' HF') as (l' & f' & la' & s' & hn' & cs' & E & Hap' & Hl');
      [cbn in Hf; lia|].
    exists l', f', la', s', hn', cs'. cbn [concat]. by rewrite app_assoc.
Qed.

(** A list of the start is a list after cells of the copy have changed. *)
Lemma copy_keeps s0 s hn cs first last ws l vs h' :
  grows s0 s hn → seg (null_of s0) hn cs first last ws → is_list (s_heap s0) (null_of s0) l vs →
  (∀ a, a ∉ cs → h' !! a = s_heap s !! a) → is_list h' (null_of s0) l vs.
Proof.
  intros Hg Hseg Hl Hh. eapply is_list_weaken; [|exact Hl]. apply map_subseteq_spec. intros a o Ha.
  rewrite Hh; [by eapply grows_lookup|]. intros Hin. destruct (seg_dom _ _ _ _ _ _ _ Hseg Hin) as [o' Ho'].
  pose proof (map_disjoint_Some_l _ _ _ _ (gr_disj _ _ _ Hg) Ho'). congruence.
Qed.

(** [append] joins its arguments: applied to lists with the elements [vss]
    and a last list with the elements [ws], it returns a list of all elements in
    order, and no existing object changes (the arguments are not modified; the
    last one is shared, not copied). *)
Theorem append_correct s objs ls lst vss ws :
  image_ok s → is_list (s_heap s) (null_of s) objs (ls ++ [lst]) →
  Forall2 (is_list (s_heap s) (null_of s)) ls vss → is_list (s_heap s) (null_of s) lst ws →
  ∃ r s' hn, zuo_append objs s = Ok r s' ∧ grows s s' hn
    ∧ is_list (s_heap s') (null_of s') r (concat vss ++ ws).
Proof.
  intros Him Hobjs HF Hlst. unfold zuo_append.
  rewrite (bind_ok get_st _ _ _ _ eq_refl), (bind_ok (zi o_null) _ _ _ _ eq_refl).
  assert (Hap : appending s s ∅ [] (null_of s) 0 []).
  { split; [apply grows_refl, Him|]. split; [apply seg_nil|done]. }
  pose proof (is_list_heap_fuel _ _ _ _ Hobjs) as Hfuel. rewrite length_app in Hfuel. cbn in Hfuel.
  destruct (append_loop_ok s (heap_fuel s) s ∅ [] _ _ [] objs ls vss lst Him Hap Hobjs HF)
    as (l' & first & last & s1 & hn & cs & E & (Hg & Hseg & Hlast) & Hl'); [lia|].
  rewrite (bind_ok _ _ _ _ _ E). pose proof (gr_img _ _ _ Hg) as Hi.
  pose proof (is_list_grows _ _ _ _ _ _ Hg Hl') as Hl1. rewrite <- Hi in Hl1.
  pose proof (image_ok_grows _ _ _ Him Hg) as Him1.
  rewrite (bind_ok _ _ _ _ _ (list_tag _ _ _ Him1 Hl1)), (bind_ok _ _ _ _ _ (list_car _ _ _ _ Hl1)).
  destruct (decide (last = 0)) as [Hz|Hz].
  - apply Hlast in Hz as ->. exists lst, s1, hn. split; [done|]. split; [done|].
    destruct Hseg as [_ _ _ _ Hcells]. destruct (concat vss) eqn:Ec; [|done]. cbn [app]. rewrite Hi.
    by eapply is_list_grows.
  - destruct (seg_close s s1 hn (null_of s) cs first last (concat vss) lst ws Hg Hseg) as (s2 & hn2 & E2 & Hg2 & Hr).
    { tauto. } { intros h' Hh'. by eapply copy_keeps. }
    rewrite (bind_ok _ _ _ _ _ E2). exists first, s2, hn2. split; [done|]. split; [done|].
    by rewrite (gr_img _ _ _ Hg2).
Qed.

(** [reverse] returns a list of the same elements in reverse order and
    changes no existing object. *)
Theorem reverse_correct s l vs :
  image_ok s → is_list (s_heap s) (null_of s) l vs →
  ∃ r s' hn, zuo_reverse l s = Ok r s' ∧ grows s s' hn
    ∧ is_list (s_heap s') (null_of s') r (reverse vs).
Proof.
  intros Him Hl. unfold zuo_reverse.
  rewrite (bind_ok get_st _ _ _ _ eq_refl), (bind_ok (zi o_null) _ _ _ _ eq_refl).
  destruct (reverse_loop_ok (heap_fuel s) s l (null_of s) vs [] Him Hl eq_refl (is_list_heap_fuel _ _ _ _ Hl))
    as (r & s' & hn & E & Hg & Hr).
  run_step E. cbn [fst snd]. run_step (is_zi_eq o_null (null_of s) s' ltac:(by rewrite (gr_img _ _ _ Hg))).
  exists r, s', hn. rewrite app_nil_r in Hr. rewrite (gr_img _ _ _ Hg). done.
Qed.

(** ** [list-ref] and [list-set] *)

Lemma list_index_ok s who index i :
  s_heap s !! index = Some (Ointeger i) → 0 ≤ i → list_index who index s = Ok i s.
Proof.
  intros Hi Hpos. unfold list_index. run_step (has_tag_ok _ _ _ zuo_integer_tag Hi).
  rewrite bool_decide_true by done. run_step (ZUO_INT_I_ok _ _ _ Hi).
  by rewrite (proj2 (Z.ltb_ge i 0)).
Qed.

Lemma list_tail_loop_ok s fuel : ∀ l vs i,
  image_ok s → is_list (s_heap s) (null_of s) l vs → 0 ≤ i → (length vs < fuel)%nat →
  ∃ l', list_tail_loop fuel l i s = Ok l' s ∧ is_list (s_heap s) (null_of s) l' (drop (Z.to_nat i) vs).
Proof.
  induction fuel as [|fuel IH]; intros l vs i Him Hl Hi Hf; [lia|]. cbn [list_tail_loop].
  destruct (Z.ltb_spec 0 i) as [Hpos|Hz].
  - run_step (list_tag _ _ _ Him Hl). destruct vs as [|v vs].
    + exists l. split; [done|]. by rewrite drop_nil.
    + destruct (list_cdr _ _ _ _ Hl) as (d & Ed & Hd). run_step Ed.
      destruct (IH d vs (i - 1) Him Hd) as (l' & E & Hl'); [lia|cbn in Hf; lia|]. exists l'. split; [done|].
      replace (Z.to_nat i) with (S (Z.to_nat (i - 1))) by lia. done.
  - exists l. split; [done|]. by replace (Z.to_nat i) with 0%nat by lia.
Qed.

(** [list-ref] on a list and an integer object: the element at the index, or
    the error for a list that is too short; a negative index is an error as
    well. *)
Theorem list_ref_correct s l vs index i :
  image_ok s → is_list (s_heap s) (null_of s) l vs → s_heap s !! index = Some (Ointeger i) →
  match (if decide (0 ≤ i) then vs !! Z.to_nat i else None) with
  | Some v => zuo_list_ref l index s = Ok v s
  | None => ∃ who what x, zuo_list_ref l index s = Fail (Efail1w who what x) s
  end.
Proof.
  intros Him Hl Hi. unfold zuo_list_ref. cbn zeta. case_decide as Hpos.
  - run_step (list_index_ok s (bytes_of "list-ref") index i Hi Hpos).
    rewrite (bind_ok get_st _ _ _ _ eq_refl).
    destruct (list_tail_loop_ok s (heap_fuel s) l vs i Him Hl Hpos (is_list_heap_fuel _ _ _ _ Hl)) as (l' & E & Hl').
    run_step E. run_step (list_tag _ _ _ Him Hl').
    destruct (vs !! Z.to_nat i) as [v|] eqn:Ev.
    + rewrite (drop_S _ _ _ Ev) in Hl' |- *. by apply list_car in Hl'.
    + apply lookup_ge_None in Ev. rewrite drop_ge by done. do 3 eexists. done.
  - unfold list_index. unfold bind at 1. run_step (has_tag_ok _ _ _ zuo_integer_tag Hi).
    rewrite bool_decide_true by done. run_step (ZUO_INT_I_ok _ _ _ Hi).
    rewrite (proj2 (Z.ltb_lt i 0)) by lia. do 3 eexists. done.
Qed.

Lemma list_copy_loop_ok s0 fuel : ∀ s hn cs first last ws l vs i,
  image_ok s0 → grows s0 s hn → seg (null_of s0) hn cs first last ws →
  is_list (s_heap s0) (null_of s0) l vs → 0 ≤ i → (length vs < fuel)%nat →
  ∃ first' last' l' s' hn' cs', list_copy_loop fuel l i first last s = Ok (first', last', l') s'
    ∧ grows s0 s' hn' ∧ seg (null_of s0) hn' cs' first' last' (ws ++ take (Z.to_nat i) vs)
    ∧ is_list (s_heap s0) (null_of s0) l' (drop (Z.to_nat i) vs).
Proof.
  induction fuel as [|fuel IH]; intros s hn cs first last ws l vs i Him Hg Hseg Hl Hi Hf; [lia|]. cbn [list_copy_loop].
  pose proof (image_ok_grows _ _ _ Him Hg) as Him1. pose proof (gr_img _ _ _ Hg) as Hz.
  pose proof (is_list_grows _ _ _ _ _ _ Hg Hl) as Hl1. rewrite <- Hz in Hl1.
  destruct (Z.ltb_spec 0 i) as [Hpos|Hle].
  2:{ rewrite (bind_ok (ret false) _ _ _ _ eq_refl). exists first, last, l, s, hn, cs.
      replace (Z.to_nat i) with 0%nat by lia. rewrite take_0, app_nil_r. done. }
  run_step (list_tag _ _ _ Him1 Hl1). destruct vs as [|v vs].
  - exists first, last, l, s, hn, cs. rewrite take_nil, drop_nil, app_nil_r. done.
  - run_step (list_car _ _ _ _ Hl1). rewrite (bind_ok (zi o_null) _ _ _ _ eq_refl), Hz.
    pose proof (list_pre_grows _ _ _ _ (image_list_pre s0 Him) Hg) as Hpre.
    destruct (zuo_cons_grows _ s v (null_of s0) Hpre) as (p & s1 & E & Hp & Hpn & Hg1). run_step E.
    destruct (seg_link s0 s hn (null_of s0) cs first last ws v p s1 Hg Hseg Hp Hg1 Hpn)
      as (s2 & hn2 & E2 & Hg2 & Hseg2 & _).
    rewrite (bind_ok _ _ _ _ _ (is_null_ok _ s1 first (list_pre_grows _ _ _ _ Hpre Hg1))).
    rewrite (bind_ok _ _ _ _ _ E2). destruct Hl as (d & _ & Hd0 & Hd).
    rewrite (bind_ok _ _ _ _ _ (ZUO_CDR_ok _ _ _ _ (grows_lookup _ _ _ _ _ Hg2 Hd0))).
    destruct (IH s2 hn2 _ _ p _ d vs (i - 1) Him Hg2 Hseg2 Hd) as (f' & la' & l' & s' & hn' & cs' & E3 & Hg3 & Hs3 & Hl3);
      [lia|cbn in Hf; lia|].
    exists f', la', l', s', hn', cs'. split; [done|]. split; [done|].
    replace (Z.to_nat i) with (S (Z.to_nat (i - 1))) by lia. cbn [take drop].
    rewrite <- app_assoc in Hs3. done.
Qed.

(** [list-set] on a list and an index within it returns the list with that
    element replaced; the list that was given keeps its elements. *)
Theorem list_set_correct s l vs index i v :
  image_ok s → is_list (s_heap s) (null_of s) l vs → s_heap s !! index = Some (Ointeger i) →
  0 ≤ i < Z.of_nat (length vs) →
  ∃ r s' hn, zuo_list_set l index v s = Ok r s' ∧ grows s s' hn
    ∧ is_list (s_heap s') (null_of s') r (<[Z.to_nat i := v]> vs)
    ∧ is_list (s_heap s') (null_of s') l vs.
Proof.
  intros Him Hl Hi Hr. unfold zuo_list_set. cbn zeta.
  run_step (list_index_ok s (bytes_of "list-set") index i Hi ltac:(lia)).
  assert (Hkeep : ∀ s' hn, grows s s' hn → is_list (s_heap s') (null_of s') l vs)
    by (intros s' hn Hg; rewrite (gr_img _ _ _ Hg); by eapply is_list_grows).
  destruct (Z.eqb_spec i 0) as [->|Hne].
  - run_step (list_tag _ _ _ Him Hl). destruct vs as [|x vs]; [cbn in Hr; lia|].
    destruct (list_cdr _ _ _ _ Hl) as (d & Ed & Hd). run_step Ed.
    destruct (zuo_cons_list _ s v d vs (image_list_pre s Him) Hd) as (p & s' & E & Hg & Hp).
    exists p, s'. eexists. split; [done|]. split; [done|]. split; [|by eapply Hkeep]. by rewrite (gr_img _ _ _ Hg).
  - rewrite (bind_ok (ret false) _ _ _ _ eq_refl), (bind_ok get_st _ _ _ _ eq_refl), (bind_ok (zi o_null) _ _ _ _ eq_refl).
    destruct (list_copy_loop_ok s (heap_fuel s) s ∅ [] (null_of s) (null_of s) [] l vs i)
      as (first & last & l' & s1 & hn & cs & E & Hg & Hseg & Hl'); try done; try lia.
    { apply grows_refl, Him. } { apply seg_nil. } { by apply (is_list_heap_fuel s (null_of s) l). }
    rewrite (bind_ok _ _ _ _ _ E). cbn [app] in Hseg.
    destruct (drop (Z.to_nat i) vs) as [|x tl] eqn:Edr.
    { apply (f_equal length) in Edr. rewrite length_drop in Edr. cbn in Edr. lia. }
    pose proof (image_ok_grows _ _ _ Him Hg) as Him1. pose proof (gr_img _ _ _ Hg) as Hz.
    pose proof (is_list_grows _ _ _ _ _ _ Hg Hl') as Hl1. rewrite <- Hz in Hl1.
    rewrite (bind_ok _ _ _ _ _ (list_tag _ _ _ Him1 Hl1)). destruct Hl' as (d & _ & Hd0 & Hd).
    rewrite (bind_ok _ _ _ _ _ (ZUO_CDR_ok _ _ _ _ (grows_lookup _ _ _ _ _ Hg Hd0))).
    pose proof (list_pre_grows _ _ _ _ (image_list_pre s Him) Hg) as Hpre.
    destruct (zuo_cons_grows _ s1 v d Hpre) as (p & s2 & E2 & Hpf & Hpn & Hg2). run_step E2.
    pose proof (grows_trans _ _ _ _ _ Hg Hg2) as Hg02.
    (* the segment in the larger heap *)
    assert (Hseg2 : seg (null_of s) ({[p := Opair v d]} ∪ hn) cs first last (take (Z.to_nat i) vs)).
    { destruct Hseg as [H1 H2 H3 H4 H5]. split; try done. eapply cells_weaken; [|exact H5].
      intros c Hc. rewrite lookup_union_r; [done|]. apply lookup_singleton_ne. intros <-.
      destruct (seg_dom _ _ _ _ _ _ _ {| sg_first := H1; sg_last := H2; sg_nodup := H3; sg_nl := H4; sg_cells := H5 |} Hc) as [o Ho].
      rewrite (grows_lookup_new s s1 hn p o Hg Ho) in Hpf. done. }
    destruct (seg_close s s2 _ (null_of s) cs first last (take (Z.to_nat i) vs) p (v :: tl) Hg02 Hseg2) as (s3 & hn3 & E3 & Hg3 & Hr3).
    { intros ->. destruct Hseg as [_ _ _ _ Hc]. apply cells_length in Hc. rewrite length_take in Hc. cbn in Hc. lia. }
    { intros h' Hh'. exists d. split; [done|]. split.
      - rewrite Hh'; [by apply (grows_new s1)|]. intros Hin. destruct (seg_dom _ _ _ _ _ _ _ Hseg Hin) as [o Ho].
        by rewrite (grows_lookup_new s s1 hn p o Hg Ho) in Hpf.
      - eapply (copy_keeps s s2); [exact Hg02|exact Hseg2|exact Hd|done]. }
    rewrite (bind_ok _ _ _ _ _ E3). exists first, s3, hn3. split; [done|]. split; [done|]. split; [|by eapply Hkeep].
    rewrite (gr_img _ _ _ Hg3), insert_take_drop by lia.
    by replace (drop (S (Z.to_nat i)) vs) with tl by (by rewrite <- Nat.add_1_r, <- drop_drop, Edr).
Qed.

(** [length] of a list is the number of its elements. *)
Theorem length_correct s l vs :
  image_ok s → is_list (s_heap s) (null_of s) l vs →
  ∃ p s', zuo_length l s = Ok p s' ∧ grows s s' {[p := Ointeger (Z.of_nat (length vs))]}.
Proof.
  intros Him Hl. unfold zuo_length. run_step (zuo_length_int_ok s l vs Him Hl).
  destruct (allocates_grows _ _ s (zuo_integer_ok (Z.of_nat (length vs))) (im_mem _ Him)) as (p & s' & E & _ & Hg).
  by exists p, s'.
Qed.

(** ** A list to try them on *)

(** The booted state after making an integer 1 and the lists [(1 #t 1)] and
    [((1 #t 1) (1 #t 1) (1 #t 1))]. *)
Definition make_sample : M (loc * loc * loc) :=
  one <- zuo_integer 1 ;;
  t <- zi o_true ;;
  null <- zi o_null ;;
  l <- zuo_cons one null ;; l <- zuo_cons t l ;; l <- zuo_cons one l ;;
  ls <- zuo_cons l null ;; ls <- zuo_cons l ls ;; ls <- zuo_cons l ls ;;
  ret (one, l, ls).

Definition sample : (loc * loc * loc) * st :=
  match make_sample booted with Ok r s => (r, s) | _ => ((0, 0, 0), booted) end.
Definition sample_st : st := snd sample.
Definition sample_one : loc := fst (fst (fst sample)).
Definition sample_list : loc := snd (fst (fst sample)).
Definition sample_lists : loc := snd (fst sample).
Definition sample_true : loc := o_true (s_img sample_st).

Lemma sample_ok : image_ok sample_st.
Proof. apply image_okb_sound; [apply mem_okb_sound; vm_compute; reflexivity|vm_compute; reflexivity]. Qed.

(** [is_list] decided. *)
Fixpoint is_listb (h : gmap Z obj) (nl l : loc) (vs : list loc) : bool :=
  match vs with
  | [] => l =? nl
  | v :: vs' =>
      negb (l =? nl) &&
      match h !! l with Some (Opair a d) => (a =? v) && is_listb h nl d vs' | _ => false end
  end.

Lemma is_listb_sound h nl l vs : is_listb h nl l vs = true → is_list h nl l vs.
Proof.
  revert l. induction vs as [|v vs IH]; intros l; cbn; [by intros ?%Z.eqb_eq|].
  intros [H1 H]%andb_true_iff. apply negb_true_iff, Z.eqb_neq in H1.
  destruct (h !! l) as [[]|] eqn:El; try done. apply andb_true_iff in H as [->%Z.eqb_eq H].
  eexists. split; [done|]. split; [reflexivity|auto].
Qed.

Lemma sample_is_list :
  is_list (s_heap sample_st) (null_of sample_st) sample_list [sample_one; sample_true; sample_one].
Proof. apply is_listb_sound. vm_compute. reflexivity. Qed.

Lemma sample_is_lists :
  is_list (s_heap sample_st) (null_of sample_st) sample_lists [sample_list; sample_list; sample_list].
Proof. apply is_listb_sound. vm_compute. reflexivity. Qed.

Lemma sample_index : s_heap sample_st !! sample_one = Some (Ointeger 1).
Proof. vm_compute. reflexivity. Qed.

Lemma append_correct_witness :
  ∃ r s' hn, zuo_append sample_lists sample_st = Ok r s' ∧ grows sample_st s' hn
    ∧ is_list (s_heap s') (null_of s') r
        (concat [[sample_one; sample_true; sample_one]; [sample_one; sample_true; sample_one]]
         ++ [sample_one; sample_true; sample_one]).
Proof.
  apply (append_correct sample_st sample_lists [sample_list; sample_list] sample_list _ _ sample_ok sample_is_lists);
    repeat constructor; exact sample_is_list.
Defined.

Lemma reverse_correct_witness :
  ∃ r s' hn, zuo_reverse sample_list sample_st = Ok r s' ∧ grows sample_st s' hn
    ∧ is_list (s_heap s') (null_of s') r (reverse [sample_one; sample_true; sample_one]).
Proof. exact (reverse_correct sample_st sample_list _ sample_ok sample_is_list). Defined.

Lemma list_ref_correct_witness : zuo_list_ref sample_list sample_one sample_st = Ok sample_true sample_st.
Proof. exact (list_ref_correct sample_st sample_list _ sample_one 1 sample_ok sample_is_list sample_index). Defined.

Lemma list_set_correct_witness :
  ∃ r s' hn, zuo_list_set sample_list sample_one sample_list sample_st = Ok r s' ∧ grows sample_st s' hn
    ∧ is_list (s_heap s') (null_of s') r [sample_one; sample_list; sample_one]
    ∧ is_list (s_heap s') (null_of s') sample_list [sample_one; sample_true; sample_one].
Proof.
  exact (list_set_correct sample_st sample_list _ sample_one 1 sample_list sample_ok sample_is_list sample_index
    (conj (Z.le_0_1) (eq_refl : 1 < 3))).
Defined.

Lemma length_correct_witness :
  ∃ p s', zuo_length sample_list sample_st = Ok p s' ∧ grows sample_st s' {[p := Ointeger 3]}.
Proof. exact (length_correct sample_st sample_list _ sample_ok sample_is_list). Defined.
