(* ===== verification/Sha256Spec.v ===== *)
(** * SHA-256 computes what FIPS 180-4 defines

    The standard's definition, written without unrolling or buffering, and the
    proof that the code's block function and its treatment of input in pieces
    agree with it. *)

From Stdlib Require Import ZifyNat.
From S2P Require Import Prelude Sys Heap Alloc Gc GcCorrect Objects Trie Lists ImageOk Intern Sort Printer Reader Prims Interp Path Module Shell Sha256 Fasl Init Boot ListSpec.

(** ** The standard *)

Module Fips.

(** A word rotated or shifted to the right by [n] bits. *)
Definition rotr (x n : Z) : Z := let x := to_u32 x in x / 2 ^ n + x mod 2 ^ n * 2 ^ (32 - n).
Definition shr (x n : Z) : Z := to_u32 x / 2 ^ n.

Definition Ch (x y z : Z) : Z := Z.lxor (Z.land x y) (Z.land (Z.lnot x) z).
Definition Maj (x y z : Z) : Z := Z.lxor (Z.lxor (Z.land x y) (Z.land x z)) (Z.land y z).
Definition Sigma0 (x : Z) : Z := Z.lxor (Z.lxor (rotr x 2) (rotr x 13)) (rotr x 22).
Definition Sigma1 (x : Z) : Z := Z.lxor (Z.lxor (rotr x 6) (rotr x 11)) (rotr x 25).
Definition sigma0 (x : Z) : Z := Z.lxor (Z.lxor (rotr x 7) (rotr x 18)) (shr x 3).
Definition sigma1 (x : Z) : Z := Z.lxor (Z.lxor (rotr x 17) (rotr x 19)) (shr x 10).

(** The big-endian value of bytes. *)
Definition be (b : list Z) : Z := fold_left (λ n c, n * 256 + c) b 0.

(** The [n] bytes of a big-endian number. *)
Fixpoint to_be (n : nat) (x : Z) : list Z :=
  match n with O => [] | S n' => to_be n' (x / 256) ++ [x mod 256] end.

(** The message followed by a one bit, zeros up to 56 bytes modulo 64, and its
    length in bits. *)
Definition pad (m : list Z) : list Z :=
  m ++ [128] ++ replicate (Z.to_nat ((55 - Z.of_nat (length m)) mod 64)) 0
    ++ to_be 8 (8 * Z.of_nat (length m)).

(** The message schedule: 16 words of the block and 48 computed ones. *)
Definition next_word (W : list Z) : Z :=
  let t := length W in
  to_u32 (sigma1 (nth (t - 2) W 0) + nth (t - 7) W 0 + sigma0 (nth (t - 15) W 0) + nth (t - 16) W 0).
Definition words (block : list Z) : list Z := (λ i, be (take 4 (drop (4 * i) block))) <$> seq 0 16.
Definition schedule (block : list Z) : list Z := Nat.iter 48 (λ W, W ++ [next_word W]) (words block).

(** One round. *)
Definition round (W : list Z) (s : words8) (t : nat) : words8 :=
  let '(a, b, c, d, e, f, g, h) := s in
  let T1 := to_u32 (h + Sigma1 e + Ch e f g + nth t sha_K 0 + nth t W 0) in
  let T2 := to_u32 (Sigma0 a + Maj a b c) in
  (to_u32 (T1 + T2), a, b, c, to_u32 (d + T1), e, f, g).

Definition compress (s : words8) (block : list Z) : words8 :=
  add_words s (fold_left (round (schedule block)) (seq 0 64) s).

(** The blocks of a message whose length is a multiple of 64. *)
Fixpoint hash_blocks (n : nat) (s : words8) (m : list Z) : words8 :=
  match n with O => s | S n' => hash_blocks n' (compress s (take 64 m)) (drop 64 m) end.

Definition word_bytes (s : words8) : list Z :=
  let '(a, b, c, d, e, f, g, h) := s in
  to_be 4 a ++ to_be 4 b ++ to_be 4 c ++ to_be 4 d ++ to_be 4 e ++ to_be 4 f ++ to_be 4 g ++ to_be 4 h.

Definition sha256 (m : list Z) : list Z :=
  let p := pad m in word_bytes (hash_blocks (length p / 64) sha256_start p).

(** Two lower-case digits per byte. *)
Definition hex (b : list Z) : list Z :=
  c ← b; (λ d, nth (Z.to_nat d) (bytes_of "0123456789abcdef") 0) <$> [c / 16; c mod 16].

End Fips.

(** ** Words *)

Lemma F1_Ch x y z : F1 x y z = Fips.Ch x y z.
Proof.
  unfold F1, Fips.Ch. apply Z.bits_inj'. intros n Hn.
  rewrite !Z.lxor_spec, !Z.land_spec, Z.lxor_spec, Z.lnot_spec by lia.
  by destruct (Z.testbit x n), (Z.testbit y n), (Z.testbit z n).
Qed.

Lemma F0_Maj x y z : F0 x y z = Fips.Maj x y z.
Proof.
  unfold F0, Fips.Maj. apply Z.bits_inj'. intros n Hn.
  rewrite !Z.lxor_spec, !Z.lor_spec, !Z.land_spec, Z.lor_spec.
  by destruct (Z.testbit x n), (Z.testbit y n), (Z.testbit z n).
Qed.

Lemma SHR_shr x n : 0 ≤ n → SHR x n = Fips.shr x n.
Proof.
  intros Hn. unfold SHR, Fips.shr, to_u32. change 4294967295 with (Z.ones 32).
  by rewrite Z.land_ones, Z.shiftr_div_pow2 by lia.
Qed.

Lemma ROTR_rotr x n : 0 < n < 32 → ROTR x n = Fips.rotr x n.
Proof.
  intros Hn. unfold ROTR, Fips.rotr. cbn zeta. rewrite SHR_shr by lia. unfold Fips.shr.
  assert (Hl : to_u32 (Z.shiftl x (32 - n)) = Z.shiftl (to_u32 x mod 2 ^ n) (32 - n)).
  { rewrite !Z.shiftl_mul_pow2 by lia. unfold to_u32.
    replace (2 ^ 32) with (2 ^ n * 2 ^ (32 - n)) by (rewrite <- Z.pow_add_r by lia; f_equal; lia).
    rewrite Zmult_mod_distr_r. f_equal. rewrite Z.rem_mul_r by lia.
    by rewrite (Z.mul_comm (2 ^ n)), Z.mod_add, Z.mod_mod by lia. }
  rewrite Hl, Z.lor_comm, lor_shiftl_add; [lia|lia|].
  pose proof (Z.mod_pos_bound x (2 ^ 32) ltac:(lia)) as Hx. fold (to_u32 x) in Hx.
  split; [apply Z.div_pos; lia|]. apply Z.div_lt_upper_bound; [lia|].
  rewrite <- Z.pow_add_r by lia. replace (n + (32 - n)) with 32 by lia. apply Hx.
Qed.

Lemma S0_sigma0 x : S0 x = Fips.sigma0 x.
Proof. unfold S0, Fips.sigma0. by rewrite !ROTR_rotr, SHR_shr by lia. Qed.
Lemma S1_sigma1 x : S1 x = Fips.sigma1 x.
Proof. unfold S1, Fips.sigma1. by rewrite !ROTR_rotr, SHR_shr by lia. Qed.
Lemma S2_Sigma0 x : S2 x = Fips.Sigma0 x.
Proof. unfold S2, Fips.Sigma0. by rewrite !ROTR_rotr by lia. Qed.
Lemma S3_Sigma1 x : S3 x = Fips.Sigma1 x.
Proof. unfold S3, Fips.Sigma1. by rewrite !ROTR_rotr by lia. Qed.

(** ** The block function *)

(** One round in the code's roles is a round of the standard. *)
Lemma sha_P_round W a b c d e f g h t d' h' :
  sha_P a b c d e f g h (nth t W 0) (nth t sha_K 0) = (d', h') →
  Fips.round W (a, b, c, d, e, f, g, h) t = (h', a, b, c, d', e, f, g).
Proof.
  unfold sha_P, Fips.round. rewrite S3_Sigma1, S2_Sigma0, F1_Ch, F0_Maj. cbn zeta. by intros [= <- <-].
Qed.

(** Eight rounds with rotating roles are eight rounds of the standard. *)
Lemma sha_P8_rounds A W i : sha_P8 A W i = fold_left (Fips.round W) (seq i 8) A.
Proof.
  destruct A as [[[[[[[a b] c] d] e] f] g] h]. unfold sha_P8. cbn zeta.
  assert (E : seq i 8 = [i + 0; i + 1; i + 2; i + 3; i + 4; i + 5; i + 6; i + 7]%nat)
    by (cbn; repeat f_equal; lia).
  rewrite E. cbn [fold_left].
  do 8 (destruct (sha_P _ _ _ _ _ _ _ _ _ _) as [? ?] eqn:Hr; apply sha_P_round in Hr; rewrite Hr; clear Hr).
  done.
Qed.

(** The schedule only grows. *)
Lemma sha_extend_iter n : ∀ W i, length W = i → (15 < i)%nat → sha_extend W i n = Nat.iter n (λ W, W ++ [Fips.next_word W]) W.
Proof.
  induction n as [|n IH]; intros W i Hl Hi; [done|]. cbn [sha_extend].
  rewrite (IH _ (S i)) by (rewrite ?length_app; cbn; lia). rewrite Nat.iter_succ_r. f_equal. f_equal. f_equal.
  unfold sha_R, Fips.next_word. rewrite Hl, S1_sigma1, S0_sigma0. cbn zeta. done.
Qed.

Lemma extend_prefix n W : ∃ V, Nat.iter n (λ W, W ++ [Fips.next_word W]) W = W ++ V ∧ length V = n.
Proof.
  induction n as [|n (V & E & Hl)]; [exists []; by rewrite app_nil_r|].
  rewrite Nat.iter_succ, E. exists (V ++ [Fips.next_word (W ++ V)]). rewrite length_app, <- app_assoc. cbn. split; [done|lia].
Qed.

(** A round only looks at its own word. *)
Lemma rounds_agree W W' l : ∀ s,
  (∀ t, t ∈ l → nth t W 0 = nth t W' 0) → fold_left (Fips.round W) l s = fold_left (Fips.round W') l s.
Proof.
  induction l as [|t l IH]; intros s H; [done|]. cbn [fold_left]. rewrite IH by set_solver. f_equal.
  unfold Fips.round. by rewrite (H t) by set_solver.
Qed.

(** Extending the schedule as the rounds need it. *)
Lemma sha_rounds_ok n : ∀ A W i, length W = i → (15 < i)%nat →
  sha_rounds A W i n
  = fold_left (Fips.round (Nat.iter (8 * n) (λ W, W ++ [Fips.next_word W]) W)) (seq i (8 * n)) A.
Proof.
  induction n as [|n IH]; intros A W i Hl Hi; [done|]. cbn [sha_rounds].
  replace (8 * S n)%nat with (8 + 8 * n)%nat by lia. rewrite seq_app, fold_left_app.
  rewrite (Nat.add_comm 8), Nat.iter_add.
  rewrite sha_extend_iter by done. destruct (extend_prefix 8 W) as (V & E & HV). rewrite E.
  rewrite IH by (rewrite ?length_app; lia). f_equal. rewrite sha_P8_rounds. apply rounds_agree.
  intros t Ht%elem_of_seq. destruct (extend_prefix (8 * n) (W ++ V)) as (V' & -> & _).
  by rewrite (app_nth1 (W ++ V)) by (rewrite length_app; lia).
Qed.

Definition is_byte (b : Z) : Prop := 0 ≤ b < 256.

Lemma nth_byte i m : Forall is_byte m → is_byte (nth i m 0).
Proof.
  intros H. destruct (nth_in_or_default i m 0) as [Hin| ->]; [|unfold is_byte; lia].
  rewrite Forall_forall in H. apply H. by apply list_elem_of_In.
Qed.

Lemma GET_UINT32_BE_ok m i : Forall is_byte m → (i + 4 ≤ length m)%nat → GET_UINT32_BE m i = Fips.be (take 4 (drop i m)).
Proof.
  intros Hm Hi. unfold GET_UINT32_BE, Fips.be.
  assert (E : take 4 (drop i m) = [nth i m 0; nth (i + 1) m 0; nth (i + 2) m 0; nth (i + 3) m 0]).
  { apply (list_eq_same_length _ _ 4); [done|rewrite length_take, length_drop; lia|].
    intros j x y Hj Hx Hy. rewrite lookup_take_lt, lookup_drop in Hx by done.
    rewrite <- (nth_lookup_Some _ _ 0 _ Hx).
    do 4 (destruct j as [|j]; [cbn in Hy; injection Hy as <-; f_equal; lia|]). lia. }
  rewrite E. cbn [fold_left].
  pose proof (nth_byte i m Hm). pose proof (nth_byte (i + 1) m Hm).
  pose proof (nth_byte (i + 2) m Hm). pose proof (nth_byte (i + 3) m Hm). unfold is_byte in *.
  rewrite <- !Z.lor_assoc.
  rewrite (lor_shiftl_add (nth (i + 2) m 0) (nth (i + 3) m 0) 8) by lia.
  rewrite (lor_shiftl_add (nth (i + 1) m 0) _ 16) by lia. rewrite (lor_shiftl_add (nth i m 0) _ 24) by lia. lia.
Qed.

(** The code's block function is the standard's. *)
Lemma process_ok s block : length block = 64%nat → Forall is_byte block →
  mbedtls_internal_sha256_process s block = Fips.compress s block.
Proof.
  intros Hl Hb. unfold mbedtls_internal_sha256_process, Fips.compress, Fips.schedule. cbn zeta. f_equal.
  assert (EW : sha_load block = Fips.words block).
  { unfold sha_load, Fips.words. apply list_fmap_ext. intros j i Hj.
    apply list_elem_of_lookup_2, elem_of_seq in Hj. apply GET_UINT32_BE_ok; [done|lia]. }
  rewrite EW. assert (HW : length (Fips.words block) = 16%nat) by (unfold Fips.words; by rewrite length_fmap, length_seq).
  rewrite sha_rounds_ok, !sha_P8_rounds by (rewrite ?HW; lia). change (8 * 6)%nat with 48%nat.
  change (seq 0 64) with (seq 0 8 ++ seq 8 8 ++ seq 16 48). rewrite !fold_left_app.
  destruct (extend_prefix 48 (Fips.words block)) as (V & -> & _).
  rewrite (rounds_agree (Fips.words block) (Fips.words block ++ V) (seq 0 8)),
    (rounds_agree (Fips.words block) (Fips.words block ++ V) (seq 8 8)); [done|..];
    intros t Ht%elem_of_seq; by rewrite app_nth1 by lia.
Qed.

(** ** Input in pieces *)

#[local] Ltac Zify.zify_post_hook ::= Z.div_mod_to_equations.

Lemma hash_blocks_add a b : ∀ s m,
  Fips.hash_blocks (a + b) s m = Fips.hash_blocks b (Fips.hash_blocks a s m) (drop (64 * a) m).
Proof.
  induction a as [|a IH]; intros s m; [done|]. cbn [Nat.add Fips.hash_blocks]. rewrite IH, drop_drop.
  do 2 f_equal. lia.
Qed.

Lemma hash_blocks_app n : ∀ s m m', (64 * n ≤ length m)%nat → Fips.hash_blocks n s (m ++ m') = Fips.hash_blocks n s m.
Proof.
  induction n as [|n IH]; intros s m m' Hl; [done|]. cbn [Fips.hash_blocks].
  rewrite take_app_le, drop_app_le by lia. apply IH. rewrite length_drop. lia.
Qed.

Lemma sha_blocks_ok fuel : ∀ s m, Forall is_byte m → (length m ≤ fuel)%nat →
  sha_blocks fuel s m = (Fips.hash_blocks (length m / 64) s m, drop (64 * (length m / 64)) m).
Proof.
  induction fuel as [|fuel IH]; intros s m Hm Hl; cbn [sha_blocks].
  - destruct m; [done|cbn in Hl; lia].
  - destruct (Nat.leb_spec 64 (length m)) as [Hge|Hlt].
    + rewrite process_ok by (rewrite ?length_take; auto using Forall_take; lia).
      rewrite IH by (rewrite ?length_drop; auto using Forall_drop; lia). rewrite length_drop.
      assert (E : (length m / 64 = S ((length m - 64) / 64))%nat) by lia. rewrite E. cbn [Fips.hash_blocks].
      f_equal. rewrite drop_drop. f_equal. lia.
    + assert (E : (length m / 64 = 0)%nat) by lia. rewrite E. cbn. done.
Qed.

Lemma buffer_write_ok buffer left input :
  length buffer = 64%nat → (left + length input ≤ 64)%nat →
  length (buffer_write buffer left input) = 64%nat
  ∧ take (left + length input) (buffer_write buffer left input) = take left buffer ++ input.
Proof.
  intros Hb Hl. unfold buffer_write. split.
  - rewrite !length_app, length_take, length_drop, Hb. lia.
  - rewrite app_assoc, take_app_le by (rewrite length_app, length_take, Hb; lia).
    apply firstn_all2. rewrite length_app, length_take, Hb. lia.
Qed.

(** What a context holds after the message [m]. *)
Record absorbed (ctx : zuo_sha2_ctx_t) (m : list Z) : Prop := {
  ab_t0 : 0 ≤ total0 ctx < 2 ^ 32;
  ab_t1 : 0 ≤ total1 ctx;
  ab_total : total0 ctx + 2 ^ 32 * total1 ctx = Z.of_nat (length m);
  ab_buffer : length (sha_buffer ctx) = 64%nat;
  ab_state : sha_state ctx = Fips.hash_blocks (length m / 64) sha256_start m;
  ab_rest : take (length m mod 64) (sha_buffer ctx) = drop (64 * (length m / 64)) m;
  ab_224 : is224 ctx = false;
  ab_bytes : Forall is_byte m }.

(** The state and the buffer after more input, in terms of what was left. *)
Lemma feed_ok state buffer r inp :
  length buffer = 64%nat → Forall is_byte r → Forall is_byte inp → take (length r) buffer = r → (length r < 64)%nat →
  inp ≠ [] →
  ∃ state' buffer',
    (let '(state, buffer, input, left1) :=
       if negb (length r =? 0)%nat && (64 - length r <=? length inp)%nat then
         let buffer := buffer_write buffer (length r) (take (64 - length r) inp) in
         (mbedtls_internal_sha256_process state buffer, buffer, drop (64 - length r) inp, 0%nat)
       else (state, buffer, inp, length r) in
     let '(state, input) := sha_blocks (length input) state input in
     (state, match input with [] => buffer | _ :: _ => buffer_write buffer left1 input end)) = (state', buffer')
    ∧ length buffer' = 64%nat
    ∧ state' = Fips.hash_blocks ((length r + length inp) / 64) state (r ++ inp)
    ∧ take ((length r + length inp) mod 64) buffer' = drop (64 * ((length r + length inp) / 64)) (r ++ inp).
Proof.
  intros Hb Hr Hi Htk Hlt Hne.
  destruct (negb (length r =? 0)%nat && (64 - length r <=? length inp)%nat) eqn:Ec.
  - apply andb_true_iff in Ec as [Hnz%negb_true_iff%Nat.eqb_neq Hfill%Nat.leb_le].
    destruct (buffer_write_ok buffer (length r) (take (64 - length r) inp) Hb) as [Hl1 Ht1];
      [rewrite length_take; lia|]. cbv beta iota zeta. set (b1 := buffer_write _ _ _) in *.
    assert (Eb : b1 = r ++ take (64 - length r) inp).
    { rewrite length_take, Htk in Ht1. rewrite <- Ht1, firstn_all2; [done|lia]. }
    rewrite sha_blocks_ok by (rewrite ?length_drop; auto using Forall_drop; lia). rewrite length_drop.
    set (rest := drop (64 - length r) inp).
    assert (Er : r ++ inp = b1 ++ rest) by (rewrite Eb, <- app_assoc; f_equal; symmetry; apply take_drop).
    assert (Hrest : length rest = (length inp - (64 - length r))%nat) by (unfold rest; rewrite length_drop; lia).
    set (q := ((length inp - (64 - length r)) / 64)%nat).
    assert (Eq : ((length r + length inp) / 64 = 1 + q)%nat) by (unfold q; lia).
    rewrite Eq, Er, hash_blocks_add.
    assert (E1 : Fips.hash_blocks 1 state (b1 ++ rest) = mbedtls_internal_sha256_process state b1).
    { rewrite hash_blocks_app by lia. cbn [Fips.hash_blocks]. rewrite firstn_all2 by lia.
      symmetry. apply process_ok; [done|]. rewrite Eb. auto using Forall_app_2, Forall_take. }
    rewrite E1, drop_app_length' by lia.
    eexists _, _. split; [reflexivity|]. split; [|split; [done|]].
    + destruct (drop (64 * q) rest) eqn:Ed; [done|]. rewrite <- Ed. apply buffer_write_ok; [done|].
      rewrite length_drop, Hrest. unfold q. lia.
    + replace (64 * (1 + q))%nat with (64 + 64 * q)%nat by lia. rewrite <- drop_drop, drop_app_length' by lia.
      assert (Em : ((length r + length inp) mod 64 = length (drop (64 * q) rest))%nat)
        by (rewrite length_drop, Hrest; unfold q; lia).
      rewrite Em. destruct (drop (64 * q) rest) as [|x l] eqn:Ed; [done|].
      rewrite <- Ed. apply (buffer_write_ok b1 0); [done|]. rewrite length_drop, Hrest. unfold q. lia.
  - assert (Hsm : length r = 0%nat ∨ (length inp < 64 - length r)%nat).
    { apply andb_false_iff in Ec as [Ec|Ec]; [left|right]; [by apply negb_false_iff, Nat.eqb_eq in Ec|by apply Nat.leb_gt]. }
    cbv beta iota zeta. rewrite sha_blocks_ok by auto. set (q := (length inp / 64)%nat).
    assert (Eq : ((length r + length inp) / 64 = q)%nat) by (unfold q; lia).
    assert (Hd : drop (64 * q) (r ++ inp) = r ++ drop (64 * q) inp ∧ Fips.hash_blocks q state (r ++ inp) = Fips.hash_blocks q state inp).
    { destruct Hsm as [H0|Hs]; [apply nil_length_inv in H0 as ->; done|].
      assert (Eq0 : q = 0%nat) by (unfold q; lia). by rewrite Eq0. }
    destruct Hd as [Hd Hh]. rewrite Eq, Hd, Hh.
    assert (Em : ((length r + length inp) mod 64 = length r + length (drop (64 * q) inp))%nat)
      by (rewrite length_drop; unfold q; lia).
    eexists _, _. split; [reflexivity|]. rewrite Em.
    destruct (drop (64 * q) inp) as [|x l] eqn:Ed.
    + split; [done|]. split; [done|]. cbn [length]. by rewrite Nat.add_0_r, app_nil_r.
    + rewrite <- Ed. destruct (buffer_write_ok buffer (length r) (drop (64 * q) inp) Hb) as [H1 H2].
      { rewrite length_drop. unfold q. lia. }
      split; [done|]. split; [done|]. by rewrite H2, Htk.
Qed.

Lemma update_unfold ctx input : input ≠ [] →
  mbedtls_sha256_update_ret ctx input =
  (let ilen := Z.of_nat (length input) in
   let left0 := Z.to_nat (Z.land (total0 ctx) 63) in
   let fill := (64 - left0)%nat in
   let t0 := to_u32 (total0 ctx + to_u32 ilen) in
   let t1 := if t0 <? to_u32 ilen then to_u32 (total1 ctx + 1) else total1 ctx in
   let '(state, buffer, input, left1) :=
     if negb (left0 =? 0)%nat && (fill <=? length input)%nat then
       let buffer := buffer_write (sha_buffer ctx) left0 (take fill input) in
       (mbedtls_internal_sha256_process (sha_state ctx) buffer, buffer, drop fill input, 0%nat)
     else (sha_state ctx, sha_buffer ctx, input, left0) in
   let '(state, input) := sha_blocks (length input) state input in
   Ctx t0 t1 state (match input with [] => buffer | _ :: _ => buffer_write buffer left1 input end) (is224 ctx)).
Proof. by destruct input. Qed.

Lemma update_ok ctx m inp :
  absorbed ctx m → Forall is_byte inp → Z.of_nat (length inp) < 2 ^ 32 →
  Z.of_nat (length (m ++ inp)) < 2 ^ 61 →
  absorbed (mbedtls_sha256_update_ret ctx inp) (m ++ inp).
Proof.
  intros [H0 H1 Ht Hb Hs Hr H2 Hm] Hi Hlen Hall. destruct (decide (inp = [])) as [->|Hne]; [by rewrite app_nil_r|].
  set (r := drop (64 * (length m / 64)) m) in *.
  assert (Hlr : length r = (length m mod 64)%nat) by (unfold r; rewrite length_drop; lia).
  assert (El : Z.to_nat (Z.land (total0 ctx) 63) = length r).
  { rewrite (Z.land_ones _ 6) by lia. rewrite Hlr. lia. }
  assert (Eil : to_u32 (Z.of_nat (length inp)) = Z.of_nat (length inp)) by (unfold to_u32; apply Z.mod_small; lia).
  destruct (feed_ok (sha_state ctx) (sha_buffer ctx) r inp) as (state' & buffer' & E & Hb' & Hs' & Hr'); try done.
  { unfold r. by apply Forall_drop. } { by rewrite Hlr. } { lia. }
  rewrite update_unfold by done. cbv zeta in E |- *. rewrite El, Eil.
  destruct (if negb _ && _ then _ else _) as [[[st bu] re] le].
  destruct (sha_blocks (length re) st re) as [st2 re2]. cbv beta iota zeta in E |- *. injection E as <- <-.
  assert (Eq : length (m ++ inp) = (64 * (length m / 64) + (length r + length inp))%nat) by (rewrite length_app, Hlr; lia).
  assert (Ed : ((length (m ++ inp)) / 64 = length m / 64 + (length r + length inp) / 64)%nat) by (rewrite Eq; lia).
  assert (Edr : drop (64 * (length m / 64)) (m ++ inp) = r ++ inp) by (unfold r; rewrite drop_app_le; [done|lia]).
  set (t0 := to_u32 (total0 ctx + Z.of_nat (length inp))).
  set (t1 := if t0 <? Z.of_nat (length inp) then _ else _).
  assert (Htot : 0 ≤ t0 < 2 ^ 32 ∧ 0 ≤ t1 ∧ t0 + 2 ^ 32 * t1 = Z.of_nat (length (m ++ inp))).
  { unfold t1, t0, to_u32. rewrite length_app in *.
    destruct (Z.ltb_spec ((total0 ctx + Z.of_nat (length inp)) mod 2 ^ 32) (Z.of_nat (length inp))); lia. }
  split; cbn [total0 total1 sha_state sha_buffer is224]; try tauto.
  - rewrite Ed, hash_blocks_add, hash_blocks_app, Edr by lia. by rewrite Hs', Hs.
  - replace (length (m ++ inp) mod 64)%nat with ((length r + length inp) mod 64)%nat by (rewrite Eq; lia).
    rewrite Hr', Ed, <- Edr, drop_drop. f_equal. lia.
  - by apply Forall_app.
Qed.

Lemma init_absorbed : absorbed zuo_sha256_init [].
Proof. by split. Qed.

(** ** The end of the message *)

Lemma to_be_length n : ∀ x, length (Fips.to_be n x) = n.
Proof. induction n as [|n IH]; intros x; [done|]. cbn. rewrite length_app, IH. cbn. lia. Qed.

Lemma to_be_bytes n : ∀ x, Forall is_byte (Fips.to_be n x).
Proof.
  induction n as [|n IH]; intros x; cbn; [constructor|]. apply Forall_app. split; [done|].
  constructor; [|constructor]. unfold is_byte. lia.
Qed.

Lemma to_be_app a b : ∀ x, Fips.to_be (a + b) x = Fips.to_be a (x / 256 ^ Z.of_nat b) ++ Fips.to_be b x.
Proof.
  induction b as [|b IH]; intros x.
  - rewrite Nat.add_0_r. cbn. by rewrite Z.div_1_r, app_nil_r.
  - rewrite Nat.add_succ_r. cbn [Fips.to_be]. rewrite IH, <- app_assoc. do 2 f_equal.
    rewrite Z.div_div by lia. f_equal. rewrite Nat2Z.inj_succ, Z.pow_succ_r by lia. done.
Qed.

Lemma to_be_mod n : ∀ x k, Z.of_nat n ≤ k → Fips.to_be n (x mod 256 ^ k) = Fips.to_be n x.
Proof.
  induction n as [|n IH]; intros x k Hk; [done|]. cbn [Fips.to_be].
  assert (E : 256 ^ k = 256 * 256 ^ (k - 1)) by (rewrite <- Z.pow_succ_r by lia; f_equal; lia).
  assert (0 < 256 ^ (k - 1)) by (apply Z.pow_pos_nonneg; lia).
  rewrite E, Z.rem_mul_r by lia. f_equal.
  - rewrite (Z.mul_comm 256), Z.div_add, (Z.div_small (x mod 256)), Z.add_0_l by lia. apply IH. lia.
  - rewrite (Z.mul_comm 256), Z.mod_add, Z.mod_mod by lia. done.
Qed.

Lemma PUT_UINT32_BE_ok x : PUT_UINT32_BE x = Fips.to_be 4 x.
Proof.
  unfold PUT_UINT32_BE, to_u8. rewrite !Z.shiftr_div_pow2 by lia. cbn [Fips.to_be app].
  rewrite !Z.div_div by lia. done.
Qed.

(** The length field. *)
Lemma length_field t0 t1 :
  0 ≤ t0 < 2 ^ 32 → 0 ≤ t1 < 2 ^ 29 →
  PUT_UINT32_BE (Z.lor (Z.shiftr t0 29) (to_u32 (Z.shiftl t1 3))) ++ PUT_UINT32_BE (to_u32 (Z.shiftl t0 3))
  = Fips.to_be 8 (8 * (t0 + 2 ^ 32 * t1)).
Proof.
  intros H0 H1. rewrite !PUT_UINT32_BE_ok.
  assert (E1 : to_u32 (Z.shiftl t1 3) = Z.shiftl t1 3)
    by (rewrite Z.shiftl_mul_pow2 by lia; unfold to_u32; apply Z.mod_small; lia).
  rewrite E1, Z.lor_comm, lor_shiftl_add; [|lia|rewrite Z.shiftr_div_pow2 by lia; lia].
  rewrite (to_be_app 4 4), Z.shiftr_div_pow2 by lia. f_equal.
  - f_equal. change (256 ^ Z.of_nat 4) with (2 ^ 32). lia.
  - unfold to_u32. rewrite Z.shiftl_mul_pow2 by lia.
    rewrite <- (to_be_mod 4 (8 * (t0 + 2 ^ 32 * t1)) 4) by lia. f_equal. change (256 ^ 4) with (2 ^ 32).
    replace (8 * (t0 + 2 ^ 32 * t1)) with (t0 * 2 ^ 3 + (8 * t1) * 2 ^ 32) by lia. by rewrite Z.mod_add by lia.
Qed.

Lemma finish_ok ctx m :
  absorbed ctx m → Z.of_nat (length m) < 2 ^ 60 →
  mbedtls_sha256_finish_ret ctx
  = Fips.word_bytes (Fips.hash_blocks (length (Fips.pad m) / 64) sha256_start (Fips.pad m)).
Proof.
  intros Hab Hlen. pose proof Hab as [H0 H1 Ht _ _ _ _ Hm]. unfold mbedtls_sha256_finish_ret. cbv zeta.
  rewrite length_field, Ht by lia.
  set (last := Z.to_nat (Z.land (total0 ctx) 63)).
  assert (Hlast : last = (length m mod 64)%nat) by (unfold last; rewrite (Z.land_ones _ 6) by lia; lia).
  set (padn := if (last <? 56)%nat then _ else _).
  assert (Hpadn : (1 ≤ padn ≤ 64)%nat ∧ (padn - 1)%nat = Z.to_nat ((55 - Z.of_nat (length m)) mod 64))
    by (unfold padn; rewrite Hlast; destruct (Nat.ltb_spec (length m mod 64) 56); lia).
  assert (Epad : take padn sha256_padding = 128 :: replicate (Z.to_nat ((55 - Z.of_nat (length m)) mod 64)) 0).
  { destruct padn as [|n]; [lia|]. unfold sha256_padding. cbn [firstn take]. f_equal. rewrite take_replicate. f_equal. lia. }
  rewrite Epad.
  pose proof (update_ok ctx m (128 :: replicate (Z.to_nat ((55 - Z.of_nat (length m)) mod 64)) 0) Hab) as Hu.
  assert (Hp : Fips.pad m = (m ++ 128 :: replicate (Z.to_nat ((55 - Z.of_nat (length m)) mod 64)) 0)
    ++ Fips.to_be 8 (8 * Z.of_nat (length m))) by (unfold Fips.pad; by rewrite <- app_assoc).
  assert (Hu1 : absorbed (mbedtls_sha256_update_ret (mbedtls_sha256_update_ret ctx
      (128 :: replicate (Z.to_nat ((55 - Z.of_nat (length m)) mod 64)) 0)) (Fips.to_be 8 (8 * Z.of_nat (length m)))) (Fips.pad m)).
  { rewrite Hp. apply update_ok; [apply Hu|apply to_be_bytes| |].
    - constructor; [unfold is_byte; lia|]. apply Forall_replicate. unfold is_byte. lia.
    - cbn [length]. rewrite length_replicate. lia.
    - rewrite length_app. cbn [length]. rewrite length_replicate. lia.
    - rewrite to_be_length. lia.
    - rewrite !length_app, to_be_length. cbn [length]. rewrite length_replicate. lia. }
  destruct Hu1 as [_ _ _ _ Hs _ H224 _]. rewrite Hs, H224.
  destruct (Fips.hash_blocks _ _ _) as [[[[[[[a b] c] d] e] f] g] h]. cbn [put_words Fips.word_bytes].
  by rewrite !PUT_UINT32_BE_ok.
Qed.

Lemma hex_char_ok c : 0 ≤ c < 16 → hex_char c = nth (Z.to_nat c) (bytes_of "0123456789abcdef") 0.
Proof.
  intros Hc. assert (E : Forall (λ c, hex_char c = nth (Z.to_nat c) (bytes_of "0123456789abcdef") 0) (seqZ 0 16))
    by (repeat constructor).
  rewrite Forall_forall in E. apply E, elem_of_seqZ. lia.
Qed.

Lemma hex_ok b : Forall is_byte b →
  (d ← b; [hex_char (Z.shiftr d 4); hex_char (Z.land d 15)]) = Fips.hex b.
Proof.
  induction 1 as [|d b Hd Hb IH]; [done|]. unfold Fips.hex in *. cbn. rewrite IH. unfold is_byte in Hd.
  change 15 with (Z.ones 4). rewrite Z.shiftr_div_pow2, (Z.land_ones d 4), !hex_char_ok by lia. done.
Qed.

Lemma word_bytes_bytes s : Forall is_byte (Fips.word_bytes s).
Proof. destruct s as [[[[[[[a b] c] d] e] f] g] h]. cbn [Fips.word_bytes]. rewrite !Forall_app. pose proof to_be_bytes. auto 10. Qed.

Lemma sha256_hex_ok m : Forall is_byte m → Z.of_nat (length m) < 2 ^ 32 → sha256_hex m = Fips.hex (Fips.sha256 m).
Proof.
  intros Hm Hl. unfold sha256_hex, zuo_sha256_final, zuo_sha256_update, Fips.sha256.
  rewrite (finish_ok _ m); [|apply (update_ok _ [] m init_absorbed Hm Hl)|lia].
  - apply hex_ok, word_bytes_bytes.
  - cbn [app]. lia.
Qed.

(** C18. [string-sha256] of a string shorter than 2^32 bytes is the lower-case
    hexadecimal form of the digest that FIPS 180-4 defines. *)
Theorem zuo_string_sha256_correct s l m :
  image_ok s → s_heap s !! l = Some (Ostring m) → Forall is_byte m → Z.of_nat (length m) < 2 ^ 32 →
  ∃ p s', zuo_string_sha256 l s = Ok p s' ∧ grows s s' {[p := Ostring (Fips.hex (Fips.sha256 m))]}.
Proof.
  intros Him Hl Hm Hlen. unfold zuo_string_sha256.
  assert (Ep : ZUO_STRING_PTR l s = Ok m s) by (unfold ZUO_STRING_PTR; by run_step (get_ok _ _ _ Hl)).
  run_step Ep. rewrite sha256_hex_ok by done.
  destruct (allocates_grows _ _ s (zuo_sized_string_ok (Fips.hex (Fips.sha256 m))) (im_mem _ Him)) as (p & s' & E & _ & Hg).
  by exists p, s'.
Qed.

(** The digest does not depend on how the message is cut: feeding pieces of
    less than 2^32 bytes one after the other and finishing gives the digest of
    their concatenation. *)
Theorem sha256_pieces_correct pieces :
  Forall (Forall is_byte) pieces → Forall (λ p, Z.of_nat (length p) < 2 ^ 32) pieces →
  Z.of_nat (length (concat pieces)) < 2 ^ 60 →
  zuo_sha256_final (fold_left zuo_sha256_update pieces zuo_sha256_init) = Fips.sha256 (concat pieces).
Proof.
  intros Hb Hl Hlen. unfold zuo_sha256_final, Fips.sha256. cbv zeta. apply finish_ok; [|done].
  assert (Hgen : ∀ ctx m, absorbed ctx m → Z.of_nat (length (m ++ concat pieces)) < 2 ^ 60 →
    absorbed (fold_left zuo_sha256_update pieces ctx) (m ++ concat pieces)).
  { clear Hlen. induction pieces as [|p ps IH]; intros ctx m Ha Hm; [cbn; by rewrite app_nil_r|].
    apply Forall_cons in Hb as [Hb1 Hb2]. apply Forall_cons in Hl as [Hl1 Hl2]. cbn [fold_left concat] in Hm |- *.
    rewrite app_assoc in Hm |- *. apply IH; try done. apply update_ok; try done. rewrite length_app in Hm. lia. }
  apply (Hgen _ [] init_absorbed Hlen).
Qed.

(** ** Witnesses *)

(** The booted state with the string [abc]. *)
Definition abc_st : st := match zuo_sized_string (bytes_of "abc") booted with Ok _ s => s | _ => booted end.
Definition abc_loc : loc := match zuo_sized_string (bytes_of "abc") booted with Ok l _ => l | _ => 0 end.

Lemma abc_ok : image_ok abc_st.
Proof. apply image_okb_sound; [apply mem_okb_sound; vm_compute; reflexivity|vm_compute; reflexivity]. Qed.

Lemma abc_at : s_heap abc_st !! abc_loc = Some (Ostring (bytes_of "abc")).
Proof. vm_compute. reflexivity. Qed.

Lemma abc_bytes : Forall is_byte (bytes_of "abc").
Proof. repeat constructor; unfold is_byte; cbn; lia. Qed.

Lemma zuo_string_sha256_correct_witness :
  ∃ p s', zuo_string_sha256 abc_loc abc_st = Ok p s'
    ∧ grows abc_st s' {[p := Ostring (bytes_of "ba7816bf8f01cfea414140de5dae2223b00361a396177a9cb410ff61f20015ad")]}.
Proof.
  assert (E : bytes_of "ba7816bf8f01cfea414140de5dae2223b00361a396177a9cb410ff61f20015ad"
    = Fips.hex (Fips.sha256 (bytes_of "abc"))) by (vm_compute; reflexivity).
  rewrite E. exact (zuo_string_sha256_correct abc_st abc_loc (bytes_of "abc") abc_ok abc_at abc_bytes (eq_refl : 3 < 2 ^ 32)).
Defined.

Lemma sha256_pieces_correct_witness :
  zuo_sha256_final (fold_left zuo_sha256_update [bytes_of "abc"; bytes_of "abc"] zuo_sha256_init)
  = Fips.sha256 (bytes_of "abcabc").
Proof.
  apply (sha256_pieces_correct [bytes_of "abc"; bytes_of "abc"]); [..|vm_compute; reflexivity].
  - exact (Forall_cons_2 _ _ _ abc_bytes (Forall_cons_2 _ _ _ abc_bytes (Forall_nil_2 _))).
  - apply Forall_cons_2; [vm_compute; reflexivity|].
    apply Forall_cons_2; [vm_compute; reflexivity|constructor].
Defined.
