(* ===== verification/InternSpec.v ===== *)
(** * Interning

    The intern table maps names to symbols: asking twice for a name gives the
    same symbol, and different names give different symbols.  The table is
    updated in place, so the invariant says that its nodes form a tree. *)

From S2P Require Import Prelude Sys Heap Alloc Gc GcCorrect Objects Trie Lists ImageOk Intern Sort Printer Reader Prims Interp Path Module Shell Sha256 Fasl Init Boot ListSpec.

(** ** Paths in the table *)

(** The branches that a name takes: the two nibbles of each byte. *)
Definition nibbles (str : list Z) : list nat := c ← str; [Z.to_nat (c mod 16); Z.to_nat (c / 16)].

(** Names of symbols: bytes other than nul. *)
Definition name_ok (str : list Z) : Prop := Forall (λ c, 0 < c < 256) str.

Definition child (u : loc) (h : gmap Z obj) (n : loc) (i : nat) : option loc :=
  match h !! n with
  | Some (Otrie_node _ _ _ next) => c ← next !! i; if decide (c = u) then None else Some c
  | _ => None
  end.

Fixpoint walk (u : loc) (h : gmap Z obj) (n : loc) (p : list nat) : option loc :=
  match p with [] => Some n | i :: p' => c ← child u h n i; walk u h c p' end.

Definition node_val (u : loc) (h : gmap Z obj) (n : loc) : option loc :=
  match h !! n with
  | Some (Otrie_node _ _ v _) => if decide (v = u) then None else Some v
  | _ => None
  end.

(** The node at a path, and the symbol of a name, in the table of a state. *)
Definition table_at (s : st) (p : list nat) : option loc :=
  walk (o_undefined (s_img s)) (s_heap s) (o_intern_table (s_img s)) p.
Definition interned (s : st) (str : list Z) : option loc :=
  table_at s (nibbles str) ≫= node_val (o_undefined (s_img s)) (s_heap s).

(** The symbol at [l] has the name [str]. *)
Definition named (h : gmap Z obj) (l : loc) (str : list Z) : Prop :=
  ∃ id sl, h !! l = Some (Osymbol id sl) ∧ h !! sl = Some (Ostring str).

Lemma walk_app u h n p q : walk u h n (p ++ q) = walk u h n p ≫= λ m, walk u h m q.
Proof. revert n. induction p as [|i p IH]; intros n; [done|]. cbn. destruct (child u h n i); [apply IH|done]. Qed.

Lemma walk_snoc u h n p i : walk u h n (p ++ [i]) = walk u h n p ≫= λ m, child u h m i.
Proof. rewrite walk_app. destruct (walk u h n p) as [m|]; [|done]. cbn. by destruct (child u h m i). Qed.

Lemma nibbles_inj a : ∀ b, name_ok a → name_ok b → nibbles a = nibbles b → a = b.
Proof.
  induction a as [|c a IH]; intros [|d b] Ha Hb E; try done.
  apply Forall_cons in Ha as [Hc Ha]. apply Forall_cons in Hb as [Hd Hb]. cbn in E. injection E as E1 E2 E.
  f_equal; [|by apply IH].
  pose proof (Z.div_mod c 16). pose proof (Z.div_mod d 16). pose proof (Z.mod_pos_bound c 16). pose proof (Z.mod_pos_bound d 16).
  pose proof (Z.div_pos c 16). pose proof (Z.div_pos d 16). lia.
Qed.

(** ** The invariant *)

Record table_ok (u : loc) (h : gmap Z obj) (t : loc) : Prop := {
  tk_u : is_Some (h !! u);
  tk_node : ∀ p n, walk u h t p = Some n → ∃ c k v next, h !! n = Some (Otrie_node c k v next) ∧ length next = 16%nat;
  tk_tree : ∀ p q n, walk u h t p = Some n → walk u h t q = Some n → p = q;
  tk_syms : ∀ p n v, walk u h t p = Some n → node_val u h n = Some v → ∃ str, p = nibbles str ∧ name_ok str ∧ named h v str }.

Definition intern_ok (s : st) : Prop :=
  mem_ok (s_mem s) ∧ table_ok (o_undefined (s_img s)) (s_heap s) (o_intern_table (s_img s)).

Section table.
Context (u t : loc) (h : gmap Z obj) (Hok : table_ok u h t).

(** New objects elsewhere change no path. *)
Lemma walk_weaken h' : h ⊆ h' → ∀ p, walk u h' t p = walk u h t p.
Proof.
  intros Hs p. induction p as [|i p IH] using rev_ind; [done|]. rewrite !walk_snoc, IH.
  destruct (walk u h t p) as [n|] eqn:E; [|done]. cbn. destruct (tk_node _ _ _ Hok _ _ E) as (c & k & v & next & Hn & _).
  unfold child. by rewrite Hn, (lookup_weaken _ _ _ _ Hn Hs).
Qed.

Lemma named_grows h' l str : h ⊆ h' → named h l str → named h' l str.
Proof. intros Hs (id & sl & H1 & H2). exists id, sl. split; by eapply lookup_weaken. Qed.

Lemma node_val_weaken h' p n : h ⊆ h' → walk u h t p = Some n → node_val u h' n = node_val u h n.
Proof.
  intros Hs Hn. destruct (tk_node _ _ _ Hok _ _ Hn) as (c & k & v & next & Hn' & _).
  unfold node_val. by rewrite Hn', (lookup_weaken _ _ _ _ Hn' Hs).
Qed.

Lemma table_ok_weaken h' : h ⊆ h' → table_ok u h' t.
Proof.
  intros Hs. pose proof (walk_weaken h' Hs) as Hw. destruct Hok as [[o H1] H2 H3 H4]. split.
  - exists o. by eapply lookup_weaken.
  - intros p n. rewrite Hw. intros Hp. destruct (H2 _ _ Hp) as (c & k & v & next & Hn & ?).
    exists c, k, v, next. split; [by eapply lookup_weaken|done].
  - intros p q n. rewrite !Hw. apply H3.
  - intros p n v. rewrite Hw. intros Hp. rewrite (node_val_weaken h' p n Hs Hp). intros Hv.
    destruct (H4 _ _ _ Hp Hv) as (str & ? & ? & Hnm). exists str. split; [done|]. split; [done|]. by apply named_grows.
Qed.

Section link.
(** A new empty node [q] becomes the child [i] of the node at [p]. *)
Context (p : list nat) (n : loc) (i : nat) (c : Z) (k v : loc) (next : list loc) (q : loc).
Context (Hp : walk u h t p = Some n) (Hn : h !! n = Some (Otrie_node c k v next)).
Context (Hi : next !! i = Some u) (Hq : h !! q = None).
Definition linked : gmap Z obj :=
  <[n := Otrie_node c k v (<[i := q]> next)]> (<[q := Otrie_node 0 u u (replicate 16 u)]> h).

Lemma linked_ne : q ≠ u ∧ q ≠ n.
Proof. destruct (tk_u _ _ _ Hok) as [o Ho]. split; congruence. Qed.

Lemma linked_q : linked !! q = Some (Otrie_node 0 u u (replicate 16 u)).
Proof. destruct linked_ne. unfold linked. rewrite lookup_insert_ne by done. apply lookup_insert_eq. Qed.

Lemma linked_old l o : h !! l = Some o → l ≠ n → linked !! l = Some o.
Proof. intros Hl Hne. unfold linked. rewrite !lookup_insert_ne; congruence. Qed.

Lemma child_linked m j x : walk u h t p = Some m → child u linked m j = x →
  x = if decide (j = i) then Some q else child u h m j.
Proof.
  rewrite Hp. intros [= <-] <-. destruct linked_ne. unfold child, linked. rewrite lookup_insert_eq, Hn.
  destruct (decide (j = i)) as [->|Hne].
  - rewrite list_lookup_insert_eq by (by eapply lookup_lt_Some). cbn. by rewrite decide_False.
  - by rewrite list_lookup_insert_ne.
Qed.

Lemma walk_linked r : walk u linked t r = if decide (r = p ++ [i]) then Some q else walk u h t r.
Proof.
  induction r as [|j r IH] using rev_ind; [by rewrite decide_False by (by destruct p)|].
  rewrite walk_snoc, IH. destruct (decide (r = p ++ [i])) as [->|Hne].
  - assert (Hnone : walk u h t (p ++ [i]) = None).
    { rewrite walk_snoc, Hp. cbn. unfold child. rewrite Hn, Hi. cbn. by rewrite decide_True. }
    rewrite decide_False by (intros E; apply (f_equal length) in E; rewrite !length_app in E; cbn in E; lia).
    rewrite walk_snoc, Hnone. cbn. unfold child. rewrite linked_q.
    destruct (replicate 16 u !! j) as [y|] eqn:Ey; [|done]. apply lookup_replicate in Ey as [-> _]. cbn. by rewrite decide_True.
  - rewrite walk_snoc. destruct (walk u h t r) as [m|] eqn:Em.
    2:{ rewrite decide_False; [done|]. intros [-> _]%app_inj_tail. congruence. }
    cbn. destruct (decide (r = p)) as [->|Hrp].
    + rewrite (child_linked m j _ Em eq_refl). repeat case_decide; simplify_list_eq; done.
    + rewrite decide_False by (intros [? _]%app_inj_tail; done).
      destruct (tk_node _ _ _ Hok _ _ Em) as (c' & k' & v' & next' & Hm & _).
      assert (m ≠ n) by (intros ->; by apply Hrp, (tk_tree _ _ _ Hok _ _ n)).
      unfold child. by rewrite Hm, (linked_old m _ Hm).
Qed.

Lemma node_val_linked r m : walk u h t r = Some m → node_val u linked m = node_val u h m.
Proof.
  intros Hm. unfold node_val. destruct (decide (m = n)) as [->|Hne].
  - unfold linked. by rewrite lookup_insert_eq, Hn.
  - destruct (tk_node _ _ _ Hok _ _ Hm) as (c' & k' & v' & next' & Hm' & _). by rewrite (linked_old m _ Hm' Hne), Hm'.
Qed.

Lemma named_linked l str : named h l str → named linked l str.
Proof. intros (id & sl & H1 & H2). exists id, sl. split; apply linked_old; congruence. Qed.

Lemma table_ok_linked : table_ok u linked t.
Proof.
  pose proof Hok as [[o H1] H2 H3 H4]. destruct linked_ne as [Hqu Hqn].
  assert (Hnq : ∀ r, walk u h t r ≠ Some q).
  { intros r Hr. destruct (H2 _ _ Hr) as (? & ? & ? & ? & Hr' & _). congruence. }
  split.
  - destruct (decide (u = n)) as [->|Hne]; [unfold linked; rewrite lookup_insert_eq; eauto|]. exists o. by apply linked_old.
  - intros r m. rewrite walk_linked. case_decide.
    + intros [= <-]. rewrite linked_q. do 4 eexists. split; [done|]. by rewrite length_replicate.
    + intros Hm. destruct (H2 _ _ Hm) as (c' & k' & v' & next' & Hm' & Hl).
      destruct (decide (m = n)) as [->|Hne]; [|do 4 eexists; split; [by apply linked_old|done]].
      unfold linked. rewrite lookup_insert_eq. do 4 eexists. split; [done|]. rewrite length_insert. congruence.
  - intros r1 r2 m. rewrite !walk_linked. do 2 case_decide; subst; try done.
    + intros [= <-] Hr. by destruct (Hnq r2).
    + intros Hr [= <-]. by destruct (Hnq r1).
    + apply H3.
  - intros r m w. rewrite walk_linked. case_decide.
    + intros [= <-]. unfold node_val. rewrite linked_q. by rewrite decide_True.
    + intros Hm. rewrite (node_val_linked r m Hm). intros Hw. destruct (H4 _ _ _ Hm Hw) as (str & ? & ? & ?).
      exists str. split; [done|]. split; [done|]. by apply named_linked.
Qed.
End link.

Section value.
(** The node of [str] gets its symbol. *)
Context (str : list Z) (n : loc) (c : Z) (k v : loc) (next : list loc) (w : loc).
Context (Hp : walk u h t (nibbles str) = Some n) (Hn : h !! n = Some (Otrie_node c k v next)).
Context (Hstr : name_ok str) (Hw : named h w str) (Hwu : w ≠ u).
Definition valued : gmap Z obj := <[n := Otrie_node c k w next]> h.

Lemma valued_old l o : h !! l = Some o → l ≠ n → valued !! l = Some o.
Proof. intros Hl Hne. unfold valued. by rewrite lookup_insert_ne. Qed.

Lemma walk_valued r : walk u valued t r = walk u h t r.
Proof.
  induction r as [|j r IH] using rev_ind; [done|]. rewrite !walk_snoc, IH. destruct (walk u h t r) as [m|]; [|done]. cbn.
  unfold child, valued. destruct (decide (m = n)) as [->|Hne]; [by rewrite lookup_insert_eq, Hn|by rewrite lookup_insert_ne].
Qed.

Lemma node_val_valued m : node_val u valued m = if decide (m = n) then Some w else node_val u h m.
Proof.
  unfold node_val, valued. destruct (decide (m = n)) as [->|Hne].
  - rewrite lookup_insert_eq. by rewrite decide_False.
  - by rewrite lookup_insert_ne.
Qed.

Lemma named_valued l s : named h l s → named valued l s.
Proof. intros (id & sl & H1 & H2). exists id, sl. split; apply valued_old; congruence. Qed.

Lemma table_ok_valued : table_ok u valued t.
Proof.
  pose proof Hok as [[o H1] H2 H3 H4]. split.
  - destruct (decide (u = n)) as [->|Hne]; [unfold valued; rewrite lookup_insert_eq; eauto|]. exists o. by apply valued_old.
  - intros r m. rewrite walk_valued. intros Hm. destruct (H2 _ _ Hm) as (c' & k' & v' & next' & Hm' & Hl).
    destruct (decide (m = n)) as [->|Hne]; [|do 4 eexists; split; [by apply valued_old|done]].
    unfold valued. rewrite lookup_insert_eq. do 4 eexists. split; [done|]. congruence.
  - intros r1 r2 m. rewrite !walk_valued. apply H3.
  - intros r m x. rewrite walk_valued, node_val_valued. intros Hm. case_decide as Hd.
    + subst m. intros [= <-]. exists str. split; [by eapply H3|]. split; [done|]. by apply named_valued.
    + intros Hx. destruct (H4 _ _ _ Hm Hx) as (str' & ? & ? & ?). exists str'. split; [done|]. split; [done|]. by apply named_valued.
Qed.
End value.
End table.

(** ** Runs that extend the table *)

(** From [s] to [s'] the table only grew: its paths and symbols stay, the nodes
    it gained have no symbol, and nothing else changed but for new objects. *)
Record table_grows (s s' : st) : Prop := {
  tg_ok : intern_ok s';
  tg_img : s_img s' = s_img s;
  tg_rt : s_rt s' = s_rt s;
  tg_count : zuo_symbol_count s' = zuo_symbol_count s;
  tg_at : ∀ p n, table_at s p = Some n → table_at s' p = Some n;
  tg_new : ∀ p n, table_at s' p = Some n → table_at s p = Some n
    ∨ (table_at s p = None ∧ s_heap s !! n = None ∧ node_val (o_undefined (s_img s)) (s_heap s') n = None);
  tg_val : ∀ p n, table_at s p = Some n →
    node_val (o_undefined (s_img s)) (s_heap s') n = node_val (o_undefined (s_img s)) (s_heap s) n;
  tg_live : ∀ l, is_Some (s_heap s !! l) → is_Some (s_heap s' !! l);
  tg_keep : ∀ l o, s_heap s !! l = Some o → (∀ p, table_at s p ≠ Some l) → s_heap s' !! l = Some o }.

Lemma table_grows_refl s : intern_ok s → table_grows s s.
Proof. intros H. split; auto. Qed.

Lemma table_grows_trans s1 s2 s3 : table_grows s1 s2 → table_grows s2 s3 → table_grows s1 s3.
Proof.
  intros [A1 A2 A3 A4 A5 A6 A7 A9 A8] [B1 B2 B3 B4 B5 B6 B7 B9 B8]. rewrite A2 in B6, B7. split; try congruence; auto.
  - intros p n Hp. destruct (B6 p n Hp) as [H|(H & Hf & Hv)].
    + destruct (A6 p n H) as [?|(? & Hf & Hv)]; [by left|]. right. split; [done|]. split; [done|]. by rewrite (B7 p n H).
    + right. split; [|split; [|done]].
      * destruct (table_at s1 p) as [m|] eqn:E; [|done]. rewrite (A5 p m E) in H. done.
      * destruct (s_heap s1 !! n) eqn:E; [|done]. destruct (A9 n) as [? E']; [by eexists|]. congruence.
  - intros p n Hp. rewrite (B7 p n (A5 p n Hp)). by apply (A7 p).
  - intros l o Hl Hnp. apply B8; [by apply A8|]. intros p Hp. destruct (A6 p l Hp) as [H|(_ & H & _)]; [by eapply Hnp|congruence].
Qed.

(** A symbol of the table is still there. *)
Lemma table_grows_interned s s' str : intern_ok s → table_grows s s' → interned s' str = interned s str.
Proof.
  intros Hok Hg. unfold interned. destruct (table_at s (nibbles str)) as [n|] eqn:E.
  - rewrite (tg_at _ _ Hg _ _ E). cbn. rewrite (tg_img _ _ Hg). by apply (tg_val _ _ Hg (nibbles str)).
  - destruct (table_at s' (nibbles str)) as [n|] eqn:E'; [|done]. cbn. rewrite (tg_img _ _ Hg).
    destruct (tg_new _ _ Hg _ _ E') as [?|(_ & _ & ->)]; [congruence|done].
Qed.

(** The slot of a node tells whether there is a child. *)
Lemma slot_ok s p n i :
  intern_ok s → table_at s p = Some n → (i < 16)%nat →
  ∃ x, trie_next n (Z.of_nat i) s = Ok x s
    ∧ ((x = o_undefined (s_img s) ∧ table_at s (p ++ [i]) = None)
       ∨ (x ≠ o_undefined (s_img s) ∧ table_at s (p ++ [i]) = Some x)).
Proof.
  intros [_ Ht] Hp Hi. destruct (tk_node _ _ _ Ht p n Hp) as (c & k & v & next & Hn & Hl).
  destruct (lookup_lt_is_Some_2 next i) as [x Hx]; [lia|]. exists x.
  split; [eapply trie_next_ok; [exact Hn|by rewrite Nat2Z.id]|].
  unfold table_at in *. rewrite walk_snoc, Hp. cbn. unfold child. rewrite Hn, Hx. cbn.
  case_decide; [left|right]; auto.
Qed.

(** [node->next[i] = zuo_trie_node()] *)
Lemma link_ok s p n i :
  intern_ok s → table_at s p = Some n → (i < 16)%nat → table_at s (p ++ [i]) = None →
  ∃ s' q, (q <- zuo_trie_node ;; set_trie_next n (Z.of_nat i) q) s = Ok tt s' ∧ table_grows s s'
    ∧ table_at s' (p ++ [i]) = Some q.
Proof.
  intros [Hm Ht] Hp Hi Hnone. destruct (tk_node _ _ _ Ht p n Hp) as (c & k & v & next & Hn & Hl).
  destruct (zuo_trie_node_ok s Hm) as (q & s1 & E & [Hq _ Hh1 Hm1 Hi1 Hr1 _] & Hc1 & _). unfold empty_node in Hh1.
  set (u := o_undefined (s_img s)) in *. set (t := o_intern_table (s_img s)) in *.
  assert (Hslot : next !! i = Some u).
  { destruct (lookup_lt_is_Some_2 next i) as [x Hx]; [lia|]. rewrite Hx. f_equal.
    unfold table_at in Hp, Hnone. rewrite walk_snoc, Hp in Hnone. cbn in Hnone. unfold child in Hnone. rewrite Hn, Hx in Hnone.
    cbn in Hnone. by case_decide. }
  assert (Hqn : q ≠ n) by congruence.
  assert (Hn1 : s_heap s1 !! n = Some (Otrie_node c k v next)) by (rewrite Hh1, lookup_insert_ne by congruence; done).
  set (o' := Otrie_node c k v (<[i := q]> next)). exists (set_heap_at n o' s1), q.
  assert (Eh : s_heap (set_heap_at n o' s1) = linked u (s_heap s) n i c k v next q)
    by (rewrite s_heap_set, Hh1; done).
  assert (Ew : ∀ r, table_at (set_heap_at n o' s1) r = if decide (r = p ++ [i]) then Some q else table_at s r).
  { intros r. unfold table_at. rewrite s_img_set, Hi1, Eh. by apply (walk_linked u t (s_heap s) Ht p). }
  split.
  { run_step E. unfold set_trie_next. run_step (get_ok _ _ _ Hn1). rewrite Nat2Z.id, decide_True by lia.
    by apply (put_ok _ _ _ _ Hn1). }
  split; [|by rewrite Ew, decide_True]. split.
  - split; [by eapply put_mem_ok|]. rewrite s_img_set, Hi1, Eh. by apply (table_ok_linked u t (s_heap s) Ht p).
  - by rewrite s_img_set, Hi1.
  - by rewrite s_rt_set, Hr1.
  - by rewrite s_count_set, Hc1.
  - intros r m Hr. rewrite Ew. rewrite decide_False; [done|]. intros ->. congruence.
  - intros r m. rewrite Ew. case_decide as Hd; [|by left]. intros [= <-]. subst r. right. split; [done|]. split; [done|].
    unfold node_val. rewrite Eh, (linked_q u t (s_heap s) Ht n i c k v next q Hn Hq). by rewrite decide_True.
  - intros r m Hr. rewrite Eh. by apply (node_val_linked u t (s_heap s) Ht n i c k v next q Hn Hq r).
  - intros l [o Ho]. rewrite s_heap_set, Hh1. destruct (decide (l = n)) as [->|]; [rewrite lookup_insert_eq; eauto|].
    rewrite !lookup_insert_ne by congruence. eauto.
  - intros l o Ho Hnp. rewrite s_heap_set, Hh1. rewrite !lookup_insert_ne; [done|congruence|].
    intros <-. by apply (Hnp p).
Qed.

(** One step of the walk, after the check for a missing node. *)
Lemma step_ok s p n i :
  intern_ok s → table_at s p = Some n → (i < 16)%nat →
  ∃ s' q, (x <- trie_next n (Z.of_nat i) ;; absent <- is_zi o_undefined x ;;
           (if absent then q <- zuo_trie_node ;; set_trie_next n (Z.of_nat i) q else ret tt) ;;;
           trie_next n (Z.of_nat i)) s = Ok q s'
    ∧ table_grows s s' ∧ table_at s' (p ++ [i]) = Some q.
Proof.
  intros Hok Hp Hi. destruct (slot_ok s p n i Hok Hp Hi) as (x & Ex & [[Hx Hnone]|[Hx Hsome]]).
  - destruct (link_ok s p n i Hok Hp Hi Hnone) as (s' & q & E & Hg & Hq). exists s', q. split; [|done].
    run_step Ex. run_step (is_zi_eq o_undefined x s Hx). run_step E.
    destruct (slot_ok s' p n i (tg_ok _ _ Hg) (tg_at _ _ Hg _ _ Hp) Hi) as (y & Ey & [[_ Hn]|[_ Hs]]); congruence.
  - exists s, x. split; [|split; [by apply table_grows_refl|done]].
    run_step Ex. run_step (is_zi_ne o_undefined x s Hx).
    by rewrite (bind_ok (ret tt) _ _ _ _ eq_refl).
Qed.

(** The whole walk: it reaches the node of the name, or, when symbols are only
    looked for, finds that there is none. *)
Lemma intern_walk_ok str_obj str : ∀ s p node,
  intern_ok s → name_ok str → table_at s p = Some node →
  ∃ s' r, intern_walk str node str_obj s = Ok r s' ∧ table_grows s s'
    ∧ match r with
      | inr m => table_at s' (p ++ nibbles str) = Some m
      | inl f => str_obj = o_false (s_img s) ∧ f = o_false (s_img s) ∧ table_at s (p ++ nibbles str) = None
      end.
Proof.
  induction str as [|c str IH]; intros s p node Hok Hstr Hp.
  - exists s, (inr node). cbn. rewrite app_nil_r. split; [done|]. split; [by apply table_grows_refl|done].
  - apply Forall_cons in Hstr as [Hc Hstr]. cbn [intern_walk nibbles].
    rewrite (proj2 (Z.eqb_neq c 0)) by lia. cbn zeta. rewrite nibble_land, nibble_shift.
    pose proof (Z.mod_pos_bound c 16 ltac:(lia)) as Hlo.
    assert (Hhi : 0 ≤ c / 16 < 16) by (split; [apply Z.div_pos; lia|apply Z.div_lt_upper_bound; lia]).
    destruct (slot_ok s p node (Z.to_nat (c mod 16)) Hok Hp ltac:(lia)) as (x & Ex & Hx).
    destruct (step_ok s p node (Z.to_nat (c mod 16)) Hok Hp ltac:(lia)) as (s1 & q1 & E1 & Hg1 & Hq1).
    rewrite !Z2Nat.id in Ex, E1 by lia. rewrite (bind_ok _ _ _ _ _ Ex) in E1. rewrite (bind_ok _ _ _ _ _ Ex).
    set (absent := bool_decide (x = o_undefined (s_img s))).
    assert (Ea : is_zi o_undefined x s = Ok absent s) by done.
    rewrite (bind_ok _ _ _ _ _ Ea) in E1. rewrite (bind_ok _ _ _ _ _ Ea). rewrite (bind_ok (is_zi o_false str_obj) _ _ _ _ eq_refl).
    destruct (absent && bool_decide (str_obj = o_false (s_img s))) eqn:Elook.
    { apply andb_true_iff in Elook as [Hab%bool_decide_eq_true Hlk%bool_decide_eq_true].
      exists s, (inl (o_false (s_img s))). split; [done|]. split; [by apply table_grows_refl|]. split; [done|]. split; [done|].
      destruct Hx as [[_ Hx]|[Hx _]]; [|done]. unfold table_at in *. change (c :: str) with ([c] ++ str).
      unfold nibbles in *. cbn. rewrite cons_middle, app_assoc, walk_app, Hx. done. }
    rewrite <- bind_assoc, (bind_ok _ _ _ _ _ E1).
    destruct (step_ok s1 (p ++ [Z.to_nat (c mod 16)]) q1 (Z.to_nat (c / 16)) (tg_ok _ _ Hg1) Hq1 ltac:(lia))
      as (s2 & q2 & E2 & Hg2 & Hq2).
    rewrite !Z2Nat.id in E2 by lia.
    destruct (IH s2 _ q2 (tg_ok _ _ Hg2) Hstr Hq2) as (s' & r & E3 & Hg3 & Hr).
    exists s', r. split.
    { rewrite <- E3. rewrite <- (bind_ok _ (λ node, intern_walk str node str_obj) _ _ _ E2).
      destruct (slot_ok s1 _ q1 (Z.to_nat (c / 16)) (tg_ok _ _ Hg1) Hq1 ltac:(lia)) as (y & Ey & _).
      rewrite Z2Nat.id in Ey by lia. rewrite bind_assoc, !(bind_ok _ _ _ _ _ Ey), bind_assoc.
      rewrite !(bind_ok (is_zi o_undefined y) _ _ _ _ eq_refl). by rewrite bind_assoc. }
    pose proof (table_grows_trans _ _ _ Hg1 Hg2) as Hg. split; [by eapply table_grows_trans|].
    assert (Ep : p ++ nibbles (c :: str) = ((p ++ [Z.to_nat (c mod 16)]) ++ [Z.to_nat (c / 16)]) ++ nibbles str)
      by (by rewrite <- !app_assoc).
    rewrite Ep. destruct r as [f|m]; [|done]. rewrite (tg_img _ _ Hg) in Hr. destruct Hr as (-> & -> & Hr).
    split; [done|]. split; [done|].
    apply eq_None_not_Some. intros [m Em]. pose proof (tg_at _ _ Hg _ _ Em). congruence.
Qed.

(** ** The symbol of a name *)

(** Where a new symbol takes its name from. *)
Definition name_source (s : st) (str : list Z) (str_obj : loc) : Prop :=
  str_obj ≠ o_false (s_img s)
  ∧ (str_obj = o_undefined (s_img s) ∨ (str_obj ≠ o_undefined (s_img s) ∧ s_heap s !! str_obj = Some (Ostring str))).

Definition make_from (in_str : list Z) (str_obj : loc) : M loc :=
  fresh <- is_zi o_undefined str_obj ;;
  if fresh then zuo_make_symbol in_str else zuo_make_symbol_from_string str_obj.

(** A new symbol with the name, and the rest of the heap as it was. *)
Lemma make_from_ok s str str_obj :
  mem_ok (s_mem s) → name_ok str → name_source s str str_obj →
  ∃ w s', make_from str str_obj s = Ok w s' ∧ mem_ok (s_mem s') ∧ s_img s' = s_img s ∧ s_rt s' = s_rt s
    ∧ zuo_symbol_count s' = zuo_symbol_count s + 1 ∧ s_heap s ⊆ s_heap s' ∧ s_heap s !! w = None ∧ named (s_heap s') w str.
Proof.
  intros Hm Hstr [_ Hsrc]. unfold make_from.
  assert (Hz : c_str str = str) by (apply c_str_id; eapply Forall_impl; [exact Hstr|]; cbn; lia).
  destruct Hsrc as [->|[Hne Hs]].
  - run_step (is_zi_eq o_undefined _ s eq_refl). unfold zuo_make_symbol.
    destruct (zuo_string_ok str s Hm) as (sl & s1 & E1 & [Hf1 _ Hh1 Hm1 Hi1 Hr1 _] & Hc1 & _). rewrite Hz in Hh1. run_step E1.
    destruct (zuo_make_symbol_from_string_ok sl s1 Hm1) as (w & s2 & E2 & [Hf2 _ Hh2 Hm2 Hi2 Hr2 _] & Hc2 & _).
    assert (Hsub1 : s_heap s ⊆ s_heap s1) by (rewrite Hh1; by apply insert_subseteq).
    assert (Hsub2 : s_heap s1 ⊆ s_heap s2) by (rewrite Hh2; by apply insert_subseteq).
    exists w, s2. split; [done|]. split; [done|]. split; [congruence|]. split; [congruence|]. split; [lia|].
    split; [by etransitivity|]. split; [by eapply lookup_weaken_None|].
    exists (zuo_symbol_count s1), sl. split; [rewrite Hh2; apply lookup_insert_eq|].
    eapply lookup_weaken; [|exact Hsub2]. rewrite Hh1. apply lookup_insert_eq.
  - run_step (is_zi_ne o_undefined _ s Hne).
    destruct (zuo_make_symbol_from_string_ok str_obj s Hm) as (w & s2 & E2 & [Hf2 _ Hh2 Hm2 Hi2 Hr2 _] & Hc2 & _).
    assert (Hsub2 : s_heap s ⊆ s_heap s2) by (rewrite Hh2; by apply insert_subseteq).
    exists w, s2. do 5 (split; [done|]). split; [done|]. split; [done|].
    exists (zuo_symbol_count s), str_obj. split; [rewrite Hh2; apply lookup_insert_eq|by eapply lookup_weaken].
Qed.

(** What interning the name [str] does: [l] is its symbol from now on, the
    same as before if there was one, and all other names keep theirs. *)
Record interns (s : st) (str : list Z) (l : loc) (s' : st) : Prop := {
  in_ok : intern_ok s';
  in_img : s_img s' = s_img s;
  in_rt : s_rt s' = s_rt s;
  in_here : interned s' str = Some l;
  in_named : named (s_heap s') l str;
  in_other : ∀ str', name_ok str' → str' ≠ str → interned s' str' = interned s str';
  in_old : ∀ l0, interned s str = Some l0 → l = l0 ∧ zuo_symbol_count s' = zuo_symbol_count s;
  in_new : interned s str = None → s_heap s !! l = None ∧ zuo_symbol_count s' = zuo_symbol_count s + 1;
  in_keep : ∀ l o, s_heap s !! l = Some o → (∀ p, table_at s p ≠ Some l) → s_heap s' !! l = Some o }.

Lemma interned_named s str l : intern_ok s → name_ok str → interned s str = Some l → named (s_heap s) l str.
Proof.
  intros [_ Ht] Hstr. unfold interned. destruct (table_at s (nibbles str)) as [n|] eqn:E; [|done]. cbn. intros Hv.
  destruct (tk_syms _ _ _ Ht _ _ _ E Hv) as (str' & En & Hstr' & Hnm). by rewrite (nibbles_inj str str' Hstr Hstr' En).
Qed.

Lemma intern_at_ok s s1 str str_obj node :
  intern_ok s → table_grows s s1 → name_ok str → table_at s1 (nibbles str) = Some node → name_source s str str_obj →
  ∃ l s', intern_at str node str_obj s1 = Ok l s' ∧ interns s str l s'.
Proof.
  intros Hok Hg Hstr Hn Hsrc. pose proof (tg_ok _ _ Hg) as [Hm1 Ht1].
  pose proof (table_grows_interned s s1 str Hok Hg) as Hint.
  assert (Hi1 : interned s1 str = node_val (o_undefined (s_img s1)) (s_heap s1) node) by (unfold interned; by rewrite Hn).
  destruct (tk_node _ _ _ Ht1 _ _ Hn) as (c & k & v & next & Hnode & _).
  unfold intern_at. run_step (trie_val_ok _ _ _ _ _ _ Hnode).
  destruct (decide (v = o_undefined (s_img s1))) as [Hv|Hv].
  - run_step (is_zi_eq o_undefined v s1 Hv).
    assert (Hsrc1 : name_source s1 str str_obj).
    { destruct Hsrc as [Hf Hs]. rewrite <- (tg_img _ _ Hg) in Hf, Hs. split; [done|].
      destruct Hs as [?|[? Hs]]; [by left|right]. split; [done|]. apply (tg_keep _ _ Hg); [done|].
      intros p Hp. destruct Hok as [_ Ht]. destruct (tk_node _ _ _ Ht _ _ Hp) as (? & ? & ? & ? & ? & _). congruence. }
    run_step (is_zi_ne o_false str_obj s1 (proj1 Hsrc1)). rewrite <- bind_assoc. fold (make_from str str_obj).
    destruct (make_from_ok s1 str str_obj Hm1 Hstr Hsrc1) as (w & s2 & E2 & Hm2 & Hi2 & Hr2 & Hc2 & Hsub & Hw & Hnm).
    assert (E3 : (fresh <- is_zi o_undefined str_obj ;;
      (if fresh then zuo_make_symbol str else zuo_make_symbol_from_string str_obj)) s1 = Ok w s2) by exact E2.
    rewrite (bind_ok _ _ _ _ _ E3). pose proof (lookup_weaken _ _ _ _ Hnode Hsub) as Hnode2.
    set (o' := Otrie_node c k w next). set (s3 := set_heap_at node o' s2).
    assert (Ev : set_trie_val node w s2 = Ok tt s3).
    { unfold set_trie_val. run_step (get_ok _ _ _ Hnode2). by apply (put_ok _ _ _ _ Hnode2). }
    rewrite (bind_ok _ _ _ _ _ Ev). exists w, s3.
    set (u := o_undefined (s_img s1)) in *. set (t := o_intern_table (s_img s1)) in *.
    pose proof (table_ok_weaken u t _ Ht1 _ Hsub) as Ht2.
    assert (Hp2 : walk u (s_heap s2) t (nibbles str) = Some node) by (by rewrite (walk_weaken u t _ Ht1 _ Hsub)).
    assert (Hwu : w ≠ u) by (destruct (tk_u _ _ _ Ht1) as [? ?]; congruence).
    assert (Eh : s_heap s3 = valued (s_heap s2) node c k next w) by (unfold s3; by rewrite s_heap_set).
    assert (Ei : s_img s3 = s_img s1) by (unfold s3; by rewrite s_img_set).
    assert (Hat : ∀ p, table_at s3 p = table_at s1 p).
    { intros p. unfold table_at. rewrite Ei, Eh. rewrite (walk_valued u t _ node c k v next w Hnode2).
      by apply walk_weaken. }
    split.
    { eapply (trie_val_ok _ c k w next). unfold valued in Eh. by rewrite Eh, lookup_insert_eq. }
    assert (Hnone : interned s str = None) by (rewrite <- Hint, Hi1; unfold node_val; by rewrite Hnode, decide_True).
    split; try done.
    + split; [by eapply put_mem_ok|]. rewrite Ei, Eh. by eapply (table_ok_valued u t (s_heap s2) Ht2 str).
    + rewrite Ei. by apply tg_img.
    + unfold s3. rewrite s_rt_set, Hr2. by apply tg_rt.
    + unfold interned. rewrite Hat, Hn. cbn. rewrite Ei, Eh, (node_val_valued u _ node c k next w Hwu). by rewrite decide_True.
    + rewrite Eh. by apply (named_valued (s_heap s2) node c k v next w Hnode2).
    + intros str' Hstr' Hne. rewrite <- (table_grows_interned s s1 str' Hok Hg). unfold interned. rewrite Hat.
      destruct (table_at s1 (nibbles str')) as [m|] eqn:Em; [|done]. cbn. rewrite Ei, Eh, (node_val_valued u _ node c k next w Hwu).
      rewrite decide_False; [by apply (node_val_weaken u t (s_heap s1) Ht1 _ (nibbles str'))|].
      intros ->. apply Hne. apply nibbles_inj; try done. by eapply (tk_tree _ _ _ Ht1).
    + intros l0. by rewrite Hnone.
    + intros _. split.
      * destruct (s_heap s !! w) eqn:E; [|done]. destruct (tg_live _ _ Hg w) as [? ?]; [by eexists|]. congruence.
      * unfold s3. rewrite s_count_set, Hc2. by rewrite (tg_count _ _ Hg).
    + intros l o Hl Hp. pose proof (tg_keep _ _ Hg _ _ Hl Hp) as Hl1. rewrite Eh. unfold valued. rewrite lookup_insert_ne; [by eapply lookup_weaken|].
      intros <-. destruct (tg_new _ _ Hg _ _ Hn) as [H|(_ & H & _)]; [by eapply Hp|congruence].
  - run_step (is_zi_ne o_undefined v s1 Hv). exists v, s1. split; [done|].
    assert (Hhere : interned s1 str = Some v) by (rewrite Hi1; unfold node_val; by rewrite Hnode, decide_False).
    split; try (by apply Hg).
    + done.
    + by apply (interned_named s1).
    + intros str' _ _. by apply table_grows_interned.
    + intros l0 Hl0. split; [congruence|]. by apply tg_count.
    + congruence.
Qed.

Lemma symbol_from_string_ok s str str_obj :
  intern_ok s → name_ok str → name_source s str str_obj →
  ∃ l s', zuo_symbol_from_string str str_obj s = Ok l s' ∧ interns s str l s'.
Proof.
  intros Hok Hstr Hsrc. unfold zuo_symbol_from_string. rewrite (bind_ok (zi o_intern_table) _ _ _ _ eq_refl).
  destruct (intern_walk_ok str_obj str s [] (o_intern_table (s_img s)) Hok Hstr eq_refl) as (s1 & r & E & Hg & Hr).
  rewrite (bind_ok _ _ _ _ _ E). destruct r as [f|m]; [by destruct Hr, Hsrc|]. by apply (intern_at_ok s s1).
Qed.

(** C17. Interning: [zuo_symbol_from_string] returns the one symbol with the
    name.  A name that has a symbol keeps it and no symbol is made; otherwise
    the symbol is new.  All other names keep their symbols, and no object outside
    the intern table changes. *)
Theorem zuo_symbol_from_string_correct s str str_obj :
  intern_ok s → name_ok str → name_source s str str_obj →
  ∃ l s', zuo_symbol_from_string str str_obj s = Ok l s' ∧ interns s str l s'.
Proof. apply symbol_from_string_ok. Qed.

(** Looking for a symbol without making it: with [z.o_false] for the string
    object the result is the symbol of the name, or [z.o_false] when it has none;
    every name keeps its symbol. *)
Theorem symbol_lookup_correct s str :
  intern_ok s → name_ok str →
  ∃ s', zuo_symbol_from_string str (o_false (s_img s)) s = Ok (default (o_false (s_img s)) (interned s str)) s'
    ∧ intern_ok s' ∧ zuo_symbol_count s' = zuo_symbol_count s ∧ ∀ str', interned s' str' = interned s str'.
Proof.
  intros Hok Hstr. unfold zuo_symbol_from_string. rewrite (bind_ok (zi o_intern_table) _ _ _ _ eq_refl).
  destruct (intern_walk_ok (o_false (s_img s)) str s [] (o_intern_table (s_img s)) Hok Hstr eq_refl) as (s1 & r & E & Hg & Hr).
  rewrite (bind_ok _ _ _ _ _ E). exists s1.
  assert (Hrest : intern_ok s1 ∧ zuo_symbol_count s1 = zuo_symbol_count s ∧ ∀ str', interned s1 str' = interned s str').
  { split; [apply Hg|]. split; [apply Hg|]. intros str'. by apply table_grows_interned. }
  split; [|done]. destruct Hrest as (Hok1 & _ & Hint). rewrite <- (Hint str). cbn [app] in Hr. destruct r as [f|m].
  - destruct Hr as (_ & -> & Hn). rewrite Hint. unfold interned. by rewrite Hn.
  - destruct Hok1 as [_ Ht1]. destruct (tk_node _ _ _ Ht1 _ _ Hr) as (c & k & v & next & Hnode & _).
    unfold intern_at, interned. rewrite Hr. cbn. unfold node_val. rewrite Hnode. run_step (trie_val_ok _ _ _ _ _ _ Hnode).
    destruct (decide (v = o_undefined (s_img s1))) as [Hv|Hv].
    + run_step (is_zi_eq o_undefined v s1 Hv). run_step (is_zi_eq o_false (o_false (s_img s)) s1 (f_equal o_false (eq_sym (tg_img _ _ Hg)))).
      unfold zi. by rewrite (tg_img _ _ Hg).
    + by run_step (is_zi_ne o_undefined v s1 Hv).
Qed.

(** Making symbols for a state's names. *)
Lemma zuo_symbol_ok s str :
  image_ok s → intern_ok s → name_ok str → ∃ l s', zuo_symbol str s = Ok l s' ∧ interns s str l s'.
Proof.
  intros Him Hok Hstr. unfold zuo_symbol. rewrite (bind_ok (zi o_undefined) _ _ _ _ eq_refl).
  apply symbol_from_string_ok; [done..|]. split; [|by left]. image_neq Him.
Qed.

Lemma undefined_false s : image_ok s → o_undefined (s_img s) ≠ o_false (s_img s).
Proof. intros Him. image_neq Him. Qed.

(** Symbols are equal as addresses exactly when their names are equal:
    interning two names in a row gives one address if and only if they are the
    same name. *)
Theorem symbols_by_name s a b :
  image_ok s → intern_ok s → name_ok a → name_ok b →
  ∃ la sa lb sb, zuo_symbol a s = Ok la sa ∧ zuo_symbol b sa = Ok lb sb ∧ (la = lb ↔ a = b).
Proof.
  intros Him Hok Ha Hb. destruct (zuo_symbol_ok s a Him Hok Ha) as (la & sa & Ea & Hia).
  assert (Hsrc : name_source sa b (o_undefined (s_img sa))).
  { split; [|by left]. rewrite (in_img _ _ _ _ Hia). by apply undefined_false. }
  destruct (symbol_from_string_ok sa b _ (in_ok _ _ _ _ Hia) Hb Hsrc) as (lb & sb & Eb & Hib).
  exists la, sa, lb, sb. split; [done|]. split; [done|]. split.
  - intros <-. destruct (decide (a = b)) as [|Hne]; [done|]. exfalso.
    pose proof (in_other _ _ _ _ Hib a Ha Hne) as Hsa. rewrite (in_here _ _ _ _ Hia) in Hsa.
    pose proof (interned_named _ _ _ (in_ok _ _ _ _ Hib) Ha Hsa) as (id & sl & H1 & H2).
    destruct (in_named _ _ _ _ Hib) as (id' & sl' & H1' & H2'). congruence.
  - intros <-. by destruct (in_old _ _ _ _ Hib _ (in_here _ _ _ _ Hia)) as [-> _].
Qed.

(** ** The booted table *)

(** All paths of the table, with their nodes. *)
Fixpoint nodes_from (fuel : nat) (u : loc) (h : gmap Z obj) (n : loc) (p : list nat) : option (list (list nat * loc)) :=
  match fuel with
  | O => None
  | S fuel' =>
      rest ← mapM (λ i, match child u h n i with
                        | None => Some []
                        | Some m => nodes_from fuel' u h m (p ++ [i])
                        end) (seq 0 16);
      Some ((p, n) :: mjoin rest)
  end.

Definition node_okb (u : loc) (h : gmap Z obj) (e : list nat * loc) : bool :=
  match h !! snd e with
  | Some (Otrie_node _ _ v next) =>
      Nat.eqb (length next) 16 &&
      (bool_decide (v = u) ||
       match h !! v with
       | Some (Osymbol _ sl) =>
           match h !! sl with
           | Some (Ostring str) => bool_decide (fst e = nibbles str) && forallb (λ c, (0 <? c) && (c <? 256)) str
           | _ => false
           end
       | _ => false
       end)
  | _ => false
  end.

Definition table_okb (s : st) : bool :=
  let u := o_undefined (s_img s) in
  let h := s_heap s in
  match nodes_from 100 u h (o_intern_table (s_img s)) [] with
  | Some es => match h !! u with Some _ => true | None => false end
               && forallb (node_okb u h) es && bool_decide (NoDup (snd <$> es))
  | None => false
  end.

Lemma node_okb_next u h e i c :
  node_okb u h e = true → child u h (snd e) i = Some c → (i < 16)%nat.
Proof.
  unfold node_okb, child. destruct (h !! snd e) as [o|]; [|done]. destruct o as [| | | | |cn k v next| | | | | | |]; try done.
  intros [Hl%Nat.eqb_eq _]%andb_true_iff. destruct (next !! i) eqn:E; [|done]. intros _. apply lookup_lt_Some in E. lia.
Qed.

Lemma nodes_from_complete fuel u h : ∀ n p es q m,
  nodes_from fuel u h n p = Some es → Forall (λ e, node_okb u h e = true) es → walk u h n q = Some m → (p ++ q, m) ∈ es.
Proof.
  induction fuel as [|fuel IH]; intros n p es q m H HF Hw; [done|]. cbn [nodes_from] in H.
  destruct (mapM _ _) as [rest|] eqn:Er; [|done]. cbn in H. injection H as <-. apply Forall_cons in HF as [Hn HF].
  destruct q as [|i q].
  - cbn in Hw. injection Hw as <-. rewrite app_nil_r. set_solver.
  - cbn in Hw. destruct (child u h n i) as [c|] eqn:Ec; [|done]. cbn in Hw. apply list_elem_of_further.
    pose proof (node_okb_next u h (p, n) i c Hn Ec) as Hi.
    apply mapM_Some in Er. destruct (Forall2_lookup_l _ _ _ i i Er) as (es' & Hes' & E); [by apply lookup_seq|].
    rewrite Ec in E. assert (Hsub : Forall (λ e, node_okb u h e = true) es').
    { apply Forall_forall. intros e He. rewrite Forall_forall in HF. apply HF, list_elem_of_join.
      exists es'. split; [done|]. by eapply list_elem_of_lookup_2. }
    pose proof (IH c (p ++ [i]) es' q m E Hsub Hw) as Hin. rewrite <- app_assoc in Hin.
    apply list_elem_of_join. exists es'. split; [done|]. by eapply list_elem_of_lookup_2.
Qed.

Lemma table_okb_sound s : mem_ok (s_mem s) → table_okb s = true → intern_ok s.
Proof.
  unfold table_okb. intros Hm H. destruct (nodes_from _ _ _ _ _) as [es|] eqn:E; [|done].
  apply andb_true_iff in H as [H H3%bool_decide_eq_true]. apply andb_true_iff in H as [H1 H2].
  assert (HF : Forall (λ e, node_okb (o_undefined (s_img s)) (s_heap s) e = true) es).
  { apply Forall_forall. intros e He. rewrite List.forallb_forall in H2. apply H2. by apply list_elem_of_In. }
  assert (Hin : ∀ p n, walk (o_undefined (s_img s)) (s_heap s) (o_intern_table (s_img s)) p = Some n → (p, n) ∈ es)
    by (intros p n Hw; exact (nodes_from_complete _ _ _ _ [] _ _ _ E HF Hw)).
  split; [done|]. split.
  - destruct (s_heap s !! _); [eauto|done].
  - intros p n Hw. rewrite Forall_forall in HF. specialize (HF _ (Hin _ _ Hw)). unfold node_okb in HF. cbn in HF.
    destruct (s_heap s !! n) as [[]|]; try done. apply andb_true_iff in HF as [Hl%Nat.eqb_eq _]. eauto 10.
  - intros p q n Hp%Hin Hq%Hin. apply list_elem_of_lookup in Hp as [i Hi], Hq as [j Hj].
    assert (i = j) as ->.
    { eapply (NoDup_lookup _ _ _ n H3); by rewrite list_lookup_fmap, ?Hi, ?Hj. }
    congruence.
  - intros p n v Hw Hv. rewrite Forall_forall in HF. specialize (HF _ (Hin _ _ Hw)). unfold node_okb in HF. cbn in HF.
    unfold node_val in Hv. destruct (s_heap s !! n) as [[]|]; try done.
    apply andb_true_iff in HF as [_ HF]. case_decide; [done|]. injection Hv as <-.
    rewrite bool_decide_false in HF by done. cbn in HF.
    destruct (s_heap s !! val) as [o|] eqn:Ev; [|done]. destruct o as [| | | |id sl| | | | | | | |]; try done.
    destruct (s_heap s !! sl) as [o|] eqn:Es; [|done]. destruct o as [| | |str| | | | | | | | |]; try done.
    apply andb_true_iff in HF as [->%bool_decide_eq_true HF]. eexists. split; [done|].
    split; [|by exists id, sl]. eapply forallb_Forall; [|exact HF]. intros c Hc. cbn in Hc. lia.
Qed.

Lemma booted_table : intern_ok booted.
Proof. apply table_okb_sound; [exact booted_ok|]. vm_compute. reflexivity. Qed.

Lemma car_name : name_ok (bytes_of "car").
Proof. repeat constructor. Qed.
Lemma pie_name : name_ok (bytes_of "pie").
Proof. repeat constructor. Qed.

Lemma booted_source : name_source booted (bytes_of "pie") (o_undefined (s_img booted)).
Proof. split; [exact (undefined_false booted booted_image)|left; reflexivity]. Qed.

Lemma zuo_symbol_from_string_correct_witness :
  ∃ l s', zuo_symbol_from_string (bytes_of "pie") (o_undefined (s_img booted)) booted = Ok l s'
    ∧ interns booted (bytes_of "pie") l s'.
Proof. exact (zuo_symbol_from_string_correct booted _ _ booted_table pie_name booted_source). Defined.

Lemma symbol_lookup_correct_witness :
  ∃ s', zuo_symbol_from_string (bytes_of "car") (o_false (s_img booted)) booted
      = Ok (default (o_false (s_img booted)) (interned booted (bytes_of "car"))) s'
    ∧ intern_ok s' ∧ zuo_symbol_count s' = zuo_symbol_count booted ∧ ∀ str', interned s' str' = interned booted str'.
Proof. exact (symbol_lookup_correct booted _ booted_table car_name). Defined.

Lemma symbols_by_name_witness :
  ∃ la sa lb sb, zuo_symbol (bytes_of "car") booted = Ok la sa ∧ zuo_symbol (bytes_of "pie") sa = Ok lb sb
    ∧ (la = lb ↔ bytes_of "car" = bytes_of "pie").
Proof. exact (symbols_by_name booted _ _ booted_image booted_table car_name pie_name). Defined.
