(* ===== verification/Datum.v ===== *)
(** * Printing data

    Trees of integers, strings, symbols, booleans and pairs, their text in
    write mode, and the proof that the printer, with its explicit stack of
    frames that it reuses in place, prints that text. *)

From S2P Require Import Prelude Sys Heap Alloc Gc GcCorrect Objects Trie Lists ImageOk Intern Sort Printer Reader Prims Interp Path Module Shell Sha256 Fasl Init Boot RoundTrip ListSpec InternSpec.

(** ** Data *)

Inductive datum :=
  | Dnull
  | Dbool (b : bool)
  | Dint (i : Z)
  | Dstr (b : list Z)
  | Dsym (name : list Z)
  | Dpair (a d : datum).

#[export] Instance datum_eq_dec : EqDecision datum.
Proof. solve_decision. Defined.

(** The digits of an integer, or a minus sign and digits *)
Definition int_like (name : list Z) : bool :=
  match name with
  | c :: r =>
      (isdigit c && forallb isdigit r)
      || ((c =? 45) && match r with c1 :: _ => isdigit c1 && forallb isdigit r | [] => false end)
  | [] => false
  end.

(** A name that reads as the symbol: characters of symbols, not the start of a
    hash mark, not the text of an integer and not the dot. *)
Definition readable (name : list Z) : Prop :=
  name_ok name ∧ Forall (λ c, in_symbol c = true) name ∧ name ≠ [] ∧ hd 0 name ≠ 35 ∧ name ≠ [46] ∧ int_like name = false.

#[export] Instance readable_dec name : Decision (readable name).
Proof. unfold readable, name_ok. apply _. Defined.

(** The datum at an address; its symbols are those of the intern table. *)
Fixpoint at_datum (s : st) (l : loc) (d : datum) : Prop :=
  match d with
  | Dnull => l = o_null (s_img s)
  | Dbool b => l = if b then o_true (s_img s) else o_false (s_img s)
  | Dint i => s_heap s !! l = Some (Ointeger i) ∧ in_s64 i
  | Dstr b => s_heap s !! l = Some (Ostring b) ∧ Forall is_byte b
  | Dsym name => interned s name = Some l ∧ readable name
  | Dpair a d' => ∃ la ld, s_heap s !! l = Some (Opair la ld) ∧ at_datum s la a ∧ at_datum s ld d'
  end.

(** ** Text *)

Definition int_text (i : Z) (t : list Z) : Prop :=
  ∃ ds, t = (if i <? 0 then [45] else []) ++ ds ∧ ds ≠ [] ∧ all_digits ds ∧ digits_value 0 ds = Z.abs i.

Definition atom_text (d : datum) (t : list Z) : Prop :=
  match d with
  | Dnull => t = bytes_of "()"
  | Dbool b => t = bytes_of (if b then "#t" else "#f")
  | Dint i => int_text i t
  | Dstr b => t = string_text b
  | Dsym name => t = name
  | Dpair _ _ => False
  end.

(** [tail_text] is the text of what follows the first element of a list. *)
Fixpoint text (d : datum) (t : list Z) : Prop :=
  match d with
  | Dpair a d' => ∃ ta td, t = [40] ++ ta ++ td ∧ text a ta ∧ tail_text d' td
  | _ => atom_text d t
  end
with tail_text (d : datum) (t : list Z) : Prop :=
  match d with
  | Dnull => t = [41]
  | Dpair a d' => ∃ ta td, t = [32] ++ ta ++ td ∧ text a ta ∧ tail_text d' td
  | _ => ∃ ta, t = [32; 46; 32] ++ ta ++ [41] ∧ atom_text d ta
  end.

(** A datum as a whole and as a tail, by one induction. *)
Lemma datum_both (P Q : datum → Prop) :
  (∀ d, (∀ a d', d ≠ Dpair a d') → P d) →
  (∀ a d, P a → Q d → P (Dpair a d)) →
  Q Dnull →
  (∀ d, (∀ a d', d ≠ Dpair a d') → d ≠ Dnull → P d → Q d) →
  (∀ a d, P a → Q d → Q (Dpair a d)) →
  ∀ d, P d ∧ Q d.
Proof. intros H1 H2 H3 H4 H5. induction d as [| | | | |a [Pa Qa] d [Pd Qd]]; split; auto. Qed.

(** ** Symbols are found without a change *)

Lemma child_next u h n i x s :
  u = o_undefined (s_img s) → h = s_heap s → child u h n i = Some x →
  trie_next n (Z.of_nat i) s = Ok x s ∧ x ≠ u.
Proof.
  intros -> -> H. unfold child in H. destruct (s_heap s !! n) as [[]|] eqn:E; try done.
  destruct (next !! i) as [y|] eqn:Ey; [|done]. cbn in H. case_decide; simplify_eq. split; [|done].
  eapply trie_next_ok; [exact E|by rewrite Nat2Z.id].
Qed.

Lemma intern_walk_found str : ∀ s node m so,
  name_ok str → InternSpec.walk (o_undefined (s_img s)) (s_heap s) node (nibbles str) = Some m →
  intern_walk str node so s = Ok (inr m) s.
Proof.
  induction str as [|c str IH]; intros s node m so Hn Hw.
  { cbn in Hw. simplify_eq. done. }
  apply Forall_cons in Hn as [Hc Hn]. cbn [intern_walk]. rewrite (proj2 (Z.eqb_neq c 0)) by lia. cbn zeta.
  change (nibbles (c :: str)) with ([Z.to_nat (c mod 16); Z.to_nat (c / 16)] ++ nibbles str) in Hw.
  cbn [app InternSpec.walk] in Hw.
  destruct (child _ _ node _) as [x|] eqn:Ex; [|done]. cbn [mbind option_bind] in Hw.
  destruct (child _ _ x _) as [y|] eqn:Ey; [|done]. cbn [mbind option_bind] in Hw.
  destruct (child_next _ _ _ _ _ s eq_refl eq_refl Ex) as [E1 N1]. destruct (child_next _ _ _ _ _ s eq_refl eq_refl Ey) as [E2 N2].
  rewrite Z2Nat.id in E1 by (pose proof (Z.mod_pos_bound c 16); lia).
  rewrite Z2Nat.id in E2 by (apply Z.div_pos; lia).
  replace (Z.land c ZUO_TRIE_BFACTOR_MASK) with (c mod 16) by (symmetry; apply (Z.land_ones c 4); lia).
  replace (Z.shiftr c ZUO_TRIE_BFACTOR_BITS) with (c / 16) by (symmetry; apply (Z.shiftr_div_pow2 c 4); lia).
  run_step E1. run_step (is_zi_ne o_undefined x s N1). rewrite (bind_ok _ _ _ _ _ (is_zi_bool o_false so s)).
  cbn [andb]. rewrite (bind_ok (ret tt) _ _ _ _ eq_refl). run_step E1. run_step E2. run_step (is_zi_ne o_undefined y s N2).
  rewrite (bind_ok (ret tt) _ _ _ _ eq_refl). run_step E2. by apply IH.
Qed.

Lemma symbol_found s str so l :
  intern_ok s → name_ok str → interned s str = Some l → zuo_symbol_from_string str so s = Ok l s.
Proof.
  intros [_ Ht] Hn Hl. unfold interned, table_at in Hl. destruct (InternSpec.walk _ _ _ _) as [m|] eqn:Em; [|done]. cbn in Hl.
  unfold zuo_symbol_from_string. rewrite (bind_ok (zi o_intern_table) _ _ _ _ eq_refl).
  run_step (intern_walk_found str s _ m so Hn Em). unfold intern_at. unfold node_val in Hl.
  destruct (s_heap s !! m) as [[]|] eqn:E; try done. case_decide; simplify_eq.
  run_step (trie_val_ok _ _ _ _ _ _ E). by run_step (is_zi_ne o_undefined l s ltac:(done)).
Qed.

(** ** Growth keeps data *)

Lemma intern_ok_grows s s' hn : intern_ok s → grows s s' hn → intern_ok s'.
Proof.
  intros [_ Ht] Hg. split; [apply Hg|]. rewrite (gr_img _ _ _ Hg).
  apply (table_ok_weaken _ _ _ Ht). by eapply grows_subseteq.
Qed.

Lemma interned_grows s s' hn str l : intern_ok s → grows s s' hn → interned s str = Some l → interned s' str = Some l.
Proof.
  intros [_ Ht] Hg. unfold interned, table_at. rewrite (gr_img _ _ _ Hg).
  rewrite (walk_weaken _ _ _ Ht _ (grows_subseteq _ _ _ Hg)). destruct (InternSpec.walk _ _ _ _) as [m|] eqn:Em; [|done].
  cbn. by rewrite (node_val_weaken _ _ _ Ht _ _ _ (grows_subseteq _ _ _ Hg) Em).
Qed.

Lemma at_datum_grows s s' hn d : intern_ok s → grows s s' hn → ∀ l, at_datum s l d → at_datum s' l d.
Proof.
  intros Hok Hg. induction d as [|b|i|b|n|a IHa d IHd]; intros l; cbn; rewrite ?(gr_img _ _ _ Hg); try done.
  - intros [H ?]. split; [by eapply grows_lookup|done].
  - intros [H ?]. split; [by eapply grows_lookup|done].
  - intros [H ?]. split; [by eapply interned_grows|done].
  - intros (la & ld & H & Ha & Hd). exists la, ld. split; [by eapply grows_lookup|auto].
Qed.

(** Objects added before stay added. *)
Lemma grows_keep s1 s2 hn hn' l o :
  grows s1 s2 hn' → hn !! l = Some o → s_heap s1 !! l = Some o → (hn' ∪ hn) !! l = Some o.
Proof.
  intros [Hd _ _ _ _ _ _ _] Hl Hl1. apply lookup_union_Some_raw. right. split; [|done].
  by eapply map_disjoint_Some_r.
Qed.

(** ** The printer *)

Fixpoint print_steps (d : datum) : nat :=
  match d with Dpair a d' => S (print_steps a + tail_steps d') | _ => 1 end
with tail_steps (d : datum) : nat :=
  match d with Dnull => 0 | Dpair a d' => print_steps a + tail_steps d' | _ => 1 end.

Section print.
Context (sf : nat).
Abbreviation self := (zuo_out_nested 2 (S sf)).

(** Going on after an object has been printed. *)
Definition after (f fuel : nat) (out : zuo_out_t) (stack : loc) : M zuo_out_t :=
  r <- out_resume self f out stack zuo_write_mode ;;
  let '(out, stack, next) := r in
  match next with
  | None => ret out
  | Some obj => out_loop self fuel out obj zuo_write_mode stack
  end.

Lemma out_loop_begin fuel out l stack s out' stack' s' :
  out_begin self out l zuo_write_mode stack s = Ok (out', stack') s' →
  out_loop self (S fuel) out l zuo_write_mode stack s = after (heap_fuel s') fuel out' stack' s'.
Proof. intros E. cbn [out_loop]. run_step E. by rewrite (bind_ok get_st _ _ _ _ eq_refl). Qed.

(** A datum is printed: whatever is on the stack, printing goes on with what
    is on the stack, the text added to the output. *)
Definition prints (d : datum) : Prop :=
  ∀ s l out stack frs fuel,
    image_ok s → intern_ok s → at_datum s l d → is_list (s_heap s) (null_of s) stack frs →
    ∃ t out' s' hn f, text d t ∧ adds out out' t ∧ grows s s' hn ∧ (length frs < f)%nat
      ∧ out_loop self (print_steps d + fuel) out l zuo_write_mode stack s = after f fuel out' stack s'.

(** The rest of a list, whose frame [op] is on the stack. *)
Definition prints_tail (d : datum) : Prop :=
  ∀ s0 s hn l out stack op stk frs fuel f,
    image_ok s0 → intern_ok s0 → grows s0 s hn → at_datum s0 l d →
    hn !! op = Some (Opair (o_true (s_img s0)) l) → s_heap s !! stack = Some (Opair op stk) →
    is_list (s_heap s0) (null_of s0) stk frs → (S (length frs) < f)%nat →
    ∃ t out' s' hn' f', tail_text d t ∧ adds out out' t ∧ grows s0 s' hn' ∧ (length frs < f')%nat
      ∧ after f (tail_steps d + fuel) out stack s = after f' fuel out' stk s'.

Lemma list_fuel s l vs : is_list (s_heap s) (null_of s) l vs → (length vs < heap_fuel s)%nat.
Proof. apply is_list_heap_fuel. Qed.

(** An object that the first half of the loop prints at once. *)
Lemma prints_atom d :
  (∀ a d', d ≠ Dpair a d') →
  (∀ s l out stack, image_ok s → intern_ok s → at_datum s l d →
    ∃ t out', atom_text d t ∧ adds out out' t ∧ out_begin self out l zuo_write_mode stack s = Ok (out', stack) s) →
  prints d.
Proof.
  intros Hd H s l out stack frs fuel Him Hin Hl Hst. destruct (H s l out stack Him Hin Hl) as (t & out' & Ht & Ha & E).
  exists t, out', s, ∅, (heap_fuel s). split; [by destruct d; try done; destruct (Hd a d)|]. split; [done|].
  split; [apply grows_refl, Him|]. split; [by eapply list_fuel|]. replace (print_steps d) with 1%nat by (by destruct d; try done; destruct (Hd a d)).
  by apply out_loop_begin.
Qed.

Lemma out_begin_tagged s l o out stack r :
  image_ok s → s_heap s !! l = Some o → o ≠ Osingleton →
  out_tagged self out l zuo_write_mode stack s = r → out_begin self out l zuo_write_mode stack s = r.
Proof.
  intros Him Hl Ho <-. pose proof (image_ne s l o Him Hl Ho) as Hne. unfold out_begin.
  rewrite (bind_ok get_st _ s s s eq_refl). cbn zeta.
  by rewrite !(decide_notin l _ (singletons (s_img s))) by (done || (unfold singletons; set_solver)).
Qed.

Lemma out_string_adds out s : adds out (out_string out s) (bytes_of s).
Proof. apply adds_bytes. Qed.

(** The nested call that prints the name of a symbol. *)
Lemma self_string s sl b out :
  image_ok s → s_heap s !! sl = Some (Ostring b) → self out sl zuo_display_mode s = Ok (out_bytes out b) s.
Proof.
  intros Him Hl. pose proof (image_ne s sl _ Him Hl ltac:(done)) as Hne.
  cbn [zuo_out_nested]. rewrite (bind_ok (zi o_null) _ s (o_null (s_img s)) s eq_refl). cbn [out_loop].
  assert (E : ∀ self, out_begin self out sl zuo_display_mode (o_null (s_img s)) s = Ok (out_bytes out b, o_null (s_img s)) s).
  { intros self'. unfold out_begin. rewrite (bind_ok get_st _ s s s eq_refl). cbn zeta.
    rewrite !(decide_notin sl _ (singletons (s_img s))) by (done || (unfold singletons; set_solver)).
    unfold out_tagged. by rewrite (bind_ok _ _ _ _ _ (get_ok _ _ _ Hl)). }
  run_step (E (zuo_out_nested 1 (S sf))). rewrite (bind_ok get_st _ s s s eq_refl). cbn [fst snd]. unfold heap_fuel. cbn [out_resume].
  rewrite bind_assoc. by rewrite (bind_ok _ _ _ _ _ (is_zi_eq o_null (o_null (s_img s)) s eq_refl)).
Qed.

Lemma atoms_print d : (∀ a d', d ≠ Dpair a d') → prints d.
Proof.
  intros Hd. apply prints_atom; [done|]. intros s l out stack Him Hin Hl.
  destruct d as [|b|i|b|n|a d]; [..|by destruct (Hd a d)]; cbn in Hl.
  - subst l. eexists _, _. split; [reflexivity|]. split; [apply out_string_adds|]. unfold out_begin.
    rewrite (bind_ok get_st _ s s s eq_refl). cbn zeta. rewrite decide_False by image_neq Him. by rewrite decide_True by done.
  - exists (bytes_of (if b then "#t" else "#f")), (out_string out (if b then "#t" else "#f")). split; [done|].
    split; [apply out_string_adds|]. unfold out_begin. rewrite (bind_ok get_st _ s s s eq_refl). cbn zeta. subst l. destruct b.
    + rewrite decide_False by image_neq Him. rewrite decide_False by image_neq Him. rewrite decide_False by image_neq Him.
      by rewrite decide_True by done.
    + rewrite decide_False by image_neq Him. rewrite decide_False by image_neq Him. by rewrite decide_True by done.
  - destruct Hl as [Hl Hi]. destruct (out_integer_adds out i Hi) as (ds & Ha & Hds).
    eexists _, _. split; [|split; [exact Ha|]]; [by exists ds|].
    eapply out_begin_tagged; [done|exact Hl|done|]. unfold out_tagged. by run_step (get_ok _ _ _ Hl).
  - destruct Hl as [Hl Hb]. exists (string_text b), (out_char (out_literal (out_char out 34) b) 34). split; [done|]. split.
    + unfold string_text. change (34 :: literal b ++ [34]) with (([34] ++ literal b) ++ [34]).
      apply adds_out_char. eapply adds_trans; [apply adds_char|apply out_literal_adds].
    + eapply out_begin_tagged; [done|exact Hl|done|]. unfold out_tagged. by run_step (get_ok _ _ _ Hl).
  - destruct Hl as [Hl Hn]. pose proof (proj1 Hn) as Hname.
    destruct (interned_named _ _ _ Hin Hname Hl) as (id & sl & Ho & Hs).
    exists n, (out_bytes out n). split; [done|]. split; [apply adds_bytes|].
    eapply out_begin_tagged; [done|exact Ho|done|]. unfold out_tagged. run_step (get_ok _ _ _ Ho).
    unfold out_symbol. rewrite bind_assoc. run_step (symbol_str_ok _ _ _ _ Ho).
    rewrite decide_False by done. rewrite !bind_assoc. run_step (ZUO_STRING_PTR_ok _ _ _ Hs).
    rewrite !bind_assoc, (bind_ok (zi o_false) _ _ _ _ eq_refl), !bind_assoc. run_step (symbol_found s n (o_false (s_img s)) l Hin Hname Hl).
    rewrite (bind_ok (ret _) _ _ _ _ eq_refl), bool_decide_eq_true_2 by done. rewrite decide_False by done.
    by run_step (self_string s sl n out Him Hs).
Qed.

(** *** Frames *)

Lemma resume_open f out stack op m v stk s :
  image_ok s → s_heap s !! stack = Some (Opair op stk) → s_heap s !! op = Some (Opair m v) →
  out_resume self (S f) out stack zuo_write_mode s =
  (if decide (m = o_false (s_img s)) then ret (out, stk, Some v)
   else
     r <- (if decide (m = o_true (s_img s)) then resume_pair out op v stack zuo_write_mode
           else if decide (m = o_eof (s_img s)) then resume_hash self out true op v stack zuo_write_mode
           else if decide (m = o_null (s_img s)) then resume_hash self out false op v stack zuo_write_mode
           else zuo_panic "unrecognized operation on stack") ;;
     let '(out, stack, next) := r in
     match next with
     | Some obj => ret (out, stack, Some obj)
     | None => out_resume self f out stack zuo_write_mode
     end) s.
Proof.
  intros Him Hst Hop. cbn [out_resume].
  assert (Hne : stack ≠ o_null (s_img s)).
  { intros ->. rewrite (image_single _ _ Him) in Hst; [done|]. unfold singletons. set_solver. }
  run_step (is_zi_ne o_null stack s Hne). run_step (ZUO_CAR_ok _ _ _ _ Hst). run_step (ZUO_CAR_ok _ _ _ _ Hop).
  run_step (ZUO_CDR_ok _ _ _ _ Hop). rewrite (bind_ok get_st _ _ _ _ eq_refl). cbn zeta.
  case_decide; [by run_step (ZUO_CDR_ok _ _ _ _ Hst)|done].
Qed.

(** The frame of a list is next. *)
Lemma after_tail f fuel out stack op v stk s :
  image_ok s → s_heap s !! stack = Some (Opair op stk) → s_heap s !! op = Some (Opair (o_true (s_img s)) v) →
  after (S f) fuel out stack s =
  (r <- resume_pair out op v stack zuo_write_mode ;;
   let '(out, stack, next) := r in
   match next with
   | Some obj => out_loop self fuel out obj zuo_write_mode stack
   | None => after f fuel out stack
   end) s.
Proof.
  intros Him Hst Hop. unfold after. unfold bind at 1. rewrite (resume_open f out stack op _ v stk s Him Hst Hop).
  rewrite decide_False by image_neq Him. rewrite decide_True by done. unfold bind.
  destruct (resume_pair out op v stack zuo_write_mode s) as [[[o1 s1] [n|]] s2|e s2| |]; done.
Qed.

Lemma reuse_frame_ok s0 s hn op a b m v :
  grows s0 s hn → hn !! op = Some (Opair a b) →
  reuse_frame op m v s = Ok tt (set_heap_at op (Opair m v) s)
  ∧ grows s0 (set_heap_at op (Opair m v) s) (<[op := Opair m v]> hn).
Proof.
  intros Hg Hop. pose proof (grows_lookup_new _ _ _ _ _ Hg Hop) as Hop'.
  destruct (grows_put s0 s hn op _ (Opair m v) Hg Hop eq_refl) as [E Hg']. split; [|done].
  unfold reuse_frame. by run_step (get_ok _ _ _ Hop').
Qed.

Lemma tail_null : prints_tail Dnull.
Proof.
  intros s0 s hn l out stack op stk frs fuel f Him Hin Hg Hl Hop Hst Hstk Hf. cbn in Hl. subst l.
  destruct f as [|f]; [lia|]. pose proof (image_ok_grows _ _ _ Him Hg) as Him'. pose proof (gr_img _ _ _ Hg) as Ei.
  pose proof (grows_lookup_new _ _ _ _ _ Hg Hop) as Hop'. rewrite <- Ei in Hop'.
  exists [41], (out_char out 41), s, hn, f. split; [done|]. split; [apply adds_char|]. split; [done|]. split; [lia|].
  cbn [tail_steps Nat.add]. rewrite (after_tail f fuel out stack op _ stk s Him' Hst Hop').
  unfold resume_pair. rewrite bind_assoc, (bind_ok (zi o_true) _ _ _ _ eq_refl).
  assert (Hnull : s_heap s !! o_null (s_img s) = Some Osingleton) by (apply (image_single _ _ Him'); unfold singletons; set_solver).
  rewrite bind_assoc. run_step (has_tag_ok _ _ _ zuo_pair_tag Hnull). rewrite bool_decide_eq_false_2 by done.
  rewrite bind_assoc. run_step (is_zi_eq o_null (o_null (s_img s)) s eq_refl). rewrite bind_assoc.
  by run_step (ZUO_CDR_ok _ _ _ _ Hst).
Qed.

Lemma tail_pair a d : prints a → prints_tail d → prints_tail (Dpair a d).
Proof.
  intros Pa Qd s0 s hn l out stack op stk frs fuel f Him Hin Hg (la & ld & Hl & Ha & Hd) Hop Hst Hstk Hf.
  destruct f as [|f]; [lia|]. pose proof (image_ok_grows _ _ _ Him Hg) as Him'. pose proof (gr_img _ _ _ Hg) as Ei.
  pose proof (grows_lookup_new _ _ _ _ _ Hg Hop) as Hop'. rewrite <- Ei in Hop'.
  pose proof (grows_lookup _ _ _ _ _ Hg Hl) as Hl'.
  destruct (reuse_frame_ok s0 s hn op _ _ (o_true (s_img s)) ld Hg Hop) as [E1 Hg1].
  set (s1 := set_heap_at op (Opair (o_true (s_img s)) ld) s) in *. set (hn1 := <[op := _]> hn) in *.
  assert (Hstne : stack ≠ op ∧ s_heap s1 !! stack = Some (Opair op stk)).
  { unfold s1. rewrite s_heap_set. destruct (decide (stack = op)) as [->|Hne]; [|by rewrite lookup_insert_ne].
    exfalso. rewrite Hop' in Hst. simplify_eq. destruct (image_ne s _ _ Him' Hop' ltac:(done)). unfold singletons. set_solver. }
  destruct Hstne as [_ Hst1]. pose proof (image_ok_grows _ _ _ Him Hg1) as Him1. pose proof (intern_ok_grows _ _ _ Hin Hg1) as Hin1.
  assert (Hfr1 : is_list (s_heap s1) (null_of s1) stack (op :: frs)).
  { exists stk. rewrite (gr_img _ _ _ Hg1). split; [|split; [exact Hst1|by eapply is_list_grows]].
    intros ->. rewrite <- (gr_img _ _ _ Hg1), (image_single _ _ Him1) in Hst1; [done|]. unfold singletons. set_solver. }
  destruct (Pa s1 la (out_char out 32) stack (op :: frs) (tail_steps d + fuel)%nat Him1 Hin1
    (at_datum_grows _ _ _ _ Hin Hg1 _ Ha) Hfr1) as (ta & out2 & s2 & hn2 & f2 & Ta & A2 & G2 & F2 & E2).
  assert (Hop1 : hn1 !! op = Some (Opair (o_true (s_img s0)) ld)) by (unfold hn1; rewrite lookup_insert_eq, Ei; done).
  pose proof (grows_lookup_new _ _ _ _ _ Hg1 Hop1) as Hop1'.
  destruct (Qd s0 s2 (hn2 ∪ hn1) ld out2 stack op stk frs fuel f2 Him Hin (grows_trans _ _ _ _ _ Hg1 G2) Hd)
    as (td & out3 & s3 & hn3 & f3 & Td & A3 & G3 & F3 & E3); try done.
  { by eapply grows_keep. } { by eapply grows_lookup. }
  exists ([32] ++ ta ++ td), out3, s3, hn3, f3. split; [by exists ta, td|].
  split; [eapply adds_trans; [apply adds_char|eapply adds_trans; eassumption]|]. split; [done|]. split; [done|].
  rewrite <- E3. cbn [tail_steps]. rewrite (after_tail f _ out stack op _ stk s Him' Hst Hop').
  unfold resume_pair. rewrite bind_assoc, (bind_ok (zi o_true) _ _ _ _ eq_refl).
  rewrite bind_assoc. run_step (has_tag_ok _ _ _ zuo_pair_tag Hl'). rewrite bool_decide_eq_true_2 by done.
  rewrite bind_assoc. run_step (ZUO_CAR_ok _ _ _ _ Hl'). rewrite bind_assoc. run_step (ZUO_CDR_ok _ _ _ _ Hl').
  rewrite bind_assoc. run_step E1. rewrite (bind_ok (ret _) _ _ _ _ eq_refl). rewrite <- E2, Nat.add_assoc. done.
Qed.

Lemma tail_atom d : (∀ a d', d ≠ Dpair a d') → d ≠ Dnull → prints d → prints_tail d.
Proof.
  intros Hd Hdn Pd s0 s hn l out stack op stk frs fuel f Him Hin Hg Hl Hop Hst Hstk Hf.
  destruct f as [|f]; [lia|]. pose proof (image_ok_grows _ _ _ Him Hg) as Him'. pose proof (gr_img _ _ _ Hg) as Ei.
  pose proof (grows_lookup_new _ _ _ _ _ Hg Hop) as Hop'. rewrite <- Ei in Hop'.
  destruct (reuse_frame_ok s0 s hn op _ _ (o_true (s_img s)) (o_null (s_img s)) Hg Hop) as [E1 Hg1].
  set (s1 := set_heap_at op (Opair (o_true (s_img s)) (o_null (s_img s))) s) in *. set (hn1 := <[op := _]> hn) in *.
  assert (Hst1 : s_heap s1 !! stack = Some (Opair op stk)).
  { unfold s1. rewrite s_heap_set. destruct (decide (stack = op)) as [->|Hne]; [|by rewrite lookup_insert_ne].
    exfalso. rewrite Hop' in Hst. simplify_eq. destruct (image_ne s _ _ Him' Hop' ltac:(done)). unfold singletons. set_solver. }
  pose proof (image_ok_grows _ _ _ Him Hg1) as Him1. pose proof (intern_ok_grows _ _ _ Hin Hg1) as Hin1.
  assert (Hfr1 : is_list (s_heap s1) (null_of s1) stack (op :: frs)).
  { exists stk. rewrite (gr_img _ _ _ Hg1). split; [|split; [exact Hst1|by eapply is_list_grows]].
    intros ->. rewrite <- (gr_img _ _ _ Hg1), (image_single _ _ Him1) in Hst1; [done|]. unfold singletons. set_solver. }
  destruct (Pd s1 l (out_char (out_char (out_char out 32) 46) 32) stack (op :: frs) fuel Him1 Hin1
    (at_datum_grows _ _ _ _ Hin Hg1 _ Hl) Hfr1) as (ta & out2 & s2 & hn2 & f2 & Ta & A2 & G2 & F2 & E2).
  assert (Hop1 : hn1 !! op = Some (Opair (o_true (s_img s0)) (o_null (s_img s0)))) by (unfold hn1; by rewrite lookup_insert_eq, Ei).
  pose proof (grows_lookup_new _ _ _ _ _ Hg1 Hop1) as Hop1'.
  destruct (tail_null s0 s2 (hn2 ∪ hn1) (o_null (s_img s0)) out2 stack op stk frs fuel f2 Him Hin (grows_trans _ _ _ _ _ Hg1 G2) eq_refl)
    as (td & out3 & s3 & hn3 & f3 & Td & A3 & G3 & F3 & E3); try done.
  { by eapply grows_keep. } { by eapply grows_lookup. }
  cbn in Td. subst td. change (tail_steps Dnull + fuel)%nat with fuel in E3. exists ([32; 46; 32] ++ ta ++ [41]), out3, s3, hn3, f3. split.
  { destruct d; try done; try (by exists ta); by destruct (Hd d1 d2). }
  split. { eapply adds_trans; [|eapply adds_trans; eassumption]. apply (adds_out_char _ _ [32; 46]), (adds_out_char _ _ [32]), adds_char. }
  split; [done|]. split; [done|]. rewrite <- E3.
  replace (tail_steps d) with 1%nat by (destruct d; try done; by destruct (Hd d1 d2)).
  assert (Hps : print_steps d = 1%nat) by (destruct d; try done; by destruct (Hd d1 d2)). rewrite Hps in E2.
  rewrite (after_tail f _ out stack op _ stk s Him' Hst Hop').
  assert (Hobj : ∃ o, s_heap s !! l = Some o ∧ obj_tag o ≠ zuo_pair_tag ∧ l ≠ o_null (s_img s)).
  { pose proof (at_datum_grows _ _ _ _ Hin Hg _ Hl) as Hl'.
    assert (Hsing : ∀ x, x ∈ singletons (s_img s) → s_heap s !! x = Some Osingleton) by (intros; by apply image_single).
    destruct d as [|b|i|b|n|a d]; try done; cbn in Hl'.
    - exists Osingleton. destruct b; subst l; (split; [apply Hsing; unfold singletons; set_solver|split; [done|image_neq Him']]).
    - destruct Hl' as [Hl' _]. eexists. split; [done|]. split; [done|]. intros ->. rewrite Hsing in Hl'; [done|unfold singletons; set_solver].
    - destruct Hl' as [Hl' _]. eexists. split; [done|]. split; [done|]. intros ->. rewrite Hsing in Hl'; [done|unfold singletons; set_solver].
    - destruct Hl' as [Hl' Hn]. destruct (interned_named _ _ _ (intern_ok_grows _ _ _ Hin Hg) (proj1 Hn) Hl') as (id & sl & Ho & _).
      eexists. split; [done|]. split; [done|]. intros ->. rewrite Hsing in Ho; [done|unfold singletons; set_solver].
    - by destruct (Hd a d). }
  destruct Hobj as (o & Ho & Htag & Hlne). unfold resume_pair. rewrite bind_assoc, (bind_ok (zi o_true) _ _ _ _ eq_refl).
  rewrite bind_assoc. run_step (has_tag_ok _ _ _ zuo_pair_tag Ho). rewrite bool_decide_eq_false_2 by done.
  rewrite bind_assoc. run_step (is_zi_ne o_null l s Hlne). rewrite bind_assoc, (bind_ok (zi o_null) _ _ _ _ eq_refl).
  rewrite bind_assoc. run_step E1. rewrite (bind_ok (ret _) _ _ _ _ eq_refl). rewrite decide_False by done. by rewrite <- E2.
Qed.

Lemma push_frame_ok s m v stack frs :
  image_ok s → is_list (s_heap s) (null_of s) stack frs →
  ∃ op st s' hn, push_frame m v stack s = Ok st s' ∧ grows s s' hn ∧ hn !! op = Some (Opair m v)
    ∧ s_heap s' !! st = Some (Opair op stack) ∧ is_list (s_heap s') (null_of s') st (op :: frs).
Proof.
  intros Him Hl. unfold push_frame.
  destruct (allocates_grows _ _ s (zuo_cons_ok m v) (im_mem _ Him)) as (op & s1 & E1 & _ & G1). run_step E1.
  pose proof (image_ok_grows _ _ _ Him G1) as Him1. pose proof (is_list_grows _ _ _ _ _ _ G1 Hl) as Hl1.
  rewrite <- (gr_img _ _ _ G1) in Hl1.
  destruct (zuo_cons_list _ s1 op stack frs (image_list_pre _ Him1) Hl1) as (st & s2 & E2 & G2 & Hst).
  exists op, st, s2, ({[st := Opair op stack]} ∪ {[op := Opair m v]}). split; [done|].
  split; [by eapply grows_trans|]. split.
  - eapply grows_keep; [exact G2|apply lookup_singleton_eq|]. by eapply grows_new.
  - split; [by eapply grows_new|]. by rewrite (gr_img _ _ _ G2).
Qed.

Lemma whole_pair a d : prints a → prints_tail d → prints (Dpair a d).
Proof.
  intros Pa Qd s l out stack frs fuel Him Hin (la & ld & Hl & Ha & Hd) Hst.
  destruct (push_frame_ok s (o_true (s_img s)) ld stack frs Him Hst) as (op & st1 & s1 & hn1 & E1 & G1 & Hop & Hst1 & Hl1).
  pose proof (image_ok_grows _ _ _ Him G1) as Him1.
  destruct (push_frame_ok s1 (o_false (s_img s)) la st1 (op :: frs) Him1 Hl1) as (op2 & st2 & s2 & hn2 & E2 & G2 & Hop2 & Hst2 & Hl2).
  pose proof (grows_trans _ _ _ _ _ G1 G2) as G12. pose proof (image_ok_grows _ _ _ Him G12) as Him2.
  pose proof (intern_ok_grows _ _ _ Hin G12) as Hin2. pose proof (gr_img _ _ _ G12) as Ei.
  assert (Hl1' : is_list (s_heap s2) (null_of s2) st1 (op :: frs)).
  { rewrite (gr_img _ _ _ G2). exact (is_list_grows _ _ _ _ _ _ G2 Hl1). }
  destruct (Pa s2 la (out_char out 40) st1 (op :: frs) (tail_steps d + fuel)%nat Him2 Hin2 (at_datum_grows _ _ _ _ Hin G12 _ Ha) Hl1')
    as (ta & out3 & s3 & hn3 & f3 & Ta & A3 & G3 & F3 & E3).
  pose proof (grows_trans _ _ _ _ _ G12 G3) as G13.
  pose proof (grows_lookup_new _ _ _ _ _ G1 Hop) as Hop1.
  destruct (Qd s s3 (hn3 ∪ (hn2 ∪ hn1)) ld out3 st1 op stack frs fuel f3 Him Hin G13 Hd)
    as (td & out4 & s4 & hn4 & f4 & Td & A4 & G4 & F4 & E4); try done.
  { exact (grows_keep _ _ _ _ _ _ G3 (grows_keep _ _ _ _ _ _ G2 Hop Hop1) (grows_lookup _ _ _ _ _ G2 Hop1)). }
  { exact (grows_lookup _ _ _ _ _ G3 (grows_lookup _ _ _ _ _ G2 Hst1)). }
  exists ([40] ++ ta ++ td), out4, s4, hn4, f4. split; [by exists ta, td|].
  split; [eapply adds_trans; [apply adds_char|eapply adds_trans; eassumption]|]. split; [done|]. split; [done|].
  rewrite <- E4. cbn [print_steps Nat.add].
  assert (Hb : out_begin self out l zuo_write_mode stack s = Ok (out_char out 40, st2) s2).
  { eapply out_begin_tagged; [done|exact Hl|done|]. unfold out_tagged. run_step (get_ok _ _ _ Hl). unfold out_pair.
    rewrite decide_False by done. rewrite (bind_ok (ret _) _ _ _ _ eq_refl). run_step (ZUO_CDR_ok _ _ _ _ Hl).
    rewrite (bind_ok (zi o_true) _ _ _ _ eq_refl). run_step E1. run_step (ZUO_CAR_ok _ _ _ _ (grows_lookup _ _ _ _ _ G1 Hl)).
    rewrite (bind_ok (zi o_false) _ _ _ _ eq_refl), (gr_img _ _ _ G1). by run_step E2. }
  rewrite (out_loop_begin _ _ _ _ _ _ _ _ Hb).
  pose proof (grows_lookup_new _ _ _ _ _ G2 Hop2) as Hop2'. change (heap_fuel s2) with (S (size (s_heap s2))).
  unfold after at 1. unfold bind at 1. rewrite (resume_open _ _ _ _ _ _ _ _ Him2 Hst2 Hop2').
  rewrite decide_True by (by rewrite Ei). cbn beta iota. rewrite <- E3. by rewrite Nat.add_assoc.
Qed.

Lemma all_print d : prints d ∧ prints_tail d.
Proof. revert d. apply datum_both; [apply atoms_print|apply whole_pair|apply tail_null|apply tail_atom|apply tail_pair]. Qed.
End print.

(** The printer on a datum, enough fuel given: the output gets the text. *)
Lemma zuo_out_datum s l d out fuel :
  image_ok s → intern_ok s → at_datum s l d → (print_steps d ≤ fuel)%nat →
  ∃ t out' s' hn, text d t ∧ adds out out' t ∧ grows s s' hn ∧ zuo_out fuel out l zuo_write_mode s = Ok out' s'.
Proof.
  intros Him Hin Hl Hf. assert (Hp : (1 ≤ print_steps d)%nat) by (destruct d; cbn; lia).
  destruct fuel as [|sf]; [lia|]. unfold zuo_out, out_depth. cbn [zuo_out_nested]. rewrite (bind_ok (zi o_null) _ _ _ _ eq_refl).
  destruct (proj1 (all_print sf d) s l out (o_null (s_img s)) [] (S sf - print_steps d)%nat Him Hin Hl eq_refl)
    as (t & out' & s' & hn & f & Ht & Ha & Hg & Hlt & E).
  exists t, out', s', hn. split; [done|]. split; [done|]. split; [done|].
  replace (print_steps d + (S sf - print_steps d))%nat with (S sf) in E by lia. cbn [zuo_out_nested] in E. rewrite E.
  unfold after. cbn in Hlt. destruct f as [|f]; [lia|]. cbn [out_resume]. rewrite bind_assoc.
  by rewrite (bind_ok _ _ _ _ _ (is_zi_eq o_null (o_null (s_img s)) s' ltac:(by rewrite (gr_img _ _ _ Hg)))).
Qed.
