(* ===== verification/DatumRead.v ===== *)
(** * Reading data back

    The reader on the text of a datum: with its explicit stack of frames and
    its lists built in place it makes a fresh copy of the datum and stops
    where the text ends. *)

From S2P Require Import Prelude Sys Heap Alloc Gc GcCorrect Objects Trie Lists ImageOk Intern Sort Printer Reader Prims Interp Path Module Shell Sha256 Fasl Init Boot RoundTrip ListSpec InternSpec Datum.

(** ** Delimiters *)

(** The byte after a datum in a text. *)
Definition delim (post : list Z) : Prop := hd 0 post = 0 ∨ hd 0 post = 32 ∨ hd 0 post = 41.

Lemma delim_symbol post : delim post → in_symbol (hd 0 post) = false.
Proof. by intros [->|[->| ->]]. Qed.
Lemma delim_digit post : delim post → isdigit (hd 0 post) = false.
Proof. by intros [->|[->| ->]]. Qed.

Lemma nth0_hd (post : list Z) : nth 0 post 0 = hd 0 post.
Proof. by destruct post. Qed.

Lemma symbol_neq c x : in_symbol c = true → in_symbol x = false → c ≠ x.
Proof. intros H1 H2 ->. congruence. Qed.

Lemma symbol_not_space c : in_symbol c = true → isspace c = false.
Proof.
  intros Hc. destruct (isspace c) eqn:E; [|done]. unfold isspace in E.
  assert (H : c ∈ [9; 10; 11; 12; 13; 32]) by (rewrite !elem_of_cons; lia).
  rewrite !elem_of_cons in H. set_unfold in H. naive_solver.
Qed.

Lemma in_symbol_char c : in_symbol c = true → is_symbol_char c = true.
Proof. unfold in_symbol. by intros [_ ?]%andb_true_iff. Qed.

Lemma in_symbol_not_char c : in_symbol c = false → c ≠ 0 → is_symbol_char c = false.
Proof. unfold in_symbol. intros H Hc. rewrite (proj2 (Z.eqb_neq c 0)) in H by done. done. Qed.

(** ** White space *)

(** What a datum starts with: not white space, not a comment. *)
Definition starts (t : list Z) : Prop :=
  ∃ c r, t = c :: r ∧ isspace c = false ∧ c ≠ 59 ∧ (c = 35 → hd 0 r ≠ 33 ∧ hd 0 r ≠ 59).

Lemma skip_spaces_ok sp : ∀ fuel pre c r σ,
  Forall (λ x, x = 32) sp → isspace c = false → (length sp < fuel)%nat →
  skip_spaces fuel (pre ++ sp ++ c :: r) (Z.of_nat (length pre)) σ = Ok (Z.of_nat (length pre + length sp)) σ.
Proof.
  induction sp as [|x sp IH]; intros [|fuel] pre c r σ Hsp Hc Hf; try (cbn in Hf; lia); cbn [skip_spaces app].
  - read_at pre (c :: r) 0%nat c. rewrite Hc. unfold ret. do 2 f_equal. cbn. lia.
  - apply Forall_cons in Hsp as [-> Hsp]. read_at pre (32 :: sp ++ c :: r) 0%nat 32. change (isspace 32) with true. cbn iota.
    specialize (IH fuel (pre ++ [32]) c r σ Hsp Hc ltac:(cbn in Hf; lia)).
    rewrite <- app_assoc, !length_app in IH. cbn [app length] in IH.
    replace (Z.of_nat (length pre) + 1) with (Z.of_nat (length pre + 1)) by lia. rewrite IH. do 2 f_equal. cbn. lia.
Qed.

Lemma skip_whitespace_ok sp pre t stack σ :
  Forall (λ x, x = 32) sp → starts t →
  skip_whitespace (input_fuel (pre ++ sp ++ t)) (pre ++ sp ++ t) (Z.of_nat (length pre)) stack σ
  = Ok (Z.of_nat (length (pre ++ sp)), stack) σ.
Proof.
  intros Hsp (c & r & -> & Hc & H59 & H35).
  change (input_fuel (pre ++ sp ++ c :: r)) with (S (S (length (pre ++ sp ++ c :: r)))) at 1.
  cbn [skip_whitespace].
  run_step (skip_spaces_ok sp (input_fuel (pre ++ sp ++ c :: r)) pre c r σ Hsp Hc
    ltac:(unfold input_fuel; rewrite !length_app; cbn; lia)).
  rewrite <- length_app, app_assoc. read_at (pre ++ sp) (c :: r) 0%nat c.
  rewrite (proj2 (Z.eqb_neq c 59)) by done. destruct (Z.eqb_spec c 35) as [->|]; [|done].
  destruct (H35 eq_refl) as [N33 N59]. pose proof (s_at_nth (pre ++ sp) (35 :: r) 1 (Z.of_nat (length (pre ++ sp)) + 1) σ
    ltac:(cbn; lia) ltac:(lia)) as E1. run_step E1. cbn [nth]. rewrite nth0_hd.
  by rewrite (proj2 (Z.eqb_neq _ 33)), (proj2 (Z.eqb_neq _ 59)) by done.
Qed.

(** ** An iteration *)

(** The second half of an iteration of the loop of [zuo_in]. *)
Definition combine_then (fuel : nat) (txt : list Z) (o : Z) (where_ obj stack : loc) : M (loc * Z) :=
  st <- get_st ;;
  r <- read_combine (heap_fuel st) o where_ obj stack ;;
  match r with
  | inl obj => ret (obj, o)
  | inr stack => in_loop fuel txt o where_ false stack
  end.

Lemma in_loop_begin fuel sp pre t w stack σ obj o stack' σ' :
  Forall (λ x, x = 32) sp → starts t →
  read_begin ((pre ++ sp) ++ t) (Z.of_nat (length (pre ++ sp))) w stack σ = Ok (obj, o, stack') σ' →
  in_loop (S fuel) (pre ++ sp ++ t) (Z.of_nat (length pre)) w false stack σ
  = combine_then fuel (pre ++ sp ++ t) o w obj stack' σ'.
Proof.
  intros Hsp Ht E. cbn [in_loop]. run_step (skip_whitespace_ok sp pre t stack σ Hsp Ht).
  run_step (is_zi_bool o_null stack σ). rewrite andb_false_r. rewrite <- app_assoc in E. by run_step E.
Qed.

(** The top frame does not wait for the closer after a dot. *)
Definition plain_top (σ : st) (stack : loc) : Prop :=
  top_is stack o_eof σ = Ok false σ ∧ top_is stack o_apply σ = Ok false σ.

Lemma top_is_frame σ stack op m v stk f :
  image_ok σ → s_heap σ !! stack = Some (Opair op stk) → s_heap σ !! op = Some (Opair m v) →
  top_is stack f σ = Ok (bool_decide (m = f (s_img σ))) σ.
Proof.
  intros Him Hst Hop. unfold top_is.
  assert (Hne : stack ≠ o_null (s_img σ)).
  { intros ->. rewrite (image_single _ _ Him) in Hst; [done|]. unfold singletons. set_solver. }
  run_step (is_zi_ne o_null stack σ Hne). run_step (ZUO_CAR_ok _ _ _ _ Hst). by run_step (ZUO_CAR_ok _ _ _ _ Hop).
Qed.

(** ** Atoms *)

Section read.
Context (sB : st) (Him : image_ok sB) (Hin : intern_ok sB) (w : loc).

(** What [at_datum] asks of the parts of a datum. *)
Fixpoint valid (d : datum) : Prop :=
  match d with
  | Dnull | Dbool _ => True
  | Dint i => in_s64 i
  | Dstr b => Forall is_byte b
  | Dsym name => readable name ∧ is_Some (interned sB name)
  | Dpair a d' => valid a ∧ valid d'
  end.

(** A copy of the datum at [l], made of new objects [hn], of constants and of
    the symbols there were. *)
Fixpoint made (hn : gmap Z obj) (l : loc) (d : datum) : Prop :=
  match d with
  | Dnull => l = o_null (s_img sB)
  | Dbool b => l = if b then o_true (s_img sB) else o_false (s_img sB)
  | Dint i => hn !! l = Some (Ointeger i)
  | Dstr b => hn !! l = Some (Ostring b)
  | Dsym name => interned sB name = Some l
  | Dpair a d' => ∃ la ld, hn !! l = Some (Opair la ld) ∧ made hn la a ∧ made hn ld d'
  end.

Lemma made_weaken hn hn' d : hn ⊆ hn' → ∀ l, made hn l d → made hn' l d.
Proof.
  intros Hs. induction d as [| | | | |a IHa d IHd]; intros l; cbn; try done; try (intros; by eapply lookup_weaken).
  intros (la & ld & H & Ha & Hd). exists la, ld. split; [by eapply lookup_weaken|auto].
Qed.

Lemma made_at_datum σ hn d : grows sB σ hn → ∀ l, valid d → made hn l d → at_datum σ l d.
Proof.
  intros Hg. induction d as [| | | |n|a IHa d IHd]; intros l; cbn; rewrite ?(gr_img _ _ _ Hg); try done.
  - intros Hv H. split; [exact (grows_lookup_new _ _ _ _ _ Hg H)|done].
  - intros Hv H. split; [exact (grows_lookup_new _ _ _ _ _ Hg H)|done].
  - intros [Hv _] H. split; [exact (interned_grows _ _ _ _ _ Hin Hg H)|done].
  - intros [Hv1 Hv2] (la & ld & H & Ha & Hd). exists la, ld. split; [exact (grows_lookup_new _ _ _ _ _ Hg H)|auto].
Qed.

(** A copy is a value, neither undefined nor the end of the input. *)
Lemma made_value σ hn0 hn d l :
  grows sB σ hn0 → valid d → made hn l d → (∀ a o, hn !! a = Some o → s_heap σ !! a = Some o) →
  l ≠ o_undefined (s_img σ) ∧ l ≠ o_eof (s_img σ).
Proof.
  intros Hg Hv Hm Hsub. pose proof (image_ok_grows _ _ _ Him Hg) as Hi.
  assert (Hobj : ∀ o, s_heap σ !! l = Some o → o ≠ Osingleton → l ≠ o_undefined (s_img σ) ∧ l ≠ o_eof (s_img σ)).
  { intros o Ho Hne. pose proof (image_ne σ l o Hi Ho Hne) as Hn. unfold singletons in Hn. set_solver. }
  destruct d as [|b|i|b|n|a d]; cbn in Hm.
  - subst l. rewrite <- (gr_img _ _ _ Hg). split; image_neq Hi.
  - subst l. rewrite <- (gr_img _ _ _ Hg). destruct b; split; image_neq Hi.
  - by apply (Hobj _ (Hsub _ _ Hm)).
  - by apply (Hobj _ (Hsub _ _ Hm)).
  - destruct Hv as [Hn _]. pose proof (interned_grows _ _ _ _ _ Hin Hg Hm) as Hm'.
    destruct (interned_named _ _ _ (intern_ok_grows _ _ _ Hin Hg) (proj1 Hn) Hm') as (id & sl & Ho & _). by apply (Hobj _ Ho).
  - destruct Hm as (la & ld & H & _). by apply (Hobj _ (Hsub _ _ H)).
Qed.

(** What is left of [read_begin] once the first character is neither a
    parenthesis nor the end. *)
Definition read_rest (s : list Z) (o c c1 : Z) (stack : loc) : M (loc * Z * loc) :=
  let atom (m : M (loc * Z)) : M (loc * Z * loc) := r <- m ;; ret (fst r, snd r, stack) in
  if (c =? 34) || ((c =? 35) && (c1 =? 34)) then
    atom (r <- read_literal (input_fuel s) s (if c =? 35 then o + 2 else o + 1) w [] ;;
          str <- zuo_sized_string (fst r) ;;
          ret (str, snd r))
  else if c =? 35 then atom (read_hash_mark s (o + 1) w)
  else
    digits <- (if isdigit c || ((c =? 45) && isdigit c1)
               then all_digits_before_delim s (o + 1) else ret false) ;;
    if digits then atom (read_integer s o c w)
    else if c =? 39 then read_quote "quote" (o + 1) stack
    else if c =? 96 then read_quote "quasiquote" (o + 1) stack
    else if c =? 44 then
      if c1 =? 64 then read_quote "unquote-splicing" (o + 2) stack
      else read_quote "unquote" (o + 1) stack
    else if (c =? 46) && negb (is_symbol_char c1) then read_dot o w stack
    else if is_symbol_char c then atom (read_symbol s o)
    else
      sc <- zuo_string [c] ;;
      zuo_fail1w (bytes_of "read") (bytes_of "unrecognized character") sc.

Lemma read_begin_rest pre c r stack σ :
  plain_top σ stack → c ∉ [0; 40; 91; 41; 93] →
  read_begin (pre ++ c :: r) (Z.of_nat (length pre)) w stack σ
  = read_rest (pre ++ c :: r) (Z.of_nat (length pre)) c (hd 0 r) stack σ.
Proof.
  intros [H1 H2] Hc. rewrite !not_elem_of_cons in Hc. destruct Hc as (? & ? & ? & ? & ? & _).
  unfold read_begin. read_at pre (c :: r) 0%nat c. run_step H1. run_step H2.
  rewrite !(proj2 (Z.eqb_neq c _)) by done. cbn [orb].
  pose proof (s_at_nth pre (c :: r) 1 (Z.of_nat (length pre) + 1) σ ltac:(cbn; lia) ltac:(lia)) as E1.
  cbn [nth] in E1. rewrite nth0_hd in E1. by run_step E1.
Qed.

(** Reading the text [t] at once. *)
Definition reads (d : datum) (t : list Z) : Prop :=
  ∀ pre post σ hn stack, delim post → grows sB σ hn → plain_top σ stack →
    starts (t ++ post) ∧
    ∃ p σ' hn', read_begin (pre ++ t ++ post) (Z.of_nat (length pre)) w stack σ
        = Ok (p, Z.of_nat (length pre + length t), stack) σ'
      ∧ grows σ σ' hn' ∧ made hn' p d.

Lemma reads_string b : Forall is_byte b → reads (Dstr b) (string_text b).
Proof.
  intros Hb pre post σ hn stack Hp Hg Htop. split; [by eexists _, _|].
  destruct (allocates_grows _ _ σ (zuo_sized_string_ok b) (gr_ok _ _ _ Hg)) as (p & σ' & E & _ & Hg').
  exists p, σ', {[p := Ostring b]}. split; [|split; [done|apply lookup_singleton_eq]].
  unfold string_text. cbn [app]. rewrite read_begin_rest by (done || set_solver). unfold read_rest.
  cbn [Z.eqb Pos.eqb orb]. rewrite !bind_assoc. rewrite <- app_assoc. cbn [app].
  assert (Hf : (length b < input_fuel (pre ++ 34%Z :: literal b ++ 34%Z :: post))%nat)
    by (pose proof (literal_length b); unfold input_fuel; rewrite !length_app; cbn; rewrite length_app; lia).
  pose proof (read_literal_ok b (pre ++ [34]) post (input_fuel (pre ++ 34 :: literal b ++ 34 :: post)) w [] σ Hb Hf) as El.
  rewrite <- app_assoc, length_app in El. cbn [app length] in El.
  replace (Z.of_nat (length pre) + 1) with (Z.of_nat (length pre + 1)) by lia. run_step El.
  rewrite bind_assoc. run_step E. unfold ret, bind. do 3 f_equal. cbn. rewrite length_app. cbn. lia.
Qed.

Lemma reads_integer i t : in_s64 i → int_text i t → reads (Dint i) t.
Proof.
  intros Hi (ds & -> & Hne & Hd & Hv) pre post σ hn stack Hp Hg Htop. destruct ds as [|c ds]; [done|]. clear Hne.
  pose proof Hd as [Hc Hds]%Forall_cons. pose proof (isdigit_range c Hc) as Hr.
  destruct (allocates_grows _ _ σ (zuo_integer_ok i) (gr_ok _ _ _ Hg)) as (p & σ' & E & _ & Hg').
  pose proof (read_integer_ok pre post c ds i w σ p σ' Hd Hv Hi (delim_digit _ Hp) E) as Er. cbn zeta in Er.
  assert (Hsym : ∀ ds', all_digits ds' → Forall (λ c, in_symbol c = true) ds')
    by (intros; eapply Forall_impl; [done|apply in_symbol_digit]).
  assert (Hall : ∀ ds', all_digits ds' → forallb isdigit ds' = true)
    by (intros ds' H; apply List.forallb_forall, List.Forall_forall, H).
  set (t := (if i <? 0 then [45] else []) ++ c :: ds) in *.
  assert (Ht : ∃ c0 r, t = c0 :: r ∧ (c0 = 45 ∨ 48 ≤ c0 ≤ 57) ∧ all_digits r
    ∧ isdigit c0 || ((c0 =? 45) && isdigit (hd 0 (r ++ post))) = true).
  { unfold t. destruct (i <? 0); cbn [app].
    - exists 45, (c :: ds). split; [done|]. split; [by left|]. split; [done|]. cbn. by rewrite Hc.
    - exists c, ds. split; [done|]. split; [by right|]. split; [done|]. by rewrite Hc. }
  destruct Ht as (c0 & r & Et & Hc0 & Hr0 & Hdig). split.
  { exists c0, (r ++ post). rewrite Et. split; [done|]. unfold isspace. lia. }
  exists p, σ', {[p := Ointeger i]}. split; [|split; [done|apply lookup_singleton_eq]].
  rewrite Et in Er |- *. cbn [app hd] in Er |- *.
  rewrite read_begin_rest by (done || (rewrite !elem_of_cons, elem_of_nil; lia)). unfold read_rest.
  rewrite !(proj2 (Z.eqb_neq c0 _)) by lia. cbn [orb andb]. rewrite Hdig.
  pose proof (all_digits_loop_ok r (input_fuel (pre ++ c0 :: r ++ post)) (pre ++ [c0]) post σ (Hsym _ Hr0) (delim_symbol _ Hp)
    ltac:(unfold input_fuel; rewrite !length_app; cbn; rewrite length_app; lia)) as Ed.
  rewrite <- app_assoc, length_app in Ed. cbn [app length] in Ed. rewrite (Hall _ Hr0) in Ed. unfold all_digits_before_delim.
  replace (Z.of_nat (length pre) + 1) with (Z.of_nat (length pre + 1)) by lia. run_step Ed.
  by run_step Er.
Qed.

Lemma symbol_end_ok r : ∀ fuel pre post σ,
  Forall (λ c, in_symbol c = true) r → in_symbol (hd 0 post) = false → (length r < fuel)%nat →
  symbol_end fuel (pre ++ r ++ post) (Z.of_nat (length pre)) σ = Ok (Z.of_nat (length pre + length r)) σ.
Proof.
  induction r as [|c r IH]; intros [|fuel] pre post σ Hr Hp Hf; try (cbn in Hf; lia); cbn [symbol_end].
  - run_step (s_at_nth pre post 0 (Z.of_nat (length pre)) σ ltac:(lia) ltac:(lia)). rewrite nth0_hd, Hp.
    unfold ret. do 2 f_equal. cbn. lia.
  - apply Forall_cons in Hr as [Hc Hr]. cbn [app]. read_at pre (c :: r ++ post) 0%nat c. rewrite Hc.
    specialize (IH fuel (pre ++ [c]) post σ Hr Hp ltac:(cbn in Hf; lia)).
    rewrite <- app_assoc, !length_app in IH. cbn [app length] in IH.
    replace (Z.of_nat (length pre) + 1) with (Z.of_nat (length pre + 1)) by lia. rewrite IH. do 2 f_equal. cbn. lia.
Qed.

Lemma slice_ok (pre t post : list Z) : slice (pre ++ t ++ post) (Z.of_nat (length pre)) (Z.of_nat (length pre + length t)) = t.
Proof.
  unfold slice. replace (Z.to_nat (Z.of_nat (length pre + length t) - Z.of_nat (length pre))) with (length t) by lia.
  by rewrite Nat2Z.id, drop_app_length, take_app_length.
Qed.

Lemma reads_symbol n : readable n → is_Some (interned sB n) → reads (Dsym n) n.
Proof.
  intros (Hname & Hsym & Hne & H35 & Hdot & Hint) [l Hl] pre post σ hn stack Hp Hg Htop.
  destruct n as [|c r]; [done|]. cbn [hd] in H35. pose proof Hsym as [Hc Hr]%Forall_cons.
  assert (Hcs : ∀ x, in_symbol x = false → c ≠ x) by (intros; by apply symbol_neq).
  split.
  { exists c, (r ++ post). split; [done|]. split; [by apply symbol_not_space|]. split; [by apply Hcs|done]. }
  exists l, σ, ∅. split; [|split; [apply grows_refl, Hg|done]]. cbn [app].
  rewrite read_begin_rest; [|done|rewrite !not_elem_of_cons; repeat split; try (by apply Hcs); set_solver].
  unfold read_rest. rewrite (proj2 (Z.eqb_neq c 34)), (proj2 (Z.eqb_neq c 35)) by (done || by apply Hcs). cbn [orb andb].
  set (txt := pre ++ c :: r ++ post).
  assert (Ed : (if isdigit c || ((c =? 45) && isdigit (hd 0 (r ++ post))) then all_digits_before_delim txt (Z.of_nat (length pre) + 1)
                else ret false) σ = Ok false σ).
  { destruct (isdigit c || _) eqn:E; [|done].
    pose proof (all_digits_loop_ok r (input_fuel txt) (pre ++ [c]) post σ Hr (delim_symbol _ Hp)
      ltac:(unfold input_fuel, txt; rewrite !length_app; cbn; rewrite length_app; lia)) as Ea.
    rewrite <- app_assoc, length_app in Ea. cbn [app length] in Ea. unfold all_digits_before_delim.
    replace (Z.of_nat (length pre) + 1) with (Z.of_nat (length pre + 1)) by lia. fold txt in Ea. rewrite Ea. f_equal.
    unfold int_like in Hint. apply orb_false_iff in Hint as [Hi1 Hi2].
    destruct (isdigit c); [done|]. cbn [orb] in E. apply andb_true_iff in E as [E1 E2]. rewrite E1 in Hi2. cbn [andb] in Hi2.
    destruct r as [|c1 r]; [by rewrite delim_digit in E2|]. cbn [app hd] in E2. by rewrite E2 in Hi2. }
  run_step Ed. rewrite (proj2 (Z.eqb_neq c 39)), (proj2 (Z.eqb_neq c 96)), (proj2 (Z.eqb_neq c 44)) by (by apply Hcs).
  assert (Edot : (c =? 46) && negb (is_symbol_char (hd 0 (r ++ post))) = false).
  { destruct (Z.eqb_spec c 46) as [->|]; [|done]. destruct r as [|c1 r]; [done|]. apply Forall_cons in Hr as [Hc1 _].
    cbn [app hd andb]. by rewrite in_symbol_char. }
  rewrite Edot, in_symbol_char by done. unfold read_symbol. rewrite bind_assoc.
  pose proof (symbol_end_ok (c :: r) (input_fuel txt) pre post σ Hsym (delim_symbol _ Hp)
    ltac:(unfold input_fuel, txt; rewrite !length_app; cbn; rewrite length_app; lia)) as Ee.
  fold txt in Ee. cbn [app] in Ee. run_step Ee. pose proof (slice_ok pre (c :: r) post) as Es. cbn [app] in Es. fold txt in Es. rewrite Es.
  rewrite bind_assoc. unfold zuo_symbol. rewrite bind_assoc, (bind_ok (zi o_undefined) _ _ _ _ eq_refl).
  by run_step (symbol_found σ (c :: r) (o_undefined (s_img σ)) l (intern_ok_grows _ _ _ Hin Hg) Hname (interned_grows _ _ _ _ _ Hin Hg Hl)).
Qed.

Lemma reads_bool b : reads (Dbool b) (bytes_of (if b then "#t" else "#f")).
Proof.
  intros pre post σ hn stack Hp Hg Htop. set (x := if b then 116 else 102).
  assert (Et : bytes_of (if b then "#t" else "#f") = [35; x]) by (unfold x; by destruct b). rewrite Et. cbn [app].
  split. { exists 35, (x :: post). split; [done|]. split; [done|]. split; [done|]. unfold x. by destruct b. }
  exists (if b then o_true (s_img sB) else o_false (s_img sB)), σ, ∅. split; [|split; [apply grows_refl, Hg|done]].
  rewrite read_begin_rest by (done || set_solver). unfold read_rest. cbn [hd Z.eqb Pos.eqb orb andb].
  replace (x =? 34) with false by (unfold x; by destruct b). cbn iota.
  assert (Ex : ∀ o, o = Z.of_nat (length pre) + 1 → s_at (pre ++ 35 :: x :: post) o σ = Ok x σ)
    by (intros o ->; apply (s_at_off pre (35 :: x :: post) 1 x); [done|lia]).
  assert (Ey : ∀ o, o = Z.of_nat (length pre) + 1 + 1 → s_at (pre ++ 35 :: x :: post) o σ = Ok (hd 0 post) σ).
  { intros o ->. pose proof (s_at_nth pre (35 :: x :: post) 2 (Z.of_nat (length pre) + 1 + 1) σ ltac:(cbn; lia) ltac:(lia)) as E.
    cbn [nth] in E. by rewrite nth0_hd in E. }
  assert (Hs := delim_symbol _ Hp).
  assert (Hr : ∀ c, in_symbol c = true → (hd 0 post =? c) = false).
  { intros c Hc. apply Z.eqb_neq. intros E. rewrite E in Hs. congruence. }
  assert (Epk : ∀ c want, in_symbol (hd 0 want) = true →
    peek_loop (pre ++ 35 :: x :: post) (Z.of_nat (length pre) + 1) (c :: want) σ = Ok false σ ).
  { intros c [|c2 want] Hc2; [done|]. cbn [peek_loop]. run_step (Ex _ eq_refl). destruct (x =? c); [|done].
    run_step (Ey _ eq_refl). by rewrite Hr. }
  assert (Epk1 : ∀ c, peek_loop (pre ++ 35 :: x :: post) (Z.of_nat (length pre) + 1) [c] σ = Ok (x =? c) σ).
  { intros c. cbn [peek_loop]. run_step (Ex _ eq_refl). destruct (x =? c); [|done]. run_step (Ey _ eq_refl). by rewrite Hs. }
  unfold read_hash_mark, peek_input. rewrite bind_assoc. run_step (Epk 116 (bytes_of "rue") eq_refl).
  rewrite bind_assoc. run_step (Epk 102 (bytes_of "alse") eq_refl). rewrite bind_assoc. run_step (Epk1 116).
  replace (x =? 116) with b by (unfold x; by destruct b).
  assert (Eo : Z.of_nat (length pre) + 1 + 1 = Z.of_nat (length pre + length [35; x])) by (cbn; lia).
  destruct b; cbn iota.
  - rewrite bind_assoc, (bind_ok (zi o_true) _ _ _ _ eq_refl), (gr_img _ _ _ Hg), Eo. done.
  - rewrite bind_assoc. run_step (Epk1 102). change (x =? 102) with true. cbn iota.
    rewrite bind_assoc, (bind_ok (zi o_false) _ _ _ _ eq_refl), (gr_img _ _ _ Hg), Eo. done.
Qed.

(** Any atom but the empty list. *)
Lemma reads_atom d t : (∀ a d', d ≠ Dpair a d') → d ≠ Dnull → valid d → atom_text d t → reads d t.
Proof.
  intros Hd Hn Hv Ht. destruct d as [|b|i|b|n|a d]; try done; cbn in Hv, Ht.
  - subst t. apply reads_bool.
  - by apply reads_integer.
  - subst t. by apply reads_string.
  - subst t. destruct Hv. by apply reads_symbol.
Qed.

(** ** Lists *)

Lemma seg_keep nl hn hn' cs first last ws :
  (∀ c, c ∈ cs → hn' !! c = hn !! c) → seg nl hn cs first last ws → seg nl hn' cs first last ws.
Proof. intros He [? ? ? ? Hc]. split; try done. by apply (cells_weaken hn). Qed.

Lemma set_ZUO_CAR_grows s s' hn l a d v :
  grows s s' hn → hn !! l = Some (Opair a d) →
  set_ZUO_CAR l v s' = Ok tt (set_heap_at l (Opair v d) s')
  ∧ grows s (set_heap_at l (Opair v d) s') (<[l := Opair v d]> hn).
Proof.
  intros Hg Hl. destruct (grows_put s s' hn l _ (Opair v d) Hg Hl eq_refl) as [E Hg'].
  split; [|done]. unfold set_ZUO_CAR. by run_step (get_ok _ _ _ (grows_lookup_new _ _ _ _ _ Hg Hl)).
Qed.

Lemma made_cells hn E b D : E ⊆ hn → made hn b D →
  ∀ cs ws ds, cells hn cs ws b → Forall2 (made E) ws ds → made hn (hd b cs) (foldr Dpair D ds).
Proof.
  intros HE Hb. induction cs as [|c cs IH]; intros [|v ws] ds; cbn [cells]; try done.
  - intros _ H. by apply Forall2_nil_inv_l in H as ->.
  - intros [Hc Hcs] (x & ds' & Hv & Hds & ->)%Forall2_cons_inv_l. cbn. exists v, (hd b cs).
    split; [done|]. split; [by eapply made_weaken|by apply (IH ws)].
Qed.

(** A list is being read since [σ0]: its frame is on [stack], in the mode [m];
    [ds] has been read. *)
Record in_list (σ0 σ : st) (stack op dc stk m : loc) (ds : list datum)
    (hn E : gmap Z obj) (cs ws : list loc) (first last : loc) : Prop := {
  il_grows : grows σ0 σ hn;
  il_stack : hn !! stack = Some (Opair op stk);
  il_op : hn !! op = Some (Opair m dc);
  il_dc : hn !! dc = Some (Opair first last);
  il_seg : seg (o_null (s_img sB)) hn cs first last ws;
  il_nodup : NoDup (stack :: op :: dc :: cs);
  il_sub : E ⊆ hn;
  il_frame : ∀ a, a ∈ stack :: op :: dc :: cs → E !! a = None;
  il_elems : Forall2 (made E) ws ds }.

Definition list_frame σ0 σ stack op dc stk m ds : Prop :=
  ∃ hn E cs ws first last, in_list σ0 σ stack op dc stk m ds hn E cs ws first last.

(** The list is complete. *)
Definition closing (σ0 σ : st) (stack op dc stk m : loc) (D : datum) : Prop :=
  ∃ hn first last, grows σ0 σ hn ∧ hn !! stack = Some (Opair op stk) ∧ hn !! op = Some (Opair m dc)
    ∧ hn !! dc = Some (Opair first last) ∧ made hn first D.

Lemma list_closing σ0 σ stack op dc stk m ds :
  list_frame σ0 σ stack op dc stk m ds → closing σ0 σ stack op dc stk m (foldr Dpair Dnull ds).
Proof.
  intros (hn & E & cs & ws & first & last & [Hg Hs Ho Hd Hseg Hnd Hsub Hf He]). exists hn, first, last.
  split; [done|]. split; [done|]. split; [done|]. split; [done|]. rewrite (sg_first _ _ _ _ _ _ Hseg).
  exact (made_cells hn E (o_null (s_img sB)) Dnull Hsub eq_refl cs ws ds (sg_cells _ _ _ _ _ _ Hseg) He).
Qed.

Section frame.
Context (σ0 : st) (hn0 : gmap Z obj) (Hg0 : grows sB σ0 hn0).

Lemma frame_image σ hn : grows σ0 σ hn → image_ok σ ∧ s_img σ = s_img sB.
Proof.
  intros Hg. pose proof (grows_trans _ _ _ _ _ Hg0 Hg) as Hg1.
  split; [exact (image_ok_grows _ _ _ Him Hg1)|exact (gr_img _ _ _ Hg1)].
Qed.

Lemma closing_pop σ stack op dc stk m D :
  closing σ0 σ stack op dc stk m D →
  ∃ hn p, grows σ0 σ hn ∧ made hn p D ∧ top_list stack σ = Ok p σ ∧ ZUO_CDR stack σ = Ok stk σ
    ∧ (∀ f, top_is stack f σ = Ok (bool_decide (m = f (s_img sB))) σ).
Proof.
  intros (hn & first & last & Hg & Hs & Ho & Hd & Hm). exists hn, first. split; [done|]. split; [done|].
  destruct (frame_image _ _ Hg) as [Hi Ei].
  pose proof (grows_lookup_new _ _ _ _ _ Hg Hs) as Hs'. pose proof (grows_lookup_new _ _ _ _ _ Hg Ho) as Ho'.
  pose proof (grows_lookup_new _ _ _ _ _ Hg Hd) as Hd'. split; [|split].
  - unfold top_list. run_step (ZUO_CAR_ok _ _ _ _ Hs'). run_step (ZUO_CDR_ok _ _ _ _ Ho'). by rewrite (ZUO_CAR_ok _ _ _ _ Hd').
  - apply (ZUO_CDR_ok _ _ _ _ Hs').
  - intros f. rewrite (top_is_frame _ _ _ _ _ _ f Hi Hs' Ho'). by rewrite Ei.
Qed.

(** The mode of the frame changes. *)
Lemma frame_mode σ stack op dc stk m m' ds :
  list_frame σ0 σ stack op dc stk m ds →
  ∃ σ', ZUO_CAR stack σ = Ok op σ ∧ set_ZUO_CAR op m' σ = Ok tt σ' ∧ list_frame σ0 σ' stack op dc stk m' ds.
Proof.
  intros (hn & E & cs & ws & first & last & [Hg Hs Ho Hd Hseg Hnd Hsub Hf He]).
  destruct (set_ZUO_CAR_grows σ0 σ hn op m dc m' Hg Ho) as [Es Hg'].
  pose proof Hnd as Hnd'. rewrite !NoDup_cons in Hnd'. set_unfold in Hnd'. destruct Hnd' as (N1 & N2 & N3 & N4).
  eexists. split; [apply (ZUO_CAR_ok _ _ _ _ (grows_lookup_new _ _ _ _ _ Hg Hs))|]. split; [exact Es|].
  exists (<[op := Opair m' dc]> hn), E, cs, ws, first, last. split; try done.
  - rewrite lookup_insert_ne; [done|]. naive_solver.
  - by rewrite lookup_insert_eq.
  - rewrite lookup_insert_ne; [done|]. naive_solver.
  - eapply seg_keep; [|done]. intros c Hc. rewrite lookup_insert_ne; [done|]. naive_solver.
  - apply insert_subseteq_r; [apply Hf; set_solver|done].
Qed.

(** [read_combine] with a value, up to the mode of the frame on top. *)
Lemma combine_value fuel o obj stack op m v stk σ hn :
  grows σ0 σ hn → obj ≠ o_undefined (s_img σ) → obj ≠ o_eof (s_img σ) →
  hn !! stack = Some (Opair op stk) → hn !! op = Some (Opair m v) → m = o_false (s_img sB) ∨ m = o_null (s_img sB) →
  read_combine (S fuel) o w obj stack σ =
  (if decide (m = o_null (s_img sB)) then
     last <- ZUO_CDR v ;; set_ZUO_CDR last obj ;;; set_ZUO_CAR op (o_eof (s_img sB)) ;;; ret (inr stack)
   else
     pr <- zuo_cons obj (o_null (s_img sB)) ;;
     first <- ZUO_CAR v ;;
     b <- is_zi o_null first ;;
     (if b then set_ZUO_CAR v pr else (last <- ZUO_CDR v ;; set_ZUO_CDR last pr)) ;;;
     set_ZUO_CDR v pr ;;;
     ret (inr stack)) σ.
Proof.
  intros Hg Hu He Hs Ho Hm. destruct (frame_image _ _ Hg) as [Hi Ei].
  pose proof (grows_lookup_new _ _ _ _ _ Hg Hs) as Hs'. pose proof (grows_lookup_new _ _ _ _ _ Hg Ho) as Ho'.
  assert (Hne : stack ≠ o_null (s_img σ)).
  { intros ->. rewrite (image_single _ _ Hi) in Hs'; [done|]. unfold singletons. set_solver. }
  cbn [read_combine]. run_step (is_zi_ne o_undefined obj σ Hu). run_step (is_zi_ne o_null stack σ Hne).
  run_step (ZUO_CAR_ok _ _ _ _ Hs'). run_step (ZUO_CAR_ok _ _ _ _ Ho'). run_step (ZUO_CDR_ok _ _ _ _ Ho').
  run_step (is_zi_ne o_eof obj σ He). rewrite (bind_ok (zi o_null) _ _ _ _ eq_refl), (bind_ok get_st _ _ _ _ eq_refl). cbn zeta.
  rewrite <- !Ei in *. destruct Hm as [->| ->].
  - rewrite !(decide_False (P := o_false (s_img σ) = _)) by (image_neq Hi). by rewrite (decide_True (P := _ ∨ _)) by (by left).
  - rewrite !(decide_False (P := o_null (s_img σ) = o_true _)), !(decide_False (P := o_null (s_img σ) = o_undefined _)) by (image_neq Hi).
    rewrite (decide_False (P := _ ∨ o_null (s_img σ) = o_void _)) by (intros [H|H]; revert H; image_neq Hi).
    rewrite (decide_True (P := _ ∨ _)) by (by left). by rewrite !decide_True by done.
Qed.

(** The header [dc] of a list is told of the new cell [pr]. *)
Lemma frame_header stack σ2 σ3 hn3 dc first last pr :
  s_img σ2 = s_img sB → s_heap σ2 !! dc = Some (Opair first last) →
  grows σ0 σ3 hn3 → hn3 !! dc = Some (Opair first last) →
  (if bool_decide (first = o_null (s_img sB)) then ret tt else set_ZUO_CDR last pr) σ2 = Ok tt σ3 →
  ∃ σ4 hn4, (b <- is_zi o_null first ;;
      (if b then set_ZUO_CAR dc pr else (last <- ZUO_CDR dc ;; set_ZUO_CDR last pr)) ;;;
      set_ZUO_CDR dc pr ;;; ret (@inr loc loc stack)) σ2 = Ok (inr stack) σ4
    ∧ grows σ0 σ4 hn4 ∧ hn4 !! dc = Some (Opair (if bool_decide (first = o_null (s_img sB)) then pr else first) pr)
    ∧ ∀ x, x ≠ dc → hn4 !! x = hn3 !! x.
Proof.
  intros Ei Hd2 G3 Hd3 E3. run_step (is_zi_bool o_null first σ2). rewrite Ei.
  destruct (bool_decide (first = _)) eqn:Eb.
  - injection E3 as <-. destruct (set_ZUO_CAR_grows σ0 σ2 hn3 dc first last pr G3 Hd3) as [Ea Ga]. run_step Ea.
    destruct (set_ZUO_CDR_grows σ0 _ _ dc pr last pr Ga (lookup_insert_eq _ _ _)) as [Eb' Gb]. run_step Eb'.
    eexists _, _. split; [reflexivity|]. split; [exact Gb|]. split; [by rewrite lookup_insert_eq|].
    intros x Hx. by rewrite !lookup_insert_ne by done.
  - rewrite bind_assoc. run_step (ZUO_CDR_ok _ _ _ _ Hd2). run_step E3.
    destruct (set_ZUO_CDR_grows σ0 _ _ dc first last pr G3 Hd3) as [Eb' Gb]. run_step Eb'.
    eexists _, _. split; [reflexivity|]. split; [exact Gb|]. split; [by rewrite lookup_insert_eq|].
    intros x Hx. by rewrite !lookup_insert_ne by done.
Qed.

(** One more element. *)
Lemma frame_append σ stack op dc stk ds p a σ1 hn1 :
  list_frame σ0 σ stack op dc stk (o_false (s_img sB)) ds → grows σ σ1 hn1 → made hn1 p a →
  p ≠ o_undefined (s_img σ1) → p ≠ o_eof (s_img σ1) →
  ∃ σ2, (∀ fuel txt o, combine_then fuel txt o w p stack σ1 = in_loop fuel txt o w false stack σ2)
    ∧ list_frame σ0 σ2 stack op dc stk (o_false (s_img sB)) (ds ++ [a]).
Proof.
  intros (hn & E & cs & ws & first & last & [Hg Hs Ho Hd Hseg Hnd Hsub Hf He]) Hg1 Hp Hu Heof.
  pose proof (grows_trans _ _ _ _ _ Hg Hg1) as Hg01. set (hm := hn1 ∪ hn) in *.
  destruct (frame_image _ _ Hg01) as [Hi Ei].
  assert (Hkeep : ∀ a, is_Some (hn !! a) → hm !! a = hn !! a ∧ hn1 !! a = None).
  { intros x [ox Hx]. pose proof (grows_lookup_new _ _ _ _ _ Hg Hx) as Hx'.
    assert (hn1 !! x = None) by (eapply map_disjoint_Some_r; [apply (gr_disj _ _ _ Hg1)|done]).
    split; [|done]. unfold hm. rewrite lookup_union_r; done. }
  assert (Hs1 : hm !! stack = Some (Opair op stk)) by (rewrite (proj1 (Hkeep stack ltac:(eauto))); done).
  assert (Ho1 : hm !! op = Some (Opair (o_false (s_img sB)) dc)) by (rewrite (proj1 (Hkeep op ltac:(eauto))); done).
  assert (Hd1 : hm !! dc = Some (Opair first last)) by (rewrite (proj1 (Hkeep dc ltac:(eauto))); done).
  assert (Hseg1 : seg (o_null (s_img sB)) hm cs first last ws).
  { eapply seg_keep; [|done]. intros c Hc. apply Hkeep. by eapply seg_dom. }
  assert (Hcells : ∀ x, x ∈ stack :: op :: dc :: cs → is_Some (hn !! x)).
  { intros x. rewrite !elem_of_cons. intros [->|[->|[->|Hx]]]; eauto. by eapply seg_dom. }
  destruct (zuo_cons_grows (o_null (s_img sB)) σ1 p (o_null (s_img sB))) as (pr & σ2 & E1 & Hpr & Hprn & G1).
  { rewrite <- Ei. apply image_list_pre, Hi. }
  destruct (seg_link σ0 σ1 hm _ cs first last ws p pr σ2 Hg01 Hseg1 Hpr G1 Hprn) as (σ3 & hn3 & E3 & G3 & S3 & Hprcs & K3).
  assert (Hprne : pr ∉ stack :: op :: dc :: cs).
  { intros H. destruct (Hcells _ H) as [ox Hx]. rewrite (grows_lookup _ _ _ _ _ Hg1 (grows_lookup_new _ _ _ _ _ Hg Hx)) in Hpr. done. }
  assert (Hpr1 : hn1 !! pr = None).
  { destruct (hn1 !! pr) eqn:H; [|done]. rewrite (grows_lookup_new _ _ _ _ _ Hg1 H) in Hpr. done. }
  assert (HprE : E !! pr = None).
  { destruct (E !! pr) as [ox|] eqn:H; [|done]. pose proof (lookup_weaken _ _ _ _ H Hsub) as Hx.
    rewrite (grows_lookup _ _ _ _ _ Hg1 (grows_lookup_new _ _ _ _ _ Hg Hx)) in Hpr. done. }
  pose proof Hnd as Hnd'. rewrite !NoDup_cons in Hnd'. set_unfold in Hnd'. destruct Hnd' as (N1 & N2 & N3 & N4).
  assert (Hd3 : hn3 !! dc = Some (Opair first last)) by (rewrite K3; [done|naive_solver|set_solver]).
  set (f3 := if bool_decide (first = o_null (s_img sB)) then pr else first) in *.
  destruct (frame_header stack σ2 σ3 hn3 dc first last pr ltac:(by rewrite (gr_img _ _ _ G1)) 
    (grows_lookup _ _ _ _ _ G1 (grows_lookup_new _ _ _ _ _ Hg01 Hd1)) G3 Hd3 E3) as (σ4 & hn4 & E4 & G4 & Hd4 & K4). fold f3 in Hd4.
  assert (K : ∀ x, x ∉ cs → x ≠ pr → x ≠ dc → hn4 !! x = hm !! x) by (intros; rewrite K4, K3; done).
  exists σ4. split.
  { intros fuel txt o. unfold combine_then. rewrite (bind_ok get_st _ _ _ _ eq_refl). unfold heap_fuel.
    rewrite (bind_ok _ _ _ (inr stack) σ4); [done|].
    rewrite (combine_value _ _ _ _ _ _ _ _ _ _ Hg01 Hu Heof Hs1 Ho1 (or_introl eq_refl)).
    rewrite decide_False by (rewrite <- Ei; image_neq Hi). run_step E1.
    pose proof (grows_lookup _ _ _ _ _ G1 (grows_lookup_new _ _ _ _ _ Hg01 Hd1)) as Hd2. by run_step (ZUO_CAR_ok _ _ _ _ Hd2). }
  exists hn4, (hn1 ∪ E), (cs ++ [pr]), (ws ++ [p]), f3, pr.
  assert (Hnd4 : NoDup (stack :: op :: dc :: cs ++ [pr])).
  { change (stack :: op :: dc :: cs ++ [pr]) with ((stack :: op :: dc :: cs) ++ [pr]). apply NoDup_app.
    split; [done|]. split; [|apply NoDup_singleton]. intros x Hx Hx'. apply list_elem_of_singleton in Hx' as ->. done. }
  split; try done.
  - rewrite K; [done|naive_solver|set_solver|naive_solver].
  - rewrite K; [done|naive_solver|set_solver|naive_solver].
  - eapply seg_keep; [|exact S3]. intros c Hc. apply K4. intros ->. apply elem_of_app in Hc as [Hc|Hc]; [naive_solver|set_solver].
  - apply map_subseteq_spec. intros x ox Hx.
    assert (Hx' : x ∉ stack :: op :: dc :: cs ∧ x ≠ pr ∧ hm !! x = Some ox).
    { apply lookup_union_Some_raw in Hx as [Hx|[Hx1 Hx]].
      - split; [|split; [intros ->; congruence|by apply lookup_union_Some_l]].
        intros H. apply Hcells, Hkeep in H as [_ H]. congruence.
      - split; [|split; [intros ->; congruence|]].
        + intros H. apply Hf in H. congruence.
        + unfold hm. rewrite lookup_union_r by done. by eapply lookup_weaken. }
    destruct Hx' as (Hx1 & Hx2 & Hx3). rewrite K; [done|set_solver..].
  - intros x Hx. apply lookup_union_None.
    change (stack :: op :: dc :: cs ++ [pr]) with ((stack :: op :: dc :: cs) ++ [pr]) in Hx.
    apply elem_of_app in Hx as [Hx|Hx%list_elem_of_singleton]; [|by subst x].
    split; [apply Hkeep, Hcells, Hx|by apply Hf].
  - apply Forall2_app.
    + eapply Forall2_impl; [exact He|]. intros x d. apply made_weaken. apply map_union_subseteq_r'; [|done].
      apply map_disjoint_spec. intros x' o1 o2 H1 H2. pose proof (lookup_weaken _ _ _ _ H2 Hsub) as H3.
      destruct (Hkeep x' ltac:(eauto)). congruence.
    + constructor; [|constructor]. eapply made_weaken; [|exact Hp]. apply map_union_subseteq_l.
Qed.

(** The last cell of a segment. *)
Lemma seg_last nl hn cs first last ws :
  seg nl hn cs first last ws → cs ≠ [] →
  ∃ cs' ws' v, cs = cs' ++ [last] ∧ ws = ws' ++ [v] ∧ length cs' = length ws' ∧ hn !! last = Some (Opair v nl).
Proof.
  intros [_ Hl _ _ Hc] Hne. destruct (Hl Hne) as [cs' ->]. pose proof (cells_length _ _ _ _ Hc) as Hlen.
  destruct ws as [|v ws _] using rev_ind; [rewrite length_app in Hlen; cbn in Hlen; lia|].
  rewrite !length_app in Hlen. cbn in Hlen. exists cs', ws, v. split; [done|]. split; [done|].
  assert (Hlen' : length cs' = length ws) by lia. split; [done|]. clear -Hc Hlen'. revert ws Hlen' Hc.
  induction cs' as [|c cs' IH]; intros [|x ws] Hlen; cbn; try done; [tauto|]. intros [_ H]. eapply IH; [|exact H]. by injection Hlen.
Qed.

(** The datum after a dot. *)
Lemma frame_tail σ stack op dc stk ds p d σ1 hn1 :
  list_frame σ0 σ stack op dc stk (o_null (s_img sB)) ds → ds ≠ [] → grows σ σ1 hn1 → made hn1 p d →
  p ≠ o_undefined (s_img σ1) → p ≠ o_eof (s_img σ1) →
  ∃ σ2, (∀ fuel txt o, combine_then fuel txt o w p stack σ1 = in_loop fuel txt o w false stack σ2)
    ∧ closing σ0 σ2 stack op dc stk (o_eof (s_img sB)) (foldr Dpair d ds).
Proof.
  intros (hn & E & cs & ws & first & last & [Hg Hs Ho Hd Hseg Hnd Hsub Hf He]) Hne Hg1 Hp Hu Heof.
  pose proof (grows_trans _ _ _ _ _ Hg Hg1) as Hg01. set (hm := hn1 ∪ hn) in *.
  assert (Hkeep : ∀ x ox, hn !! x = Some ox → hm !! x = Some ox ∧ hn1 !! x = None).
  { intros x ox Hx. pose proof (grows_lookup_new _ _ _ _ _ Hg Hx) as Hx'.
    assert (hn1 !! x = None) by (eapply map_disjoint_Some_r; [apply (gr_disj _ _ _ Hg1)|done]).
    split; [|done]. unfold hm. by rewrite lookup_union_r. }
  assert (Hcs : cs ≠ []).
  { intros ->. apply Forall2_length in He. pose proof (cells_length _ _ _ _ (sg_cells _ _ _ _ _ _ Hseg)) as Hl. destruct ws; [|done].
    by destruct ds. }
  destruct (seg_last _ _ _ _ _ _ Hseg Hcs) as (cs' & ws' & v & Ecs & Ews & Hlen & Hlast).
  pose proof Hnd as Hnd'. rewrite !NoDup_cons in Hnd'. set_unfold in Hnd'. destruct Hnd' as (N1 & N2 & N3 & N4).
  assert (Hin_last : last ∈ cs) by (rewrite Ecs; set_solver).
  destruct (Hkeep _ _ Hs) as [Hs1 _]. destruct (Hkeep _ _ Ho) as [Ho1 Hop1]. destruct (Hkeep _ _ Hd) as [Hd1 _].
  destruct (Hkeep _ _ Hlast) as [Hlast1 Hl1].
  destruct (set_ZUO_CDR_grows σ0 σ1 hm last v _ p Hg01 Hlast1) as [E2 G2].
  assert (Ho2 : <[last := Opair v p]> hm !! op = Some (Opair (o_null (s_img sB)) dc)) by (rewrite lookup_insert_ne; [done|naive_solver]).
  destruct (set_ZUO_CAR_grows σ0 (set_heap_at last (Opair v p) σ1) (<[last := Opair v p]> hm) op _ dc (o_eof (s_img sB)) G2 Ho2) as [E3 G3].
  set (σ2 := set_heap_at op (Opair (o_eof (s_img sB)) dc) (set_heap_at last (Opair v p) σ1)) in *. exists σ2. split.
  { intros fuel txt o. unfold combine_then. rewrite (bind_ok get_st _ _ _ _ eq_refl). unfold heap_fuel.
    rewrite (bind_ok _ _ _ (inr stack) σ2); [done|].
    rewrite (combine_value _ _ _ _ _ _ _ _ _ _ Hg01 Hu Heof Hs1 Ho1 (or_intror eq_refl)).
    rewrite decide_True by done. run_step (ZUO_CDR_ok _ _ _ _ (grows_lookup_new _ _ _ _ _ Hg01 Hd1)). run_step E2. by run_step E3. }
  set (hn3 := <[op := _]> _) in *. assert (Hkp : ∀ x, x ≠ op → x ≠ last → hn3 !! x = hm !! x)
    by (intros; unfold hn3; by rewrite !lookup_insert_ne).
  exists hn3, first, last. split; [exact G3|].
  split; [rewrite Hkp; [done|naive_solver..]|]. split; [by apply lookup_insert_eq|].
  split; [rewrite Hkp; [done|naive_solver..]|].
  rewrite (sg_first _ _ _ _ _ _ Hseg). replace (hd (o_null (s_img sB)) cs) with (hd p cs) by (by destruct cs).
  assert (Hfresh : ∀ g : gmap Z obj, g !! op = None → g !! last = None → g ⊆ hm → g ⊆ hn3).
  { intros g H1 H2 H3. do 2 (apply insert_subseteq_r; [done|]). done. }
  apply (made_cells hn3 E p d) with ws; [..|done].
  - apply Hfresh; [apply Hf; set_solver|apply Hf; set_solver|].
    apply map_subseteq_spec. intros x ox Hx. apply Hkeep. exact (lookup_weaken _ _ _ _ Hx Hsub).
  - eapply made_weaken; [|exact Hp]. apply Hfresh; [done|done|apply map_union_subseteq_l].
  - eapply (cells_weaken (<[last := Opair v p]> hm)).
    { intros c Hc. unfold hn3. rewrite lookup_insert_ne; [done|naive_solver]. }
    subst cs ws. eapply cells_redirect; [|apply Hseg|done].
    eapply cells_weaken; [|apply (sg_cells _ _ _ _ _ _ Hseg)]. intros c Hc.
    destruct (seg_dom _ _ _ _ _ _ _ Hseg Hc) as [oc Hoc]. rewrite Hoc. by apply Hkeep.
Qed.
End frame.

(** ** The text of a datum *)

Definition spaces (sp : list Z) : Prop := Forall (λ x, x = 32) sp.

(** Reading the text of [d] from [o] on, where white space may come first. *)
Definition reads_whole (d : datum) : Prop :=
  ∀ t sp pre post txt o σ hn stack,
    text d t → valid d → spaces sp → delim post → grows sB σ hn → plain_top σ stack →
    txt = pre ++ sp ++ t ++ post → o = Z.of_nat (length pre) →
    ∃ k p σ' hn', (k ≤ length t)%nat ∧ grows σ σ' hn' ∧ made hn' p d
      ∧ ∀ fuel, in_loop (k + fuel) txt o w false stack σ
          = combine_then fuel txt (o + Z.of_nat (length sp + length t)) w p stack σ'.

(** Reading the rest of a list. *)
Definition reads_tail (d : datum) : Prop :=
  ∀ t pre post txt o σ0 hn0 σ stack op dc stk ds,
    tail_text d t → valid d → grows sB σ0 hn0 →
    list_frame σ0 σ stack op dc stk (o_false (s_img sB)) ds → ds ≠ [] →
    txt = pre ++ t ++ post → o = Z.of_nat (length pre) →
    ∃ k p σ' hn', (k ≤ length t)%nat ∧ grows σ0 σ' hn' ∧ made hn' p (foldr Dpair d ds)
      ∧ ∀ fuel, in_loop (k + fuel) txt o w false stack σ
          = combine_then fuel txt (o + Z.of_nat (length t)) w p stk σ'.

Lemma text_nonempty d t : valid d → text d t → (1 ≤ length t)%nat.
Proof.
  intros Hv Ht. destruct d as [|b|i|b|n|a d]; cbn in *.
  - subst t. cbn. lia.
  - subst t. destruct b; cbn; lia.
  - destruct Ht as (ds & -> & Hne & _). destruct ds; [done|]. rewrite length_app. cbn. lia.
  - subst t. cbn. lia.
  - subst t. destruct Hv as [(_ & _ & Hne & _) _]. destruct n; [done|]. cbn. lia.
  - destruct Ht as (ta & td & -> & _). cbn. lia.
Qed.

Lemma whole_atom d : (∀ a d', d ≠ Dpair a d') → d ≠ Dnull → reads_whole d.
Proof.
  intros Hd Hn t sp pre post txt o σ hn stack Ht Hv Hsp Hp Hg Htop -> ->.
  assert (Hat : atom_text d t) by (destruct d; try done; by destruct (Hd d1 d2)).
  destruct (reads_atom d t Hd Hn Hv Hat (pre ++ sp) post σ hn stack Hp Hg Htop) as (Hst & p & σ' & hn' & E & Hg' & Hm).
  exists 1%nat, p, σ', hn'. split; [by eapply text_nonempty|]. split; [done|]. split; [done|]. intros fuel.
  cbn [Nat.add]. rewrite (in_loop_begin fuel sp pre (t ++ post) w stack σ _ _ _ _ Hsp Hst E). f_equal. rewrite length_app. lia.
Qed.

(** The opening parenthesis. *)
Lemma open_frame σ hn stack txt sp pre r o :
  grows sB σ hn → plain_top σ stack → spaces sp → txt = pre ++ sp ++ 40 :: r → o = Z.of_nat (length pre) →
  ∃ σ' st op dc, list_frame σ σ' st op dc stack (o_false (s_img sB)) []
    ∧ ∀ fuel, in_loop (S fuel) txt o w false stack σ = in_loop fuel txt (o + Z.of_nat (length sp + 1)) w false st σ'.
Proof.
  intros Hg [Ht1 Ht2] Hsp -> ->. set (nl := o_null (s_img sB)). pose proof (image_ok_grows _ _ _ Him Hg) as Hi.
  pose proof (gr_img _ _ _ Hg) as Ei.
  destruct (zuo_cons_grows nl σ nl nl) as (dc & σ1 & E1 & F1 & N1 & G1); [unfold nl; rewrite <- Ei; apply image_list_pre, Hi|].
  pose proof (list_pre_grows _ _ _ _ (image_list_pre _ Hi) G1) as P1. rewrite Ei in P1.
  destruct (zuo_cons_grows nl σ1 (o_false (s_img sB)) dc P1) as (op & σ2 & E2 & F2 & N2 & G2).
  destruct (zuo_cons_grows nl σ2 op stack (list_pre_grows _ _ _ _ P1 G2)) as (st & σ3 & E3 & F3 & N3 & G3).
  pose proof (grows_trans _ _ _ _ _ G1 G2) as G12. pose proof (grows_trans _ _ _ _ _ G12 G3) as G13.
  assert (Hne1 : op ≠ dc) by (intros ->; rewrite (grows_new _ _ _ _ G1) in F2; done).
  assert (Hne2 : st ≠ op) by (intros ->; rewrite (grows_new _ _ _ _ G2) in F3; done).
  assert (Hne3 : st ≠ dc) by (intros ->; rewrite (grows_lookup _ _ _ _ _ G2 (grows_new _ _ _ _ G1)) in F3; done).
  exists σ3, st, op, dc. split.
  - eexists _, ∅, [], [], nl, nl. split; [exact G13|..].
    + apply lookup_union_Some_l, lookup_singleton_eq.
    + rewrite lookup_union_r by (by rewrite lookup_singleton_ne). apply lookup_union_Some_l, lookup_singleton_eq.
    + rewrite lookup_union_r by (by rewrite lookup_singleton_ne). rewrite lookup_union_r by (by rewrite lookup_singleton_ne).
      apply lookup_singleton_eq.
    + apply seg_nil.
    + rewrite !NoDup_cons. set_unfold. split; [naive_solver|]. split; [naive_solver|]. split; [naive_solver|constructor].
    + apply map_empty_subseteq.
    + done.
    + constructor.
  - assert (E : read_begin ((pre ++ sp) ++ 40 :: r) (Z.of_nat (length (pre ++ sp))) w stack σ
        = Ok (o_undefined (s_img sB), Z.of_nat (length (pre ++ sp)) + 1, st) σ3).
    { unfold read_begin. read_at (pre ++ sp) (40 :: r) 0%nat 40. run_step Ht1. run_step Ht2. cbn [Z.eqb Pos.eqb orb].
      unfold read_open. rewrite (bind_ok (zi o_null) _ _ _ _ eq_refl), Ei. run_step E1. cbn [Z.eqb Pos.eqb].
      rewrite (bind_ok (zi o_false) _ _ _ _ eq_refl), (gr_img _ _ _ G1), Ei. unfold push_in. run_step E2. run_step E3.
      rewrite (bind_ok (zi o_undefined) _ _ _ _ eq_refl), (gr_img _ _ _ G13), Ei. done. }
    intros fuel. rewrite (in_loop_begin fuel sp pre (40 :: r) w stack σ _ _ _ _ Hsp ltac:(by eexists _, _) E).
    unfold combine_then. rewrite (bind_ok get_st _ _ _ _ eq_refl). unfold heap_fuel. cbn [read_combine].
    rewrite bind_assoc. run_step (is_zi_eq o_undefined (o_undefined (s_img sB)) σ3 ltac:(by rewrite (gr_img _ _ _ G13), Ei)).
    rewrite (bind_ok (ret _) _ _ _ _ eq_refl). f_equal. rewrite length_app. lia.
Qed.

(** The closing parenthesis. *)
Lemma close_frame σ0 hn0 σ stack op dc stk m D txt pre r o :
  grows sB σ0 hn0 → closing σ0 σ stack op dc stk m D → m = o_false (s_img sB) ∨ m = o_eof (s_img sB) →
  txt = pre ++ 41 :: r → o = Z.of_nat (length pre) →
  ∃ hn p, grows σ0 σ hn ∧ made hn p D ∧ ∀ fuel, in_loop (S fuel) txt o w false stack σ = combine_then fuel txt (o + 1) w p stk σ.
Proof.
  intros Hg0 Hc Hm -> ->. destruct (closing_pop _ _ Hg0 _ _ _ _ _ _ _ Hc) as (hn & p & Hg & Hp & El & Es & Et).
  exists hn, p. split; [done|]. split; [done|].
  assert (E : read_begin ((pre ++ []) ++ 41 :: r) (Z.of_nat (length (pre ++ []))) w stack σ = Ok (p, Z.of_nat (length pre) + 1, stk) σ).
  { rewrite app_nil_r. unfold read_begin. read_at pre (41 :: r) 0%nat 41. run_step (Et o_eof). destruct Hm as [->| ->].
    - rewrite bool_decide_eq_false_2 by image_neq Him. run_step (Et o_apply). rewrite bool_decide_eq_false_2 by image_neq Him.
      cbn [Z.eqb Pos.eqb orb]. unfold read_close. cbn [Z.eqb Pos.eqb]. run_step (Et o_false). rewrite bool_decide_eq_true_2 by done.
      rewrite (bind_ok (ret true) _ _ _ _ eq_refl). run_step El. by run_step Es.
    - rewrite bool_decide_eq_true_2 by done. rewrite (bind_ok (ret false) _ _ _ _ eq_refl).
      unfold read_after_dot. cbn [Z.eqb Pos.eqb negb]. run_step El. by run_step Es. }
  intros fuel. exact (in_loop_begin fuel [] pre (41 :: r) w stack σ _ _ _ _ ltac:(constructor) ltac:(by eexists _, _) E).
Qed.

(** The dot. *)
Lemma dot_frame σ0 hn0 σ stack op dc stk ds txt pre r o :
  grows sB σ0 hn0 → list_frame σ0 σ stack op dc stk (o_false (s_img sB)) ds → ds ≠ [] →
  txt = pre ++ [32] ++ 46 :: 32 :: r → o = Z.of_nat (length pre) →
  ∃ σ', list_frame σ0 σ' stack op dc stk (o_null (s_img sB)) ds
    ∧ ∀ fuel, in_loop (S fuel) txt o w false stack σ = in_loop fuel txt (o + 2) w false stack σ'.
Proof.
  intros Hg0 Hf Hne -> ->. destruct (frame_mode σ0 hn0 Hg0 σ stack op dc stk _ (o_null (s_img sB)) ds Hf) as (σ' & Ec & Es & Hf').
  exists σ'. split; [done|]. pose proof (list_closing _ _ _ _ _ _ _ _ Hf) as Hc.
  destruct (closing_pop _ _ Hg0 _ _ _ _ _ _ _ Hc) as (hn & p & Hg & Hp & El & Ek & Et).
  destruct (frame_image _ _ Hg0 _ _ Hg) as [Hi Ei].
  assert (Hpn : p ≠ o_null (s_img σ)).
  { intros ->. destruct ds as [|d ds]; [done|]. cbn in Hp. destruct Hp as (la & ld & Hx & _).
    apply (grows_lookup_new _ _ _ _ _ Hg) in Hx. rewrite (image_single _ _ Hi) in Hx; [done|]. unfold singletons. set_solver. }
  destruct Hf' as (hn' & E' & cs' & ws' & f' & l' & [Hg' _ _ _ _ _ _ _ _]).
  destruct (frame_image _ _ Hg0 _ _ Hg') as [Hi' Ei'].
  assert (E : read_begin ((pre ++ [32]) ++ 46 :: 32 :: r) (Z.of_nat (length (pre ++ [32]))) w stack σ
      = Ok (o_undefined (s_img sB), Z.of_nat (length (pre ++ [32])) + 1, stack) σ').
  { rewrite read_begin_rest; [|by split; rewrite Et, bool_decide_eq_false_2 by image_neq Him|set_solver].
    unfold read_rest. cbn [hd Z.eqb Pos.eqb orb andb]. change (isdigit 46) with false. cbn [orb].
    rewrite (bind_ok (ret false) _ _ _ _ eq_refl). change (is_symbol_char 32) with false. cbn [negb].
    unfold read_dot, dot_allowed. rewrite bind_assoc. run_step (Et o_false). rewrite bool_decide_eq_true_2 by done.
    rewrite bind_assoc. run_step El. rewrite bind_assoc. run_step (is_zi_ne o_null p σ Hpn).
    rewrite (bind_ok (ret _) _ _ _ _ eq_refl). cbn [negb]. rewrite (bind_ok (ret false) _ _ _ _ eq_refl).
    rewrite bind_assoc. run_step Ec. rewrite bind_assoc, (bind_ok (zi o_null) _ _ _ _ eq_refl), Ei. run_step Es.
    rewrite (bind_ok (zi o_undefined) _ _ _ _ eq_refl), Ei'. done. }
  intros fuel. rewrite (in_loop_begin fuel [32] pre (46 :: 32 :: r) w stack σ _ _ _ _ ltac:(by repeat constructor) ltac:(by eexists _, _) E).
  unfold combine_then. rewrite (bind_ok get_st _ _ _ _ eq_refl). unfold heap_fuel. cbn [read_combine].
  rewrite bind_assoc. run_step (is_zi_eq o_undefined (o_undefined (s_img sB)) σ' ltac:(by rewrite Ei')).
  rewrite (bind_ok (ret _) _ _ _ _ eq_refl). f_equal. rewrite length_app. cbn. lia.
Qed.

Lemma frame_plain σ0 hn0 σ stack op dc stk m ds :
  grows sB σ0 hn0 → list_frame σ0 σ stack op dc stk m ds → m = o_false (s_img sB) ∨ m = o_null (s_img sB) →
  plain_top σ stack ∧ ∃ hn, grows sB σ hn.
Proof.
  intros Hg0 Hf Hm. destruct (closing_pop _ _ Hg0 _ _ _ _ _ _ _ (list_closing _ _ _ _ _ _ _ _ Hf)) as (hn & p & Hg & _ & _ & _ & Et).
  split; [|eexists; by eapply grows_trans]. split; rewrite Et; f_equal; apply bool_decide_eq_false_2; destruct Hm as [->| ->]; image_neq Him.
Qed.

Lemma tail_delim d t r : tail_text d t → delim (t ++ r).
Proof.
  destruct d; cbn; intros H; [subst t; by right; right|..|destruct H as (ta & td & -> & _); by right; left];
    destruct H as (ta & -> & _); by right; left.
Qed.

(** An element is read and added. *)
Lemma read_element a t sp pre post txt o σ0 hn0 σ stack op dc stk ds :
  reads_whole a → text a t → valid a → spaces sp → delim post → grows sB σ0 hn0 →
  list_frame σ0 σ stack op dc stk (o_false (s_img sB)) ds → txt = pre ++ sp ++ t ++ post → o = Z.of_nat (length pre) →
  ∃ k σ2, (k ≤ length t)%nat ∧ list_frame σ0 σ2 stack op dc stk (o_false (s_img sB)) (ds ++ [a])
    ∧ ∀ fuel, in_loop (k + fuel) txt o w false stack σ = in_loop fuel txt (o + Z.of_nat (length sp + length t)) w false stack σ2.
Proof.
  intros Ra Ht Hv Hsp Hp Hg0 Hf -> ->. destruct (frame_plain _ _ _ _ _ _ _ _ _ Hg0 Hf (or_introl eq_refl)) as [Htop [hn Hg]].
  destruct (Ra t sp pre post _ _ σ hn stack Ht Hv Hsp Hp Hg Htop eq_refl eq_refl) as (k & p & σ1 & hn1 & Hk & G1 & Hm & E).
  destruct (made_value σ1 (hn1 ∪ hn) hn1 a p (grows_trans _ _ _ _ _ Hg G1) Hv Hm) as [Hu He].
  { intros x ox Hx. exact (grows_lookup_new _ _ _ _ _ G1 Hx). }
  destruct (frame_append _ _ Hg0 σ stack op dc stk ds p a σ1 hn1 Hf G1 Hm Hu He) as (σ2 & E2 & Hf2).
  exists k, σ2. split; [done|]. split; [done|]. intros fuel. by rewrite E, E2.
Qed.

Lemma whole_null : reads_whole Dnull.
Proof.
  intros t sp pre post txt o σ hn stack Ht Hv Hsp Hp Hg Htop -> ->. cbn in Ht. subst t.
  destruct (open_frame σ hn stack _ sp pre (41 :: post) _ Hg Htop Hsp eq_refl eq_refl) as (σ1 & st & op & dc & Hf & E1).
  destruct (close_frame σ hn σ1 st op dc stack _ _ (pre ++ sp ++ 40 :: 41 :: post) (pre ++ sp ++ [40]) post
    (Z.of_nat (length pre) + Z.of_nat (length sp + 1)) Hg (list_closing _ _ _ _ _ _ _ _ Hf) (or_introl eq_refl))
    as (hn1 & p & G1 & Hm & E2).
  { by rewrite <- !app_assoc. } { rewrite !length_app. cbn. lia. }
  exists 2%nat, p, σ1, hn1. split; [by cbn|]. split; [done|]. split; [done|]. intros fuel.
  cbn [Nat.add]. change (bytes_of "()" ++ post) with (40 :: 41 :: post). rewrite E1, E2. f_equal. cbn. lia.
Qed.

Lemma whole_list a d : reads_whole a → reads_tail d → reads_whole (Dpair a d).
Proof.
  intros Ra Qd t sp pre post txt o σ hn stack (ta & td & -> & Ha & Hd) [Va Vd] Hsp Hp Hg Htop -> ->.
  set (txt := pre ++ sp ++ ([40] ++ ta ++ td) ++ post).
  destruct (open_frame σ hn stack txt sp pre (ta ++ td ++ post) (Z.of_nat (length pre)) Hg Htop Hsp) as (σ1 & st & op & dc & Hf & E1);
    [by unfold txt; rewrite <- !app_assoc|reflexivity|].
  destruct (read_element a ta [] (pre ++ sp ++ [40]) (td ++ post) txt (Z.of_nat (length pre) + Z.of_nat (length sp + 1))
    σ hn σ1 st op dc stack [] Ra Ha Va ltac:(constructor) (tail_delim _ _ _ Hd) Hg Hf) as (k1 & σ2 & Hk1 & Hf2 & E2).
  { unfold txt. by rewrite <- !app_assoc. } { rewrite !length_app. cbn. lia. }
  destruct (Qd td (pre ++ sp ++ [40] ++ ta) post txt (Z.of_nat (length pre) + Z.of_nat (length sp + 1 + length ta))
    σ hn σ2 st op dc stack [a] Hd Vd Hg Hf2 ltac:(done)) as (k2 & p & σ3 & hn3 & Hk2 & G3 & Hm & E3).
  { unfold txt. by rewrite <- !app_assoc. } { rewrite !length_app. cbn. lia. }
  exists (S (k1 + k2)), p, σ3, hn3. split; [rewrite !length_app; cbn; lia|]. split; [done|]. split; [done|]. intros fuel.
  cbn [Nat.add]. rewrite E1, <- Nat.add_assoc, E2.
  replace (Z.of_nat (length pre) + Z.of_nat (length sp + 1) + Z.of_nat (length (@nil Z) + length ta))
    with (Z.of_nat (length pre) + Z.of_nat (length sp + 1 + length ta)) by (cbn; lia).
  rewrite E3. f_equal. rewrite !length_app. cbn. lia.
Qed.

Lemma tail_close : reads_tail Dnull.
Proof.
  intros t pre post txt o σ0 hn0 σ stack op dc stk ds Ht Hv Hg0 Hf Hne -> ->. cbn in Ht. subst t.
  destruct (close_frame σ0 hn0 σ stack op dc stk _ _ (pre ++ [41] ++ post) pre post _ Hg0
    (list_closing _ _ _ _ _ _ _ _ Hf) (or_introl eq_refl) eq_refl eq_refl) as (hn & p & G & Hm & E).
  exists 1%nat, p, σ, hn. split; [by cbn|]. split; [done|]. split; [done|]. intros fuel. apply E.
Qed.

Lemma tail_more a d : reads_whole a → reads_tail d → reads_tail (Dpair a d).
Proof.
  intros Ra Qd t pre post txt o σ0 hn0 σ stack op dc stk ds (ta & td & -> & Ha & Hd) [Va Vd] Hg0 Hf Hne -> ->.
  set (txt := pre ++ ([32] ++ ta ++ td) ++ post).
  destruct (read_element a ta [32] pre (td ++ post) txt (Z.of_nat (length pre)) σ0 hn0 σ stack op dc stk ds Ra Ha Va ltac:(by repeat constructor)
    (tail_delim _ _ _ Hd) Hg0 Hf) as (k1 & σ2 & Hk1 & Hf2 & E2); [by unfold txt; rewrite <- !app_assoc|reflexivity|].
  destruct (Qd td (pre ++ [32] ++ ta) post txt (Z.of_nat (length pre) + Z.of_nat (length [32] + length ta))
    σ0 hn0 σ2 stack op dc stk (ds ++ [a]) Hd Vd Hg0 Hf2 ltac:(by destruct ds)) as (k2 & p & σ3 & hn3 & Hk2 & G3 & Hm & E3).
  { unfold txt. by rewrite <- !app_assoc. } { rewrite !length_app. cbn. lia. }
  exists (k1 + k2)%nat, p, σ3, hn3. split; [rewrite !length_app; cbn; lia|]. split; [done|].
  split; [by rewrite foldr_app in Hm|]. intros fuel. rewrite <- Nat.add_assoc, E2, E3. f_equal. rewrite !length_app. cbn. lia.
Qed.

Lemma tail_dot d : (∀ a d', d ≠ Dpair a d') → d ≠ Dnull → reads_whole d → reads_tail d.
Proof.
  intros Hd Hn Rd t pre post txt o σ0 hn0 σ stack op dc stk ds Ht Hv Hg0 Hf Hne -> ->.
  assert (Hta : ∃ ta, t = [32; 46; 32] ++ ta ++ [41] ∧ text d ta).
  { destruct d as [|b|i|b|n|a d]; try done; try (by destruct Ht as (ta & ? & ?); exists ta). by destruct (Hd a d). }
  clear Ht. destruct Hta as (ta & -> & Ht). set (txt := pre ++ ([32; 46; 32] ++ ta ++ [41]) ++ post).
  destruct (dot_frame σ0 hn0 σ stack op dc stk ds txt pre (ta ++ 41 :: post) (Z.of_nat (length pre)) Hg0 Hf Hne) as (σ1 & Hf1 & E1);
    [by unfold txt; cbn; rewrite <- !app_assoc|reflexivity|].
  destruct (frame_plain _ _ _ _ _ _ _ _ _ Hg0 Hf1 (or_intror eq_refl)) as [Htop [hn Hg]].
  destruct (Rd ta [32] (pre ++ [32; 46]) (41 :: post) txt (Z.of_nat (length pre) + 2) σ1 hn stack Ht Hv ltac:(by repeat constructor)
    ltac:(by right; right) Hg Htop) as (k & p & σ2 & hn2 & Hk & G2 & Hm & E2).
  { unfold txt. cbn. by rewrite <- !app_assoc. } { rewrite !length_app. cbn. lia. }
  destruct (made_value σ2 (hn2 ∪ hn) hn2 d p (grows_trans _ _ _ _ _ Hg G2) Hv Hm) as [Hu He].
  { intros x ox Hx. exact (grows_lookup_new _ _ _ _ _ G2 Hx). }
  destruct (frame_tail σ0 hn0 Hg0 σ1 stack op dc stk ds p d σ2 hn2 Hf1 Hne G2 Hm Hu He) as (σ3 & E3 & Hc).
  destruct (close_frame σ0 hn0 σ3 stack op dc stk _ _ txt (pre ++ [32; 46; 32] ++ ta) post
    (Z.of_nat (length pre) + 2 + Z.of_nat (length [32] + length ta)) Hg0 Hc (or_intror eq_refl)) as (hn3 & p3 & G3 & Hm3 & E4).
  { unfold txt. cbn. by rewrite <- !app_assoc. } { rewrite !length_app. cbn. lia. }
  exists (S (k + 1)), p3, σ3, hn3. split; [rewrite !length_app; cbn; lia|]. split; [done|]. split; [done|]. intros fuel.
  cbn [Nat.add]. rewrite E1, <- Nat.add_assoc, E2, E3. cbn [Nat.add]. rewrite E4. f_equal. rewrite !length_app. cbn. lia.
Qed.

Lemma all_read d : reads_whole d ∧ reads_tail d.
Proof.
  revert d. apply datum_both.
  - intros d Hd. destruct (decide (d = Dnull)) as [->|Hn]; [apply whole_null|by apply whole_atom].
  - apply whole_list.
  - apply tail_close.
  - apply tail_dot.
  - apply tail_more.
Qed.
End read.

(** ** The reader on a text *)

Lemma valid_of s d : ∀ l, at_datum s l d → valid s d.
Proof.
  induction d as [|b|i|b|n|a IHa d IHd]; intros l; cbn; try done.
  - by intros [_ ?].
  - by intros [_ ?].
  - intros [Hl Hn]. by split; [|exists l].
  - intros (la & ld & _ & Ha & Hd). split; [by eapply IHa|by eapply IHd].
Qed.

Lemma zuo_in_datum s d t where_ :
  image_ok s → intern_ok s → valid s d → text d t →
  ∃ p s' hn, zuo_in t 0 where_ false s = Ok (p, Z.of_nat (length t)) s' ∧ grows s s' hn ∧ made s hn p d ∧ at_datum s' p d.
Proof.
  intros Him Hin Hv Ht. destruct (all_read s Him Hin where_ d) as [Rd _].
  destruct (Rd t [] [] [] t 0 s ∅ (o_null (s_img s)) Ht Hv ltac:(constructor) ltac:(by left) (grows_refl _ (im_mem _ Him))
    ltac:(split; apply top_is_null) ltac:(by rewrite app_nil_r) eq_refl) as (k & p & s' & hn & Hk & Hg & Hm & E).
  destruct (made_value s Him Hin s' hn hn d p Hg Hv Hm) as [Hu _]; [intros a o Ha; exact (grows_lookup_new _ _ _ _ _ Hg Ha)|].
  exists p, s', hn. split; [|split; [done|split; [done|exact (made_at_datum s Hin s' hn d Hg p Hv Hm)]]].
  unfold zuo_in. rewrite (bind_ok (zi o_null) _ _ _ _ eq_refl).
  replace (input_fuel t) with (k + (input_fuel t - k))%nat by (unfold input_fuel; lia). rewrite E.
  unfold combine_then. rewrite (bind_ok get_st _ _ _ _ eq_refl). unfold heap_fuel. cbn [read_combine].
  rewrite bind_assoc. run_step (is_zi_ne o_undefined p s' Hu). rewrite bind_assoc.
  run_step (is_zi_eq o_null (o_null (s_img s)) s' ltac:(by rewrite (gr_img _ _ _ Hg))).
  rewrite (bind_ok (ret _) _ _ _ _ eq_refl). cbn [length]. rewrite Nat.add_0_l, Z.add_0_l. done.
Qed.

(** C13.  Writing a datum and reading the text gives a copy.  A datum is any
    tree of pairs, integers, strings, booleans, the empty list and symbols
    whose names read as symbols, the lists proper or not and nested to any
    depth.  The printer, with fuel for its objects, ends, changes nothing that
    was there, and writes the text of the datum without overflowing its
    buffer; the reader ends, consumes the text exactly, and makes a new tree of
    the same shape, which shares the constants and the symbols only. *)
Theorem datum_write_read fuel s l d where_ :
  image_ok s → intern_ok s → at_datum s l d → (print_steps d ≤ fuel)%nat →
  ∃ out s1 hn1, zuo_out fuel out_init l zuo_write_mode s = Ok out s1 ∧ grows s s1 hn1
    ∧ text d (out_s out) ∧ out_ok out
    ∧ ∃ p s2 hn2, zuo_in (out_s out) 0 where_ false s1 = Ok (p, out_len out) s2 ∧ grows s1 s2 hn2
        ∧ made s1 hn2 p d ∧ at_datum s2 p d.
Proof.
  intros Him Hin Hl Hf. destruct (zuo_out_datum s l d out_init fuel Him Hin Hl Hf) as (t & out & s1 & hn1 & Ht & [Ho Hok] & Hg & E).
  cbn [out_init out_s app] in Ho. exists out, s1, hn1. unfold out_len. rewrite Ho. split; [done|]. split; [done|]. split; [done|].
  split; [apply Hok, out_init_ok|]. apply (zuo_in_datum s1 d t where_); [by eapply image_ok_grows|by eapply intern_ok_grows| |done].
  eapply valid_of. by eapply at_datum_grows.
Qed.

(** A string with a quote and a newline, and [car] before a dot and [#t]. *)
Definition sample : datum := Dpair (Dstr [34; 10]) (Dpair (Dsym (bytes_of "car")) (Dbool true)).
Definition sample_text : list Z := [40] ++ string_text [34; 10] ++ [32] ++ bytes_of "car" ++ [32; 46; 32] ++ bytes_of "#t" ++ [41].

Lemma sample_texts : text sample sample_text.
Proof.
  exists (string_text [34; 10]), ([32] ++ bytes_of "car" ++ [32; 46; 32] ++ bytes_of "#t" ++ [41]).
  split; [reflexivity|]. split; [reflexivity|]. exists (bytes_of "car"), ([32; 46; 32] ++ bytes_of "#t" ++ [41]).
  split; [reflexivity|]. split; [reflexivity|]. by exists (bytes_of "#t").
Qed.

Lemma sample_valid : valid booted sample.
Proof.
  unfold sample. cbn [valid]. split; [repeat constructor; done|]. split; [|exact I]. split; [apply (bool_decide_unpack _); vm_compute; exact I|].
  apply (bool_decide_unpack _). vm_compute. exact I.
Qed.

Lemma datum_write_read_witness :
  ∃ l s, at_datum s l sample ∧
    ∃ out s1 hn1, zuo_out 9 out_init l zuo_write_mode s = Ok out s1 ∧ grows s s1 hn1
      ∧ text sample (out_s out) ∧ out_ok out
      ∧ ∃ p s2 hn2, zuo_in (out_s out) 0 0 false s1 = Ok (p, out_len out) s2 ∧ grows s1 s2 hn2
          ∧ made s1 hn2 p sample ∧ at_datum s2 p sample.
Proof.
  destruct (zuo_in_datum booted sample sample_text 0 booted_image booted_table sample_valid sample_texts)
    as (l & s & hn & _ & Hg & _ & Hl).
  exists l, s. split; [exact Hl|].
  apply (datum_write_read 9 s l sample 0); [exact (image_ok_grows _ _ _ booted_image Hg)|exact (intern_ok_grows _ _ _ booted_table Hg)|exact Hl|].
  cbn. lia.
Defined.
