(* ===== verification/PathBytes.v ===== *)
(** * Paths as walks

    A path is read as the walk that its elements describe: [.] stays, [..]
    goes up, and any other element goes down.  Here the operations on paths are
    followed on bytes: how a path is cut, what one pass of the loop of
    [zuo_build_path2] does, that it makes the work left smaller, and what it
    keeps. *)

From S2P Require Import Prelude Sys Heap Objects Reader Path.

Definition dot : list Z := [46].
Definition dotdot : list Z := [46; 46].
Definition sep : Z := 47.

(** No separator inside. *)
Definition plain (e : list Z) : Prop := Forall (λ c, c ≠ sep) e.
(** What [check_path_string] accepts. *)
Definition path_string (p : list Z) : Prop := p ≠ [] ∧ Forall (λ c, c ≠ 0) p.
Definition absolute (p : list Z) : Prop := hd 0 p = sep.

(** ** The elements of a path *)

Fixpoint elements_from (cur p : list Z) : list (list Z) :=
  match p with
  | [] => match cur with [] => [] | _ :: _ => [cur] end
  | c :: p' =>
      if decide (c = sep)
      then match cur with [] => elements_from [] p' | _ :: _ => cur :: elements_from [] p' end
      else elements_from (cur ++ [c]) p'
  end.
Definition elements (p : list Z) : list (list Z) := elements_from [] p.

Lemma elements_from_sep cur a b : elements_from cur (a ++ sep :: b) = elements_from cur a ++ elements b.
Proof.
  revert cur. induction a as [|c a IH]; intros cur; cbn.
  - by destruct cur.
  - destruct (decide (c = sep)); [|apply IH]. destruct cur; cbn; by rewrite IH.
Qed.
Lemma elements_sep a b : elements (a ++ sep :: b) = elements a ++ elements b.
Proof. apply elements_from_sep. Qed.

Lemma elements_from_plain cur e : plain e → elements_from cur e = elements_from (cur ++ e) [].
Proof.
  intros He. revert cur. induction He as [|c e Hc _ IH]; intros cur; [by rewrite app_nil_r|].
  cbn. destruct (decide (c = sep)); [done|]. rewrite IH. cbn. by rewrite <- app_assoc.
Qed.
Lemma elements_plain e : plain e → e ≠ [] → elements e = [e].
Proof. intros He Hne. unfold elements. rewrite elements_from_plain by done. cbn. by destruct e. Qed.

Lemma elements_seps a k : elements (a ++ replicate k sep) = elements a.
Proof.
  revert a. induction k as [|k IH]; intros a; [by rewrite app_nil_r|].
  cbn [replicate]. rewrite elements_sep. change (replicate k sep) with ([] ++ replicate k sep).
  rewrite IH. apply app_nil_r.
Qed.

Lemma elements_path2 a b : a ≠ [] → elements (raw_path2 a b) = elements a ++ elements b.
Proof.
  intros Ha. unfold raw_path2, ZUO_IS_PATH_SEP. destruct (Z.eqb_spec (List.last a 0) ZUO_PATH_SEP) as [E|E].
  - destruct (exists_last Ha) as (a' & c & ->). rewrite last_last in E. subst c. rewrite <- app_assoc. cbn.
    rewrite !elements_sep. by rewrite app_nil_r.
  - cbn. apply elements_sep.
Qed.

(** ** The walk along elements

    The number of directories above the start, and the names below, innermost
    first. *)

Definition place : Type := nat * list (list Z).

Definition walk1 (w : place) (e : list Z) : place :=
  if decide (e = dot) then w
  else if decide (e = dotdot) then
    match snd w with [] => (S (fst w), []) | _ :: r => (fst w, r) end
  else (fst w, e :: snd w).
Definition walk (w : place) (es : list (list Z)) : place := foldl walk1 w es.
Definition meaning (p : list Z) : place := walk (O, []) (elements p).

Lemma walk_elements_app w a b : walk w (a ++ b) = walk (walk w a) b.
Proof. apply foldl_app. Qed.
Lemma walk_dot w es : walk w (dot :: es) = walk w es.
Proof. done. Qed.
Lemma walk_up w e es : e ≠ dot → e ≠ dotdot → walk w (e :: dotdot :: es) = walk w es.
Proof.
  intros H1 H2. unfold walk. cbn [foldl]. f_equal. unfold walk1 at 2. destruct (decide (e = dot)); [done|].
  destruct (decide (e = dotdot)); [done|]. by destruct w.
Qed.
Lemma walk1_ups w e : (fst w ≤ fst (walk1 w e))%nat.
Proof. unfold walk1. destruct w as [u [|]]; repeat case_decide; cbn; lia. Qed.
Lemma walk_ups w es : (fst w ≤ fst (walk w es))%nat.
Proof.
  revert w. induction es as [|e es IH]; intros w; [done|]. pose proof (walk1_ups w e).
  specialize (IH (walk1 w e)). cbn. fold (walk (walk1 w e) es). lia.
Qed.
Lemma walk_dotdots u k es : walk (u, []) (replicate k dotdot ++ es) = walk ((u + k)%nat, []) es.
Proof.
  revert u. induction k as [|k IH]; intros u; cbn [replicate app].
  - f_equal. f_equal. lia.
  - change (walk (S u, []) (replicate k dotdot ++ es) = walk ((u + S k)%nat, []) es). rewrite IH.
    f_equal. f_equal. lia.
Qed.

(** ** Splitting *)

(** What [zuo_split_path] computes on bytes. *)
Definition split_bytes (s : list Z) : option (list Z) * list Z :=
  match split_scan s (length s) false 0 with
  | inl (i, t) => (Some (slice s 0 i), slice s i (Z.of_nat (length s) - t))
  | inr t => (None, slice s 0 (Z.of_nat (length s) - (if t =? Z.of_nat (length s) then t - 1 else t)))
  end.

(** A path cut before its last element: the base ends in a separator and the
    element has none, unless the path is all separators. *)
Inductive splits (s : list Z) : option (list Z) → list Z → Prop :=
  | splits_base a e k : s = a ++ [sep] ++ e ++ replicate k sep → plain e → e ≠ [] → splits s (Some (a ++ [sep])) e
  | splits_elem e k : s = e ++ replicate k sep → plain e → e ≠ [] → splits s None e
  | splits_root k : s = replicate (S k) sep → splits s None [sep].

Lemma split_scan_ok s i u t :
  (i ≤ length s)%nat → drop i s = u ++ replicate t sep → plain u →
  match split_scan s i (bool_decide (u ≠ [])) (Z.of_nat t) with
  | inl (j, t') => ∃ a e k, s = a ++ [sep] ++ e ++ replicate k sep ∧ plain e ∧ e ≠ []
      ∧ j = Z.of_nat (S (length a)) ∧ t' = Z.of_nat k
  | inr t' => ∃ e k, s = e ++ replicate k sep ∧ plain e ∧ t' = Z.of_nat k
  end.
Proof.
  revert u t. induction i as [|i IH]; intros u t Hi Hd Hu; cbn [split_scan].
  - exists u, t. done.
  - destruct (lookup_lt_is_Some_2 s i) as [c Hc]; [lia|].
    assert (Hdi : drop i s = c :: drop (S i) s) by (by apply drop_S).
    rewrite (nth_lookup_Some _ _ 0 _ Hc). unfold ZUO_IS_PATH_SEP. destruct (Z.eqb_spec c ZUO_PATH_SEP) as [->|Hcs].
    + destruct (decide (u = [])) as [->|Hne].
      * rewrite bool_decide_eq_false_2 by tauto. replace (Z.of_nat t + 1) with (Z.of_nat (S t)) by lia.
        apply (IH [] (S t)); [lia| |done]. rewrite Hdi, Hd. done.
      * rewrite bool_decide_eq_true_2 by done. exists (take i s), u, t. split.
        { rewrite <- (take_drop i s) at 1. by rewrite Hdi, Hd. }
        split; [done|]. split; [done|]. rewrite length_take. split; lia.
    + rewrite <- (bool_decide_eq_true_2 (c :: u ≠ [])) by done. apply (IH (c :: u)); [lia| |by constructor].
      by rewrite Hdi, Hd.
Qed.

Lemma slice_prefix a b n : n = Z.of_nat (length a) → slice (a ++ b) 0 n = a.
Proof. intros ->. unfold slice. rewrite Z.sub_0_r, Nat2Z.id. change (Z.to_nat 0) with O. by rewrite drop_0, take_app_length. Qed.
Lemma slice_mid a b c n m : n = Z.of_nat (length a) → m = Z.of_nat (length (a ++ b)) → slice (a ++ b ++ c) n m = b.
Proof.
  intros -> ->. unfold slice. rewrite Nat2Z.id, drop_app_length. rewrite length_app.
  replace (Z.to_nat _) with (length b) by lia. by rewrite take_app_length.
Qed.

Lemma split_bytes_ok s : s ≠ [] → splits s (fst (split_bytes s)) (snd (split_bytes s)).
Proof.
  intros Hs. unfold split_bytes. pose proof (split_scan_ok s (length s) [] 0 ltac:(lia)) as H.
  rewrite drop_all in H. specialize (H eq_refl ltac:(constructor)). change (Z.of_nat 0) with 0 in H. rewrite bool_decide_eq_false_2 in H by tauto.
  destruct (split_scan s (length s) false 0) as [[j t]|t]; cbn [fst snd].
  - destruct H as (a & e & k & E & He & Hne & -> & ->).
    assert (E2 : s = (a ++ [sep]) ++ e ++ replicate k sep) by (rewrite E; by rewrite <- app_assoc).
    replace (slice s 0 _) with (a ++ [sep]).
    2: { rewrite E2. symmetry. apply slice_prefix. rewrite length_app. cbn. lia. }
    replace (slice s _ _) with e.
    2: { rewrite E2. symmetry. apply slice_mid; rewrite ?length_app, ?length_replicate; cbn; lia. }
    by eapply splits_base.
  - destruct H as (e & k & E & He & ->). destruct (decide (e = [])) as [->|Hne].
    + destruct k as [|k]; [by rewrite E in Hs|]. cbn [app] in E.
      assert (Hl : length s = S k) by (rewrite E; apply length_replicate). rewrite Hl, Z.eqb_refl.
      replace (slice s 0 _) with [sep]; [by eapply splits_root|]. rewrite E. cbn [replicate].
      symmetry. apply (slice_prefix [sep]). change (length [sep]) with 1%nat. lia.
    + destruct (Z.eqb_spec (Z.of_nat k) (Z.of_nat (length s))) as [Ek|_].
      { rewrite E, length_app, length_replicate in Ek. destruct e; [done|]. cbn in Ek. lia. }
      replace (slice s 0 _) with e; [by eapply splits_elem|]. rewrite E.
      symmetry. apply slice_prefix. rewrite length_app, length_replicate. lia.
Qed.

Lemma plain_not_sep e : plain e → e ≠ [sep].
Proof. intros He ->. by apply Forall_cons in He as [[] _]. Qed.

(** ** The three ways a path is cut *)

#[local] Arguments elements : simpl never.

Lemma splits_elements b a e : splits b a e → e ≠ [sep] → elements b = elements (default [] a) ++ [e].
Proof.
  intros Hsplit He. destruct Hsplit as [a0 e k E Hp Hne|e k E Hp Hne|k E]; subst b; cbn [default app].
  - unfold id. rewrite !elements_sep, elements_seps, (elements_plain e) by done. by rewrite app_nil_r.
  - rewrite elements_seps. by apply elements_plain.
  - done.
Qed.

Lemma splits_path b a e : splits b a e → path_string b → path_string e ∧ from_option path_string True a.
Proof.
  intros Hsplit [Hb Hz]. destruct Hsplit as [a0 e k E Hp Hne|e k E Hp Hne|k E]; subst b; cbn [from_option].
  - rewrite !Forall_app in Hz. destruct Hz as (Hz1 & Hz2 & Hz3 & _). split; [by split|].
    split; [by destruct a0|]. by apply Forall_app.
  - rewrite Forall_app in Hz. destruct Hz as [Hz _]. split; [|done]. by split.
  - split; [|done]. split; [done|]. by repeat constructor.
Qed.

Lemma splits_length b a e : splits b a e → (length (default dot a) ≤ length b ∧ length e ≤ length b
  ∧ (length (default [] a) + length e ≤ length b))%nat.
Proof.
  intros Hsplit. destruct Hsplit as [a0 e k E Hp Hne|e k E Hp Hne|k E]; subst b;
    rewrite ?length_app, ?length_replicate; cbn; rewrite ?length_app, ?length_replicate; cbn; try lia.
  destruct e; [done|]. cbn. lia.
Qed.

(** The base is absolute when the path is; without a base, only the root is. *)
Lemma splits_absolute b a e :
  splits b a e →
  match a with Some a => absolute b ↔ absolute a | None => absolute b ↔ e = [sep] end.
Proof.
  intros Hsplit. destruct Hsplit as [a0 e k E Hp Hne|e k E Hp Hne|k E]; subst b.
  - unfold absolute. by destruct a0.
  - destruct e as [|c e]; [done|]. cbn. unfold absolute. cbn. split; [|by intros [= ->]].
    intros ->. by apply Forall_cons in Hp as [[] _].
  - unfold absolute. cbn. done.
Qed.

Lemma splits_root_inv b a : splits b a [sep] → a = None ∧ elements b = [] ∧ absolute b.
Proof.
  intros H. inversion H as [a0 e k E Hp Hne|e k E Hp Hne|k E]; subst; [by apply plain_not_sep in Hp..|].
  split; [done|]. split; [|done]. change (replicate (S k) sep) with ([] ++ replicate (S k) sep). apply elements_seps.
Qed.

(** An absolute path gives the root first. *)
Definition root_of (p : list Z) : list (list Z) := if decide (absolute p) then [[sep]] else [].
Definition exploded (p : list Z) : list (list Z) := root_of p ++ elements p.

Lemma root_of_iff p q : (absolute p ↔ absolute q) → root_of p = root_of q.
Proof. intros H. unfold root_of. do 2 case_decide; tauto. Qed.

Lemma exploded_split b a e :
  splits b a e → exploded b = from_option exploded [] a ++ [e].
Proof.
  intros H. pose proof (splits_absolute _ _ _ H) as Ha. unfold exploded. destruct (decide (e = [sep])) as [->|He].
  - apply splits_root_inv in H as (-> & -> & Hb). cbn. unfold root_of. by rewrite decide_True.
  - rewrite (splits_elements _ _ _ H He). destruct a as [a|]; cbn [from_option default].
    + by rewrite (root_of_iff _ _ Ha), app_assoc.
    + unfold root_of. case_decide; [by apply Ha in H0|done].
Qed.

(** ** Building, on bytes *)

Record building := Building { bs_base : list Z; bs_elems : list (list Z); bs_ups : nat }.

(** One pass of the second loop of [zuo_build_path2] *)
Definition build_next (b e : list Z) (es : list (list Z)) (u : nat) : building :=
  if decide (e = dot) then Building b es u
  else if decide (e = dotdot) then
    let '(a, be) := split_bytes b in
    let b' := default dot a in
    if decide (be = dot) then
      match a with None => Building b' es (S u) | Some _ => Building b' (e :: es) u end
    else if decide (be = dotdot) then Building b' (be :: e :: es) u
    else Building b' es u
  else Building (if decide (b = dot) then e else raw_path2 b e) es u.

(** The third loop *)
Definition up1 (b : list Z) : list Z := if decide (b = dot) then dotdot else raw_path2 dotdot b.

Definition elem_ok (e : list Z) : Prop := path_string e ∧ plain e.

Definition weight (e : list Z) : nat := if decide (e = dotdot) then 1 else 2 * S (length e) + 1.
Definition size_of (st : building) : nat := 2 * length (bs_base st) + sum_list (weight <$> bs_elems st).

(** A path with no [.], and with [..] only in front. *)
Definition normal (es : list (list Z)) : Prop :=
  ∃ u names, es = replicate u dotdot ++ names ∧ Forall (λ e, e ≠ dot ∧ e ≠ dotdot) names.
Definition tidy (p : list Z) : Prop := p = dot ∨ normal (elements p).

Record well_built (st : building) : Prop := {
  wb_base : path_string (bs_base st);
  wb_elems : Forall path_string (bs_elems st) }.

(** [A] tells whether the path is absolute, [W] is the place it leads to. *)
Record leads (A : bool) (W : place) (st : building) : Prop := {
  le_walk : walk (bs_ups st, []) (elements (bs_base st) ++ bs_elems st) = W;
  le_abs : absolute (bs_base st) ↔ A = true;
  le_top : A = true → fst W = O;
  le_plain : Forall plain (bs_elems st) }.

Record neat (st : building) : Prop := {
  ne_base : tidy (bs_base st);
  ne_ups : bs_ups st ≠ O → Forall (λ e, e ≠ dotdot) (elements (bs_base st));
  ne_plain : Forall plain (bs_elems st) }.

Lemma length_path2 a b : (length (raw_path2 a b) ≤ length a + 1 + length b)%nat.
Proof. unfold raw_path2. case_match; rewrite !length_app; cbn; lia. Qed.

Lemma path2_string a b : path_string a → path_string b → path_string (raw_path2 a b).
Proof.
  intros [Ha Hza] [Hb Hzb]. unfold raw_path2. case_match; (split; [by destruct a|]);
    rewrite ?Forall_app; (split; [done|]); [done|]. split; [by repeat constructor|done].
Qed.

Lemma path2_absolute a b : a ≠ [] → absolute (raw_path2 a b) ↔ absolute a.
Proof. intros Ha. destruct a as [|c a]; [done|]. unfold absolute, raw_path2. by case_match. Qed.

Lemma plain_relative e : elem_ok e → ¬ absolute e.
Proof. intros [[He _] Hp]. destruct e; [done|]. apply Forall_cons in Hp as [Hc _]. exact Hc. Qed.

Lemma dot_string : path_string dot. Proof. split; [done|by repeat constructor]. Qed.
Lemma dotdot_ok : elem_ok dotdot. Proof. split; [split; [done|]|]; by repeat constructor. Qed.
Lemma weight_pos e : (1 ≤ weight e)%nat. Proof. unfold weight. case_decide; lia. Qed.

(** The cases of [build_next]. *)
Inductive build_case (b e : list Z) (es : list (list Z)) (u : nat) : building → Prop :=
  | bc_dot : e = dot → build_case b e es u (Building b es u)
  | bc_first : e ≠ dot → e ≠ dotdot → b = dot → build_case b e es u (Building e es u)
  | bc_add : e ≠ dot → e ≠ dotdot → b ≠ dot → build_case b e es u (Building (raw_path2 b e) es u)
  | bc_stay : e = dotdot → splits b None dot → build_case b e es u (Building dot es (S u))
  | bc_skip a : e = dotdot → splits b (Some a) dot → build_case b e es u (Building a (e :: es) u)
  | bc_shift a : e = dotdot → splits b a dotdot → build_case b e es u (Building (default dot a) (dotdot :: e :: es) u)
  | bc_up a be : e = dotdot → splits b a be → be ≠ dot → be ≠ dotdot → build_case b e es u (Building (default dot a) es u).

Lemma build_next_cases b e es u : b ≠ [] → build_case b e es u (build_next b e es u).
Proof.
  intros Hb. unfold build_next. case_decide as H1; [by apply bc_dot|].
  case_decide as H2; [|case_decide; [by apply bc_first|by apply bc_add]].
  pose proof (split_bytes_ok b Hb) as Hs. destruct (split_bytes b) as [a be]. cbn in Hs.
  case_decide as H3; [subst be; destruct a; [by apply bc_skip|by apply bc_stay]|].
  case_decide as H4; [subst be; by apply bc_shift|]. by eapply bc_up.
Qed.

Lemma build_next_smaller b e es u :
  b ≠ [] → (size_of (build_next b e es u) < size_of (Building b (e :: es) u))%nat.
Proof.
  intros Hb. assert (Hw : weight dotdot = 1%nat) by done. pose proof (weight_pos e) as He.
  destruct (build_next_cases b e es u Hb) as [E|E1 E2 ->|E1 E2 E3|E Hs|a E Hs|a E Hs|a be E Hs H1 H2];
    unfold size_of; cbn; try subst e; rewrite ?Hw;
    try (pose proof (splits_length _ _ _ Hs) as (L1 & L2 & L3); cbn in L1, L2, L3).
  - lia.
  - unfold weight at 2. rewrite decide_False by done. lia.
  - unfold weight at 2. rewrite decide_False by done. pose proof (length_path2 b e). lia.
  - lia.
  - unfold id in *. lia.
  - destruct a; cbn in *; unfold id in *; lia.
  - destruct a; cbn in *; unfold id in *; lia.
Qed.

Lemma build_next_built b e es u :
  path_string e → well_built (Building b (e :: es) u) → well_built (build_next b e es u).
Proof.
  intros He [Hb Hes]. cbn in Hb, Hes. pose proof Hes as [_ Hes']%Forall_cons. pose proof (proj1 Hb) as Hne.
  assert (Hbase : ∀ a x, splits b a x → path_string (default dot a)).
  { intros a x Hs. destruct (splits_path _ _ _ Hs Hb) as [_ H]. destruct a; [done|apply dot_string]. }
  destruct (build_next_cases b e es u Hne) as [E|E1 E2 ->|E1 E2 E3|E Hs|a E Hs|a E Hs|a be E Hs H1 H2];
    split; cbn [bs_base bs_elems]; try done; try (by eapply (Hbase _ _ Hs)).
  - by apply path2_string.
  - apply Forall_cons. split; [apply dotdot_ok|done].
Qed.

(** A walk that stays below the root never takes the root apart. *)
Lemma leads_not_root A W b es u a be : leads A W (Building b (dotdot :: es) u) → splits b a be → be ≠ [sep].
Proof.
  intros [HW HA Htop _] Hs ->. cbn [bs_base bs_elems bs_ups] in HW, HA. apply splits_root_inv in Hs as (-> & He0 & Habs%HA%Htop).
  pose proof (walk_ups (S u, []) es) as Hups. rewrite He0 in HW.
  change (walk (S u, []) es) with (walk (u, []) ([] ++ dotdot :: es)) in Hups.
  rewrite HW, Habs in Hups. cbn in Hups. lia.
Qed.

Lemma build_next_leads A W b e es u :
  path_string e → path_string b → leads A W (Building b (e :: es) u) → leads A W (build_next b e es u).
Proof.
  intros Hes Hb Hl. pose proof Hl as [HW HA Htop Hpl]. cbn [bs_base bs_elems bs_ups] in HW, HA, Hpl.
  pose proof Hpl as [Hpe Hpl']%Forall_cons. assert (He : elem_ok e) by done. pose proof (proj1 Hb) as Hne.
  destruct (build_next_cases b e es u Hne) as [->|E1 E2 ->|E1 E2 E3| -> Hs|a -> Hs|a -> Hs|a be -> Hs H1 H2];
    try (pose proof (leads_not_root _ _ _ _ _ _ _ Hl Hs) as Hbe);
    try (pose proof (splits_absolute _ _ _ Hs) as Ha);
    try (rewrite (splits_elements _ _ _ Hs ltac:(done)), <- app_assoc in HW);
    split; try exact Htop; try exact Hpl; try exact Hpl'; cbn [bs_base bs_elems bs_ups].
  - by rewrite walk_elements_app in HW |- *.
  - done.
  - by rewrite elements_plain by apply He.
  - rewrite <- HA. split; [intros H; by apply plain_relative in H|done].
  - by rewrite elements_path2, (elements_plain e), <- app_assoc by (done || apply He).
  - by rewrite path2_absolute.
  - done.
  - by rewrite <- HA, Ha.
  - rewrite walk_elements_app in HW |- *. done.
  - by rewrite <- Ha.
  - by destruct a.
  - destruct a; cbn; [by rewrite <- Ha|by rewrite <- HA, Ha].
  - apply Forall_cons. split; [apply dotdot_ok|done].
  - rewrite walk_elements_app in HW.
    rewrite (walk_up _ be es) in HW by done. rewrite walk_elements_app. by destruct a.
  - destruct a; cbn; [by rewrite <- Ha|by rewrite <- HA, Ha].
Qed.

Lemma normal_nil : normal [].
Proof. by exists O, []. Qed.
Lemma normal_prefix a b : normal (a ++ b) → normal a.
Proof.
  intros (u & names & E & Hn). destruct (decide (length a ≤ u)%nat) as [Hle|Hgt].
  - exists (length a), []. split; [|done]. rewrite app_nil_r. apply (f_equal (take (length a))) in E.
    rewrite take_app_length, take_app_le in E by (by rewrite length_replicate). by rewrite take_replicate, Nat.min_l in E by lia.
  - exists u, (take (length a - u) names). split; [|by apply Forall_take].
    apply (f_equal (take (length a))) in E. rewrite take_app_length, take_app_ge in E by (rewrite length_replicate; lia).
    by rewrite E, length_replicate at 1.
Qed.
Lemma normal_snoc es e : normal es → e ≠ dot → e ≠ dotdot → normal (es ++ [e]).
Proof.
  intros (u & names & -> & Hn) H1 H2. exists u, (names ++ [e]). split; [by rewrite app_assoc|].
  apply Forall_app. split; [done|]. by constructor.
Qed.
Lemma normal_no_dot es e : normal (es ++ [e]) → e ≠ dot.
Proof.
  intros (u & names & E & Hn) ->. assert (Hin : dot ∈ replicate u dotdot ++ names) by (rewrite <- E; set_solver).
  apply elem_of_app in Hin as [Hin%elem_of_replicate|Hin]; [by destruct Hin|].
  rewrite Forall_forall in Hn. by apply Hn in Hin as [].
Qed.

(** The part of a tidy path before its last element is tidy. *)
Lemma tidy_split b a e : tidy b → splits b a e → tidy (default dot a).
Proof.
  intros Hb Hs. destruct a as [a|]; [|by left]. cbn. unfold id. right.
  destruct (decide (e = [sep])) as [->|He]; [by apply splits_root_inv in Hs as [? _]|].
  pose proof (splits_elements _ _ _ Hs He) as E. cbn in E. unfold id in E. destruct Hb as [->|Hb].
  - change (elements dot) with ([] ++ [dot]) in E. apply app_inj_tail in E as [E _]. rewrite <- E. apply normal_nil.
  - rewrite E in Hb. by eapply normal_prefix.
Qed.
Lemma tidy_split_dot b a : tidy b → splits b a dot → a = None ∧ b = dot.
Proof.
  intros [->|Hb] Hs.
  - split; [|done]. destruct a as [a|]; [|done]. pose proof (splits_length _ _ _ Hs) as (_ & _ & L).
    destruct (splits_path _ _ _ Hs dot_string) as [_ [Ha _]]. cbn in L. unfold id in L. destruct a; [done|]. cbn in L. lia.
  - rewrite (splits_elements _ _ _ Hs ltac:(done)) in Hb. by apply normal_no_dot in Hb.
Qed.

Lemma build_next_neat b e es u :
  path_string e → path_string b → neat (Building b (e :: es) u) → neat (build_next b e es u).
Proof.
  intros Hes Hb [Ht Hu Hpl]. cbn [bs_base bs_elems bs_ups] in Ht, Hu, Hpl.
  pose proof Hpl as [Hpe Hpl']%Forall_cons. assert (He : elem_ok e) by done. pose proof (proj1 Hb) as Hne.
  assert (Hup : ∀ a x, splits b a x → u ≠ O → Forall (λ e, e ≠ dotdot) (elements (default dot a))).
  { intros a x Hs Hu0. destruct a as [a|]; [|by repeat constructor].
    destruct (decide (x = [sep])) as [->|Hx]; [by apply splits_root_inv in Hs as [? _]|].
    apply Hu in Hu0. rewrite (splits_elements _ _ _ Hs Hx), Forall_app in Hu0. apply Hu0. }
  destruct (build_next_cases b e es u Hne) as [->|E1 E2 ->|E1 E2 E3| -> Hs|a -> Hs|a -> Hs|a be -> Hs H1 H2];
    split; cbn [bs_base bs_elems bs_ups]; try done; try (by eapply tidy_split); try (by eapply Hup).
  - right. rewrite elements_plain by apply He. by apply (normal_snoc []); [apply normal_nil| |].
  - intros _. rewrite elements_plain by apply He. by constructor.
  - right. rewrite elements_path2, (elements_plain e) by (done || apply He). apply normal_snoc; try done.
    by destruct Ht.
  - intros Hu0%Hu. rewrite elements_path2, (elements_plain e) by (done || apply He). apply Forall_app.
    split; [done|by constructor].
  - by left.
  - intros _. by repeat constructor.
  - by apply (tidy_split _ _ _ Ht) in Hs.
  - intros Hu0. by apply (Hup _ _ Hs).
  - apply Forall_cons. split; [apply dotdot_ok|done].
Qed.
