(* ===== verification/PathSpec.v ===== *)
(** * Splitting and building paths

    The runs of the path operations on the heap: they end, on all arguments,
    and compute what PathBytes.v describes. *)

From S2P Require Import Prelude Sys Heap Alloc Gc GcCorrect Objects Trie Lists ImageOk Intern Sort Printer Reader Prims Interp Path Module Shell Sha256 Fasl Init Boot ListSpec PathBytes.

#[local] Arguments elements : simpl never.

(** ** Running the operations *)

Definition string_at (s : st) (l : loc) (b : list Z) : Prop := s_heap s !! l = Some (Ostring b).
(** Objects were added and nothing else changed. *)
Definition grew (s s' : st) : Prop := ∃ hn, grows s s' hn.
(** A list of strings *)
Definition strings (s : st) (l : loc) (es : list (list Z)) : Prop :=
  ∃ ls, is_list (s_heap s) (null_of s) l ls ∧ Forall2 (string_at s) ls es.

Lemma grew_refl s : image_ok s → grew s s.
Proof. intros H. eexists. apply grows_refl, H. Qed.
Lemma grew_trans s1 s2 s3 : grew s1 s2 → grew s2 s3 → grew s1 s3.
Proof. intros [hn H1] [hn' H2]. eexists. by eapply grows_trans. Qed.
Lemma grew_img s s' : grew s s' → s_img s' = s_img s.
Proof. intros [hn H]. apply H. Qed.
Lemma grew_ok s s' : grew s s' → image_ok s → image_ok s'.
Proof. intros [hn H] Him. by eapply image_ok_grows. Qed.
Lemma grew_lookup s s' l o : grew s s' → s_heap s !! l = Some o → s_heap s' !! l = Some o.
Proof. intros [hn H]. by apply grows_lookup with hn. Qed.
Lemma grew_string s s' l b : grew s s' → string_at s l b → string_at s' l b.
Proof. apply grew_lookup. Qed.
Lemma grew_strings s s' l es : grew s s' → strings s l es → strings s' l es.
Proof.
  intros Hg (ls & Hl & Hes). exists ls. rewrite (grew_img _ _ Hg). split.
  - destruct Hg as [hn Hg]. by eapply is_list_grows.
  - eapply Forall2_impl; [exact Hes|]. intros. by eapply grew_string.
Qed.

Lemma new_string s c b : allocates c (λ _, Ostring b) → image_ok s → ∃ p s', c s = Ok p s' ∧ grew s s' ∧ string_at s' p b.
Proof.
  intros Hc Him. destruct (allocates_grows _ _ s Hc (im_mem _ Him)) as (p & s' & E & _ & Hg).
  exists p, s'. split; [done|]. split; [by eexists|by eapply grows_new].
Qed.
Lemma new_pair s a d : image_ok s → ∃ p s', zuo_cons a d s = Ok p s' ∧ grew s s' ∧ s_heap s' !! p = Some (Opair a d).
Proof.
  intros Him. destruct (allocates_grows _ _ s (zuo_cons_ok a d) (im_mem _ Him)) as (p & s' & E & _ & Hg).
  exists p, s'. split; [done|]. split; [by eexists|by eapply grows_new].
Qed.

Lemma string_not_const s l b c : image_ok s → string_at s l b → c ∈ singletons (s_img s) → l ≠ c.
Proof. intros Him Hl Hc ->. by apply (image_ne _ _ _ Him Hl) in Hc. Qed.

Lemma strings_nil s : strings s (null_of s) [].
Proof. exists []. by split. Qed.
Lemma strings_cons s a l b es :
  image_ok s → string_at s a b → strings s l es →
  ∃ p s', zuo_cons a l s = Ok p s' ∧ grew s s' ∧ strings s' p (b :: es).
Proof.
  intros Him Ha (ls & Hl & Hes).
  destruct (zuo_cons_list _ s a l ls (image_list_pre _ Him) Hl) as (p & s' & E & Hg & Hp).
  assert (Hgr : grew s s') by (by eexists). exists p, s'. split; [done|]. split; [done|].
  exists (a :: ls). rewrite (grew_img _ _ Hgr). split; [done|]. constructor; [by eapply grew_string|].
  eapply Forall2_impl; [exact Hes|]. intros. by eapply grew_string.
Qed.

Lemma string_is_ok s l b lit :
  string_at s l b → Forall (λ c, c ≠ 0) b → Forall (λ c, c ≠ 0) (bytes_of lit) →
  string_is l lit s = Ok (bool_decide (b = bytes_of lit)) s.
Proof.
  intros Hl Hb Hlit. unfold string_is. run_step (ZUO_STRING_PTR_ok _ _ _ Hl). unfold ret, strcmp.
  rewrite !c_str_id by done. f_equal. destruct (strcmp_bytes b (bytes_of lit)) eqn:E.
  - symmetry. apply bool_decide_eq_true_2. by apply strcmp_bytes_eq.
  - symmetry. apply bool_decide_eq_false_2. intros ->. by rewrite strcmp_bytes_refl in E.
  - symmetry. apply bool_decide_eq_false_2. intros ->. by rewrite strcmp_bytes_refl in E.
Qed.

#[export] Instance path_string_dec p : Decision (path_string p).
Proof. unfold path_string. apply _. Defined.

Lemma is_path_string_ok s l b : string_at s l b → zuo_is_path_string l s = Ok (bool_decide (path_string b)) s.
Proof.
  intros Hl. unfold zuo_is_path_string, zuo_is_string_without_nul.
  run_step (has_tag_ok _ _ _ zuo_string_tag Hl). rewrite bool_decide_eq_true_2 by done. cbn beta iota.
  run_step (ZUO_STRING_PTR_ok _ _ _ Hl). unfold ret. f_equal.
  apply eq_bool_prop_intro. rewrite bool_decide_spec. unfold path_string.
  rewrite andb_True, forallb_True. split; intros [H1 H2]; split.
  - by destruct b.
  - eapply Forall_impl; [exact H2|]. cbn. intros c. destruct (Z.eqb_spec c 0); [by intros []|done].
  - by destruct b.
  - eapply Forall_impl; [exact H2|]. cbn. intros c. by destruct (Z.eqb_spec c 0).
Qed.
Lemma check_path_ok s who l b : string_at s l b → path_string b → check_path_string who l s = Ok tt s.
Proof.
  intros Hl Hb. unfold check_path_string. run_step (is_path_string_ok _ _ _ Hl). by rewrite bool_decide_eq_true_2.
Qed.

Definition splits_at (s : st) (r : loc) (b : list Z) : Prop :=
  ∃ c d, s_heap s !! r = Some (Opair c d) ∧ string_at s d (snd (split_bytes b))
    ∧ match fst (split_bytes b) with None => c = o_false (s_img s) | Some a => string_at s c a end.

Lemma split_path_ok s l b :
  image_ok s → string_at s l b → path_string b →
  ∃ r s', zuo_split_path l s = Ok r s' ∧ grew s s' ∧ splits_at s' r b.
Proof.
  intros Him Hl Hb. unfold zuo_split_path. run_step (check_path_ok _ (bytes_of "split-path") _ _ Hl Hb).
  run_step (ZUO_STRING_PTR_ok _ _ _ Hl). unfold splits_at, split_bytes.
  destruct (split_scan b (length b) false 0) as [[i t]|t]; cbn [fst snd].
  - destruct (new_string s _ _ (zuo_sized_string_ok (slice b 0 i)) Him) as (pa & s1 & E1 & G1 & Ha). run_step E1.
    pose proof (grew_ok _ _ G1 Him) as Him1.
    destruct (new_string s1 _ _ (zuo_sized_string_ok (slice b i (Z.of_nat (length b) - t))) Him1) as (pd & s2 & E2 & G2 & Hd).
    run_step E2. destruct (new_pair s2 pa pd (grew_ok _ _ G2 Him1)) as (p & s3 & E3 & G3 & Hp).
    exists p, s3. split; [done|]. split; [by eapply grew_trans, grew_trans|]. exists pa, pd. split; [done|].
    split; [by eapply grew_string|]. eapply grew_string; [exact G3|]. by eapply grew_string.
  - set (t' := if t =? Z.of_nat (length b) then t - 1 else t).
    assert (Hd : ∃ d s1, (if 0 <? t then zuo_sized_string (slice b 0 (Z.of_nat (length b) - t')) else ret l) s = Ok d s1
      ∧ grew s s1 ∧ string_at s1 d (slice b 0 (Z.of_nat (length b) - t'))).
    { destruct (Z.ltb_spec 0 t) as [Ht|Ht].
      - exact (new_string s _ _ (zuo_sized_string_ok _) Him).
      - exists l, s. split; [done|]. split; [by apply grew_refl|].
        replace (slice b 0 _) with b; [done|]. unfold slice. change (Z.to_nat 0) with O. rewrite drop_0.
        symmetry. apply take_ge. unfold t'. destruct (Z.eqb_spec t (Z.of_nat (length b))); lia. }
    destruct Hd as (d & s1 & E1 & G1 & Hd). run_step E1. rewrite (bind_ok (zi o_false) _ _ _ _ eq_refl).
    destruct (new_pair s1 (o_false (s_img s1)) d (grew_ok _ _ G1 Him)) as (p & s2 & E2 & G2 & Hp).
    exists p, s2. split; [done|]. split; [by eapply grew_trans|]. exists (o_false (s_img s1)), d.
    split; [done|]. split; [by eapply grew_string|]. by rewrite (grew_img _ _ G2).
Qed.

(** The second loop, on bytes *)
Fixpoint build_run (fuel : nat) (st : building) : building :=
  match fuel, bs_elems st with
  | S fuel', e :: es => build_run fuel' (build_next (bs_base st) e es (bs_ups st))
  | _, _ => st
  end.

Lemma build_run_inv (P : building → Prop) fuel : ∀ st,
  (∀ b e es u, path_string e → path_string b → P (Building b (e :: es) u) → P (build_next b e es u)) →
  well_built st → P st → well_built (build_run fuel st) ∧ P (build_run fuel st).
Proof.
  induction fuel as [|fuel IH]; intros [b [|e es] u] HP Hw Hst; try done. cbn.
  assert (He : path_string e) by (by pose proof (wb_elems _ Hw) as [? _]%Forall_cons).
  apply IH; [done|by apply build_next_built|]. apply HP; [done| |done]. apply Hw.
Qed.

Lemma build_run_done fuel : ∀ st,
  well_built st → (size_of st ≤ fuel)%nat → bs_elems (build_run fuel st) = [].
Proof.
  induction fuel as [|fuel IH]; intros [b [|e es] u] Hw Hf; try done.
  - pose proof (weight_pos e). unfold size_of in Hf. cbn in Hf. lia.
  - cbn. apply IH; [apply build_next_built; [|done]|].
    + by pose proof (wb_elems _ Hw) as [? _]%Forall_cons.
    + pose proof (build_next_smaller b e es u (proj1 (wb_base _ Hw))). lia.
Qed.

Lemma explode_loop_ok fuel : ∀ s rel l b es,
  image_ok s → string_at s rel b → path_string b → strings s l es → (length b ≤ fuel)%nat →
  ∃ r s', explode_loop fuel rel l s = Ok r s' ∧ grew s s' ∧ strings s' r (exploded b ++ es).
Proof.
  induction fuel as [|fuel IH]; intros s rel l b es Him Hrel Hb Hl Hf.
  { destruct b; [by destruct Hb|cbn in Hf; lia]. }
  destruct (split_path_ok s rel b Him Hrel Hb) as (r & s1 & E1 & G1 & c & d & Hr & Hd & Hc).
  pose proof (grew_ok _ _ G1 Him) as Him1. cbn [explode_loop]. run_step E1. run_step (ZUO_CDR_ok _ _ _ _ Hr).
  destruct (strings_cons s1 d l _ es Him1 Hd (grew_strings _ _ _ _ G1 Hl)) as (x & s2 & E2 & G2 & Hx).
  run_step E2. pose proof (grew_ok _ _ G2 Him1) as Him2. run_step (ZUO_CAR_ok _ _ _ _ (grew_lookup _ _ _ _ G2 Hr)).
  rewrite (bind_ok _ _ _ _ _ (is_zi_bool _ _ _)), (grew_img _ _ G2).
  pose proof (split_bytes_ok b (proj1 Hb)) as Hs. pose proof (splits_length _ _ _ Hs) as (_ & _ & L).
  destruct (splits_path _ _ _ Hs Hb) as [[Hne _] Ha]. rewrite (exploded_split _ _ _ Hs).
  destruct (split_bytes b) as [[a|] e]; cbn [fst snd from_option] in *.
  - rewrite bool_decide_eq_false_2 by (apply (string_not_const _ _ _ _ Him1 Hc); unfold singletons; set_solver).
    destruct (IH s2 c x a (e :: es) Him2 (grew_string _ _ _ _ G2 Hc) Ha Hx) as (r' & s3 & E3 & G3 & H3).
    { cbn in L. unfold id in L. destruct e; [done|]. cbn in L. lia. }
    exists r', s3. split; [done|]. split; [by eapply grew_trans, grew_trans|]. by rewrite <- app_assoc.
  - rewrite bool_decide_eq_true_2 by done. exists x, s2. split; [done|]. split; [by eapply grew_trans|done].
Qed.

Lemma strings_uncons s l e es :
  image_ok s → strings s l (e :: es) →
  ∃ a d, s_heap s !! l = Some (Opair a d) ∧ string_at s a e ∧ strings s d es ∧ l ≠ null_of s.
Proof.
  intros Him (ls & Hl & Hes). apply Forall2_cons_inv_r in Hes as (a & ls' & Ha & Hes & ->).
  destruct Hl as (d & Hne & Hp & Hd). exists a, d. split; [done|]. split; [done|]. split; [by exists ls'|done].
Qed.

Lemma raw_path2_ok s la lb a b :
  image_ok s → string_at s la a → string_at s lb b → a ≠ [] →
  ∃ p s', zuo_build_raw_path2 la lb s = Ok p s' ∧ grew s s' ∧ string_at s' p (raw_path2 a b).
Proof.
  intros Him Ha Hb Hne. unfold zuo_build_raw_path2. run_step (ZUO_STRING_PTR_ok _ _ _ Ha).
  run_step (ZUO_STRING_PTR_ok _ _ _ Hb). destruct a; [done|].
  exact (new_string s _ _ (zuo_sized_string_ok _) Him).
Qed.

(** An ordinary element is added to the base. *)
Lemma build_add_ok s base x b e :
  image_ok s → string_at s base b → string_at s x e → b ≠ [] →
  ∃ q s', (if bool_decide (b = dot) then ret x else zuo_build_raw_path2 base x) s = Ok q s' ∧ grew s s'
    ∧ string_at s' q (if decide (b = dot) then e else raw_path2 b e).
Proof.
  intros Him Hb Hx Hne. destruct (decide (b = dot)) as [Hbd|Hbd].
  - rewrite bool_decide_eq_true_2 by done. exists x, s. split; [done|]. split; [by apply grew_refl|done].
  - rewrite bool_decide_eq_false_2 by done. by apply raw_path2_ok.
Qed.

Definition bs_at (s : st) (base l : loc) (ups : Z) (st : building) : Prop :=
  string_at s base (bs_base st) ∧ strings s l (bs_elems st) ∧ ups = Z.of_nat (bs_ups st).

(** The elements and the count after the element [..] met the base element [e]. *)
Lemma build_up_elems_ok s l x y d a e es u :
  image_ok s → s_heap s !! l = Some (Opair x y) → strings s y es → strings s l (dotdot :: es) → string_at s d e →
  ∃ l' s' es' u', (if bool_decide (e = dot) then
      if bool_decide (a = None) then d <- ZUO_CDR l ;; ret (d, Z.of_nat u + 1) else ret (l, Z.of_nat u)
      else if bool_decide (e = dotdot) then e <- zuo_cons d l ;; ret (e, Z.of_nat u)
      else d <- ZUO_CDR l ;; ret (d, Z.of_nat u)) s = Ok (l', Z.of_nat u') s' ∧ grew s s' ∧ strings s' l' es'
    ∧ (if decide (e = dot) then match a with None => Building (default dot a) es (S u) | Some _ => Building (default dot a) (dotdot :: es) u end
       else if decide (e = dotdot) then Building (default dot a) (e :: dotdot :: es) u
       else Building (default dot a) es u) = Building (default dot a) es' u'.
Proof.
  intros Him Hxy Hy Hl1 Hd. pose proof (grew_refl _ Him) as G0. destruct (decide (e = dot)) as [->|H1].
  - rewrite (bool_decide_eq_true_2 (dot = dot)) by done. destruct a as [a|]; cbn [bool_decide decide].
    + by exists l, s, (dotdot :: es), u.
    + rewrite bool_decide_eq_true_2 by done. exists y, s, es, (S u). split; [|done]. run_step (ZUO_CDR_ok _ _ _ _ Hxy).
      unfold ret. repeat f_equal. lia.
  - rewrite (bool_decide_eq_false_2 (e = dot)) by done. destruct (decide (e = dotdot)) as [->|H2].
    + rewrite (bool_decide_eq_true_2 (dotdot = dotdot)) by done.
      destruct (strings_cons s d l _ _ Him Hd Hl1) as (x' & s2 & E2 & G2 & Hx').
      exists x', s2, (dotdot :: dotdot :: es), u. by run_step E2.
    + rewrite (bool_decide_eq_false_2 (e = dotdot)) by done. exists y, s, es, u. split; [|done].
      by run_step (ZUO_CDR_ok _ _ _ _ Hxy).
Qed.

Lemma build_up_ok s base l b es u :
  image_ok s → string_at s base b → path_string b → strings s l (dotdot :: es) →
  ∃ base' l' ups' s', build_up base l (Z.of_nat u) s = Ok (base', l', ups') s' ∧ grew s s'
    ∧ bs_at s' base' l' ups' (build_next b dotdot es u).
Proof.
  intros Him Hbase Hb Hl. destruct (split_path_ok s base b Him Hbase Hb) as (r & s1 & E1 & G1 & c & d & Hr & Hd & Hc).
  pose proof (grew_ok _ _ G1 Him) as Him1. unfold build_up. run_step E1. run_step (ZUO_CDR_ok _ _ _ _ Hr).
  run_step (ZUO_CAR_ok _ _ _ _ Hr). pose proof (split_bytes_ok b (proj1 Hb)) as Hs.
  destruct (splits_path _ _ _ Hs Hb) as [[_ He] Ha]. unfold build_next. cbn [decide].
  rewrite decide_False, decide_True by done. destruct (split_bytes b) as [a e]. cbn [fst snd] in *.
  rewrite (bind_ok _ _ _ _ _ (string_is_ok _ _ _ "." Hd He ltac:(by repeat constructor))).
  rewrite (bind_ok _ _ _ _ _ (string_is_ok _ _ _ ".." Hd He ltac:(by repeat constructor))).
  change (bytes_of ".") with dot. change (bytes_of "..") with dotdot.
  rewrite (bind_ok _ _ _ _ _ (is_zi_bool o_false c s1)).
  assert (Hl1 : strings s1 l (dotdot :: es)) by (by eapply grew_strings).
  destruct (strings_uncons _ _ _ _ Him1 Hl1) as (x & y & Hxy & _ & Hy & _).
  assert (Htop : bool_decide (c = o_false (s_img s1)) = bool_decide (a = None)).
  { destruct a as [a|]; [|by rewrite !bool_decide_eq_true_2]. rewrite !bool_decide_eq_false_2; [done|done|].
    apply (string_not_const _ _ _ _ Him1 Hc). unfold singletons. set_solver. }
  rewrite Htop. clear Htop.
  destruct (build_up_elems_ok s1 l x y d a e es u Him1 Hxy Hy Hl1 Hd) as (l' & s2 & es' & u' & E2 & G2 & Hl' & ->).
  rewrite (bind_ok _ _ _ _ _ E2). cbn [fst snd].
  destruct a as [a|]; cbn [default from_option] in *.
  - rewrite bool_decide_eq_false_2 by done. rewrite (bind_ok (ret c) _ _ _ _ eq_refl).
    exists c, l', (Z.of_nat u'), s2. split; [done|]. split; [by eapply grew_trans|]. split; [by eapply grew_string|done].
  - rewrite bool_decide_eq_true_2 by done.
    destruct (new_string s2 _ _ (zuo_string_ok (bytes_of ".")) (grew_ok _ _ G2 Him1)) as (q & s3 & E3 & G3 & Hq).
    run_step E3. exists q, l', (Z.of_nat u'), s3. split; [done|]. split; [by eapply grew_trans, grew_trans|].
    split; [done|]. split; [by eapply grew_strings|done].
Qed.

Lemma build_loop_ok fuel : ∀ s base l ups b es u,
  image_ok s → bs_at s base l ups (Building b es u) → well_built (Building b es u) →
  (size_of (Building b es u) < fuel)%nat →
  ∃ base' ups' s', build_loop fuel base l ups s = Ok (base', ups') s' ∧ grew s s'
    ∧ string_at s' base' (bs_base (build_run fuel (Building b es u)))
    ∧ ups' = Z.of_nat (bs_ups (build_run fuel (Building b es u))).
Proof.
  induction fuel as [|fuel IH]; intros s base l ups b es u Him Hbs Hw Hf; [lia|].
  destruct Hbs as (Hb & Hes & ->). cbn [bs_base bs_elems bs_ups] in *.
  cbn [build_loop]. rewrite (bind_ok _ _ _ _ _ (is_zi_bool o_null l s)). destruct es as [|e es].
  - destruct Hes as (ls & Hl & Hnil). apply Forall2_nil_inv_r in Hnil as ->. cbn in Hl. subst l.
    rewrite bool_decide_eq_true_2 by done. exists base, (Z.of_nat u), s. by split; [|split; [apply grew_refl|]].
  - destruct (strings_uncons _ _ _ _ Him Hes) as (x & y & Hxy & Hx & Hy & Hne). rewrite bool_decide_eq_false_2 by done.
    pose proof (wb_elems _ Hw) as [He _]%Forall_cons. pose proof (build_next_built b e es u He Hw) as Hw'.
    pose proof (build_next_smaller b e es u (proj1 (wb_base _ Hw))) as Hsm. change (build_run (S fuel) _) with (build_run fuel (build_next b e es u)).
    destruct He as [He1 He2]. destruct Hw as [[Hb1 Hb2] _]. cbn [bs_base] in Hb1, Hb2.
    (* one pass *)
    assert (Hgo : ∀ base' l' ups' s', grew s s' → bs_at s' base' l' ups' (build_next b e es u) →
      ∃ base'' ups'' s'', build_loop fuel base' l' ups' s' = Ok (base'', ups'') s'' ∧ grew s s''
        ∧ string_at s'' base'' (bs_base (build_run fuel (build_next b e es u)))
        ∧ ups'' = Z.of_nat (bs_ups (build_run fuel (build_next b e es u)))).
    { intros base' l' ups' s' Hg Hbs. destruct (build_next b e es u) as [b' es' u'].
      destruct (IH s' base' l' ups' b' es' u' (grew_ok _ _ Hg Him) Hbs Hw' ltac:(lia)) as (b2 & u2 & s2 & E & G & H1 & H2).
      exists b2, u2, s2. split; [done|]. split; [by eapply grew_trans|done]. }
    run_step (ZUO_CAR_ok _ _ _ _ Hxy).
    rewrite (bind_ok _ _ _ _ _ (string_is_ok _ _ _ "." Hx He2 ltac:(by repeat constructor))). change (bytes_of ".") with dot.
    destruct (decide (e = dot)) as [Hdot|Hdot].
    { rewrite bool_decide_eq_true_2 by done. run_step (ZUO_CDR_ok _ _ _ _ Hxy). apply Hgo; [by apply grew_refl|].
      unfold build_next. by rewrite decide_True. }
    rewrite bool_decide_eq_false_2 by done.
    rewrite (bind_ok _ _ _ _ _ (string_is_ok _ _ _ ".." Hx He2 ltac:(by repeat constructor))). change (bytes_of "..") with dotdot.
    destruct (decide (e = dotdot)) as [->|Hdd].
    { rewrite bool_decide_eq_true_2 by done.
      destruct (build_up_ok s base l b es u Him Hb (conj Hb1 Hb2) Hes) as (b' & l' & u' & s' & E & G & Hbs).
      run_step E. cbn [fst snd]. by apply Hgo. }
    rewrite bool_decide_eq_false_2 by done.
    rewrite (bind_ok _ _ _ _ _ (string_is_ok _ _ _ "." Hb Hb2 ltac:(by repeat constructor))). change (bytes_of ".") with dot.
    destruct (build_add_ok s base x b e Him Hb Hx Hb1) as (q & s' & E & G & Hq). run_step E. run_step (ZUO_CDR_ok _ _ _ _ (grew_lookup _ _ _ _ G Hxy)).
    apply Hgo; [done|]. unfold build_next. rewrite !decide_False by done. split; [done|]. split; [by eapply grew_strings|done].
Qed.

(** The third loop, on bytes *)
Definition ups_of (u : nat) (b : list Z) : list Z := Nat.iter u up1 b.

Lemma up1_string b : path_string b → path_string (up1 b).
Proof. intros Hb. unfold up1. case_decide; [apply dotdot_ok|]. by apply path2_string; [apply dotdot_ok|]. Qed.
Lemma ups_string u b : path_string b → path_string (ups_of u b).
Proof. intros Hb. induction u as [|u IH]; [done|]. by apply up1_string. Qed.
Lemma up1_relative b : ¬ absolute (up1 b).
Proof. unfold up1. case_decide; [done|]. by rewrite path2_absolute. Qed.
Lemma up1_meaning u b : walk (u, []) (elements (up1 b)) = walk (S u, []) (elements b).
Proof.
  unfold up1. case_decide as H; [by subst b|]. rewrite elements_path2 by done. done.
Qed.
Lemma ups_meaning u k b : walk (k, []) (elements (ups_of u b)) = walk ((u + k)%nat, []) (elements b).
Proof.
  revert k. induction u as [|u IH]; intros k; [done|]. change (ups_of (S u) b) with (up1 (ups_of u b)).
  rewrite up1_meaning, IH. f_equal. f_equal. lia.
Qed.

(** Going up from a path without [..] gives a tidy path. *)
Lemma ups_tidy u b : neat (Building b [] u) → tidy (ups_of u b).
Proof.
  intros [Ht Hu _]. cbn in Ht, Hu. destruct u as [|u]; [done|]. specialize (Hu ltac:(done)). right.
  assert (Hel : ∃ names, Forall (λ e, e ≠ dot ∧ e ≠ dotdot) names ∧
    elements (ups_of (S u) b) = replicate (S u) dotdot ++ names ∧ ups_of (S u) b ≠ dot).
  { destruct Ht as [->|(k & names & E & Hn)].
    - exists []. split; [done|]. induction u as [|u [IH1 IH2]]; [done|].
      change (ups_of (S (S u)) dot) with (up1 (ups_of (S u) dot)). unfold up1. rewrite decide_False by done.
      rewrite elements_path2, IH1 by done. split; [done|]. unfold raw_path2. cbn. done.
    - exists names. split; [done|].
      assert (E' : elements b = names).
      { destruct k as [|k]; [done|]. rewrite E in Hu. by apply Forall_cons in Hu as [[] _]. }
      assert (Hb : b ≠ dot).
      { intros ->. subst names. by apply Forall_cons in Hn as [[[] _] _]. }
      clear E Hu. induction u as [|u [IH1 IH2]].
      + change (ups_of 1 b) with (up1 b). unfold up1. rewrite decide_False by done.
        rewrite elements_path2, E' by done. split; [done|]. unfold raw_path2. cbn. done.
      + change (ups_of (S (S u)) b) with (up1 (ups_of (S u) b)). unfold up1. rewrite decide_False by done.
        rewrite elements_path2, IH1 by done. split; [done|]. unfold raw_path2. cbn. done. }
  destruct Hel as (names & Hn & E & _). by exists (S u), names.
Qed.

Lemma ups_loop_ok u : ∀ s base b,
  image_ok s → string_at s base b → path_string b →
  ∃ p s', ups_loop u base s = Ok p s' ∧ grew s s' ∧ string_at s' p (ups_of u b).
Proof.
  induction u as [|u IH]; intros s base b Him Hb Hp.
  { exists base, s. split; [done|]. split; [by apply grew_refl|done]. }
  cbn [ups_loop]. rewrite (bind_ok _ _ _ _ _ (string_is_ok _ _ _ "." Hb (proj2 Hp) ltac:(by repeat constructor))).
  change (bytes_of ".") with dot.
  assert (Hone : ∃ q s', (if bool_decide (b = dot) then zuo_string (bytes_of "..")
      else u <- zuo_string (bytes_of "..") ;; zuo_build_raw_path2 u base) s = Ok q s' ∧ grew s s' ∧ string_at s' q (up1 b)).
  { unfold up1. destruct (decide (b = dot)) as [->|Hd].
    - rewrite bool_decide_eq_true_2 by done. exact (new_string s _ _ (zuo_string_ok (bytes_of "..")) Him).
    - rewrite bool_decide_eq_false_2 by done.
      destruct (new_string s _ _ (zuo_string_ok (bytes_of "..")) Him) as (q & s1 & E1 & G1 & Hq). run_step E1.
      destruct (raw_path2_ok s1 q base _ b (grew_ok _ _ G1 Him) Hq (grew_string _ _ _ _ G1 Hb) ltac:(done)) as (r & s2 & E2 & G2 & Hr).
      exists r, s2. split; [done|]. split; [by eapply grew_trans|done]. }
  destruct Hone as (q & s1 & E1 & G1 & Hq). run_step E1.
  destruct (IH s1 q _ (grew_ok _ _ G1 Him) Hq (up1_string _ Hp)) as (p & s2 & E2 & G2 & Hp2).
  exists p, s2. split; [done|]. split; [by eapply grew_trans|].
  unfold ups_of in *. by rewrite Nat.iter_succ_r.
Qed.

(** ** The whole of [zuo_build_path2] *)

Lemma elements_from_ok cur p :
  elem_ok cur ∨ cur = [] → Forall (λ c, c ≠ 0) p → Forall elem_ok (elements_from cur p).
Proof.
  intros Hc Hp. revert cur Hc. induction Hp as [|c p Hz _ IH]; intros cur Hc; cbn.
  - destruct cur; [done|]. constructor; [|done]. by destruct Hc.
  - case_decide as Hs.
    + destruct cur; [by apply IH; right|]. constructor; [by destruct Hc|by apply IH; right].
    + apply IH. left. destruct Hc as [[[_ H1] H2]| ->]; [|by repeat constructor].
      split; [split; [by destruct cur|]|]; apply Forall_app; (split; [done|by repeat constructor]).
Qed.
Lemma elements_ok p : path_string p → Forall elem_ok (elements p).
Proof. intros [_ Hp]. apply elements_from_ok; [by right|done]. Qed.

Lemma elements_weight cur p :
  (sum_list (weight <$> elements_from cur p) ≤ 3 * (length cur + length p) + 3)%nat.
Proof.
  revert cur. induction p as [|c p IH]; intros cur; cbn.
  - destruct cur as [|x cur]; cbn; [lia|]. unfold weight. case_decide; cbn; lia.
  - case_decide.
    + specialize (IH []). destruct cur as [|x cur]; cbn in *; [lia|].
      assert (weight (x :: cur) ≤ 2 * S (S (length cur)) + 1)%nat by (unfold weight; case_decide; cbn; lia). lia.
    + specialize (IH (cur ++ [c])). rewrite length_app in IH. cbn in IH. lia.
Qed.

Lemma path_fuel_enough b r : path_string b → path_string r →
  (size_of (Building b (exploded r) 0) < path_fuel b r)%nat ∧ (length r ≤ path_fuel b r)%nat.
Proof.
  intros [Hb _] [Hr _]. unfold size_of, path_fuel, exploded, root_of. cbn [bs_base bs_elems].
  assert (Lb : (1 ≤ length b)%nat) by (destruct b; [done|cbn; lia]).
  case_decide as Ha.
  - destruct r as [|c r]; [done|]. unfold absolute in Ha. cbn in Ha. subst c.
    change (sep :: r) with ([] ++ sep :: r) at 1. rewrite elements_sep. pose proof (elements_weight [] r) as Hw.
    unfold elements. change (weight <$> _) with (5 :: (weight <$> elements_from [] r))%nat. cbn in *. lia.
  - pose proof (elements_weight [] r) as Hw. unfold elements. cbn in *. lia.
Qed.

(** The base and the count of [..] that the second loop ends with. *)
Definition path_run (b r : list Z) : building := build_run (path_fuel b r) (Building b (exploded r) 0).
(** What [zuo_build_path2] computes on bytes. *)
Definition build_bytes (b r : list Z) : list Z := ups_of (bs_ups (path_run b r)) (bs_base (path_run b r)).

Section Build.
Context (b r : list Z) (Hb : path_string b) (Hr : path_string r).

Lemma start_built : well_built (Building b (exploded r) 0).
Proof.
  split; [done|]. cbn. apply Forall_app. split.
  - unfold root_of. case_decide; repeat constructor; done.
  - eapply Forall_impl; [by apply elements_ok|]. by intros e [].
Qed.

Lemma path_run_done : well_built (path_run b r) ∧ bs_elems (path_run b r) = [].
Proof.
  split.
  - by apply (build_run_inv (λ _, True)); [done|apply start_built|].
  - apply build_run_done; [apply start_built|]. pose proof (path_fuel_enough b r Hb Hr). lia.
Qed.

(** The element for the root is added first, as an ordinary element. *)
Lemma path_run_inv (P : building → Prop) :
  (∀ b e es u, path_string e → path_string b → P (Building b (e :: es) u) → P (build_next b e es u)) →
  (¬ absolute r → P (Building b (elements r) 0)) →
  (absolute r → P (Building (if decide (b = dot) then [sep] else raw_path2 b [sep]) (elements r) 0)) →
  P (path_run b r).
Proof.
  intros Hnext Hrel Habs. unfold path_run. pose proof start_built as Hw. unfold exploded, root_of in *.
  case_decide as Ha; [|by apply build_run_inv; [| |apply Hrel]].
  change (path_fuel b r) with (S (pred (path_fuel b r))). cbn [build_run bs_elems bs_base bs_ups app].
  apply build_run_inv; [done|apply build_next_built; [split; [done|by repeat constructor]|done]|]. by apply Habs.
Qed.

Lemma build_neat : tidy b → tidy (build_bytes b r).
Proof.
  intros Ht. destruct path_run_done as [_ Hdone]. unfold build_bytes.
  assert (Hpl : Forall plain (elements r)) by (eapply Forall_impl; [by apply elements_ok|by intros e []]).
  assert (Hn : neat (path_run b r)).
  { apply path_run_inv; [apply build_next_neat|by split|]. intros Ha. split; try done. cbn. right.
    case_decide as Hd; [apply normal_nil|]. rewrite elements_path2 by apply Hb. rewrite app_nil_r. by destruct Ht. }
  destruct (path_run b r) as [b' es u]. cbn in Hdone. subst es. by apply ups_tidy.
Qed.

Let W : place := walk (meaning b) (elements r).
Let below : Prop := ¬ absolute b ∧ ¬ absolute r ∨ fst W = O.

Lemma build_leads :
  below → meaning (build_bytes b r) = W ∧ (absolute (build_bytes b r) ↔ absolute b ∨ b = dot ∧ absolute r).
Proof.
  intros Hbelow. destruct path_run_done as [_ Hdone]. unfold build_bytes.
  set (A := bool_decide (absolute b ∨ b = dot ∧ absolute r)).
  assert (HA : A = true ↔ absolute b ∨ b = dot ∧ absolute r) by apply bool_decide_eq_true.
  assert (Htop : A = true → fst W = O) by (rewrite HA; unfold below in Hbelow; tauto).
  assert (Hpl : Forall plain (elements r)) by (eapply Forall_impl; [by apply elements_ok|by intros e []]).
  assert (Hl : leads A W (path_run b r)).
  { apply path_run_inv; [apply build_next_leads| |]; intros Ha; split; try done; cbn [bs_base bs_elems bs_ups].
    - apply walk_elements_app.
    - rewrite HA. tauto.
    - rewrite walk_elements_app. unfold W, meaning. case_decide as Hd; [by subst b|].
      rewrite elements_path2 by apply Hb. by rewrite app_nil_r.
    - rewrite HA. case_decide as Hd; [split; [by right|done]|]. rewrite path2_absolute by apply Hb. tauto. }
  destruct (path_run b r) as [b' es u]. cbn in Hdone. subst es. destruct Hl as [HW Habs Ht _].
  cbn [bs_base bs_elems bs_ups] in *. rewrite app_nil_r in HW. split.
  - unfold meaning. by rewrite ups_meaning, Nat.add_0_r.
  - rewrite <- HA, <- Habs. destruct u as [|u]; [done|]. split; [by intros ?%up1_relative|].
    intros Hab%Habs%Ht. pose proof (walk_ups (S u, []) (elements b')) as Hu. rewrite HW, Hab in Hu. cbn in Hu. lia.
Qed.

Lemma build_string : path_string (build_bytes b r).
Proof. apply ups_string. apply path_run_done. Qed.

Lemma build_path2_ok s lb lr :
  image_ok s → string_at s lb b → string_at s lr r →
  ∃ p s', zuo_build_path2 lb lr s = Ok p s' ∧ grew s s' ∧ string_at s' p (build_bytes b r).
Proof.
  intros Him Hlb Hlr. destruct (path_fuel_enough b r Hb Hr) as [F1 F2]. unfold zuo_build_path2.
  run_step (ZUO_STRING_PTR_ok _ _ _ Hlb). run_step (ZUO_STRING_PTR_ok _ _ _ Hlr). rewrite (bind_ok (zi o_null) _ _ _ _ eq_refl).
  destruct (explode_loop_ok _ s lr _ r [] Him Hlr Hr (strings_nil s) F2) as (x & s1 & E1 & G1 & Hx). run_step E1.
  rewrite app_nil_r in Hx. pose proof (grew_ok _ _ G1 Him) as Him1.
  destruct (build_loop_ok (path_fuel b r) s1 lb x 0 b (exploded r) 0 Him1) as (y & u & s2 & E2 & G2 & Hy & ->);
    [by split; [eapply grew_string|]|apply start_built|exact F1|].
  run_step E2. cbn [fst snd]. rewrite Nat2Z.id. pose proof (proj1 path_run_done) as [Hp _].
  destruct (ups_loop_ok (bs_ups (path_run b r)) s2 y _ (grew_ok _ _ G2 Him1) Hy Hp) as (p & s3 & E3 & G3 & Hp3).
  exists p, s3. split; [done|]. split; [by eapply grew_trans, grew_trans|done].
Qed.
End Build.

(** ** Several arguments

    [build-path] and [build-raw-path] share a loop; [Joins] states what the
    loop needs of the function that adds one path. *)

Class Joins (build2 : loc → loc → M loc) (f : list Z → list Z → list Z) : Prop := {
  joins_string a b : path_string a → path_string b → path_string (f a b);
  joins_run a b s la lb :
    image_ok s → path_string a → path_string b → string_at s la a → string_at s lb b →
    ∃ p s', build2 la lb s = Ok p s' ∧ grew s s' ∧ string_at s' p (f a b) }.

#[export] Instance build_path2_joins : Joins zuo_build_path2 build_bytes.
Proof.
  split; [apply build_string|]. intros. by apply build_path2_ok.
Qed.
#[export] Instance raw_path2_joins : Joins zuo_build_raw_path2 raw_path2.
Proof.
  split; [apply path2_string|]. intros a b s la lb Him [Ha _] _ H1 H2. by apply raw_path2_ok.
Qed.

(** The bytes of an argument that is a path string *)
Definition path_arg (s : st) (x : loc) : option (list Z) :=
  match s_heap s !! x with
  | Some (Ostring e) => if decide (path_string e) then Some e else None
  | _ => None
  end.

Lemma path_arg_grew s s' x : grew s s' → is_Some (s_heap s !! x) → path_arg s' x = path_arg s x.
Proof. intros Hg [o Ho]. unfold path_arg. by rewrite Ho, (grew_lookup _ _ _ _ Hg Ho). Qed.
Lemma path_arg_string s x e : path_arg s x = Some e → string_at s x e ∧ path_string e.
Proof.
  unfold path_arg, string_at. destruct (s_heap s !! x) as [[]|]; try done. case_decide; [|done]. by intros [= <-].
Qed.

Section Multi.
Context (build2 : loc → loc → M loc) (f : list Z → list Z → list Z) {HJ : Joins build2 f} (who : list Z).

Definition not_a_path (x : loc) : error := Efail1w who (bytes_of "not a path string") x.
Definition not_relative (x : loc) : error := Efail1w who (bytes_of "additional path is not relative") x.

(** The path of the arguments, or the error of the first bad one *)
Fixpoint join_rest (s : st) (b : list Z) (ls : list loc) : list Z + error :=
  match ls with
  | [] => inl b
  | x :: ls' =>
      match path_arg s x with
      | None => inr (not_a_path x)
      | Some e => if decide (absolute e) then inr (not_relative x) else join_rest s (f b e) ls'
      end
  end.
Definition join (s : st) (ls : list loc) : list Z + error :=
  match ls with
  | [] => inl []
  | x :: ls' => match path_arg s x with None => inr (not_a_path x) | Some b => join_rest s b ls' end
  end.

Lemma join_rest_grew s s' b ls :
  grew s s' → Forall (λ x, is_Some (s_heap s !! x)) ls → join_rest s' b ls = join_rest s b ls.
Proof.
  intros Hg Hl. revert b. induction Hl as [|x ls Hx _ IH]; intros b; [done|]. cbn.
  rewrite (path_arg_grew _ _ _ Hg Hx). destruct (path_arg s x); [|done]. case_decide; [done|apply IH].
Qed.

(** What a run ends with *)
Definition ends (s : st) (c : outcome st error loc) (r : list Z + error) : Prop :=
  match r with
  | inl out => ∃ p s', c = Ok p s' ∧ grew s s' ∧ string_at s' p out ∧ path_string out
  | inr e => ∃ s', c = Fail e s' ∧ grew s s'
  end.

Lemma ends_grew s s1 c r : grew s s1 → ends s1 c r → ends s c r.
Proof.
  intros Hg. destruct r as [out|e]; cbn.
  - intros (p & s' & E & G & H). exists p, s'. split; [done|]. split; [by eapply grew_trans|done].
  - intros (s' & E & G). exists s'. split; [done|by eapply grew_trans].
Qed.

Lemma is_not_path_ok s x : is_Some (s_heap s !! x) → path_arg s x = None → zuo_is_path_string x s = Ok false s.
Proof.
  intros [o Ho] Hn. unfold path_arg in Hn. rewrite Ho in Hn.
  destruct o; try (unfold zuo_is_path_string, zuo_is_string_without_nul;
    run_step (has_tag_ok _ _ _ zuo_string_tag Ho); by rewrite bool_decide_eq_false_2 by done).
  rewrite (is_path_string_ok _ _ _ Ho). case_decide; [done|]. by rewrite bool_decide_eq_false_2.
Qed.

Lemma check_path_bad s x : is_Some (s_heap s !! x) → path_arg s x = None → check_path_string who x s = Fail (not_a_path x) s.
Proof. intros Ho Hn. unfold check_path_string. by run_step (is_not_path_ok s x Ho Hn). Qed.

Lemma build_multi_loop_ok fuel : ∀ s pre b l ls,
  image_ok s → string_at s pre b → path_string b → is_list (s_heap s) (null_of s) l ls →
  Forall (λ x, is_Some (s_heap s !! x)) ls → (length ls < fuel)%nat →
  ends s (build_multi_loop fuel who build2 pre l s) (join_rest s b ls).
Proof.
  induction fuel as [|fuel IH]; intros s pre b l ls Him Hpre Hb Hl Hls Hf; [lia|]. cbn [build_multi_loop].
  rewrite (bind_ok _ _ _ _ _ (is_zi_bool o_null l s)). destruct ls as [|x ls].
  { cbn in Hl. rewrite bool_decide_eq_true_2 by done. exists pre, s. split; [done|]. split; [by apply grew_refl|done]. }
  pose proof Hl as (d & Hne & Hp & Hd). apply Forall_cons in Hls as [Hx Hls]. rewrite bool_decide_eq_false_2 by done.
  run_step (ZUO_CAR_ok _ _ _ _ Hp). run_step (ZUO_CDR_ok _ _ _ _ Hp). cbn [join_rest].
  destruct (path_arg s x) as [e|] eqn:Ex.
  2: { exists s. split; [by rewrite (bind_fail _ _ _ _ _ (check_path_bad _ _ Hx Ex))|by apply grew_refl]. }
  apply path_arg_string in Ex as [Hxe He]. run_step (check_path_ok _ who _ _ Hxe He). run_step (ZUO_STRING_PTR_ok _ _ _ Hxe).
  change (zuo_path_is_absolute e) with (hd 0 e =? sep). destruct (decide (absolute e)) as [Ha|Ha].
  { rewrite (proj2 (Z.eqb_eq _ _) Ha). exists s. split; [done|by apply grew_refl]. }
  rewrite (proj2 (Z.eqb_neq _ _) Ha). destruct (joins_run b e s pre x Him Hb He Hpre Hxe) as (q & s1 & E & G & Hq).
  run_step E. apply (ends_grew _ _ _ _ G). rewrite <- (join_rest_grew _ _ _ _ G Hls). apply IH; [by eapply grew_ok|done| | | |].
  - by apply joins_string.
  - rewrite (grew_img _ _ G). destruct G as [hn G]. by eapply is_list_grows.
  - eapply Forall_impl; [exact Hls|]. intros y [o Ho]. exists o. by eapply grew_lookup.
  - cbn in Hf. lia.
Qed.

Lemma build_multi_ok s paths l0 ls :
  image_ok s → is_list (s_heap s) (null_of s) paths (l0 :: ls) → Forall (λ x, is_Some (s_heap s !! x)) (l0 :: ls) →
  ends s (zuo_build_path_multi who paths build2 s) (join s (l0 :: ls)).
Proof.
  intros Him Hl Hls. pose proof (is_list_heap_fuel _ _ _ _ Hl) as Hf. cbn in Hf.
  pose proof Hl as (d & Hne & Hp & Hd). apply Forall_cons in Hls as [Hx Hls]. unfold zuo_build_path_multi.
  rewrite (bind_ok get_st _ _ _ _ eq_refl). run_step (ZUO_CAR_ok _ _ _ _ Hp). cbn [join].
  destruct (path_arg s l0) as [b|] eqn:Ex.
  2: { exists s. split; [by rewrite (bind_fail _ _ _ _ _ (check_path_bad _ _ Hx Ex))|by apply grew_refl]. }
  apply path_arg_string in Ex as [Hxe He]. run_step (check_path_ok _ who _ _ Hxe He). run_step (ZUO_CDR_ok _ _ _ _ Hp).
  apply build_multi_loop_ok; try done. lia.
Qed.

(** Arguments that are all acceptable *)
Lemma join_strings s ls p ps :
  Forall2 (string_at s) ls (p :: ps) → path_string p → Forall (λ e, path_string e ∧ ¬ absolute e) ps →
  join s ls = inl (foldl f p ps).
Proof.
  intros Hls Hp Hps. apply Forall2_cons_inv_r in Hls as (l0 & ls' & Hl0 & Hls & ->).
  assert (Harg : ∀ l e, string_at s l e → path_string e → path_arg s l = Some e).
  { intros l e Hl He. unfold path_arg. rewrite Hl. by rewrite decide_True. }
  cbn [join]. rewrite (Harg _ _ Hl0 Hp). clear Hl0. revert p Hp ls' Hls.
  induction Hps as [|e ps [He Ha] _ IH]; intros p Hp ls' Hls.
  - by apply Forall2_nil_inv_r in Hls as ->.
  - apply Forall2_cons_inv_r in Hls as (x & ls & Hx & Hls & ->). cbn. rewrite (Harg _ _ Hx He).
    rewrite decide_False by done. apply IH; [|done]. by apply (joins_string (Joins := HJ)).
Qed.
End Multi.

Lemma fold_meaning ps : ∀ p,
  path_string p → Forall (λ e, path_string e ∧ ¬ absolute e) ps →
  ¬ absolute p ∨ fst (walk (meaning p) (concat (elements <$> ps))) = O →
  meaning (foldl build_bytes p ps) = walk (meaning p) (concat (elements <$> ps))
  ∧ (absolute (foldl build_bytes p ps) ↔ absolute p).
Proof.
  induction ps as [|e ps IH]; intros p Hp Hps Hbelow; [done|]. apply Forall_cons in Hps as [[He Ha] Hps].
  cbn [fmap list_fmap concat foldl] in *. rewrite walk_elements_app in Hbelow |- *.
  assert (Hb : ¬ absolute p ∧ ¬ absolute e ∨ fst (walk (meaning p) (elements e)) = O).
  { destruct Hbelow as [Hb|Hb]; [by left|]. right.
    pose proof (walk_ups (walk (meaning p) (elements e)) (concat (elements <$> ps))). lia. }
  destruct (build_leads p e Hp He Hb) as [E1 E2]. rewrite <- E1 in Hbelow |- *.
  assert (E3 : absolute (build_bytes p e) ↔ absolute p) by tauto. rewrite <- E3 in Hbelow.
  destruct (IH (build_bytes p e) (build_string p e Hp He) Hps Hbelow) as [-> ->]. done.
Qed.

(** [split-path] cuts a path before its last element: the base keeps its
    separator, the element has none, and only separators at the end are
    dropped; a path of separators is the root. *)
Theorem zuo_split_path_correct s l p :
  image_ok s → string_at s l p → path_string p →
  ∃ r s' c d a e, zuo_split_path l s = Ok r s' ∧ grew s s' ∧ s_heap s' !! r = Some (Opair c d)
    ∧ splits p a e ∧ string_at s' d e ∧ match a with None => c = o_false (s_img s') | Some b => string_at s' c b end.
Proof.
  intros Him Hl Hp. destruct (split_path_ok s l p Him Hl Hp) as (r & s' & E & G & c & d & Hr & Hd & Hc).
  exists r, s', c, d, (fst (split_bytes p)), (snd (split_bytes p)). split; [done|]. split; [done|]. split; [done|].
  split; [apply split_bytes_ok, Hp|done].
Qed.

(** C20. [build-path] ends for all arguments: with the path that they build, or
    with the error for the first one that is not a path string or is an absolute
    path after the first. *)
Theorem zuo_build_path_ends s paths l ls :
  image_ok s → is_list (s_heap s) (null_of s) paths (l :: ls) → Forall (λ x, is_Some (s_heap s !! x)) (l :: ls) →
  ends s (zuo_build_path paths s) (join build_bytes (bytes_of "build-path") s (l :: ls)).
Proof. intros. by apply build_multi_ok; [apply _|..]. Qed.

(** C19. The path that [build-path] returns leads where its arguments lead, one
    after the other, and is absolute when the first one is.  An absolute first
    path needs the walk to stay below the root. *)
Theorem zuo_build_path_meaning s paths ls p ps :
  image_ok s → is_list (s_heap s) (null_of s) paths ls → Forall2 (string_at s) ls (p :: ps) →
  path_string p → Forall (λ e, path_string e ∧ ¬ absolute e) ps →
  ¬ absolute p ∨ fst (walk (meaning p) (concat (elements <$> ps))) = O →
  ∃ l s' out, zuo_build_path paths s = Ok l s' ∧ grew s s' ∧ string_at s' l out
    ∧ meaning out = walk (meaning p) (concat (elements <$> ps)) ∧ (absolute out ↔ absolute p).
Proof.
  intros Him Hl Hls Hp Hps Hbelow. pose proof (join_strings _ build_bytes (bytes_of "build-path") s ls p ps Hls Hp Hps) as Hj.
  assert (Hlive : Forall (λ x, is_Some (s_heap s !! x)) ls).
  { apply Forall_forall. intros x Hx. apply list_elem_of_lookup in Hx as [i Hi].
    destruct (Forall2_lookup_l _ _ _ _ _ Hls Hi) as (y & _ & Hy). by eexists. }
  destruct ls as [|l0 ls]; [by apply Forall2_nil_cons_inv in Hls|].
  pose proof (build_multi_ok zuo_build_path2 build_bytes (bytes_of "build-path") s paths l0 ls Him Hl Hlive) as Hends.
  rewrite Hj in Hends. destruct Hends as (q & s' & E & G & Hq & _). exists q, s', (foldl build_bytes p ps).
  split; [done|]. split; [done|]. split; [done|]. by apply fold_meaning.
Qed.

(** C21. Normalising an input path removes every [.] and leaves [..] only in
    front, for every path; the result leads where the path does, unless that is
    above the root. *)
Theorem zuo_normalize_input_path_correct s l p :
  image_ok s → string_at s l p → path_string p →
  ∃ q s' out, zuo_normalize_input_path l s = Ok q s' ∧ grew s s' ∧ string_at s' q out ∧ tidy out
    ∧ (¬ absolute p ∨ fst (meaning p) = O → meaning out = meaning p ∧ (absolute out ↔ absolute p)).
Proof.
  intros Him Hl Hp. unfold zuo_normalize_input_path.
  destruct (new_string s _ _ (zuo_string_ok (bytes_of ".")) Him) as (d & s1 & E1 & G1 & Hd). run_step E1.
  destruct (build_path2_ok dot p dot_string Hp s1 d l (grew_ok _ _ G1 Him) Hd (grew_string _ _ _ _ G1 Hl)) as (q & s2 & E2 & G2 & Hq).
  exists q, s2, (build_bytes dot p). split; [done|]. split; [by eapply grew_trans|]. split; [done|].
  split; [apply (build_neat dot p dot_string Hp); by left|]. intros Hbelow.
  destruct (build_leads dot p dot_string Hp) as [E3 E4].
  - destruct Hbelow as [Ha|H0]; [left; split; [by intros H; discriminate H|done]|by right].
  - split; [done|]. rewrite E4. split; [intros [H|[_ ?]]; [by discriminate H|done]|]. intros Ha. by right.
Qed.

(** ** Witnesses *)

(** The paths [/usr/lib], [../include] and [./x//y] and the list of them, in
    the booted state. *)
Definition make_paths : M (loc * (loc * loc * loc)) :=
  null <- zi o_null ;;
  a <- zuo_string (bytes_of "/usr/lib") ;;
  b <- zuo_string (bytes_of "../include") ;;
  c <- zuo_string (bytes_of "./x//y") ;;
  l <- zuo_cons c null ;; l <- zuo_cons b l ;; l <- zuo_cons a l ;;
  ret (l, (a, b, c)).
Definition paths : (loc * (loc * loc * loc)) * st := match make_paths booted with Ok r s => (r, s) | _ => ((0, (0, 0, 0)), booted) end.
Definition paths_st : st := snd paths.
Definition paths_list : loc := fst (fst paths).
Definition path1_loc : loc := fst (fst (snd (fst paths))).
Definition path2_loc : loc := snd (fst (snd (fst paths))).
Definition path3_loc : loc := snd (snd (fst paths)).
Definition path1 : list Z := bytes_of "/usr/lib".
Definition path2 : list Z := bytes_of "../include".
Definition path3 : list Z := bytes_of "./x//y".

Lemma paths_ok : image_ok paths_st.
Proof. apply image_okb_sound; [apply mem_okb_sound; vm_compute; reflexivity|vm_compute; reflexivity]. Qed.
Lemma paths_is_list : is_list (s_heap paths_st) (null_of paths_st) paths_list [path1_loc; path2_loc; path3_loc].
Proof. apply is_listb_sound. vm_compute. reflexivity. Qed.
Lemma paths_strings : Forall2 (string_at paths_st) [path1_loc; path2_loc; path3_loc] [path1; path2; path3].
Proof. repeat constructor; vm_compute; reflexivity. Qed.
Lemma paths_live : Forall (λ x, is_Some (s_heap paths_st !! x)) [path1_loc; path2_loc; path3_loc].
Proof.
  repeat constructor; (eexists; vm_compute; reflexivity).
Qed.
Lemma path1_string : path_string path1. Proof. split; [done|]. apply (bool_decide_unpack _). vm_compute. exact I. Qed.
Lemma later_relative : Forall (λ e, path_string e ∧ ¬ absolute e) [path2; path3].
Proof. apply (bool_decide_unpack _). vm_compute. exact I. Qed.
Lemma first_string : string_at paths_st path1_loc path1.
Proof. vm_compute. reflexivity. Qed.

Lemma zuo_split_path_correct_witness :
  ∃ r s' c d a e, zuo_split_path path1_loc paths_st = Ok r s' ∧ grew paths_st s'
    ∧ s_heap s' !! r = Some (Opair c d) ∧ splits path1 a e ∧ string_at s' d e
    ∧ match a with None => c = o_false (s_img s') | Some b => string_at s' c b end.
Proof. exact (zuo_split_path_correct _ _ _ paths_ok first_string path1_string). Defined.

Lemma zuo_build_path_ends_witness :
  ends paths_st (zuo_build_path paths_list paths_st) (join build_bytes (bytes_of "build-path") paths_st [path1_loc; path2_loc; path3_loc]).
Proof.
  exact (zuo_build_path_ends paths_st paths_list path1_loc [path2_loc; path3_loc] paths_ok paths_is_list paths_live).
Defined.

(** [/usr/lib], [../include] and [./x//y] make a path to [/usr/include/x/y]. *)
Lemma zuo_build_path_meaning_witness :
  ∃ l s' out, zuo_build_path paths_list paths_st = Ok l s' ∧ grew paths_st s' ∧ string_at s' l out
    ∧ meaning out = (O, bytes_of <$> ["y"; "x"; "include"; "usr"]) ∧ (absolute out ↔ absolute path1).
Proof.
  exact (zuo_build_path_meaning paths_st paths_list [path1_loc; path2_loc; path3_loc] path1 [path2; path3] paths_ok paths_is_list paths_strings
    path1_string later_relative (or_intror (eq_refl : fst (walk (meaning path1) (concat (elements <$> [path2; path3]))) = O))).
Defined.

Lemma zuo_normalize_input_path_correct_witness :
  ∃ q s' out, zuo_normalize_input_path path1_loc paths_st = Ok q s' ∧ grew paths_st s' ∧ string_at s' q out ∧ tidy out
    ∧ (¬ absolute path1 ∨ fst (meaning path1) = O → meaning out = meaning path1 ∧ (absolute out ↔ absolute path1)).
Proof. exact (zuo_normalize_input_path_correct _ _ _ paths_ok first_string path1_string). Defined.
