(* ===== verification/ArithSpec.v ===== *)
(** * Integer primitives

    Integers are 64-bit words in two's complement: sums, differences and
    products are those of [Z] modulo 2^64, and division never overflows. *)

From S2P Require Import Prelude Sys Heap Alloc Gc GcCorrect Objects Trie Lists ImageOk Intern Sort Printer Reader Prims Interp Path Module Shell Sha256 Fasl Init Boot ListSpec.

(** The integer at an address. *)
Definition int_at (s : st) (l : loc) : option Z :=
  match s_heap s !! l with Some (Ointeger i) => Some i | _ => None end.

Lemma int_at_Some s l i : int_at s l = Some i → s_heap s !! l = Some (Ointeger i).
Proof. unfold int_at. destruct (s_heap s !! l) as [[]|]; try done. by intros [= ->]. Qed.

Lemma int_at_read s l i : int_at s l = Some i → ZUO_INT_I l s = Ok i s.
Proof. intros H%int_at_Some. by apply ZUO_INT_I_ok. Qed.
Lemma ZUO_UINT_I_ok s l i : int_at s l = Some i → ZUO_UINT_I l s = Ok (to_u64 i) s.
Proof. intros H. unfold ZUO_UINT_I. by run_step (int_at_read _ _ _ H). Qed.

Lemma check_integer_ok s who l i : int_at s l = Some i → check_integer who l s = Ok tt s.
Proof.
  intros H%int_at_Some. unfold check_integer. run_step (has_tag_ok _ _ _ zuo_integer_tag H). done.
Qed.

Lemma check_integer_fails s who l :
  is_Some (s_heap s !! l) → int_at s l = None →
  check_integer who l s = zuo_fail_arg who (bytes_of "integer") l s.
Proof.
  intros [o Ho] H. unfold check_integer. run_step (has_tag_ok _ _ _ zuo_integer_tag Ho).
  rewrite bool_decide_false; [done|]. unfold int_at in H. rewrite Ho in H. by destruct o.
Qed.

(** The integers at some addresses, or the first one with none. *)
Fixpoint ints_at (s : st) (ls : list loc) : list Z + loc :=
  match ls with
  | [] => inl []
  | l :: ls' =>
      match int_at s l with
      | None => inr l
      | Some i => match ints_at s ls' with inl ns => inl (i :: ns) | inr l' => inr l' end
      end
  end.

Lemma arith_loop_ok s who op fuel : ∀ l vs i,
  image_ok s → is_list (s_heap s) (null_of s) l vs → Forall (λ v, is_Some (s_heap s !! v)) vs →
  (length vs < fuel)%nat →
  arith_loop fuel who op l i s
  = match ints_at s vs with
    | inl ns => Ok (fold_left (λ a n, to_u64 (op a (to_u64 n))) ns i) s
    | inr v => zuo_fail_arg who (bytes_of "integer") v s
    end.
Proof.
  induction fuel as [|fuel IH]; intros l vs i Him Hl HF Hf; [lia|]. cbn [arith_loop].
  destruct vs as [|v vs].
  - cbn in Hl. run_step (is_zi_eq o_null l s Hl). done.
  - pose proof Hl as (d & Hne & Hp & Hd). run_step (is_zi_ne o_null l s Hne).
    run_step (ZUO_CAR_ok _ _ _ _ Hp). apply Forall_cons in HF as [Hv HF]. cbn [ints_at].
    destruct (int_at s v) as [n|] eqn:En.
    + run_step (check_integer_ok s who v n En). run_step (ZUO_UINT_I_ok s v n En). run_step (ZUO_CDR_ok _ _ _ _ Hp).
      rewrite (IH d vs _ Him Hd HF); [|cbn in Hf; lia]. by destruct (ints_at s vs).
    + unfold bind at 1. rewrite (check_integer_fails s who v Hv En). unfold zuo_fail_arg, zuo_fail1w, fail. done.
Qed.

(** ** Sums, differences and products *)

(** A machine operation that respects congruence modulo 2^64 on both sides. *)
Class Modular (op : Z → Z → Z) : Prop := {
  modular_l a b : to_u64 (op (to_u64 a) b) = to_u64 (op a b);
  modular_r a b : to_u64 (op a (to_u64 b)) = to_u64 (op a b) }.

#[export] Instance add_modular : Modular Z.add.
Proof. split; intros; by autorewrite with machine_int. Qed.
#[export] Instance sub_modular : Modular Z.sub.
Proof. split; intros; by autorewrite with machine_int. Qed.
#[export] Instance mul_modular : Modular Z.mul.
Proof. split; intros; by autorewrite with machine_int. Qed.

(** Reducing at every step is the same as reducing the exact result. *)
Lemma fold_modular op `{!Modular op} ns : ∀ i j,
  to_u64 i = to_u64 j →
  to_u64 (fold_left (λ a n, to_u64 (op a (to_u64 n))) ns i) = to_u64 (fold_left op ns j).
Proof.
  induction ns as [|n ns IH]; intros i j E; [done|]. cbn. apply IH.
  rewrite modular_r, (to_u64_id (to_u64 _)) by apply to_u64_range.
  by rewrite <- (modular_l i), E, modular_l.
Qed.

Lemma fold_modular_s64 op `{!Modular op} ns i j :
  to_u64 i = to_u64 j →
  to_s64 (fold_left (λ a n, to_u64 (op a (to_u64 n))) ns i) = to_s64 (fold_left op ns j).
Proof. intros E. rewrite <- to_s64_u64, (fold_modular op ns i j E). apply to_s64_u64. Qed.

(** The result is a new integer, or the error names the first argument that is
    not one. *)
Definition arith_result (s : st) (who : string) (c : M loc) (vs : list loc) (f : list Z → Z) : Prop :=
  match ints_at s vs with
  | inl ns => ∃ p s', c s = Ok p s' ∧ grows s s' {[p := Ointeger (to_s64 (f ns))]}
  | inr v => c s = zuo_fail_arg (bytes_of who) (bytes_of "integer") v s
  end.

Lemma new_integer s i : image_ok s → ∃ p s', zuo_integer i s = Ok p s' ∧ grows s s' {[p := Ointeger i]}.
Proof.
  intros Him. destruct (allocates_grows _ _ s (zuo_integer_ok i) (im_mem _ Him)) as (p & s' & E & _ & Hg).
  by exists p, s'.
Qed.

Section arguments.
Context (s : st) (l : loc) (vs : list loc).
Context (Him : image_ok s) (Hl : is_list (s_heap s) (null_of s) l vs)
  (HF : Forall (λ v, is_Some (s_heap s !! v)) vs).

Lemma arith_ok who op `{!Modular op} i :
  arith_result s who (s <- get_st ;; i <- arith_loop (heap_fuel s) (bytes_of who) op l i ;; zuo_integer (to_s64 i))
    vs (λ ns, fold_left op ns i).
Proof.
  unfold arith_result. rewrite (bind_ok get_st _ _ _ _ eq_refl). unfold bind.
  rewrite (arith_loop_ok s _ op _ l vs i Him Hl HF (is_list_heap_fuel _ _ _ _ Hl)).
  destruct (ints_at s vs) as [ns|v]; [|done]. rewrite <- (fold_modular_s64 op ns i i eq_refl). by apply new_integer.
Qed.

Lemma zuo_add_ok : arith_result s "+" (zuo_add l) vs (λ ns, fold_left Z.add ns 0).
Proof. exact (arith_ok "+" Z.add 0). Qed.
Lemma zuo_multiply_ok : arith_result s "*" (zuo_multiply l) vs (λ ns, fold_left Z.mul ns 1).
Proof. exact (arith_ok "*" Z.mul 1). Qed.
End arguments.

(** [(- n)] negates, [(- n m ...)] subtracts. *)
Definition difference (ns : list Z) : Z :=
  match ns with [] => 0 | [n] => - n | n :: ns' => fold_left Z.sub ns' n end.

Lemma zuo_subtract_ok s l v vs :
  image_ok s → is_list (s_heap s) (null_of s) l (v :: vs) → Forall (λ v, is_Some (s_heap s !! v)) (v :: vs) →
  arith_result s "-" (zuo_subtract l) (v :: vs) difference.
Proof.
  intros Him Hl HF. pose proof Hl as (d & _ & Hp & Hd). apply Forall_cons in HF as [Hv HF].
  unfold arith_result, zuo_subtract. rewrite (bind_ok get_st _ _ _ _ eq_refl), (bind_ok _ _ _ _ _ (ZUO_CAR_ok _ _ _ _ Hp)).
  cbn [ints_at]. destruct (int_at s v) as [n|] eqn:En.
  - rewrite (bind_ok _ _ _ _ _ (check_integer_ok s _ v n En)), (bind_ok _ _ _ _ _ (ZUO_UINT_I_ok s v n En)),
      (bind_ok _ _ _ _ _ (ZUO_CDR_ok _ _ _ _ Hp)).
    destruct vs as [|w ws].
    + cbn in Hd. rewrite (bind_ok _ _ _ _ _ (is_zi_eq o_null d s Hd)). unfold bind at 1. cbn [ints_at difference ret].
      assert (E : to_s64 (to_u64 (- to_u64 n)) = to_s64 (- n)).
      { apply to_s64_cong. change (to_u64 (to_u64 (0 - to_u64 n)) = to_u64 (0 - n)). by rewrite to_u64_sub_r, to_u64_id by apply to_u64_range. }
      unfold ret. rewrite E. by apply new_integer.
    + pose proof Hd as (d' & Hne & _). rewrite (bind_ok _ _ _ _ _ (is_zi_ne o_null d s Hne)). unfold bind.
      rewrite (arith_loop_ok s _ Z.sub _ d (w :: ws) _ Him Hd HF (is_list_heap_fuel _ _ _ _ Hd)).
      destruct (ints_at s (w :: ws)) as [ns|] eqn:Ens; [|done].
      rewrite (fold_modular_s64 Z.sub ns (to_u64 n) n) by (apply to_u64_id, to_u64_range).
      assert (Hns : ns ≠ []) by (cbn in Ens; repeat case_match; by simplify_eq). destruct ns; [done|]. by apply new_integer.
  - unfold bind at 1. by rewrite (check_integer_fails s _ v Hv En).
Qed.

(** C23. [+], [-] and [*] on a list of integers return the exact result reduced
    to a signed 64-bit word, whatever overflows on the way; otherwise they
    report the first argument that is not an integer. *)
Theorem arith_correct s l vs :
  image_ok s → is_list (s_heap s) (null_of s) l vs → Forall (λ v, is_Some (s_heap s !! v)) vs →
  arith_result s "+" (zuo_add l) vs (λ ns, fold_left Z.add ns 0)
  ∧ arith_result s "*" (zuo_multiply l) vs (λ ns, fold_left Z.mul ns 1)
  ∧ (vs ≠ [] → arith_result s "-" (zuo_subtract l) vs difference).
Proof.
  intros Him Hl HF. split; [by apply zuo_add_ok|]. split; [by apply zuo_multiply_ok|].
  destruct vs as [|v vs]; [done|]. intros _. by apply zuo_subtract_ok.
Qed.

(** ** Division *)

Lemma quot_s64 n m : in_s64 n → in_s64 m → m ≠ 0 → m ≠ -1 → in_s64 (Z.quot n m).
Proof.
  unfold in_s64. intros Hn Hm H0 H1.
  assert (Habs : Z.abs (Z.quot n m) ≤ Z.abs n).
  { rewrite <- Z.quot_abs by done. apply Z.quot_le_upper_bound; nia. }
  destruct (Z.eq_dec (Z.abs (Z.quot n m)) (2 ^ 63)) as [E|]; [|lia].
  assert (En : n = - 2 ^ 63) by lia.
  destruct (decide (m = 1)) as [->|]; [rewrite Z.quot_1_r; lia|].
  assert (Z.abs (Z.quot n m) < Z.abs n); [|lia].
  rewrite <- Z.quot_abs by done. apply Z.quot_lt; lia.
Qed.

Lemma rem_s64 n m : in_s64 m → m ≠ 0 → in_s64 (Z.rem n m).
Proof. unfold in_s64. intros Hm H0. pose proof (Z.rem_bound_abs n m H0). lia. Qed.

Lemma to_s64_quot_rem n m : in_s64 n → m ≠ 0 → to_s64 (to_s64 (Z.quot n m) * m + Z.rem n m) = n.
Proof.
  intros Hn Hm. rewrite <- (to_s64_id n Hn) at 3. apply to_s64_cong.
  change (to_u64 (to_s64 (Z.quot n m) * m + Z.rem n m) = to_u64 n).
  rewrite <- to_u64_add_l, <- to_u64_mul_l, to_u64_s64, to_u64_mul_l, to_u64_add_l.
  f_equal. rewrite (Z.quot_rem n m) at 3 by done. lia.
Qed.

(** C22. Division: by zero it is an error; otherwise [quotient] truncates and
    [remainder] has the sign of the dividend, both are signed 64-bit words, and
    together they give the dividend back.  The one quotient that does not fit,
    of -2^63 by -1, wraps around instead of trapping. *)
Theorem division_correct s a b n m :
  image_ok s → int_at s a = Some n → int_at s b = Some m → in_s64 n → in_s64 m →
  (m = 0 → zuo_quotient a b s = zuo_fail1w (bytes_of "quotient") (bytes_of "divide by zero") b s
    ∧ zuo_remainder a b s = zuo_fail1w (bytes_of "remainder") (bytes_of "divide by zero") b s)
  ∧ (m ≠ 0 → ∃ q r p p' s1 s2,
      zuo_quotient a b s = Ok p s1 ∧ grows s s1 {[p := Ointeger q]}
      ∧ zuo_remainder a b s = Ok p' s2 ∧ grows s s2 {[p' := Ointeger r]}
      ∧ in_s64 q ∧ r = Z.rem n m ∧ in_s64 r ∧ to_s64 (q * m + r) = n
      ∧ ((n ≠ - 2 ^ 63 ∨ m ≠ -1) → q = Z.quot n m)).
Proof.
  intros Him Ha Hb Hn Hm.
  assert (Hci : ∀ who B (g : M B), (check_ints a b who ;;; g) s = g s).
  { intros who B g. unfold check_ints. rewrite bind_assoc.
    by rewrite (bind_ok _ _ _ _ _ (check_integer_ok s who a n Ha)), (bind_ok _ _ _ _ _ (check_integer_ok s who b m Hb)). }
  unfold zuo_quotient, zuo_remainder. cbn zeta. rewrite !Hci, !(bind_ok _ _ _ _ _ (ZUO_UINT_I_ok s b m Hb)).
  rewrite to_s64_u64, to_s64_id by done. split.
  - by intros ->.
  - intros H0. rewrite (proj2 (Z.eqb_neq m 0) H0). exists (to_s64 (Z.quot n m)), (Z.rem n m).
    assert (Hq : ∃ p s1, (if m =? -1 then u <- ZUO_UINT_I a ;; zuo_integer (to_s64 (to_u64 (0 - u)))
                          else i <- ZUO_INT_I a ;; zuo_integer (Z.quot i m)) s = Ok p s1
                         ∧ grows s s1 {[p := Ointeger (to_s64 (Z.quot n m))]}).
    { destruct (Z.eqb_spec m (-1)) as [->|H1].
      - rewrite (bind_ok _ _ _ _ _ (ZUO_UINT_I_ok s a n Ha)), to_s64_u64.
        assert (E : to_s64 (0 - to_u64 n) = to_s64 (Z.quot n (-1))).
        { rewrite <- (to_s64_u64 (0 - to_u64 n)), to_u64_sub_r, to_s64_u64. f_equal.
          change (-1) with (- (1)). rewrite Z.quot_opp_r, Z.quot_1_r by lia. lia. }
        rewrite E. by apply new_integer.
      - rewrite (bind_ok _ _ _ _ _ (int_at_read s a n Ha)), to_s64_id by (by apply quot_s64). by apply new_integer. }
    assert (Hr : ∃ p s1, (if m =? -1 then zuo_integer 0 else i <- ZUO_INT_I a ;; zuo_integer (Z.rem i m)) s = Ok p s1
                         ∧ grows s s1 {[p := Ointeger (Z.rem n m)]}).
    { destruct (Z.eqb_spec m (-1)) as [->|H1].
      - assert (E : Z.rem n (-1) = 0) by (change (-1) with (- (1)); rewrite Z.rem_opp_r, Z.rem_1_r by lia; done).
        rewrite E. by apply new_integer.
      - rewrite (bind_ok _ _ _ _ _ (int_at_read s a n Ha)). by apply new_integer. }
    destruct Hq as (p & s1 & E1 & G1), Hr as (p' & s2 & E2 & G2). exists p, p', s1, s2.
    do 4 (split; [done|]). split; [apply to_s64_range|]. split; [done|].
    split; [by apply rem_s64|]. split; [by apply to_s64_quot_rem|].
    intros Hnm. apply to_s64_id. destruct (decide (m = -1)) as [->|]; [|by apply quot_s64].
    destruct Hnm as [Hn'|]; [|done]. change (-1) with (- (1)). rewrite Z.quot_opp_r, Z.quot_1_r by lia.
    unfold in_s64 in *. lia.
Qed.

(** ** Witnesses *)

Lemma sample_elems_live : Forall (λ v, is_Some (s_heap sample_st !! v)) [sample_one; sample_true; sample_one].
Proof. do 3 (apply Forall_cons_2; [apply (proj1 (not_eq_None_Some _)); vm_compute; discriminate|]). constructor. Qed.

Lemma arith_correct_witness :
  arith_result sample_st "+" (zuo_add sample_list) [sample_one; sample_true; sample_one] (λ ns, fold_left Z.add ns 0)
  ∧ arith_result sample_st "*" (zuo_multiply sample_list) [sample_one; sample_true; sample_one] (λ ns, fold_left Z.mul ns 1)
  ∧ ([sample_one; sample_true; sample_one] ≠ [] →
     arith_result sample_st "-" (zuo_subtract sample_list) [sample_one; sample_true; sample_one] difference).
Proof. exact (arith_correct sample_st sample_list _ sample_ok sample_is_list sample_elems_live). Defined.

Lemma division_correct_witness :
  (1 = 0 → zuo_quotient sample_one sample_one sample_st = zuo_fail1w (bytes_of "quotient") (bytes_of "divide by zero") sample_one sample_st
    ∧ zuo_remainder sample_one sample_one sample_st = zuo_fail1w (bytes_of "remainder") (bytes_of "divide by zero") sample_one sample_st)
  ∧ (1 ≠ 0 → ∃ q r p p' s1 s2,
      zuo_quotient sample_one sample_one sample_st = Ok p s1 ∧ grows sample_st s1 {[p := Ointeger q]}
      ∧ zuo_remainder sample_one sample_one sample_st = Ok p' s2 ∧ grows sample_st s2 {[p' := Ointeger r]}
      ∧ in_s64 q ∧ r = Z.rem 1 1 ∧ in_s64 r ∧ to_s64 (q * 1 + r) = 1
      ∧ ((1 ≠ - 2 ^ 63 ∨ 1 ≠ -1) → q = Z.quot 1 1)).
Proof.
  assert (H : in_s64 1) by (unfold in_s64; lia).
  apply (division_correct sample_st sample_one sample_one 1 1 sample_ok); [vm_compute; reflexivity..|exact H|exact H].
Defined.
