(* ===== verification/Running.v ===== *)
(** * Running states

    The invariant [ok] of the interpreter decided on a concrete state, with the
    keywords and the kernel environment that the state has, and the primitives
    of the table that are functions on trees. *)

From S2P Require Import Prelude Sys Heap Alloc Gc GcCorrect Objects Trie Lists ImageOk Value Intern Sort Printer Reader Prims Interp Machine Simulate Path Module Shell Sha256 Fasl Init Boot ListSpec ArithSpec.

(** ** Deciding the invariant *)

Definition symbol_at (h : gmap Z obj) (l : loc) : option Z :=
  match h !! l with Some (Osymbol id _) => Some id | _ => None end.

Definition K_of (s : st) : keywords :=
  let id l := default 0 (symbol_at (s_heap s) l) in
  let z := s_img s in
  Keywords (id (o_quote_symbol z)) (id (o_lambda_symbol z)) (id (o_let_symbol z))
    (id (o_begin_symbol z)) (id (o_if_symbol z)).

(** The values of the kernel environment that are primitives, integers or
    intrinsic procedures. *)
Definition T_of (s : st) (id : Z) : option val :=
  l ← trie_get trie_fuel (o_undefined (s_img s)) (s_heap s) (o_top_env (s_img s)) id;
  match s_heap s !! l with
  | Some (Oprimitive d p m _) => Some (Vprim d p m)
  | Some (Ointeger i) => Some (Vint i)
  | Some Osingleton => list_find (λ v, const (s_img s) v = Some l) [Vapply; Vcall_cc; Vcall_prompt; Vkernel_eval; Veof] ≫= λ r, Some (snd r)
  | _ => None
  end.

Definition symbol_of (o : obj) : option Z := match o with Osymbol id _ => Some id | _ => None end.

(** The name of an object and the children of a node are what they have to be. *)
Definition named_okb (z : image) (h : gmap Z obj) (o : obj) : bool :=
  match o with
  | Otrie_node _ _ _ next =>
      Nat.eqb (length next) 16 && forallb (λ n, bool_decide (n = o_undefined z) || obj_is h is_trie n) next
  | Osymbol _ n => obj_is h (λ o, match o with Ostring b => forallb (λ c, (0 <=? c) && (c <? 256)) b | _ => false end) n
  | Oprimitive _ p _ n => bool_decide (p ∈ private_procs) || obj_is h is_symbol n
  | _ => true
  end.

Definition okb (s : st) : bool :=
  let h := s_heap s in
  let z := s_img s in
  let ids := omap (λ e, symbol_of (snd e)) (map_to_list h) in
  mem_okb (s_mem s) && heap_closedb h (roots_of s)
  && forallb (obj_is h is_singleton) (singletons z) && bool_decide (NoDup (singletons z))
  && obj_is h (λ o, match o with Ocont zuo_done_cont _ _ _ _ => true | _ => false end) (o_done_k z)
  && obj_is h (λ o, match o with Otrie_node _ _ _ _ => true | _ => false end) (o_top_env z)
  && obj_is h is_trie (o_empty_hash z)
  && forallb (obj_is h is_symbol)
       [o_quote_symbol z; o_lambda_symbol z; o_let_symbol z; o_begin_symbol z; o_if_symbol z]
  && bool_decide (NoDup ids) && forallb (λ id, id <? zuo_symbol_count s) ids
  && forallb (λ e, named_okb z h (snd e)) (map_to_list h)
  && obj_is h is_trie (o_intern_table z).

Lemma omap_nodup_inj {A B} (f : A → option B) l x y b :
  NoDup (omap f l) → x ∈ l → y ∈ l → f x = Some b → f y = Some b → x = y.
Proof.
  induction l as [|a l IH]; [set_solver|]. cbn. intros Hn Hx Hy Hfx Hfy.
  assert (Hin : ∀ z, z ∈ l → f z = Some b → b ∈ omap f l) by (intros z Hz Hfz; apply list_elem_of_omap; eauto).
  apply elem_of_cons in Hx as [->|Hx], Hy as [->|Hy]; try done.
  - rewrite Hfx in Hn. apply NoDup_cons in Hn as [Hn _]. destruct Hn. eauto.
  - rewrite Hfy in Hn. apply NoDup_cons in Hn as [Hn _]. destruct Hn. eauto.
  - apply IH; try done. destruct (f a); [by apply NoDup_cons in Hn as [_ ?]|done].
Qed.

Lemma K_sym s l : obj_is (s_heap s) is_symbol l = true →
  rep (s_img s) (s_heap s) l (Vsym (default 0 (symbol_at (s_heap s) l))).
Proof.
  unfold obj_is, symbol_at. destruct (s_heap s !! l) as [o|] eqn:E; [|done]. destruct o; try done. cbn. eauto.
Qed.

Lemma T_of_ok s id v : Forall (λ l, s_heap s !! l = Some Osingleton) (singletons (s_img s)) → T_of s id = Some v →
  ∃ l, trie_get trie_fuel (o_undefined (s_img s)) (s_heap s) (o_top_env (s_img s)) id = Some l
    ∧ rep (s_img s) (s_heap s) l v.
Proof.
  intros Hs. unfold T_of. destruct (trie_get _ _ _ _ _) as [l|] eqn:El; [|done]. cbn [mbind option_bind].
  intros H. exists l. split; [done|]. destruct (s_heap s !! l) as [o|] eqn:Eo; [|done].
  destruct o; try done; simplify_eq; try (cbn; eauto; done).
  destruct (list_find _ _) as [[i w]|] eqn:Ef; [|done]. cbn in H. simplify_eq.
  apply list_find_Some in Ef as (Hl & Hc & _).
  do 5 (destruct i as [|i]; [cbn in Hl; simplify_eq; exact Hc|]). by destruct i.
Qed.

Lemma okb_sound s : okb s = true → ok (K_of s) (T_of s) s.
Proof.
  unfold okb. intros H. split_andb.
  assert (Hsing : Forall (λ l, s_heap s !! l = Some Osingleton) (singletons (s_img s))).
  { eapply forallb_Forall; [|eassumption]. intros l. unfold obj_is. by destruct (s_heap s !! l) as [[]|]. }
  assert (Hsym : ∀ l id n, s_heap s !! l = Some (Osymbol id n) →
    id ∈ omap (λ e, symbol_of (snd e)) (map_to_list (s_heap s))).
  { intros l id n Hl. apply list_elem_of_omap. exists (l, Osymbol id n). by rewrite elem_of_map_to_list. }
  assert (Hnm : ∀ l o, s_heap s !! l = Some o → named_okb (s_img s) (s_heap s) o = true).
  { intros l o Hl. match goal with H : forallb (λ e, named_okb _ _ _) _ = true |- _ => rewrite List.forallb_forall in H;
      exact (H (l, o) (proj1 (list_elem_of_In _ _) (proj2 (elem_of_map_to_list _ l o) Hl))) end. }
  split; [by apply mem_okb_sound| |by apply heap_closedb_sound|].
  - match goal with H : forallb (obj_is _ is_symbol) _ = true |- _ => cbn in H; split_andb end. split; try done.
    + by eapply bool_decide_eq_true.
    + match goal with H : obj_is _ _ (o_done_k _) = true |- _ => revert H end. unfold obj_is.
      intros Hd. repeat (case_match; try done). eauto.
    + match goal with H : obj_is _ _ (o_top_env _) = true |- _ => revert H end. unfold obj_is.
      intros Hd. repeat (case_match; try done). eauto.
    + intros l l' id n n' Hl Hl'.
      assert (E : (l, Osymbol id n) = (l', Osymbol id n')).
      { eapply (omap_nodup_inj (λ e, symbol_of (snd e)) (map_to_list (s_heap s))).
        1: by eapply bool_decide_eq_true. all: by rewrite ?elem_of_map_to_list. }
      by injection E.
    + intros l id n Hl%Hnm. cbn in Hl. unfold obj_is in Hl. destruct (s_heap s !! n) as [[]|]; try done.
      eexists. split; [done|]. eapply forallb_Forall; [|exact Hl]. intros c Hc. cbn in Hc. unfold is_byte. lia.
    + intros l d p m n Hl%Hnm Hpr. cbn in Hl. rewrite bool_decide_eq_false_2 in Hl by done. cbn in Hl. unfold obj_is in Hl. destruct (s_heap s !! n) as [[]|]; try done. eauto.
    + intros l c k v next Hl%Hnm. cbn in Hl. apply andb_true_iff in Hl as [Hlen HF]. split; [by apply Nat.eqb_eq|].
      eapply forallb_Forall; [|exact HF]. intros n Hn. cbn in Hn. apply orb_true_iff in Hn as [Hn%bool_decide_eq_true|Hn]; auto.
    + by apply K_sym.
    + by apply K_sym.
    + by apply K_sym.
    + by apply K_sym.
    + by apply K_sym.
    + intros id v. by apply T_of_ok.
  - intros l id n Hl. apply Hsym in Hl. rewrite List.forallb_forall in *. apply list_elem_of_In in Hl.
    match goal with H : ∀ x, In x _ → (x <? _) = true |- _ => apply H in Hl end. lia.
Qed.

Lemma booted_running : ok (K_of booted) (T_of booted) booted.
Proof. apply okb_sound. vm_compute. reflexivity. Qed.

(** ** Primitives that are functions on trees *)

Definition vbool (b : bool) : val := if b then Vtrue else Vfalse.

Definition ints_of (vs : list val) : option (list Z) :=
  mapM (λ v, match v with Vint i => Some i | _ => None end) vs.

Definition pure1 (proc : string) (v : val) : option val :=
  if decide (proc = "zuo_pair_p") then Some (vbool (bool_decide (vtag v = zuo_pair_tag)))
  else if decide (proc = "zuo_integer_p") then Some (vbool (bool_decide (vtag v = zuo_integer_tag)))
  else if decide (proc = "zuo_string_p") then Some (vbool (bool_decide (vtag v = zuo_string_tag)))
  else if decide (proc = "zuo_symbol_p") then Some (vbool (bool_decide (vtag v = zuo_symbol_tag)))
  else if decide (proc = "zuo_null_p") then Some (vbool (bool_decide (v = Vnull)))
  else if decide (proc = "zuo_not") then Some (vbool (bool_decide (v = Vfalse)))
  else if decide (proc = "zuo_car") then match v with Vpair a _ => Some a | _ => None end
  else if decide (proc = "zuo_cdr") then match v with Vpair _ d => Some d | _ => None end
  else if decide (proc = "zuo_length") then vs ← vlist v; Some (Vint (Z.of_nat (length vs)))
  else None.

Definition pure2 (proc : string) (v w : val) : option val :=
  if decide (proc = "zuo_cons") then Some (Vpair v w)
  else
    match v, w with
    | Vint i, Vint j =>
        if decide (proc = "zuo_eql") then Some (vbool (i =? j))
        else if decide (proc = "zuo_lt") then Some (vbool (i <? j))
        else if decide (proc = "zuo_le") then Some (vbool (i <=? j))
        else if decide (proc = "zuo_gt") then Some (vbool (i >? j))
        else if decide (proc = "zuo_ge") then Some (vbool (i >=? j))
        else None
    | _, _ => None
    end.

Definition pureN (proc : string) (vs : list val) : option val :=
  if decide (proc = "zuo_list") then Some (of_list vs)
  else if decide (proc = "zuo_add") then ns ← ints_of vs; Some (Vint (to_s64 (fold_left Z.add ns 0)))
  else if decide (proc = "zuo_multiply") then ns ← ints_of vs; Some (Vint (to_s64 (fold_left Z.mul ns 1)))
  else if decide (proc = "zuo_subtract") then
    ns ← ints_of vs; match ns with [] => None | _ => Some (Vint (to_s64 (difference ns))) end
  else None.

Definition pure_prims (d : dispatcher) (proc : string) (vs : list val) : option val :=
  match d, vs with
  | dispatch_primitive1, [v] => pure1 proc v
  | dispatch_primitive2, [v; w] => pure2 proc v w
  | dispatch_primitiveN, vs => pureN proc vs
  | _, _ => None
  end.

Section pure.
Context (K : keywords) (T : Z → option val) (os : os_ops) (fuel : nat).
Abbreviation ok := (ok K T).
Abbreviation ext := (ext K T).

(** The result of a primitive that is [v] on trees. *)
Definition yields (s : st) (c : M loc) (v : val) : Prop :=
  ∃ l s', c s = Ok l s' ∧ ext s s' ∧ s_rt s' = s_rt s ∧ reps s' l v.

Lemma yields_same s c l v : ok s → c s = Ok l s → reps s l v → yields s c v.
Proof. intros Hok E H. exists l, s. split; [done|]. split; [by apply ext_refl|done]. Qed.

Lemma yields_bool s b : ok s → yields s (zbool b) (vbool b).
Proof. intros Hok. by destruct b; eapply yields_same. Qed.

Lemma yields_int s i : ok s → yields s (zuo_integer i) (Vint i).
Proof.
  intros Hok. destruct (allocates_ext K T s _ _ (zuo_integer_ok i) Hok) as (p & s' & E & He & Hp & Hr & _); try done.
  by exists p, s'.
Qed.

Lemma yields_tag s t l v : ok s → reps s l v → yields s (tag_p t l) (vbool (bool_decide (vtag v = t))).
Proof.
  intros Hok H. unfold tag_p, yields. rewrite (bind_ok _ _ _ _ _ (reps_tag K T s l v t Hok H)). by apply yields_bool.
Qed.

Lemma reps_int_at s l i : reps s l (Vint i) → int_at s l = Some i.
Proof. intros H. change (s_heap s !! l = Some (Ointeger i)) in H. unfold int_at. by rewrite H. Qed.

Lemma reps_ints s ls vs ns : Forall2 (reps s) ls vs → ints_of vs = Some ns → ints_at s ls = inl ns.
Proof.
  intros HF. revert ns. induction HF as [|l v ls vs Hl HF IH]; intros ns; cbn; [by intros [= <-]|].
  destruct v as [| | | | | | | | | | |i| | | | | |]; try done. cbn. rewrite (reps_int_at _ _ _ Hl). unfold ints_of in IH.
  destruct (mapM _ vs) as [ms|]; [|done]. cbn. intros [= <-]. by rewrite (IH ms eq_refl).
Qed.

(** One new integer. *)
Lemma grows_int_ext s s' p i : ok s → grows s s' {[p := Ointeger i]} → ext s s' ∧ s_rt s' = s_rt s ∧ reps s' p (Vint i).
Proof.
  intros Hok Hg. pose proof (grows_new _ _ _ _ Hg) as Hp. destruct Hg as [Hd Hh Hm Hi Hr Hsc _ Ho].
  split; [|done]. apply (ok_alloc K T s p (Ointeger i)); try done. split; try done.
  - by apply map_disjoint_singleton_l in Hd.
  - by apply (mo_heap _ Hm p).
  - by rewrite Hh, <- insert_union_singleton_l.
Qed.

Lemma yields_arith s who c ls vs ns f :
  ok s → arith_result s who c ls f → Forall2 (reps s) ls vs → ints_of vs = Some ns →
  yields s c (Vint (to_s64 (f ns))).
Proof.
  intros Hok Ha HF Hn. unfold arith_result in Ha. rewrite (reps_ints _ _ _ _ HF Hn) in Ha.
  destruct Ha as (p & s' & E & Hg). exists p, s'. split; [done|]. by apply grows_int_ext.
Qed.

Lemma compare_ok s who cmp a b i j :
  ok s → reps s a (Vint i) → reps s b (Vint j) → yields s (compare_ints who cmp a b) (vbool (cmp i j)).
Proof.
  intros Hok Ha%reps_int_at Hb%reps_int_at. unfold yields, compare_ints, check_ints. rewrite bind_assoc.
  rewrite (bind_ok _ _ _ _ _ (check_integer_ok s _ a i Ha)), (bind_ok _ _ _ _ _ (check_integer_ok s _ b j Hb)),
    (bind_ok _ _ _ _ _ (int_at_read s a i Ha)), (bind_ok _ _ _ _ _ (int_at_read s b j Hb)). by apply yields_bool.
Qed.

Lemma yields_step {A} s (c : M A) x (g : A → M loc) v : c s = Ok x s → yields s (g x) v → yields s (bind c g) v.
Proof. intros E H. unfold yields. by rewrite (bind_ok _ _ _ _ _ E). Qed.

Lemma pure1_ok s proc l v w :
  ok s → reps s l v → pure1 proc v = Some w →
  ∃ n p f, list_find (λ p, p_proc p = proc) (all_prims os fuel) = Some (n, p) ∧ p_fun p = PF1 f ∧ yields s (f l) w.
Proof.
  intros Hok Hl. unfold pure1.
  repeat (case_decide; [subst proc; intros Hw; eexists _, _, _; split; [reflexivity|]; split; [reflexivity|]|]); try done.
  - simplify_eq. by apply yields_tag.
  - simplify_eq. by apply yields_tag.
  - simplify_eq. by apply yields_tag.
  - simplify_eq. by apply yields_tag.
  - simplify_eq. eapply yields_step; [by eapply (reps_null K T)|]. by apply yields_bool.
  - simplify_eq. eapply yields_step; [by apply (reps_const K T s l v o_false Vfalse)|]. by apply yields_bool.
  - destruct v as [| | | | | | | | | | | | | |a d| | |]; try done. simplify_eq.
    eapply yields_step; [by eapply (reps_tag K T)|]. rewrite bool_decide_true by done.
    destruct (reps_car _ _ _ _ Hl) as (la & E & Hla). by eapply yields_same.
  - destruct v as [| | | | | | | | | | | | | |a d| | |]; try done. simplify_eq.
    eapply yields_step; [by eapply (reps_tag K T)|]. rewrite bool_decide_true by done.
    destruct (reps_cdr _ _ _ _ Hl) as (la & E & Hla). by eapply yields_same.
  - destruct (vlist v) as [vs|] eqn:Ev; [|done]. cbn in Hw. simplify_eq. apply vlist_Some in Ev as ->.
    destruct (reps_list K T s l vs Hok Hl) as (ls & Hls & HF). rewrite <- (Forall2_length _ _ _ HF).
    eapply yields_step; [by apply (zuo_length_int_ok s l ls (ok_image _ _ _ Hok))|]. by apply yields_int.
Qed.

Lemma pure2_ok s proc a b v w r :
  ok s → reps s a v → reps s b w → pure2 proc v w = Some r →
  ∃ n p f, list_find (λ p, p_proc p = proc) (all_prims os fuel) = Some (n, p) ∧ p_fun p = PF2 f ∧ yields s (f a b) r.
Proof.
  intros Hok Ha Hb. unfold pure2. case_decide.
  - subst proc. intros [= <-]. eexists _, _, _. split; [reflexivity|]. split; [reflexivity|].
    destruct (zuo_cons_ext K T s a b v w Hok Ha Hb) as (p & s' & E & He & Hp & Hr). by exists p, s'.
  - destruct v as [| | | | | | | | | | |i| | | | | |]; try done. destruct w as [| | | | | | | | | | |j| | | | | |]; try done.
    repeat (case_decide; [subst proc; intros [= <-]; eexists _, _, _; split; [reflexivity|]; split; [reflexivity|];
      by apply compare_ok|]). done.
Qed.

Lemma pureN_ok s proc l ls vs r :
  ok s → is_list (s_heap s) (o_null (s_img s)) l ls → Forall2 (reps s) ls vs → reps s l (of_list vs) → pureN proc vs = Some r →
  ∃ n p f, list_find (λ p, p_proc p = proc) (all_prims os fuel) = Some (n, p) ∧ p_fun p = PF1 f ∧ yields s (f l) r.
Proof.
  intros Hok Hls HF Hl. pose proof (ok_image _ _ _ Hok) as Him.
  assert (Hlive : Forall (λ v, is_Some (s_heap s !! v)) ls).
  { apply Forall_forall. intros x Hx. apply list_elem_of_lookup in Hx as [i Hi].
    destruct (Forall2_lookup_l _ _ _ _ _ HF Hi) as (y & _ & Hy). by eapply (live_reps K T). }
  unfold pureN.
  repeat (case_decide; [subst proc; intros Hw; eexists _, _, _; split; [reflexivity|]; split; [reflexivity|]|]); try done.
  - simplify_eq. by eapply yields_same.
  - destruct (ints_of vs) as [ns|] eqn:En; [|done]. cbn in Hw. simplify_eq.
    eapply (yields_arith s "+" _ ls vs ns (λ ns, fold_left Z.add ns 0)); try done. by apply zuo_add_ok.
  - destruct (ints_of vs) as [ns|] eqn:En; [|done]. cbn in Hw. simplify_eq.
    eapply (yields_arith s "*" _ ls vs ns (λ ns, fold_left Z.mul ns 1)); try done. by apply zuo_multiply_ok.
  - destruct (ints_of vs) as [ns|] eqn:En; [|done]. cbn in Hw.
    assert (E : ns ≠ [] ∧ r = Vint (to_s64 (difference ns))) by (destruct ns; [done|by simplify_eq]). destruct E as [Hne ->].
    eapply (yields_arith s "-" _ ls vs ns difference); try done.
    destruct ls as [|l0 ls]; [|by apply zuo_subtract_ok].
    apply Forall2_nil_inv_l in HF as ->. injection En as <-. by destruct Hne.
Qed.

Lemma reps_of_list s args ls vs :
  is_list (s_heap s) (o_null (s_img s)) args ls → Forall2 (reps s) ls vs → reps s args (of_list vs).
Proof.
  intros Hls HF. revert args Hls. induction HF as [|l w ls vs Hl HF IH]; intros args Hls; cbn in Hls |- *; [by subst|].
  destruct Hls as (d & _ & Hp & Hd). exists l, d. split; [done|]. split; [done|]. by apply IH.
Qed.

(** The primitive table meets what the interpreter expects. *)
#[export] Instance pure_prims_spec : PrimSpec K T (call_primitive os fuel) pure_prims.
Proof.
  intros s disp proc mask args ls vs v Hok Hls HF _ Hp. change (yields s (call_primitive os fuel disp proc args) v).
  assert (Hl : reps s args (of_list vs)) by (by eapply reps_of_list).
  unfold call_primitive. destruct disp; try done; cbn in Hp.
  - destruct vs as [|x vs]; [done|]. destruct vs; [|done]. cbn [of_list] in Hl.
    destruct (reps_car _ _ _ _ Hl) as (la & Ea & Ha).
    destruct (pure1_ok s proc la x v Hok Ha Hp) as (n & p & f & -> & Ef & Hy). rewrite Ef. cbn.
    by eapply yields_step.
  - destruct vs as [|x vs]; [done|]. destruct vs as [|y vs]; [done|]. destruct vs; [|done]. cbn [of_list] in Hl.
    destruct (reps_car _ _ _ _ Hl) as (la & Ea & Ha), (reps_cdr _ _ _ _ Hl) as (ld & Ed & Hd), (reps_car _ _ _ _ Hd) as (lb & Eb & Hb).
    destruct (pure2_ok s proc la lb x y v Hok Ha Hb Hp) as (n & p & f & -> & Ef & Hy). rewrite Ef. cbn.
    eapply yields_step; [exact Ea|]. eapply yields_step; [exact Ed|]. eapply yields_step; [exact Eb|]. done.
  - destruct (pureN_ok s proc args ls vs v Hok Hls HF Hl Hp) as (n & p & f & -> & Ef & Hy). by rewrite Ef.
Qed.
End pure.

(** ** Decoding trees *)

Fixpoint tree_at (fuel : nat) (z : image) (h : gmap Z obj) (l : loc) : option val :=
  match fuel with
  | O => None
  | S fuel' =>
      match h !! l with
      | Some (Ointeger i) => Some (Vint i)
      | Some (Ostring b) => Some (Vstr b)
      | Some (Osymbol id _) => Some (Vsym id)
      | Some (Opair a d) => va ← tree_at fuel' z h a; vd ← tree_at fuel' z h d; Some (Vpair va vd)
      | Some Osingleton =>
          if decide (l = o_null z) then Some Vnull
          else if decide (l = o_true z) then Some Vtrue
          else if decide (l = o_false z) then Some Vfalse
          else None
      | _ => None
      end
  end.

Lemma tree_at_sound fuel z h : ∀ l v, tree_at fuel z h l = Some v → rep z h l v.
Proof.
  induction fuel as [|fuel IH]; intros l v H; [done|]. cbn in H.
  destruct (h !! l) as [o|] eqn:E; [|done]. destruct o; try done; simplify_eq; try (cbn; eauto; done).
  - repeat case_decide; simplify_eq; done.
  - destruct (tree_at fuel z h car) as [va|] eqn:Ea; [|done]. destruct (tree_at fuel z h cdr) as [vd|] eqn:Ed; [|done].
    cbn in H. simplify_eq. cbn. eauto 10.
Qed.

(** The booted state after reading a program. *)
Definition read_in (src : string) : st * loc :=
  match (f <- zi o_false ;; zuo_in (bytes_of src) 0 f false) booted with
  | Ok r s => (s, fst r)
  | _ => (booted, 0)
  end.
