(* ===== verification/Eval.v ===== *)
(** * Evaluation

    [zuo_kernel_eval] with the collector running between its steps refines the
    machine on trees, and so implements the big-step semantics. *)

From S2P Require Import Prelude Sys Heap Alloc Gc GcCorrect Objects Trie Lists ImageOk Value Intern Sort Printer Reader Prims Interp Machine Simulate Syntax Path Module Shell Sha256 Fasl Init Boot ListSpec.

Section eval.
Context (K : keywords) (T : Z → option val).
Context (call : dispatcher → string → loc → M loc) (P : dispatcher → string → list val → option val).
Context `{!PrimSpec K T call P}.
Abbreviation ok := (ok K T).
Abbreviation ext := (ext K T).
Abbreviation sim := (sim K T).
Abbreviation conts := (conts K T).
Abbreviation follows := (follows K T).

(** ** Application *)

Lemma conts_set s k m r k' m' :
  conts s k m → Forall (live s) (runtime_list r) → reps s (o_interp_k r) k' → rep_meta s (o_interp_meta_k r) m' →
  conts (set_s_rt r s) k' m'.
Proof.
  intros (Hok & _) Hr Hk Hm. split.
  - apply (ext_ok K T s). by apply ext_set_rt.
  - by rewrite s_rt_set_rt, reps_set_rt, rep_meta_set_rt.
Qed.

(** A continuation suspended under the others. *)
Lemma suspend_ok s k m lt t :
  conts s k m →
  match t with Some id => reps s lt (Vsym id) | None => lt = o_undefined (s_img s) end →
  ∃ p q s' s'', zuo_cons (o_interp_k (s_rt s)) lt s = Ok p s'
    ∧ zuo_cons p (o_interp_meta_k (s_rt s)) s' = Ok q s''
    ∧ ext s s'' ∧ s_rt s' = s_rt s ∧ s_rt s'' = s_rt s ∧ s_img s' = s_img s
    ∧ rep_meta s'' q ((k, t) :: m).
Proof.
  intros (Hok & Hk & Hm) Ht.
  assert (Hlt : live s lt).
  { destruct t; [by eapply live_reps|]. subst. by eapply undefined_live. }
  destruct (allocates_ext K T s _ _ (zuo_cons_ok (o_interp_k (s_rt s)) lt) Hok)
    as (p & s1 & E1 & He1 & Hp & Hr1 & _); try done.
  { cbn. pose proof (live_reps K T _ _ _ Hok Hk). auto. }
  pose proof (ext_ok _ _ _ _ He1) as Hok1. pose proof (rep_meta_live K T s _ m Hok Hm) as Hml.
  destruct (allocates_ext K T s1 _ _ (zuo_cons_ok p (o_interp_meta_k (s_rt s))) Hok1)
    as (q & s2 & E2 & He2 & Hq & Hr2 & _); try done.
  { cbn. pose proof (ext_live _ _ _ _ He1 _ Hml). assert (live s1 p) by (by eexists). auto. }
  pose proof (ext_trans _ _ _ _ _ He1 He2) as He. exists p, q, s1, s2.
  split; [done|]. split; [done|]. split; [done|]. split; [done|]. split; [congruence|].
  split; [apply He1|]. exists p, (o_interp_meta_k (s_rt s)), (o_interp_k (s_rt s)), lt.
  split; [done|]. split; [by apply (ext_pairs _ _ _ _ He2)|]. split; [by apply (ext_reps _ _ _ _ He)|].
  split; [|by eapply rep_meta_ext]. destruct t; [by apply (ext_reps _ _ _ _ He)|].
  by rewrite (ext_img _ _ _ _ He).
Qed.

Lemma reps_vlist s l v vs :
  ok s → reps s l v → vlist v = Some vs →
  ∃ ls, is_list (s_heap s) (o_null (s_img s)) l ls ∧ Forall2 (reps s) ls vs.
Proof. intros Hok H ->%vlist_Some. by eapply reps_list. Qed.

Lemma reps_length s l v vs : ok s → reps s l v → vlist v = Some vs → zuo_length_int l s = Ok (Z.of_nat (length vs)) s.
Proof.
  intros Hok H Hv. destruct (reps_vlist s l v vs Hok H Hv) as (ls & Hls & HF).
  rewrite (zuo_length_int_ok s l ls (ok_image _ _ _ Hok) Hls). by rewrite (Forall2_length _ _ _ HF).
Qed.

Lemma reps_list_p s l v vs : ok s → reps s l v → vlist v = Some vs → zuo_list_p l s = Ok (o_true (s_img s)) s.
Proof.
  intros Hok H Hv. destruct (reps_vlist s l v vs Hok H Hv) as (ls & Hls & HF).
  by apply (zuo_list_p_ok s l ls (ok_image _ _ _ Hok)).
Qed.

(** The intrinsic procedures are told apart by their addresses. *)
Lemma intrinsic_case {A} s l v c (f : image → loc) (x y : A) :
  ok s → reps s l v → vtag c = zuo_singleton_tag → const (s_img s) c = Some (f (s_img s)) →
  (if decide (l = f (s_img s)) then x else y) = (if decide (v = c) then x else y).
Proof.
  intros Hok H Hc Hf. pose proof (rep_is_const K T _ _ (ok_inv _ _ _ Hok) l v c _ Hc Hf H) as Hiff.
  by do 2 case_decide; try tauto.
Qed.

Lemma apply_prim_ok s fuel rator disp proc mask args A vs k m :
  conts s k m → reps s args A → vlist A = Some vs →
  follows s
    (if arity_accepts mask (Z.of_nat (length vs)) then v <- call disp proc args ;; set_zr set_o_interp_v v
     else zuo_fail_arity fuel rator args)
    (vs ← vlist A; if arity_accepts mask (Z.of_nat (length vs)) then v ← P disp proc vs; Some (ARet v k m) else None).
Proof.
  intros (Hok & Hk & Hm) HA Hv. rewrite Hv. cbn [mbind option_bind].
  destruct (arity_accepts mask (Z.of_nat (length vs))) eqn:Ea; [|done].
  destruct (P disp proc vs) as [v|] eqn:Ep; [|done]. cbn [mbind option_bind].
  destruct (reps_vlist s args A vs Hok HA Hv) as (ls & Hls & HF).
  destruct (prim_ok s disp proc mask args ls vs v Hok Hls HF Ea Ep) as (l & s' & E & He & Hr & Hl).
  eapply follows_some; [by run_step E|]. apply sim_ret; [apply He|done| |].
  - rewrite Hr. by apply (ext_reps _ _ _ _ He).
  - rewrite Hr. by eapply rep_meta_ext.
Qed.

Lemma apply_cont_ok s fuel rator F args A vs k m :
  conts s k m → reps s rator F → reps s args A → vlist A = Some vs →
  follows s
    (if Z.of_nat (length vs) =? 1 then
       set_zr set_o_interp_k rator ;;; v <- ZUO_CAR args ;; set_zr set_o_interp_v v
     else zuo_fail_arity fuel rator args)
    (match A with Vpair v Vnull => Some (ARet v F m) | _ => None end).
Proof.
  intros (Hok & Hk & Hm) HF HA Hv.
  destruct A as [| | | | | | | | | | | | | |v d| | |]; try done. destruct d; try done. cbn in Hv. simplify_eq. cbn [length].
  change (Z.of_nat 1 =? 1) with true. cbn iota.
  pose proof (live_reps K T _ _ _ Hok HF).
  set (s1 := set_s_rt (set_o_interp_k rator (s_rt s)) s).
  assert (He : ext s s1) by (apply ext_set_rt; [done|reg_live]).
  destruct (reps_car s1 args v Vnull) as (l & El & Hl); [by apply reps_set_rt|].
  eapply follows_some; [regs; fold s1; by run_step El|]. apply sim_ret; [apply He|done| |].
  - unfold s1. rewrite s_rt_set_rt, reps_set_rt. by destruct (s_rt s).
  - unfold s1. rewrite s_rt_set_rt, rep_meta_set_rt. by destruct (s_rt s).
Qed.

Lemma apply_kernel_eval_ok s n fuel args e k m :
  conts s k m → reps s args (Vpair e Vnull) → (n ≤ fuel)%nat →
  follows s
    (e <- ZUO_CAR args ;;
     set_zr set_o_interp_e e ;;;
     check_syntax fuel e ;;;
     k <- zr o_interp_k ;;
     u <- zi o_undefined ;;
     p <- zuo_cons k u ;;
     meta_k <- zr o_interp_meta_k ;;
     meta_k <- zuo_cons p meta_k ;;
     set_zr set_o_interp_meta_k meta_k ;;;
     set_zr set_o_interp_v u ;;;
     env <- zi o_top_env ;;
     set_zr set_o_interp_env env ;;;
     done_k <- zi o_done_k ;;
     set_zr set_o_interp_k done_k)
    (if wf_expr K e && Nat.ltb (vsize e) n then Some (AEval e Vtop_env Vdone_k ((k, None) :: m)) else None).
Proof.
  intros Hc HA Hn. destruct (wf_expr K e) eqn:Hwf; [|done]. destruct (Nat.ltb_spec (vsize e) n); [|done]. cbn [andb].
  destruct (reps_car _ _ _ _ HA) as (le & Ee & He). eapply follows_step; [exact Ee|].
  pose proof Hc as (Hok & Hk & Hm). pose proof (live_reps K T _ _ _ Hok He).
  set (s1 := set_s_rt (set_o_interp_e le (s_rt s)) s).
  assert (Hx1 : ext s s1) by (apply ext_set_rt; [done|reg_live]).
  pose proof (check_syntax_ok K T s1 fuel le e (ext_ok _ _ _ _ Hx1) (ext_reps _ _ _ _ Hx1 _ _ He)) as Hcs.
  unfold verdict in Hcs. destruct (check_syntax fuel le s1) as [[] s2|err s2| |] eqn:Ecs;
    [|destruct err; try (exfalso; apply Hcs; lia); rewrite Hwf in Hcs; by discriminate Hcs; lia|exfalso; apply Hcs; lia..].
  destruct (Hcs ltac:(lia)) as (Hx2 & Hr2 & _).
  assert (Hc2 : conts s2 k m).
  { eapply conts_ext; [exact Hx2|done|]. unfold s1. apply (conts_set s k m); try done; [reg_live|by destruct (s_rt s)..]. }
  destruct (suspend_ok s2 k m _ None Hc2 eq_refl) as (p & q & s3 & s4 & E3 & E4 & Hx4 & Hr3 & Hr4 & Hi3 & Hm4).
  pose proof (ext_ok _ _ _ _ Hx4) as Hok4. pose proof (ext_trans _ _ _ _ _ Hx1 (ext_trans _ _ _ _ _ Hx2 Hx4)) as Hx.
  pose proof (ext_img _ _ _ _ Hx4) as Hi4.
  eapply (follows_some K T s _ tt (set_s_rt (set_o_interp_k (o_done_k (s_img s4)) (set_o_interp_env (o_top_env (s_img s4))
     (set_o_interp_v (o_undefined (s_img s4)) (set_o_interp_meta_k q (s_rt s4))))) s4)).
  { regs. fold s1. run_step Ecs. regs. run_step E3. regs. rewrite Hr3. run_step E4. regs. unfold set_zr, mod_st.
    by rewrite ?s_rt_set_rt, ?set_s_rt_twice, ?s_img_set_rt, ?Hi4. }
  pose proof (undefined_live K T s4 Hok4). assert (Ht : reps s4 (o_top_env (s_img s4)) Vtop_env) by done.
  assert (Hd : reps s4 (o_done_k (s_img s4)) Vdone_k) by done.
  pose proof (live_reps K T _ _ _ Hok4 Ht). pose proof (live_reps K T _ _ _ Hok4 Hd). pose proof (rep_meta_live K T _ _ _ Hok4 Hm4).
  split.
  - apply (ext_ok K T s4). apply ext_set_rt; [done|]. reg_live.
  - rewrite s_rt_set_rt, s_img_set_rt, !reps_set_rt, rep_meta_set_rt, Hr4, Hr2. unfold s1. rewrite s_rt_set_rt.
    pose proof (ext_reps _ _ _ _ Hx _ _ He). by destruct (s_rt s).
Qed.

Lemma apply_loop_ok n : ∀ afuel fuel s rator args F A vs k m,
  conts s k m → reps s rator F → reps s args A → vlist A = Some vs → (n ≤ afuel)%nat → (n ≤ fuel)%nat →
  follows s (apply_loop call afuel fuel rator args (Z.of_nat (length vs))) (apply_val K P n F A k m).
Proof.
  induction n as [|n IH]; intros afuel fuel s rator args F A vs k m Hc HF HA Hv Ha Hf; [done|].
  destruct afuel as [|afuel]; [lia|]. pose proof Hc as (Hok & Hk & Hm).
  destruct (rep_obj K T _ _ (ok_inv _ _ _ Hok) _ _ HF) as (o & Ho & Ht).
  cbn [apply_loop apply_val]. eapply follows_step; [exact (get_ok _ _ _ Ho)|]. eapply follows_step; [done|]. cbn zeta.
  destruct F as [| | | | |  | | | | | | | | | |lam env|disp proc mask|]; try done.
  - (* apply *)
    destruct o; try done. rewrite decide_True by (by injection HF as <-).
    destruct A as [| | | | | | | | | | | | | |f d| | |]; try done. destruct d as [| | | | | | | | | | | | | |a d| | |]; try done.
    destruct d; try done. cbn in Hv. simplify_eq. cbn [length]. change (negb (Z.of_nat 2 =? 2)) with false. cbn iota.
    destruct (vlist a) as [ws|] eqn:Ew; [|done]. cbn [mbind option_bind].
    destruct (reps_car _ _ _ _ HA) as (l1 & E1 & H1). eapply follows_step; [exact E1|].
    destruct (reps_cdr _ _ _ _ HA) as (l2 & E2 & H2). eapply follows_step; [exact E2|].
    destruct (reps_car _ _ _ _ H2) as (l3 & E3 & H3). eapply follows_step; [exact E3|].
    eapply follows_step; [by eapply reps_list_p|]. eapply follows_step; [by apply is_zi_eq|]. cbn [negb].
    eapply follows_step; [by eapply reps_length|]. apply IH; try done; lia.
  - (* call/cc *)
    destruct o; try done. rewrite (intrinsic_case s rator Vcall_cc Vapply o_apply), decide_False by done.
    rewrite decide_True by (by injection HF as <-).
    destruct A as [| | | | | | | | | | | | | |f d| | |]; try done. destruct d; try done. cbn in Hv. simplify_eq. cbn [length].
    change (negb (Z.of_nat 1 =? 1)) with false. cbn iota.
    destruct (reps_car _ _ _ _ HA) as (l1 & E1 & H1). eapply follows_step; [exact E1|].
    eapply follows_step; [done|]. eapply follows_step; [done|].
    destruct (zuo_cons_ext K T s (o_interp_k (s_rt s)) (o_null (s_img s)) k Vnull Hok Hk eq_refl) as (p & s1 & E2 & He & Hp & Hr).
    intros b Hb. rewrite (bind_ok _ _ _ _ _ E2).
    apply (IH afuel fuel s1 l1 p f (Vpair k Vnull) [k] k m); try done; try lia; [by eapply conts_ext|by apply (ext_reps _ _ _ _ He)].
  - (* call/prompt *)
    destruct o; try done. rewrite (intrinsic_case s rator Vcall_prompt Vapply o_apply), decide_False by done.
    rewrite (intrinsic_case s rator Vcall_prompt Vcall_cc o_call_cc), decide_False by done.
    rewrite decide_True by (by injection HF as <-).
    destruct A as [| | | | | | | | | | | | | |f d| | |]; try done. destruct d as [| | | | | | | | | | | | | |tag d| | |]; try done.
    destruct tag; try done. destruct d; try done. cbn in Hv. simplify_eq. cbn [length]. change (negb (Z.of_nat 2 =? 2)) with false. cbn iota.
    destruct (reps_car _ _ _ _ HA) as (l1 & E1 & H1). eapply follows_step; [exact E1|].
    destruct (reps_cdr _ _ _ _ HA) as (l2 & E2 & H2). eapply follows_step; [exact E2|].
    destruct (reps_car _ _ _ _ H2) as (l3 & E3 & H3). eapply follows_step; [exact E3|].
    eapply follows_step; [by eapply reps_tag|]. rewrite bool_decide_true by done. cbn [negb]. eapply follows_step; [done|].
    destruct (suspend_ok s k m l3 (Some id) Hc H3) as (p & q & s1 & s2 & E4 & E5 & Hx & Hr1 & Hr2 & Hi1 & Hm2).
    pose proof (ext_ok _ _ _ _ Hx) as Hok2. assert (Hd : reps s2 (o_done_k (s_img s2)) Vdone_k) by done.
    pose proof (live_reps K T _ _ _ Hok2 Hd). pose proof (rep_meta_live K T _ _ _ Hok2 Hm2).
    intros b Hb. rewrite (bind_ok _ _ _ _ _ E4). regs. rewrite Hr1, (bind_ok _ _ _ _ _ E5). regs.
    rewrite ?s_rt_set_rt, ?set_s_rt_twice, ?s_img_set_rt.
    set (s3 := set_s_rt _ s2).
    apply (IH afuel fuel s3 l1 (o_null (s_img s2)) f Vnull [] Vdone_k ((k, Some id) :: m)); try done; try lia.
    + eapply (conts_set s2 k m); [by eapply conts_ext|reg_live|by destruct (s_rt s2)|by destruct (s_rt s2)].
    + apply reps_set_rt. by apply (ext_reps _ _ _ _ Hx).
    + by apply reps_set_rt.
  - (* kernel-eval *)
    destruct o; try done. rewrite (intrinsic_case s rator Vkernel_eval Vapply o_apply), decide_False by done.
    rewrite (intrinsic_case s rator Vkernel_eval Vcall_cc o_call_cc), decide_False by done.
    rewrite (intrinsic_case s rator Vkernel_eval Vcall_prompt o_call_prompt), decide_False by done.
    rewrite decide_True by (by injection HF as <-).
    destruct A as [| | | | | | | | | | | | | |e d| | |]; try done. destruct d; try done. cbn in Hv. simplify_eq. cbn [length].
    change (negb (Z.of_nat 1 =? 1)) with false. cbn iota. apply apply_kernel_eval_ok; [done|done|lia].
  - (* the empty continuation *)
    destruct o; try done. by eapply apply_cont_ok.
  - destruct HF as (la & ld & HF & HL & HE). rewrite Ho in HF. simplify_eq. by apply apply_closure_ok.
  - destruct HF as [nm HF]. rewrite Ho in HF. simplify_eq. by apply apply_prim_ok.
  - destruct o; try done. by eapply apply_cont_ok.
Qed.

(** ** Continuations *)

(** A frame has been popped: the value goes to what it holds. *)
Definition popped (s : st) (v next : val) (m : meta) : Prop :=
  conts s next m ∧ reps s (o_interp_v (s_rt s)) v.

(** Setting the expression, the environment and the value at the end. *)
Lemma enter_ok s x lenv e env k m :
  conts s k m → reps s x e → reps s lenv env →
  sim (set_s_rt (set_o_interp_v (o_undefined (s_img s)) (set_o_interp_env lenv (set_o_interp_e x (s_rt s)))) s)
    (AEval e env k m).
Proof.
  intros Hc Hx He. pose proof Hc as (Hok & _).
  pose proof (undefined_live K T s Hok). pose proof (live_reps K T _ _ _ Hok Hx). pose proof (live_reps K T _ _ _ Hok He).
  eapply (sim_enter K T s x lenv); try done; try (by destruct (s_rt s)). reg_live.
Qed.

Lemma continue_if_ok s v dd data env lenv next m n :
  popped s v next m → reps s data dd → reps s lenv env →
  follows s (continue_if data lenv) (resume K P n v zuo_if_cont dd env next m).
Proof.
  intros [Hc Hv] Hd He. pose proof Hc as (Hok & _). unfold continue_if. cbn [resume].
  destruct dd as [| | | | | | | | | | | | | |t d| | |]; try done.
  eapply follows_step; [done|]. eapply follows_step; [by apply (reps_const K T s _ v o_false Vfalse)|].
  assert (Hgo : ∀ lx x, reps s lx x → follows s
    (set_zr set_o_interp_e lx ;;; set_zr set_o_interp_env lenv ;;; u <- zi o_undefined ;; set_zr set_o_interp_v u)
    (Some (AEval x env next m))).
  { intros lx x Hx. eapply follows_some; [|by apply (enter_ok s lx lenv)]. regs. unfold set_zr, mod_st.
    by rewrite ?s_rt_set_rt, ?set_s_rt_twice, ?s_img_set_rt. }
  destruct (decide (v = Vfalse)) as [E|E].
  - rewrite bool_decide_true by done. destruct d as [| | | | | | | | | | | | | |f d'| | |]; try done.
    destruct (reps_cdr _ _ _ _ Hd) as (l1 & E1 & H1), (reps_car _ _ _ _ H1) as (l2 & E2 & H2).
    eapply follows_step; [by run_step E1|]. by apply Hgo.
  - rewrite bool_decide_false by done. destruct (reps_car _ _ _ _ Hd) as (l1 & E1 & H1).
    eapply follows_step; [exact E1|]. by apply Hgo.
Qed.

Lemma continue_let_ok s v dd data env lenv next m n :
  popped s v next m → reps s data dd → reps s lenv env →
  follows s (continue_let data lenv) (resume K P n v zuo_let_cont dd env next m).
Proof.
  intros [Hc Hv] Hd He. pose proof Hc as (Hok & Hk & Hm). unfold continue_let. cbn [resume].
  destruct dd as [| | | | | | | | | | | | | |a d| | |]; try done. destruct a as [| | | | | | | | | | | | | |b r1| | |]; try done.
  destruct b as [| | | | | | | | | | | | | |x r2| | |]; try done. destruct d as [| | | | | | | | | | | | | |bd r3| | |]; try done.
  destruct (reps_cdr _ _ _ _ Hd) as (l1 & E1 & H1). eapply follows_step; [exact E1|].
  destruct (reps_car _ _ _ _ H1) as (l2 & E2 & H2). eapply follows_step; [exact E2|].
  destruct (reps_car _ _ _ _ Hd) as (l3 & E3 & H3). destruct (reps_car _ _ _ _ H3) as (l4 & E4 & H4).
  destruct (reps_car _ _ _ _ H4) as (l5 & E5 & H5). pose proof (live_reps K T _ _ _ Hok H2).
  set (s1 := set_s_rt (set_o_interp_e l2 (s_rt s)) s).
  assert (Hx1 : ext s s1) by (apply ext_set_rt; [done|reg_live]).
  assert (Hc1 : conts s1 next m) by (apply (conts_set s next m); try done; [reg_live|by destruct (s_rt s)..]).
  assert (Hrun : ∀ l w, ZUO_CAR l s = Ok w s → ZUO_CAR l s1 = Ok w s1).
  { intros l w. unfold s1, ZUO_CAR, bind, get. replace (s_heap (set_s_rt _ s)) with (s_heap s) by (by destruct s).
    destruct (s_heap s !! l) as [[]|]; try done. by intros [= ->]. }
  assert (Hv1 : o_interp_v (s_rt s1) = o_interp_v (s_rt s)) by (unfold s1; rewrite s_rt_set_rt; by destruct (s_rt s)).
  destruct (env_extend_ok K T s1 lenv l5 (o_interp_v (s_rt s)) env x v (ext_ok _ _ _ _ Hx1)) as (p & s2 & E6 & Hx2 & Hr2 & Hp);
    [by apply (ext_reps _ _ _ _ Hx1)..|].
  pose proof (conts_ext K T _ _ _ _ Hx2 Hr2 Hc1) as Hc2.
  assert (H2' : reps s2 l2 bd) by (apply (ext_reps _ _ _ _ Hx2), (ext_reps _ _ _ _ Hx1), H2).
  eapply follows_some; [|exact (enter_ok s2 l2 p bd _ next m Hc2 H2' Hp)].
  regs. fold s1. run_step (Hrun _ _ E3). run_step (Hrun _ _ E4). run_step (Hrun _ _ E5). regs. rewrite Hv1. run_step E6. regs.
  unfold set_zr, mod_st. rewrite ?s_rt_set_rt, ?set_s_rt_twice, ?s_img_set_rt, Hr2. unfold s1. rewrite s_rt_set_rt.
  by destruct (s_rt s).
Qed.

(** The environment and expression registers, before a frame is pushed. *)
Lemma set_e_env_ok s x lenv e env k m :
  conts s k m → reps s x e → reps s lenv env →
  let s1 := set_s_rt (set_o_interp_env lenv (set_o_interp_e x (s_rt s))) s in
  ext s s1 ∧ conts s1 k m ∧ o_interp_e (s_rt s1) = x ∧ o_interp_env (s_rt s1) = lenv ∧ s_img s1 = s_img s.
Proof.
  intros Hc Hx He s1. pose proof Hc as (Hok & Hk & Hm).
  pose proof (live_reps K T _ _ _ Hok Hx). pose proof (live_reps K T _ _ _ Hok He).
  assert (Hlive : Forall (live s) (runtime_list (set_o_interp_env lenv (set_o_interp_e x (s_rt s))))) by reg_live.
  split; [by apply ext_set_rt|]. split; [apply (conts_set s k m); try done; by destruct (s_rt s)|].
  unfold s1. rewrite s_rt_set_rt. split; [by destruct (s_rt s)|]. split; [by destruct (s_rt s)|]. apply s_img_set_rt.
Qed.

(** A frame is pushed and the value register cleared. *)
Lemma push_enter_ok s tag data vd e env k m :
  conts s k m → tag ≠ zuo_done_cont → reps s data vd → reps s (o_interp_e (s_rt s)) e → reps s (o_interp_env (s_rt s)) env →
  follows s (push_cont tag data ;;; u <- zi o_undefined ;; set_zr set_o_interp_v u)
    (Some (AEval e env (Vcont tag vd env k) m)).
Proof.
  intros (Hok & Hk & Hm) Ht Hd He Hen.
  destruct (push_cont_ok K T s tag data vd env k Hok Ht Hd Hen Hk) as (p & s1 & E & Hx & Hr & Hp).
  pose proof (ext_ok _ _ _ _ Hx) as Hok1. pose proof (undefined_live K T s1 Hok1).
  eapply follows_some; [run_step E; by regs|]. split.
  - apply (ext_ok K T s1). apply ext_set_rt; [done|]. reg_live.
  - rewrite s_rt_set_rt, s_img_set_rt, !reps_set_rt, rep_meta_set_rt, Hr.
    pose proof (ext_reps _ _ _ _ Hx _ _ He). pose proof (ext_reps _ _ _ _ Hx _ _ Hen).
    pose proof (rep_meta_ext K T _ _ _ _ Hx Hm). by destruct (s_rt s).
Qed.

Lemma continue_begin_ok s v dd data env lenv next m n :
  popped s v next m → reps s data dd → reps s lenv env →
  follows s (continue_begin data lenv) (resume K P n v zuo_begin_cont dd env next m).
Proof.
  intros [Hc Hv] Hd He. pose proof Hc as (Hok & Hk & Hm). unfold continue_begin. cbn [resume].
  destruct dd as [| | | | | | | | | | | | | |x d| | |]; try done.
  destruct (reps_cdr _ _ _ _ Hd) as (l1 & E1 & H1). eapply follows_step; [exact E1|].
  destruct (reps_car _ _ _ _ Hd) as (l2 & E2 & H2). eapply follows_step; [exact E2|].
  destruct (set_e_env_ok s l2 lenv x env next m Hc H2 He) as (Hx1 & Hc1 & Ee & Een & Ei).
  set (s1 := set_s_rt _ s) in *. intros b Hb. regs. rewrite ?s_rt_set_rt, ?set_s_rt_twice. fold s1.
  pose proof (ext_reps _ _ _ _ Hx1 _ _ H1) as H1'.
  rewrite (bind_ok _ _ _ _ _ (reps_null K T _ _ _ (ext_ok _ _ _ _ Hx1) H1')). revert b Hb.
  fold (follows s1 ((if bool_decide (d = Vnull) then ret tt else push_cont zuo_begin_cont l1) ;;; u <- zi o_undefined ;; set_zr set_o_interp_v u)
    (Some (AEval x env (if decide (d = Vnull) then next else Vcont zuo_begin_cont d env next) m))).
  pose proof (ext_reps _ _ _ _ Hx1 _ _ H2) as H2'. pose proof (ext_reps _ _ _ _ Hx1 _ _ He) as He'.
  destruct (decide (d = Vnull)) as [->|Hne].
  - rewrite bool_decide_true by done. eapply follows_some; [|exact (enter_ok s l2 lenv x env next m Hc H2 He)].
    regs. unfold set_zr, mod_st. unfold s1. by rewrite ?s_rt_set_rt, ?set_s_rt_twice, ?s_img_set_rt.
  - rewrite bool_decide_false by done. apply push_enter_ok; try done; by rewrite ?Ee, ?Een.
Qed.

(** The last argument has been evaluated: the operator is applied. *)
Lemma continue_apply_last s v rv data lenv next m fuel f args :
  popped s v next m → reps s data (Vpair rv Vnull) → unrev (Vpair v rv) Vnull = Some (f, args) →
  ∃ lf la s' vs, continue_apply call fuel data lenv s = apply_loop call fuel fuel lf la (Z.of_nat (length vs)) s'
    ∧ conts s' next m ∧ reps s' lf f ∧ reps s' la args ∧ vlist args = Some vs.
Proof.
  intros [Hc Hv] Hd Eu. pose proof Hc as (Hok & Hk & Hm). unfold continue_apply.
  destruct (reps_car _ _ _ _ Hd) as (l1 & E1 & H1), (reps_cdr _ _ _ _ Hd) as (l2 & E2 & H2).
  run_step E1. run_step E2. regs.
  destruct (zuo_cons_ext K T s _ _ _ _ Hok Hv H1) as (p & s1 & E3 & Hx1 & Hp & Hr1). run_step E3.
  pose proof (ext_ok _ _ _ _ Hx1) as Hok1.
  run_step (reps_null K T _ _ _ Hok1 (ext_reps _ _ _ _ Hx1 _ _ H2)). rewrite bool_decide_true by done. regs.
  destruct (unreverse_ok K T (heap_fuel s1) s1 p (o_null (s_img s1)) (Vpair v rv) Vnull [] f args Hok1 Hp eq_refl Eu eq_refl)
    as (lf & la & s2 & vs & E4 & Hx2 & Hr2 & Hlf & Hla & Hvl).
  { unfold heap_fuel. pose proof (rep_spine K T _ _ (ok_inv _ _ _ Hok1) _ _ Hp). lia. }
  cbn [length] in E4. change (Z.of_nat 0) with 0 in E4. run_step E4.
  exists lf, la, s2, vs. split; [done|]. split; [|done].
  eapply conts_ext; [exact Hx2|done|]. by eapply conts_ext.
Qed.

Lemma continue_apply_ok s v dd data env lenv next m n fuel :
  popped s v next m → reps s data dd → reps s lenv env → (n ≤ fuel)%nat →
  follows s (continue_apply call fuel data lenv) (resume K P n v zuo_apply_cont dd env next m).
Proof.
  intros Hpop Hd He Hn. cbn [resume].
  destruct dd as [| | | | | | | | | | | | | |rv exps| | |]; try done.
  destruct exps as [| | | | | | | | | | | | | |x d| | |]; try done.
  { destruct (unrev (Vpair v rv) Vnull) as [[f args]|] eqn:Eu; [|done]. cbn [mbind option_bind fst snd].
    destruct (continue_apply_last s v rv data lenv next m fuel f args Hpop Hd Eu) as (lf & la & s' & vs & E & Hc & Hf & Ha & Hv).
    intros b Hb. rewrite E. by apply (apply_loop_ok n fuel fuel s' lf la f args vs next m). }
  destruct Hpop as [Hc Hv]. pose proof Hc as (Hok & Hk & Hm). unfold continue_apply.
  destruct (reps_car _ _ _ _ Hd) as (l1 & E1 & H1). eapply follows_step; [exact E1|].
  destruct (reps_cdr _ _ _ _ Hd) as (l2 & E2 & H2). eapply follows_step; [exact E2|]. eapply follows_step; [done|].
  destruct (zuo_cons_ext K T s _ _ _ _ Hok Hv H1) as (p & s1 & E3 & Hx1 & Hp & Hr1).
  intros b Hb. rewrite (bind_ok _ _ _ _ _ E3). pose proof (ext_ok _ _ _ _ Hx1) as Hok1.
  pose proof (ext_reps _ _ _ _ Hx1 _ _ H2) as H2'. pose proof (ext_reps _ _ _ _ Hx1 _ _ He) as He'.
  pose proof (conts_ext K T _ _ _ _ Hx1 Hr1 Hc) as Hc1.
  rewrite (bind_ok _ _ _ _ _ (reps_null K T _ _ _ Hok1 H2')).
  rewrite bool_decide_false by done. destruct (reps_car _ _ _ _ H2') as (l3 & E4 & H3). rewrite (bind_ok _ _ _ _ _ E4).
  destruct (set_e_env_ok s1 l3 lenv x env next m Hc1 H3 He') as (Hx2 & Hc2 & Ee & Een & Ei).
  set (s2 := set_s_rt _ s1) in *. regs. rewrite ?s_rt_set_rt, ?set_s_rt_twice. fold s2.
  destruct (reps_cdr s2 l2 x d) as (l4 & E5 & H4); [by apply (ext_reps _ _ _ _ Hx2)|]. rewrite (bind_ok _ _ _ _ _ E5).
  destruct (zuo_cons_ext K T s2 p l4 (Vpair v rv) d) as (q & s3 & E6 & Hx3 & Hq & Hr3);
    [apply Hx2|by apply (ext_reps _ _ _ _ Hx2)|done|]. rewrite (bind_ok _ _ _ _ _ E6).
  pose proof (conts_ext K T _ _ _ _ Hx3 Hr3 Hc2) as Hc3.
  eapply push_enter_ok; [exact Hc3|done|exact Hq| | |exact Hb].
  + rewrite Hr3, Ee. by apply (ext_reps _ _ _ _ Hx3), (ext_reps _ _ _ _ Hx2).
  + rewrite Hr3, Een. by apply (ext_reps _ _ _ _ Hx3), (ext_reps _ _ _ _ Hx2).
Qed.

(** The frame on top is popped first. *)
Lemma continue_step_pop s v tag data env next m fuel :
  sim s (ARet v (Vcont tag data env next) m) →
  ∃ ld le s1, continue_step call fuel s
      = match tag with
        | zuo_apply_cont => continue_apply call fuel ld le
        | zuo_let_cont => continue_let ld le
        | zuo_begin_cont => continue_begin ld le
        | zuo_if_cont => continue_if ld le
        | zuo_done_cont => ret tt
        end s1
    ∧ popped s1 v next m ∧ reps s1 ld data ∧ reps s1 le env.
Proof.
  intros (Hok & Hv & Hk & Hm). unfold continue_step.
  pose proof Hk as (Ht & ld & le & lp & ln & Ho & Hd & He & Hnx).
  assert (live s lp).
  { pose proof (hc_ptrs _ _ (ok_closed _ _ _ Hok) _ _ Ho) as HF. cbn in HF. rewrite !Forall_cons in HF. tauto. }
  pose proof (live_reps K T _ _ _ Hok Hnx). regs. run_step (get_ok _ _ _ Ho).
  regs. rewrite ?s_rt_set_rt, ?set_s_rt_twice. exists ld, le. eexists. split; [done|]. set (s1 := set_s_rt _ s).
  assert (Hx1 : ext s s1) by (apply ext_set_rt; [done|reg_live]).
  split; [|split; by apply (ext_reps _ _ _ _ Hx1)].
  split; [|unfold s1; rewrite s_rt_set_rt, reps_set_rt; by destruct (s_rt s)].
  split; [apply Hx1|]. unfold s1. rewrite s_rt_set_rt, reps_set_rt, rep_meta_set_rt. by destruct (s_rt s).
Qed.

Lemma continue_step_ok s v tag data env next m n fuel :
  sim s (ARet v (Vcont tag data env next) m) → (n ≤ fuel)%nat →
  follows s (continue_step call fuel) (resume K P n v tag data env next m).
Proof.
  intros Hs Hn. destruct (continue_step_pop s v tag data env next m fuel Hs) as (ld & le & s1 & E & Hp & Hd & He).
  intros b Hb. rewrite E. revert b Hb. destruct tag.
  - by eapply continue_apply_ok.
  - by eapply continue_begin_ok.
  - by eapply continue_let_ok.
  - by eapply continue_if_ok.
  - done.
Qed.

(** ** Collection between the steps *)

Lemma rt_field (r r' : runtime) (f : loc → loc) (p : runtime → loc) (i : nat) :
  runtime_list r' = f <$> runtime_list r → (∀ x, runtime_list x !! i = Some (p x)) → p r' = f (p r).
Proof. intros H Hp. pose proof (Hp r') as E. rewrite H, list_lookup_fmap, (Hp r) in E. by injection E. Qed.

Lemma rep_meta_iso s s' f m : ∀ l,
  image_list (s_img s') = f <$> image_list (s_img s) →
  (∀ l a d, reach (s_heap s) (roots_of s) l → s_heap s !! l = Some (Opair a d) →
     s_heap s' !! f l = Some (Opair (f a) (f d))) →
  (∀ l v, reach (s_heap s) (roots_of s) l → reps s l v → reps s' (f l) v) →
  reach (s_heap s) (roots_of s) l → rep_meta s l m → rep_meta s' (f l) m.
Proof.
  intros l Hi Hp Hr. revert l. induction m as [|[k t] m IH]; intros l Hl H; cbn in H |- *.
  - subst. by destruct (image_field_iso f (s_heap s) (roots_of s) (s_img s) (s_img s') Hi
      ltac:(unfold roots_of; set_solver) o_null 3) as [-> _]; [by intros []|].
  - destruct H as (a & d & lk & lt & H1 & H2 & H3 & H4 & H5).
    assert (Ha : reach (s_heap s) (roots_of s) a) by (eapply reach_step; [exact Hl|exact H1|cbn; set_solver]).
    assert (Hd : reach (s_heap s) (roots_of s) d) by (eapply reach_step; [exact Hl|exact H1|cbn; set_solver]).
    assert (Hlk : reach (s_heap s) (roots_of s) lk) by (eapply reach_step; [exact Ha|exact H2|cbn; set_solver]).
    assert (Hlt : reach (s_heap s) (roots_of s) lt) by (eapply reach_step; [exact Ha|exact H2|cbn; set_solver]).
    exists (f a), (f d), (f lk), (f lt). split; [by apply Hp|]. split; [by apply Hp|]. split; [by apply Hr|].
    split; [|by apply IH]. destruct t; [by apply Hr|]. subst lt.
    by destruct (image_field_iso f (s_heap s) (roots_of s) (s_img s) (s_img s') Hi
      ltac:(unfold roots_of; set_solver) o_undefined 0) as [-> _]; [by intros []|].
Qed.

(** A collection takes a state of the machine to the same state. *)
Lemma sim_collect s a : sim s a → ∃ s', zuo_check_collect s = Ok tt s' ∧ sim s' a.
Proof.
  intros [Hok Hs]. destruct (check_collect_ok K T s Hok) as (s' & f & E & Hok' & Hrt & Hi & Hp & Hr).
  exists s'. split; [done|]. split; [done|].
  assert (Hroot : ∀ l, l ∈ runtime_list (s_rt s) → reach (s_heap s) (roots_of s) l)
    by (intros; apply reach_root; unfold roots_of; set_solver).
  assert (Hm : ∀ m l, reach (s_heap s) (roots_of s) l → rep_meta s l m → rep_meta s' (f l) m)
    by (intros; by apply (rep_meta_iso s)).
  destruct (image_field_iso f (s_heap s) (roots_of s) (s_img s) (s_img s') Hi
    ltac:(unfold roots_of; set_solver) o_undefined 0) as [Eu _]; [by intros []|].
  assert (Hin : ∀ p i, (∀ x, runtime_list x !! i = Some (p x)) → p (s_rt s) ∈ runtime_list (s_rt s))
    by (intros p i Hpi; by eapply list_elem_of_lookup_2).
  assert (Hreg : ∀ p i v, (∀ x, runtime_list x !! i = Some (p x)) → reps s (p (s_rt s)) v → reps s' (p (s_rt s')) v).
  { intros p i v Hpi Hv. rewrite (rt_field _ _ f p i Hrt Hpi). eauto. }
  assert (Hmeta : ∀ m, rep_meta s (o_interp_meta_k (s_rt s)) m → rep_meta s' (o_interp_meta_k (s_rt s')) m).
  { intros m Hm'. rewrite (rt_field _ _ f o_interp_meta_k 5 Hrt) by (by intros []).
    apply Hm; [|done]. apply Hroot, (Hin _ 5%nat). by intros []. }
  destruct a; destruct_and! Hs.
  - rewrite (rt_field _ _ f o_interp_v 1 Hrt) by (by intros []). rewrite Eu.
    split; [by f_equal|]. split; [by apply (Hreg o_interp_e 0%nat); [intros []|]|].
    split; [by apply (Hreg o_interp_env 2%nat); [intros []|]|].
    split; [by apply (Hreg o_interp_k 3%nat); [intros []|]|by apply Hmeta].
  - split; [by apply (Hreg o_interp_v 1%nat); [intros []|]|].
    split; [by apply (Hreg o_interp_k 3%nat); [intros []|]|by apply Hmeta].
Qed.

(** ** One iteration of the loop *)

Lemma pop_meta_ok s v k t m :
  sim s (ARet v Vdone_k ((k, t) :: m)) →
  follows s
    (meta_k <- zr o_interp_meta_k ;; a <- ZUO_CAR meta_k ;; k <- ZUO_CAR a ;; set_zr set_o_interp_k k ;;;
     d <- zuo_cdr meta_k ;; set_zr set_o_interp_meta_k d)
    (Some (ARet v k m)).
Proof.
  intros (Hok & Hv & Hk & (a & d & lk & lt & H1 & H2 & H3 & H4 & H5)).
  assert (live s d).
  { pose proof (hc_ptrs _ _ (ok_closed _ _ _ Hok) _ _ H1) as HF. cbn in HF. rewrite !Forall_cons in HF. tauto. }
  pose proof (live_reps K T _ _ _ Hok H3).
  eapply (follows_some K T s _ tt (set_s_rt (set_o_interp_meta_k d (set_o_interp_k lk (s_rt s))) s)).
  - regs. run_step (ZUO_CAR_ok _ _ _ _ H1). run_step (ZUO_CAR_ok _ _ _ _ H2). regs. unfold zuo_cdr.
    assert (H1' : s_heap (set_s_rt (set_o_interp_k lk (s_rt s)) s) !! o_interp_meta_k (s_rt s) = Some (Opair a d)) by (by destruct s).
    rewrite bind_assoc. run_step (has_tag_ok _ _ _ zuo_pair_tag H1'). rewrite bool_decide_true by done. run_step (ZUO_CDR_ok _ _ _ _ H1'). unfold set_zr, mod_st. by rewrite s_rt_set_rt, set_s_rt_twice.
  - split.
    + apply (ext_ok K T s). apply ext_set_rt; [done|]. reg_live.
    + rewrite s_rt_set_rt, !reps_set_rt, rep_meta_set_rt. by destruct (s_rt s).
Qed.

Lemma eval_step_ok s a b n fuel :
  sim s a → (n ≤ fuel)%nat → astep K T P n a = Some b →
  ∃ s', eval_step call fuel s = Ok None s' ∧ sim s' b.
Proof.
  intros Hs Hn Hb. unfold eval_step. destruct (sim_collect s a Hs) as (s1 & E1 & Hs1). run_step E1. clear s E1 Hs.
  destruct a as [e env k m|v k m].
  - destruct (interp_step_ok K T s1 e env k m Hs1 b Hb) as (x & s' & E & Hs'). exists s'. split; [|done].
    destruct Hs1 as (_ & Hu & _). regs. rewrite Hu. run_step (is_zi_eq o_undefined _ s1 eq_refl). by run_step E.
  - pose proof Hs1 as (Hok & Hv & Hk & Hm). regs. run_step (reps_defined K T _ _ _ Hok Hv). regs.
    run_step (reps_done K T _ _ _ Hok Hk).
    destruct k as [| | | | | | | | | | | | | | | | |tag data env next]; try done.
    + rewrite bool_decide_true by done. destruct m as [|[k t] m]; [done|]. cbn in Hb. simplify_eq.
      assert (Hnn : is_null (o_interp_meta_k (s_rt s1)) s1 = Ok false s1).
      { destruct Hm as (a & d & lk & lt & H1 & _). apply is_zi_ne. intros Hn1.
        assert (Hz : s_heap s1 !! o_null (s_img s1) = Some Osingleton)
          by (apply (single_at K T _ _ (ok_inv _ _ _ Hok)); unfold singletons; set_solver). congruence. }
      destruct (pop_meta_ok s1 v k t m Hs1 _ eq_refl) as (x & s' & E & Hs'). exists s'. split; [|done].
      regs. run_step Hnn. revert E. regs. unfold bind. repeat (case_match; try done). by intros [= -> ->].
    + rewrite bool_decide_false by done.
      destruct (continue_step_ok s1 v tag data env next m n fuel Hs1 Hn b Hb) as (x & s' & E & Hs').
      exists s'. split; [|done]. by run_step E.
Qed.

(** The loop returns when the machine has a value and nothing to continue. *)
Lemma eval_step_done s v fuel :
  sim s (ARet v Vdone_k []) →
  ∃ l s', eval_step call fuel s = Ok (Some l) s' ∧ ok s' ∧ reps s' l v.
Proof.
  intros Hs. unfold eval_step. destruct (sim_collect s _ Hs) as (s1 & E1 & Hs1). run_step E1. clear s E1 Hs.
  destruct Hs1 as (Hok & Hv & Hk & Hm). exists (o_interp_v (s_rt s1)). eexists. split.
  - regs. run_step (reps_defined K T _ _ _ Hok Hv). regs. run_step (reps_done K T _ _ _ Hok Hk).
    rewrite bool_decide_true by done. regs. cbn in Hm. rewrite Hm. run_step (is_zi_eq o_null _ s1 eq_refl).
    regs. unfold set_zr, mod_st. rewrite ?s_rt_set_rt, ?set_s_rt_twice. reflexivity.
  - assert (Hf : reps s1 (o_false (s_img s1)) Vfalse) by done. pose proof (live_reps K T _ _ _ Hok Hf).
    split; [|by apply reps_set_rt]. apply (ext_ok K T s1). apply ext_set_rt; [done|]. reg_live.
Qed.

Lemma eval_loop_ok n j a v : asteps K T P n j a (ARet v Vdone_k []) →
  ∀ steps fuel s, sim s a → (j < steps)%nat → (n ≤ fuel)%nat →
  ∃ l s', eval_loop call steps fuel s = Ok l s' ∧ ok s' ∧ reps s' l v.
Proof.
  remember (ARet v Vdone_k []) as z eqn:Ez. induction 1 as [n a|n j a b c Hab _ IH]; intros steps fuel s Hs Hj Hn.
  - subst. destruct steps as [|steps]; [lia|]. destruct (eval_step_done s v fuel Hs) as (l & s' & E & H).
    exists l, s'. cbn [eval_loop]. split; [by run_step E|done].
  - destruct steps as [|steps]; [lia|]. destruct (eval_step_ok s a b n fuel Hs Hn Hab) as (s1 & E & Hs1).
    cbn [eval_loop]. destruct (IH Ez steps fuel s1 Hs1) as (l & s' & E' & H); [lia|done|].
    exists l, s'. split; [by run_step E|done].
Qed.

(** The evaluator starts in the machine's first state. *)
Lemma zuo_kernel_eval_start s steps fuel e E :
  ok s → reps s e E → wf_expr K E = true → (vsize E < fuel)%nat →
  ∃ s2, zuo_kernel_eval call steps fuel e s = eval_loop call steps fuel s2 ∧ sim s2 (AEval E Vtop_env Vdone_k []).
Proof.
  intros Hok He Hwf Hf. unfold zuo_kernel_eval.
  pose proof (check_syntax_ok K T s fuel e E Hok He Hf) as Hc. unfold verdict in Hc.
  destruct (check_syntax fuel e s) as [[] s1|err s1| |] eqn:E1; [|by destruct err; rewrite ?Hwf in Hc|done..].
  destruct Hc as (Hx & Hr & _). rewrite (bind_ok _ _ _ _ _ E1). pose proof (ext_ok _ _ _ _ Hx) as Hok1.
  regs. rewrite ?s_rt_set_rt, ?set_s_rt_twice, ?s_img_set_rt. eexists. split; [done|]. set (s2 := set_s_rt _ s1).
  pose proof (ext_reps _ _ _ _ Hx _ _ He) as He1. pose proof (undefined_live K T s1 Hok1).
  assert (Ht : reps s1 (o_top_env (s_img s1)) Vtop_env) by done. assert (Hd : reps s1 (o_done_k (s_img s1)) Vdone_k) by done.
  assert (Hn : reps s1 (o_null (s_img s1)) Vnull) by done.
  pose proof (live_reps K T _ _ _ Hok1 He1). pose proof (live_reps K T _ _ _ Hok1 Ht).
  pose proof (live_reps K T _ _ _ Hok1 Hd). pose proof (live_reps K T _ _ _ Hok1 Hn).
  split.
  - apply (ext_ok K T s1). apply ext_set_rt; [done|reg_live].
  - unfold s2. rewrite s_rt_set_rt, s_img_set_rt, !reps_set_rt, rep_meta_set_rt. by destruct (s_rt s1).
Qed.
End eval.
