(* ===== verification/EvalSpec.v ===== *)
(** * What evaluation computes

    The syntax check decides the grammar of kernel expressions, a step of the
    evaluator is a step of the machine on trees, and [zuo_kernel_eval] returns
    the value of the big-step semantics, with the collector running at any
    step. *)

From S2P Require Import Prelude Sys Heap Alloc Gc GcCorrect Objects Trie Lists ImageOk Value Intern Sort Printer Reader Prims Interp Machine Simulate Syntax Path Module Shell Sha256 Fasl Init Boot ListSpec Eval ArithSpec Running.

Section theorems.
Context (K : keywords) (T : Z → option val).

(** C4. The syntax check accepts exactly the expressions of the grammar: it
    returns, with registers and trees as they were, when the expression is
    well formed, and reports bad syntax otherwise; it needs no more steps
    than the expression has nodes. *)
Theorem check_syntax_decides s fuel e E :
  ok K T s → reps s e E → (vsize E < fuel)%nat →
  (wf_expr K E = true → ∃ s', check_syntax fuel e s = Ok tt s' ∧ ext K T s s' ∧ s_rt s' = s_rt s)
  ∧ (wf_expr K E = false → ∃ e' s', check_syntax fuel e s = Fail (Ebad_form e') s').
Proof.
  intros Hok He Hf. pose proof (check_syntax_ok K T s fuel e E Hok He Hf) as H. unfold verdict in H.
  destruct (check_syntax fuel e s) as [[] s'|err s'| |]; try done.
  - destruct H as (Hx & Hr & ->). split; [eauto|done].
  - destruct err; try done. rewrite H. split; [done|eauto].
Qed.

Context (call : dispatcher → string → loc → M loc) (P : dispatcher → string → list val → option val).
Context `{!PrimSpec K T call P}.

(** C2. One iteration of the evaluator's loop, a possible collection
    included, follows the machine on trees: when the registers stand for a
    state that steps, the iteration goes on with registers that stand for the
    next state. *)
Theorem eval_step_refines s a b n fuel :
  sim K T s a → (n ≤ fuel)%nat → astep K T P n a = Some b →
  ∃ s', eval_step call fuel s = Ok None s' ∧ sim K T s' b.
Proof. apply eval_step_ok. exact _. Qed.

(** C1. [zuo_kernel_eval] is correct: a well-formed expression that evaluates
    to a tree in the big-step semantics is evaluated by the loop to an address
    that stands for it, with the invariant of running states kept, for every
    large enough number of steps. *)
Theorem zuo_kernel_eval_correct s e E v :
  ok K T s → reps s e E → wf_expr K E = true → eval K T P Vtop_env E v →
  ∃ steps0 fuel0, ∀ steps fuel, (steps0 ≤ steps)%nat → (fuel0 ≤ fuel)%nat →
  ∃ l s', zuo_kernel_eval call steps fuel e s = Ok l s' ∧ ok K T s' ∧ reps s' l v.
Proof.
  intros Hok He Hwf Hev.
  destruct (big_step_machine K T P _ _ _ Hev Vdone_k []) as (n & j & Hj).
  exists (S j), (S (n + vsize E)). intros steps fuel Hs Hf.
  destruct (zuo_kernel_eval_start K T call s steps fuel e E Hok He Hwf ltac:(lia)) as (s2 & -> & Hsim).
  by apply (eval_loop_ok K T call P n j (AEval E Vtop_env Vdone_k []) v Hj steps fuel s2); [|lia..].
Qed.
End theorems.

(** ** A program

    [(let ([x 2]) ((lambda (y) (if (pair? y) (+ x (car y)) 0)) (cons 40 x)))] *)

Definition program : st * loc :=
  read_in "(let ([x 2]) ((lambda (y) (if (pair? y) (+ x (car y)) 0)) (cons 40 x)))".
Definition program_st : st := fst program.
Definition program_loc : loc := snd program.
Definition program_tree : val :=
  default Vnull (tree_at 100 (s_img program_st) (s_heap program_st) program_loc).

Lemma program_ok : ok (K_of program_st) (T_of program_st) program_st.
Proof. apply okb_sound. vm_compute. reflexivity. Qed.

Lemma program_reps : reps program_st program_loc program_tree.
Proof.
  apply (tree_at_sound 100). unfold program_tree.
  assert (E : match tree_at 100 (s_img program_st) (s_heap program_st) program_loc with Some _ => true | None => false end = true)
    by (vm_compute; reflexivity).
  by destruct (tree_at 100 _ _ _).
Qed.

Lemma program_wf : wf_expr (K_of program_st) program_tree = true.
Proof. vm_compute. reflexivity. Qed.

Lemma program_size : (vsize program_tree < 100)%nat.
Proof. apply (proj1 (Nat.ltb_lt _ _)). vm_compute. reflexivity. Qed.

(** A step of a derivation, its side conditions by computation; [cbn beta]
    puts the values found so far in place. *)
Ltac computes :=
  match goal with |- ?G => let G' := eval cbn beta in G in change G'; vm_compute; reflexivity end.
Ltac derive :=
  lazymatch goal with
  | |- eval_args _ _ _ _ [] _ => apply ea_nil
  | |- eval_args _ _ _ _ (_ :: _) _ => eapply ea_cons; derive
  | |- eval_args _ _ _ _ _ _ => fail
  | |- applies _ _ _ (Vprim _ _ _) _ _ => eapply ap_prim; computes
  | |- applies _ _ _ (Vclosure _ _) _ _ => eapply ap_closure; [computes|derive]
  | |- eval ?K _ _ _ ?e _ =>
      let form := eval vm_compute in (view K e) in
      lazymatch form with
      | Some (Fvar _) => eapply ev_var; computes
      | Some (Fconst _) => eapply ev_const; computes
      | Some (Fquote _) => eapply ev_quote; computes
      | Some Flambda => eapply ev_lambda; computes
      | Some (Fif _ _) => eapply ev_if; [computes|derive|computes|derive]
      | Some (Flet _ _ _) => eapply ev_let; [computes|derive|computes|derive]
      | Some (Fapp _ _) => eapply ev_app; [computes|computes|derive|derive|derive]
      end
  end.

Lemma program_evaluates : eval (K_of program_st) (T_of program_st) pure_prims Vtop_env program_tree (Vint 42).
Proof. derive. Qed.

Lemma check_syntax_decides_witness :
  ∃ s', check_syntax 100 program_loc program_st = Ok tt s'
    ∧ ext (K_of program_st) (T_of program_st) program_st s' ∧ s_rt s' = s_rt program_st.
Proof.
  exact (proj1 (check_syntax_decides (K_of program_st) (T_of program_st) program_st 100 program_loc
    program_tree program_ok program_reps program_size) program_wf).
Defined.

(** The registers about to evaluate the program. *)
Definition program_start : st :=
  let z := s_img program_st in
  set_s_rt (set_o_interp_e program_loc (set_o_interp_v (o_undefined z) (set_o_interp_env (o_top_env z)
    (set_o_interp_k (o_done_k z) (set_o_interp_meta_k (o_null z) (s_rt program_st)))))) program_st.

Lemma program_start_sim :
  sim (K_of program_st) (T_of program_st) program_start (AEval program_tree Vtop_env Vdone_k []).
Proof.
  pose proof program_ok as Hok. pose proof program_reps as He. revert Hok He. unfold program_start.
  generalize program_st, program_loc, program_tree. intros s l E Hok He. cbn zeta.
  revert Hok. generalize (K_of s), (T_of s). intros K T Hok.
  assert (Ht : reps s (o_top_env (s_img s)) Vtop_env) by done. assert (Hd : reps s (o_done_k (s_img s)) Vdone_k) by done.
  assert (Hn : reps s (o_null (s_img s)) Vnull) by done. pose proof (undefined_live K T s Hok).
  pose proof (live_reps K T _ _ _ Hok He). pose proof (live_reps K T _ _ _ Hok Ht).
  pose proof (live_reps K T _ _ _ Hok Hd). pose proof (live_reps K T _ _ _ Hok Hn). split.
  - apply (ext_ok K T s). apply ext_set_rt; [done|reg_live].
  - rewrite s_rt_set_rt, s_img_set_rt, !reps_set_rt, rep_meta_set_rt. by destruct (s_rt s).
Qed.

Lemma eval_step_refines_witness :
  ∃ b s', astep (K_of program_st) (T_of program_st) pure_prims 1 (AEval program_tree Vtop_env Vdone_k []) = Some b
    ∧ eval_step (call_primitive no_os 100) 100 program_start = Ok None s'
    ∧ sim (K_of program_st) (T_of program_st) s' b.
Proof.
  destruct (astep (K_of program_st) (T_of program_st) pure_prims 1 (AEval program_tree Vtop_env Vdone_k [])) as [b|] eqn:E.
  - destruct (eval_step_refines (K_of program_st) (T_of program_st) (call_primitive no_os 100) pure_prims
      program_start _ b 1 100 program_start_sim ltac:(lia) E) as (s' & H). exists b, s'. split; [exact eq_refl|exact H].
  - exfalso. revert E. vm_compute. discriminate.
Defined.

Lemma zuo_kernel_eval_correct_witness :
  ∃ steps0 fuel0, ∀ steps fuel, (steps0 ≤ steps)%nat → (fuel0 ≤ fuel)%nat →
  ∃ l s', zuo_kernel_eval (call_primitive no_os 100) steps fuel program_loc program_st = Ok l s'
    ∧ ok (K_of program_st) (T_of program_st) s' ∧ reps s' l (Vint 42).
Proof.
  exact (zuo_kernel_eval_correct (K_of program_st) (T_of program_st) (call_primitive no_os 100) pure_prims
    program_st program_loc program_tree (Vint 42) program_ok program_reps program_wf program_evaluates).
Defined.
