(* ===== verification/FdSpec.v ===== *)
(** * Writing and reading descriptors

    What [fd-write] and [fd-read] do with an operating system that answers as
    documented: a write takes at least one byte of what it is given, a read
    returns at least one byte of the rest of the stream until it has ended, and
    a call is interrupted only so many times in a row. *)

From S2P Require Import Prelude Sys Heap Alloc Gc GcCorrect Objects Trie Lists ImageOk Intern Prims Path Init Fasl Boot Files.

(** ** The calls of a state *)

Definition calls (s : st) : list syscall := sys_calls (s_sys s).
Definition set_calls (h : list syscall) (s : st) : st := set_s_sys (set_sys_calls h (s_sys s)) s.

Lemma calls_set h s : calls (set_calls h s) = h.
Proof. by destruct s as [? ? ? ? ? []]. Qed.
Lemma set_calls_twice h h' s : set_calls h (set_calls h' s) = set_calls h s.
Proof. by destruct s as [? ? ? ? ? []]. Qed.
Lemma set_calls_id s : set_calls (calls s) s = s.
Proof. by destruct s as [? ? ? ? ? []]. Qed.
Lemma s_heap_set_calls h s : s_heap (set_calls h s) = s_heap s.
Proof. by destruct s. Qed.
Lemma s_img_set_calls h s : s_img (set_calls h s) = s_img s.
Proof. by destruct s. Qed.
Lemma s_rt_set_calls h s : s_rt (set_calls h s) = s_rt s.
Proof. by destruct s. Qed.
Lemma s_mem_set_calls h s : s_mem (set_calls h s) = s_mem s.
Proof. by destruct s. Qed.
#[export] Hint Rewrite calls_set set_calls_twice s_heap_set_calls s_img_set_calls s_rt_set_calls s_mem_set_calls : zuo_sys.

(** ** Handles *)

Lemma is_handle_with_ok p l s id status raw :
  s_heap s !! l = Some (Ohandle id status raw) → is_handle_with p l s = Ok (p status) s.
Proof. intros H. unfold is_handle_with. by run_step (get_ok _ _ _ H). Qed.

Lemma is_handle_with_no p l s o :
  s_heap s !! l = Some o → obj_tag o ≠ zuo_handle_tag → is_handle_with p l s = Ok false s.
Proof. intros H Ho. unfold is_handle_with. run_step (get_ok _ _ _ H). by destruct o. Qed.

Lemma ZUO_HANDLE_RAW_ok l s id status raw :
  s_heap s !! l = Some (Ohandle id status raw) → ZUO_HANDLE_RAW l s = Ok raw s.
Proof. intros H. unfold ZUO_HANDLE_RAW. by run_step (get_ok _ _ _ H). Qed.

Lemma handle_id_ok l s id status raw :
  s_heap s !! l = Some (Ohandle id status raw) → handle_id l s = Ok id s.
Proof. intros H. unfold handle_id. by run_step (get_ok _ _ _ H). Qed.

Lemma check_string_ok who l s b : s_heap s !! l = Some (Ostring b) → check_string who l s = Ok tt s.
Proof. intros H. unfold check_string. by run_step (has_tag_ok _ _ _ zuo_string_tag H). Qed.

(** ** Answers *)

Section os.
Context (os : list syscall → sysret).

(** After [n] interruptions the call is answered. *)
Inductive answered (c : syscall) : nat → list syscall → list syscall → sysret → Prop :=
  | an_now h r : os (h ++ [c]) = r → r ≠ Serrno EINTR → answered c 0 h (h ++ [c]) r
  | an_again n h h' r :
      os (h ++ [c]) = Serrno EINTR → answered c n (h ++ [c]) h' r → answered c (S n) h h' r.

Lemma eintr_retry_ok c n h h' r :
  answered c n h h' r → ∀ fuel s, calls s = h → (n < fuel)%nat →
  eintr_retry os fuel c s = Ok r (set_calls h' s).
Proof.
  induction 1 as [h r Hr Hne|n h h' r Hr _ IH]; intros fuel s <- Hf; destruct fuel as [|fuel]; try lia.
  - cbn [eintr_retry]. unfold sys_call, bind. cbn zeta. fold (calls s). rewrite Hr.
    destruct r as [|e]; [done|]. destruct (Z.eqb_spec e EINTR); [by subst|done].
  - cbn [eintr_retry]. unfold bind at 1, sys_call. cbn zeta. fold (calls s). rewrite Hr, Z.eqb_refl.
    fold (set_calls (calls s ++ [c]) s). rewrite (IH fuel) by (by autorewrite with zuo_sys || lia).
    by autorewrite with zuo_sys.
Qed.

(** What calls moved: [f] tells the bytes of a call and its answer. *)
Fixpoint moved (f : syscall → sysret → list Z) (h l : list syscall) : list Z :=
  match l with
  | [] => []
  | c :: l' => f c (os (h ++ [c])) ++ moved f (h ++ [c]) l'
  end.

Lemma moved_app f l1 : ∀ h l2, moved f h (l1 ++ l2) = moved f h l1 ++ moved f (h ++ l1) l2.
Proof.
  induction l1 as [|c l1 IH]; intros h l2; cbn; [by rewrite app_nil_r|].
  by rewrite IH, <- !app_assoc.
Qed.

Lemma answered_moved f c n h h' r :
  (∀ c e, f c (Serrno e) = []) → answered c n h h' r →
  h' = h ++ replicate (S n) c ∧ moved f h (replicate (S n) c) = f c r.
Proof.
  intros Hf. induction 1 as [h r Hr Hne|n h h' r Hr _ IH]; cbn [replicate moved].
  - split; [done|]. by rewrite Hr, app_nil_r.
  - destruct IH as [-> IH]. split; [by rewrite <- app_assoc|]. rewrite Hr, Hf. exact IH.
Qed.

(** The bytes that a descriptor has taken, and those that it has given. *)
Definition taken (fd : Z) (c : syscall) (r : sysret) : list Z :=
  match c, r with
  | Swrite fd' b, Sret k _ => if decide (fd' = fd) then take (Z.to_nat k) b else []
  | _, _ => []
  end.
Definition given (fd : Z) (c : syscall) (r : sysret) : list Z :=
  match c, r with
  | Sread fd' _, Sret _ out => if decide (fd' = fd) then out else []
  | _, _ => []
  end.

Lemma taken_errno fd c e : taken fd c (Serrno e) = [].
Proof. by destruct c. Qed.
Lemma given_errno fd c e : given fd c (Serrno e) = [].
Proof. by destruct c. Qed.

(** ** Writing *)

(** Every write of some bytes to [fd] takes at least one of them, after [N]
    interruptions at most. *)
Class Writable (fd : Z) (N : nat) : Prop :=
  writable h b : b ≠ [] → ∃ n h' k out,
    answered (Swrite fd b) n h h' (Sret k out) ∧ (n ≤ N)%nat ∧ 1 ≤ k ≤ Z.of_nat (length b).

(** The calls of [zuo_fill]. *)
Definition a_write (fd : Z) (c : syscall) : Prop := ∃ w, c = Swrite fd w ∧ (length w ≤ 4096)%nat.

Lemma fill_loop_ok fuel fd N b `{!Writable fd N} n : ∀ s (i : nat),
  (N < fuel)%nat → (i ≤ length b)%nat → (length b - i < n)%nat →
  ∃ new, fill_loop os fuel n b fd (Z.of_nat i) s = Ok tt (set_calls (calls s ++ new) s)
    ∧ moved (taken fd) (calls s) new = drop i b ∧ Forall (a_write fd) new.
Proof.
  induction n as [|n IH]; intros s i HN Hi Hn; [lia|]. cbn [fill_loop]. cbn zeta.
  destruct (Z.ltb_spec (Z.of_nat i) (Z.of_nat (length b))) as [Hlt|Hge].
  2:{ exists []. rewrite app_nil_r, set_calls_id. split; [done|]. split; [|constructor]. cbn. by rewrite drop_ge by lia. }
  set (amt := if 4096 <? Z.of_nat (length b) - Z.of_nat i then 4096 else Z.of_nat (length b) - Z.of_nat i).
  assert (Hamt : 1 ≤ amt ≤ Z.of_nat (length b) - Z.of_nat i ∧ amt ≤ 4096) by (subst amt; case_match; lia).
  rewrite Nat2Z.id. set (w := take (Z.to_nat amt) (drop i b)).
  assert (Hw : length w = Z.to_nat amt) by (subst w; rewrite length_take, length_drop; lia).
  destruct (writable (calls s) w) as (m & h' & k & out & Han & Hm & Hk); [intros E; rewrite E in Hw; cbn in Hw; lia|].
  destruct (answered_moved (taken fd) _ _ _ _ _ (taken_errno fd) Han) as [-> Hmv].
  run_step (eintr_retry_ok _ _ _ _ _ Han fuel s eq_refl ltac:(lia)).
  destruct (Z.ltb_spec k 0); [lia|]. set (s1 := set_calls _ s).
  destruct (IH s1 (i + Z.to_nat k)%nat) as (new & E & Hnew & HF); [lia|rewrite Hw in Hk; lia|lia|].
  exists (replicate (S m) (Swrite fd w) ++ new).
  replace (Z.of_nat i + k) with (Z.of_nat (i + Z.to_nat k)) by lia. rewrite E. subst s1. autorewrite with zuo_sys in Hnew |- *.
  split; [by rewrite <- app_assoc|]. split.
  - rewrite moved_app, Hmv, Hnew. cbn [taken]. rewrite decide_True by done. subst w. rewrite take_take.
    rewrite Nat.min_l by lia. rewrite <- drop_drop. apply take_drop.
  - apply Forall_app. split; [|done]. apply Forall_replicate. exists w. split; [done|lia].
Qed.

(** C25. [fd-write] delivers the whole string: with a descriptor that takes at
    least one byte of every write, whatever short writes and interruptions
    there are, it returns after finitely many writes, of at most 4096 bytes
    each, which together moved the bytes of the string in order; nothing else
    of the state changes. *)
Theorem fd_write_delivers fuel fd N s fd_h str id b :
  Writable fd N → (N < fuel)%nat → (length b < fuel)%nat →
  s_heap s !! fd_h = Some (Ohandle id zuo_handle_open_fd_out_status fd) → s_heap s !! str = Some (Ostring b) →
  ∃ new, zuo_fd_write os fuel fd_h str s = Ok (o_void (s_img s)) (set_calls (calls s ++ new) s)
    ∧ moved (taken fd) (calls s) new = b ∧ Forall (a_write fd) new.
Proof.
  intros HW HN Hb Hh Hs. unfold zuo_fd_write. cbn zeta. run_step (is_handle_with_ok is_out _ _ _ _ _ Hh). cbn [is_out negb].
  run_step (check_string_ok (bytes_of "fd-write") _ _ _ Hs). run_step (ZUO_STRING_PTR_ok _ _ _ Hs). run_step (ZUO_HANDLE_RAW_ok _ _ _ _ _ Hh).
  destruct (fill_loop_ok fuel fd N b fuel s 0) as (new & E & Hnew & HF); [lia..|]. unfold zuo_fill. run_step E.
  exists new. unfold zi. by autorewrite with zuo_sys.
Qed.

(** ** Reading *)

(** What is left of the stream [F] after the calls [h]. *)
Definition rest (fd : Z) (F : list Z) (h : list syscall) : list Z := drop (length (moved (given fd) [] h)) F.

(** A read of [fd] gives some of the rest of the stream, and nothing only at
    its end, after [N] interruptions at most. *)
Class Stream (fd : Z) (F : list Z) (N : nat) : Prop :=
  stream_read h amt : 0 < amt → ∃ n h' out,
    answered (Sread fd amt) n h h' (Sret (Z.of_nat (length out)) out) ∧ (n ≤ N)%nat
    ∧ Z.of_nat (length out) ≤ amt ∧ out `prefix_of` rest fd F h ∧ (out = [] → rest fd F h = []).

Lemma rest_read fd F amt n h h' out :
  answered (Sread fd amt) n h h' (Sret (Z.of_nat (length out)) out) → rest fd F h' = drop (length out) (rest fd F h).
Proof.
  intros Han. destruct (answered_moved (given fd) _ _ _ _ _ (given_errno fd) Han) as [-> Hmv].
  unfold rest. rewrite moved_app, app_nil_l, Hmv, length_app. cbn [given]. rewrite decide_True by done.
  by rewrite drop_drop.
Qed.

(** The state has grown, and made calls. *)
Definition io_grows (s s' : st) (hn : gmap Z obj) : Prop := grows (set_calls (calls s') s) s' hn.

Lemma grows_set_calls h s s' hn : grows s s' hn → grows (set_calls h s) (set_calls h s') hn.
Proof.
  intros [H1 H2 H3 H4 H5 H6 H7 H8]. split; autorewrite with zuo_sys; try done; [by destruct s, s'..|].
  by destruct s as [? ? ? ? ? []], s' as [? ? ? ? ? []]; cbn in *; simplify_eq.
Qed.

Lemma io_grows_refl s h : mem_ok (s_mem s) → io_grows s (set_calls h s) ∅.
Proof. intros Hok. unfold io_grows. rewrite calls_set. apply grows_refl. by autorewrite with zuo_sys. Qed.

Lemma io_grows_call s s' hn h : io_grows s s' hn → io_grows s (set_calls h s') hn.
Proof.
  intros Hg. unfold io_grows in *. rewrite calls_set. apply (grows_set_calls h) in Hg. by rewrite set_calls_twice in Hg.
Qed.

Lemma grows_calls s s' hn : grows s s' hn → calls s' = calls s.
Proof. intros Hg. unfold calls. by rewrite (gr_out _ _ _ Hg). Qed.

Lemma io_grows_trans s s1 s2 hn hn' : io_grows s s1 hn → grows s1 s2 hn' → io_grows s s2 (hn' ∪ hn).
Proof. intros H1 H2. unfold io_grows in *. rewrite (grows_calls _ _ _ H2). by eapply grows_trans. Qed.

Lemma io_grows_mem s s' hn : io_grows s s' hn → mem_ok (s_mem s').
Proof. intros Hg. apply Hg. Qed.

Lemma io_grows_new s s' hn l o : io_grows s s' hn → hn !! l = Some o → s_heap s' !! l = Some o.
Proof. intros Hg Hl. rewrite (gr_heap _ _ _ Hg). by apply lookup_union_Some_l. Qed.

(** A store that does not make an object larger. *)
Lemma put_mem_ok_le l o o' s :
  mem_ok (s_mem s) → s_heap s !! l = Some o → space_of o' ≤ space_of o →
  mem_ok (s_mem (set_heap_at l o' s)).
Proof.
  intros [Hbrk Hsz Hoff Hsp Hfr Hh Hby] Hl Hspace.
  destruct s as [[h b hs ts off tot thr olds fs] ? ? ? ? ?]; cbn in *. unfold s_heap in *. cbn in *.
  split; cbn; auto.
  - intros Ht. destruct (Hfr Ht) as [-> _]. by rewrite lookup_empty in Hl.
  - intros a Ha. apply Hh. destruct (decide (a = l)) as [->|]; [by rewrite Hl|]. by rewrite lookup_insert_ne in Ha.
  - rewrite (heap_bytes_update _ _ _ _ Hl). lia.
Qed.

Lemma io_grows_put s s' hn l o o' :
  io_grows s s' hn → hn !! l = Some o → space_of o' ≤ space_of o →
  put l o' s' = Ok tt (set_heap_at l o' s') ∧ io_grows s (set_heap_at l o' s') (<[l := o']> hn).
Proof.
  intros Hg Hl Hsp. pose proof (io_grows_new _ _ _ _ _ Hg Hl) as Hl'. pose proof Hg as [Hd Hh Hok ? ? ? ? ?].
  split; [by eapply put_ok|]. rewrite s_heap_set_calls in Hd, Hh.
  assert (Hn : s_heap s !! l = None) by (by eapply map_disjoint_Some_l).
  assert (Ec : calls (set_heap_at l o' s') = calls s') by (by destruct s').
  unfold io_grows. rewrite Ec. split; autorewrite with zuo_st zuo_sys in *; try done.
  - by apply map_disjoint_insert_l_2.
  - rewrite Hh. by rewrite insert_union_l.
  - by eapply put_mem_ok_le.
  - by destruct s'.
  - by destruct s'.
Qed.

Lemma space_of_string b b' : (length b' ≤ length b)%nat → space_of (Ostring b') ≤ space_of (Ostring b).
Proof.
  intros H. unfold space_of. rewrite !ALLOC_ALIGN_eq. cbn. unfold ZUO_STRING_ALLOC_SIZE.
  apply Z.mul_le_mono_nonneg_r; [lia|]. apply Z.div_le_mono; lia.
Qed.

(** The state has grown from [s] by [hn] and calls, and the string [l] of it
    holds [buf]. *)
Definition holds_buf (s s' : st) (l : loc) (buf : list Z) : Prop :=
  ∃ hn, io_grows s s' hn ∧ hn !! l = Some (Ostring buf).

Lemma new_buf s s' l buf len :
  holds_buf s s' l buf → 0 ≤ len →
  ∃ l' s'', zuo_uninitialized_string len s' = Ok l' s'' ∧ calls s'' = calls s'
    ∧ holds_buf s s'' l' (replicate (Z.to_nat len) 0) ∧ holds_buf s s'' l buf.
Proof.
  intros (hn & Hg & Hl) Hlen.
  destruct (allocates_grows _ _ s' (zuo_sized_string_ok (replicate (Z.to_nat len) 0)) (io_grows_mem _ _ _ Hg)) as (l' & s'' & E & _ & Hg').
  exists l', s''. split; [exact E|]. split; [exact (grows_calls _ _ _ Hg')|].
  pose proof (io_grows_trans _ _ _ _ _ Hg Hg') as Hgg. split.
  - exists ({[l' := Ostring (replicate (Z.to_nat len) 0)]} ∪ hn). split; [done|]. apply lookup_union_Some_l, lookup_singleton_eq.
  - exists ({[l' := Ostring (replicate (Z.to_nat len) 0)]} ∪ hn). split; [done|].
    apply lookup_union_Some_raw. right. split; [|done].
    apply lookup_singleton_ne. intros ->. pose proof (gr_disj _ _ _ Hg') as Hd.
    rewrite (gr_heap _ _ _ Hg) in Hd. eapply map_disjoint_spec in Hd; [done|apply lookup_singleton_eq|].
    by apply lookup_union_Some_l.
Qed.

Lemma first_buf s len :
  mem_ok (s_mem s) → 0 ≤ len →
  ∃ l s', zuo_uninitialized_string len s = Ok l s' ∧ calls s' = calls s ∧ holds_buf s s' l (replicate (Z.to_nat len) 0).
Proof.
  intros Hok Hlen. destruct (allocates_grows _ _ s (zuo_sized_string_ok (replicate (Z.to_nat len) 0)) Hok) as (l & s' & E & _ & Hg).
  exists l, s'. split; [exact E|]. split; [exact (grows_calls _ _ _ Hg)|]. exists {[l := Ostring (replicate (Z.to_nat len) 0)]}.
  split; [|apply lookup_singleton_eq]. unfold io_grows. by rewrite (grows_calls _ _ _ Hg), set_calls_id.
Qed.

Lemma holds_buf_heap s s' l buf : holds_buf s s' l buf → s_heap s' !! l = Some (Ostring buf).
Proof. intros (hn & Hg & Hl). by eapply io_grows_new. Qed.

Lemma holds_buf_call s s' l buf h : holds_buf s s' l buf → holds_buf s (set_calls h s') l buf.
Proof. intros (hn & Hg & Hl). exists hn. split; [by apply io_grows_call|done]. Qed.

Lemma put_buf s s' l buf buf' :
  holds_buf s s' l buf → (length buf' ≤ length buf)%nat →
  ∃ s'', put l (Ostring buf') s' = Ok tt s'' ∧ calls s'' = calls s' ∧ holds_buf s s'' l buf'.
Proof.
  intros (hn & Hg & Hl) Hlen. destruct (io_grows_put _ _ _ _ _ _ Hg Hl (space_of_string _ _ Hlen)) as [E Hg'].
  eexists. split; [exact E|]. split; [by destruct s'|]. eexists. split; [exact Hg'|apply lookup_insert_eq].
Qed.

(** The bytes [b] stored at [off], after [got]: the string now starts with
    both. *)
Lemma store_bytes_ok s s' l buf off b :
  holds_buf s s' l buf → (off + length b ≤ length buf)%nat →
  ∃ s'' buf', store_bytes l (Z.of_nat off) b s' = Ok tt s'' ∧ calls s'' = calls s' ∧ holds_buf s s'' l buf'
    ∧ length buf' = length buf ∧ take (off + length b) buf' = take off buf ++ b.
Proof.
  intros Hb Hlen. set (buf' := take off buf ++ b ++ drop (off + length b) buf).
  assert (Hl : length buf' = length buf) by (subst buf'; rewrite !length_app, length_take, length_drop; lia).
  destruct (put_buf _ _ _ _ buf' Hb) as (s'' & E & Hc & Hb'); [lia|].
  exists s'', buf'. split.
  { unfold store_bytes. run_step (ZUO_STRING_PTR_ok _ _ _ (holds_buf_heap _ _ _ _ Hb)). rewrite Nat2Z.id.
    destruct (Nat.leb_spec (off + length b) (length buf)); [exact E|lia]. }
  split; [done|]. split; [done|]. split; [done|]. subst buf'. rewrite app_assoc. apply take_app_length'.
  rewrite length_app, length_take. lia.
Qed.

(** What a read of [amount] bytes, of all for a negative one, is to take of the
    rest [R] when it has taken [i]. *)
Definition wanted (amount : Z) (i : nat) (R : list Z) : list Z :=
  if amount <? 0 then R else take (Z.to_nat amount - i) R.

Lemma wanted_drop amount i k R : drop k (wanted amount i R) = wanted amount (i + k) (drop k R).
Proof. unfold wanted. case_match; [done|]. rewrite skipn_firstn_comm. f_equal. lia. Qed.

Lemma wanted_nil amount i : wanted amount i [] = [].
Proof. unfold wanted. case_match; [done|]. apply take_nil. Qed.

Lemma wanted_none amount (i : nat) R : 0 ≤ amount ≤ Z.of_nat i → wanted amount i R = [].
Proof. intros H. unfold wanted. case_match; [lia|]. by replace (Z.to_nat amount - i)%nat with 0%nat by lia. Qed.

Lemma wanted_prefix amount (i : nat) out R :
  out `prefix_of` R → (0 ≤ amount → Z.of_nat (i + length out) ≤ amount) →
  wanted amount i R = out ++ wanted amount (i + length out) (drop (length out) R).
Proof.
  intros [R' ->] Hi. rewrite <- wanted_drop. rewrite <- (take_drop (length out) (wanted amount i (out ++ R'))) at 1. f_equal.
  unfold wanted. case_match; [by rewrite take_app_length|]. rewrite take_take. rewrite Nat.min_l by lia. by rewrite take_app_length.
Qed.

Definition chunk (sz offset : Z) : Z := if 4096 <? sz - offset then 4096 else sz - offset.

Lemma chunk_bounds sz i : i < sz → 1 ≤ chunk sz i ≤ sz - i.
Proof. intros H. unfold chunk. case_match; lia. Qed.

(** The calls of [zuo_drain]. *)
Definition a_read (fd : Z) (c : syscall) : Prop := ∃ amt, c = Sread fd amt ∧ 1 ≤ amt ≤ 4096.

(** The size of the buffer when it is full. *)
Definition next_size (amount sz : Z) : Z := if (0 <=? amount) && (amount <? sz * 2) then amount else sz * 2.

Lemma next_size_ok amount sz :
  1 ≤ sz → (0 ≤ amount → sz ≤ amount) →
  sz ≤ next_size amount sz ∧ (0 ≤ amount → next_size amount sz ≤ amount) ∧ (next_size amount sz = sz → amount = sz).
Proof.
  intros H1 H2. unfold next_size. destruct (Z.leb_spec 0 amount), (Z.ltb_spec amount (sz * 2)); cbn; lia.
Qed.

(** The state of the loop of [zuo_drain] that has read [got]. *)
Record draining (s σ : st) (amount : Z) (l : loc) (buf got : list Z) (sz : Z) : Prop := {
  dr_buf : holds_buf s σ l buf;
  dr_sz : sz = Z.of_nat (length buf);
  dr_len : Z.of_nat (length got) ≤ sz;
  dr_got : take (length got) buf = got;
  dr_amount : 0 ≤ amount → sz ≤ amount;
  dr_full : Z.of_nat (length got) = sz → amount = sz }.

(** One block read: the loop goes on in a buffer with room, unless all is
    read. *)
Lemma drain_store s σ amount l buf got sz out :
  draining s σ amount l buf got sz → out ≠ [] → Z.of_nat (length got + length out) ≤ sz →
  let off := Z.of_nat (length got) + Z.of_nat (length out) in
  ∃ σ1 l' buf' sz' σ',
    store_bytes l (Z.of_nat (length got)) out σ = Ok tt σ1
    ∧ (∀ A (k : loc → Z → M A),
        (if off =? sz then
           let new_sz := if (0 <=? amount) && (amount <? sz * 2) then amount else sz * 2 in
           new_s <- zuo_uninitialized_string new_sz ;;
           b <- ZUO_STRING_PTR l ;;
           store_bytes new_s 0 (take (Z.to_nat sz) b) ;;;
           k new_s new_sz
         else k l sz) σ1 = k l' sz' σ')
    ∧ calls σ' = calls σ ∧ draining s σ' amount l' buf' (got ++ out) sz'.
Proof.
  intros [Hb -> Hlen Hgot Ham Hfull] Hout Hsz. cbn zeta.
  assert (Hlo : (0 < length out)%nat) by (destruct out; [done|cbn; lia]).
  destruct (store_bytes_ok _ _ _ _ (length got) out Hb) as (σ1 & buf1 & E1 & Hc1 & Hb1 & Hl1 & Ht1); [lia|].
  rewrite Hgot in Ht1. exists σ1. destruct (Z.eqb_spec (Z.of_nat (length got) + Z.of_nat (length out)) (Z.of_nat (length buf))) as [He|Hne].
  2:{ exists l, buf1, (Z.of_nat (length buf)), σ1. split; [done|]. split; [done|]. split; [done|].
      split; rewrite ?length_app; try done; lia. }
  assert (Eb : buf1 = got ++ out) by (rewrite <- Ht1; symmetry; apply take_ge; lia).
  destruct (next_size_ok amount (Z.of_nat (length buf))) as (Hn1 & Hn2 & Hn3); [lia|done|].
  fold (next_size amount (Z.of_nat (length buf))). set (sz' := next_size _ _) in *.
  destruct (new_buf _ _ _ _ sz' Hb1) as (l' & σ2 & E2 & Hc2 & Hb2 & Hb1'); [lia|].
  destruct (store_bytes_ok _ _ _ _ 0 buf1 Hb2) as (σ3 & buf3 & E3 & Hc3 & Hb3 & Hl3 & Ht3); [rewrite length_replicate; lia|].
  exists l', buf3, sz', σ3. split; [done|]. split.
  { intros A k. rewrite <- Hl1. cbn zeta. fold (next_size amount (Z.of_nat (length buf1))). rewrite Hl1. fold sz'.
    run_step E2. run_step (ZUO_STRING_PTR_ok _ _ _ (holds_buf_heap _ _ _ _ Hb1')).
    rewrite take_ge by lia. by run_step E3. }
  split; [congruence|]. rewrite length_replicate in Hl3. rewrite <- Eb. cbn in Ht3.
  split; try done; try lia. all: rewrite Eb, length_app; lia.
Qed.

Lemma drain_loop_ok fuel fd F N s `{!Stream fd F N} amount n : ∀ l buf got sz σ,
  (N < fuel)%nat → (length (wanted amount (length got) (rest fd F (calls σ))) < n)%nat →
  draining s σ amount l buf got sz →
  ∃ l' σ' buf' sz' new,
    let W := wanted amount (length got) (rest fd F (calls σ)) in
    drain_loop os fuel n fd false amount l sz (Z.of_nat (length got)) σ
      = Ok (l', Z.of_nat (length (got ++ W)), amount) σ'
    ∧ draining s σ' amount l' buf' (got ++ W) sz'
    ∧ calls σ' = calls σ ++ new ∧ Forall (a_read fd) new
    ∧ rest fd F (calls σ') = drop (length W) (rest fd F (calls σ)).
Proof.
  induction n as [|n IH]; intros l buf got sz σ HN Hn Hd; [lia|].
  cbn [drain_loop]. destruct ((amount <? 0) || (Z.of_nat (length got) <? amount)) eqn:Eg.
  2:{ exists l, σ, buf, sz, []. rewrite wanted_none by lia. cbn zeta. rewrite !app_nil_r. by rewrite drop_0. }
  cbn zeta. fold (chunk sz (Z.of_nat (length got))).
  destruct Hd as [Hb Hsz Hlen Hgot Ham Hfull].
  assert (Hlt : Z.of_nat (length got) < sz) by (destruct (Z.eq_dec (Z.of_nat (length got)) sz) as [E|]; [specialize (Hfull E)|]; lia).
  pose proof (chunk_bounds _ _ Hlt) as Hch. set (amt := chunk sz _) in *.
  assert (Hamt : amt ≤ 4096) by (subst amt; unfold chunk; case_match; lia).
  rewrite (bind_ok (ret 0) _ _ _ _ eq_refl).
  destruct (stream_read (calls σ) amt) as (m & h' & out & Han & Hm & Hout & Hpre & Hend); [lia|].
  destruct (answered_moved (given fd) _ _ _ _ _ (given_errno fd) Han) as [Eh _].
  pose proof (rest_read _ F _ _ _ _ _ Han) as Hrest.
  assert (Hcalls : Forall (a_read fd) (replicate (S m) (Sread fd amt))) by (apply Forall_replicate; exists amt; split; [done|lia]).
  run_step (eintr_retry_ok _ _ _ _ _ Han fuel σ eq_refl ltac:(lia)). rewrite bind_assoc.
  assert (Hd' : draining s (set_calls h' σ) amount l buf got sz) by (split; try done; by apply holds_buf_call).
  destruct (decide (out = [])) as [->|Hne].
  { specialize (Hend eq_refl). cbn in Hrest. rewrite drop_0 in Hrest.
    destruct (store_bytes_ok _ _ _ _ (length got) [] (dr_buf _ _ _ _ _ _ _ Hd')) as (σ1 & buf1 & E1 & Hc1 & Hb1 & Hl1 & Ht1); [cbn; lia|].
    run_step E1. rewrite (bind_ok (ret (0, amount)) _ _ _ _ eq_refl). cbn beta iota. rewrite (bind_ok (ret tt) _ _ _ _ eq_refl).
    exists l, σ1, buf1, sz, (replicate (S m) (Sread fd amt)). rewrite Hend, wanted_nil, app_nil_r. cbn zeta. split; [done|].
    rewrite Hc1. autorewrite with zuo_sys. split.
    - split; try done; [lia|]. cbn in Ht1. rewrite Nat.add_0_r, app_nil_r in Ht1. congruence.
    - rewrite Eh at 1. split; [done|]. split; [done|]. cbn. by rewrite Hrest, Hend. }
  destruct (drain_store _ _ _ _ _ _ _ out Hd' Hne) as (σ1 & l2 & buf2 & sz2 & σ2 & E1 & E2 & Hc2 & Hd2); [lia|].
  run_step E1. rewrite (bind_ok (ret (Z.of_nat (length out), amount)) _ _ _ _ eq_refl). cbn beta iota.
  rewrite (bind_ok (ret tt) _ _ _ _ eq_refl). cbn beta iota.
  assert (Hlo : (0 < length out)%nat) by (destruct out; [done|cbn; lia]).
  destruct (Z.ltb_spec (Z.of_nat (length out)) 0); [lia|]. destruct (Z.eqb_spec (Z.of_nat (length out)) 0); [lia|].
  cbn zeta in E2. rewrite (E2 _ (λ l sz, drain_loop os fuel n fd false amount l sz (Z.of_nat (length got) + Z.of_nat (length out)))).
  autorewrite with zuo_sys in Hc2.
  assert (Hw : wanted amount (length got) (rest fd F (calls σ)) = out ++ wanted amount (length (got ++ out)) (rest fd F (calls σ2))).
  { rewrite Hc2, Hrest, length_app. apply wanted_prefix; [done|]. lia. }
  destruct (IH l2 buf2 (got ++ out) sz2 σ2) as (l' & σ' & b' & sz' & new & E & Hd3 & Hc3 & HF & Hr3); [done| |done|].
  { rewrite Hw, length_app in Hn. lia. }
  exists l', σ', b', sz', (replicate (S m) (Sread fd amt) ++ new). cbn zeta. rewrite Hw, (app_assoc got out).
  rewrite length_app, Nat2Z.inj_add in E at 1. split; [exact E|]. split; [done|]. split; [by rewrite Hc3, Hc2, Eh, <- app_assoc|].
  split; [by apply Forall_app_2|]. by rewrite Hr3, (length_app out), <- drop_drop, <- Hrest, Hc2.
Qed.

(** [zuo_drain] of an amount, or of everything for -1 *)
Lemma zuo_drain_ok fuel fd F N s a :
  Stream fd F N → mem_ok (s_mem s) → (N < fuel)%nat → -1 ≤ a →
  let W := wanted a 0 (rest fd F (calls s)) in
  (length W < fuel)%nat →
  ∃ l s' hn new, zuo_drain os fuel fd a s = Ok (if decide (W = [] ∧ 0 < a) then o_eof (s_img s) else l) s' ∧ io_grows s s' hn
    ∧ calls s' = calls s ++ new ∧ Forall (a_read fd) new
    ∧ rest fd F (calls s') = drop (length W) (rest fd F (calls s))
    ∧ hn !! l = Some (Ostring W).
Proof.
  intros HS Hok HN Ha W HW. unfold zuo_drain. cbn zeta.
  assert (Ha2 : (a =? -2) = false) by lia.
  set (sz := if (0 <=? a) && (a <? 256) then a else 256).
  assert (Hsz : 0 ≤ sz ∧ (0 ≤ a → sz ≤ a) ∧ (sz = 0 → a = 0)) by (subst sz; destruct (Z.leb_spec 0 a), (Z.ltb_spec a 256); cbn; lia).
  destruct (first_buf s sz Hok) as (l0 & σ0 & E0 & Hc0 & Hb0); [lia|]. run_step E0.
  destruct (drain_loop_ok fuel fd F N s a fuel l0 (replicate (Z.to_nat sz) 0) [] sz σ0 HN) as (l & σ & buf & sz' & new & E & Hd & Hc & HF & Hr).
  { by rewrite Hc0. }
  { split; try done; rewrite ?length_replicate; cbn; lia. }
  cbn zeta in E. rewrite Hc0 in E, Hd, Hr, Hc. cbn [length app] in E, Hd, Hr. fold W in E, Hd, Hr. rewrite Ha2. run_step E.
  pose proof (dr_buf _ _ _ _ _ _ _ Hd) as Hb. run_step (ZUO_STRING_PTR_ok _ _ _ (holds_buf_heap _ _ _ _ Hb)).
  rewrite Nat2Z.id, (dr_got _ _ _ _ _ _ _ Hd).
  destruct (put_buf _ _ _ _ W Hb) as (σ' & E' & Hc' & hn & Hg & Hl).
  { pose proof (dr_len _ _ _ _ _ _ _ Hd). pose proof (dr_sz _ _ _ _ _ _ _ Hd). lia. }
  run_step E'.
  exists l, σ', hn, new. rewrite Hc'. split; [|by do 4 (split; [done|])].
  pose proof (gr_img _ _ _ Hg) as Hi. rewrite s_img_set_calls in Hi. rewrite Ha2, orb_false_r. clearbody W.
  destruct W as [|c W]; cbn [length Z.of_nat Z.eqb andb].
  - destruct (Z.ltb_spec 0 a); [rewrite decide_True by done; unfold zi; by rewrite <- Hi|].
    by rewrite decide_False by (intros [_ ?]; lia).
  - rewrite decide_False by (intros [? _]; done). done.
Qed.

(** What [fd-read] takes its argument for: all for [eof], or so many bytes. *)
Inductive read_arg (s : st) : loc → Z → Prop :=
  | ra_eof : read_arg s (o_eof (s_img s)) (-1)
  | ra_int l i : s_heap s !! l = Some (Ointeger i) → 0 ≤ i → read_arg s l i.

Lemma read_amount_ok who s l a : image_ok s → read_arg s l a → read_amount who l s = Ok a s.
Proof.
  intros Him Ha. unfold read_amount. destruct Ha as [|l i Hl Hi]; [by run_step (is_zi_eq o_eof _ s eq_refl)|].
  assert (Hne : l ≠ o_eof (s_img s)).
  { intros ->. pose proof (proj1 (Forall_forall _ _) (im_single _ Him) (o_eof (s_img s)) ltac:(by unfold singletons; set_solver)). congruence. }
  assert (Hi' : fd_number l s = Ok i s).
  { unfold fd_number. run_step (has_tag_ok s l _ zuo_integer_tag Hl). exact (ZUO_INT_I_ok _ _ _ Hl). }
  run_step (is_zi_ne o_eof l s Hne). run_step (has_tag_ok s l _ zuo_symbol_tag Hl).
  rewrite bool_decide_false by done. rewrite (bind_ok (ret false) _ _ _ _ eq_refl). cbn beta iota. run_step Hi'.
  destruct (Z.ltb_spec i 0); [lia|done].
Qed.

(** C24. [fd-read] returns exactly the next bytes of a stream: with a
    descriptor whose reads give at least one byte until the stream has ended,
    however they cut the stream up and however many interruptions there are,
    it returns after finitely many reads, of at most 4096 bytes each, the rest
    of the stream for [eof] and its next bytes for an amount, fewer only when
    the stream ends, in a new string, or [eof] when a positive amount is wanted
    and nothing is left.  The stream has advanced by what was returned, and
    nothing that was allocated before has changed. *)
Theorem fd_read_delivers fuel fd F N s fd_h amount id a :
  Stream fd F N → image_ok s → (N < fuel)%nat → read_arg s amount a →
  let W := wanted a 0 (rest fd F (calls s)) in
  (length W < fuel)%nat →
  s_heap s !! fd_h = Some (Ohandle id zuo_handle_open_fd_in_status fd) →
  ∃ l s' hn new, zuo_fd_read os fuel fd_h amount s = Ok l s' ∧ io_grows s s' hn
    ∧ calls s' = calls s ++ new ∧ Forall (a_read fd) new
    ∧ rest fd F (calls s') = drop (length W) (rest fd F (calls s))
    ∧ (if decide (W = [] ∧ 0 < a) then l = o_eof (s_img s) else hn !! l = Some (Ostring W)).
Proof.
  intros HS Him HN Ha W HW Hh. unfold zuo_fd_read. cbn zeta. run_step (is_handle_with_ok is_in _ _ _ _ _ Hh). cbn [is_in negb].
  run_step (read_amount_ok (bytes_of "fd-read") _ _ _ Him Ha). run_step (ZUO_HANDLE_RAW_ok _ _ _ _ _ Hh).
  destruct (zuo_drain_ok fuel fd F N s a HS (im_mem _ Him) HN) as (l & s' & hn & new & E & Hg & Hc & HF & Hr & Hl); [destruct Ha; lia|done|].
  fold W in E, Hr, Hl. exists (if decide (W = [] ∧ 0 < a) then o_eof (s_img s) else l), s', hn, new.
  do 5 (split; [done|]). by case_decide.
Qed.
End os.

(** ** A concrete system

    Descriptor 5 takes at most three bytes of a write, and only when the call is
    made a second time: the first one is interrupted.  Descriptor 3 gives the
    bytes of a greeting, one byte a read. *)

Definition sample_file : list Z := bytes_of "hello, world".

Fixpoint reads_of (fd : Z) (h : list syscall) : nat :=
  match h with
  | [] => 0
  | Sread fd' _ :: h' => if decide (fd' = fd) then S (reads_of fd h') else reads_of fd h'
  | _ :: h' => reads_of fd h'
  end.

Definition sample_os (h : list syscall) : sysret :=
  match reverse h with
  | Swrite fd b :: h' =>
      if bool_decide (hd_error h' = Some (Swrite fd b)) then Sret (Z.min 3 (Z.of_nat (length b))) [] else Serrno EINTR
  | Sread fd amt :: h' =>
      let out := take 1 (drop (reads_of fd h') sample_file) in Sret (Z.of_nat (length out)) out
  | _ => Serrno EAGAIN
  end.

Lemma sample_os_write h fd b :
  sample_os (h ++ [Swrite fd b])
  = if bool_decide (hd_error (reverse h) = Some (Swrite fd b)) then Sret (Z.min 3 (Z.of_nat (length b))) [] else Serrno EINTR.
Proof. unfold sample_os. by rewrite reverse_snoc. Qed.

#[export] Instance sample_writable fd : Writable sample_os fd 1.
Proof.
  intros h b Hb. assert (Hl : 1 ≤ Z.min 3 (Z.of_nat (length b)) ≤ Z.of_nat (length b)) by (destruct b; [done|cbn [length]; lia]).
  pose proof (sample_os_write h fd b) as E. case_bool_decide as Hd.
  - exists 0%nat, (h ++ [Swrite fd b]), (Z.min 3 (Z.of_nat (length b))), []. split; [by apply an_now|]. split; [lia|done].
  - exists 1%nat, ((h ++ [Swrite fd b]) ++ [Swrite fd b]), (Z.min 3 (Z.of_nat (length b))), [].
    split; [|split; [lia|done]]. apply an_again; [done|]. apply an_now; [|done].
    rewrite sample_os_write, reverse_snoc. cbn. by rewrite bool_decide_true.
Qed.

Lemma reads_of_app fd h h' : reads_of fd (h ++ h') = (reads_of fd h + reads_of fd h')%nat.
Proof. induction h as [|[] h IH]; cbn; try done. case_decide; cbn; by rewrite IH. Qed.

Lemma reads_of_reverse fd h : reads_of fd (reverse h) = reads_of fd h.
Proof.
  induction h as [|c h IH]; [done|]. rewrite reverse_cons, reads_of_app, IH.
  destruct c; cbn; try lia. case_decide; lia.
Qed.

(** A system whose reads give one byte of a file each. *)
Definition bytewise (F : list Z) (os : list syscall → sysret) : Prop :=
  ∀ h fd amt, os (h ++ [Sread fd amt]) = let out := take 1 (drop (reads_of fd h) F) in Sret (Z.of_nat (length out)) out.

Lemma bytewise_given F os fd h : bytewise F os → moved os (given fd) [] h = take (reads_of fd h) F.
Proof.
  intros Hos. induction h as [|c h IH] using rev_ind; [done|]. rewrite moved_app, IH, app_nil_l, reads_of_app. cbn [moved].
  rewrite app_nil_r.
  destruct c; cbn; rewrite ?Nat.add_0_r, ?app_nil_r; try done. rewrite Hos. cbn. case_decide as Hd.
  - subst. rewrite <- take_take_drop. done.
  - by rewrite Nat.add_0_r, app_nil_r.
Qed.

Lemma bytewise_stream F os fd : bytewise F os → Stream os fd F 0.
Proof.
  intros Hos h amt Hamt. set (out := take 1 (drop (reads_of fd h) F)).
  exists 0%nat, (h ++ [Sread fd amt]), out. split; [apply an_now; [apply Hos|done]|]. split; [lia|].
  assert (Hr : rest os fd F h = drop (reads_of fd h) F).
  { unfold rest. rewrite (bytewise_given _ _ _ _ Hos), length_take. destruct (Nat.le_gt_cases (reads_of fd h) (length F)) as [H|H].
    - by rewrite Nat.min_l by done.
    - rewrite Nat.min_r by lia. by rewrite !drop_ge by lia. }
  rewrite Hr. split; [subst out; rewrite length_take; lia|]. split; [eexists; symmetry; apply take_drop|].
  subst out. by destruct (drop (reads_of fd h) F).
Qed.

#[export] Instance sample_stream fd : Stream sample_os fd sample_file 0.
Proof. apply bytewise_stream. intros h fd' amt. unfold sample_os. rewrite reverse_snoc. by rewrite reads_of_reverse. Qed.

(** Handles for the descriptors 3 and 5, a string of eight bytes and the number
    5, made in the booted state. *)
Definition make_files : M (loc * loc * loc * loc) :=
  i <- zuo_handle 3 zuo_handle_open_fd_in_status ;;
  o <- zuo_handle 5 zuo_handle_open_fd_out_status ;;
  str <- zuo_string (bytes_of "greeting") ;;
  five <- zuo_integer 5 ;;
  ret (i, o, str, five).

Definition files : (loc * loc * loc * loc) * st :=
  match make_files booted with Ok r s => (r, s) | _ => ((0, 0, 0, 0), booted) end.
Definition files_st : st := snd files.
Definition files_in : loc := fst (fst (fst (fst files))).
Definition files_out : loc := snd (fst (fst (fst files))).
Definition files_str : loc := snd (fst (fst files)).
Definition files_five : loc := snd (fst files).

Lemma files_ok : image_ok files_st.
Proof. apply image_okb_sound; [apply mem_okb_sound; vm_compute; reflexivity|vm_compute; reflexivity]. Qed.

Lemma files_out_handle :
  s_heap files_st !! files_out = Some (Ohandle (zuo_handle_count files_st - 1) zuo_handle_open_fd_out_status 5).
Proof. vm_compute. reflexivity. Qed.
Lemma files_in_handle :
  s_heap files_st !! files_in = Some (Ohandle (zuo_handle_count files_st - 2) zuo_handle_open_fd_in_status 3).
Proof. vm_compute. reflexivity. Qed.
Lemma files_string : s_heap files_st !! files_str = Some (Ostring (bytes_of "greeting")).
Proof. vm_compute. reflexivity. Qed.
Lemma files_number : s_heap files_st !! files_five = Some (Ointeger 5).
Proof. vm_compute. reflexivity. Qed.

(** Four writes, the first one made twice. *)
Lemma fd_write_delivers_witness :
  ∃ new, zuo_fd_write sample_os 20 files_out files_str files_st
      = Ok (o_void (s_img files_st)) (set_calls (calls files_st ++ new) files_st)
    ∧ moved sample_os (taken 5) (calls files_st) new = bytes_of "greeting" ∧ Forall (a_write 5) new.
Proof.
  refine (fd_write_delivers sample_os 20 5 1 files_st files_out files_str _ (bytes_of "greeting") (sample_writable 5)
    _ _ files_out_handle files_string); apply (proj1 (Nat.ltb_lt _ _)); vm_compute; reflexivity.
Defined.

(** The first five bytes, one at a time. *)
Lemma fd_read_delivers_witness :
  ∃ l s' hn new, zuo_fd_read sample_os 20 files_in files_five files_st = Ok l s' ∧ io_grows files_st s' hn
    ∧ calls s' = calls files_st ++ new ∧ Forall (a_read 3) new
    ∧ rest sample_os 3 sample_file (calls s') = drop (length (wanted 5 0 (rest sample_os 3 sample_file (calls files_st))))
        (rest sample_os 3 sample_file (calls files_st))
    ∧ (if decide (wanted 5 0 (rest sample_os 3 sample_file (calls files_st)) = [] ∧ 0 < 5)
       then l = o_eof (s_img files_st)
       else hn !! l = Some (Ostring (wanted 5 0 (rest sample_os 3 sample_file (calls files_st))))).
Proof.
  refine (fd_read_delivers sample_os 20 3 sample_file 0 files_st files_in files_five _ 5 (sample_stream 3) files_ok
    _ (ra_int _ _ _ files_number _) _ files_in_handle).
  - apply (proj1 (Nat.ltb_lt _ _)). reflexivity.
  - apply (proj1 (Z.leb_le _ _)). reflexivity.
  - apply (proj1 (Nat.ltb_lt _ _)). vm_compute. reflexivity.
Defined.
