(* ===== verification/Keeps.v ===== *)
(** * States that keep what there was

    The relation between the states before and after an operation that only
    adds objects, whatever it does to the tables and to the system: what the
    invariants need of it, handles, the table of descriptors, and the signals,
    which are blocked exactly while the counter is positive. *)

From S2P Require Import Prelude Sys Heap Alloc Gc GcCorrect Objects Trie Lists ImageOk Intern Prims Path Init Fasl Boot HashSpec ListSpec PathBytes PathSpec Files Processes FdSpec.

(** ** States that keep what there was *)

Record keeps (s s' : st) : Prop := {
  ke_heap : s_heap s ⊆ s_heap s';
  ke_ok : mem_ok (s_mem s');
  ke_img : s_img s' = s_img s }.

Lemma keeps_refl s : mem_ok (s_mem s) → keeps s s.
Proof. by split. Qed.

Lemma keeps_trans s1 s2 s3 : keeps s1 s2 → keeps s2 s3 → keeps s1 s3.
Proof. intros [H1 H2 H3] [H4 H5 H6]. split; [by etransitivity|done|congruence]. Qed.

Lemma keeps_grows s s' hn : grows s s' hn → keeps s s'.
Proof. intros Hg. split; [by eapply grows_subseteq|apply Hg|apply Hg]. Qed.

Lemma keeps_lookup s s' l o : keeps s s' → s_heap s !! l = Some o → s_heap s' !! l = Some o.
Proof. intros H Ho. eapply lookup_weaken; [exact Ho|apply H]. Qed.

Lemma keeps_base s s' : base_ok s → keeps s s' → base_ok s'.
Proof.
  intros [_ [o Ho]] H. split; [apply H|]. rewrite (ke_img _ _ H). exists o. by eapply keeps_lookup.
Qed.

Lemma keeps_hash s s' t m : keeps s s' → hash_at s t m → hash_at s' t m.
Proof.
  intros H [Hne Ht]. unfold hash_at. rewrite (ke_img _ _ H). split; [done|]. eapply trie_at_weaken; [apply H|done].
Qed.

Lemma keeps_list s s' nl l vs : keeps s s' → is_list (s_heap s) nl l vs → is_list (s_heap s') nl l vs.
Proof. intros H. apply is_list_weaken, H. Qed.

Lemma keeps_list_pre nl s s' : list_pre nl s → keeps s s' → list_pre nl s'.
Proof.
  intros [-> [o Ho] _] H. split; [by rewrite (ke_img _ _ H)| |apply H]. exists o. by eapply keeps_lookup.
Qed.

(** ** The system's part of a state *)

Definition suspended (s : st) : Z := zuo_signal_suspended (s_sys s).
Definition set_signals (h : list syscall) (n : Z) (s : st) : st := set_s_sys (Sys h n (sys_stdout (s_sys s))) s.

Lemma calls_signals h n s : calls (set_signals h n s) = h.
Proof. by destruct s. Qed.
Lemma suspended_signals h n s : suspended (set_signals h n s) = n.
Proof. by destruct s. Qed.
Lemma s_heap_signals h n s : s_heap (set_signals h n s) = s_heap s.
Proof. by destruct s. Qed.
Lemma s_img_signals h n s : s_img (set_signals h n s) = s_img s.
Proof. by destruct s. Qed.
Lemma s_rt_signals h n s : s_rt (set_signals h n s) = s_rt s.
Proof. by destruct s. Qed.
Lemma s_mem_signals h n s : s_mem (set_signals h n s) = s_mem s.
Proof. by destruct s. Qed.
Lemma set_signals_twice h n h' n' s : set_signals h n (set_signals h' n' s) = set_signals h n s.
Proof. by destruct s. Qed.
Lemma set_signals_id s : set_signals (calls s) (suspended s) s = s.
Proof. by destruct s as [? ? ? ? ? []]. Qed.
Lemma calls_set_rt f s : calls (set_s_rt f s) = calls s.
Proof. by destruct s. Qed.
Lemma suspended_set_rt f s : suspended (set_s_rt f s) = suspended s.
Proof. by destruct s. Qed.
Lemma s_heap_set_rt f s : s_heap (set_s_rt f s) = s_heap s.
Proof. by destruct s. Qed.
Lemma img_set_runtime f s : s_img (set_s_rt f s) = s_img s.
Proof. by destruct s. Qed.
Lemma s_mem_set_rt f s : s_mem (set_s_rt f s) = s_mem s.
Proof. by destruct s. Qed.
Lemma rt_set_runtime f s : s_rt (set_s_rt f s) = f.
Proof. by destruct s. Qed.
Lemma suspended_set_calls h s : suspended (set_calls h s) = suspended s.
Proof. by destruct s as [? ? ? ? ? []]. Qed.
#[export] Hint Rewrite calls_signals suspended_signals s_heap_signals s_img_signals s_rt_signals s_mem_signals
  set_signals_twice calls_set_rt suspended_set_rt s_heap_set_rt img_set_runtime s_mem_set_rt rt_set_runtime suspended_set_calls : zuo_sys.

Lemma keeps_signals s s' h n : keeps s s' → keeps s (set_signals h n s').
Proof. intros [H1 H2 H3]. by split; autorewrite with zuo_sys. Qed.
Lemma keeps_set_rt s s' r : keeps s s' → keeps s (set_s_rt r s').
Proof. intros [H1 H2 H3]. by split; autorewrite with zuo_sys. Qed.
Lemma keeps_set_calls s s' h : keeps s s' → keeps s (set_calls h s').
Proof. intros [H1 H2 H3]. by split; autorewrite with zuo_sys. Qed.
#[export] Hint Resolve keeps_refl keeps_signals keeps_set_rt keeps_set_calls : zuo_sys.

Lemma grows_suspended s s' hn : grows s s' hn → suspended s' = suspended s.
Proof. intros Hg. unfold suspended. by rewrite (gr_out _ _ _ Hg). Qed.

(** ** Signals *)

(** Whether signals are blocked after some calls. *)
Definition mask (b : bool) (c : syscall) : bool :=
  match c with Sblock => true | Sunblock => false | _ => b end.
Definition blocked (h : list syscall) : bool := foldl mask false h.

(** The counter of suspensions says whether signals are blocked. *)
Definition signals_ok (s : st) : Prop := 0 ≤ suspended s ∧ blocked (calls s) = (0 <? suspended s).

Lemma blocked_app h h' : blocked (h ++ h') = foldl mask (blocked h) h'.
Proof. apply foldl_app. Qed.

(** The calls that block and unblock at the outermost level. *)
Definition block_call (n : Z) : list syscall := if n =? 0 then [Sblock] else [].
Definition unblock_call (n : Z) : list syscall := if n =? 0 then [Sunblock] else [].

Section signals.
Variable os : list syscall → sysret.

Lemma zuo_suspend_signal_ok s :
  suspended s ≠ INT_MAX →
  zuo_suspend_signal os s
  = Ok (o_void (s_img s)) (set_signals (calls s ++ block_call (suspended s)) (suspended s + 1) s).
Proof.
  destruct s as [? ? ? ? ? [h n o]]. unfold suspended, calls. cbn [s_sys zuo_signal_suspended sys_calls]. intros Hn.
  unfold zuo_suspend_signal, signal_suspended, bind at 1. cbn [s_sys zuo_signal_suspended].
  rewrite (proj2 (Z.eqb_neq _ _) Hn). unfold block_call. destruct (n =? 0); cbn; [done|]. by rewrite app_nil_r.
Qed.

Lemma zuo_resume_signal_ok s :
  0 < suspended s →
  zuo_resume_signal os s
  = Ok (o_void (s_img s)) (set_signals (calls s ++ unblock_call (suspended s - 1)) (suspended s - 1) s).
Proof.
  destruct s as [? ? ? ? ? [h n o]]. unfold suspended, calls. cbn [s_sys zuo_signal_suspended sys_calls]. intros Hn.
  unfold zuo_resume_signal, signal_suspended, bind at 1. cbn [s_sys zuo_signal_suspended].
  destruct (Z.eqb_spec n 0); [lia|]. unfold unblock_call. destruct (n - 1 =? 0); cbn; [done|]. by rewrite app_nil_r.
Qed.

(** What is made between a suspension and the matching resumption. *)
Lemma signals_bracket s l :
  signals_ok s → foldl mask true l = true →
  blocked (calls s ++ block_call (suspended s) ++ l ++ unblock_call (suspended s)) = (0 <? suspended s).
Proof.
  intros [H1 H2] Hl. rewrite blocked_app, H2, !foldl_app. unfold block_call, unblock_call.
  destruct (Z.eqb_spec (suspended s) 0) as [->|]; [done|]. cbn. by rewrite (proj2 (Z.ltb_lt _ _)) by lia.
Qed.
End signals.

(** ** Handles and descriptors *)

Lemma zuo_handle_new raw status s :
  mem_ok (s_mem s) →
  ∃ p s', zuo_handle raw status s = Ok p s' ∧ keeps s s' ∧ s_heap s !! p = None
    ∧ s_heap s' !! p = Some (Ohandle (zuo_handle_count s) status raw)
    ∧ s_rt s' = s_rt s ∧ s_sys s' = s_sys s ∧ zuo_handle_count s' = zuo_handle_count s + 1.
Proof.
  intros Hok. unfold zuo_handle, next_handle_id, bind. cbn beta iota.
  set (s0 := set_zuo_handle_count _ s).
  assert (Es : s_mem s0 = s_mem s ∧ s_img s0 = s_img s ∧ s_rt s0 = s_rt s ∧ s_sys s0 = s_sys s
    ∧ zuo_handle_count s0 = zuo_handle_count s + 1 ∧ s_heap s0 = s_heap s) by (by destruct s).
  destruct Es as (E1 & E2 & E3 & E4 & E5 & E6).
  destruct (zuo_new_allocd (Ohandle (zuo_handle_count s) status raw) sizeof_handle s0) as (p & s' & E & [Hf Hp Hh Hok' Hi Hr Ho] & _ & Hc);
    [by rewrite E1|done|done|].
  exists p, s'. rewrite E6 in Hf, Hh. split; [exact E|]. split.
  - split; [|done|congruence]. rewrite Hh. by apply insert_subseteq.
  - split; [done|]. split; [rewrite Hh; apply lookup_insert_eq|]. split_and!; congruence.
Qed.

Lemma image_base s : image_ok s → base_ok s.
Proof.
  intros Him. split; [apply Him|]. exists Osingleton. apply (proj1 (Forall_forall _ _) (im_single _ Him)).
  by left.
Qed.

Lemma not_undefined s l o : image_ok s → s_heap s !! l = Some o → o ≠ Osingleton → l ≠ o_undefined (s_img s).
Proof.
  intros Him Hl Ho ->. pose proof (proj1 (Forall_forall _ _) (im_single _ Him) (o_undefined (s_img s)) ltac:(by left)). congruence.
Qed.

Lemma image_keeps s s' : image_ok s → keeps s s' → image_ok s'.
Proof.
  intros [H1 H2 H3 H4 H5 H6] Hk. pose proof (ke_img _ _ Hk) as Hi.
  assert (Ho : ∀ p l, obj_is (s_heap s) p l = true → obj_is (s_heap s') p l = true).
  { intros p l. unfold obj_is. destruct (s_heap s !! l) as [o|] eqn:E; [|done]. by rewrite (keeps_lookup _ _ _ _ Hk E). }
  split; rewrite ?Hi; try done; [apply Hk| |by apply Ho..|].
  - eapply Forall_impl; [exact H2|]. intros l. exact (keeps_lookup _ _ _ _ Hk).
  - eapply Forall_impl; [exact H6|]. intros l. apply Ho.
Qed.

(** The table of descriptors that are not for child processes. *)
Definition descriptors (s : st) (m : fmap_t) : Prop := hash_at s (o_fd_table (s_rt s)) m.

Lemma o_fd_set t r : o_fd_table (set_o_fd_table t r) = t.
Proof. by destruct r. Qed.
Lemma o_cleanable_set_fd t r : o_cleanable_table (set_o_fd_table t r) = o_cleanable_table r.
Proof. by destruct r. Qed.
#[export] Hint Rewrite o_fd_set o_cleanable_set_fd : zuo_sys.

(** A new handle of a descriptor, entered into the table. *)
Lemma zuo_fd_handle_ok fd status is_pipe s m :
  image_ok s → descriptors s m → 0 ≤ fd < 2 ^ 31 →
  ∃ p s', zuo_fd_handle fd status is_pipe s = Ok p s' ∧ keeps s s' ∧ s_heap s !! p = None
    ∧ s_heap s' !! p = Some (Ohandle (zuo_handle_count s) status fd)
    ∧ descriptors s' (<[fd := (p, if is_pipe : bool then o_true (s_img s) else o_false (s_img s))]> m)
    ∧ s_sys s' = s_sys s ∧ o_cleanable_table (s_rt s') = o_cleanable_table (s_rt s)
    ∧ zuo_handle_count s' = zuo_handle_count s + 1.
Proof.
  intros Him Hm Hfd. pose proof (image_base _ Him) as Hb. unfold zuo_fd_handle.
  destruct (zuo_handle_new fd status s (im_mem _ Him)) as (p & s1 & E1 & K1 & Hf & Hp & Hr1 & Hs1 & Hc1). run_step E1.
  set (v := if is_pipe then o_true (s_img s) else o_false (s_img s)).
  assert (Ev : zbool is_pipe s1 = Ok v s1) by (subst v; destruct is_pipe; unfold zbool, zi; by rewrite (ke_img _ _ K1)).
  run_step Ev. rewrite (bind_ok (zr o_fd_table) _ _ _ _ eq_refl). pose proof (keeps_base _ _ Hb K1) as Hb1.
  assert (Hm1 : hash_at s1 (o_fd_table (s_rt s1)) m) by (rewrite Hr1; exact (keeps_hash _ _ _ _ K1 Hm)).
  assert (Hpu : p ≠ o_undefined (s_img s)) by (intros ->; destruct Hb as [_ [o Ho]]; congruence).
  assert (Hvu : v ≠ o_undefined (s_img s)) by (subst v; destruct is_pipe; image_neq Him).
  destruct (id_extend s1 _ m p fd v Hb1 Hm1 Hfd) as (t' & s2 & hn & E2 & Hg & Ht'); [by rewrite (ke_img _ _ K1)..|].
  run_step E2. pose proof (keeps_trans _ _ _ K1 (keeps_grows _ _ _ Hg)) as K2.
  eexists p, _. split; [reflexivity|]. split; [by apply keeps_set_rt|]. split; [done|]. autorewrite with zuo_sys.
  split; [exact (keeps_lookup _ _ _ _ (keeps_grows _ _ _ Hg) Hp)|]. split.
  - unfold descriptors, hash_at. by autorewrite with zuo_sys.
  - pose proof (gr_hdl _ _ _ Hg) as H1. pose proof (gr_rt _ _ _ Hg) as H2. pose proof (gr_out _ _ _ Hg) as H3.
    autorewrite with zuo_sys. rewrite H2, Hr1. destruct s2, s1; cbn in *. split_and!; congruence.
Qed.
