(* ===== verification/CleanSpec.v ===== *)
(** * Cleaning up

    The table of cleanables stands for a finite map; registering and cancelling
    update it between a suspension of signals and the matching resumption; and
    cleaning up does all that was registered, in the order that the comments of
    the code give. *)

From S2P Require Import Prelude Sys Heap Alloc Gc GcCorrect Objects Trie Lists ImageOk Intern Prims Path Init Fasl Boot HashSpec ListSpec PathBytes PathSpec Files Processes FdSpec Keeps.

(** ** The tables of cleanables *)

(** The table of cleanables stands for the map [m] from the identifier of a
    handle to the handle and what is to be cleaned up. *)
Definition cleanables (s : st) (m : fmap_t) : Prop := hash_at s (o_cleanable_table (s_rt s)) m.

Definition table_op (s s' : st) (t' : loc) : Prop :=
  keeps s s' ∧ calls s' = calls s ∧ suspended s' = suspended s
  ∧ s_rt s' = set_o_cleanable_table t' (s_rt s) ∧ zuo_handle_count s' = zuo_handle_count s.

Lemma o_cleanable_set t r : o_cleanable_table (set_o_cleanable_table t r) = t.
Proof. by destruct r. Qed.
Lemma set_cleanable_twice t t' r : set_o_cleanable_table t (set_o_cleanable_table t' r) = set_o_cleanable_table t r.
Proof. by destruct r. Qed.
Lemma handle_count_signals h n s : zuo_handle_count (set_signals h n s) = zuo_handle_count s.
Proof. by destruct s. Qed.
Lemma handle_count_set_rt r s : zuo_handle_count (set_s_rt r s) = zuo_handle_count s.
Proof. by destruct s. Qed.
#[export] Hint Rewrite o_cleanable_set handle_count_signals handle_count_set_rt : zuo_sys.

Lemma table_op_ok s s' hn t' :
  grows s s' hn → ∃ s'', set_zr set_o_cleanable_table t' s' = Ok tt s'' ∧ table_op s s'' t'
    ∧ (∀ m, hash_at s' t' m → cleanables s'' m).
Proof.
  intros Hg. exists (set_s_rt (set_o_cleanable_table t' (s_rt s')) s'). split; [done|]. split.
  - split; [apply keeps_set_rt; by eapply keeps_grows|]. autorewrite with zuo_sys.
    rewrite (grows_calls _ _ _ Hg), (grows_suspended _ _ _ Hg), (gr_rt _ _ _ Hg). by rewrite (gr_hdl _ _ _ Hg).
  - intros m [H1 H2]. unfold cleanables, hash_at. by autorewrite with zuo_sys.
Qed.

Lemma zuo_register_cleanable_ok s m p v id status raw :
  base_ok s → cleanables s m → s_heap s !! p = Some (Ohandle id status raw) → 0 ≤ id < 2 ^ 31 →
  p ≠ o_undefined (s_img s) → v ≠ o_undefined (s_img s) →
  ∃ s' t', zuo_register_cleanable p v s = Ok tt s' ∧ table_op s s' t' ∧ cleanables s' (<[id := (p, v)]> m).
Proof.
  intros Hb Hm Hp Hid Hpu Hvu. unfold zuo_register_cleanable. run_step (handle_id_ok _ _ _ _ _ Hp).
  rewrite (bind_ok (zr o_cleanable_table) _ _ _ _ eq_refl).
  destruct (id_extend _ _ _ p id v Hb Hm Hid Hpu Hvu) as (t' & s1 & hn & E & Hg & Ht). run_step E.
  destruct (table_op_ok _ _ _ t' Hg) as (s' & E' & Hop & Hm'). exists s', t'. auto.
Qed.

Lemma zuo_unregister_cleanable_ok s m p id status raw :
  base_ok s → cleanables s m → s_heap s !! p = Some (Ohandle id status raw) → 0 ≤ id < 2 ^ 31 →
  ∃ s' t', zuo_unregister_cleanable p s = Ok tt s' ∧ table_op s s' t' ∧ cleanables s' (delete id m).
Proof.
  intros Hb Hm Hp Hid. unfold zuo_unregister_cleanable. run_step (handle_id_ok _ _ _ _ _ Hp).
  rewrite (bind_ok (zr o_cleanable_table) _ _ _ _ eq_refl).
  destruct (id_remove _ _ _ id Hb Hm Hid) as (t' & s1 & hn & E & Hg & Ht & _). run_step E.
  destruct (table_op_ok _ _ _ t' Hg) as (s' & E' & Hop & Hm'). exists s', t'. auto.
Qed.

(** A change of the table between a suspension and the resumption. *)
Definition bracketed (s s' : st) : Prop :=
  keeps s s' ∧ suspended s' = suspended s
  ∧ calls s' = calls s ++ block_call (suspended s) ++ unblock_call (suspended s)
  ∧ ∃ t, s_rt s' = set_o_cleanable_table t (s_rt s).

Lemma bracketed_signals s s' : signals_ok s → bracketed s s' → signals_ok s'.
Proof.
  intros Hs (_ & Hn & Hc & _). pose proof (signals_bracket s [] Hs eq_refl) as Hb. rewrite app_nil_l in Hb.
  split; rewrite Hn; [apply Hs|by rewrite Hc].
Qed.

Lemma bracket_ok {B} os s (op : M unit) (k : M B) s1 t' :
  0 ≤ suspended s < INT_MAX → base_ok s →
  op (set_signals (calls s ++ block_call (suspended s)) (suspended s + 1) s) = Ok tt s1 →
  table_op (set_signals (calls s ++ block_call (suspended s)) (suspended s + 1) s) s1 t' →
  ∃ s', (zuo_suspend_signal os ;;; op ;;; zuo_resume_signal os ;;; k) s = k s'
    ∧ bracketed s s' ∧ s_heap s' = s_heap s1 ∧ s_rt s' = set_o_cleanable_table t' (s_rt s)
    ∧ (∀ m, cleanables s1 m → cleanables s' m).
Proof.
  intros Hn Hb Eop (Hk & Hc & Hsu & Hrt & Hcount). autorewrite with zuo_sys in Hc, Hsu, Hrt, Hcount.
  run_step (zuo_suspend_signal_ok os s ltac:(lia)). run_step Eop.
  assert (Hpos : 0 < suspended s1) by lia. run_step (zuo_resume_signal_ok os s1 Hpos).
  eexists. split; [reflexivity|]. autorewrite with zuo_sys. split; [|split; [done|split; [done|]]].
  2:{ intros m. unfold cleanables, hash_at. by autorewrite with zuo_sys. }
  split.
  - apply keeps_signals. eapply keeps_trans; [|exact Hk]. apply keeps_signals, keeps_refl, Hb.
  - autorewrite with zuo_sys. rewrite Hsu, Hc. split; [lia|]. replace (suspended s + 1 - 1) with (suspended s) by lia.
    rewrite <- app_assoc. split; [done|]. by exists t'.
Qed.

Section cleanables.
Variable os : list syscall → sysret.

Lemma cleanable_file_ok s m path b :
  image_ok s → cleanables s m → suspended s < INT_MAX → 0 ≤ suspended s → 0 ≤ zuo_handle_count s < 2 ^ 31 →
  string_at s path b → path_string b →
  ∃ p s', zuo_cleanable_file os path s = Ok p s'
    ∧ s_heap s' !! p = Some (Ohandle (zuo_handle_count s) zuo_handle_cleanable_status 0)
    ∧ s_heap s !! p = None
    ∧ cleanables s' (<[zuo_handle_count s := (p, path)]> m) ∧ bracketed s s'.
Proof.
  intros Him Hm Hn Hn0 Hc Hpath Hb. pose proof (image_base _ Him) as Hbase.
  unfold zuo_cleanable_file, check_path_string. rewrite bind_assoc.
  run_step (is_path_string_ok s path b Hpath). rewrite bool_decide_true by done.
  rewrite (bind_ok (ret tt) _ _ _ _ eq_refl). cbn beta iota.
  destruct (zuo_handle_new 0 zuo_handle_cleanable_status s (im_mem _ Him)) as (p & s1 & E1 & Hk1 & Hf & Hp & Hr1 & Hs1 & _).
  run_step E1. set (s2 := set_signals (calls s1 ++ block_call (suspended s1)) (suspended s1 + 1) s1).
  assert (Hk2 : keeps s s2) by (by apply keeps_signals).
  assert (Hp2 : s_heap s2 !! p = Some (Ohandle (zuo_handle_count s) zuo_handle_cleanable_status 0))
    by (subst s2; by autorewrite with zuo_sys).
  assert (Hm2 : cleanables s2 m).
  { unfold cleanables. subst s2. autorewrite with zuo_sys. rewrite Hr1. by eapply keeps_hash. }
  assert (Hu2 : s_img s2 = s_img s) by apply Hk2.
  assert (Esus : suspended s1 = suspended s ∧ calls s1 = calls s) by (unfold suspended, calls; by rewrite Hs1).
  destruct Esus as [Esus Ecalls].
  destruct (zuo_register_cleanable_ok s2 m p path _ _ _ (keeps_base _ _ Hbase Hk2) Hm2 Hp2 Hc) as (s3 & t' & E3 & Hop & Hm3).
  { rewrite Hu2. intros ->. destruct Hbase as [_ [o Ho]]. congruence. }
  { rewrite Hu2. by apply (not_undefined s path _ Him Hpath). }
  destruct (bracket_ok os s1 (zuo_register_cleanable p path) (ret p) s3 t' ltac:(lia) (keeps_base _ _ Hbase Hk1) E3 Hop)
    as (s' & E & (Hk' & Hsu' & Hc' & t2 & Hrt') & Hh' & _ & Hcl).
  exists p, s'. split; [exact E|]. split; [by eapply keeps_lookup|]. split; [done|]. split.
  - by apply Hcl.
  - split; [exact (keeps_trans _ _ _ Hk1 Hk')|]. rewrite Hsu', Hc', Esus, Ecalls. split; [done|]. split; [done|]. exists t2. by rewrite Hrt', Hr1.
Qed.

Lemma cleanable_cancel_ok s m p id raw :
  base_ok s → cleanables s m → suspended s < INT_MAX → 0 ≤ suspended s → 0 ≤ id < 2 ^ 31 →
  s_heap s !! p = Some (Ohandle id zuo_handle_cleanable_status raw) →
  ∃ s', zuo_cleanable_cancel os p s = Ok (o_void (s_img s)) s' ∧ cleanables s' (delete id m) ∧ bracketed s s'.
Proof.
  intros Hbase Hm Hn Hn0 Hid Hp. unfold zuo_cleanable_cancel. run_step (is_handle_with_ok is_cleanable _ _ _ _ _ Hp). cbn [is_cleanable negb].
  set (s2 := set_signals (calls s ++ block_call (suspended s)) (suspended s + 1) s).
  assert (Hk2 : keeps s s2) by (apply keeps_signals, keeps_refl, Hbase).
  destruct (zuo_unregister_cleanable_ok s2 m p id zuo_handle_cleanable_status raw (keeps_base _ _ Hbase Hk2)) as (s3 & t' & E3 & Hop & Hm3); [|subst s2; by autorewrite with zuo_sys|done|].
  { unfold cleanables. subst s2. autorewrite with zuo_sys. by eapply keeps_hash. }
  destruct (bracket_ok os s (zuo_unregister_cleanable p) (zi o_void) s3 t' ltac:(lia) Hbase E3 Hop)
    as (s' & E & Hbr & _ & _ & Hcl). pose proof Hbr as (Hk' & _).
  exists s'. split; [rewrite E; unfold zi; by rewrite (ke_img _ _ Hk')|]. split; [|done].
  by apply Hcl.
Qed.
End cleanables.

(** C28. Registering a file and cancelling it: [cleanable-file] returns a new
    handle under which the table of cleanables has the path, and
    [cleanable-cancel] of that handle brings back the table there was.  Both
    leave the signals the way they were: blocked exactly while the counter is
    positive, with the counter unchanged, and the system is asked to block and
    to unblock them around the change of the table, at the outermost level
    only. *)
Theorem cleanable_file_cancel os s m path b :
  image_ok s → cleanables s m → signals_ok s → suspended s < INT_MAX → 0 ≤ zuo_handle_count s < 2 ^ 31 →
  m !! zuo_handle_count s = None → string_at s path b → path_string b →
  ∃ p s1 s2, zuo_cleanable_file os path s = Ok p s1
    ∧ cleanables s1 (<[zuo_handle_count s := (p, path)]> m) ∧ bracketed s s1 ∧ signals_ok s1
    ∧ zuo_cleanable_cancel os p s1 = Ok (o_void (s_img s)) s2
    ∧ cleanables s2 m ∧ bracketed s1 s2 ∧ signals_ok s2.
Proof.
  intros Him Hm Hsig Hn Hc Hfresh Hpath Hb.
  destruct (cleanable_file_ok os s m path b Him Hm Hn (proj1 Hsig) Hc Hpath Hb) as (p & s1 & E1 & Hp & _ & Hm1 & Hb1).
  pose proof Hb1 as (Hk1 & Hsu1 & _ & _). pose proof (bracketed_signals _ _ Hsig Hb1) as Hsig1.
  destruct (cleanable_cancel_ok os s1 _ p _ 0 (keeps_base _ _ (image_base _ Him) Hk1) Hm1 ltac:(lia) (proj1 Hsig1) Hc Hp)
    as (s2 & E2 & Hm2 & Hb2).
  exists p, s1, s2. rewrite (ke_img _ _ Hk1) in E2. rewrite delete_insert_id in Hm2 by done.
  do 7 (split; [done|]). by eapply bracketed_signals.
Qed.

(** ** Cleaning up *)

(** The history [h] goes on with [h'], in which the calls [cs] are made in
    order: each again exactly as long as it is interrupted, and until the
    system has given its answer. *)
Inductive completed (os : list syscall → sysret) (h : list syscall) : list syscall → list syscall → Prop :=
  | cp_nil : completed os h [] []
  | cp_cons cs h1 c n h2 r : completed os h cs h1 → answered os c n (h ++ h1) (h ++ h1 ++ h2) r →
      completed os h (cs ++ [c]) (h1 ++ h2).

Lemma answered_calls os c n h h' r : answered os c n h h' r → h' = h ++ replicate (S n) c.
Proof. intros H. by apply (answered_moved os (λ _ _, [])) in H as [? _]. Qed.

Lemma completed_one os h c n h' r : answered os c n h h' r → ∃ h1, h' = h ++ h1 ∧ completed os h [c] h1.
Proof.
  intros H. pose proof (answered_calls _ _ _ _ _ _ H) as ->. exists (replicate (S n) c). split; [done|].
  apply (cp_cons os h [] [] c n _ r); [constructor|]. rewrite app_nil_r. exact H.
Qed.

Lemma completed_app os h cs cs' h1 h2 :
  completed os h cs h1 → completed os (h ++ h1) cs' h2 → completed os h (cs ++ cs') (h1 ++ h2).
Proof.
  intros H. induction 1 as [|cs' h2 c n h3 r _ IH Ha]; [by rewrite !app_nil_r|].
  rewrite !app_assoc. eapply cp_cons; [exact IH|]. by rewrite <- !app_assoc in *.
Qed.

(** Every call [c] is answered after [N] interruptions at most. *)
Class Answers (os : list syscall → sysret) (c : syscall) (N : nat) : Prop :=
  answers h : ∃ n h' r, answered os c n h h' r ∧ (n ≤ N)%nat.

Lemma retry_answers os c N fuel s `{!Answers os c N} :
  (N < fuel)%nat → ∃ h r, retry os fuel c s = Ok r (set_calls (calls s ++ h) s) ∧ completed os (calls s) [c] h.
Proof.
  intros HN. destruct (answers (calls s)) as (n & h' & r & Ha & Hn). destruct (completed_one _ _ _ _ _ _ Ha) as (h & -> & Hc).
  exists h, r. split; [|done]. eapply eintr_retry_ok; [exact Ha|done|lia].
Qed.

(** A loop over the list of the keys of some entries. *)
Lemma for_list_ok {E} (key : E → loc) nl body (I : list E → st → Prop) :
  (∀ e es s, I (e :: es) s → ∃ s', body (key e) s = Ok tt s' ∧ I es s' ∧ keeps s s') →
  ∀ es n l s, I es s → mem_ok (s_mem s) → nl = o_null (s_img s) → is_list (s_heap s) nl l (key <$> es) →
  (length es < n)%nat → ∃ s', for_list n l body s = Ok tt s' ∧ I [] s' ∧ keeps s s'.
Proof.
  intros Hbody. induction es as [|e es IH]; intros [|n] l s HI Hok Hnl Hl Hn; cbn in Hn; try lia; cbn [for_list].
  - cbn in Hl. run_step (is_zi_eq o_null l s ltac:(congruence)). exists s. eauto using keeps_refl.
  - cbn in Hl. destruct Hl as (d & Hne & Hd & Hl). run_step (is_zi_ne o_null l s ltac:(congruence)).
    run_step (ZUO_CAR_ok _ _ _ _ Hd). destruct (Hbody _ _ _ HI) as (s1 & E1 & HI1 & Hk1). run_step E1.
    run_step (ZUO_CDR_ok _ _ _ _ (keeps_lookup _ _ _ _ Hk1 Hd)).
    destruct (IH n d s1 HI1 (ke_ok _ _ Hk1)) as (s' & E' & HI' & Hk'); [by rewrite (ke_img _ _ Hk1)|by eapply keeps_list|lia|].
    exists s'. split; [done|]. split; [done|]. exact (keeps_trans _ _ _ Hk1 Hk').
Qed.

Abbreviation entry := (Z * (loc * loc))%type.
Definition entry_id (e : entry) : Z := fst e.
Definition entry_key (e : entry) : loc := fst (snd e).
Definition entry_val (e : entry) : loc := snd (snd e).

(** The handle of an entry has the entry's identifier, or its descriptor. *)
Definition id_handle (h : gmap Z obj) (e : entry) : Prop :=
  0 ≤ entry_id e < 2 ^ 31 ∧ ∃ status raw, h !! entry_key e = Some (Ohandle (entry_id e) status raw).
Definition raw_handle (h : gmap Z obj) (e : entry) : Prop :=
  0 ≤ entry_id e < 2 ^ 31 ∧ ∃ id status, h !! entry_key e = Some (Ohandle id status (entry_id e)).

(** What is to be cleaned up for an entry of the table of descriptors: an end
    of a pipe to a process; and for an entry of the table of cleanables: a
    process or a file. *)
Definition pipe_call (z : image) (e : entry) : list syscall :=
  if decide (entry_val e = o_true z) then [Sclose (entry_id e)] else [].
Definition wait_call (h : gmap Z obj) (e : entry) : list syscall :=
  match h !! entry_val e with Some (Ohandle _ _ pid) => [Swaitpid pid] | _ => [] end.
Definition unlink_call (h : gmap Z obj) (e : entry) : list syscall :=
  match h !! entry_val e with Some (Ostring p) => [Sunlink p] | _ => [] end.

(** A part of the clean-up: it makes the calls [h] and changes no table but
    that of the descriptors. *)
Record cleans (s s' : st) (h : list syscall) : Prop := {
  cl_keeps : keeps s s';
  cl_calls : calls s' = calls s ++ h;
  cl_susp : suspended s' = suspended s;
  cl_table : o_cleanable_table (s_rt s') = o_cleanable_table (s_rt s) }.

Lemma cleans_refl s : mem_ok (s_mem s) → cleans s s [].
Proof. split; [by apply keeps_refl|by rewrite app_nil_r|done|done]. Qed.

Lemma cleans_trans s1 s2 s3 h h' : cleans s1 s2 h → cleans s2 s3 h' → cleans s1 s3 (h ++ h').
Proof.
  intros [H1 H2 H3 H4] [H5 H6 H7 H8]. split; [exact (keeps_trans _ _ _ H1 H5)| |congruence|congruence].
  by rewrite H6, H2, app_assoc.
Qed.

Lemma cleans_calls s h : mem_ok (s_mem s) → cleans s (set_calls (calls s ++ h) s) h.
Proof. split; autorewrite with zuo_sys; [by apply keeps_set_calls, keeps_refl|done..]. Qed.

Section clean.
Variable os : list syscall → sysret.
Variables fuel N : nat.
Hypothesis Hfuel : (N < fuel)%nat.

Lemma zuo_close_ok s m fd :
  Answers os (Sclose fd) N → base_ok s → descriptors s m → 0 ≤ fd < 2 ^ 31 →
  ∃ s' h, zuo_close os fuel fd s = Ok tt s' ∧ cleans s s' h ∧ completed os (calls s) [Sclose fd] h ∧ descriptors s' (delete fd m).
Proof using Hfuel.
  intros HA Hb Hm Hfd. unfold zuo_close, zuo_close_handle. rewrite bind_assoc.
  destruct (retry_answers os (Sclose fd) N fuel s Hfuel) as (h & r & E & Hr). run_step E.
  rewrite (bind_ok (ret tt) _ _ _ _ eq_refl). set (s1 := set_calls _ s).
  assert (Hk1 : keeps s s1) by (apply keeps_set_calls, keeps_refl, Hb).
  rewrite (bind_ok (zr o_fd_table) _ _ _ _ eq_refl).
  assert (Hm1 : hash_at s1 (o_fd_table (s_rt s1)) m) by (subst s1; autorewrite with zuo_sys; by eapply keeps_hash).
  destruct (id_remove _ _ _ fd (keeps_base _ _ Hb Hk1) Hm1 Hfd) as (t' & s2 & hn & E2 & Hg & Ht & _). run_step E2.
  exists (set_s_rt (set_o_fd_table t' (s_rt s2)) s2), h. split; [done|].
  assert (Hrt : s_rt s2 = s_rt s) by (rewrite (gr_rt _ _ _ Hg); subst s1; by autorewrite with zuo_sys). split; [|split].
  - split; autorewrite with zuo_sys.
    + apply keeps_set_rt. exact (keeps_trans _ _ _ Hk1 (keeps_grows _ _ _ Hg)).
    + rewrite (grows_calls _ _ _ Hg). subst s1. by autorewrite with zuo_sys.
    + rewrite (grows_suspended _ _ _ Hg). subst s1. by autorewrite with zuo_sys.
    + rewrite Hrt. by destruct (s_rt s).
  - exact Hr.
  - unfold descriptors, hash_at. autorewrite with zuo_sys. by destruct (s_rt s2).
Qed.

Lemma clean_pipe_ok s m e :
  Answers os (Sclose (entry_id e)) N → base_ok s → descriptors s m → m !! entry_id e = Some (snd e) →
  raw_handle (s_heap s) e →
  ∃ s' h m', clean_pipe os fuel (entry_key e) s = Ok tt s' ∧ cleans s s' h ∧ completed os (calls s) (pipe_call (s_img s) e) h
    ∧ descriptors s' m' ∧ (∀ i, i ≠ entry_id e → m' !! i = m !! i).
Proof using Hfuel.
  intros HA Hb Hm He (Hid & id & status & Hk). unfold clean_pipe. run_step (ZUO_HANDLE_RAW_ok _ _ _ _ _ Hk).
  rewrite (bind_ok (zr o_fd_table) _ _ _ _ eq_refl). run_step (id_lookup _ _ _ _ Hm Hid). rewrite He. cbn [found from_option].
  run_step (is_zi_bool o_true (entry_val e) s). unfold pipe_call. destruct (decide (entry_val e = o_true (s_img s))) as [Ht|Ht].
  - unfold entry_val in Ht. rewrite bool_decide_true by done. destruct (zuo_close_ok s m _ HA Hb Hm Hid) as (s' & h & E & Hc & Hr & Hd).
    exists s', h, (delete (entry_id e) m). do 4 (split; [done|]). intros i Hi. by apply lookup_delete_ne.
  - unfold entry_val in Ht. rewrite bool_decide_false by done. exists s, [], m. split; [done|]. split; [apply cleans_refl, Hb|].
    split; [constructor|]. done.
Qed.

Definition pipes_inv (s0 : st) (all es : list entry) (s : st) : Prop :=
  ∃ done h m, all = done ++ es ∧ cleans s0 s h ∧ completed os (calls s0) (flat_map (pipe_call (s_img s0)) done) h
    ∧ descriptors s m ∧ Forall (λ e, m !! entry_id e = Some (snd e)) es.

Lemma flat_map_snoc {A B} (f : A → list B) l x : flat_map f (l ++ [x]) = flat_map f l ++ f x.
Proof. rewrite flat_map_app. cbn. by rewrite app_nil_r. Qed.

Lemma pipes_loop s0 m all l n :
  base_ok s0 → descriptors s0 m → NoDup (entry_id <$> all) → Forall (λ e, m !! entry_id e = Some (snd e)) all →
  Forall (raw_handle (s_heap s0)) all → Forall (λ e, Answers os (Sclose (entry_id e)) N) all →
  is_list (s_heap s0) (o_null (s_img s0)) l (entry_key <$> all) → (length all < n)%nat →
  ∃ s h, for_list n l (clean_pipe os fuel) s0 = Ok tt s ∧ cleans s0 s h
    ∧ completed os (calls s0) (flat_map (pipe_call (s_img s0)) all) h.
Proof using Hfuel.
  intros Hb Hm Hnd Hall Hraw HA Hl Hn.
  destruct (for_list_ok entry_key (o_null (s_img s0)) (clean_pipe os fuel) (pipes_inv s0 all)) with (es := all) (n := n) (l := l) (s := s0)
    as (s & E & (d & h & m' & Hd & Hc & Hr & _ & _) & _); try done; [| |apply Hb|].
  - intros e es s (d & h & m' & -> & Hc & Hr & Hm' & Hes). apply Forall_cons in Hes as [He Hes].
    apply Forall_app in Hraw as [_ Hraw]. apply Forall_cons in Hraw as [(Hid & hid & status & Hk) _].
    apply Forall_app in HA as [_ HA]. apply Forall_cons in HA as [HA _].
    rewrite fmap_app in Hnd. apply NoDup_app in Hnd as (_ & _ & Hnd). cbn in Hnd. apply NoDup_cons in Hnd as [Hnotin _].
    destruct (clean_pipe_ok s m' e HA (keeps_base _ _ Hb (cl_keeps _ _ _ Hc)) Hm' He) as (s' & h' & m'' & E & Hc' & Hr' & Hm'' & Hsame).
    { split; [done|]. exists hid, status. exact (keeps_lookup _ _ _ _ (cl_keeps _ _ _ Hc) Hk). }
    exists s'. split; [exact E|]. split; [|apply Hc']. exists (d ++ [e]), (h ++ h'), m''. split; [by rewrite <- app_assoc|].
    split; [exact (cleans_trans _ _ _ _ _ Hc Hc')|]. split.
    + rewrite flat_map_snoc. apply completed_app; [done|]. by rewrite <- (ke_img _ _ (cl_keeps _ _ _ Hc)), <- (cl_calls _ _ _ Hc).
    + split; [done|]. apply Forall_forall. intros e' He'. rewrite Hsame; [by apply (proj1 (Forall_forall _ _) Hes)|].
      intros Eid. apply Hnotin. rewrite <- Eid. by apply list_elem_of_fmap_2.
  - exists [], [], m. split; [done|]. split; [apply cleans_refl, Hb|]. split; [constructor|]. done.
  - exists s, h. rewrite app_nil_r in Hd. subst d. done.
Qed.

(** The loops over the cleanables leave the tables alone. *)
Lemma cleanables_loop s0 m (body : loc → M unit) (acts : entry → list syscall) (calling : list syscall → list syscall → list syscall → Prop) :
  base_ok s0 → cleanables s0 m → (∀ h, calling h [] []) →
  (∀ h cs cs' h1 h2, calling h cs h1 → calling (h ++ h1) cs' h2 → calling h (cs ++ cs') (h1 ++ h2)) →
  ∀ all l n, (∀ e s h, e ∈ all → cleans s0 s h → cleanables s m →
      ∃ s' h', body (entry_key e) s = Ok tt s' ∧ cleans s s' h' ∧ calling (calls s) (acts e) h') →
  is_list (s_heap s0) (o_null (s_img s0)) l (entry_key <$> all) → (length all < n)%nat →
  ∃ s h, for_list n l body s0 = Ok tt s ∧ cleans s0 s h ∧ calling (calls s0) (flat_map acts all) h.
Proof.
  intros Hb Hm Hnil Happ all l n Hbody Hl Hn.
  set (I es s := ∃ done h, all = done ++ es ∧ cleans s0 s h ∧ calling (calls s0) (flat_map acts done) h).
  destruct (for_list_ok entry_key (o_null (s_img s0)) body I) with (es := all) (n := n) (l := l) (s := s0)
    as (s & E & (d & h & Hd & Hc & Hr) & _); try done; [| |apply Hb|].
  - intros e es s (d & h & Hd & Hc & Hr).
    destruct (Hbody e s h) as (s' & h' & E & Hc' & Hr'); [subst; set_solver|done| |].
    { unfold cleanables. rewrite (cl_table _ _ _ Hc). exact (keeps_hash _ _ _ _ (cl_keeps _ _ _ Hc) Hm). }
    exists s'. split; [done|]. split; [|apply Hc']. exists (d ++ [e]), (h ++ h'). split; [by rewrite <- app_assoc|].
    split; [exact (cleans_trans _ _ _ _ _ Hc Hc')|]. rewrite flat_map_snoc. apply Happ; [done|].
    by rewrite <- (cl_calls _ _ _ Hc).
  - exists [], []. split; [done|]. split; [apply cleans_refl, Hb|done].
  - exists s, h. rewrite app_nil_r in Hd. subst d. done.
Qed.

Lemma clean_process_ok s m e :
  (∀ pid, Answers os (Swaitpid pid) N) → base_ok s → cleanables s m → m !! entry_id e = Some (snd e) →
  id_handle (s_heap s) e → is_Some (s_heap s !! entry_val e) →
  ∃ s' h, clean_process os fuel (entry_key e) s = Ok tt s' ∧ cleans s s' h ∧ completed os (calls s) (wait_call (s_heap s) e) h.
Proof using Hfuel.
  intros HA Hb Hm He (Hid & status & raw & Hk) [o Ho]. unfold clean_process. run_step (handle_id_ok _ _ _ _ _ Hk).
  rewrite (bind_ok (zr o_cleanable_table) _ _ _ _ eq_refl). run_step (id_lookup _ _ _ _ Hm Hid). rewrite He. cbn [found from_option].
  run_step (has_tag_ok _ _ _ zuo_handle_tag Ho). unfold wait_call. rewrite Ho. destruct o as [| | | | | | | | |id' status' pid| | |]; cbn [obj_tag].
  10:{ rewrite bool_decide_true by done. run_step (ZUO_HANDLE_RAW_ok _ _ _ _ _ Ho).
       destruct (retry_answers os (Swaitpid pid) N fuel s Hfuel) as (h & r & E & Hr). run_step E. eexists _, _. split; [done|].
       split; [apply cleans_calls, Hb|done]. }
  all: rewrite bool_decide_false by done; exists s, []; (split; [done|]); (split; [apply cleans_refl, Hb|]); constructor.
Qed.

Lemma clean_file_ok s m e :
  base_ok s → cleanables s m → m !! entry_id e = Some (snd e) →
  id_handle (s_heap s) e → is_Some (s_heap s !! entry_val e) →
  ∃ s', clean_file os (entry_key e) s = Ok tt s' ∧ cleans s s' (unlink_call (s_heap s) e).
Proof.
  intros Hb Hm He (Hid & status & raw & Hk) [o Ho]. unfold clean_file. run_step (handle_id_ok _ _ _ _ _ Hk).
  rewrite (bind_ok (zr o_cleanable_table) _ _ _ _ eq_refl). run_step (id_lookup _ _ _ _ Hm Hid). rewrite He. cbn [found from_option].
  run_step (has_tag_ok _ _ _ zuo_string_tag Ho). unfold unlink_call. rewrite Ho. destruct o; cbn [obj_tag].
  4:{ rewrite bool_decide_true by done. run_step (ZUO_STRING_PTR_ok _ _ _ Ho). eexists. split; [reflexivity|].
      exact (cleans_calls s [_] (proj1 Hb)). }
  all: rewrite bool_decide_false by done; exists s; (split; [done|]); apply cleans_refl, Hb.
Qed.

(** The entries of a table, as a list of their keys. *)
Lemma table_keys s t m :
  image_ok s → hash_at s t m →
  ∃ l s' hn es, zuo_trie_keys trie_depth t (o_null (s_img s)) s = Ok l s' ∧ grows s s' hn
    ∧ is_list (s_heap s') (o_null (s_img s)) l (entry_key <$> es) ∧ es ≡ₚ map_to_list m.
Proof using.
  clear Hfuel N fuel. intros Him [Hne Ht]. pose proof (image_list_pre _ Him) as Hpre.
  destruct (zuo_trie_keys_ok (o_undefined (s_img s)) (o_null (s_img s)) true hash_depth trie_depth t (s_heap s) m)
    with (accum := o_null (s_img s)) (s := s) (vs := @nil loc) as (l & s' & hn & es & E & Hg & Hl & Hes);
    [unfold hash_depth, trie_depth; lia|done|done| |done|].
  { split; [apply hash_at_pre, image_base, Him|done|apply Hpre]. }
  rewrite app_nil_r in Hl. exists l, s', hn, es. done.
Qed.

(** What the clean-up needs of the tables. *)
Record clean_tables (s : st) (m fm : fmap_t) : Prop := {
  ct_image : image_ok s;
  ct_cleanables : cleanables s m;
  ct_descriptors : descriptors s fm;
  ct_empty : hash_at s (o_empty_hash (s_img s)) ∅;
  ct_handles : ∀ id e, m !! id = Some e → id_handle (s_heap s) (id, e) ∧ is_Some (s_heap s !! snd e);
  ct_fds : ∀ fd e, fm !! fd = Some e → raw_handle (s_heap s) (fd, e) }.

Lemma clean_tables_keeps s s' m fm : clean_tables s m fm → keeps s s' → s_rt s' = s_rt s → clean_tables s' m fm.
Proof.
  intros [H1 H2 H3 H4 H5 H6] Hk Hrt. pose proof (ke_img _ _ Hk) as Hi. split.
  - by eapply image_keeps.
  - unfold cleanables. rewrite Hrt. by eapply keeps_hash.
  - unfold descriptors. rewrite Hrt. by eapply keeps_hash.
  - rewrite Hi. by eapply keeps_hash.
  - intros id e He. destruct (H5 id e He) as [(Hid & st & raw & Hh) [o Ho]]. split; [split; [done|]|].
    + exists st, raw. by eapply keeps_lookup.
    + exists o. by eapply keeps_lookup.
  - intros fd e He. destruct (H6 fd e He) as (Hid & id & st & Hh). split; [done|]. exists id, st. by eapply keeps_lookup.
Qed.

Lemma entries_ids es (m : fmap_t) :
  es ≡ₚ map_to_list m → NoDup (entry_id <$> es) ∧ Forall (λ e, m !! entry_id e = Some (snd e)) es.
Proof.
  intros Hes. split; [unfold entry_id; rewrite Hes; apply NoDup_fst_map_to_list|].
  apply Forall_forall. intros [id e] He. rewrite Hes in He. by apply elem_of_map_to_list in He.
Qed.

Lemma entry_in (all es : list entry) (m : fmap_t) e : es ≡ₚ map_to_list m → e ∈ es → m !! entry_id e = Some (snd e).
Proof. intros Hes He. destruct e as [id e]. rewrite Hes in He. by apply elem_of_map_to_list in He. Qed.

Lemma acts_cleans (f : gmap Z obj → entry → list syscall) s s' e :
  (∀ h h', h !! entry_val e = h' !! entry_val e → f h e = f h' e) →
  keeps s s' → is_Some (s_heap s !! entry_val e) → f (s_heap s') e = f (s_heap s) e.
Proof. intros Hf Hk [o Ho]. apply Hf. by rewrite Ho, (keeps_lookup _ _ _ _ Hk Ho). Qed.

(** The three loops, from the state in which the two lists of keys are. *)
Lemma clean_loops s m fm keys open_fds es fes :
  (∀ x, Answers os (Sclose x) N) → (∀ x, Answers os (Swaitpid x) N) →
  clean_tables s m fm → es ≡ₚ map_to_list m → fes ≡ₚ map_to_list fm →
  is_list (s_heap s) (o_null (s_img s)) keys (entry_key <$> es) →
  is_list (s_heap s) (o_null (s_img s)) open_fds (entry_key <$> fes) →
  ∃ s1 s2 s3 h1 h2, let n := heap_fuel s in
    for_list n open_fds (clean_pipe os fuel) s = Ok tt s1 ∧ for_list n keys (clean_process os fuel) s1 = Ok tt s2
    ∧ for_list n keys (clean_file os) s2 = Ok tt s3
    ∧ completed os (calls s) (flat_map (pipe_call (s_img s)) fes ++ flat_map (wait_call (s_heap s)) es) (h1 ++ h2)
    ∧ cleans s s3 ((h1 ++ h2) ++ flat_map (unlink_call (s_heap s)) es).
Proof using Hfuel.
  intros HAc HAw Ht Hes Hfes Hkeys Hfds. pose proof Ht as [Him Hm Hfm _ Hh Hf]. pose proof (image_base _ Him) as Hb.
  assert (Hin : ∀ e, e ∈ es → m !! entry_id e = Some (snd e) ∧ id_handle (s_heap s) e ∧ is_Some (s_heap s !! entry_val e)).
  { intros [id e] He. pose proof (entry_in es es m _ Hes He) as Hme. split; [done|]. by apply (Hh id e). }
  destruct (entries_ids _ _ Hfes) as [Hnd Hall].
  destruct (pipes_loop s fm fes open_fds (heap_fuel s) Hb Hfm Hnd Hall) as (s1 & h1 & E1 & C1 & R1); [| |done| |].
  { eapply Forall_impl; [exact Hall|]. intros [fd e] He. by apply Hf. }
  { apply Forall_forall. intros e _. apply HAc. }
  { pose proof (is_list_heap_fuel _ _ _ _ Hfds) as Hn. by rewrite length_fmap in Hn. }
  pose proof (cl_keeps _ _ _ C1) as K1. pose proof (keeps_base _ _ Hb K1) as Hb1.
  assert (Hm1 : cleanables s1 m) by (unfold cleanables; rewrite (cl_table _ _ _ C1); by eapply keeps_hash).
  assert (Hl1 : is_list (s_heap s1) (o_null (s_img s1)) keys (entry_key <$> es)) by (rewrite (ke_img _ _ K1); by eapply keeps_list).
  assert (Hlen : (length es < heap_fuel s)%nat) by (pose proof (is_list_heap_fuel _ _ _ _ Hkeys) as Hn; by rewrite length_fmap in Hn).
  assert (Hin1 : ∀ σ, keeps s σ → ∀ e, e ∈ es → id_handle (s_heap σ) e ∧ is_Some (s_heap σ !! entry_val e)).
  { intros σ Hk e He. destruct (Hin e He) as (_ & (Hid & st & raw & Hh') & [o Ho]). split; [split; [done|]|].
    - exists st, raw. by eapply keeps_lookup.
    - exists o. by eapply keeps_lookup. }
  destruct (cleanables_loop s1 m (clean_process os fuel) (wait_call (s_heap s)) (completed os) Hb1 Hm1 (cp_nil os) (completed_app os) es keys (heap_fuel s))
    as (s2 & h2 & E2 & C2 & R2); [|done|done|].
  { intros e σ h He Hc Hmσ. pose proof (keeps_trans _ _ _ K1 (cl_keeps _ _ _ Hc)) as Hk. destruct (Hin1 σ Hk e He) as [Hid Ho].
    destruct (clean_process_ok σ m e HAw (keeps_base _ _ Hb Hk) Hmσ (proj1 (Hin e He)) Hid Ho) as (s' & h' & E & Hc' & Hr').
    exists s', h'. split; [done|]. split; [done|]. rewrite (acts_cleans wait_call s σ e) in Hr'; [done| |done|by apply Hin].
    intros ? ? Heq. unfold wait_call. by rewrite Heq. }
  pose proof (keeps_trans _ _ _ K1 (cl_keeps _ _ _ C2)) as K2.
  assert (Hm2 : cleanables s2 m) by (unfold cleanables; rewrite (cl_table _ _ _ C2); exact (keeps_hash _ _ _ _ (cl_keeps _ _ _ C2) Hm1)).
  assert (Hl2 : is_list (s_heap s2) (o_null (s_img s2)) keys (entry_key <$> es)) by (rewrite (ke_img _ _ K2); exact (keeps_list _ _ _ _ _ K2 Hkeys)).
  destruct (cleanables_loop s2 m (clean_file os) (unlink_call (s_heap s)) (λ _, eq) (keeps_base _ _ Hb K2) Hm2 (λ _, eq_refl)) with (all := es) (l := keys) (n := heap_fuel s)
    as (s3 & h3 & E3 & C3 & <-); [by intros ? ? ? ? ? -> ->| |done|done|].
  { intros e σ h He Hc Hmσ. pose proof (keeps_trans _ _ _ K2 (cl_keeps _ _ _ Hc)) as Hk. destruct (Hin1 σ Hk e He) as [Hid Ho].
    destruct (clean_file_ok σ m e (keeps_base _ _ Hb Hk) Hmσ (proj1 (Hin e He)) Hid Ho) as (s' & E & Hc').
    exists s', (unlink_call (s_heap s) e). split; [done|]. split; [|done]. rewrite (acts_cleans unlink_call s σ e) in Hc'; [done| |done|by apply Hin].
    intros ? ? Heq. unfold unlink_call. by rewrite Heq. }
  exists s1, s2, s3, h1, h2. cbn zeta. do 3 (split; [done|]). rewrite (cl_calls _ _ _ C1) in R2.
  split; [by apply completed_app|]. exact (cleans_trans _ _ _ _ _ (cleans_trans _ _ _ _ _ C1 C2) C3).
Qed.
End clean.

Definition is_signal_call (c : syscall) : bool := match c with Sblock | Sunblock => true | _ => false end.

Lemma mask_other b l : Forall (λ c, is_signal_call c = false) l → foldl mask b l = b.
Proof. revert b. induction l as [|c l IH]; intros b Hl; [done|]. apply Forall_cons in Hl as [Hc Hl]. cbn. rewrite IH by done. by destruct c. Qed.

Lemma completed_Forall os (P : syscall → Prop) h cs h' : completed os h cs h' → Forall P cs → Forall P h'.
Proof.
  induction 1 as [|cs h1 c n h2 r _ IH Ha]; intros Hcs; [done|]. apply Forall_app in Hcs as [Hcs [Hc _]%Forall_cons].
  apply answered_calls in Ha. rewrite app_assoc in Ha. apply (inj (app (h ++ h1))) in Ha as ->.
  apply Forall_app_2; [auto|by apply Forall_replicate].
Qed.

Lemma Forall_flat_map {A B} (P : B → Prop) (f : A → list B) l : (∀ x, Forall P (f x)) → Forall P (flat_map f l).
Proof. intros Hf. induction l as [|x l IH]; cbn; [constructor|]. by apply Forall_app_2. Qed.

Lemma flat_map_ext_elem {A B} (f g : A → list B) l : (∀ x, x ∈ l → f x = g x) → flat_map f l = flat_map g l.
Proof. induction l as [|x l IH]; intros Hl; [done|]. cbn. rewrite (Hl x) by left. rewrite IH; [done|]. intros y Hy. apply Hl. by right. Qed.

Lemma plain_calls z h es fes :
  Forall (λ c, is_signal_call c = false) (flat_map (pipe_call z) fes ++ flat_map (wait_call h) es)
  ∧ Forall (λ c, is_signal_call c = false) (flat_map (unlink_call h) es).
Proof.
  split; [apply Forall_app_2|]; apply Forall_flat_map; intros e.
  - unfold pipe_call. case_decide; by repeat constructor.
  - unfold wait_call. repeat case_match; by repeat constructor.
  - unfold unlink_call. repeat case_match; by repeat constructor.
Qed.

(** The lists of the keys of both tables. *)
Lemma clean_lists s m fm :
  clean_tables s m fm →
  ∃ keys s1 open_fds s2 es fes,
    zuo_trie_keys trie_depth (o_cleanable_table (s_rt s)) (o_null (s_img s)) s = Ok keys s1
    ∧ zuo_trie_keys trie_depth (o_fd_table (s_rt s1)) (o_null (s_img s)) s1 = Ok open_fds s2
    ∧ es ≡ₚ map_to_list m ∧ fes ≡ₚ map_to_list fm
    ∧ is_list (s_heap s2) (o_null (s_img s2)) keys (entry_key <$> es)
    ∧ is_list (s_heap s2) (o_null (s_img s2)) open_fds (entry_key <$> fes)
    ∧ clean_tables s2 m fm ∧ keeps s s2 ∧ calls s2 = calls s ∧ suspended s2 = suspended s.
Proof.
  intros Ht. destruct (table_keys s _ m (ct_image _ _ _ Ht) (ct_cleanables _ _ _ Ht)) as (l1 & s1 & hn1 & es & E1 & G1 & Hl1 & Hes).
  pose proof (keeps_grows _ _ _ G1) as K1. pose proof (clean_tables_keeps _ _ _ _ Ht K1 (gr_rt _ _ _ G1)) as Ht1.
  destruct (table_keys s1 _ fm (ct_image _ _ _ Ht1) (ct_descriptors _ _ _ Ht1)) as (l2 & s2 & hn2 & fes & E2 & G2 & Hl2 & Hfes).
  rewrite (ke_img _ _ K1) in E2, Hl2. pose proof (keeps_grows _ _ _ G2) as K2. exists l1, s1, l2, s2, es, fes.
  do 4 (split; [done|]). rewrite (ke_img _ _ K2), (ke_img _ _ K1).
  split; [exact (keeps_list _ _ _ _ _ K2 Hl1)|]. split; [done|].
  split; [exact (clean_tables_keeps _ _ _ _ Ht1 K2 (gr_rt _ _ _ G2))|]. split; [exact (keeps_trans _ _ _ K1 K2)|].
  by rewrite (grows_calls _ _ _ G2), (grows_calls _ _ _ G1), (grows_suspended _ _ _ G2), (grows_suspended _ _ _ G1).
Qed.

(** C27. Cleaning up, as it is done on exit and when a signal arrives, does all
    that was registered, in this order: it closes the ends of the pipes to
    processes, so that they can end, then waits for every registered process,
    then deletes every registered file, each once, and then forgets them.
    Closing and waiting are repeated exactly as long as the system interrupts
    them, and end with the system's answer ([completed]).  Signals are blocked
    all the while, and are as before afterwards. *)
Theorem clean_all_correct os fuel N s m fm :
  (N < fuel)%nat → (∀ x, Answers os (Sclose x) N) → (∀ x, Answers os (Swaitpid x) N) →
  clean_tables s m fm → signals_ok s → suspended s < INT_MAX →
  ∃ s' es fes h, zuo_clean_all os fuel false s = Ok tt s'
    ∧ es ≡ₚ map_to_list m ∧ fes ≡ₚ map_to_list fm
    ∧ completed os (calls s ++ block_call (suspended s)) (flat_map (pipe_call (s_img s)) fes ++ flat_map (wait_call (s_heap s)) es) h
    ∧ calls s' = calls s ++ block_call (suspended s) ++ (h ++ flat_map (unlink_call (s_heap s)) es) ++ unblock_call (suspended s)
    ∧ cleanables s' ∅ ∧ signals_ok s' ∧ suspended s' = suspended s ∧ keeps s s'.
Proof.
  intros HN HAc HAw Ht Hsig Hn. pose proof (ct_image _ _ _ Ht) as Him. pose proof (image_base _ Him) as Hb.
  unfold zuo_clean_all. rewrite (bind_ok (zr o_cleanable_table) _ _ _ _ eq_refl).
  run_step (is_zi_ne o_undefined _ s (proj1 (ct_cleanables _ _ _ Ht))). rewrite bind_assoc.
  run_step (zuo_suspend_signal_ok os s ltac:(lia)). rewrite (bind_ok (ret tt) _ _ _ _ eq_refl). cbn beta iota.
  set (s1 := set_signals _ _ s). assert (K1 : keeps s s1) by (apply keeps_signals, keeps_refl, Hb).
  assert (Hrt1 : s_rt s1 = s_rt s) by (subst s1; by autorewrite with zuo_sys).
  pose proof (clean_tables_keeps _ _ _ _ Ht K1 Hrt1) as Ht1. rewrite (bind_ok (zi o_null) _ _ _ _ eq_refl).
  destruct (clean_lists s1 m fm Ht1) as (l2 & s2 & l3 & s3 & es & fes & E2 & E3 & Hes & Hfes & Hl2 & Hl3 & Ht3 & K3 & Hc3 & Hsu3).
  rewrite Hrt1 in E2. run_step E2. rewrite (bind_ok (zr o_fd_table) _ _ _ _ eq_refl). run_step E3.
  rewrite (bind_ok get_st _ s3 s3 s3 eq_refl). pose proof (keeps_trans _ _ _ K1 K3) as K03.
  destruct (clean_loops os fuel N HN s3 m fm l2 l3 es fes HAc HAw Ht3 Hes Hfes Hl2 Hl3) as (s4 & s5 & s6 & h1 & h2 & E4 & E5 & E6 & R & C).
  run_step E4. run_step E5. run_step E6. pose proof C as [K6 Hc6 Hs6 _]. pose proof (keeps_trans _ _ _ K03 K6) as K06.
  rewrite (bind_ok (zi o_empty_hash) _ _ _ _ eq_refl), (bind_ok (set_zr set_o_cleanable_table _) _ _ _ _ eq_refl). cbn beta iota.
  set (s7 := set_s_rt _ s6).
  assert (Hs7 : suspended s7 = suspended s + 1 ∧ calls s7 = calls s6).
  { subst s7. autorewrite with zuo_sys. rewrite Hs6, Hsu3. subst s1. by autorewrite with zuo_sys. }
  destruct Hs7 as [Hsu7 Hc7]. run_step (zuo_resume_signal_ok os s7 ltac:(pose proof (proj1 Hsig); lia)).
  assert (Hh : ∀ e, e ∈ es → s_heap s3 !! entry_val e = s_heap s !! entry_val e).
  { intros e He. destruct (ct_handles _ _ _ Ht _ _ (entry_in es es m _ Hes He)) as [_ [o Ho]].
    unfold entry_val. rewrite Ho. exact (keeps_lookup _ _ _ _ K03 Ho). }
  assert (Ew : flat_map (wait_call (s_heap s3)) es = flat_map (wait_call (s_heap s)) es).
  { apply flat_map_ext_elem. intros e He. unfold wait_call. by rewrite Hh. }
  assert (Eu : flat_map (unlink_call (s_heap s3)) es = flat_map (unlink_call (s_heap s)) es).
  { apply flat_map_ext_elem. intros e He. unfold unlink_call. by rewrite Hh. }
  rewrite (ke_img _ _ K03), Ew in R. rewrite Eu in Hc6. rewrite Hc3 in R. subst s1. autorewrite with zuo_sys in R.
  destruct (plain_calls (s_img s) (s_heap s) es fes) as [P1 P2].
  pose proof (completed_Forall _ _ _ _ _ R P1) as PR. set (us := flat_map (unlink_call (s_heap s)) es) in *.
  assert (Ec : calls s7 ++ unblock_call (suspended s7 - 1)
    = calls s ++ block_call (suspended s) ++ ((h1 ++ h2) ++ us) ++ unblock_call (suspended s)).
  { rewrite Hc7, Hc6, Hsu7, Hc3. autorewrite with zuo_sys.
    replace (suspended s + 1 - 1) with (suspended s) by lia. by rewrite <- !app_assoc. }
  eexists _, es, fes, (h1 ++ h2). split; [reflexivity|]. do 3 (split; [done|]). rewrite Ec.
  autorewrite with zuo_sys. split; [done|]. split.
  - unfold cleanables, hash_at. subst s7. autorewrite with zuo_sys. pose proof (keeps_hash _ _ _ _ K06 (ct_empty _ _ _ Ht)) as He.
    unfold hash_at in He. by rewrite (ke_img _ _ K06) in *.
  - split; [|split; [lia|subst s7; by auto with zuo_sys]].
    split; autorewrite with zuo_sys; [pose proof (proj1 Hsig); lia|].
    rewrite (signals_bracket s ((h1 ++ h2) ++ us) Hsig); [f_equal; lia|]. apply mask_other. by apply Forall_app_2.
Qed.

(** ** Examples *)

(** A system in which every call succeeds. *)
Definition quiet_os (h : list syscall) : sysret := Sret 0 [].

#[export] Instance quiet_answers c : Answers quiet_os c 0.
Proof. intros h. exists 0%nat, (h ++ [c]), (Sret 0 []). split; [by apply an_now|lia]. Qed.

Lemma booted_cleanables : cleanables booted ∅.
Proof.
  unfold cleanables. assert (E : o_cleanable_table (s_rt booted) = o_empty_hash (s_img booted)) by (vm_compute; reflexivity).
  rewrite E. exact booted_empty.
Qed.
Lemma booted_descriptors : descriptors booted ∅.
Proof.
  unfold descriptors. assert (E : o_fd_table (s_rt booted) = o_empty_hash (s_img booted)) by (vm_compute; reflexivity).
  rewrite E. exact booted_empty.
Qed.
Lemma booted_sys : s_sys booted = sys_init.
Proof. vm_compute. reflexivity. Qed.
Lemma booted_signals : signals_ok booted.
Proof. unfold signals_ok, suspended, calls. by rewrite booted_sys. Qed.
Lemma booted_suspended : suspended booted = 0.
Proof. unfold suspended. by rewrite booted_sys. Qed.
Lemma booted_handles : zuo_handle_count booted = 0.
Proof. vm_compute. reflexivity. Qed.

(** The end of a pipe, a process, and a cleanable file. *)
Definition make_cleanables : M (loc * loc * loc * loc) :=
  path <- zuo_string (bytes_of "out.txt") ;;
  h <- zuo_fd_handle 4 zuo_handle_open_fd_in_status true ;;
  p <- zuo_handle 100 zuo_handle_process_running_status ;;
  zuo_register_cleanable p p ;;;
  f <- zuo_cleanable_file quiet_os path ;;
  ret (h, p, path, f).

Lemma make_cleanables_ok :
  ∃ path h p f s, make_cleanables booted = Ok (h, p, path, f) s ∧ signals_ok s ∧ suspended s = 0
    ∧ clean_tables s (<[2 := (f, path)]> (<[1 := (p, p)]> ∅)) (<[4 := (h, o_true (s_img s))]> ∅).
Proof.
  destruct (allocates_grows _ _ booted (zuo_string_ok (bytes_of "out.txt")) booted_ok) as (path & s1 & E1 & _ & G1).
  pose proof (keeps_grows _ _ _ G1) as K1. pose proof (image_keeps _ _ booted_image K1) as Him1.
  assert (Hpath : string_at s1 path (bytes_of "out.txt")) by (unfold string_at; rewrite (gr_heap _ _ _ G1); apply lookup_union_Some_l, lookup_singleton_eq).
  assert (Hm1 : cleanables s1 ∅) by (unfold cleanables; rewrite (gr_rt _ _ _ G1); exact (keeps_hash _ _ _ _ K1 booted_cleanables)).
  assert (Hd1 : descriptors s1 ∅) by (unfold descriptors; rewrite (gr_rt _ _ _ G1); exact (keeps_hash _ _ _ _ K1 booted_descriptors)).
  assert (Hc1 : zuo_handle_count s1 = 0) by (by rewrite (gr_hdl _ _ _ G1), booted_handles).
  assert (Hs1 : s_sys s1 = sys_init) by (by rewrite (gr_out _ _ _ G1), booted_sys).
  destruct (zuo_fd_handle_ok 4 zuo_handle_open_fd_in_status true s1 ∅ Him1 Hd1 ltac:(lia)) as (h & s2 & E2 & K2 & _ & Hh & Hd2 & Hs2 & Ht2 & Hc2).
  rewrite Hc1 in Hh, Hc2. pose proof (image_keeps _ _ Him1 K2) as Him2.
  destruct (zuo_handle_new 100 zuo_handle_process_running_status s2 (im_mem _ Him2)) as (p & s3 & E3 & K3 & Hf3 & Hp & Hr3 & Hs3 & Hc3).
  rewrite Hc2 in Hp, Hc3. pose proof (image_keeps _ _ Him2 K3) as Him3.
  assert (Hm3 : cleanables s3 ∅).
  { unfold cleanables. rewrite Hr3, Ht2. exact (keeps_hash _ _ _ _ (keeps_trans _ _ _ K2 K3) Hm1). }
  pose proof (not_undefined _ _ _ Him3 Hp ltac:(done)) as Hpu.
  destruct (zuo_register_cleanable_ok s3 ∅ p p _ _ _ (image_base _ Him3) Hm3 Hp ltac:(lia) Hpu Hpu) as (s4 & t4 & E4 & (K4 & Hc4 & Hsu4 & Hr4 & Hn4) & Hm4).
  pose proof (image_keeps _ _ Him3 K4) as Him4. assert (Hsu3 : suspended s3 = 0) by (unfold suspended; by rewrite Hs3, Hs2, Hs1).
  assert (Hc34 : calls s4 = []) by (rewrite Hc4; unfold calls; by rewrite Hs3, Hs2, Hs1).
  pose proof (keeps_trans _ _ _ K2 (keeps_trans _ _ _ K3 K4)) as K14.
  destruct (cleanable_file_ok quiet_os s4 _ path (bytes_of "out.txt") Him4 Hm4) as (f & s5 & E5 & Hf5 & _ & Hm5 & Hbr);
    [rewrite Hsu4, Hsu3; done|lia|lia|exact (keeps_lookup _ _ _ _ K14 Hpath)|by apply (bool_decide_eq_true_1 _); vm_compute|].
  assert (Hn5 : zuo_handle_count s4 = 2) by lia. rewrite Hn5 in Hf5, Hm5. pose proof Hbr as (K5 & Hsu5 & Hc5 & t5 & Hr5).
  pose proof (keeps_trans _ _ _ K3 (keeps_trans _ _ _ K4 K5)) as K25. pose proof (keeps_trans _ _ _ K1 (keeps_trans _ _ _ K2 K25)) as K05.
  exists path, h, p, f, s5. split.
  { unfold make_cleanables. rewrite (bind_ok _ _ _ _ _ E1). run_step E2. run_step E3. run_step E4. by run_step E5. }
  assert (Hsig : signals_ok s4) by (unfold signals_ok; rewrite Hsu4, Hsu3, Hc34; split; [apply Z.le_refl|reflexivity]).
  split; [exact (bracketed_signals _ _ Hsig Hbr)|]. split; [rewrite Hsu5, Hsu4; exact Hsu3|].
  split.
  - exact (image_keeps _ _ Him4 K5).
  - exact Hm5.
  - rewrite (ke_img _ _ K25), (ke_img _ _ K2). unfold descriptors. rewrite Hr5, Hr4, Hr3.
    assert (Ef : ∀ t t' r, o_fd_table (set_o_cleanable_table t (set_o_cleanable_table t' r)) = o_fd_table r) by (by intros ? ? []).
    rewrite Ef. exact (keeps_hash _ _ _ _ K25 Hd2).
  - rewrite (ke_img _ _ K05). exact (keeps_hash _ _ _ _ K05 booted_empty).
  - intros id e [[<- <-]|[_ [[<- <-]|[_ []%lookup_empty_Some]]%lookup_insert_Some]]%lookup_insert_Some; unfold id_handle, entry_id, entry_key; cbn.
    + split; [split; [lia|eauto]|]. exists (Ostring (bytes_of "out.txt")). exact (keeps_lookup _ _ _ _ (keeps_trans _ _ _ K14 K5) Hpath).
    + pose proof (keeps_lookup _ _ _ _ (keeps_trans _ _ _ K4 K5) Hp) as Hp5. split; [split; [lia|eauto]|eauto].
  - intros fd e [[<- <-]|[_ []%lookup_empty_Some]]%lookup_insert_Some. unfold raw_handle, entry_id, entry_key. cbn. split; [lia|].
    exists 0, zuo_handle_open_fd_in_status. exact (keeps_lookup _ _ _ _ K25 Hh).
Qed.

Definition cleaning : (loc * loc * loc * loc) * st :=
  match make_cleanables booted with Ok r s => (r, s) | _ => ((0, 0, 0, 0), booted) end.
Definition clean_st : st := snd cleaning.
Definition clean_pipe_end : loc := fst (fst (fst (fst cleaning))).
Definition clean_child : loc := snd (fst (fst (fst cleaning))).
Definition clean_path : loc := snd (fst (fst cleaning)).
Definition clean_handle : loc := snd (fst cleaning).
Definition clean_map : fmap_t := <[2 := (clean_handle, clean_path)]> (<[1 := (clean_child, clean_child)]> ∅).
Definition clean_fds : fmap_t := <[4 := (clean_pipe_end, o_true (s_img clean_st))]> ∅.

Lemma clean_st_ok : signals_ok clean_st ∧ suspended clean_st = 0 ∧ clean_tables clean_st clean_map clean_fds.
Proof.
  destruct make_cleanables_ok as (path & h & p & f & s & E & H). unfold clean_map, clean_fds, clean_handle, clean_path, clean_child, clean_pipe_end, clean_st, cleaning.
  rewrite E. exact H.
Qed.

Lemma clean_all_correct_witness :
  ∃ s' es fes h, zuo_clean_all quiet_os 1 false clean_st = Ok tt s'
    ∧ es ≡ₚ map_to_list clean_map ∧ fes ≡ₚ map_to_list clean_fds
    ∧ completed quiet_os (calls clean_st ++ block_call (suspended clean_st))
        (flat_map (pipe_call (s_img clean_st)) fes ++ flat_map (wait_call (s_heap clean_st)) es) h
    ∧ calls s' = calls clean_st ++ block_call (suspended clean_st) ++ (h ++ flat_map (unlink_call (s_heap clean_st)) es)
        ++ unblock_call (suspended clean_st)
    ∧ cleanables s' ∅ ∧ signals_ok s' ∧ suspended s' = suspended clean_st ∧ keeps clean_st s'.
Proof.
  destruct clean_st_ok as (H1 & H2 & H3).
  refine (clean_all_correct quiet_os 1 0 clean_st clean_map clean_fds Nat.lt_0_1 (λ x, quiet_answers _) (λ x, quiet_answers _) H3 H1 _).
  rewrite H2. reflexivity.
Defined.

Definition booted_path : loc * st :=
  match zuo_string (bytes_of "out.txt") booted with Ok p s => (p, s) | _ => (0, booted) end.

Lemma booted_path_ok :
  image_ok (snd booted_path) ∧ cleanables (snd booted_path) ∅ ∧ s_sys (snd booted_path) = sys_init
  ∧ zuo_handle_count (snd booted_path) = 0 ∧ string_at (snd booted_path) (fst booted_path) (bytes_of "out.txt").
Proof.
  destruct (allocates_grows _ _ booted (zuo_string_ok (bytes_of "out.txt")) booted_ok) as (path & s1 & E1 & _ & G1).
  unfold booted_path. rewrite E1. cbn [fst snd]. pose proof (keeps_grows _ _ _ G1) as K1.
  split; [exact (image_keeps _ _ booted_image K1)|]. split.
  { unfold cleanables. rewrite (gr_rt _ _ _ G1). exact (keeps_hash _ _ _ _ K1 booted_cleanables). }
  split; [rewrite (gr_out _ _ _ G1); exact booted_sys|]. split; [rewrite (gr_hdl _ _ _ G1); exact booted_handles|].
  unfold string_at. rewrite (gr_heap _ _ _ G1). apply lookup_union_Some_l, lookup_singleton_eq.
Qed.

Lemma cleanable_file_cancel_witness :
  let s := snd booted_path in
  ∃ p s1 s2, zuo_cleanable_file quiet_os (fst booted_path) s = Ok p s1
    ∧ cleanables s1 (<[zuo_handle_count s := (p, fst booted_path)]> ∅) ∧ bracketed s s1 ∧ signals_ok s1
    ∧ zuo_cleanable_cancel quiet_os p s1 = Ok (o_void (s_img s)) s2
    ∧ cleanables s2 ∅ ∧ bracketed s1 s2 ∧ signals_ok s2.
Proof.
  destruct booted_path_ok as (H1 & H2 & H3 & H4 & H5).
  refine (cleanable_file_cancel quiet_os (snd booted_path) ∅ (fst booted_path) (bytes_of "out.txt") H1 H2 _ _ _ (lookup_empty _) H5 _).
  - unfold signals_ok, suspended, calls. rewrite H3. split; [apply Z.le_refl|reflexivity].
  - unfold suspended. rewrite H3. reflexivity.
  - rewrite H4. split; [apply Z.le_refl|reflexivity].
  - apply (bool_decide_eq_true_1 _). vm_compute. reflexivity.
Defined.
