(* ===== verification/WaitSpec.v ===== *)
(** * Waiting for processes

    [process-wait] with an operating system that reports the children of the
    process one after the other: it returns one of the processes it was given,
    which has ended, and what it marks on the way is what the system
    reported. *)

From S2P Require Import Prelude Sys Heap Alloc Gc GcCorrect Objects Trie Lists ImageOk Intern Prims Path Init Fasl Boot HashSpec ListSpec PathBytes PathSpec Files Processes FdSpec Keeps CleanSpec.

Section wait.
Variable os : list syscall → sysret.

(** ** What the system reports *)

(** Among the calls [h] is a [wait] that reported the end of [pid] with the
    status [stat]. *)
Definition reported (h : list syscall) (pid stat : Z) : Prop :=
  ∃ h1 h2 out, h = (h1 ++ [Swait]) ++ h2 ∧ os (h1 ++ [Swait]) = Sret pid out ∧ hd 0 out = stat.

Lemma reported_app h h' pid stat : reported h pid stat → reported (h ++ h') pid stat.
Proof. intros (h1 & h2 & out & -> & H). exists h1, (h2 ++ h'), out. by rewrite <- app_assoc. Qed.

(** After the calls [h], one of the next [n] reports is that of the child
    [pid], each after [N] interruptions at most, whatever is done to signals in
    between. *)
Inductive reaps (N : nat) (pid : Z) : nat → list syscall → Prop :=
  | reap_now n m h h' out : answered os Swait m h h' (Sret pid out) → (m ≤ N)%nat → 0 ≤ pid < 2 ^ 31 → reaps N pid (S n) h
  | reap_later n m h h' other out :
      answered os Swait m h h' (Sret other out) → (m ≤ N)%nat → 0 ≤ other < 2 ^ 31 →
      (∀ l, Forall (λ c, is_signal_call c = true) l → reaps N pid n (h' ++ l)) → reaps N pid (S n) h.

(** ** How the state evolves *)

(** Objects stay, but for the handles of running processes, which the reports
    of their end turn into handles of finished ones. *)
Record evolves (s s' : st) : Prop := {
  ev_heap l o : s_heap s !! l = Some o →
    s_heap s' !! l = Some o
    ∨ ∃ id pid stat, o = Ohandle id zuo_handle_process_running_status pid
        ∧ s_heap s' !! l = Some (Ohandle id zuo_handle_process_done_status (exit_result stat))
        ∧ reported (calls s') pid stat;
  ev_ok : mem_ok (s_mem s');
  ev_img : s_img s' = s_img s;
  ev_susp : suspended s' = suspended s;
  ev_calls : ∃ h, calls s' = calls s ++ h }.

Lemma evolves_trans s1 s2 s3 : evolves s1 s2 → evolves s2 s3 → evolves s1 s3.
Proof.
  intros [H1 _ H3 H4 [h H5]] [H6 H7 H8 H9 [h' H10]]. split; [|done|congruence|congruence|].
  - intros l o Hl. destruct (H1 l o Hl) as [Hl'|(id & pid & stat & -> & Hl' & Hr)].
    + exact (H6 l o Hl').
    + right. exists id, pid, stat. destruct (H6 _ _ Hl') as [Hl''|(? & ? & ? & ? & _)]; [|done].
      split; [done|]. split; [done|]. rewrite H10. by apply reported_app.
  - exists (h ++ h'). by rewrite H10, H5, app_assoc.
Qed.

Lemma evolves_keeps s s' h : keeps s s' → suspended s' = suspended s → calls s' = calls s ++ h → evolves s s'.
Proof. intros [H1 H2 H3] Hs Hc. split; [|done|done|done|eauto]. intros l o Hl. left. by eapply lookup_weaken. Qed.

Lemma evolves_refl s : mem_ok (s_mem s) → evolves s s.
Proof. intros H. apply (evolves_keeps s s []); [by apply keeps_refl|done|by rewrite app_nil_r]. Qed.

Lemma evolves_lookup s s' l o :
  evolves s s' → s_heap s !! l = Some o → obj_tag o ≠ zuo_handle_tag → s_heap s' !! l = Some o.
Proof. intros He Hl Ho. destruct (ev_heap _ _ He l o Hl) as [?|(? & ? & ? & -> & _)]; done. Qed.

Lemma evolves_hash s s' t m : evolves s s' → hash_at s t m → hash_at s' t m.
Proof.
  intros He [Hne Ht]. unfold hash_at. rewrite (ev_img _ _ He). split; [done|].
  eapply trie_at_nodes; [|exact Ht]. intros l c k v n Hl. by eapply evolves_lookup.
Qed.

Lemma evolves_list s s' nl l vs : evolves s s' → is_list (s_heap s) nl l vs → is_list (s_heap s') nl l vs.
Proof.
  intros He. revert l. induction vs as [|v vs IH]; intros l; cbn; [done|].
  intros (d & Hne & Hd & Hl). exists d. split; [done|]. split; [by eapply evolves_lookup|auto].
Qed.

Lemma evolves_image s s' : image_ok s → evolves s s' → image_ok s'.
Proof.
  intros [H1 H2 H3 H4 H5 H6] He.
  assert (Ho : ∀ p l, (∀ o, p o = true → obj_tag o ≠ zuo_handle_tag) → obj_is (s_heap s) p l = true → obj_is (s_heap s') p l = true).
  { intros p l Hp. unfold obj_is. destruct (s_heap s !! l) as [o|] eqn:E; [|done]. intros Hpo.
    by rewrite (evolves_lookup _ _ _ _ He E (Hp o Hpo)). }
  split; rewrite ?(ev_img _ _ He); try done; [apply He| | | |].
  - eapply Forall_impl; [exact H2|]. intros l Hl. by eapply evolves_lookup.
  - apply Ho; [by intros []|done].
  - apply Ho; [by intros []|done].
  - eapply Forall_impl; [exact H6|]. intros l. apply Ho. by intros [].
Qed.

(** ** The tables of processes *)

Definition running (id pid : Z) : obj := Ohandle id zuo_handle_process_running_status pid.
Definition finished (id code : Z) : obj := Ohandle id zuo_handle_process_done_status code.

(** The table of processes stands for a map from the pid of every child that
    has not been reported to its handle. *)
Definition processes (s : st) (m : fmap_t) : Prop := hash_at s (o_pid_table (s_rt s)) m.

Record wait_state (s : st) (pm cm : fmap_t) : Prop := {
  ws_image : image_ok s;
  ws_procs : processes s pm;
  ws_clean : cleanables s cm;
  ws_signals : signals_ok s;
  ws_susp : suspended s < INT_MAX;
  ws_pids pid e : pm !! pid = Some e →
    0 ≤ pid < 2 ^ 31 ∧ ∃ id, 0 ≤ id < 2 ^ 31 ∧ s_heap s !! snd e = Some (running id pid) }.

(** A handle of the list: of a finished process or of one in the table. *)
Definition process_at (s : st) (pm : fmap_t) (p : loc) : Prop :=
  ∃ id, (∃ code, s_heap s !! p = Some (finished id code))
    ∨ ∃ pid k, s_heap s !! p = Some (running id pid) ∧ pm !! pid = Some (k, p).

Definition is_finished (s : st) (p : loc) : Prop := ∃ id code, s_heap s !! p = Some (finished id code).

Lemma find_done_ok s pm : image_ok s → ∀ ps n l,
  is_list (s_heap s) (o_null (s_img s)) l ps → Forall (process_at s pm) ps → (length ps < n)%nat →
  ∃ r, find_done n l s = Ok r s
    ∧ match r with Some p => p ∈ ps ∧ is_finished s p | None => ∀ p, p ∈ ps → ¬ is_finished s p end.
Proof.
  intros Him. induction ps as [|p ps IH]; intros [|n] l Hl Hps Hn; cbn in Hn; try lia; cbn [find_done].
  { cbn in Hl. run_step (is_zi_eq o_null l s Hl). exists None. split; [done|]. intros p Hp. by apply elem_of_nil in Hp. }
  cbn in Hl. destruct Hl as (d & Hne & Hd & Hl). run_step (is_zi_ne o_null l s Hne). run_step (ZUO_CAR_ok _ _ _ _ Hd).
  apply Forall_cons in Hps as [(id & [(code & Hp)|(pid & k & Hp & _)]) Hps].
  - run_step (is_handle_with_ok is_done _ _ _ _ _ Hp). cbn [is_done]. exists (Some p). split; [done|]. split; [by left|]. by exists id, code.
  - run_step (is_handle_with_ok is_done _ _ _ _ _ Hp). cbn [is_done]. run_step (ZUO_CDR_ok _ _ _ _ Hd).
    destruct (IH n d Hl Hps) as (r & E & Hr); [lia|]. exists r. split; [done|]. destruct r as [q|].
    + destruct Hr as [Hq Hf]. split; [by right|done].
    + intros q [->|Hq]%elem_of_cons; [|by apply Hr]. intros (id' & code & Hf). by simplify_eq.
Qed.

(** Overwriting the handle of a running process. *)
Lemma set_handle_ok s p id pid stat :
  mem_ok (s_mem s) → s_heap s !! p = Some (running id pid) → reported (calls s) pid stat →
  ∃ s', set_handle p zuo_handle_process_done_status (exit_result stat) s = Ok tt s'
    ∧ evolves s s' ∧ s_heap s' = <[p := finished id (exit_result stat)]> (s_heap s) ∧ s_rt s' = s_rt s ∧ calls s' = calls s.
Proof.
  intros Hok Hp Hr. unfold set_handle. run_step (get_ok _ _ _ Hp).
  exists (set_heap_at p (finished id (exit_result stat)) s). split; [by eapply put_ok|].
  assert (Ec : calls (set_heap_at p (finished id (exit_result stat)) s) = calls s) by (by destruct s).
  split; [|by autorewrite with zuo_st]. split.
  - intros l o Hl. rewrite s_heap_set. destruct (decide (l = p)) as [->|Hne].
    + right. exists id, pid, stat. rewrite Ec, lookup_insert_eq. rewrite Hp in Hl. by simplify_eq.
    + left. by rewrite lookup_insert_ne.
  - eapply put_mem_ok_le; [done|exact Hp|done].
  - by rewrite s_img_set.
  - by destruct s.
  - exists []. by rewrite Ec, app_nil_r.
Qed.

(** ** A report *)

(** The table of processes without [pid]. *)
Lemma pid_remove {B} s pm pid (k : M B) :
  base_ok s → processes s pm → 0 ≤ pid < 2 ^ 31 →
  ∃ s' , (table <- zr o_pid_table ;; table <- trie_remove trie_fuel table pid 0 ;; set_zr set_o_pid_table table ;;; k) s = k s'
    ∧ keeps s s' ∧ processes s' (delete pid pm) ∧ suspended s' = suspended s ∧ calls s' = calls s
    ∧ o_cleanable_table (s_rt s') = o_cleanable_table (s_rt s).
Proof.
  intros Hb Hm Hp. rewrite (bind_ok (zr o_pid_table) _ _ _ _ eq_refl).
  destruct (id_remove _ _ _ pid Hb Hm Hp) as (t' & s1 & hn & E & Hg & Ht & _). run_step E.
  eexists. split; [reflexivity|]. split; [by apply keeps_set_rt, (keeps_grows _ _ hn)|]. autorewrite with zuo_sys.
  split; [|split; [exact (grows_suspended _ _ _ Hg)|split; [exact (grows_calls _ _ _ Hg)|]]].
  - unfold processes, hash_at. autorewrite with zuo_sys. by destruct (s_rt s1).
  - rewrite (gr_rt _ _ _ Hg). by destruct (s_rt s).
Qed.

Lemma wait_state_signals s s' pm cm : wait_state s pm cm → bracketed s s' → signals_ok s' ∧ suspended s' < INT_MAX.
Proof. intros Hw Hb. split; [exact (bracketed_signals _ _ (ws_signals _ _ _ Hw) Hb)|]. destruct Hb as (_ & -> & _). apply Hw. Qed.

(** What is done with the report of a pid leaves the tables in order. *)
Lemma wait_mark_ok s pm cm pid stat :
  wait_state s pm cm → 0 ≤ pid < 2 ^ 31 → reported (calls s) pid stat →
  ∃ s' cm' l, wait_mark os pid stat s = Ok tt s' ∧ evolves s s' ∧ wait_state s' (delete pid pm) cm' ∧ cm' ⊆ cm
    ∧ calls s' = calls s ++ l ∧ Forall (λ c, is_signal_call c = true) l
    ∧ (∀ k p, pm !! pid = Some (k, p) → is_finished s' p).
Proof.
  intros Hw Hpid Hrep. pose proof Hw as [Him Hpm Hcm Hsig Hsus Hpids]. pose proof (image_base _ Him) as Hb.
  unfold wait_mark. rewrite (bind_ok (zr o_pid_table) _ _ _ _ eq_refl). run_step (id_lookup _ _ _ _ Hpm Hpid). unfold found.
  destruct (pm !! pid) as [[k p]|] eqn:Epm; cbn [from_option snd].
  2:{ assert (Hu : s_heap s !! o_undefined (s_img s) = Some Osingleton).
      { apply (proj1 (Forall_forall _ _) (im_single _ Him)). by left. }
      run_step (has_tag_ok _ _ _ zuo_handle_tag Hu). rewrite bool_decide_false by done.
      exists s, cm, []. split; [done|]. split; [apply evolves_refl, Hb|]. rewrite delete_id by done.
      split; [done|]. split; [done|]. rewrite app_nil_r. done. }
  destruct (Hpids pid _ Epm) as (_ & id & Hid & Hp). cbn in Hp.
  run_step (has_tag_ok _ _ _ zuo_handle_tag Hp). rewrite bool_decide_true by done.
  destruct (set_handle_ok s p id pid stat (im_mem _ Him) Hp Hrep) as (s1 & E1 & Ev1 & Hh1 & Hrt1 & Hc1). run_step E1.
  pose proof (evolves_image _ _ Him Ev1) as Him1. pose proof (image_base _ Him1) as Hb1.
  assert (Hpm1 : processes s1 pm) by (unfold processes; rewrite Hrt1; by eapply evolves_hash).
  assert (Hcm1 : cleanables s1 cm) by (unfold cleanables; rewrite Hrt1; by eapply evolves_hash).
  assert (Hp1 : s_heap s1 !! p = Some (finished id (exit_result stat))) by (rewrite Hh1; apply lookup_insert_eq).
  destruct (pid_remove s1 pm pid (zuo_suspend_signal os ;;; zuo_unregister_cleanable p ;;; zuo_resume_signal os ;;; ret tt) Hb1 Hpm1 Hpid) as (s2 & E2 & K2 & Hpm2 & Hsu2 & Hc2 & Hct2).
  rewrite E2. pose proof (keeps_base _ _ Hb1 K2) as Hb2. pose proof (ev_susp _ _ Ev1) as Hsu1. pose proof (proj1 Hsig) as Hpos.
  set (s3 := set_signals (calls s2 ++ block_call (suspended s2)) (suspended s2 + 1) s2).
  assert (K3 : keeps s2 s3) by (apply keeps_signals, keeps_refl, K2).
  destruct (zuo_unregister_cleanable_ok s3 cm p id zuo_handle_process_done_status (exit_result stat) (keeps_base _ _ Hb2 K3)) as (s4 & t' & E4 & Hop & Hcm4); [| |done|].
  { unfold cleanables. assert (Hrt3 : s_rt s3 = s_rt s2) by (subst s3; by autorewrite with zuo_sys).
    rewrite Hrt3, Hct2. exact (keeps_hash _ _ _ _ (keeps_trans _ _ _ K2 K3) Hcm1). }
  { exact (keeps_lookup _ _ _ _ (keeps_trans _ _ _ K2 K3) Hp1). }
  destruct (bracket_ok os s2 (zuo_unregister_cleanable p) (ret tt) s4 t' ltac:(lia) Hb2 E4 Hop) as (s' & E' & Hbr & Hh' & Hrt' & Hcl).
  rewrite E'. pose proof Hbr as (K' & Hsu' & Hc' & _). pose proof (keeps_trans _ _ _ K2 K') as K1'.
  pose proof (evolves_keeps s1 s' _ K1' ltac:(congruence) ltac:(rewrite Hc', Hc2; reflexivity)) as Ev'.
  exists s', (delete id cm), (block_call (suspended s2) ++ unblock_call (suspended s2)). split; [done|].
  split; [exact (evolves_trans _ _ _ Ev1 Ev')|]. split.
  - split.
    + exact (evolves_image _ _ Him1 Ev').
    + pose proof (keeps_hash _ _ _ _ K' Hpm2) as Hpm'. unfold processes. rewrite Hrt'. by destruct (s_rt s2).
    + by apply Hcl.
    + refine (bracketed_signals _ _ _ Hbr). split; [lia|]. rewrite Hc2, Hc1, Hsu2, Hsu1. apply Hsig.
    + lia.
    + intros pid' e [Hne He]%lookup_delete_Some. destruct (Hpids pid' e He) as (Hpid' & id' & Hid' & He'). split; [done|].
      exists id'. split; [done|]. apply (keeps_lookup _ _ _ _ K1'). rewrite Hh1, lookup_insert_ne; [done|].
      intros Hq. rewrite <- Hq, Hp in He'. unfold running in He'. by simplify_eq.
  - split; [apply delete_subseteq|]. split; [by rewrite Hc', Hc2, Hc1|]. split.
    + unfold block_call, unblock_call. case_match; by repeat constructor.
    + intros k0 p0 Heq. simplify_eq. exists id, (exit_result stat). exact (keeps_lookup _ _ _ _ K1' Hp1).
Qed.

(** ** The loop *)

Lemma reaps_answer N pid k h :
  reaps N pid k h → ∃ n m h' other out,
    k = S n ∧ answered os Swait m h h' (Sret other out) ∧ (m ≤ N)%nat ∧ 0 ≤ other < 2 ^ 31
    ∧ (other = pid ∨ ∀ l, Forall (λ c, is_signal_call c = true) l → reaps N pid n (h' ++ l)).
Proof. destruct 1 as [n m h h' out Ha Hm Hp|n m h h' other out Ha Hm Ho Hr]; do 5 eexists; split_and!; eauto; lia. Qed.

Lemma answered_reported m h h' pid out : answered os Swait m h h' (Sret pid out) → reported h' pid (hd 0 out).
Proof.
  intros Ha. remember (Sret pid out) as r eqn:Er. revert Er.
  induction Ha as [h r Hr Hne|n h h' r Hr Ha IH]; intros ->; [|by apply IH].
  exists h, [], out. by rewrite app_nil_r.
Qed.
Lemma finished_evolves s s' p : evolves s s' → is_finished s p → is_finished s' p.
Proof.
  intros He (id & code & Hp). destruct (ev_heap _ _ He p _ Hp) as [Hp'|(? & ? & ? & Hx & _)]; [by exists id, code|done].
Qed.

Lemma process_evolves s s' pm cm' pid p :
  evolves s s' → wait_state s' (delete pid pm) cm' → (∀ k q, pm !! pid = Some (k, q) → is_finished s' q) →
  process_at s pm p → process_at s' (delete pid pm) p.
Proof.
  intros He Hw Hfin (id & [(code & Hp)|(q & k & Hp & Hq)]).
  - destruct (finished_evolves s s' p He) as (id' & code' & Hp'); [by exists id, code|]. exists id'. left. by exists code'.
  - destruct (decide (q = pid)) as [->|Hne].
    + destruct (Hfin k p Hq) as (id' & code' & Hp'). exists id'. left. by exists code'.
    + assert (Hq' : delete pid pm !! q = Some (k, p)) by (by rewrite lookup_delete_ne).
      destruct (ws_pids _ _ _ Hw q _ Hq') as (_ & id' & _ & Hp'). exists id'. right. by exists q, k.
Qed.

Lemma wait_state_call s pm cm h :
  wait_state s pm cm → Forall (λ c, is_signal_call c = false) h → wait_state (set_calls (calls s ++ h) s) pm cm.
Proof.
  intros Hw Hh. pose proof Hw as [H1 H2 H3 H4 H5 H6].
  assert (K : keeps s (set_calls (calls s ++ h) s)) by (apply keeps_set_calls, keeps_refl, H1).
  split.
  - by eapply image_keeps.
  - unfold processes. rewrite s_rt_set_calls. by eapply keeps_hash.
  - unfold cleanables. rewrite s_rt_set_calls. by eapply keeps_hash.
  - destruct H4 as [Ha Hb]. split; autorewrite with zuo_sys; [done|]. by rewrite blocked_app, mask_other.
  - by autorewrite with zuo_sys.
  - intros pid e He. rewrite s_heap_set_calls. by apply H6.
Qed.

(** A target: a handle of the list whose process has ended or will be
    reported. *)
Definition will_end (N k : nat) (s : st) (p : loc) : Prop :=
  is_finished s p ∨ ∃ id pid, s_heap s !! p = Some (running id pid) ∧ reaps N pid k (calls s).

Lemma wait_loop_ok fuel N l ps n : ∀ k s pm cm p,
  (N < fuel)%nat → wait_state s pm cm → is_list (s_heap s) (o_null (s_img s)) l ps → Forall (process_at s pm) ps →
  p ∈ ps → will_end N k s p → (k < n)%nat →
  ∃ q s' pm' cm', wait_loop os fuel n l s = Ok q s' ∧ q ∈ ps ∧ is_finished s' q ∧ evolves s s'
    ∧ wait_state s' pm' cm' ∧ pm' ⊆ pm ∧ cm' ⊆ cm.
Proof.
  induction n as [|n IH]; intros k s pm cm p HN Hw Hl Hps Hp Hend Hk; [lia|]. cbn [wait_loop].
  rewrite (bind_ok get_st _ s s s eq_refl).
  destruct (find_done_ok s pm (ws_image _ _ _ Hw) ps _ l Hl Hps (is_list_heap_fuel _ _ _ _ Hl)) as (r & E & Hr). run_step E.
  destruct r as [q|].
  { destruct Hr as [Hq Hf]. exists q, s, pm, cm. do 3 (split; [done|]). split; [apply evolves_refl, (ws_image _ _ _ Hw)|done]. }
  destruct Hend as [Hf|(id & pid & Hpid & Hreap)]; [by destruct (Hr p Hp)|].
  destruct (reaps_answer _ _ _ _ Hreap) as (k' & m & h' & other & out & -> & Ha & Hm & Ho & Hcase).
  pose proof (answered_calls _ _ _ _ _ _ Ha) as Eh. run_step (eintr_retry_ok os _ _ _ _ _ Ha fuel s eq_refl ltac:(lia)).
  destruct (Z.ltb_spec other 0); [lia|].
  assert (Hw1 : wait_state (set_calls h' s) pm cm).
  { rewrite Eh. apply wait_state_call; [done|]. by apply Forall_replicate. }
  assert (Hrep : reported (calls (set_calls h' s)) other (hd 0 out)) by (autorewrite with zuo_sys; by eapply answered_reported).
  destruct (wait_mark_ok _ _ _ _ _ Hw1 Ho Hrep) as (s2 & cm2 & sig & E2 & Ev2 & Hw2 & Hsub & Hc2 & Hsig & Hfin). run_step E2.
  pose proof (evolves_keeps s (set_calls h' s) (replicate (S m) Swait) ltac:(apply keeps_set_calls, keeps_refl, (ws_image _ _ _ Hw))
    ltac:(by autorewrite with zuo_sys) ltac:(by autorewrite with zuo_sys)) as Ev1.
  assert (Hps1 : Forall (process_at (set_calls h' s) pm) ps).
  { eapply Forall_impl; [exact Hps|]. unfold process_at. intros q. by rewrite s_heap_set_calls. }
  pose proof (evolves_trans _ _ _ Ev1 Ev2) as Ev.
  assert (Hps2 : Forall (process_at s2 (delete other pm)) ps).
  { eapply Forall_impl; [exact Hps1|]. intros q. by apply (process_evolves _ _ _ _ _ _ Ev2 Hw2). }
  assert (Hl2 : is_list (s_heap s2) (o_null (s_img s2)) l ps) by (rewrite (ev_img _ _ Ev); exact (evolves_list _ _ _ _ _ Ev Hl)).
  destruct (IH k' s2 _ cm2 p HN Hw2 Hl2 Hps2 Hp) as (q & s' & pm' & cm' & E' & Hq & Hf & Ev' & Hw' & Hpm' & Hcm'); [|lia|].
  - pose proof (proj1 (Forall_forall _ _) Hps p Hp) as (id' & [(code & Hx)|(pid' & kk & Hx & Hpm)]).
    { rewrite Hpid in Hx. by unfold running, finished in Hx. }
    assert (pid' = pid) as -> by (rewrite Hpid in Hx; unfold running in Hx; by simplify_eq).
    destruct (decide (other = pid)) as [->|Hne]; [left; by apply (Hfin kk)|].
    assert (Hpm2 : delete other pm !! pid = Some (kk, p)) by (by rewrite lookup_delete_ne).
    destruct (ws_pids _ _ _ Hw2 pid _ Hpm2) as (_ & id2 & _ & Hp2). right. exists id2, pid. split; [done|].
    destruct Hcase as [?|Hcase]; [done|]. rewrite Hc2. autorewrite with zuo_sys. by apply Hcase.
  - exists q, s', pm', cm'. split; [exact E'|]. do 2 (split; [done|]). split; [exact (evolves_trans _ _ _ Ev Ev')|].
    split; [done|]. split; [etransitivity; [exact Hpm'|apply delete_subseteq]|by etransitivity].
Qed.
End wait.

(** C26. [process-wait] returns: of handles of processes that have ended or are
    registered, with one that has ended or whose end the system reports after
    finitely many reports, it ends with a handle of the list that is marked as
    finished.  Every handle that it marks on the way is that of a process whose
    end the system reported, with the result that the reported status stands
    for; the table of processes and the one of cleanables stay in order and
    only lose entries. *)
Theorem process_wait_returns os fuel N k l ps s pm cm p :
  (N < fuel)%nat → (k < fuel)%nat → wait_state s pm cm → is_list (s_heap s) (o_null (s_img s)) l ps →
  Forall (process_at s pm) ps → p ∈ ps → will_end os N k s p →
  ∃ q s' pm' cm', zuo_process_wait os fuel l s = Ok q s' ∧ q ∈ ps ∧ is_finished s' q ∧ evolves os s s'
    ∧ wait_state s' pm' cm' ∧ pm' ⊆ pm ∧ cm' ⊆ cm.
Proof.
  intros HN Hk Hw Hl Hps Hp Hend. unfold zuo_process_wait. rewrite (bind_ok get_st _ s s s eq_refl).
  assert (Hl' : is_list (s_heap s) (o_null (s_img s)) l ((λ x, x) <$> ps)) by (by rewrite list_fmap_id).
  destruct (for_list_ok (λ x, x) (o_null (s_img s)) check_process (λ es σ, σ = s ∧ Forall (process_at s pm) es)) with (es := ps) (n := heap_fuel s) (l := l) (s := s)
    as (s1 & E1 & [-> _] & _); try done.
  - intros q qs σ [-> Hqs]. apply Forall_cons in Hqs as [Hq Hqs]. exists s. split; [|split; [done|apply keeps_refl, (ws_image _ _ _ Hw)]].
    unfold check_process, is_process_handle. destruct Hq as (id & [(code & Hq)|(pid & kk & Hq & _)]).
    + by run_step (is_handle_with_ok (λ s0, negb (is_done s0) || negb (is_running s0)) _ _ _ _ _ Hq).
    + by run_step (is_handle_with_ok (λ s0, negb (is_done s0) || negb (is_running s0)) _ _ _ _ _ Hq).
  - apply (ws_image _ _ _ Hw).
  - exact (is_list_heap_fuel _ _ _ _ Hl).
  - run_step E1. exact (wait_loop_ok os fuel N l ps fuel k s pm cm p HN Hw Hl Hps Hp Hend Hk).
Qed.

(** ** A child that has started *)

Lemma wait_state_keeps s s' pm cm :
  wait_state s pm cm → keeps s s' → s_sys s' = s_sys s → s_rt s' = s_rt s → wait_state s' pm cm.
Proof.
  intros [H1 H2 H3 H4 H5 H6] K Hs Hr. split.
  - by eapply image_keeps.
  - unfold processes. rewrite Hr. by eapply keeps_hash.
  - unfold cleanables. rewrite Hr. by eapply keeps_hash.
  - unfold signals_ok, suspended, calls. by rewrite Hs.
  - unfold suspended. by rewrite Hs.
  - intros pid e He. destruct (H6 pid e He) as (Hp & id & Hid & Hh). split; [done|]. exists id. split; [done|]. by eapply keeps_lookup.
Qed.

Lemma zuo_started_ok pid s pm cm :
  wait_state s pm cm → 0 ≤ pid < 2 ^ 31 → 0 ≤ zuo_handle_count s < 2 ^ 31 →
  ∃ p s', zuo_started pid false s = Ok p s'
    ∧ wait_state s' (<[pid := (p, p)]> pm) (<[zuo_handle_count s := (p, p)]> cm)
    ∧ s_heap s' !! p = Some (running (zuo_handle_count s) pid) ∧ keeps s s' ∧ calls s' = calls s.
Proof.
  intros Hw Hpid Hc. unfold zuo_started.
  destruct (zuo_handle_new pid zuo_handle_process_running_status s (im_mem _ (ws_image _ _ _ Hw))) as (p & s1 & E1 & K1 & _ & Hp & Hr1 & Hs1 & _).
  run_step E1. pose proof (wait_state_keeps _ _ _ _ Hw K1 Hs1 Hr1) as Hw1. pose proof Hw1 as [Him1 Hpm1 Hcm1 Hsig1 Hsus1 Hpids1].
  pose proof (not_undefined _ _ _ Him1 Hp ltac:(done)) as Hpu. rewrite (bind_ok (zr o_pid_table) _ _ _ _ eq_refl).
  destruct (id_extend s1 _ pm p pid p (image_base _ Him1) Hpm1 Hpid Hpu Hpu) as (t' & s2 & hn & E2 & G2 & Ht2). run_step E2.
  rewrite (bind_ok (set_zr set_o_pid_table _) _ _ _ _ eq_refl). cbn beta iota.
  set (s3 := set_s_rt _ s2). assert (K3 : keeps s1 s3) by (apply keeps_set_rt, (keeps_grows _ _ _ G2)).
  assert (Hrt3 : s_rt s3 = set_o_pid_table t' (s_rt s1)) by (subst s3; autorewrite with zuo_sys; by rewrite (gr_rt _ _ _ G2)).
  assert (Hs3 : s_sys s3 = s_sys s1) by (rewrite <- (gr_out _ _ _ G2); subst s3; by destruct s2).
  pose proof (keeps_lookup _ _ _ _ K3 Hp) as Hp3. pose proof (image_keeps _ _ Him1 K3) as Him3.
  assert (Hcm3 : cleanables s3 cm).
  { unfold cleanables. rewrite Hrt3. replace (o_cleanable_table _) with (o_cleanable_table (s_rt s1)) by (by destruct (s_rt s1)). by eapply keeps_hash. }
  assert (Hpm3 : hash_at s3 t' (<[pid := (p, p)]> pm)).
  { unfold hash_at. subst s3. by autorewrite with zuo_sys. }
  rewrite <- (ke_img _ _ K3) in Hpu.
  destruct (zuo_register_cleanable_ok s3 cm p p _ _ _ (image_base _ Him3) Hcm3 Hp3 Hc Hpu Hpu) as (s4 & t4 & E4 & (K4 & Hc4 & Hsu4 & Hr4 & _) & Hm4).
  run_step E4. pose proof (keeps_trans _ _ _ K3 K4) as K14.
  assert (Hs4 : suspended s4 = suspended s1 ∧ calls s4 = calls s1) by (unfold suspended, calls in *; by rewrite Hc4, Hsu4, Hs3).
  destruct Hs4 as [Hsu Hca]. assert (Hs1' : suspended s1 = suspended s ∧ calls s1 = calls s) by (unfold suspended, calls; by rewrite Hs1).
  exists p, s4. split; [done|]. split; [|split; [exact (keeps_lookup _ _ _ _ K4 Hp3)|split; [exact (keeps_trans _ _ _ K1 K14)|rewrite Hca; apply Hs1']]].
  split.
  - exact (image_keeps _ _ Him3 K4).
  - unfold processes. rewrite Hr4, Hrt3. pose proof (keeps_hash _ _ _ _ K4 Hpm3) as H. by destruct (s_rt s1).
  - exact Hm4.
  - unfold signals_ok. by rewrite Hsu, Hca.
  - by rewrite Hsu.
  - intros q e [[<- <-]|[Hne He]]%lookup_insert_Some.
    + split; [done|]. exists (zuo_handle_count s). split; [done|]. exact (keeps_lookup _ _ _ _ K4 Hp3).
    + destruct (Hpids1 q e He) as (Hq & id & Hid & Hh). split; [done|]. exists id. split; [done|]. exact (keeps_lookup _ _ _ _ K14 Hh).
Qed.

(** ** An example *)

(** The system first reports a child that is not in the table, then the child
    100, which has exited with the code 3. *)
Definition waits (h : list syscall) : list syscall := filter (λ c, c = Swait) h.

Definition waiting_os (h : list syscall) : sysret :=
  match reverse h with
  | Swait :: h' => match waits (reverse h') with [] => Sret 7 [0] | _ :: _ => Sret 100 [768] end
  | _ => Sret 0 []
  end.

Lemma waiting_answer h :
  waiting_os (h ++ [Swait]) = match waits h with [] => Sret 7 [0] | _ :: _ => Sret 100 [768] end.
Proof. unfold waiting_os. by rewrite reverse_snoc, reverse_involutive. Qed.

Lemma waiting_reaps : reaps waiting_os 0 100 2 [].
Proof.
  apply (reap_later _ _ _ _ 0 [] ([] ++ [Swait]) 7 [0]); [by apply an_now|lia|lia|]. intros l _.
  apply (reap_now _ _ _ _ 0 _ ((([] ++ [Swait]) ++ l) ++ [Swait]) [768]); [|lia|lia].
  apply an_now; [|done]. rewrite waiting_answer. unfold waits. by rewrite filter_app.
Qed.

Lemma booted_processes : processes booted ∅.
Proof.
  unfold processes. assert (E : o_pid_table (s_rt booted) = o_empty_hash (s_img booted)) by (vm_compute; reflexivity).
  rewrite E. exact booted_empty.
Qed.

Lemma booted_waits : wait_state booted ∅ ∅.
Proof.
  split; [exact booted_image|exact booted_processes|exact booted_cleanables|exact booted_signals| |by intros ? ? ?%lookup_empty_Some].
  rewrite booted_suspended. reflexivity.
Qed.

(** The child 100 and a list of its handle. *)
Definition make_child : M (loc * loc) :=
  p <- zuo_started 100 false ;; null <- zi o_null ;; l <- zuo_cons p null ;; ret (p, l).
Definition child : (loc * loc) * st := match make_child booted with Ok r s => (r, s) | _ => ((0, 0), booted) end.
Definition child_handle : loc := fst (fst child).
Definition child_list : loc := snd (fst child).
Definition child_st : st := snd child.
Definition child_map : fmap_t := <[100 := (child_handle, child_handle)]> ∅.
Definition child_cleanables : fmap_t := <[0 := (child_handle, child_handle)]> ∅.

Lemma child_ok :
  wait_state child_st child_map child_cleanables ∧ s_heap child_st !! child_handle = Some (running 0 100) ∧ calls child_st = []
  ∧ is_list (s_heap child_st) (o_null (s_img child_st)) child_list [child_handle].
Proof.
  destruct (zuo_started_ok 100 booted ∅ ∅ booted_waits) as (p & s1 & E1 & Hw1 & Hp & K1 & Hc1); [lia|rewrite booted_handles; lia|].
  rewrite booted_handles in Hw1, Hp. assert (Hc0 : calls booted = []) by (unfold calls; rewrite booted_sys; reflexivity).
  destruct (zuo_cons_list _ s1 p (o_null (s_img s1)) [] (image_list_pre _ (ws_image _ _ _ Hw1)) eq_refl) as (l & s2 & E2 & G2 & Hl).
  unfold child_map, child_cleanables, child_list, child_handle, child_st, child, make_child.
  rewrite (bind_ok _ _ _ _ _ E1), (bind_ok (zi o_null) _ _ _ _ eq_refl), (bind_ok _ _ _ _ _ E2). cbn [fst snd ret].
  pose proof (keeps_grows _ _ _ G2) as K2.
  split; [exact (wait_state_keeps _ _ _ _ Hw1 K2 (gr_out _ _ _ G2) (gr_rt _ _ _ G2))|].
  split; [exact (keeps_lookup _ _ _ _ K2 Hp)|]. split; [rewrite (grows_calls _ _ _ G2), Hc1; exact Hc0|].
  rewrite (gr_img _ _ _ G2). exact Hl.
Qed.

Lemma process_wait_returns_witness :
  ∃ q s' pm' cm', zuo_process_wait waiting_os 3 child_list child_st = Ok q s' ∧ q ∈ [child_handle] ∧ is_finished s' q
    ∧ evolves waiting_os child_st s' ∧ wait_state s' pm' cm' ∧ pm' ⊆ child_map ∧ cm' ⊆ child_cleanables.
Proof.
  destruct child_ok as (H1 & H2 & H3 & H4).
  refine (process_wait_returns waiting_os 3 0 2 child_list [child_handle] child_st child_map child_cleanables child_handle _ _ H1 H4 _ _ _).
  - apply (proj1 (Nat.ltb_lt _ _)). reflexivity.
  - apply (proj1 (Nat.ltb_lt _ _)). reflexivity.
  - constructor; [|constructor]. exists 0. right. exists 100, child_handle. split; [exact H2|apply lookup_insert_eq].
  - by left.
  - right. exists 0, 100. split; [exact H2|]. rewrite H3. exact waiting_reaps.
Defined.
