(* ===== verification/OpenSpec.v ===== *)
(** * Opening a file for reading

    [fd-open-input] without options, on every kind of argument and on every
    answer of the system: the handle of the descriptor, or the error, and then
    with the reason that the system gave. *)

From S2P Require Import Prelude Sys Heap Alloc Gc GcCorrect Objects Trie Lists ImageOk Intern Prims Path Init Fasl Boot HashSpec InternSpec ListSpec PathBytes PathSpec Files Processes FdSpec Keeps.

(** ** Objects outside of the table of symbols *)

Definition outside (s : st) (l : loc) : Prop := ∀ p, table_at s p ≠ Some l.

(** An object to which no node of a trie points is not in the table. *)
Definition unlinkedb (s : st) (l : loc) : bool :=
  negb (o_intern_table (s_img s) =? l)
  && forallb (λ e, match snd e with Otrie_node _ _ _ next => negb (existsb (Z.eqb l) next) | _ => true end)
       (map_to_list (s_heap s)).

Lemma unlinkedb_outside s l : unlinkedb s l = true → outside s l.
Proof.
  unfold unlinkedb. intros [Hr Hall]%andb_true_iff. apply negb_true_iff, Z.eqb_neq in Hr.
  intros p. unfold table_at. destruct p as [|i p _] using rev_ind; [by intros [=]|]. rewrite walk_snoc.
  destruct (InternSpec.walk _ _ _ p) as [m|]; [|done]. cbn. unfold child. destruct (s_heap s !! m) as [o|] eqn:Em; [|done].
  destruct o as [| | | | |c k v next| | | | | | |]; try done. intros Hl.
  rewrite forallb_forall in Hall. specialize (Hall (m, Otrie_node c k v next)). cbn in Hall.
  destruct (next !! i) as [n|] eqn:En; [|done]. cbn in Hl. case_decide; [done|]. simplify_eq.
  assert (Hin : List.In (m, Otrie_node c k v next) (map_to_list (s_heap s))) by (by apply list_elem_of_In, elem_of_map_to_list).
  apply Hall, negb_true_iff in Hin. apply list_elem_of_lookup_2 in En.
  apply not_true_iff_false in Hin. apply Hin, existsb_exists. exists l. split; [by apply list_elem_of_In|apply Z.eqb_refl].
Qed.

(** ** Options left out *)

Lemma no_options_ok who s t k v n :
  s_heap s !! t = Some (Otrie_node 0 k v n) → check_hash who t s = Ok tt s ∧ check_options_consumed who t s = Ok tt s.
Proof.
  intros Ht. split.
  - unfold check_hash. by run_step (has_tag_ok _ _ _ zuo_trie_node_tag Ht).
  - unfold check_options_consumed, trie_count. rewrite bind_assoc. by run_step (get_ok _ _ _ Ht).
Qed.

(** ** The outcomes *)

Definition who_open : list Z := bytes_of "fd-open-input".
Definition not_openable : list Z := bytes_of "path string, 'stdin, or nonnegative integer".

(** A new handle of the descriptor [raw] for reading. *)
Definition gives_input (raw : Z) (r : outcome st error loc) : Prop :=
  ∃ p s' id, r = Ok p s' ∧ s_heap s' !! p = Some (Ohandle id zuo_handle_open_fd_in_status raw).

Lemma zuo_handle_gives raw s :
  mem_ok (s_mem s) → gives_input raw (zuo_handle raw zuo_handle_open_fd_in_status s).
Proof.
  intros Hok. destruct (zuo_handle_new raw zuo_handle_open_fd_in_status s Hok) as (p & s' & E & _ & _ & Hp & _).
  by exists p, s', (zuo_handle_count s).
Qed.

(** Whether an object is the symbol of a name. *)
Lemma symbol_is_named s str path l s' :
  intern_ok s → name_ok str → is_Some (s_heap s !! path) → interns s str l s' → path = l ↔ interned s str = Some path.
Proof.
  intros Hok Hstr [o Ho] Hi. destruct (interned s str) as [l0|] eqn:E.
  - destruct (in_old _ _ _ _ Hi l0 E) as [-> _]. split; [by intros ->|by intros [=]].
  - destruct (in_new _ _ _ _ Hi E) as [Hf _]. split; [intros ->; congruence|done].
Qed.

Lemma fd_number_ok s l o : s_heap s !! l = Some o → fd_number l s = Ok (match o with Ointeger i => i | _ => -1 end) s.
Proof.
  intros Hl. unfold fd_number. run_step (has_tag_ok _ _ _ zuo_integer_tag Hl).
  destruct o; cbn [obj_tag]; try by rewrite bool_decide_false by done. rewrite bool_decide_true by done. by apply ZUO_INT_I_ok.
Qed.

Section open.
Variable os : list syscall → sysret.
Variable fuel : nat.

(** What an argument that is no path leads to. *)
Lemma open_other s path o :
  image_ok s → intern_ok s → hash_at s (o_empty_hash (s_img s)) ∅ → outside s (o_empty_hash (s_img s)) → outside s path →
  s_heap s !! path = Some o → path_arg s path = None →
  if decide (interned s (bytes_of "stdin") = Some path) then gives_input 0 (zuo_fd_open_input os fuel path (o_undefined (s_img s)) s)
  else match o with
       | Ointeger i =>
           if decide (0 ≤ i) then gives_input (to_s32 i) (zuo_fd_open_input os fuel path (o_undefined (s_img s)) s)
           else ∃ s', zuo_fd_open_input os fuel path (o_undefined (s_img s)) s = zuo_fail_arg who_open not_openable path s'
       | _ => ∃ s', zuo_fd_open_input os fuel path (o_undefined (s_img s)) s = zuo_fail_arg who_open not_openable path s'
       end.
Proof.
  intros Him Hin Hempty Hout Hpout Ho Hnp. assert (Hst : name_ok (bytes_of "stdin")) by (repeat constructor).
  destruct (zuo_symbol_ok s (bytes_of "stdin") Him Hin Hst) as (l & s1 & E1 & Hi).
  destruct (hash_at_node _ _ _ Hempty) as (c & k & v & n & Hnode & ->). rewrite map_size_empty in Hnode. cbn in Hnode.
  pose proof (in_keep _ _ _ _ Hi _ _ Hnode Hout) as Hnode1. pose proof (in_keep _ _ _ _ Hi _ _ Ho Hpout) as Ho1.
  destruct (no_options_ok who_open s1 _ _ _ _ Hnode1) as [Hch Hco].
  assert (Hm1 : mem_ok (s_mem s1)) by apply (in_ok _ _ _ _ Hi).
  assert (E : zuo_fd_open_input os fuel path (o_undefined (s_img s)) s
    = (fd <- (if decide (path = l) then ret 0
              else if match o with Ointeger i => i | _ => -1 end <? 0 then zuo_fail_arg who_open not_openable path
              else ret (to_s32 match o with Ointeger i => i | _ => -1 end)) ;;
       zuo_handle fd zuo_handle_open_fd_in_status) s1).
  { unfold zuo_fd_open_input, zuo_fd_open_input_handle, given_options. rewrite !bind_assoc.
    run_step (is_zi_eq o_undefined (o_undefined (s_img s)) s eq_refl). rewrite (bind_ok (zi o_empty_hash) _ _ _ _ eq_refl).
    rewrite bind_assoc. run_step (is_not_path_ok s path (ex_intro _ _ Ho) Hnp). rewrite bind_assoc. run_step E1.
    case_decide as Hl.
    - rewrite bind_assoc. run_step Hch. rewrite bind_assoc. by run_step Hco.
    - rewrite bind_assoc. run_step (fd_number_ok s1 path o Ho1). case_match; [done|].
      rewrite bind_assoc. run_step Hch. rewrite bind_assoc. by run_step Hco. }
  rewrite E. pose proof (symbol_is_named _ _ _ _ _ Hin Hst (ex_intro _ _ Ho) Hi) as Hiff.
  destruct (decide (interned s (bytes_of "stdin") = Some path)) as [Hx|Hx].
  { rewrite decide_True by (by apply Hiff). by apply zuo_handle_gives. }
  rewrite decide_False by (by intros Hy%Hiff).
  destruct o; try (exists s1; reflexivity). destruct (decide (0 ≤ i)) as [Hi0|Hi0].
  - destruct (Z.ltb_spec i 0); [lia|]. by apply zuo_handle_gives.
  - destruct (Z.ltb_spec i 0); [by exists s1|lia].
Qed.

(** A path: the answer of the system decides. *)
Lemma open_path s path b n h' r :
  image_ok s → hash_at s (o_empty_hash (s_img s)) ∅ → path_arg s path = Some b →
  answered os (Sopen b [O_RDONLY] None) n (calls s) h' r → (n < fuel)%nat →
  match r with
  | Sret fd _ => ∃ p s', zuo_fd_open_input os fuel path (o_undefined (s_img s)) s = Ok p s' ∧ keeps s s' ∧ calls s' = h'
      ∧ s_rt s' = s_rt s ∧ s_heap s' !! p = Some (Ohandle (zuo_handle_count s) zuo_handle_open_fd_in_status fd)
  | Serrno e => zuo_fd_open_input os fuel path (o_undefined (s_img s)) s
      = Fail (Efail1w_errno who_open (bytes_of "file open failed") path e) (set_calls h' s)
  end.
Proof.
  intros Him Hempty Hp Ha Hn. destruct (path_arg_string _ _ _ Hp) as [Hs Hb].
  destruct (hash_at_node _ _ _ Hempty) as (c & k & v & m & Hnode & ->). rewrite map_size_empty in Hnode. cbn in Hnode.
  destruct (no_options_ok who_open s _ _ _ _ Hnode) as [Hch Hco].
  assert (E : zuo_fd_open_input os fuel path (o_undefined (s_img s)) s
    = match r with
      | Serrno e => Fail (Efail1w_errno who_open (bytes_of "file open failed") path e) (set_calls h' s)
      | Sret fd _ => zuo_handle fd zuo_handle_open_fd_in_status (set_calls h' s)
      end).
  { unfold zuo_fd_open_input, zuo_fd_open_input_handle, given_options. rewrite !bind_assoc.
    run_step (is_zi_eq o_undefined (o_undefined (s_img s)) s eq_refl). rewrite (bind_ok (zi o_empty_hash) _ _ _ _ eq_refl).
    rewrite bind_assoc. run_step (is_path_string_ok s path b Hs). rewrite bool_decide_true by done.
    rewrite bind_assoc. run_step Hch. rewrite bind_assoc. run_step Hco. rewrite bind_assoc. run_step (ZUO_STRING_PTR_ok _ _ _ Hs).
    rewrite bind_assoc. run_step (eintr_retry_ok os _ _ _ _ _ Ha fuel s eq_refl Hn). by destruct r. }
  destruct r as [fd out|e]; rewrite E; [|done].
  destruct (zuo_handle_new fd zuo_handle_open_fd_in_status (set_calls h' s)) as (p & s' & E' & K & _ & Hh & Hr & Hsys & _);
    [rewrite s_mem_set_calls; apply Him|].
  exists p, s'. split; [done|]. split; [|split; [|split]].
  - exact (keeps_trans _ _ _ (keeps_set_calls _ _ h' (keeps_refl _ (im_mem _ Him))) K).
  - unfold calls. rewrite Hsys. fold (calls (set_calls h' s)). by rewrite calls_set.
  - by rewrite Hr, s_rt_set_calls.
  - rewrite Hh. by destruct s.
Qed.
End open.

(** C30. [fd-open-input], with its options left out, on every argument.  A path
    is opened for reading, once more after each interruption: the result is a
    new handle of the descriptor, with nothing else changed, or the error with
    the path and with the number that the system gave.  A nonnegative integer,
    cut to an [int], and the symbol [stdin] give handles without a call.  Everything else, the
    empty string and a string with a NUL in it too, is reported as an argument
    of the wrong kind. *)
Theorem fd_open_input_outcomes os fuel s path o n h' r :
  image_ok s → intern_ok s → hash_at s (o_empty_hash (s_img s)) ∅ → outside s (o_empty_hash (s_img s)) → outside s path →
  s_heap s !! path = Some o →
  (∀ b, path_arg s path = Some b → answered os (Sopen b [O_RDONLY] None) n (calls s) h' r) → (n < fuel)%nat →
  let result := zuo_fd_open_input os fuel path (o_undefined (s_img s)) s in
  let wrong := ∃ s', result = zuo_fail_arg who_open not_openable path s' in
  match path_arg s path with
  | Some b =>
      match r with
      | Sret fd _ => ∃ p s', result = Ok p s' ∧ keeps s s' ∧ calls s' = h' ∧ s_rt s' = s_rt s
          ∧ s_heap s' !! p = Some (Ohandle (zuo_handle_count s) zuo_handle_open_fd_in_status fd)
      | Serrno e => result = Fail (Efail1w_errno who_open (bytes_of "file open failed") path e) (set_calls h' s)
      end
  | None =>
      if decide (interned s (bytes_of "stdin") = Some path) then gives_input 0 result
      else match o with
           | Ointeger i => if decide (0 ≤ i) then gives_input (to_s32 i) result else wrong
           | _ => wrong
           end
  end.
Proof.
  intros Him Hin Hempty Hout Hpout Ho Hans Hn. cbn zeta. destruct (path_arg s path) as [b|] eqn:Hp.
  - exact (open_path os fuel s path b n h' r Him Hempty Hp (Hans b eq_refl) Hn).
  - exact (open_other os fuel s path o Him Hin Hempty Hout Hpout Ho Hp).
Qed.

(** ** An example *)

(** A system in which there is no file, and the name of a symbol as a path. *)
Definition no_files_os (h : list syscall) : sysret := Serrno 2.

Definition quote_name : loc :=
  match s_heap booted !! o_quote_symbol (s_img booted) with Some (Osymbol _ l) => l | _ => 0 end.

Lemma quote_name_string : s_heap booted !! quote_name = Some (Ostring (bytes_of "quote")).
Proof. vm_compute. reflexivity. Qed.
Lemma quote_name_path : path_arg booted quote_name = Some (bytes_of "quote").
Proof. unfold path_arg. rewrite quote_name_string. by rewrite decide_True by (apply (bool_decide_eq_true_1 _); vm_compute; reflexivity). Qed.

Lemma fd_open_input_outcomes_witness :
  zuo_fd_open_input no_files_os 1 quote_name (o_undefined (s_img booted)) booted
  = Fail (Efail1w_errno who_open (bytes_of "file open failed") quote_name 2)
      (set_calls (calls booted ++ [Sopen (bytes_of "quote") [O_RDONLY] None]) booted).
Proof.
  pose proof (fd_open_input_outcomes no_files_os 1 booted quote_name (Ostring (bytes_of "quote")) 0
    (calls booted ++ [Sopen (bytes_of "quote") [O_RDONLY] None]) (Serrno 2) booted_image booted_table booted_empty) as H.
  rewrite quote_name_path in H. apply H.
  - apply unlinkedb_outside. vm_compute. reflexivity.
  - apply unlinkedb_outside. vm_compute. reflexivity.
  - exact quote_name_string.
  - intros b [= <-]. by apply an_now.
  - exact Nat.lt_0_1.
Defined.
