(* ===== verification/FileSpec.v ===== *)
(** * Copying a file

    [cp] with an operating system whose reads give some of what is left of the
    source and whose writes take all that they are given: the destination gets
    the bytes of the source. *)

From S2P Require Import Prelude Sys Heap Alloc Gc GcCorrect Objects Trie Lists ImageOk Intern Prims Path Init Fasl Boot PathBytes PathSpec Files FileSystem FdSpec.

Section copy.
Context (os : list syscall → sysret).

(** The call is answered by [r] whenever it is made, after [N] interruptions at
    most. *)
Class Yields (c : syscall) (r : sysret) (N : nat) : Prop :=
  yields h : ∃ n h', answered os c n h h' r ∧ (n ≤ N)%nat.

(** Every write to [fd] takes all that it is given. *)
Class Whole (fd : Z) (N : nat) : Prop :=
  whole b : b ≠ [] → Yields (Swrite fd b) (Sret (Z.of_nat (length b)) []) N.

(** Calls that move nothing. *)
Definition idle (f : syscall → sysret → list Z) (c : syscall) : Prop := ∀ r, f c r = [].

Lemma moved_idle f l : ∀ h, Forall (idle f) l → moved os f h l = [].
Proof.
  induction l as [|c l IH]; intros h Hl; [done|]. apply Forall_cons in Hl as [Hc Hl]. cbn. rewrite Hc. exact (IH _ Hl).
Qed.

Lemma rest_idle fd F h l : Forall (idle (given fd)) l → rest os fd F (h ++ l) = rest os fd F h.
Proof. intros Hl. unfold rest. by rewrite moved_app, (moved_idle _ _ _ Hl), app_nil_r. Qed.

(** A call that is answered as it should be. *)
Lemma retry_yields c r N fuel s `{!Yields c r N} :
  (N < fuel)%nat → ∃ n, retry os fuel c s = Ok r (set_calls (calls s ++ replicate (S n) c) s).
Proof.
  intros HN. destruct (yields (calls s)) as (n & h' & Ha & Hn). exists n.
  destruct (answered_moved os (λ _ _, []) _ _ _ _ _ (λ _ _, eq_refl) Ha) as [<- _].
  eapply eintr_retry_ok; [exact Ha|done|lia].
Qed.

Lemma idle_replicate f c n : idle f c → Forall (idle f) (replicate n c).
Proof. intros H. by apply Forall_replicate. Qed.

(** One block written. *)
Lemma cp_write_ok fuel N who dp dfd out s n `{!Whole dfd N} :
  out ≠ [] → (N < fuel)%nat → (2 ≤ n)%nat →
  ∃ k, cp_write os fuel n who dp dfd out (Z.of_nat (length out)) s
      = Ok tt (set_calls (calls s ++ replicate (S k) (Swrite dfd out)) s)
    ∧ moved os (taken dfd) (calls s) (replicate (S k) (Swrite dfd out)) = out.
Proof.
  intros Hne HN Hn. destruct n as [|[|n]]; [lia|lia|]. cbn [cp_write].
  destruct (Z.ltb_spec 0 (Z.of_nat (length out))); [|by destruct out].
  rewrite Nat2Z.id, take_ge by done. destruct (@yields _ _ _ (whole out Hne) (calls s)) as (k & h' & Ha & Hk).
  destruct (answered_moved os (taken dfd) _ _ _ _ _ (taken_errno dfd) Ha) as [E Hmv]. exists k.
  run_step (eintr_retry_ok os _ _ _ _ _ Ha fuel s eq_refl ltac:(lia)).
  rewrite (proj2 (Z.ltb_ge (Z.of_nat (length out)) 0)) by lia. rewrite Z.sub_diag. cbn [Z.ltb Z.compare].
  rewrite E. split; [done|]. rewrite Hmv. cbn [taken]. rewrite decide_True by done. by rewrite Nat2Z.id, take_ge by done.
Qed.

Lemma cp_loop_ok fuel N who sp dp sfd dfd F `{!Stream os sfd F N, !Whole dfd N} n : ∀ s,
  (N < fuel)%nat → (2 ≤ fuel)%nat → (length (rest os sfd F (calls s)) < n)%nat →
  ∃ new, cp_loop os fuel n who sp dp sfd dfd s = Ok tt (set_calls (calls s ++ new) s)
    ∧ moved os (taken dfd) (calls s) new = rest os sfd F (calls s) ∧ rest os sfd F (calls s ++ new) = [].
Proof.
  induction n as [|n IH]; intros s HN H2 Hn; [lia|]. cbn [cp_loop].
  destruct (stream_read os (calls s) 4096) as (m & h' & out & Han & Hm & Hout & Hpre & Hend); [lia|].
  destruct (answered_moved os (given sfd) _ _ _ _ _ (given_errno sfd) Han) as [Eh _].
  pose proof (rest_read os _ F _ _ _ _ _ Han) as Hrest.
  run_step (eintr_retry_ok os _ _ _ _ _ Han fuel s eq_refl ltac:(lia)).
  set (reads := replicate (S m) (Sread sfd 4096)) in *.
  assert (Hrd : moved os (taken dfd) (calls s) reads = []) by (apply moved_idle, idle_replicate; by intros []).
  destruct (decide (out = [])) as [->|Hne].
  { cbn. exists reads. rewrite Eh. split; [done|]. rewrite Hrd, (Hend eq_refl), <- Eh, Hrest. by rewrite (Hend eq_refl). }
  destruct (Z.eqb_spec (Z.of_nat (length out)) 0) as [H0|_]; [by destruct out|].
  rewrite (proj2 (Z.ltb_ge _ _)) by lia. set (s1 := set_calls h' s).
  destruct (cp_write_ok fuel N who dp dfd out s1 fuel Hne HN H2) as (k & Ew & Hw). run_step Ew. subst s1. autorewrite with zuo_sys in *.
  set (writes := replicate (S k) (Swrite dfd out)) in *.
  assert (Hidle : Forall (idle (given sfd)) writes) by (apply idle_replicate; by intros []).
  destruct (IH (set_calls (h' ++ writes) s)) as (new & E & Hmv & Hr); [done|done| |].
  { autorewrite with zuo_sys. rewrite (rest_idle _ _ _ _ Hidle), Hrest, length_drop.
    assert (Hlo : (0 < length out)%nat) by (destruct out; [done|cbn; lia]).
    apply prefix_length in Hpre. lia. }
  autorewrite with zuo_sys in E, Hmv, Hr. exists (reads ++ writes ++ new).
  rewrite E, Eh, <- !app_assoc. split; [done|]. rewrite !moved_app, Hrd, <- Eh, Hw, Hmv, (rest_idle _ _ _ _ Hidle), Hrest.
  split.
  - destruct Hpre as [R' HR]. rewrite HR, drop_app_length. done.
  - rewrite Eh, <- !app_assoc in Hr. done.
Qed.
End copy.

(** A computation that only makes calls, of which those to [fd] move nothing. *)
Definition quiet {A} (os : list syscall → sysret) (fd sfd : Z) (c : M A) (a : A) : Prop :=
  ∀ s, ∃ new, c s = Ok a (set_calls (calls s ++ new) s) ∧ Forall (idle (taken fd)) new ∧ Forall (idle (given sfd)) new.

Lemma quiet_retry os fuel N fd sfd c r `{!Yields os c r N} :
  (N < fuel)%nat → idle (taken fd) c → idle (given sfd) c → quiet os fd sfd (retry os fuel c) r.
Proof.
  intros HN H1 H2 s. destruct (retry_yields os c r N fuel s HN) as (n & E). exists (replicate (S n) c).
  split; [done|]. by split; apply idle_replicate.
Qed.

Lemma quiet_call os fd sfd c r :
  (∀ h, os (h ++ [c]) = r) → idle (taken fd) c → idle (given sfd) c → quiet os fd sfd (sys_call os c) r.
Proof.
  intros Hr H1 H2 s. exists [c]. split; [|by repeat constructor]. unfold sys_call. cbn zeta. fold (calls s). by rewrite Hr.
Qed.

Lemma quiet_ret {A} os fd sfd (a : A) : quiet os fd sfd (ret a) a.
Proof. intros s. exists []. rewrite app_nil_r, set_calls_id. done. Qed.

Lemma quiet_bind {A B} os fd sfd (c : M A) a (k : A → M B) b :
  quiet os fd sfd c a → quiet os fd sfd (k a) b → quiet os fd sfd (bind c k) b.
Proof.
  intros Hc Hk s. destruct (Hc s) as (l & E & H1 & H2). destruct (Hk (set_calls (calls s ++ l) s)) as (l' & E' & H3 & H4).
  exists (l ++ l'). run_step E. rewrite E'. autorewrite with zuo_sys. rewrite app_assoc. split; [done|].
  split; by apply Forall_app_2.
Qed.

(** C29. [cp] gives the destination the bytes of the source: with files that
    open, a source whose reads give some of the rest of its bytes, however few,
    and a destination that takes every write whole, it returns after finitely
    many calls, which together moved to the destination what was left of the
    source, in order; nothing of the state but the calls has changed. *)
Theorem cp_copies os fuel N s src_path dest_path src dest perms replace sfd dfd F out mode :
  (N < fuel)%nat → (2 ≤ fuel)%nat → (length (rest os sfd F (calls s)) < fuel)%nat →
  string_at s src_path src → string_at s dest_path dest →
  Yields os (Sopen src [O_RDONLY] None) (Sret sfd []) N → (∀ h, os (h ++ [Sfstat sfd]) = Sret 0 out) →
  mode = default (st_mode (stat_of out)) perms →
  Yields os (Sopen dest [O_WRONLY; O_CREAT; O_TRUNC] (Some mode)) (Sret dfd []) N →
  (∀ h, os (h ++ [Sfchmod dfd mode]) = Sret 0 []) → Stream os sfd F N → Whole os dfd N →
  Yields os (Sclose sfd) (Sret 0 []) N → Yields os (Sclose dfd) (Sret 0 []) N →
  ∃ new, cp_files os fuel (bytes_of "cp") src_path dest_path perms replace s = Ok tt (set_calls (calls s ++ new) s)
    ∧ moved os (taken dfd) (calls s) new = rest os sfd F (calls s).
Proof.
  intros HN H2 HF Hs Hd Ho Hst -> Hod Hch HS HW Hcs Hcd. unfold cp_files.
  run_step (ZUO_STRING_PTR_ok _ _ _ Hs). run_step (ZUO_STRING_PTR_ok _ _ _ Hd). set (mode := default _ perms) in *.
  destruct (quiet_retry os fuel N dfd sfd _ _ (Yields0 := Ho) HN ltac:(by intros []) ltac:(by intros []) s) as (l1 & E1 & T1 & G1). run_step E1.
  assert (Q2 : quiet os dfd sfd (match perms with
    | Some m => ret m
    | None => r <- sys_call os (Sfstat sfd) ;;
        match r with Serrno e => zuo_fail1w_errno (bytes_of "cp") (bytes_of "source stat failed") src_path e
        | Sret _ out0 => ret (st_mode (stat_of out0)) end end) mode).
  { subst mode. destruct perms as [m|]; [apply quiet_ret|]. apply (quiet_bind _ _ _ _ (Sret 0 out)); [|apply quiet_ret].
    apply quiet_call; [exact Hst|by intros []|by intros []]. }
  destruct (Q2 (set_calls (calls s ++ l1) s)) as (l2 & E2 & T2 & G2). run_step E2. autorewrite with zuo_sys.
  set (s2 := set_calls _ s).
  destruct (quiet_retry os fuel N dfd sfd _ _ (Yields0 := Hod) HN ltac:(by intros []) ltac:(by intros []) s2) as (l3 & E3 & T3 & G3). run_step E3.
  assert (Q4 : quiet os dfd sfd (if replace then r <- sys_call os (Sfchmod dfd mode) ;;
       match r with Serrno e => zuo_fail1w_errno (bytes_of "cp") (bytes_of "destination permissions update failed") dest_path e
       | Sret _ _ => ret tt end else ret tt) tt).
  { destruct replace; [|apply quiet_ret]. apply (quiet_bind _ _ _ _ (Sret 0 [])); [|apply quiet_ret]. apply quiet_call; [exact Hch|by intros []|by intros []]. }
  destruct (Q4 (set_calls (calls s2 ++ l3) s2)) as (l4 & E4 & T4 & G4). run_step E4.
  subst s2. autorewrite with zuo_sys. set (pre := l1 ++ l2 ++ l3 ++ l4).
  assert (Epre : (((calls s ++ l1) ++ l2) ++ l3) ++ l4 = calls s ++ pre) by (subst pre; by rewrite <- !app_assoc).
  rewrite Epre. assert (Tp : Forall (idle (taken dfd)) pre) by (subst pre; by repeat apply Forall_app_2).
  assert (Gp : Forall (idle (given sfd)) pre) by (subst pre; by repeat apply Forall_app_2).
  set (s4 := set_calls (calls s ++ pre) s).
  destruct (cp_loop_ok os fuel N (bytes_of "cp") src_path dest_path sfd dfd F fuel s4 HN H2) as (mid & E5 & Hmv & _).
  { subst s4. autorewrite with zuo_sys. by rewrite (rest_idle _ _ _ _ _ Gp). }
  run_step E5. set (s5 := set_calls _ s4).
  assert (Q6 : quiet os dfd sfd (retry os fuel (Sclose sfd) ;;; retry os fuel (Sclose dfd) ;;; ret tt) tt).
  { eapply quiet_bind; [exact (quiet_retry os fuel N dfd sfd _ _ (Yields0 := Hcs) HN ltac:(by intros []) ltac:(by intros []))|].
    eapply quiet_bind; [exact (quiet_retry os fuel N dfd sfd _ _ (Yields0 := Hcd) HN ltac:(by intros []) ltac:(by intros []))|apply quiet_ret]. }
  destruct (Q6 s5) as (post & E6 & T6 & _). exists (pre ++ mid ++ post). rewrite E6. subst s5 s4. autorewrite with zuo_sys in *.
  split; [by rewrite <- !app_assoc|]. rewrite !moved_app, (moved_idle os _ _ _ Tp), Hmv, (moved_idle os _ _ _ T6), app_nil_r.
  by rewrite (rest_idle _ _ _ _ _ Gp).
Qed.

(** ** An example *)

(** The source gives one byte at a time, and the destination takes all. *)
Definition copy_os (h : list syscall) : sysret :=
  match reverse h with
  | Swrite _ b :: _ => Sret (Z.of_nat (length b)) []
  | Sread fd _ :: h' => let out := take 1 (drop (reads_of fd h') sample_file) in Sret (Z.of_nat (length out)) out
  | Sopen _ [O_RDONLY] _ :: _ => Sret 3 []
  | Sopen _ _ _ :: _ => Sret 4 []
  | _ => Sret 0 []
  end.

Lemma copy_answer h c : copy_os (h ++ [c]) = match c with
  | Swrite _ b => Sret (Z.of_nat (length b)) []
  | Sread fd _ => let out := take 1 (drop (reads_of fd h) sample_file) in Sret (Z.of_nat (length out)) out
  | Sopen _ [O_RDONLY] _ => Sret 3 []
  | Sopen _ _ _ => Sret 4 []
  | _ => Sret 0 [] end.
Proof. unfold copy_os. rewrite reverse_snoc. destruct c; try done. by rewrite reads_of_reverse. Qed.

Lemma copy_yields c r : (∀ h, copy_os (h ++ [c]) = r) → r ≠ Serrno EINTR → Yields copy_os c r 0.
Proof. intros Hr Hne h. exists 0%nat, (h ++ [c]). split; [by apply an_now|lia]. Qed.

Definition two_paths : (loc * loc) * st :=
  match (a <- zuo_string (bytes_of "from") ;; b <- zuo_string (bytes_of "to") ;; ret (a, b)) booted with
  | Ok r s => (r, s) | _ => ((0, 0), booted) end.
Definition copy_st : st := snd two_paths.

Lemma cp_copies_witness :
  ∃ new, cp_files copy_os 20 (bytes_of "cp") (fst (fst two_paths)) (snd (fst two_paths)) None true copy_st
      = Ok tt (set_calls (calls copy_st ++ new) copy_st)
    ∧ moved copy_os (taken 4) (calls copy_st) new = rest copy_os 3 sample_file (calls copy_st).
Proof.
  refine (cp_copies copy_os 20 0 copy_st (fst (fst two_paths)) (snd (fst two_paths)) (bytes_of "from") (bytes_of "to") None true 3 4 sample_file []
    0 _ _ _ _ _ (copy_yields _ _ _ _) _ _ (copy_yields _ _ _ _) _ _ _ (copy_yields _ _ _ _) (copy_yields _ _ _ _)).
  all: try (intros; rewrite copy_answer; reflexivity).
  all: try discriminate.
  - apply (proj1 (Nat.ltb_lt _ _)). reflexivity.
  - apply (proj1 (Nat.leb_le _ _)). reflexivity.
  - apply (proj1 (Nat.ltb_lt _ _)). vm_compute. reflexivity.
  - vm_compute. reflexivity.
  - vm_compute. reflexivity.
  - reflexivity.
  - apply bytewise_stream. intros h fd amt. apply copy_answer.
  - intros b Hb. apply copy_yields; [intros h; apply copy_answer|discriminate].
Defined.
