(* ===== verification/FaslSpec.v ===== *)
(** * Images

    What [zuo_fasl_dump] writes, [zuo_fasl_restore] reads back: the objects
    that the image roots reach come back with their contents, at new addresses
    that keep different objects apart, in one piece at the start of a new
    space.  The count of a trie node and the tag of a continuation are not
    part of an image. *)

From S2P Require Import Prelude Sys Heap Alloc Gc GcCorrect Objects Trie Lists ImageOk Fasl Init Boot.

(** ** The position of an object in the map *)

Fixpoint index_of (c : list loc) (l : loc) : Z :=
  match c with
  | [] => 0
  | x :: c' => if decide (x = l) then 0 else 1 + index_of c' l
  end.

Lemma index_of_nonneg c l : 0 ≤ index_of c l.
Proof. induction c as [|x c IH]; cbn; [lia|]. case_decide; lia. Qed.

Lemma index_of_lt c l : l ∈ c → index_of c l < Z.of_nat (length c).
Proof.
  induction c as [|x c IH]; [by intros ?%not_elem_of_nil|]. cbn [index_of length]. case_decide as E; [lia|].
  intros [->|Hl]%elem_of_cons; [done|]. specialize (IH Hl). lia.
Qed.

Lemma index_of_app c c' l : l ∈ c → index_of (c ++ c') l = index_of c l.
Proof.
  induction c as [|x c IH]; [by intros ?%not_elem_of_nil|]. cbn. case_decide as E; [done|].
  intros [->|Hl]%elem_of_cons; [done|]. by rewrite IH.
Qed.

Lemma index_of_new c l : l ∉ c → index_of (c ++ [l]) l = Z.of_nat (length c).
Proof.
  induction c as [|x c IH]; cbn [app index_of length]; intros H; [by rewrite decide_True|].
  apply not_elem_of_cons in H as [H1 H2]. rewrite decide_False, IH by done. lia.
Qed.

Lemma index_of_ext c c' ls : Forall (λ l, l ∈ c) ls → index_of (c ++ c') <$> ls = index_of c <$> ls.
Proof.
  intros H. apply list_fmap_ext. intros i x Hx. rewrite Forall_forall in H.
  apply index_of_app, H, list_elem_of_lookup. by exists i.
Qed.

(** ** The words of an object *)

(** The pointers that are written: an empty sub-trie is not. *)
Definition refs (u : loc) (o : obj) : list loc :=
  match o with
  | Otrie_node _ k v next => k :: v :: filter (λ n, n ≠ u) next
  | _ => ptrs o
  end.

Lemma refs_ptrs u o p : p ∈ refs u o → p ∈ ptrs o.
Proof.
  destruct o; cbn; try done. rewrite !elem_of_cons, list_elem_of_filter. tauto.
Qed.

Lemma ptrs_refs u o p : p ∈ ptrs o → p = u ∨ p ∈ refs u o.
Proof.
  destruct o; cbn; try tauto. rewrite !elem_of_cons, list_elem_of_filter.
  destruct (decide (p = u)); tauto.
Qed.

Section words.
Context (table : list registered) (u : loc).

(** What comes before the pointers. *)
Definition prefix (o : obj) : list Z :=
  match o with
  | Ointeger i => [fasl_lo i; fasl_hi i]
  | Ostring b => [fasl_lo (Z.of_nat (length b)); fasl_hi (Z.of_nat (length b))] ++ b
  | Osymbol id _ => [id]
  | Otrie_node _ _ _ next => [trie_mask u 0 next]
  | Oprimitive _ proc _ _ => [from_option id 0 (find_proc proc 0 table)]
  | _ => []
  end.

Definition words (ix : loc → Z) (o : obj) : list Z := tag_int (obj_tag o) :: prefix o ++ (ix <$> refs u o).

(** The objects that can be dumped. *)
Definition dumpable (o : obj) : Prop :=
  match o with
  | Ointeger i => in_s64 i
  | Ostring b => Forall is_byte b
  | Osymbol id _ => in_s32 id
  | Otrie_node _ _ _ next => length next = 16%nat
  | Oprimitive d proc a _ => ∃ i, find_proc proc 0 table = Some i ∧ 0 ≤ i ∧ table !! Z.to_nat i = Some (Registered d proc a)
  | Ohandle _ _ _ | Oforwarded _ => False
  | _ => True
  end.

Lemma words_ext c c' o :
  Forall (λ l, l ∈ c) (refs u o) → words (index_of (c ++ c')) o = words (index_of c) o.
Proof. intros H. unfold words. by rewrite index_of_ext. Qed.

(** ** Writing *)

Record dumping (stream : zuo_fasl_stream_out_t) : Prop := {
  du_nodup : NoDup (fo_objs stream);
  du_index : ∀ l, fo_index stream !! l
    = if decide (l ∈ fo_objs stream) then Some (index_of (fo_objs stream) l) else None }.

(** [st'] is [st] after writing [ws], which refer to objects among [ls]. *)
Record written (st st' : zuo_fasl_stream_out_t) (ls : list loc) (ws : (loc → Z) → list Z) : Prop := {
  wr_dumping : dumping st';
  wr_objs : ∃ suf, fo_objs st' = fo_objs st ++ suf ∧ Forall (λ l, l ∈ ls) suf;
  wr_refs : Forall (λ l, l ∈ fo_objs st') ls;
  wr_map : fo_map st' = fo_map st;
  wr_image : fo_image st' = fo_image st ++ ws (index_of (fo_objs st')) }.

Lemma fasl_out_ref_ok l st : dumping st → written st (fasl_out_ref l st) [l] (λ ix, [ix l]).
Proof.
  intros [Hn Hi]. unfold fasl_out_ref. rewrite Hi. case_decide as E.
  - split; cbn; [by split|exists []; by rewrite app_nil_r|by constructor|done|done].
  - split; cbn.
    + split; cbn.
      * apply NoDup_app. split; [done|]. split; [|apply NoDup_singleton].
        intros x Hx Ex%list_elem_of_singleton. by subst x.
      * intros x. destruct (decide (x = l)) as [->|Hx].
        { rewrite lookup_insert_eq, decide_True by (apply elem_of_app; right; by constructor).
          by rewrite index_of_new. }
        rewrite lookup_insert_ne, Hi by done. case_decide as E1.
        { rewrite decide_True by (apply elem_of_app; by left). by rewrite index_of_app. }
        rewrite decide_False; [done|]. intros [?|?%list_elem_of_singleton]%elem_of_app; done.
    + exists [l]. split; [done|]. constructor; [by constructor|done].
    + constructor; [|done]. apply elem_of_app; right; by constructor.
    + done.
    + by rewrite index_of_new.
Qed.

Lemma written_trans st1 st2 st3 ls1 ls2 w1 w2 :
  written st1 st2 ls1 w1 → written st2 st3 ls2 w2 →
  w1 (index_of (fo_objs st3)) = w1 (index_of (fo_objs st2)) →
  written st1 st3 (ls1 ++ ls2) (λ ix, w1 ix ++ w2 ix).
Proof.
  intros [D1 (s1 & O1 & F1) R1 M1 I1] [D2 (s2 & O2 & F2) R2 M2 I2] E. split.
  - done.
  - exists (s1 ++ s2). rewrite O2, O1, app_assoc. split; [done|].
    apply Forall_app. split; (eapply Forall_impl; [eassumption|]); cbn; intros x Hx; apply elem_of_app; auto.
  - apply Forall_app. split; [|done]. eapply Forall_impl; [exact R1|]. cbn. intros x Hx.
    rewrite O2. apply elem_of_app; by left.
  - by rewrite M2.
  - by rewrite I2, I1, <- app_assoc, E.
Qed.

Lemma written_refl st : dumping st → written st st [] (λ _, []).
Proof. intros H. split; [done|exists []; by rewrite app_nil_r|done|done|by rewrite app_nil_r]. Qed.

Lemma fasl_out_refs_ok ls st : dumping st → written st (fasl_out_refs ls st) ls (λ ix, ix <$> ls).
Proof.
  revert st. induction ls as [|l ls IH]; intros st H; cbn; [by apply written_refl|].
  pose proof (fasl_out_ref_ok l st H) as W1.
  pose proof (IH _ (wr_dumping _ _ _ _ W1)) as W2.
  refine (written_trans _ _ _ [l] ls (λ ix, [ix l]) (λ ix, ix <$> ls) W1 W2 _).
  destruct (wr_objs _ _ _ _ W2) as (suf & -> & _). pose proof (wr_refs _ _ _ _ W1) as R.
  apply Forall_cons in R as [R _]. by rewrite index_of_app.
Qed.

Lemma fasl_out_words_ok ws st :
  dumping st → written st (foldl (λ st c, fasl_out_int32 c st) st ws) [] (λ _, ws).
Proof.
  revert st. induction ws as [|w ws IH]; intros st H; cbn [foldl]; [by apply written_refl|].
  destruct (IH (fasl_out_int32 w st)) as [D O R M I]; [destruct H; by split|].
  split; [done|done|done|done|]. by rewrite I; cbn; rewrite <- app_assoc.
Qed.

Lemma zuo_fasl_out_ok o st s :
  dumping st → dumpable o → o_undefined (s_img s) = u →
  ∃ st', zuo_fasl_out table o st s = Ok st' s ∧ written st st' (refs u o) (λ ix, words ix o).
Proof.
  intros Hst Ho Hu.
  pose proof (fasl_out_words_ok (tag_int (obj_tag o) :: prefix o) st Hst) as W1.
  pose proof (fasl_out_refs_ok (refs u o) _ (wr_dumping _ _ _ _ W1)) as W2.
  exists (fasl_out_refs (refs u o) (foldl (λ st c, fasl_out_int32 c st) st (tag_int (obj_tag o) :: prefix o))).
  split; [|exact (written_trans _ _ _ [] _ (λ _, _) _ W1 W2 eq_refl)].
  unfold zuo_fasl_out. destruct o; try done; cbn in Ho |- *; unfold bind, zi, ret, zuo_primitive_to_id; try by rewrite ?Hu.
  destruct Ho as (i & -> & _). done.
Qed.

End words.

(** ** The dump of all objects *)

(** Where each of a sequence of blocks starts, the first at [n]. *)
Fixpoint starts (n : Z) (wss : list (list Z)) : list Z :=
  match wss with
  | [] => []
  | ws :: wss' => n :: starts (n + Z.of_nat (length ws)) wss'
  end.

Lemma starts_app n wss wss' :
  starts n (wss ++ wss') = starts n wss ++ starts (n + Z.of_nat (length (concat wss))) wss'.
Proof.
  revert n. induction wss as [|ws wss IH]; intros n; cbn; [by rewrite Z.add_0_r|].
  rewrite IH, length_app. do 3 f_equal. lia.
Qed.

Section dump.
Context (table : list registered) (h : gmap Z obj) (u : loc) (roots : list loc).

(** The words of the object at [l], when the objects of the dump are [c]. *)
Definition words_at (c : list loc) (l : loc) : list Z :=
  from_option (words table u (index_of c)) [] (h !! l).

Definition image_words (c : list loc) : list Z := (index_of c <$> roots) ++ concat (words_at c <$> c).

Hypothesis Hroots : ∀ l, l ∈ roots → is_Some (h !! l).
Hypothesis Hptrs : ∀ l o, reach h roots l → h !! l = Some o → dumpable table o ∧ ∀ p, p ∈ ptrs o → is_Some (h !! p).

(** After [k] of the objects met so far have been written. *)
Record dumped (k : nat) (st : zuo_fasl_stream_out_t) : Prop := {
  dd_dumping : dumping st;
  dd_roots : ∀ l, l ∈ roots → l ∈ fo_objs st;
  dd_reach : ∀ l, l ∈ fo_objs st → reach h roots l ∧ is_Some (h !! l);
  dd_refs : ∀ l o, l ∈ take k (fo_objs st) → h !! l = Some o → Forall (λ p, p ∈ fo_objs st) (refs u o);
  dd_map : fo_map st = starts (Z.of_nat (length roots)) (words_at (fo_objs st) <$> take k (fo_objs st));
  dd_image : fo_image st = (index_of (fo_objs st) <$> roots) ++ concat (words_at (fo_objs st) <$> take k (fo_objs st)) }.

Lemma dumped_count k st : dumped k st → (length (fo_objs st) ≤ size h)%nat.
Proof.
  intros D. rewrite <- (size_list_to_set (C := gset Z)) by apply D.
  rewrite <- (size_dom (D := gset Z) h). apply subseteq_size.
  intros x Hx%elem_of_list_to_set. apply elem_of_dom. by apply D.
Qed.

Lemma words_at_ext (c suf ls : list loc) :
  (∀ l o, l ∈ ls → h !! l = Some o → Forall (λ p, p ∈ c) (refs u o)) →
  words_at (c ++ suf) <$> ls = words_at c <$> ls.
Proof.
  intros H. apply list_fmap_ext. intros i l Hl%list_elem_of_lookup_2. unfold words_at.
  destruct (h !! l) as [o|] eqn:E; [|done]. cbn. apply words_ext. by eapply H.
Qed.

Lemma dumped_start st : dumping st → fo_objs st = [] → fo_map st = [] → fo_image st = [] →
  dumped 0 (fasl_out_refs roots st).
Proof.
  intros D E1 E2 E3. destruct (fasl_out_refs_ok roots st D) as [D' (suf & O & F) R M I].
  rewrite E1 in O. cbn in O. rewrite E2 in M. rewrite E3 in I. rewrite Forall_forall in F, R. split.
  - done.
  - exact R.
  - intros l Hl. rewrite O in Hl. split; [by apply reach_root, F|by apply Hroots, F].
  - cbn. intros l o Hl. by apply not_elem_of_nil in Hl.
  - done.
  - cbn. by rewrite app_nil_r.
Qed.

Lemma fasl_dump_step k st l o s :
  dumped k st → fo_objs st !! k = Some l → h !! l = Some o → o_undefined (s_img s) = u →
  ∃ st', zuo_fasl_out table o (FaslOut (fo_index st) (fo_objs st) (fo_map st ++ [Z.of_nat (length (fo_image st))]) (fo_image st)) s
      = Ok st' s ∧ (S k ≤ length (fo_objs st'))%nat ∧ dumped (S k) st'.
Proof.
  intros [[Dn Di] Dro Dre Drf Dm Dim] Hk Hl Hu.
  assert (Hin : l ∈ fo_objs st) by (by eapply list_elem_of_lookup_2).
  destruct (Dre l Hin) as [Hr _]. destruct (Hptrs l o Hr Hl) as [Hd Hp].
  set (st1 := FaslOut _ _ _ _).
  destruct (zuo_fasl_out_ok table u o st1 s) as (st' & E & [D' (suf & O & F) R M I]); [by split|done|done|].
  exists st'. split; [exact E|]. cbn in O, M, I.
  assert (Hlt := lookup_lt_Some _ _ _ Hk).
  assert (Htake : take (S k) (fo_objs st') = take k (fo_objs st) ++ [l]).
  { rewrite O, take_app_le by lia. by apply take_S_r. }
  assert (Hold : words_at (fo_objs st') <$> take k (fo_objs st) = words_at (fo_objs st) <$> take k (fo_objs st)).
  { rewrite O. by apply words_at_ext. }
  assert (Hrt : index_of (fo_objs st') <$> roots = index_of (fo_objs st) <$> roots).
  { rewrite O. apply index_of_ext. by apply Forall_forall. }
  assert (Hw : words_at (fo_objs st') l = words table u (index_of (fo_objs st')) o) by (unfold words_at; by rewrite Hl).
  split; [rewrite O, length_app; lia|]. split.
  - done.
  - intros x Hx. rewrite O. apply elem_of_app. left. by apply Dro.
  - intros x Hx. rewrite O in Hx. apply elem_of_app in Hx as [Hx|Hx]; [by apply Dre|].
    rewrite Forall_forall in F. specialize (F x Hx). apply refs_ptrs in F.
    split; [by eapply reach_step|by apply Hp].
  - intros x ox Hx Hox. rewrite Htake in Hx. apply elem_of_app in Hx as [Hx|Ex%list_elem_of_singleton].
    + eapply Forall_impl; [exact (Drf x ox Hx Hox)|]. cbn. intros p Hp'. rewrite O. apply elem_of_app. by left.
    + subst x. rewrite Hl in Hox. by injection Hox as <-.
  - rewrite M, Htake, fmap_app, starts_app, Hold, Dm. cbn. do 2 f_equal. rewrite Dim, length_app, length_fmap. lia.
  - rewrite I, Dim, Htake, fmap_app, concat_app, Hold, Hrt. cbn. by rewrite Hw, app_nil_r, <- app_assoc.
Qed.

Lemma fasl_dump_loop_ok fuel k st s :
  s_heap s = h → o_undefined (s_img s) = u → dumped k st → (k ≤ length (fo_objs st))%nat → (size h < k + fuel)%nat →
  ∃ st', fasl_dump_loop fuel table k st s = Ok st' s ∧ dumped (length (fo_objs st')) st'.
Proof.
  intros Hh Hu. revert k st. induction fuel as [|fuel IH]; intros k st D Hk Hf.
  { pose proof (dumped_count _ _ D). lia. }
  cbn [fasl_dump_loop]. destruct (fo_objs st !! k) as [l|] eqn:E.
  - assert (Hin : l ∈ fo_objs st) by (by eapply list_elem_of_lookup_2).
    destruct (dd_reach _ _ D l Hin) as [_ [o Ho]].
    assert (G : get l s = Ok o s) by (unfold get; by rewrite Hh, Ho).
    rewrite (bind_ok _ _ _ _ _ G). cbn zeta.
    destruct (fasl_dump_step k st l o s D E Ho Hu) as (st1 & E1 & Hk1 & D1).
    rewrite (bind_ok _ _ _ _ _ E1). apply IH; [done|done|lia].
  - exists st. split; [done|]. apply lookup_ge_None in E. by replace (length (fo_objs st)) with k by lia.
Qed.
End dump.

(** ** Words of the two byte orders *)

Lemma BUILD_INT_halves i : in_s64 i → BUILD_INT (fasl_lo i) (fasl_hi i) = i.
Proof.
  unfold in_s64, BUILD_INT, fasl_lo, fasl_hi. intros Hi. change 0xFFFFFFFF with (Z.ones 32).
  rewrite !Z.land_ones, Z.shiftr_div_pow2 by lia.
  assert (Hlo : to_u64 (to_s32 (i mod 2 ^ 32)) mod 2 ^ 32 = i mod 2 ^ 32).
  { unfold to_u64, to_s32. Z.div_mod_to_equations. lia. }
  assert (Hhi : to_s32 (i / 2 ^ 32) = i / 2 ^ 32) by (apply to_s32_id; unfold in_s32; Z.div_mod_to_equations; lia).
  rewrite Hlo, Hhi.
  assert (Hup : to_u64 (Z.shiftl (to_u64 (i / 2 ^ 32)) 32) = Z.shiftl ((i / 2 ^ 32) mod 2 ^ 32) 32).
  { rewrite !Z.shiftl_mul_pow2 by lia. unfold to_u64. Z.div_mod_to_equations. lia. }
  rewrite Hup, lor_shiftl_add; [|lia|apply Z.mod_pos_bound; lia].
  unfold to_s64. Z.div_mod_to_equations. lia.
Qed.

Lemma SWAP_ENDIAN_bytes n :
  SWAP_ENDIAN n = to_s32 (n mod 256 * 2 ^ 24 + (n / 256 mod 256 * 2 ^ 16 + (n / 2 ^ 16 mod 256 * 2 ^ 8 + n / 2 ^ 24 mod 256))).
Proof.
  assert (E : ∀ k, 0 ≤ k → Z.land n (Z.shiftl 255 k) = Z.shiftl (n / 2 ^ k mod 256) k).
  { intros k Hk. rewrite <- Z.shiftr_div_pow2 by done. change 256 with (2 ^ 8). rewrite <- Z.land_ones by lia.
    apply Z.bits_inj'. intros i Hi. rewrite Z.land_spec, !Z.shiftl_spec by done.
    destruct (Z.ltb_spec i k); [by rewrite !(Z.testbit_neg_r _ (i - k)), andb_false_r by lia|].
    rewrite Z.land_spec, Z.shiftr_spec by lia. by replace (i - k + k) with i by lia. }
  unfold SWAP_ENDIAN. change 0xFF00 with (Z.shiftl 255 8). change 0xFF0000 with (Z.shiftl 255 16).
  rewrite !E by lia. change 0xFF with (Z.ones 8). rewrite !Z.land_ones by lia.
  rewrite (Z.shiftr_div_pow2 n 24) by lia.
  assert (E2 : Z.shiftr (Z.shiftl (n / 2 ^ 16 mod 256) 16) 8 = Z.shiftl (n / 2 ^ 16 mod 256) 8).
  { rewrite Z.shiftr_shiftl_l by lia. done. }
  assert (E3 : Z.shiftl (Z.shiftl (n / 2 ^ 8 mod 256) 8) 8 = Z.shiftl (n / 2 ^ 8 mod 256) 16) by (rewrite Z.shiftl_shiftl by lia; done).
  rewrite E2, E3. change (2 ^ 8) with 256. 
  pose proof (Z.mod_pos_bound n 256). pose proof (Z.mod_pos_bound (n / 256) 256).
  pose proof (Z.mod_pos_bound (n / 2 ^ 16) 256). pose proof (Z.mod_pos_bound (n / 2 ^ 24) 256).
  rewrite <- !Z.lor_assoc. rewrite (lor_shiftl_add (n / 2 ^ 16 mod 256) _ 8) by lia.
  rewrite (lor_shiftl_add (n / 256 mod 256) _ 16) by lia. rewrite (lor_shiftl_add (n mod 256) _ 24) by lia. f_equal; lia.
Qed.

(** ** Reading *)

(** What is read back for the object [o] at the address [a]: all but the
    fields that an image does not have. *)
Definition restored (g : garbage) (a : loc) (o : obj) : obj :=
  match o with
  | Otrie_node _ k v next => Otrie_node (g_count g a) k v next
  | Ocont _ d e p n => Ocont (g_cont_tag g a) d e p n
  | _ => o
  end.

Lemma restored_space g a o : space_of (restored g a o) = space_of o.
Proof. by destruct o. Qed.

(** The words [ws] are next on the stream. *)
Definition ahead (st : zuo_fasl_stream_in_t) (ws : list Z) : Prop :=
  ∃ pre post, fi_image st = pre ++ ws ++ post ∧ fi_offset st = Z.of_nat (length pre).

Definition skip (n : nat) (st : zuo_fasl_stream_in_t) : zuo_fasl_stream_in_t :=
  FaslIn (fi_heap st) (fi_map st) (fi_image st) (fi_offset st + Z.of_nat n).

Lemma skip_skip n m st : skip m (skip n st) = skip (n + m) st.
Proof. unfold skip. cbn. f_equal. lia. Qed.

Lemma skip_0 st : skip 0 st = st.
Proof. destruct st. unfold skip. cbn. by rewrite Z.add_0_r. Qed.

Lemma ahead_skip st ws ws' : ahead st (ws ++ ws') → ahead (skip (length ws) st) ws'.
Proof.
  intros (pre & post & E & Ho). exists (pre ++ ws), post. cbn. rewrite E, <- !app_assoc.
  split; [done|]. rewrite length_app. lia.
Qed.

Lemma ahead_app st ws ws' : ahead st (ws ++ ws') → ahead st ws.
Proof. intros (pre & post & E & Ho). exists pre, (ws' ++ post). by rewrite E, <- app_assoc. Qed.

Lemma dump_at_app pre w post s : dump_at (pre ++ w :: post) (Z.of_nat (length pre)) s = Ok w s.
Proof.
  unfold dump_at. rewrite decide_True by lia. rewrite Nat2Z.id, lookup_app_r, Nat.sub_diag by lia. done.
Qed.

Lemma fasl_in_int32_ok st w ws s : ahead st (w :: ws) → fasl_in_int32 st s = Ok (w, skip 1 st) s.
Proof.
  intros (pre & post & E & Ho). unfold fasl_in_int32. rewrite E, Ho.
  rewrite (bind_ok _ _ _ _ _ (dump_at_app pre w (ws ++ post) s)). unfold ret, skip. by rewrite E, Ho.
Qed.

Lemma fasl_in_int_ok st i ws s :
  in_s64 i → ahead st (fasl_lo i :: fasl_hi i :: ws) → fasl_in_int st s = Ok (i, skip 2 st) s.
Proof.
  intros Hi Ha. unfold fasl_in_int. rewrite (bind_ok _ _ _ _ _ (fasl_in_int32_ok _ _ _ s Ha)). cbn [fst snd].
  apply (ahead_skip st [_]) in Ha. rewrite (bind_ok _ _ _ _ _ (fasl_in_int32_ok _ _ _ s Ha)). cbn [fst snd].
  unfold ret. by rewrite skip_skip, BUILD_INT_halves.
Qed.

Lemma fasl_in_chars_ok b st ws s :
  Forall is_byte b → ahead st (b ++ ws) → fasl_in_chars (length b) st s = Ok (b, skip (length b) st) s.
Proof.
  revert st. induction b as [|c b IH]; intros st Hb Ha; cbn [fasl_in_chars length]; [by rewrite skip_0|].
  apply Forall_cons in Hb as [Hc Hb].
  rewrite (bind_ok _ _ _ _ _ (fasl_in_int32_ok _ _ _ s Ha)). cbn [fst snd].
  apply (ahead_skip st [c]) in Ha. rewrite (bind_ok _ _ _ _ _ (IH _ Hb Ha)). cbn [fst snd].
  unfold ret. rewrite skip_skip. unfold to_u8. unfold is_byte in Hc. by rewrite Z.mod_small by lia.
Qed.

(** Which sub-tries are present. *)
Lemma trie_mask_bits u next i j :
  0 ≤ i → 0 ≤ j →
  Z.testbit (trie_mask u i next) j = true ↔ i ≤ j ∧ ∃ n, next !! Z.to_nat (j - i) = Some n ∧ n ≠ u.
Proof.
  revert i. induction next as [|n next IH]; intros i Hi Hj; cbn [trie_mask].
  { rewrite Z.bits_0. split; [done|]. intros (_ & x & Hx & _). by rewrite lookup_nil in Hx. }
  assert (Hrest : Z.testbit (trie_mask u (i + 1) next) j = true
    ↔ i + 1 ≤ j ∧ ∃ m, (n :: next) !! Z.to_nat (j - i) = Some m ∧ m ≠ u).
  { rewrite IH by lia. destruct (decide (i + 1 ≤ j)); [|split; intros [? _]; lia].
    replace (Z.to_nat (j - i)) with (S (Z.to_nat (j - (i + 1)))) by lia. done. }
  assert (Hbit : Z.testbit (if decide (n = u) then trie_mask u (i + 1) next else Z.lor (Z.shiftl 1 i) (trie_mask u (i + 1) next)) j = true
    ↔ (n ≠ u ∧ i = j) ∨ Z.testbit (trie_mask u (i + 1) next) j = true).
  { case_decide as E; [tauto|]. rewrite Z.lor_spec, Z.shiftl_1_l, Z.pow2_bits_eqb, orb_true_iff, Z.eqb_eq by done. tauto. }
  rewrite Hbit, Hrest. split.
  - intros [[Hn <-]|(? & m & ? & ?)]; (split; [lia|]); [|by exists m].
    exists n. by rewrite Z.sub_diag.
  - intros (Hij & m & Hm & Hmu). destruct (decide (i = j)) as [<-|Hne]; [left|right; split; [lia|by exists m]].
    rewrite Z.sub_diag in Hm. cbn in Hm. by injection Hm as <-.
Qed.

(** The offsets of objects that follow one another from [n] on. *)
Fixpoint layout (h : gmap Z obj) (n : Z) (c : list loc) : list Z :=
  match c with
  | [] => []
  | l :: c' => n :: layout h (n + osize h l) c'
  end.

Lemma layout_lookup h n c l :
  l ∈ c → layout h n c !! Z.to_nat (index_of c l) = Some (n + offset_in h c l).
Proof.
  revert n. induction c as [|x c IH]; intros n; [by intros ?%not_elem_of_nil|]. cbn.
  case_decide as E; [intros _; cbn; by rewrite Z.add_0_r|].
  intros [->|Hl]%elem_of_cons; [done|]. pose proof (index_of_nonneg c l).
  replace (Z.to_nat (1 + index_of c l)) with (S (Z.to_nat (index_of c l))) by lia. cbn. rewrite IH by done. f_equal. lia.
Qed.

Section reading.
Context (table : list registered) (g : garbage) (h : gmap Z obj) (c : list loc) (u base : loc).
Abbreviation f := (fwd h base c).

Record reading (st : zuo_fasl_stream_in_t) : Prop := {
  rd_heap : fi_heap st = base;
  rd_map : fi_map st = layout h 0 c }.

Lemma reading_skip n st : reading st → reading (skip n st).
Proof. intros [? ?]. by split. Qed.

Lemma fasl_in_ref_ok st l ws s :
  reading st → l ∈ c → ahead st (index_of c l :: ws) → fasl_in_ref st s = Ok (f l, skip 1 st) s.
Proof.
  intros [Hh Hm] Hl Ha. unfold fasl_in_ref. rewrite (bind_ok _ _ _ _ _ (fasl_in_int32_ok _ _ _ s Ha)). cbn [fst snd].
  rewrite Hm. assert (E : dump_at (layout h 0 c) (index_of c l) s = Ok (0 + offset_in h c l) s).
  { unfold dump_at. rewrite decide_True by apply index_of_nonneg. by rewrite layout_lookup. }
  rewrite (bind_ok _ _ _ _ _ E). unfold ret, fwd. by rewrite Hh.
Qed.

Lemma fasl_in_refs_ok ls st ws s :
  reading st → Forall (λ l, l ∈ c) ls → ahead st ((index_of c <$> ls) ++ ws) →
  fasl_in_refs (length ls) st s = Ok (f <$> ls, skip (length ls) st) s.
Proof.
  revert st. induction ls as [|l ls IH]; intros st Hr Hl Ha; cbn [fasl_in_refs length]; [by rewrite skip_0|].
  apply Forall_cons in Hl as [Hl Hls]. rewrite (bind_ok _ _ _ _ _ (fasl_in_ref_ok _ _ _ s Hr Hl Ha)). cbn [fst snd].
  apply (ahead_skip st [_]) in Ha. rewrite (bind_ok _ _ _ _ _ (IH _ (reading_skip 1 _ Hr) Hls Ha)). cbn [fst snd].
  unfold ret. by rewrite skip_skip.
Qed.

Lemma fasl_in_next_ok next mask i st ws s :
  reading st → Forall (λ l, l ∈ c) (filter (λ n, n ≠ u) next) →
  ahead st ((index_of c <$> filter (λ n, n ≠ u) next) ++ ws) →
  (∀ j n, next !! j = Some n → Z.testbit mask (i + Z.of_nat j) = true ↔ n ≠ u) →
  fasl_in_next (f u) mask i (length next) st s = Ok (f <$> next, skip (length (filter (λ n, n ≠ u) next)) st) s.
Proof.
  revert i st. induction next as [|n next IH]; intros i st Hr Hl Ha Hm; cbn [fasl_in_next length]; [by rewrite skip_0|].
  pose proof (Hm 0%nat n eq_refl) as Hn. rewrite Z.add_0_r in Hn.
  assert (Hm' : ∀ j x, next !! j = Some x → Z.testbit mask (i + 1 + Z.of_nat j) = true ↔ x ≠ u).
  { intros j x Hx. rewrite <- (Hm (S j) x Hx). by replace (i + 1 + Z.of_nat j) with (i + Z.of_nat (S j)) by lia. }
  destruct (Z.testbit mask i) eqn:E.
  - assert (Hnu : n ≠ u) by tauto. rewrite filter_cons_True in Hl, Ha |- * by done.
    apply Forall_cons in Hl as [Hl Hls]. rewrite (bind_ok _ _ _ _ _ (fasl_in_ref_ok _ _ _ s Hr Hl Ha)). cbn [fst snd].
    apply (ahead_skip st [_]) in Ha. rewrite (bind_ok _ _ _ _ _ (IH _ _ (reading_skip 1 _ Hr) Hls Ha Hm')). cbn [fst snd].
    unfold ret. by rewrite skip_skip.
  - assert (Hnu : ¬ n ≠ u) by (intros H%Hn; done). rewrite filter_cons_False in Hl, Ha |- * by done.
    apply dec_stable in Hnu as ->.
    rewrite (bind_ok (ret (f u, st)) _ _ _ _ eq_refl). cbn [fst snd].
    by rewrite (bind_ok _ _ _ _ _ (IH _ _ Hr Hl Ha Hm')).
Qed.

(** Reads the next reference of the object. *)
Ltac next_ref :=
  match goal with
  | Hr : reading ?st, Hl : Forall _ (_ :: _), Ha : ahead ?st (_ :: _) |- _ =>
      let H := fresh in
      apply Forall_cons in Hl as [H Hl];
      rewrite (bind_ok _ _ _ _ _ (fasl_in_ref_ok _ _ _ _ Hr H Ha)); cbn [fst snd];
      apply (ahead_skip st [_]) in Ha; apply (reading_skip 1) in Hr; cbn [length] in Ha
  end.

(** Reads the next word. *)
Ltac next_word :=
  match goal with
  | Hr : reading ?st, Ha : ahead ?st (_ :: _) |- _ =>
      rewrite (bind_ok _ _ _ _ _ (fasl_in_int32_ok _ _ _ _ Ha)); cbn [fst snd];
      apply (ahead_skip st [_]) in Ha; apply (reading_skip 1) in Hr; cbn [length] in Ha
  end.

Lemma trie_mask_present next j n :
  next !! j = Some n → Z.testbit (trie_mask u 0 next) (0 + Z.of_nat j) = true ↔ n ≠ u.
Proof.
  intros Hn. rewrite trie_mask_bits by lia. replace (Z.to_nat (0 + Z.of_nat j - 0)) with j by lia.
  split; [|intros Hu; split; [lia|by exists n]]. intros (_ & m & Hm & Hmu). congruence.
Qed.

Lemma int_tag_int t : int_tag (tag_int t) = Some t.
Proof. by destruct t. Qed.

Lemma zuo_fasl_in_ok o a st ws s :
  reading st → dumpable table o → tentative_len o < 2 ^ 63 → Forall (λ l, l ∈ c) (refs u o) →
  o_undefined (s_img s) = f u → ahead st (words table u (index_of c) o ++ ws) →
  zuo_fasl_in table g a st s
  = Ok (restored g a (map_obj f o), skip (length (words table u (index_of c) o)) st) s.
Proof.
  intros Hr Ho Hlen Hl Hu Ha. unfold words in Ha |- *. unfold zuo_fasl_in.
  rewrite (bind_ok _ _ _ _ _ (fasl_in_int32_ok _ _ _ s Ha)). cbn [fst snd].
  apply (ahead_skip st [_]) in Ha. apply (reading_skip 1) in Hr. cbn [length] in Ha.
  rewrite int_tag_int.
  destruct o; cbn [obj_tag dumpable] in *; cbn [refs ptrs prefix app fmap list_fmap length] in Hl, Ha |- *; try done.
  all: repeat next_ref.
  all: try (unfold ret; rewrite !skip_skip; done).
  - rewrite (bind_ok _ _ _ _ _ (fasl_in_int_ok _ _ _ s Ho Ha)). cbn [fst snd]. unfold ret. by rewrite skip_skip.
  - assert (Hn : in_s64 (Z.of_nat (length s0))) by (unfold in_s64; cbn in Hlen; lia).
    rewrite app_nil_r in Ha |- *. rewrite (bind_ok _ _ _ _ _ (fasl_in_int_ok _ _ _ s Hn Ha)). cbn [fst snd].
    apply (ahead_skip (skip 1 st) [_; _]) in Ha. cbn [length app] in Ha.
    rewrite Nat2Z.id, (bind_ok _ _ _ _ _ (fasl_in_chars_ok _ _ _ s Ho Ha)). cbn [fst snd].
    unfold ret. by rewrite !skip_skip.
  - next_word. repeat next_ref. unfold ret. by rewrite !skip_skip.
  - next_word. repeat next_ref. rewrite (bind_ok (zi o_undefined) _ s _ s eq_refl), Hu.
    change (Z.to_nat ZUO_TRIE_BFACTOR) with 16%nat. rewrite <- Ho.
    rewrite (bind_ok _ _ _ _ _ (fasl_in_next_ok _ (trie_mask u 0 next) 0 _ _ s Hr Hl Ha (trie_mask_present next))).
    cbn [fst snd]. unfold ret. rewrite !skip_skip. by rewrite length_fmap.
  - destruct Ho as (i & Hi & Hi0 & Ht). rewrite Hi in Ha. cbn [from_option id] in Ha.
    next_word. assert (E : zuo_id_to_primitive table i s = Ok (Registered disp proc arity_mask) s).
    { unfold zuo_id_to_primitive. by rewrite decide_True, Ht by done. }
    rewrite (bind_ok _ _ _ _ _ E). cbn [r_dispatcher r_proc r_arity_mask]. repeat next_ref.
    unfold ret. by rewrite !skip_skip.
Qed.

(** *** All objects *)

Hypothesis Hnd : NoDup c.
Hypothesis Hobjs : ∀ l, l ∈ c → ∃ o, h !! l = Some o ∧ dumpable table o ∧ tentative_len o < 2 ^ 63 ∧ Forall (λ p, p ∈ c) (refs u o).

Lemma words_at_obj l o : h !! l = Some o → words_at table h u c l = words table u (index_of c) o.
Proof. unfold words_at. by intros ->. Qed.

(** What follows when the object after [done] is read. *)
Lemma offset_next done l rest : c = done ++ l :: rest → offset_in h c l = total h done.
Proof.
  intros E. rewrite E in Hnd. apply NoDup_app in Hnd as (_ & Hd & _).
  assert (Hl : l ∉ done) by (intros Hl; apply (Hd l Hl); by constructor).
  rewrite E. change (l :: rest) with ([l] ++ rest). rewrite app_assoc.
  rewrite offset_in_app by (apply elem_of_app; right; by constructor). by apply offset_in_snoc.
Qed.

Lemma f_inj l l' : l ∈ c → l' ∈ c → f l = f l' → l = l'.
Proof.
  intros Hl Hl' E. apply (offset_in_inj h c); [done|done| |unfold fwd in E; lia].
  intros x Hx. destruct (Hobjs x Hx) as (o & Ho & _). by exists o.
Qed.

Lemma fasl_restore_loop_ok rest done st s :
  c = done ++ rest → reading st → o_undefined (s_img s) = f u →
  ahead st (concat (words_at table h u c <$> rest)) →
  ∃ m, fasl_restore_loop table g (layout h (total h done) rest) st s = Ok m s
    ∧ (∀ l o, l ∈ rest → h !! l = Some o → m !! f l = Some (restored g (f l) (map_obj f o)))
    ∧ (∀ a, is_Some (m !! a) → ∃ l, l ∈ rest ∧ a = f l).
Proof.
  revert done st. induction rest as [|l rest IH]; intros done st Hc Hr Hu Ha.
  { exists ∅. split; [done|]. split; [by intros ? ? ?%not_elem_of_nil|]. intros a [? Hx]. by rewrite lookup_empty in Hx. }
  assert (Hl : l ∈ c) by (rewrite Hc; apply elem_of_app; right; by constructor).
  destruct (Hobjs l Hl) as (o & Ho & Hd & Hlen & Hrefs).
  cbn [fmap list_fmap concat] in Ha. rewrite (words_at_obj l o Ho) in Ha.
  cbn [layout fasl_restore_loop]. destruct Hr as [Hb Hm]. rewrite Hb.
  replace (base + total h done) with (f l) by (unfold fwd; by rewrite (offset_next done l rest)).
  assert (Hr : reading st) by (by split).
  rewrite (bind_ok _ _ _ _ _ (zuo_fasl_in_ok o (f l) st _ s Hr Hd Hlen Hrefs Hu Ha)). cbn [fst snd].
  destruct (IH (done ++ [l]) (skip (length (words table u (index_of c) o)) st)) as (m & E & Hin & Honly).
  - by rewrite Hc, <- app_assoc.
  - by apply reading_skip.
  - done.
  - by apply ahead_skip in Ha.
  - rewrite total_app in E. cbn [total] in E. rewrite Z.add_0_r in E. rewrite (bind_ok _ _ _ _ _ E).
    exists (<[f l := restored g (f l) (map_obj f o)]> m). split; [done|]. split.
    + intros x ox Hx Hox. destruct (decide (x = l)) as [->|Hne]; [rewrite lookup_insert_eq; congruence|].
      apply elem_of_cons in Hx as [|Hx]; [done|].
      rewrite lookup_insert_ne; [by apply Hin|]. intros Ef. apply Hne, f_inj; [|done|done].
      rewrite Hc. apply elem_of_app; right; by constructor.
    + intros a Hs. destruct (decide (a = f l)) as [->|Hne]; [exists l; split; [by constructor|done]|].
      rewrite lookup_insert_ne in Hs by done. destruct (Honly a Hs) as (x & Hx & ->). exists x. split; [by constructor|done].
Qed.

Lemma fasl_size_ok l o pre post s :
  h !! l = Some o → dumpable table o → tentative_len o < 2 ^ 63 →
  let image := pre ++ words table u (index_of c) o ++ post in
  let delta := Z.of_nat (length pre) in
  dump_at image delta s = Ok (tag_int (obj_tag o)) s
  ∧ (if decide (obj_tag o = zuo_string_tag) then
       lo <- dump_at image (delta + 1) ;; hi <- dump_at image (delta + 2) ;;
       ret (object_size (obj_tag o) (BUILD_INT lo hi))
     else ret (object_size (obj_tag o) 0)) s
    = Ok (object_size (obj_tag o) (tentative_len o)) s.
Proof.
  intros Ho Hd Hlen image delta. split; [apply dump_at_app|].
  destruct (decide (obj_tag o = zuo_string_tag)) as [E|E]; [|destruct o; done].
  destruct o as [| | |b| | | | | | | | |]; try done. subst image delta. unfold words. cbn [obj_tag prefix refs ptrs fmap list_fmap app tag_int].
  set (lo := fasl_lo _). set (hi := fasl_hi _).
  assert (E1 : dump_at (pre ++ 3 :: lo :: hi :: (b ++ []) ++ post) (Z.of_nat (length pre) + 1) s = Ok lo s).
  { change (3 :: lo :: ?x) with ([3] ++ lo :: x). rewrite app_assoc.
    replace (Z.of_nat (length pre) + 1) with (Z.of_nat (length (pre ++ [3]))) by (rewrite length_app; cbn; lia). apply dump_at_app. }
  assert (E2 : dump_at (pre ++ 3 :: lo :: hi :: (b ++ []) ++ post) (Z.of_nat (length pre) + 2) s = Ok hi s).
  { change (3 :: lo :: hi :: ?x) with ([3; lo] ++ hi :: x). rewrite app_assoc.
    replace (Z.of_nat (length pre) + 2) with (Z.of_nat (length (pre ++ [3; lo]))) by (rewrite length_app; cbn; lia). apply dump_at_app. }
  rewrite (bind_ok _ _ _ _ _ E1), (bind_ok _ _ _ _ _ E2). unfold ret, lo, hi.
  rewrite BUILD_INT_halves; [done|]. unfold in_s64. cbn in Hlen. lia.
Qed.

Lemma fasl_layout_ok rest pre size s :
  (∀ l, l ∈ rest → l ∈ c) → 0 ≤ size → size + total h rest < 2 ^ 31 →
  fasl_layout (pre ++ concat (words_at table h u c <$> rest))
    (starts (Z.of_nat (length pre)) (words_at table h u c <$> rest)) size s
  = Ok (layout h size rest, size + total h rest) s.
Proof.
  revert pre size. induction rest as [|l rest IH]; intros pre size Hin Hsz Hmax; cbn [fmap list_fmap starts concat fasl_layout total layout].
  { by rewrite Z.add_0_r. }
  destruct (Hobjs l) as (o & Ho & Hd & Hlen & _); [apply Hin; by constructor|].
  assert (Hos : osize h l = space_of o) by (unfold osize; by rewrite Ho).
  rewrite (words_at_obj l o Ho).
  destruct (fasl_size_ok l o pre (concat (words_at table h u c <$> rest)) s Ho Hd Hlen) as [E1 E2].
  rewrite (bind_ok _ _ _ _ _ E1), int_tag_int, (bind_ok _ _ _ _ _ E2). fold (space_of o). rewrite <- Hos.
  pose proof (osize_nonneg h l). pose proof (total_nonneg h rest). cbn [total] in Hmax.
  rewrite to_s32_id by (unfold in_s32; lia).
  specialize (IH (pre ++ words table u (index_of c) o) (size + osize h l)).
  rewrite <- app_assoc, length_app, Nat2Z.inj_add in IH. rewrite (bind_ok _ _ _ _ _ (IH ltac:(intros x Hx; apply Hin; by constructor) ltac:(lia) ltac:(lia))).
  unfold ret. cbn [fst snd]. do 2 f_equal. lia.
Qed.
End reading.

(** ** The heap after the restoration *)

Section replace.
Context (h : gmap Z obj) (c : list loc) (m : mem) (objs : gmap Z obj) (size : Z).
Hypothesis Hdom : ∀ l, l ∈ c → is_Some (h !! l).
Hypothesis Hsize : size = total h c.
Hypothesis Hm : mem_ok m.
Hypothesis Ht : to_space m ≠ 0.
Abbreviation f := (fwd h (brk m) c).
Hypothesis Hin : ∀ l o, l ∈ c → h !! l = Some o → ∃ o', objs !! f l = Some o' ∧ space_of o' = space_of o.
Hypothesis Honly : ∀ a, is_Some (objs !! a) → ∃ l, l ∈ c ∧ a = f l.

Definition left_spaces : list old_space_t := OldSpace (to_space m) (heap_size m) :: old_spaces m.

Definition new_heap : gmap Z obj := discard_all left_spaces (discard_all (free_spaces m) (objs ∪ heap m)).

Definition replaced : mem :=
  Mem new_heap (brk m + ALLOC_ALIGN (size * alloc_factor)) (size * alloc_factor) (brk m) size size
    (if size * 2 <? ZUO_MIN_HEAP_SIZE then ZUO_MIN_HEAP_SIZE else size * 2) [] left_spaces.

Lemma left_spaces_all : all_spaces m = left_spaces ++ free_spaces m.
Proof. unfold all_spaces, current_space, left_spaces. by rewrite decide_False. Qed.

Lemma f_bounds l : l ∈ c → brk m ≤ f l ∧ f l + 16 ≤ brk m + size.
Proof.
  intros Hl. destruct (offset_in_bound h c l Hl Hdom). pose proof (osize_pos h l (Hdom l Hl)). unfold fwd. lia.
Qed.

Lemma new_heap_new l : l ∈ c → new_heap !! f l = objs !! f l.
Proof.
  intros Hl. destruct (f_bounds l Hl) as [Hb _].
  assert (Hall : Forall (λ sp, in_space sp (f l) = false) (left_spaces ++ free_spaces m)).
  { rewrite <- left_spaces_all. destruct (mo_spaces _ Hm) as [Hs _]. eapply Forall_impl; [exact Hs|].
    intros sp. cbn. rewrite in_space_false. lia. }
  apply Forall_app in Hall as [H1 H2]. unfold new_heap. rewrite !discard_all_lookup, !decide_True by done.
  destruct (Hdom l Hl) as [o Ho]. destruct (Hin l o Hl Ho) as (o' & Eo & _). rewrite Eo.
  by apply lookup_union_Some_l.
Qed.

Lemma new_heap_only a : is_Some (new_heap !! a) → ∃ l, l ∈ c ∧ a = f l.
Proof.
  intros [o Ha]. unfold new_heap in Ha. rewrite !discard_all_lookup in Ha. repeat case_decide; try done.
  apply lookup_union_Some_raw in Ha as [Ha|[_ Ha]]; [apply Honly; by exists o|exfalso].
  destruct (mo_heap _ Hm a) as (_ & _ & _ & Hex); [by exists o|].
  unfold current_space in Hex. rewrite decide_False in Hex by done. cbn [app] in Hex.
  apply Exists_exists in Hex as (sp & Hsp & Et).
  rewrite Forall_forall in H. specialize (H sp Hsp). congruence.
Qed.

Lemma new_heap_bytes : heap_bytes new_heap ≤ size.
Proof.
  rewrite Hsize. apply (heap_bytes_cover h c f).
  - intros a o Ha. apply new_heap_only. by exists o.
  - intros l o Hl Ha. rewrite new_heap_new in Ha by done. destruct (Hdom l Hl) as [ox Hx].
    destruct (Hin l ox Hl Hx) as (o' & Eo & Es). unfold osize. rewrite Hx. cbn. congruence.
Qed.

Lemma replaced_ok : mem_ok replaced.
Proof.
  pose proof (mo_brk _ Hm) as Hb. pose proof (total_nonneg h c) as Hn.
  assert (Hs : 0 ≤ size) by (rewrite Hsize; exact Hn).
  pose proof (ALLOC_ALIGN_bounds (size * alloc_factor)) as Ha. change (size * alloc_factor) with (size * 2) in Ha.
  pose proof (mo_spaces _ Hm) as Hsp. rewrite left_spaces_all in Hsp.
  assert (Hold : spaces_ok (brk m) left_spaces).
  { apply (spaces_ok_app_r _ (free_spaces m)). eapply spaces_ok_perm; [|exact Hsp]. apply Permutation_app_comm. }
  pose proof (spaces_ok_fresh _ _ (size * alloc_factor) Hb ltac:(unfold alloc_factor; lia) Hold) as Hnew.
  split; cbn [brk heap_size allocation_offset to_space heap total_allocation replaced]; try (unfold alloc_factor; lia).
  - change (all_spaces replaced) with ((if decide (brk m = 0) then [] else [OldSpace (brk m) (size * alloc_factor)]) ++ left_spaces).
    by rewrite decide_False by lia.
  - intros a Hs'. destruct (new_heap_only a Hs') as (l & Hl & ->). destruct (f_bounds l Hl) as [H1 H2].
    change (size * alloc_factor) with (size * 2). split; [lia|]. split; [lia|]. split.
    + cbn [free_spaces replaced]. destruct Hold as [Hl' _]. eapply Forall_impl; [exact Hl'|]. intros sp. cbn. rewrite in_space_false. lia.
    + change (current_space replaced) with (if decide (brk m = 0) then [] else [OldSpace (brk m) (size * alloc_factor)]).
      rewrite decide_False by lia. apply Exists_cons_hd, in_space_true. cbn. change (size * alloc_factor) with (size * 2). lia.
  - exact new_heap_bytes.
Qed.
End replace.

(** ** A whole image *)

(** The image of the objects [c] of [h], with the roots [z]. *)
Definition dump_of (table : list registered) (h : gmap Z obj) (z : image) (c : list loc) (symbols : Z) : list Z :=
  let u := o_undefined z in
  let image := image_words table h u (image_list z) c in
  [zuo_magic; Z.of_nat (length c); Z.of_nat (length image); symbols]
  ++ starts 24 (words_at table h u c <$> c) ++ image.

Lemma starts_length n wss : length (starts n wss) = length wss.
Proof. revert n. induction wss as [|ws wss IH]; intros n; cbn; [done|]. by rewrite IH. Qed.

Section whole.
Context (table : list registered) (g : garbage) (h : gmap Z obj) (z : image) (c : list loc) (symbols : Z).
Hypothesis Hnd : NoDup c.
Hypothesis Hroots : Forall (λ l, l ∈ c) (image_list z).
Hypothesis Hobjs : ∀ l, l ∈ c → ∃ o, h !! l = Some o ∧ dumpable table o ∧ tentative_len o < 2 ^ 63
  ∧ Forall (λ p, p ∈ c) (refs (o_undefined z) o).
Hypothesis Hsize : total h c * alloc_factor < 2 ^ 31.

Lemma undefined_root z' k : image_list z' = k <$> image_list z → o_undefined z' = k (o_undefined z).
Proof. destruct z, z'. by intros [= ->]. Qed.

Lemma zuo_fasl_roots_in_ok base st ws s :
  reading h c base st → ahead st ((index_of c <$> image_list z) ++ ws) →
  ∃ z', image_list z' = fwd h base c <$> image_list z ∧ zuo_fasl_roots_in st s = Ok (skip 24 st) (set_s_img z' s).
Proof.
  intros Hr Ha. destruct (image_of_list_Some (fwd h base c <$> image_list z)) as (z' & E & Hz').
  { by rewrite length_fmap, image_list_length. }
  exists z'. split; [done|]. unfold zuo_fasl_roots_in.
  pose proof (fasl_in_refs_ok h c base (image_list z) st ws s Hr Hroots Ha) as E1. rewrite image_list_length in E1.
  rewrite (bind_ok _ _ _ _ _ E1). cbn [fst snd]. by rewrite E.
Qed.

Lemma zuo_fasl_restore_ok dump t :
  fasl_byte_order (dump_words dump) t = Ok (dump_of table h z c symbols) t →
  mem_ok (s_mem t) → to_space (s_mem t) ≠ 0 →
  let f := fwd h (brk (s_mem t)) c in
  ∃ t', zuo_fasl_restore table g dump t = Ok tt t'
    ∧ image_list (s_img t') = f <$> image_list z
    ∧ (∀ l o, l ∈ c → h !! l = Some o → s_heap t' !! f l = Some (restored g (f l) (map_obj f o)))
    ∧ (∀ a, is_Some (s_heap t' !! a) → ∃ l, l ∈ c ∧ a = f l)
    ∧ mem_ok (s_mem t') ∧ zuo_symbol_count t' = symbols ∧ zuo_handle_count t' = 0
    ∧ s_rt t' = s_rt t ∧ s_sys t' = s_sys t.
Proof.
  intros Hd Hm Ht f. unfold zuo_fasl_restore. rewrite (bind_ok _ _ _ _ _ Hd).
  set (u := o_undefined z) in *. set (ws := words_at table h u c <$> c).
  set (image := image_words table h u (image_list z) c).
  assert (Hdump : dump_of table h z c symbols = [zuo_magic; Z.of_nat (length c); Z.of_nat (length image); symbols] ++ starts 24 ws ++ image) by done.
  assert (Hlen : length (starts 24 ws) = length c) by (by rewrite starts_length; unfold ws; rewrite length_fmap).
  assert (E1 : dump_at (dump_of table h z c symbols) 1 t = Ok (Z.of_nat (length c)) t) by done.
  rewrite (bind_ok _ _ _ _ _ E1), Nat2Z.id.
  assert (Emap : take (length c) (drop 4 (dump_of table h z c symbols)) = starts 24 ws).
  { change (drop 4 (dump_of table h z c symbols)) with (starts 24 ws ++ image). rewrite <- Hlen. apply take_app_length. }
  assert (Eimg : drop (4 + length c) (dump_of table h z c symbols) = image).
  { rewrite <- drop_drop. change (drop 4 (dump_of table h z c symbols)) with (starts 24 ws ++ image). rewrite <- Hlen. apply drop_app_length. }
  rewrite Emap, Eimg.
  assert (Elay : fasl_layout image (starts 24 ws) 0 t = Ok (layout h 0 c, total h c) t).
  { pose proof (fasl_layout_ok table h c u Hobjs c (index_of c <$> image_list z) 0 t) as E.
    rewrite length_fmap, image_list_length in E. apply E; [done|lia|unfold alloc_factor in Hsize; lia]. }
  rewrite (bind_ok _ _ _ _ _ Elay). pose proof (total_nonneg h c) as Hn.
  rewrite decide_True by (unfold in_s32, alloc_factor in *; lia).
  rewrite (bind_ok (ret tt) _ t tt t eq_refl).
  set (b := brk (s_mem t)) in *.
  set (t1 := set_s_mem (set_brk (b + ALLOC_ALIGN (total h c * alloc_factor)) (s_mem t)) t).
  assert (Emal : malloc (total h c * alloc_factor) t = Ok b t1) by done.
  rewrite (bind_ok _ _ _ _ _ Emal).
  assert (Hr0 : reading h c b (FaslIn b (layout h 0 c) image 0)) by done.
  assert (Ha0 : ahead (FaslIn b (layout h 0 c) image 0) ((index_of c <$> image_list z) ++ concat ws)).
  { exists [], []. split; [|done]. cbn [app]. by rewrite app_nil_r. }
  destruct (zuo_fasl_roots_in_ok b _ _ t1 Hr0 Ha0) as (z' & Hz' & E2). rewrite (bind_ok _ _ _ _ _ E2).
  apply ahead_skip in Ha0. rewrite length_fmap, image_list_length in Ha0.
  destruct (fasl_restore_loop_ok table g h c u b Hnd Hobjs c [] _ (set_s_img z' t1) eq_refl (reading_skip _ _ _ 24 _ Hr0))
    as (objs & E3 & Hin & Honly); [|exact Ha0|].
  { destruct t as [[] ? ? ? ? ?]. exact (undefined_root _ _ Hz'). }
  cbn [total] in E3. rewrite (bind_ok _ _ _ _ _ E3).
  set (t2 := set_s_mem (set_heap (objs ∪ heap (s_mem t1)) (s_mem t1)) (set_s_img z' t1)).
  rewrite (bind_ok (mod_mem _) _ _ tt t2); [|by destruct t as [[] ? ? ? ? ?]].
  assert (E4 : dump_at (dump_of table h z c symbols) 3 t2 = Ok symbols t2) by done.
  rewrite (bind_ok _ _ _ _ _ E4), (bind_ok (mod_st _) _ _ _ _ eq_refl), (bind_ok (mod_st _) _ _ _ _ eq_refl).
  set (t3 := set_s_mem (replaced (s_mem t) objs (total h c)) (set_zuo_handle_count 0 (set_zuo_symbol_count symbols (set_s_img z' t)))).
  assert (Hdom : ∀ l, l ∈ c → is_Some (h !! l)) by (intros l Hl; destruct (Hobjs l Hl) as (o & Ho & _); by exists o).
  assert (Hin' : ∀ l o, l ∈ c → h !! l = Some o → ∃ o', objs !! f l = Some o' ∧ space_of o' = space_of o).
  { intros l o Hl Ho. eexists. split; [exact (Hin l o Hl Ho)|]. by rewrite restored_space, map_obj_space. }
  pose proof (new_heap_new h c (s_mem t) objs (total h c) Hdom eq_refl Hm Ht Hin') as Hnew.
  pose proof (new_heap_only h c (s_mem t) objs Hm Ht Honly) as Hnewo.
  pose proof (replaced_ok h c (s_mem t) objs (total h c) Hdom eq_refl Hm Ht Hin' Honly) as Hok.
  exists t3. split.
  { unfold zuo_replace_heap. rewrite (bind_ok (mod_mem _) _ _ _ _ eq_refl), (bind_ok (gm to_space) _ _ _ _ eq_refl).
    rewrite (bind_ok (gm heap_size) _ _ _ _ eq_refl), (bind_ok (gm old_spaces) _ _ _ _ eq_refl).
    rewrite (bind_ok _ _ _ _ _ (zuo_finish_gc_run _ _ _ _)). subst t3 t2 t1 b. by destruct t as [[] ? ? ? ? ?]. }
  subst t3. destruct t as [m ? ? ? ? ?]. cbn [s_mem] in *. split; [exact Hz'|].
  split; [|split; [exact Hnewo|done]].
  intros l o Hl Ho. transitivity (objs !! f l); [by apply Hnew|by apply Hin].
Qed.
End whole.

(** ** From the running heap to the image *)

Lemma reach_mono h sub roots l : sub ⊆ roots → reach h sub l → reach h roots l.
Proof. intros Hs. induction 1 as [l Hl|l o p _ IH Ho Hp]; [by apply reach_root, Hs|by eapply reach_step]. Qed.

Section iso.
Context (k : loc → loc) (h h' : gmap Z obj) (roots roots' sub : list loc).
Hypothesis Hiso : heap_iso k h roots h' roots'.
Hypothesis Hclosed : heap_closed h roots.
Hypothesis Hsub : sub ⊆ roots.

Lemma iso_reach l : reach h sub l → reach h' (k <$> sub) (k l).
Proof.
  induction 1 as [l Hl|l o p Hr IH Ho Hp]; [apply reach_root; by apply list_elem_of_fmap_2|].
  eapply reach_step; [exact IH|apply (hi_copy _ _ _ _ _ Hiso); [by eapply reach_mono|exact Ho]|].
  rewrite map_obj_ptrs. by apply list_elem_of_fmap_2.
Qed.

Lemma iso_reach_inv a : reach h' (k <$> sub) a → ∃ l, reach h sub l ∧ a = k l.
Proof.
  induction 1 as [a Ha|a o p Hr IH Ho Hp].
  - apply list_elem_of_fmap in Ha as (l & -> & Hl). exists l. split; [by apply reach_root|done].
  - destruct IH as (l & Hl & ->). destruct (heap_closed_reach h roots l Hclosed) as [o0 Ho0]; [by eapply reach_mono|].
    rewrite (hi_copy _ _ _ _ _ Hiso l o0) in Ho; [|by eapply reach_mono|done]. injection Ho as <-.
    rewrite map_obj_ptrs in Hp. apply list_elem_of_fmap in Hp as (q & -> & Hq).
    exists q. split; [by eapply reach_step|done].
Qed.
End iso.

Lemma dumpable_map table k o : dumpable table (map_obj k o) ↔ dumpable table o.
Proof. destruct o; try done. cbn. by rewrite length_fmap. Qed.

Lemma tentative_len_space o : tentative_len o < space_of o.
Proof.
  pose proof (space_of_pos o) as H. destruct o; cbn [tentative_len]; try lia.
  unfold space_of. cbn [obj_tag object_size tentative_len].
  pose proof (ALLOC_ALIGN_bounds (ZUO_STRING_ALLOC_SIZE (Z.of_nat (length s)))). unfold ZUO_STRING_ALLOC_SIZE, sizeof_string in *. lia.
Qed.

(** The conditions on [c] under which the dump of its objects is an image. *)
Record image_of (table : list registered) (h : gmap Z obj) (z : image) (c : list loc) : Prop := {
  io_nodup : NoDup c;
  io_roots : Forall (λ l, l ∈ c) (image_list z);
  io_objs : ∀ l, l ∈ c → ∃ o, h !! l = Some o ∧ dumpable table o ∧ tentative_len o < 2 ^ 63
    ∧ Forall (λ p, p ∈ c) (refs (o_undefined z) o);
  io_reach : ∀ l, l ∈ c ↔ reach h (image_list z) l }.

Lemma undefined_in z : o_undefined z ∈ image_list z.
Proof. destruct z. by constructor. Qed.

Lemma dumped_image_of table h z st :
  (∀ l o, h !! l = Some o → tentative_len o < 2 ^ 63) →
  (∀ l o, reach h (image_list z) l → h !! l = Some o → dumpable table o ∧ ∀ p, p ∈ ptrs o → is_Some (h !! p)) →
  dumped table h (o_undefined z) (image_list z) (length (fo_objs st)) st →
  image_of table h z (fo_objs st).
Proof.
  intros Hlen Hd [[Dn _] Dro Dre Drf _ _]. rewrite firstn_all in Drf. split; [done|by apply Forall_forall| |].
  - intros l Hl. destruct (Dre l Hl) as [Hr [o Ho]]. exists o. split; [done|].
    split; [by eapply Hd|]. split; [by eapply Hlen|by eapply Drf].
  - intros l. split; [apply Dre|]. induction 1 as [l Hl|l o p _ IH Ho Hp]; [by apply Dro|].
    pose proof (Drf l o IH Ho) as F. rewrite Forall_forall in F.
    destruct (ptrs_refs (o_undefined z) o p Hp) as [->|Hp']; [apply Dro, undefined_in|by apply F].
Qed.

Lemma zuo_fasl_dump_ok table s :
  mem_ok (s_mem s) → heap_closed (s_heap s) (roots_of s) → total_allocation (s_mem s) < 2 ^ 63 →
  (∀ l o, reach (s_heap s) (image_list (s_img s)) l → s_heap s !! l = Some o → dumpable table o) →
  ∃ s' k c, zuo_fasl_dump table s = Ok (dump_of table (s_heap s') (s_img s') c (zuo_symbol_count s)) s'
    ∧ heap_iso k (s_heap s) (roots_of s) (s_heap s') (roots_of s')
    ∧ image_list (s_img s') = k <$> image_list (s_img s)
    ∧ image_of table (s_heap s') (s_img s') c
    ∧ total (s_heap s') c ≤ total_allocation (s_mem s)
    ∧ mem_ok (s_mem s') ∧ s_sys s' = s_sys s.
Proof.
  intros Hm Hc Hmax Hd. destruct (collect_ok s Hm Hc) as (s' & k & E & Hiso & Hm' & Hc' & Htot & Hsc & _ & Hsys).
  assert (Himg : image_list (s_img s') = k <$> image_list (s_img s)).
  { pose proof (hi_roots _ _ _ _ _ Hiso) as Er. unfold roots_of in Er. rewrite fmap_app in Er.
    apply app_inj_1 in Er as [? _]; [done|]. by rewrite length_fmap, !image_list_length. }
  assert (Hsub : image_list (s_img s) ⊆ roots_of s) by (intros x Hx; apply elem_of_app; by left).
  assert (Hsub' : image_list (s_img s') ⊆ roots_of s') by (intros x Hx; apply elem_of_app; by left).
  assert (Hd' : ∀ l o, reach (s_heap s') (image_list (s_img s')) l → s_heap s' !! l = Some o →
    dumpable table o ∧ ∀ p, p ∈ ptrs o → is_Some (s_heap s' !! p)).
  { intros l o Hr Ho. split.
    - rewrite Himg in Hr. destruct (iso_reach_inv _ _ _ _ _ _ Hiso Hc Hsub _ Hr) as (l0 & Hl0 & ->).
      destruct (heap_closed_reach _ _ l0 Hc) as [o0 Ho0]; [by eapply reach_mono|].
      rewrite (hi_copy _ _ _ _ _ Hiso l0 o0) in Ho; [|by eapply reach_mono|done]. injection Ho as <-.
      apply dumpable_map. by eapply Hd.
    - pose proof (hc_ptrs _ _ Hc' l o Ho) as F. by rewrite Forall_forall in F. }
  pose proof (mo_bytes _ Hm') as Hby.
  assert (Hlen : ∀ l o, s_heap s' !! l = Some o → tentative_len o < 2 ^ 63).
  { intros l o Ho. pose proof (tentative_len_space o). pose proof (heap_bytes_elem _ _ _ Ho). unfold s_heap in *. lia. }
  assert (Hroots : ∀ l, l ∈ image_list (s_img s') → is_Some (s_heap s' !! l)).
  { intros l Hl. pose proof (hc_roots _ _ Hc') as F. rewrite Forall_forall in F. by apply F, Hsub'. }
  destruct (fasl_dump_loop_ok table (s_heap s') (o_undefined (s_img s')) (image_list (s_img s')) Hd'
    (heap_fuel s') 0 (zuo_fasl_roots_out (s_img s') (FaslOut ∅ [] [] [])) s' eq_refl eq_refl) as (st & E1 & D).
  { apply dumped_start; [done| |done|done|done].
    split; [constructor|]. intros l. cbn. rewrite lookup_empty, decide_False by apply not_elem_of_nil. done. }
  { lia. } { unfold heap_fuel. lia. }
  exists s', k, (fo_objs st). split; [|split; [exact Hiso|split; [exact Himg|split; [by eapply dumped_image_of|]]]].
  - unfold zuo_fasl_dump. rewrite (bind_ok _ _ _ _ _ E), (bind_ok get_st _ _ _ _ eq_refl), (bind_ok _ _ _ _ _ E1).
    pose proof (dd_map _ _ _ _ _ _ D) as EM. pose proof (dd_image _ _ _ _ _ _ D) as EI.
    rewrite firstn_all in EM, EI. unfold ret, dump_of, image_words. by rewrite EM, EI, image_list_length, Hsc.
  - split; [|done]. transitivity (heap_bytes (s_heap s')); [|unfold s_heap; lia].
    apply total_le_heap_bytes; [apply D|]. intros l Hl. destruct (dd_reach _ _ _ _ _ _ D l Hl) as [_ [o Ho]].
    exists o. split; [done|]. unfold osize. by rewrite Ho.
Qed.

(** ** The words of a dump are 32-bit integers *)

Lemma to_s32_range n : in_s32 (to_s32 n).
Proof. unfold in_s32, to_s32. pose proof (Z.mod_pos_bound (n + 2 ^ 31) (2 ^ 32)). lia. Qed.

Lemma trie_mask_nonneg u i next : 0 ≤ i → 0 ≤ trie_mask u i next.
Proof.
  revert i. induction next as [|n next IH]; intros i Hi; cbn [trie_mask]; [done|]. specialize (IH (i + 1)).
  case_decide; [lia|]. apply Z.lor_nonneg. split; [|lia]. rewrite Z.shiftl_1_l. lia.
Qed.

Lemma trie_mask_bound u next : length next = 16%nat → in_s32 (trie_mask u 0 next).
Proof.
  intros Hn. pose proof (trie_mask_nonneg u 0 next ltac:(lia)) as H0.
  assert (E : trie_mask u 0 next mod 2 ^ 16 = trie_mask u 0 next).
  { apply Z.bits_inj'. intros j Hj. destruct (Z.ltb_spec j 16); [by rewrite Z.mod_pow2_bits_low by lia|].
    rewrite Z.mod_pow2_bits_high by lia. destruct (Z.testbit (trie_mask u 0 next) j) eqn:Eb; [|done].
    apply trie_mask_bits in Eb as (_ & m & Hm%lookup_lt_Some & _); lia. }
  pose proof (Z.mod_pos_bound (trie_mask u 0 next) (2 ^ 16)). unfold in_s32. lia.
Qed.

Lemma words_length table u ix o : dumpable table o → Z.of_nat (length (words table u ix o)) ≤ space_of o.
Proof.
  intros Hd. unfold words. cbn [length]. rewrite length_app, length_fmap.
  destruct o; try done; try (pose proof (space_of_pos (Osingleton)); cbn; vm_compute; done).
  - pose proof (tentative_len_space (Ostring s)) as H. unfold space_of in *. cbn [obj_tag object_size tentative_len] in *.
    pose proof (ALLOC_ALIGN_bounds (ZUO_STRING_ALLOC_SIZE (Z.of_nat (length s)))). unfold ZUO_STRING_ALLOC_SIZE, sizeof_string in *. cbn. lia.
  - cbn in Hd |- *. pose proof (length_filter (λ n, n ≠ u) next). 
    assert (Hs : space_of (Otrie_node count key val next) = 160) by (vm_compute; done). lia.
Qed.

Lemma find_proc_bounds proc i table j : find_proc proc i table = Some j → i ≤ j < i + Z.of_nat (length table).
Proof.
  revert i. induction table as [|r table IH]; intros i; cbn [find_proc length]; [done|].
  case_decide; [intros [= ->]; lia|]. intros Hj%IH. lia.
Qed.

Lemma starts_bounds n wss x : x ∈ starts n wss → n ≤ x ≤ n + Z.of_nat (length (concat wss)).
Proof.
  revert n. induction wss as [|ws wss IH]; intros n; cbn [starts concat]; [by intros ?%not_elem_of_nil|].
  rewrite length_app. intros [->|Hx%IH]%elem_of_cons; lia.
Qed.

Section ranges.
Context (table : list registered) (h : gmap Z obj) (z : image) (c : list loc) (symbols : Z).
Hypothesis Htable : (length table ≤ ZUO_MAX_PRIMITIVE_COUNT)%nat.
Hypothesis Himg : image_of table h z c.
Hypothesis Hsize : total h c * alloc_factor < 2 ^ 31.
Hypothesis Hsymbols : in_s32 symbols.

Lemma objects_count rest : (∀ l, l ∈ rest → l ∈ c) → 16 * Z.of_nat (length rest) ≤ total h rest.
Proof.
  intros Hin. induction rest as [|l rest IH]; cbn [length total]; [lia|].
  destruct (io_objs _ _ _ _ Himg l) as (o & Ho & _); [apply Hin; by constructor|].
  pose proof (osize_pos h l ltac:(by exists o)). specialize (IH ltac:(intros x Hx; apply Hin; by constructor)). lia.
Qed.

Lemma index_range l : l ∈ c → in_s32 (index_of c l).
Proof.
  intros Hl. pose proof (index_of_nonneg c l). pose proof (index_of_lt c l Hl).
  pose proof (objects_count c ltac:(done)). unfold in_s32, alloc_factor in *. lia.
Qed.

Lemma indices_range ls : Forall (λ l, l ∈ c) ls → Forall in_s32 (index_of c <$> ls).
Proof. intros H. apply Forall_fmap. eapply Forall_impl; [exact H|]. intros l Hl. by apply index_range. Qed.

Lemma prefix_range u o : dumpable table o → Forall in_s32 (prefix table u o).
Proof.
  intros Hd. destruct o; cbn [prefix]; try done.
  - constructor; [apply to_s32_range|constructor; [apply to_s32_range|done]].
  - constructor; [apply to_s32_range|constructor; [apply to_s32_range|]].
    eapply Forall_impl; [exact Hd|]. unfold is_byte, in_s32. intros x Hx. lia.
  - by constructor.
  - constructor; [by apply trie_mask_bound|done].
  - destruct Hd as (i & Hi & _). rewrite Hi. constructor; [|done]. apply find_proc_bounds in Hi.
    unfold ZUO_MAX_PRIMITIVE_COUNT in Htable. cbn. unfold in_s32. lia.
Qed.

Lemma words_at_range l : l ∈ c → Forall in_s32 (words_at table h (o_undefined z) c l)
  ∧ Z.of_nat (length (words_at table h (o_undefined z) c l)) ≤ osize h l.
Proof.
  intros Hl. destruct (io_objs _ _ _ _ Himg l Hl) as (o & Ho & Hd & _ & Hr).
  unfold words_at, osize. rewrite Ho. cbn [from_option]. split; [|by apply words_length].
  unfold words. constructor; [by destruct (obj_tag o)|]. apply Forall_app. split; [by apply prefix_range|by apply indices_range].
Qed.

Lemma all_words_range rest : (∀ l, l ∈ rest → l ∈ c) →
  Forall in_s32 (concat (words_at table h (o_undefined z) c <$> rest))
  ∧ Z.of_nat (length (concat (words_at table h (o_undefined z) c <$> rest))) ≤ total h rest.
Proof.
  intros Hin. induction rest as [|l rest IH]; cbn [fmap list_fmap concat total]; [done|].
  destruct (words_at_range l) as [H1 H2]; [apply Hin; by constructor|].
  destruct IH as [H3 H4]; [intros x Hx; apply Hin; by constructor|].
  split; [by apply Forall_app|]. rewrite length_app. lia.
Qed.

Lemma dump_range : Forall in_s32 (dump_of table h z c symbols).
Proof.
  destruct (all_words_range c) as [H1 H2]; [done|]. pose proof (objects_count c ltac:(done)) as H3.
  unfold alloc_factor in Hsize. unfold dump_of. apply Forall_app. split; [|apply Forall_app; split].
  - constructor; [done|]. constructor; [unfold in_s32; lia|]. constructor; [|by constructor].
    unfold image_words. rewrite length_app, length_fmap, image_list_length. unfold in_s32. lia.
  - apply Forall_forall. intros x Hx%starts_bounds. unfold in_s32. lia.
  - unfold image_words. apply Forall_app. split; [apply indices_range, Himg|done].
Qed.
End ranges.

(** ** Bytes *)

Lemma dump_words_bytes ws : Forall in_s32 ws → dump_words (dump_bytes ws) = ws.
Proof.
  induction 1 as [|w ws Hw _ IH]; [done|]. cbn [dump_bytes flat_map app dump_words]. fold (dump_bytes ws). rewrite IH. f_equal.
  change 255 with (Z.ones 8). rewrite !Z.land_ones, !Z.shiftr_div_pow2 by lia.
  pose proof (Z.mod_pos_bound w 256). pose proof (Z.mod_pos_bound (w / 2 ^ 8) 256). pose proof (Z.mod_pos_bound (w / 2 ^ 16) 256).
  set (b0 := w mod 2 ^ 8). set (b1 := (w / 2 ^ 8) mod 2 ^ 8). set (b2 := (w / 2 ^ 16) mod 2 ^ 8). set (b3 := (w / 2 ^ 24) mod 2 ^ 8).
  change (2 ^ 8) with 256 in *.
  rewrite (lor_shiftl_add b1 b0 8) by lia. rewrite (lor_shiftl_add b2 _ 16) by lia. rewrite (lor_shiftl_add b3 _ 24) by lia.
  subst b0 b1 b2 b3.
  unfold in_s32, to_s32 in *. Z.div_mod_to_equations. lia.
Qed.

Lemma byte_order_ok dump rest s :
  dump = zuo_magic :: rest → Forall in_s32 dump → fasl_byte_order (dump_words (dump_bytes dump)) s = Ok dump s.
Proof.
  intros -> Hr. rewrite dump_words_bytes by done. unfold fasl_byte_order.
  assert (E : dump_at (zuo_magic :: rest) 0 s = Ok zuo_magic s) by done. by rewrite (bind_ok _ _ _ _ _ E).
Qed.

(** ** The round trip *)

Lemma map_obj_compose f k o : map_obj f (map_obj k o) = map_obj (f ∘ k) o.
Proof. destruct o; try done. cbn. by rewrite <- list_fmap_compose. Qed.

(** [f] carries what the image roots of [s] reach onto the whole heap of [t]. *)
Record restores (g : garbage) (f : loc → loc) (s t : st) : Prop := {
  rs_roots : image_list (s_img t) = f <$> image_list (s_img s);
  rs_inj : ∀ l l', reach (s_heap s) (image_list (s_img s)) l → reach (s_heap s) (image_list (s_img s)) l' → f l = f l' → l = l';
  rs_copy : ∀ l o, reach (s_heap s) (image_list (s_img s)) l → s_heap s !! l = Some o → s_heap t !! f l = Some (restored g (f l) (map_obj f o));
  rs_only : ∀ a, is_Some (s_heap t !! a) → ∃ l, reach (s_heap s) (image_list (s_img s)) l ∧ a = f l;
  rs_symbols : zuo_symbol_count t = zuo_symbol_count s }.

Lemma image_dump_restore_ok table g s t :
  (length table ≤ ZUO_MAX_PRIMITIVE_COUNT)%nat →
  mem_ok (s_mem s) → heap_closed (s_heap s) (roots_of s) → total_allocation (s_mem s) < 2 ^ 30 →
  in_s32 (zuo_symbol_count s) →
  (∀ l o, reach (s_heap s) (image_list (s_img s)) l → s_heap s !! l = Some o → dumpable table o) →
  mem_ok (s_mem t) → to_space (s_mem t) ≠ 0 →
  ∃ dump s' t' f, zuo_fasl_dump table s = Ok dump s'
    ∧ zuo_fasl_restore table g (dump_bytes dump) t = Ok tt t'
    ∧ restores g f s t' ∧ mem_ok (s_mem t') ∧ zuo_handle_count t' = 0 ∧ s_sys s' = s_sys s ∧ s_sys t' = s_sys t ∧ s_rt t' = s_rt t.
Proof.
  intros Htab Hm Hc Hmax Hsym Hd Ht Hts.
  destruct (zuo_fasl_dump_ok table s Hm Hc) as (s' & k & c & E & Hiso & Himg & Hi & Htot & _ & Hsys); [lia|done|].
  assert (Hsize : total (s_heap s') c * alloc_factor < 2 ^ 31) by (unfold alloc_factor; lia).
  pose proof (dump_range table (s_heap s') (s_img s') c (zuo_symbol_count s) Htab Hi Hsize Hsym) as Hrange.
  pose proof (byte_order_ok _ _ t eq_refl Hrange) as Hbo.
  destruct (zuo_fasl_restore_ok table g (s_heap s') (s_img s') c (zuo_symbol_count s) (io_nodup _ _ _ _ Hi) (io_roots _ _ _ _ Hi)
    (io_objs _ _ _ _ Hi) Hsize _ t Hbo Ht Hts) as (t' & E' & Hz & Hcopy & Honly & Hmt & Hsc & Hhc & Hrt & Hst).
  set (f := fwd (s_heap s') (brk (s_mem t)) c) in *.
  assert (Hsub : image_list (s_img s) ⊆ roots_of s) by (intros x Hx; apply elem_of_app; by left).
  assert (Hin : ∀ l, reach (s_heap s) (image_list (s_img s)) l → k l ∈ c).
  { intros l Hl. apply (io_reach _ _ _ _ Hi). rewrite Himg. by apply (iso_reach k _ _ _ _ _ Hiso Hsub). }
  exists (dump_of table (s_heap s') (s_img s') c (zuo_symbol_count s)), s', t', (f ∘ k).
  split; [exact E|]. split; [exact E'|]. split; [|by split_and!].
  split.
  - rewrite Hz, Himg. symmetry. apply list_fmap_compose.
  - intros l l' Hl Hl' Ef. apply (hi_inj _ _ _ _ _ Hiso); [by eapply reach_mono|by eapply reach_mono|].
    exact (f_inj table _ _ _ (brk (s_mem t)) (io_objs _ _ _ _ Hi) _ _ (Hin l Hl) (Hin l' Hl') Ef).
  - intros l o Hl Ho. assert (Ho' : s_heap s' !! k l = Some (map_obj k o)).
    { apply (hi_copy _ _ _ _ _ Hiso); [by eapply reach_mono|done]. }
    pose proof (Hcopy _ _ (Hin l Hl) Ho') as E3. rewrite map_obj_compose in E3. exact E3.
  - intros a Ha. destruct (Honly a Ha) as (l' & Hl' & ->). apply (io_reach _ _ _ _ Hi) in Hl'. rewrite Himg in Hl'.
    destruct (iso_reach_inv k _ _ _ _ _ Hiso Hc Hsub _ Hl') as (l & Hl & ->). by exists l.
  - exact Hsc.
Qed.

(** The constants of a restored image are what they were. *)
Section restored_image.
Context (g : garbage) (f : loc → loc) (s t : st).
Hypothesis Hr : restores g f s t.

Lemma restored_obj_is p x :
  (∀ o a, p o = true → p (restored g a (map_obj f o)) = true) →
  x ∈ image_list (s_img s) → obj_is (s_heap s) p x = true → obj_is (s_heap t) p (f x) = true.
Proof.
  intros Hp Hx. unfold obj_is. destruct (s_heap s !! x) as [o|] eqn:E; [|done]. intros Ho.
  rewrite (rs_copy _ _ _ _ Hr x o (reach_root _ _ _ Hx) E). by apply Hp.
Qed.

Lemma restored_image_ok : image_ok s → mem_ok (s_mem t) → image_ok t.
Proof.
  intros [_ Hs Hn Hh Hd Hy] Hm. pose proof (rs_roots _ _ _ _ Hr) as Ez.
  assert (Hsub : ∀ x, x ∈ singletons (s_img s) → x ∈ image_list (s_img s)) by (intros x; clear; destruct (s_img s); unfold singletons; cbn; rewrite !elem_of_cons; tauto).
  assert (Es : singletons (s_img t) = f <$> singletons (s_img s) ∧ o_empty_hash (s_img t) = f (o_empty_hash (s_img s))
    ∧ o_done_k (s_img t) = f (o_done_k (s_img s))
    ∧ [o_quote_symbol (s_img t); o_lambda_symbol (s_img t); o_let_symbol (s_img t); o_begin_symbol (s_img t); o_if_symbol (s_img t)]
      = f <$> [o_quote_symbol (s_img s); o_lambda_symbol (s_img s); o_let_symbol (s_img s); o_begin_symbol (s_img s); o_if_symbol (s_img s)]).
  { destruct (s_img s), (s_img t). cbn in Ez |- *. injection Ez as -> -> -> -> -> -> -> -> -> -> -> -> -> -> -> -> -> -> -> -> -> -> -> ->. done. }
  destruct Es as (Es & Eh & Ed & Ey). rewrite Forall_forall in Hs. split; [done| | | | |].
  - rewrite Es. apply Forall_fmap, Forall_forall. intros x Hx. cbn.
    exact (rs_copy _ _ _ _ Hr x Osingleton (reach_root _ _ _ (Hsub x Hx)) (Hs x Hx)).
  - rewrite Es. apply NoDup_fmap_2_strong; [|done]. intros x y Hx Hy'.
    apply (rs_inj _ _ _ _ Hr); by apply reach_root, Hsub.
  - rewrite Eh. apply restored_obj_is; [|destruct (s_img s); cbn; rewrite !elem_of_cons; tauto|done].
    intros [] a; try done. cbn. by rewrite length_fmap.
  - rewrite Ed. apply restored_obj_is; [|destruct (s_img s); cbn; rewrite !elem_of_cons; tauto|done]. by intros [] a.
  - rewrite Ey. apply Forall_fmap, Forall_forall. intros x Hx. cbn.
    apply restored_obj_is; [by intros [] a|revert Hx; destruct (s_img s); cbn; rewrite !elem_of_cons; tauto|].
    rewrite Forall_forall in Hy. by apply Hy.
Qed.
End restored_image.

(** C8. A dump of the heap, read back by another process, brings back what
    the image roots reach: from any well-formed state without handles among
    its constants and tables, and with less than a gigabyte in use, the dump
    succeeds, and its bytes restore, on a machine with the same byte order, to a
    heap that holds exactly the objects that the roots reached, with their
    contents, under a renaming that merges no two objects.  Only the counts of
    trie nodes and the tags of continuations are not restored.  The memory
    manager is in order afterwards, and the constants are constants again. *)
Theorem image_dump_restore table g s t :
  (length table ≤ ZUO_MAX_PRIMITIVE_COUNT)%nat →
  image_ok s → heap_closed (s_heap s) (roots_of s) → total_allocation (s_mem s) < 2 ^ 30 →
  in_s32 (zuo_symbol_count s) →
  (∀ l o, reach (s_heap s) (image_list (s_img s)) l → s_heap s !! l = Some o → dumpable table o) →
  mem_ok (s_mem t) → to_space (s_mem t) ≠ 0 →
  ∃ dump s' t' f, zuo_fasl_dump table s = Ok dump s'
    ∧ zuo_fasl_restore table g (dump_bytes dump) t = Ok tt t'
    ∧ restores g f s t' ∧ image_ok t' ∧ zuo_handle_count t' = 0 ∧ s_sys t' = s_sys t ∧ s_rt t' = s_rt t.
Proof.
  intros Htab Hs Hc Hmax Hsym Hd Ht Hts.
  destruct (image_dump_restore_ok table g s t Htab (im_mem _ Hs) Hc Hmax Hsym Hd Ht Hts)
    as (dump & s' & t' & f & E & E' & Hr & Hm & Hh & _ & Hsys & Hrt).
  exists dump, s', t', f. do 3 (split; [done|]). split; [by eapply restored_image_ok|done].
Qed.

(** ** A dump of the state after booting *)

Definition booted_table : list registered :=
  match boot no_os 100 (bytes_of "/") [] [] initial_st with Ok table _ => table | _ => [] end.

Definition dumpableb (table : list registered) (o : obj) : bool :=
  match o with
  | Ointeger i => bool_decide (in_s64 i)
  | Ostring b => forallb (λ c, bool_decide (is_byte c)) b
  | Osymbol id _ => bool_decide (in_s32 id)
  | Otrie_node _ _ _ next => Nat.eqb (length next) 16
  | Oprimitive d proc a _ =>
      match find_proc proc 0 table with
      | Some i => match table !! Z.to_nat i with
                  | Some r => bool_decide (r_proc r = proc) && bool_decide (r_arity_mask r = a) && bool_decide (r_dispatcher r = d)
                  | None => false
                  end
      | None => false
      end
  | Ohandle _ _ _ | Oforwarded _ => false
  | _ => true
  end.

Lemma dumpableb_sound table o : dumpableb table o = true → dumpable table o.
Proof.
  destruct o; cbn [dumpableb dumpable]; try done; try (by intros H%bool_decide_eq_true).
  - intros H. eapply forallb_Forall; [|exact H]. intros x. by intros Hx%bool_decide_eq_true.
  - apply Nat.eqb_eq.
  - destruct (find_proc proc 0 table) as [i|] eqn:E; [|done].
    destruct (table !! Z.to_nat i) as [[d p a]|] eqn:Et; [|done]. cbn.
    intros [[->%bool_decide_eq_true ->%bool_decide_eq_true]%andb_true_iff ->%bool_decide_eq_true]%andb_true_iff.
    exists i. apply find_proc_bounds in E as ?. split_and!; [done|lia|done].
Qed.

Lemma forallb_heap (p : obj → bool) (h : gmap Z obj) :
  forallb (λ e, p (snd e)) (map_to_list h) = true → ∀ l o, h !! l = Some o → p o = true.
Proof.
  intros H l o Ho. rewrite List.forallb_forall in H. apply (H (l, o)). by apply list_elem_of_In, elem_of_map_to_list.
Qed.

Lemma booted_dumpable l o :
  reach (s_heap booted) (image_list (s_img booted)) l → s_heap booted !! l = Some o → dumpable booted_table o.
Proof.
  intros _ Ho. apply dumpableb_sound.
  assert (H : forallb (λ e, dumpableb booted_table (snd e)) (map_to_list (s_heap booted)) = true) by (vm_compute; reflexivity).
  exact (forallb_heap _ _ H l o Ho).
Qed.

Lemma image_dump_restore_witness :
  ∃ dump s' t' f, zuo_fasl_dump booted_table booted = Ok dump s'
    ∧ zuo_fasl_restore booted_table (Garbage (λ _, 7) (λ _, zuo_apply_cont)) (dump_bytes dump) booted = Ok tt t'
    ∧ restores (Garbage (λ _, 7) (λ _, zuo_apply_cont)) f booted t' ∧ image_ok t' ∧ zuo_handle_count t' = 0
    ∧ s_sys t' = s_sys booted ∧ s_rt t' = s_rt booted.
Proof.
  refine (image_dump_restore booted_table _ booted booted _ booted_image booted_closed _ _ booted_dumpable booted_ok _).
  - apply (proj1 (Nat.leb_le _ _)). vm_compute. reflexivity.
  - apply (proj1 (Z.ltb_lt _ _)). vm_compute. reflexivity.
  - refine (bool_decide_eq_true_1 _ _). vm_compute. reflexivity.
  - intros H. assert (Hb : (to_space (s_mem booted) =? 0) = false) by (vm_compute; reflexivity). by rewrite H in Hb.
Defined.
