(* ===== verification/MainSpec.v ===== *)
(** * The command line and the boot image

    The options of the command line; booting from an image file that another
    process dumped; and whole runs of the process, from its arguments to its
    system calls. *)

From S2P Require Import Prelude Sys Heap Alloc Gc GcCorrect Objects Trie Lists ImageOk Intern Sort Printer Reader Prims Interp Path Module Shell Sha256 Fasl Init Boot Files Processes FileSystem System PathBytes PathSpec HashSpec FdSpec OpenSpec FaslSpec Main.

(** ** Options *)

(** The options with their arguments; [long] is the spelling. *)
Inductive flag :=
  | Fboot (long : bool) (path : list Z)
  | Fcollects (long : bool) (dir : list Z)
  | Flog (path : list Z)
  | Feval.

Definition flag_words (f : flag) : list (list Z) :=
  match f with
  | Fboot long path => [bytes_of (if long then "--boot" else "-B"); path]
  | Fcollects long dir => [bytes_of (if long then "--collects" else "-X"); dir]
  | Flog path => [bytes_of "-M"; path]
  | Feval => [bytes_of "-c"]
  end.

(** The last of some values, or the first one given. *)
Definition last_of {A} (d : A) (l : list A) : A := default d (last l).

(** What the options ask for: each time the last one, but a library path once
    given stays when the empty one follows. *)
Definition asked (fs : list flag) : options :=
  {| boot_image := last (omap (λ f, match f with Fboot _ p => Some p | _ => None end) fs);
     library_path := last (omap (λ f, match f with Fcollects _ (c :: d) => Some (c :: d) | _ => None end) fs);
     zuo_lib_path := if existsb (λ f, match f with Fcollects _ [] => true | _ => false end) fs then None else Some ZUO_LIB_PATH;
     zuo_file_logging := last (omap (λ f, match f with Flog p => Some p | _ => None end) fs);
     eval_argument := existsb (λ f, match f with Feval => true | _ => false end) fs |}.

Lemma last_snoc_omap {A B} (p : A → option B) l x :
  last (omap p (l ++ [x])) = match p x with Some y => Some y | None => last (omap p l) end.
Proof.
  rewrite omap_app. cbn. destruct (p x); [by rewrite last_snoc|by rewrite app_nil_r].
Qed.

Lemma existsb_snoc {A} (p : A → bool) l x : existsb p (l ++ [x]) = existsb p l || p x.
Proof. rewrite existsb_app. cbn. by rewrite orb_false_r. Qed.

(** One option is taken at a time. *)
Lemma parse_flag argv0 done f rest :
  parse_flags argv0 (flag_words f ++ rest) (asked done) = parse_flags argv0 rest (asked (done ++ [f])).
Proof.
  unfold asked. rewrite !last_snoc_omap, !existsb_snoc.
  destruct f as [[] p|[] [|c d]|p|]; cbn [flag_words app]; rewrite ?orb_false_r, ?orb_true_r; reflexivity.
Qed.

Lemma parse_all_flags argv0 fs done rest :
  parse_flags argv0 (flat_map flag_words fs ++ rest) (asked done) = parse_flags argv0 rest (asked (done ++ fs)).
Proof.
  revert done. induction fs as [|f fs IH]; intros done; [by rewrite app_nil_r|].
  cbn [flat_map]. rewrite <- app_assoc, parse_flag, IH, <- app_assoc. done.
Qed.

Lemma parse_from_start argv0 fs rest :
  parse_flags argv0 (flat_map flag_words fs ++ rest) initial_options = parse_flags argv0 rest (asked fs).
Proof. exact (parse_all_flags argv0 fs [] rest). Qed.

Lemma parse_flags_stop argv0 file args o :
  head file ≠ Some 45 → parse_flags argv0 (file :: args) o = Pgo o (file :: args).
Proof.
  intros Hf. destruct o as [boot lib path log ev]. cbn [parse_flags].
  assert (Hne : ∀ s, head (bytes_of s) = Some 45 → file ≠ bytes_of s) by (intros s Hs ->; done).
  rewrite !decide_False; try done; try (by apply Hne); intros [E|E]; by eapply Hne in E.
Qed.

Definition flag_names : list (list Z) :=
  bytes_of <$> ["-h"; "--help"; "-B"; "--boot"; "-X"; "--collects"; "-M"; "-c"; "--"].

Lemma parse_flags_unknown argv0 a args o :
  head a = Some 45 → a ∉ flag_names → parse_flags argv0 (a :: args) o = Perror (argv0 ++ bytes_of ": unrecognized flag: " ++ a).
Proof.
  intros Ha Hn. unfold flag_names in Hn. cbn [fmap list_fmap] in Hn. rewrite !not_elem_of_cons in Hn.
  destruct Hn as (H1 & H2 & H3 & H4 & H5 & H6 & H7 & H8 & H9 & _).
  destruct o as [boot lib path log ev]. cbn [parse_flags].
  rewrite 7!decide_False; try done; try (by intros [?|?]). by rewrite decide_True.
Qed.

(** C31. The command line is taken as its options say, in any number and order
    and in both spellings, up to [--], to the first argument that does not
    start with a dash, or to its end: each setting is that of the last option
    for it, except that an empty library path takes the default away without
    taking back a path that another [-X] gave.  The next argument is the file
    to load and the rest are its arguments; [-c] needs a file.  [-h] stops
    with the help; an unknown option and one without its argument stop with
    an error that names it. *)
Theorem command_line_correct argv0 fs rest :
  let before := flat_map flag_words fs in
  parse_command_line argv0 before
    = (if eval_argument (asked fs) then inl (Perror (argv0 ++ bytes_of ": expected an argument after -c")) else inr (asked fs, None, []))
  ∧ (∀ file, head file ≠ Some 45 → parse_command_line argv0 (before ++ file :: rest) = inr (asked fs, Some file, rest))
  ∧ (∀ file, parse_command_line argv0 (before ++ bytes_of "--" :: file :: rest) = inr (asked fs, Some file, rest))
  ∧ (∀ long : bool, parse_command_line argv0 (before ++ bytes_of (if long then "--help" else "-h") :: rest) = inl Phelp)
  ∧ (∀ a, head a = Some 45 → a ∉ flag_names →
      parse_command_line argv0 (before ++ a :: rest) = inl (Perror (argv0 ++ bytes_of ": unrecognized flag: " ++ a)))
  ∧ (∀ f s, (f, s) ∈ [(bytes_of "-B", "-B"); (bytes_of "--boot", "-B"); (bytes_of "-X", "-X"); (bytes_of "--collects", "-X"); (bytes_of "-M", "-M")] →
      parse_command_line argv0 (before ++ [f]) = inl (Perror (argv0 ++ bytes_of ": expected a path after " ++ bytes_of s))).
Proof.
  cbn zeta. unfold parse_command_line. split.
  { pose proof (parse_from_start argv0 fs []) as E. rewrite app_nil_r in E. rewrite E. by destruct (asked fs) as [? ? ? ? []]. }
  split; [intros file Hf; by rewrite parse_from_start, parse_flags_stop|].
  split; [intros file; by rewrite parse_from_start; destruct (asked fs)|].
  split; [intros []; by rewrite parse_from_start; destruct (asked fs)|].
  split; [intros a Ha Hn; by rewrite parse_from_start, parse_flags_unknown|].
  intros f s H. rewrite parse_from_start. repeat (apply elem_of_cons in H as [H|H]; [injection H as -> ->; by destruct (asked fs)|]).
  by apply not_elem_of_nil in H.
Qed.

Lemma command_line_correct_witness :
  parse_command_line (bytes_of "zuo") [bytes_of "-X"; bytes_of "a"; bytes_of "--collects"; bytes_of "b"; bytes_of "m.zuo"; bytes_of "-x"]
  = inr (asked [Fcollects false (bytes_of "a"); Fcollects true (bytes_of "b")], Some (bytes_of "m.zuo"), [bytes_of "-x"]).
Proof.
  destruct (command_line_correct (bytes_of "zuo") [Fcollects false (bytes_of "a"); Fcollects true (bytes_of "b")] [bytes_of "-x"]) as (_ & H & _).
  apply (H (bytes_of "m.zuo")). vm_compute. discriminate.
Defined.

(** ** Booting from an image *)

Section boot.
Context (os : list syscall → sysret) (fuel : nat) (g : garbage).

(** The file at [path] can be read as [F], and then be closed, with at most [N]
    interruptions of each call. *)
Record readable (N : nat) (path F : list Z) (h : list syscall) : Prop := {
  re_open : ∃ n h' fd out, answered os (Sopen path [O_RDONLY] None) n h h' (Sret fd out) ∧ (n ≤ N)%nat
    ∧ Stream os fd F N ∧ rest os fd F h' = F
    ∧ ∀ h, ∃ n h' r, answered os (Sclose fd) n h h' r ∧ (n ≤ N)%nat }.

Lemma read_boot_image_ok N path F t :
  mem_ok (s_mem t) → is_Some (s_heap t !! o_undefined (s_img t)) → path_string path → (N < fuel)%nat → (length F < fuel)%nat →
  readable N path F (calls t) →
  ∃ t1 h, mem_ok (s_mem t1) ∧ s_rt t1 = s_rt t ∧ is_Some (s_heap t1 !! o_undefined (s_img t))
    ∧ (∀ table, image_init os fuel g table (Some path) t
       = (zuo_fasl_restore table g F ;;; zuo_sync_in_case_of_fail) (set_calls h t1)).
Proof.
  intros Hm [ou Hu] Hp HN HF [(n & h' & fd & out & Ho & Hn & HS & HR & Hc)].
  destruct (allocates_grows _ _ t (zuo_string_ok path) Hm) as (p & s1 & E1 & _ & G1).
  destruct (allocates_grows _ _ s1 zuo_trie_node_ok (gr_ok _ _ _ G1)) as (o & s2 & E2 & Hon & G2).
  assert (Hu1 : s_heap s1 !! o_undefined (s_img t) = Some ou) by (by eapply grows_lookup).
  assert (Hu2 : s_heap s2 !! o_undefined (s_img t) = Some ou) by (by eapply grows_lookup).
  assert (Hps : s_heap s2 !! p = Some (Ostring path)).
  { eapply grows_lookup; [exact G2|]. rewrite (gr_heap _ _ _ G1), c_str_id by apply Hp. apply lookup_union_Some_l, lookup_singleton_eq. }
  assert (Hos : s_heap s2 !! o = Some (empty_node s1)).
  { rewrite (gr_heap _ _ _ G2). apply lookup_union_Some_l, lookup_singleton_eq. }
  assert (Hne : o ≠ o_undefined (s_img s2)).
  { rewrite (gr_img _ _ _ G2), (gr_img _ _ _ G1). intros ->. congruence. }
  assert (Hcalls : calls s2 = calls t) by (by rewrite (grows_calls _ _ _ G2), (grows_calls _ _ _ G1)).
  destruct (no_options_ok who_open s2 _ _ _ _ Hos) as [Hch Hco].
  assert (E3 : zuo_fd_open_input_handle os fuel p o s2 = Ok fd (set_calls h' s2)).
  { unfold zuo_fd_open_input_handle, given_options. rewrite bind_assoc. run_step (is_zi_ne o_undefined o s2 Hne).
    rewrite (bind_ok (ret o) _ _ _ _ eq_refl). run_step (is_path_string_ok s2 p path Hps). rewrite bool_decide_true by done.
    run_step Hch. run_step Hco. run_step (ZUO_STRING_PTR_ok _ _ _ Hps). run_step (eintr_retry_ok os _ _ _ _ _ Ho fuel s2 Hcalls ltac:(lia)). done. }
  set (s3 := set_calls h' s2) in *.
  destruct (zuo_drain_ok os fuel fd F N s3 (-1) HS) as (dump & s4 & hn & new & E4 & G4 & Hc4 & _ & _ & Hdump); [|done|lia| |].
  { unfold s3. rewrite s_mem_set_calls. apply G2. }
  { unfold s3. rewrite calls_set. unfold wanted. cbn. by rewrite HR. }
  rewrite decide_False in E4 by (intros [_ ?]; lia). unfold s3 in Hdump. rewrite calls_set in Hdump. unfold wanted in Hdump. cbn in Hdump. rewrite HR in Hdump.
  destruct (Hc (calls s4)) as (m & h & r & Hcl & Hm').
  exists s4, h. pose proof (io_grows_new _ _ _ _ _ G4 Hdump) as Hd4.
  split; [exact (io_grows_mem _ _ _ G4)|]. split.
  { rewrite (gr_rt _ _ _ G4), s_rt_set_calls. unfold s3. rewrite s_rt_set_calls. by rewrite (gr_rt _ _ _ G2), (gr_rt _ _ _ G1). }
  split.
  { exists ou. apply (grows_lookup _ _ _ _ _ G4). rewrite s_heap_set_calls. unfold s3. by rewrite s_heap_set_calls. }
  intros table. unfold image_init. run_step E1. run_step E2. run_step E3. run_step E4. unfold zuo_close_handle. rewrite bind_assoc.
  run_step (eintr_retry_ok os _ _ _ _ _ Hcl fuel s4 eq_refl ltac:(lia)). rewrite (bind_ok (ret tt) _ _ _ _ eq_refl).
  assert (Hd5 : s_heap (set_calls h s4) !! dump = Some (Ostring F)) by (by rewrite s_heap_set_calls).
  run_step (ZUO_STRING_PTR_ok _ _ _ Hd5). done.
Qed.
End boot.

(** The registers that error messages look at *)
Lemma sync_ok t : zuo_sync_in_case_of_fail t
  = Ok tt (set_s_rt (set_o_cleanable_table (o_undefined (s_img t)) (set_o_interp_meta_k (o_null (s_img t)) (set_o_interp_k (o_done_k (s_img t)) (s_rt t)))) t).
Proof. by destruct t as [? ? [] ? ? ?]. Qed.

(** C9. The runtime starts from an image file: when a process has dumped the
    heap of a state [s], another one that has registered its primitives and
    can read the dump from the file at [path], whatever interruptions and
    short reads there are, ends [zuo_image_init] with exactly the objects that
    the image roots of [s] reached, with their contents; the constants are in
    order, and no computation is under way.  Both processes are on machines with
    the same byte order. *)
Theorem boot_from_image os fuel g N path table s t :
  (length table ≤ ZUO_MAX_PRIMITIVE_COUNT)%nat →
  image_ok s → heap_closed (s_heap s) (roots_of s) → total_allocation (s_mem s) < 2 ^ 30 →
  in_s32 (zuo_symbol_count s) →
  (∀ l o, reach (s_heap s) (image_list (s_img s)) l → s_heap s !! l = Some o → dumpable table o) →
  mem_ok (s_mem t) → is_Some (s_heap t !! o_undefined (s_img t)) → path_string path → (N < fuel)%nat →
  (∀ dump s', zuo_fasl_dump table s = Ok dump s' →
    (length (dump_bytes dump) < fuel)%nat ∧ readable os N path (dump_bytes dump) (calls t)) →
  ∃ t' f, image_init os fuel g table (Some path) t = Ok tt t'
    ∧ restores g f s t' ∧ image_ok t'
    ∧ s_rt t' = set_o_cleanable_table (o_undefined (s_img t')) (set_o_interp_meta_k (o_null (s_img t')) (set_o_interp_k (o_done_k (s_img t')) (s_rt t))).
Proof.
  intros Htab Hs Hc Hmax Hsym Hd Ht Hu Hp HN Hfile.
  destruct (image_dump_restore_ok table g s t Htab (im_mem _ Hs) Hc Hmax Hsym Hd Ht) as (dump & s' & _ & _ & E & _).
  { destruct Hu as [o Hu]. intros Hz. destruct (mo_fresh _ Ht Hz) as [He _]. unfold s_heap in Hu. by rewrite He, lookup_empty in Hu. }
  destruct (Hfile dump s' E) as [Hlen Hre].
  destruct (read_boot_image_ok os fuel g N path _ t Ht Hu Hp HN Hlen Hre) as (t1 & h & Hm1 & Hrt1 & [o Hu1] & Hinit).
  destruct (image_dump_restore_ok table g s (set_calls h t1) Htab (im_mem _ Hs) Hc Hmax Hsym Hd) as (dump' & s'' & t2 & f & E' & Er & Hr & Hm2 & _ & _ & _ & Hrt2).
  { by rewrite s_mem_set_calls. }
  { rewrite s_mem_set_calls. intros Hz. destruct (mo_fresh _ Hm1 Hz) as [He _]. unfold s_heap in Hu1. by rewrite He, lookup_empty in Hu1. }
  rewrite E in E'. injection E' as <- <-. rewrite s_rt_set_calls in Hrt2.
  eexists _, f. split; [rewrite Hinit; rewrite (bind_ok _ _ _ _ _ Er); apply sync_ok|].
  pose proof (restored_image_ok g f s t2 Hr Hs Hm2) as Him.
  split; [destruct Hr; split; by destruct t2|]. split; [destruct Him; split; by destruct t2|].
  destruct t2 as [? ? ? ? ? ?]. cbn in *. by rewrite Hrt2, Hrt1.
Qed.

(** A disk with one file, which is read byte by byte *)
Definition disk (F : list Z) (h : list syscall) : sysret :=
  match reverse h with
  | Sopen _ _ _ :: _ => Sret 5 []
  | Sread fd _ :: h' => let out := take 1 (drop (reads_of fd h') F) in Sret (Z.of_nat (length out)) out
  | _ => Sret 0 []
  end.

Lemma disk_bytewise F : bytewise F (disk F).
Proof. intros h fd amt. unfold disk. rewrite reverse_snoc. by rewrite reads_of_reverse. Qed.

Lemma disk_readable F path h : reads_of 5 h = 0%nat → readable (disk F) 0 path F h.
Proof.
  intros Hh. split. exists 0%nat, (h ++ [Sopen path [O_RDONLY] None]), 5, []. split; [|split; [done|split; [|split]]].
  - apply an_now; [|done]. unfold disk. by rewrite reverse_snoc.
  - apply bytewise_stream, disk_bytewise.
  - unfold rest. rewrite (bytewise_given _ _ _ _ (disk_bytewise F)), reads_of_app, Hh. done.
  - intros h'. exists 0%nat, (h' ++ [Sclose 5]), (Sret 0 []). split; [|done]. apply an_now; [|done].
    unfold disk. by rewrite reverse_snoc.
Qed.

(** The dump of the booted state, and a process that is about to load it *)
Definition booted_dump : list Z :=
  match zuo_fasl_dump booted_table booted with Ok d _ => dump_bytes d | _ => [] end.

Definition starting : st :=
  match primitive_init (disk []) 100 true true initial_st with Ok _ s => s | _ => initial_st end.

Lemma starting_ok : mem_ok (s_mem starting).
Proof. apply mem_okb_sound. vm_compute. reflexivity. Qed.

Lemma boot_from_image_witness :
  ∃ t' f, image_init (disk booted_dump) (S (length booted_dump)) (Garbage (λ _, 7) (λ _, zuo_apply_cont)) booted_table (Some (bytes_of "img")) starting = Ok tt t'
    ∧ restores (Garbage (λ _, 7) (λ _, zuo_apply_cont)) f booted t' ∧ image_ok t'
    ∧ s_rt t' = set_o_cleanable_table (o_undefined (s_img t')) (set_o_interp_meta_k (o_null (s_img t')) (set_o_interp_k (o_done_k (s_img t')) (s_rt starting))).
Proof.
  refine (boot_from_image (disk booted_dump) (S (length booted_dump)) _ 0 (bytes_of "img") booted_table booted starting
    _ booted_image booted_closed _ _ booted_dumpable starting_ok _ _ _ _).
  - apply (proj1 (Nat.leb_le _ _)). vm_compute. reflexivity.
  - apply (proj1 (Z.ltb_lt _ _)). vm_compute. reflexivity.
  - refine (bool_decide_eq_true_1 _ _). vm_compute. reflexivity.
  - apply not_eq_None_Some. intros H. assert (Hb : match s_heap starting !! o_undefined (s_img starting) with Some _ => true | None => false end = true) by (vm_compute; reflexivity).
    rewrite H in Hb. discriminate.
  - split; [discriminate|]. repeat constructor; discriminate.
  - apply Nat.lt_0_succ.
  - intros dump s' E. assert (Eb : dump_bytes dump = booted_dump) by (unfold booted_dump; rewrite E; reflexivity).
    rewrite Eb. split; [apply Nat.lt_succ_diag_r|]. apply disk_readable. vm_compute. reflexivity.
Defined.

(** ** Whole runs *)

(** How the process ends, and the calls that it makes. *)
Definition run (os : list syscall → sysret) (argv : list (list Z)) : option (error * list syscall) :=
  match main os 1000 2000 true (Garbage (λ _, 0) (λ _, zuo_apply_cont)) (bytes_of "/home") [] (bytes_of "zuo") argv initial_st with
  | Fail e s => Some (e, sys_calls (s_sys s))
  | _ => None
  end.

(** A machine without a [main.zuo] *)
Definition machine (h : list syscall) : sysret :=
  match reverse h with
  | Sreadlink _ _ :: _ => Sret 12 (bytes_of "/usr/bin/zuo")
  | Sstat _ :: _ => Serrno ENOENT
  | _ => Sret 0 []
  end.

Definition self : syscall := Sreadlink (bytes_of "/proc/self/exe") 255.

(** A module whose submodule [main] is called *)
Definition touch_module : list Z :=
  bytes_of "#lang zuo/kernel (hash 'submodules (hash 'main (lambda () (fd-close (fd-open-output " ++ text "a.txt" ++ bytes_of ")))))".

Example run_main_submodule :
  run machine [bytes_of "-c"; touch_module]
  = Some (Eexit 0, [Ssigaction 2 true; self; Sopen (bytes_of "a.txt") [O_WRONLY; O_CREAT; O_EXCL] (Some 438); Sclose 0; Sblock; Sunblock]).
Proof. vm_compute. reflexivity. Qed.

Example run_missing :
  run machine [] = Some (Efail (bytes_of "zuo: no file specified, and no " ++ quoted "main.zuo" ++ bytes_of " found"),
    [Ssigaction 2 true; self; Sstat (bytes_of "main.zuo")]).
Proof. vm_compute. reflexivity. Qed.
