(* ===== verification/ModuleSpec.v ===== *)
(** * Declared and pending modules

    [module->hash] finds a module that is declared, reports a cycle for one
    whose declaration is under way, and otherwise starts to read it, as the
    innermost of those under way; [zuo_register_module] ends its declaration,
    and it is found from then on. *)

From S2P Require Import Prelude Sys Heap Alloc Gc GcCorrect Objects Trie Lists ImageOk Intern Prims Interp Path Module Init Fasl Boot HashSpec ListSpec PathBytes PathSpec FdSpec Keeps.

(** What [zuo_module_path_equal] compares: symbols themselves, and the bytes of
    strings. *)
Inductive module_key := Ksym (l : loc) | Kstr (b : list Z).

#[export] Instance module_key_eq_dec : EqDecision module_key.
Proof. solve_decision. Defined.

Definition key_of (s : st) (l : loc) : option module_key :=
  match s_heap s !! l with
  | Some (Osymbol _ _) => Some (Ksym l)
  | Some (Ostring b) => Some (Kstr b)
  | _ => None
  end.

Lemma key_of_weaken s s' l k : s_heap s ⊆ s_heap s' → key_of s l = Some k → key_of s' l = Some k.
Proof.
  unfold key_of. intros Hs. destruct (s_heap s !! l) as [o|] eqn:E; [|done]. by rewrite (lookup_weaken _ _ _ _ E Hs).
Qed.

(** The list of the declared modules, and that of the pending module paths *)
Definition registry (s : st) (l : loc) (ms : list (module_key * loc)) : Prop :=
  ∃ es, is_list (s_heap s) (o_null (s_img s)) l es
    ∧ Forall2 (λ e m, ∃ p, s_heap s !! e = Some (Opair p (snd m)) ∧ key_of s p = Some (fst m)) es ms.

Definition pending_at (s : st) (l : loc) (ps : list loc) : Prop :=
  is_list (s_heap s) (o_null (s_img s)) l ps ∧ Forall (λ p, is_Some (key_of s p)) ps.

Fixpoint assoc (k : module_key) (ms : list (module_key * loc)) : option loc :=
  match ms with
  | [] => None
  | (k', m) :: ms' => if decide (k = k') then Some m else assoc k ms'
  end.

Lemma assoc_head k m ms : assoc k ((k, m) :: ms) = Some m.
Proof. cbn [assoc]. by rewrite decide_True. Qed.
Lemma assoc_skip k k' m ms : k ≠ k' → assoc k ((k', m) :: ms) = assoc k ms.
Proof. intros H. cbn [assoc]. by rewrite decide_False. Qed.

Lemma module_path_equal_ok s a b ka kb :
  image_ok s → key_of s a = Some ka → key_of s b = Some kb →
  zuo_module_path_equal a b s = Ok (bool_decide (ka = kb)) s.
Proof.
  intros Him Ha Hb. unfold key_of in Ha, Hb. unfold zuo_module_path_equal.
  destruct (s_heap s !! a) as [oa|] eqn:Ea; [|done]. destruct (s_heap s !! b) as [ob|] eqn:Eb; [|done].
  run_step (has_tag_ok s a _ zuo_symbol_tag Ea).
  destruct oa as [| | |ba|ia sa| | | | | | | |]; try done; injection Ha as <-; cbn [obj_tag].
  - rewrite bool_decide_false by done. cbn iota. run_step (has_tag_ok s b _ zuo_symbol_tag Eb).
    destruct ob as [| | |bb|ib sb| | | | | | | |]; try done; injection Hb as <-; cbn [obj_tag].
    + rewrite bool_decide_false by done. cbn iota.
      assert (E : zuo_string_eql a b s = zbool (bool_decide (ba = bb)) s).
      { unfold zuo_string_eql. run_step (check_string_ok (bytes_of "string=?") a s _ Ea). run_step (check_string_ok (bytes_of "string=?") b s _ Eb).
        run_step (ZUO_STRING_PTR_ok _ _ _ Ea). run_step (ZUO_STRING_PTR_ok _ _ _ Eb). done. }
      unfold bind at 1. rewrite E. unfold zbool, zi. destruct (decide (ba = bb)) as [->|Hne].
      * rewrite !bool_decide_true by done. by apply is_zi_eq.
      * rewrite (bool_decide_false (ba = bb)), (bool_decide_false (Kstr ba = Kstr bb)) by congruence.
        apply is_zi_ne. image_neq Him.
    + by rewrite bool_decide_true, bool_decide_false by done.
  - rewrite bool_decide_true by done. cbn iota. unfold ret. f_equal.
    destruct ob as [| | |bb|ib sb| | | | | | | |]; try done; injection Hb as <-; apply bool_decide_ext; split; congruence.
Qed.

Lemma find_module_ok s path k es ms n l :
  image_ok s → key_of s path = Some k → is_list (s_heap s) (o_null (s_img s)) l es →
  Forall2 (λ e m, ∃ p, s_heap s !! e = Some (Opair p (snd m)) ∧ key_of s p = Some (fst m)) es ms →
  (length es < n)%nat → find_module n path l s = Ok (assoc k ms) s.
Proof.
  intros Him Hk Hl HF. revert l n Hl. induction HF as [|e m es ms (p & He & Hp) HF IH]; intros l n Hl Hn;
    destruct n as [|n]; try (cbn in Hn; lia); cbn [find_module is_list] in *.
  - by run_step (is_zi_eq o_null l s Hl).
  - destruct Hl as (d & Hne & Hld & Hd). run_step (is_zi_ne o_null l s Hne). run_step (ZUO_CAR_ok _ _ _ _ Hld).
    run_step (ZUO_CAR_ok _ _ _ _ He). run_step (module_path_equal_ok s path p k (fst m) Him Hk Hp).
    destruct m as [k' m]. cbn [assoc fst snd] in *. destruct (decide (k = k')) as [->|Hkk].
    + rewrite bool_decide_true by done. cbn iota. by run_step (ZUO_CDR_ok _ _ _ _ He).
    + rewrite bool_decide_false by done. cbn iota. run_step (ZUO_CDR_ok _ _ _ _ Hld). apply IH; [done|cbn in Hn; lia].
Qed.

Lemma is_pending_ok s path k ps n l :
  image_ok s → key_of s path = Some k → is_list (s_heap s) (o_null (s_img s)) l ps → Forall (λ p, is_Some (key_of s p)) ps →
  (length ps < n)%nat → is_pending n path l s = Ok (bool_decide (Some k ∈ key_of s <$> ps)) s.
Proof.
  intros Him Hk Hl HF. revert l n Hl. induction HF as [|p ps [kp Hp] HF IH]; intros l n Hl Hn;
    destruct n as [|n]; try (cbn in Hn; lia); cbn [is_pending is_list fmap list_fmap] in *.
  - run_step (is_zi_eq o_null l s Hl). unfold ret. by rewrite bool_decide_false by apply not_elem_of_nil.
  - destruct Hl as (d & Hne & Hld & Hd). run_step (is_zi_ne o_null l s Hne). run_step (ZUO_CAR_ok _ _ _ _ Hld).
    run_step (module_path_equal_ok s path p k kp Him Hk Hp). destruct (decide (k = kp)) as [->|Hkk].
    + rewrite !bool_decide_true; [done| |done]. rewrite Hp. by left.
    + rewrite (bool_decide_false (k = kp)) by done. cbn iota. run_step (ZUO_CDR_ok _ _ _ _ Hld).
      rewrite (IH d n Hd) by (cbn in Hn; lia). f_equal. apply bool_decide_ext. rewrite elem_of_cons. split; [auto|].
      intros [E|H]; [congruence|done].
Qed.

(** ** Module paths *)

(** What [zuo_is_module_path] accepts: a symbol with a well-formed spelling, or
    a path string. *)
Definition module_spelling (b : list Z) : bool :=
  match b with
  | [] => true
  | _ :: _ => match module_path_scan (Z.of_nat (length b)) 0 0 b with Some _ => true | None => false end
  end.

Definition module_pathb (s : st) (l : loc) : bool :=
  match s_heap s !! l with
  | Some (Osymbol _ str) => match s_heap s !! str with Some (Ostring b) => module_spelling b | _ => false end
  | _ => match path_arg s l with Some _ => true | None => false end
  end.

(** An object; a symbol is spelled by a string. *)
Definition spelled (s : st) (l : loc) : Prop :=
  match s_heap s !! l with
  | Some (Osymbol _ str) => ∃ b, string_at s str b
  | Some _ => True
  | None => False
  end.

Definition not_module_path (l : loc) : error := Efail1w (bytes_of "module->hash") (bytes_of "not a module path") l.

Lemma check_module_path_ok s l :
  spelled s l →
  check_module_path (bytes_of "module->hash") l s = if module_pathb s l then Ok tt s else Fail (not_module_path l) s.
Proof.
  unfold spelled, module_pathb. destruct (s_heap s !! l) as [o|] eqn:E; [|done]. intros Hs.
  assert (Ho : is_Some (s_heap s !! l)) by eauto.
  unfold check_module_path, zuo_is_module_path. rewrite bind_assoc. run_step (get_ok _ _ _ E).
  destruct o as [| | |b|i str| | | | | | | |]; try (rewrite bind_assoc;
    destruct (path_arg s l) as [b'|] eqn:Eb;
    [destruct (path_arg_string _ _ _ Eb) as [Hst Hb]; run_step (is_path_string_ok s l b' Hst); by rewrite bool_decide_true by done
    |by run_step (is_not_path_ok s l Ho Eb)]).
  destruct Hs as [b Hb]. rewrite bind_assoc. run_step (ZUO_STRING_PTR_ok _ _ _ Hb). unfold string_at in Hb. rewrite Hb.
  unfold module_spelling. destruct b as [|c b]; [done|]. cbn beta iota.
  by destruct (module_path_scan (Z.of_nat (length (c :: b))) 0 0 (c :: b)).
Qed.

Lemma module_pathb_key s l : module_pathb s l = true → is_Some (key_of s l).
Proof. unfold module_pathb, key_of, path_arg. destruct (s_heap s !! l) as [[]|]; try done; eauto. Qed.

(** ** Reading a module *)

Section declare.
Variable read_file : loc → M loc.
Variable fuel : nat.

Lemma module_star_ok s path ms ps :
  image_ok s → spelled s path → registry s (o_modules (s_img s)) ms → pending_at s (o_pending_modules (s_rt s)) ps →
  zuo_module_to_hash_star read_file fuel path s =
    match (if module_pathb s path then key_of s path else None) with
    | None => Fail (not_module_path path) s
    | Some k =>
        match assoc k ms with
        | Some m => Ok m s
        | None =>
            if decide (Some k ∈ key_of s <$> ps) then Fail (Efail1w [] (bytes_of "cycle in module loading") path) s
            else (p <- zuo_cons path (o_pending_modules (s_rt s)) ;; set_zr set_o_pending_modules p ;;; read_module read_file fuel path) s
        end
    end.
Proof.
  intros Him Hsp (es & Hl & HF) [Hpl Hps]. unfold zuo_module_to_hash_star.
  pose proof (check_module_path_ok s path Hsp) as Ec. destruct (module_pathb s path) eqn:Em; [|by rewrite (bind_fail _ _ _ _ _ Ec)].
  run_step Ec. destruct (module_pathb_key s path Em) as [k Hk]. rewrite Hk.
  run_step (eq_refl : get_st s = Ok s s). run_step (eq_refl : zi o_modules s = Ok _ s).
  run_step (find_module_ok s path k es ms _ _ Him Hk Hl HF (is_list_heap_fuel _ _ _ _ Hl)).
  destruct (assoc k ms) as [m|]; [done|]. run_step (eq_refl : zr o_pending_modules s = Ok _ s).
  run_step (is_pending_ok s path k ps _ _ Him Hk Hpl Hps (is_list_heap_fuel _ _ _ _ Hpl)).
  case_decide as Hc; [by rewrite bool_decide_true|by rewrite bool_decide_false].
Qed.
End declare.

Lemma registry_weaken s s' l ms :
  s_heap s ⊆ s_heap s' → o_null (s_img s') = o_null (s_img s) → registry s l ms → registry s' l ms.
Proof.
  intros Hh Hn (es & Hl & HF). exists es. rewrite Hn. split; [by eapply is_list_weaken|].
  eapply Forall2_impl; [exact HF|]. intros e m (p & He & Hp). exists p.
  split; [by eapply lookup_weaken|by eapply key_of_weaken].
Qed.

Lemma pending_weaken s s' l ps :
  s_heap s ⊆ s_heap s' → o_null (s_img s') = o_null (s_img s) → pending_at s l ps → pending_at s' l ps.
Proof.
  intros Hh Hn [Hl HF]. split; [rewrite Hn; by eapply is_list_weaken|].
  eapply Forall_impl; [exact HF|]. intros p [k Hk]. exists k. by eapply key_of_weaken.
Qed.

Lemma spelled_weaken s s' l : s_heap s ⊆ s_heap s' → spelled s l → spelled s' l.
Proof.
  unfold spelled. intros Hh. destruct (s_heap s !! l) as [o|] eqn:E; [|done]. rewrite (lookup_weaken _ _ _ _ E Hh).
  destruct o; try done. intros [b Hb]. exists b. by eapply lookup_weaken.
Qed.

Lemma module_pathb_weaken s s' l : s_heap s ⊆ s_heap s' → module_pathb s l = true → module_pathb s' l = true.
Proof.
  unfold module_pathb, path_arg. intros Hh. destruct (s_heap s !! l) as [o|] eqn:E; [|done]. rewrite (lookup_weaken _ _ _ _ E Hh).
  destruct o as [| | | |i str| | | | | | | |]; try done. destruct (s_heap s !! str) as [o|] eqn:Es; [|done]. by rewrite (lookup_weaken _ _ _ _ Es Hh).
Qed.

(** [s] with another list of pending modules *)
Definition with_pending (p : loc) (s : st) : st := set_s_rt (set_o_pending_modules p (s_rt s)) s.
Definition with_modules (l : loc) (s : st) : st := set_s_img (set_o_modules l (s_img s)) s.

Lemma with_pending_pending p s : o_pending_modules (s_rt (with_pending p s)) = p.
Proof. unfold with_pending. rewrite rt_set_runtime. by destruct (s_rt s). Qed.
Lemma with_pending_heap p s : s_heap (with_pending p s) = s_heap s.
Proof. apply s_heap_set_rt. Qed.
Lemma with_pending_img p s : s_img (with_pending p s) = s_img s.
Proof. apply img_set_runtime. Qed.
Lemma with_pending_ok p s : image_ok s → image_ok (with_pending p s).
Proof. destruct s. intros []. by split. Qed.

Lemma with_modules_heap l s : s_heap (with_modules l s) = s_heap s.
Proof. by destruct s. Qed.
Lemma with_modules_img l s : s_img (with_modules l s) = set_o_modules l (s_img s).
Proof. by destruct s. Qed.
Lemma with_modules_rt l s : s_rt (with_modules l s) = s_rt s.
Proof. by destruct s. Qed.
Lemma with_modules_modules l s : o_modules (s_img (with_modules l s)) = l.
Proof. rewrite with_modules_img. by destruct (s_img s). Qed.
Lemma with_modules_null l s : o_null (s_img (with_modules l s)) = o_null (s_img s).
Proof. rewrite with_modules_img. by destruct (s_img s). Qed.
Lemma with_modules_ok l s : image_ok s → image_ok (with_modules l s).
Proof. destruct s as [m z r c n y], z. intros []. by split. Qed.

(** The declared modules are [ms], and the paths of [ps] are under way, the
    innermost first. *)
Definition declares (s : st) (ms : list (module_key * loc)) (ps : list loc) : Prop :=
  image_ok s ∧ registry s (o_modules (s_img s)) ms ∧ pending_at s (o_pending_modules (s_rt s)) ps.

Lemma push_pending_ok s path k ms ps :
  declares s ms ps → key_of s path = Some k →
  ∃ p s1, zuo_cons path (o_pending_modules (s_rt s)) s = Ok p s1 ∧ grew s s1
    ∧ declares (with_pending p s1) ms (path :: ps) ∧ s_heap s ⊆ s_heap (with_pending p s1).
Proof.
  intros (Him & Hms & Hps) Hk.
  destruct (zuo_cons_grows _ s path (o_pending_modules (s_rt s)) (image_list_pre s Him)) as (p & s1 & E & _ & Hne & G).
  exists p, s1. split; [done|]. split; [by eexists|]. set (s' := with_pending p s1).
  assert (Hh : s_heap s ⊆ s_heap s') by (unfold s'; rewrite with_pending_heap; exact (grows_subseteq _ _ _ G)).
  assert (Himg : s_img s' = s_img s) by (unfold s'; rewrite with_pending_img; exact (gr_img _ _ _ G)).
  split; [|exact Hh]. split; [exact (with_pending_ok _ _ (image_ok_grows _ _ _ Him G))|].
  split; [rewrite Himg; apply (registry_weaken s); [done|by rewrite Himg|done]|].
  destruct (pending_weaken s s' _ _ Hh (f_equal o_null Himg) Hps) as [Hl HF].
  replace (o_pending_modules (s_rt s')) with p by (symmetry; apply with_pending_pending). split.
  - rewrite Himg in Hl |- *. cbn [is_list]. exists (o_pending_modules (s_rt s)). split; [exact Hne|].
    split; [|exact Hl]. unfold s'. rewrite with_pending_heap. exact (grows_new _ _ _ _ G).
  - constructor; [|done]. exists k. by eapply key_of_weaken.
Qed.

(** C14. [module->hash*] for a path, in a state whose declared modules are [ms]
    and whose declarations under way are those of [ps], the innermost first:
    what is not a module path is refused; the table of a module that is
    declared is returned, and the state is unchanged; a path that is under way
    is reported as a cycle; and otherwise the path becomes the innermost one
    under way and the module is read, with the declared modules as they were,
    and asking for it again from there is a cycle. *)
Theorem module_to_hash_star_outcomes read_file fuel s path ms ps :
  declares s ms ps → spelled s path →
  match (if module_pathb s path then key_of s path else None) with
  | None => zuo_module_to_hash_star read_file fuel path s = Fail (not_module_path path) s
  | Some k =>
      match assoc k ms with
      | Some m => zuo_module_to_hash_star read_file fuel path s = Ok m s
      | None =>
          if decide (Some k ∈ key_of s <$> ps)
          then zuo_module_to_hash_star read_file fuel path s = Fail (Efail1w [] (bytes_of "cycle in module loading") path) s
          else ∃ p s1, let s' := with_pending p s1 in
            grew s s1 ∧ zuo_module_to_hash_star read_file fuel path s = read_module read_file fuel path s'
            ∧ declares s' ms (path :: ps)
            ∧ zuo_module_to_hash_star read_file fuel path s' = Fail (Efail1w [] (bytes_of "cycle in module loading") path) s'
      end
  end.
Proof.
  intros Hd Hsp. destruct Hd as (Him & Hms & Hps) eqn:Hd'. pose proof (module_star_ok read_file fuel s path ms ps Him Hsp Hms Hps) as E.
  destruct (module_pathb s path) eqn:Em; [|exact E]. destruct (key_of s path) as [k|] eqn:Hk; [|exact E].
  destruct (assoc k ms) as [m|] eqn:Ea; [exact E|]. case_decide as Hc; [exact E|].
  destruct (push_pending_ok s path k ms ps Hd Hk) as (p & s1 & Ep & G & Hdec & Hh). exists p, s1. intros s'. fold s' in Hdec, Hh.
  split; [done|]. split; [rewrite E; by run_step Ep|]. split; [done|]. destruct Hdec as (Him' & Hms' & Hps').
  rewrite (module_star_ok read_file fuel s' path ms (path :: ps) Him' (spelled_weaken _ _ _ Hh Hsp) Hms' Hps').
  rewrite (module_pathb_weaken _ _ _ Hh Em), (key_of_weaken _ _ _ _ Hh Hk), Ea. rewrite decide_True; [done|].
  rewrite fmap_cons, (key_of_weaken _ _ _ _ Hh Hk). by left.
Qed.

Lemma register_ok s path k md ms d :
  image_ok s → key_of s path = Some k → registry s (o_modules (s_img s)) ms →
  s_heap s !! o_pending_modules (s_rt s) = Some (Opair path d) →
  ∃ s', (entry <- zuo_cons path md ;; modules <- zi o_modules ;; modules <- zuo_cons entry modules ;;
         set_zi set_o_modules modules ;;; rest <- ZUO_CDR (o_pending_modules (s_rt s)) ;;
         set_zr set_o_pending_modules rest ;;; ret md) s = Ok md s'
    ∧ s_heap s ⊆ s_heap s' ∧ o_null (s_img s') = o_null (s_img s) ∧ image_ok s'
    ∧ registry s' (o_modules (s_img s')) ((k, md) :: ms) ∧ o_pending_modules (s_rt s') = d.
Proof.
  intros Him Hk Hms Hcell.
  destruct (zuo_cons_grows _ s path md (image_list_pre s Him)) as (e & s1 & E1 & _ & _ & G1). run_step E1.
  pose proof (image_ok_grows _ _ _ Him G1) as Him1. run_step (eq_refl : zi o_modules s1 = Ok _ s1).
  destruct (zuo_cons_grows _ s1 e (o_modules (s_img s1)) (image_list_pre s1 Him1)) as (l & s2 & E2 & _ & Hl & G2). run_step E2.
  pose proof (image_ok_grows _ _ _ Him1 G2) as Him2.
  set (s3 := with_modules l s2). run_step (eq_refl : set_zi set_o_modules l s2 = Ok tt s3).
  assert (Hi : s_img s2 = s_img s) by (by rewrite (gr_img _ _ _ G2), (gr_img _ _ _ G1)).
  assert (Hh : s_heap s ⊆ s_heap s3) by (unfold s3; rewrite with_modules_heap; exact (transitivity (grows_subseteq _ _ _ G1) (grows_subseteq _ _ _ G2))).
  run_step (ZUO_CDR_ok _ _ _ _ (lookup_weaken _ _ _ _ Hcell Hh)). exists (with_pending d s3). split; [done|].
  rewrite with_pending_heap. split; [exact Hh|].
  assert (Hn : o_null (s_img (with_pending d s3)) = o_null (s_img s)) by (unfold s3; by rewrite with_pending_img, with_modules_null, Hi).
  split; [exact Hn|]. split; [by apply with_pending_ok, with_modules_ok|]. split; [|apply with_pending_pending].
  set (s4 := with_pending d s3) in *. assert (Hh4 : s_heap s4 = s_heap s2) by (unfold s4, s3; by rewrite with_pending_heap, with_modules_heap).
  assert (Hm : o_modules (s_img s4) = l) by (unfold s4, s3; by rewrite with_pending_img, with_modules_modules).
  assert (Hh' : s_heap s ⊆ s_heap s4) by (rewrite Hh4; exact (transitivity (grows_subseteq _ _ _ G1) (grows_subseteq _ _ _ G2))).
  destruct (registry_weaken s s4 _ _ Hh' Hn Hms) as (es & Hes & HF). exists (e :: es). rewrite Hm. split.
  - cbn [is_list]. exists (o_modules (s_img s)). rewrite Hn, Hh4, <- (gr_img _ _ _ G1). split; [done|].
    split; [exact (grows_new _ _ _ _ G2)|]. rewrite (gr_img _ _ _ G1), <- Hn, <- Hh4. exact Hes.
  - constructor; [|exact HF]. exists path. rewrite Hh4. split; [exact (grows_lookup _ _ _ _ _ G2 (grows_new _ _ _ _ G1))|].
    by apply (key_of_weaken s).
Qed.

(** C32. Registering a module that was declared, when the declared modules are
    [ms] and those of [ps] are under way: what is not a hash table is refused,
    and so is a path that is not the innermost one under way; otherwise the
    module is added, its path is not under way any more, the declarations
    around it still are, nothing else that is allocated changes, and
    [module->hash*] returns the module from then on, without reading, for this
    path and for every equal one. *)
Theorem register_module_correct s path k md o ms ps :
  declares s ms ps → key_of s path = Some k → s_heap s !! md = Some o →
  if negb (bool_decide (obj_tag o = zuo_trie_node_tag))
  then zuo_register_module path md s = Fail (Efail1w [] (bytes_of "module did not produce a hash table") path) s
  else if decide (head ps = Some path)
  then ∃ s', zuo_register_module path md s = Ok md s' ∧ s_heap s ⊆ s_heap s'
    ∧ declares s' ((k, md) :: ms) (tail ps)
    ∧ ∀ read_file fuel path', key_of s' path' = Some k → spelled s' path' → module_pathb s' path' = true →
        zuo_module_to_hash_star read_file fuel path' s' = Ok md s'
  else zuo_register_module path md s = Fail (Efail1w [] (bytes_of "attempting to register unexpected module") path) s.
Proof.
  intros (Him & Hms & Hps) Hk Hmd. unfold zuo_register_module. run_step (has_tag_ok s md _ zuo_trie_node_tag Hmd).
  case_bool_decide as Ht; cbn [negb]; [|done]. run_step (eq_refl : zr o_pending_modules s = Ok _ s).
  destruct Hps as [Hpl Hpk]. destruct ps as [|p ps]; cbn [is_list head tail] in *.
  { run_step (is_zi_eq o_null _ s Hpl). by run_step (eq_refl : (ret false : M bool) s = Ok false s). }
  destruct Hpl as (d & Hne & Hcell & Hd). run_step (is_zi_ne o_null _ s Hne).
  assert (Ee : (p <- ZUO_CAR (o_pending_modules (s_rt s)) ;; ret (bool_decide (path = p))) s = Ok (bool_decide (path = p)) s)
    by (by run_step (ZUO_CAR_ok _ _ _ _ Hcell)).
  run_step Ee. destruct (decide (Some p = Some path)) as [Hp|Hp];
    [|by rewrite bool_decide_false by congruence]. injection Hp as ->. rewrite bool_decide_true by done. cbn [negb].
  destruct (register_ok s path k md ms d Him Hk Hms) as (s' & E & Hh & Hn & Him' & Hms' & Hrt); [done|].
  exists s'. split; [exact E|]. split; [exact Hh|].
  assert (Hps' : pending_at s' (o_pending_modules (s_rt s')) ps).
  { rewrite Hrt. apply (pending_weaken s); [done|done|]. split; [done|]. by inversion Hpk. }
  split; [done|]. intros rf fuel path' Hk' Hs' Hm'.
  rewrite (module_star_ok rf fuel s' path' _ ps Him' Hs' Hms' Hps'), Hm', Hk'. cbn [assoc]. by rewrite decide_True.
Qed.

(** ** Witnesses, at the booted state, where the kernel is declared *)

Definition cell_of (l : loc) : loc * loc := match s_heap booted !! l with Some (Opair a d) => (a, d) | _ => (0, 0) end.
Definition kernel_entry : loc := (cell_of (o_modules (s_img booted))).1.
Definition kernel_path : loc := (cell_of kernel_entry).1.
Definition kernel_module : loc := (cell_of kernel_entry).2.
(** the string [quote] *)
Definition file_path : loc := match s_heap booted !! o_quote_symbol (s_img booted) with Some (Osymbol _ l) => l | _ => 0 end.

Lemma booted_registry : registry booted (o_modules (s_img booted)) [(Ksym kernel_path, kernel_module)].
Proof.
  exists [kernel_entry]. split.
  - exists (o_null (s_img booted)). split; [apply (bool_decide_eq_false_1 _); vm_compute; reflexivity|].
    split; [vm_compute; reflexivity|reflexivity].
  - constructor; [|constructor]. exists kernel_path. split; vm_compute; reflexivity.
Qed.

Lemma booted_declares : declares booted [(Ksym kernel_path, kernel_module)] [].
Proof. split; [exact booted_image|]. split; [exact booted_registry|]. split; [vm_compute; reflexivity|constructor]. Qed.

Definition spelledb (s : st) (l : loc) : bool :=
  match s_heap s !! l with
  | Some (Osymbol _ str) => match s_heap s !! str with Some (Ostring _) => true | _ => false end
  | Some _ => true
  | None => false
  end.

Lemma spelledb_ok s l : spelledb s l = true → spelled s l.
Proof.
  unfold spelledb, spelled, string_at. destruct (s_heap s !! l) as [[]|]; try done.
  destruct (s_heap s !! str) as [[]|]; try done. eauto.
Qed.

Lemma trie_tag h l : obj_is h is_trie l = true → ∃ o, h !! l = Some o ∧ bool_decide (obj_tag o = zuo_trie_node_tag) = true.
Proof. unfold obj_is. destruct (h !! l) as [[]|]; try done. intros _. eexists. split; [done|]. by apply bool_decide_eq_true. Qed.

Lemma file_path_facts : key_of booted file_path = Some (Kstr (bytes_of "quote")) ∧ module_pathb booted file_path = true ∧ spelled booted file_path.
Proof. split; [vm_compute; reflexivity|]. split; [vm_compute; reflexivity|]. apply spelledb_ok. vm_compute. reflexivity. Qed.

Lemma kernel_path_facts : key_of booted kernel_path = Some (Ksym kernel_path) ∧ module_pathb booted kernel_path = true ∧ spelled booted kernel_path.
Proof.
  split; [vm_compute; reflexivity|]. split; [vm_compute; reflexivity|].
  apply spelledb_ok. vm_compute. reflexivity.
Qed.

Lemma not_under_way k s : Some k ∉ key_of s <$> ([] : list loc).
Proof. apply not_elem_of_nil. Qed.

Lemma if_negb_true (P Q : Prop) : (if negb true then P else Q) = Q.
Proof. done. Qed.
Lemma head_cons (l : loc) ls : head (l :: ls) = Some l.
Proof. done. Qed.

Lemma file_not_kernel : Kstr (bytes_of "quote") ≠ Ksym kernel_path.
Proof. intros E. discriminate E. Qed.

(** The kernel is found; a file is not known, and is under way when it has
    started. *)
Lemma module_to_hash_star_outcomes_witness :
  zuo_module_to_hash_star (λ l, ret l) 5 kernel_path booted = Ok kernel_module booted
  ∧ ∃ p s1, let s' := with_pending p s1 in
      grew booted s1 ∧ zuo_module_to_hash_star (λ l, ret l) 5 file_path s' = Fail (Efail1w [] (bytes_of "cycle in module loading") file_path) s'.
Proof.
  split.
  - destruct kernel_path_facts as (Hk & Hm & Hs).
    pose proof (module_to_hash_star_outcomes (λ l, ret l) 5 booted kernel_path _ _ booted_declares Hs) as H.
    rewrite Hm, Hk in H. cbn iota in H. rewrite assoc_head in H. exact H.
  - destruct file_path_facts as (Hk & Hm & Hs).
    pose proof (module_to_hash_star_outcomes (λ l, ret l) 5 booted file_path _ _ booted_declares Hs) as H.
    rewrite Hm, Hk in H. cbn iota in H. rewrite (assoc_skip _ _ _ _ file_not_kernel) in H. cbn iota in H.
    rewrite (decide_False _ _ (not_under_way _ _)) in H.
    destruct H as (p & s1 & G & _ & _ & E). exists p, s1. exact (conj G E).
Defined.

(** The file is under way, gives an empty table, and is found from then on. *)
Lemma register_module_correct_witness :
  ∃ s s', zuo_register_module file_path (o_empty_hash (s_img booted)) s = Ok (o_empty_hash (s_img booted)) s'
    ∧ zuo_module_to_hash_star (λ l, ret l) 5 file_path s' = Ok (o_empty_hash (s_img booted)) s'.
Proof.
  destruct file_path_facts as (Hk & Hm & Hs).
  destruct (push_pending_ok booted file_path _ _ _ booted_declares Hk) as (p & s1 & _ & G & Hd & Hh).
  set (s := with_pending p s1) in *. destruct (trie_tag _ _ (im_hash _ booted_image)) as (o & Ho & Ht).
  pose proof (register_module_correct s file_path _ (o_empty_hash (s_img booted)) o _ _ Hd (key_of_weaken _ _ _ _ Hh Hk)
    (lookup_weaken _ _ _ _ Ho Hh)) as H.
  rewrite Ht, if_negb_true, (decide_True _ _ (head_cons file_path [])) in H. destruct H as (s' & E & Hh' & _ & H).
  exists s, s'. split; [exact E|].
  exact (H _ _ _ (key_of_weaken _ _ _ _ (transitivity Hh Hh') Hk) (spelled_weaken _ _ _ (transitivity Hh Hh') Hs)
    (module_pathb_weaken _ _ _ (transitivity Hh Hh') Hm)).
Defined.
