(* ===== verification/RktioHash.v ===== *)
(** * Hash tables of the I/O library

    [rktio_hash.c]: tables from non-negative integers to pointers that are not
    null, with open addressing, double hashing and vacated slots.  A value is
    an element of a type [V]; the memory manager of the C library always has
    memory. *)

From S2P Require Import Prelude.

(** [v] is [None] for the null pointer; an empty bucket has the key 0, and one
    whose content was removed has -1. *)
Record bucket_t (V : Type) := Bucket { key : Z; v : option V }.
Arguments Bucket {V} _ _.
Arguments key {V} _.
Arguments v {V} _.

Record rktio_hash_t (V : Type) := Hash {
  buckets : option (list (bucket_t V));
  ht_size : Z;
  count : Z
}.
Arguments Hash {V} _ _ _.
Arguments buckets {V} _.
Arguments ht_size {V} _.
Arguments count {V} _.

Section hash.
Context {V : Type}.

(** The functions change one table; there are no failures. *)
Abbreviation H := (comp (rktio_hash_t V) Empty_set).

Definition rktio_hash_new : rktio_hash_t V := Hash None 0 0.

Definition rktio_hash_is_empty (ht : rktio_hash_t V) : bool := count ht =? 0.
Definition rktio_hash_size (ht : rktio_hash_t V) : Z := ht_size ht.

Definition get_ht : H (rktio_hash_t V) := λ ht, Ok ht ht.

(** [ht->buckets[i]], and an assignment to it *)
Definition bucket (i : Z) : H (bucket_t V) := λ ht,
  match buckets ht with
  | Some bs => match (if i <? 0 then None else bs !! Z.to_nat i) with Some b => Ok b ht | None => UB "outside of the buckets" end
  | None => UB "null pointer"
  end.

Definition set_bucket (i : Z) (b : bucket_t V) : H unit := λ ht,
  match buckets ht with
  | Some bs =>
      if (0 <=? i) && (i <? Z.of_nat (length bs)) then Ok tt (Hash (Some (<[Z.to_nat i := b]> bs)) (ht_size ht) (count ht))
      else UB "outside of the buckets"
  | None => UB "null pointer"
  end.

Definition set_count (n : Z) : H unit := λ ht, Ok tt (Hash (buckets ht) (ht_size ht) n).

(** a signed result of 64 bits *)
Definition signed (i : Z) : H Z := λ ht, if decide (in_s64 i) then Ok i ht else UB "signed overflow".

(** The values that are freed, the last one first: [for (i = ht->size; --i; )],
    where [n] is [i] before it is counted down *)
Fixpoint free_loop (n : nat) : H (list V) :=
  match n with
  | O => λ _, UB "outside of the buckets"
  | S O => ret []
  | S i => b <- bucket (Z.of_nat i) ;; xs <- free_loop i ;; ret (match v b with Some x => x :: xs | None => xs end)
  end.

Definition rktio_hash_free (free_values : bool) : H (list V) :=
  ht <- get_ht ;;
  match buckets ht with
  | Some _ => if free_values then free_loop (Z.to_nat (ht_size ht)) else ret []
  | None => ret []
  end.

Definition rktio_hash_get_key (i : Z) : H Z :=
  b <- bucket i ;; ret (match v b with Some _ => key b | None => -1 end).

(** The step between the slots for a key *)
Definition stride (key mask : Z) : Z := Z.lor (Z.land (Z.shiftr key 3) mask) 1.

Definition is_used (b : bucket_t V) : bool := match v b with Some _ => true | None => false end.

(** [while (1)], from the slot [hc] on *)
Fixpoint get_loop (n : nat) (k mask d init_hc hc : Z) : H (option V) :=
  match n with
  | O => λ _, Diverge
  | S n' =>
      b <- bucket hc ;;
      if key b =? k then ret (v b)
      else if is_used b || (key b =? -1) then
        s <- signed (hc + d) ;;
        let hc := Z.land s mask in
        if hc =? init_hc then ret None else get_loop n' k mask d init_hc hc
      else ret None
  end.

Definition rktio_hash_get (k : Z) : H (option V) :=
  ht <- get_ht ;;
  match buckets ht with
  | Some bs =>
      let mask := ht_size ht - 1 in
      let hc := Z.land k mask in
      get_loop (length bs) k mask (stride k mask) hc hc
  | None => ret None
  end.

(** The slot to use for a key and a value that were not there, or [None] when
    the value of the key was replaced *)
Fixpoint set_loop (n : nat) (k : Z) (x : V) (mask d init_hc hc use_hc : Z) : H (option Z) :=
  match n with
  | O => λ _, Diverge
  | S n' =>
      b <- bucket hc ;;
      if is_used b then
        if key b =? k then set_bucket hc (Bucket k (Some x)) ;;; ret None
        else
          let use_hc := if key b =? -1 then (if use_hc <? 0 then hc else use_hc) else use_hc in
          s <- signed (hc + d) ;;
          let hc := Z.land s mask in
          if hc =? init_hc then ret (Some use_hc) else set_loop n' k x mask d init_hc hc use_hc
      else ret (Some (if use_hc <? 0 then hc else use_hc))
  end.

(** [rktio_hash_set] and [do_rehash] call each other: [fuel] bounds the depth.
    In the rehash, [set] is [rktio_hash_set], and [n] counts [i] down. *)
Fixpoint rehash_loop (set : Z → V → H unit) (old_buckets : list (bucket_t V)) (n : nat) : H unit :=
  match n with
  | O => ret tt
  | S i =>
      match old_buckets !! i with
      | Some b => match v b with Some x => set (key b) x | None => ret tt end
      | None => λ _, UB "outside of the buckets"
      end ;;;
      rehash_loop set old_buckets i
  end.

Definition do_rehash_with (set : Z → V → H unit) (new_size : Z) : H unit :=
  if 16 <=? new_size then
    ht <- get_ht ;;
    (λ _, Ok tt (Hash (Some (replicate (Z.to_nat new_size) (Bucket 0 None))) new_size 0)) ;;;
    rehash_loop set (default [] (buckets ht)) (Z.to_nat (ht_size ht))
  else ret tt.

Definition make_buckets : H unit := λ ht,
  match buckets ht with
  | Some _ => Ok tt ht
  | None => Ok tt (Hash (Some (replicate 16 (Bucket 0 None))) 16 (count ht))
  end.

Fixpoint rktio_hash_set (fuel : nat) (k : Z) (x : V) : H unit :=
  match fuel with
  | O => λ _, Diverge
  | S fuel' =>
      make_buckets ;;;
      ht <- get_ht ;;
      let mask := ht_size ht - 1 in
      let hc := Z.land k mask in
      r <- set_loop (length (default [] (buckets ht))) k x mask (stride k mask) hc hc (-1) ;;
      match r with
      | None => ret tt
      | Some use_hc =>
          set_bucket use_hc (Bucket k (Some x)) ;;;
          c <- signed (count ht + 1) ;;
          set_count c ;;;
          c2 <- signed (2 * c) ;;
          if ht_size ht <=? c2
          then new_size <- signed (Z.shiftl (ht_size ht) 1) ;; do_rehash_with (rktio_hash_set fuel') new_size
          else ret tt
      end
  end.

Definition do_rehash (fuel : nat) (new_size : Z) : H unit := do_rehash_with (rktio_hash_set fuel) new_size.

Fixpoint remove_loop (n : nat) (k mask d init_hc hc : Z) : H (option Z) :=
  match n with
  | O => λ _, Diverge
  | S n' =>
      b <- bucket hc ;;
      if key b =? k then ret (Some hc)
      else if is_used b || (key b =? -1) then
        s <- signed (hc + d) ;;
        let hc := Z.land s mask in
        if hc =? init_hc then ret None else remove_loop n' k mask d init_hc hc
      else ret None
  end.

Definition rktio_hash_remove (fuel : nat) (k : Z) (dont_rehash : bool) : H unit :=
  ht <- get_ht ;;
  match buckets ht with
  | Some bs =>
      let mask := ht_size ht - 1 in
      let hc := Z.land k mask in
      r <- remove_loop (length bs) k mask (stride k mask) hc hc ;;
      match r with
      | Some hc =>
          set_bucket hc (Bucket (-1) None) ;;;
          c <- signed (count ht - 1) ;;
          set_count c ;;;
          if dont_rehash then ret tt
          else
            c4 <- signed (4 * c) ;;
            if c4 <=? ht_size ht then do_rehash fuel (Z.shiftr (ht_size ht) 1) else ret tt
      | None => ret tt
      end
  | None => ret tt
  end.
End hash.

(** [while (1)] over the bytes of a string, in 64 bits *)
Fixpoint hash_string_loop (s : list Z) (k : Z) : Z :=
  match s with
  | [] => k
  | c :: s' =>
      let k := to_u64 (k + c) in
      let k := to_u64 (k + to_u64 (Z.shiftl k 10)) in
      let k := Z.lxor k (Z.shiftr k 6) in
      hash_string_loop s' k
  end.

Definition rktio_hash_string (s : list Z) : Z :=
  let k := hash_string_loop (c_str s) 0 in
  let key := to_s64 k in
  if key <? 0 then Z.shiftr k 1 else key.
