(* ===== verification/RktioEnvvars.v ===== *)
(** * Sets of environment variables of the I/O library

    [rktio_envvars.c] on Unix, but for its calls of [getenv], [setenv] and
    [unsetenv] and for its lock.  Strings that the library allocates are in a
    store, so that freeing one twice, or reading it afterwards, is undefined
    behaviour; C strings are given by the bytes before their nul.  An array that
    [malloc] gives has indeterminate cells, [None]; the C library always has
    memory. *)

From S2P Require Import Prelude.

Record memory := Memory { strs : gmap Z (list Z); next : Z }.

Abbreviation E := (comp memory Empty_set).

Definition strdup (b : list Z) : E Z := λ s, Ok (next s) (Memory (<[next s := b]> (strs s)) (next s + 1)).
Definition free (p : Z) : E unit := λ s,
  match strs s !! p with Some _ => Ok tt (Memory (delete p (strs s)) (next s)) | None => UB "free of what is not allocated" end.
(** the string at a pointer *)
Definition str (p : Z) : E (list Z) := λ s, match strs s !! p with Some b => Ok b s | None => UB "read of what is not allocated" end.

(** ** Arrays of pointers *)

Definition malloc_array (n : Z) : list (option Z) := replicate (Z.to_nat n) None.

Definition cell (a : list (option Z)) (i : Z) : E (option Z) := λ s,
  match (if i <? 0 then None else a !! Z.to_nat i) with Some c => Ok c s | None => UB "outside of the array" end.

Definition cell_ptr (a : list (option Z)) (i : Z) : E Z :=
  c <- cell a i ;; match c with Some p => ret p | None => λ _, UB "indeterminate pointer" end.

Definition set_cell (a : list (option Z)) (i : Z) (c : option Z) : E (list (option Z)) := λ s,
  if (0 <=? i) && (i <? Z.of_nat (length a)) then Ok (<[Z.to_nat i := c]> a) s else UB "outside of the array".

(** [memcpy] of the first [n] cells of [b] to the start of [a] *)
Definition copy_cells (a b : list (option Z)) (n : Z) : E (list (option Z)) := λ s,
  if (0 <=? n) && (n <=? Z.of_nat (length a)) && (n <=? Z.of_nat (length b))
  then Ok (take (Z.to_nat n) b ++ drop (Z.to_nat n) a) s else UB "outside of the array".

(** ** The operations *)

Record rktio_envvars_t := Envvars {
  e_count : Z;
  e_size : Z;
  names : list (option Z);
  vals : list (option Z)
}.

Definition set_names (a : list (option Z)) (ev : rktio_envvars_t) : rktio_envvars_t := Envvars (e_count ev) (e_size ev) a (vals ev).
Definition set_vals (a : list (option Z)) (ev : rktio_envvars_t) : rktio_envvars_t := Envvars (e_count ev) (e_size ev) (names ev) a.
Definition set_e_count (n : Z) (ev : rktio_envvars_t) : rktio_envvars_t := Envvars n (e_size ev) (names ev) (vals ev).

(** [envvars->names[i] = p] and [envvars->vals[i] = p] *)
Definition set_name_at (ev : rktio_envvars_t) (i p : Z) : E rktio_envvars_t :=
  a <- set_cell (names ev) i (Some p) ;; ret (set_names a ev).
Definition set_val_at (ev : rktio_envvars_t) (i p : Z) : E rktio_envvars_t :=
  a <- set_cell (vals ev) i (Some p) ;; ret (set_vals a ev).

Definition signed_word (i : Z) : E Z := λ s, if decide (in_s64 i) then Ok i s else UB "signed overflow".

(** no equals sign, from the last byte on *)
Definition rktio_is_ok_envvar_name (s : list Z) : bool := forallb (λ c, negb (c =? 61)) (reverse s).

Definition rktio_are_envvar_names_case_insensitive : bool := false.

(** [for (j = 0; p[j] && p[j] != '='; j++)]: the bytes before [p + j], and those
    from there on *)
Fixpoint split_name (p : list Z) : list Z * list Z :=
  match p with
  | [] => ([], [])
  | c :: p' => if c =? 61 then ([], p) else let '(a, b) := split_name p' in (c :: a, b)
  end.

(** [for (i = 0; ea[i]; i++)] *)
Fixpoint environ_loop (ea : list (list Z)) (i : Z) (ev : rktio_envvars_t) : E rktio_envvars_t :=
  match ea with
  | [] => ret ev
  | p :: ea' =>
      let '(name, rest) := split_name p in
      n <- strdup name ;;
      ev <- set_name_at ev i n ;;
      match rest with
      | _ :: value => v <- strdup value ;; ev <- set_val_at ev i v ;; environ_loop ea' (i + 1) ev
      | [] => λ _, UB "read behind the end of a string"
      end
  end.

Definition rktio_envvars (ea : list (list Z)) : E rktio_envvars_t :=
  let n := Z.of_nat (length ea) in
  environ_loop ea 0 (Envvars n n (malloc_array n) (malloc_array n)).

Definition rktio_empty_envvars : rktio_envvars_t := Envvars 0 2 (malloc_array 2) (malloc_array 2).

Fixpoint copy_loop (n : nat) (i : Z) (envvars new_envvars : rktio_envvars_t) : E rktio_envvars_t :=
  match n with
  | O => ret new_envvars
  | S n' =>
      p <- cell_ptr (names envvars) i ;; b <- str p ;; q <- strdup b ;;
      new_envvars <- set_name_at new_envvars i q ;;
      p <- cell_ptr (vals envvars) i ;; b <- str p ;; q <- strdup b ;;
      new_envvars <- set_val_at new_envvars i q ;;
      copy_loop n' (i + 1) envvars new_envvars
  end.

Definition rktio_envvars_copy (envvars : rktio_envvars_t) : E rktio_envvars_t :=
  let n := e_count envvars in
  copy_loop (Z.to_nat n) 0 envvars (Envvars n n (malloc_array n) (malloc_array n)).

Fixpoint free_entries (n : nat) (i : Z) (envvars : rktio_envvars_t) : E unit :=
  match n with
  | O => ret tt
  | S n' =>
      p <- cell_ptr (names envvars) i ;; free p ;;;
      p <- cell_ptr (vals envvars) i ;; free p ;;;
      free_entries n' (i + 1) envvars
  end.

Definition rktio_envvars_free (envvars : rktio_envvars_t) : E unit := free_entries (Z.to_nat (e_count envvars)) 0 envvars.

Definition envvars_resize (envvars : rktio_envvars_t) (new_size : Z) : E rktio_envvars_t :=
  new_names <- copy_cells (malloc_array new_size) (names envvars) (e_count envvars) ;;
  new_vals <- copy_cells (malloc_array new_size) (vals envvars) (e_count envvars) ;;
  ret (Envvars (e_count envvars) new_size new_names new_vals).

Definition rktio_envvars_count (envvars : rktio_envvars_t) : Z := e_count envvars.
Definition rktio_envvars_name_ref (envvars : rktio_envvars_t) (i : Z) : E Z := p <- cell_ptr (names envvars) i ;; b <- str p ;; strdup b.
Definition rktio_envvars_value_ref (envvars : rktio_envvars_t) (i : Z) : E Z := p <- cell_ptr (vals envvars) i ;; b <- str p ;; strdup b.

(** [None] is the null pointer. *)
Fixpoint envvars_get_loop (n : nat) (i : Z) (envvars : rktio_envvars_t) (name : list Z) : E (option Z) :=
  match n with
  | O => ret None
  | S n' =>
      p <- cell_ptr (names envvars) i ;; b <- str p ;;
      if decide (b = name) then q <- cell_ptr (vals envvars) i ;; v <- str q ;; r <- strdup v ;; ret (Some r)
      else envvars_get_loop n' (i + 1) envvars name
  end.

Definition rktio_envvars_get (envvars : rktio_envvars_t) (name : list Z) : E (option Z) :=
  envvars_get_loop (Z.to_nat (e_count envvars)) 0 envvars name.

(** [for (j = i + 1; j < envvars->count; j++)] *)
Fixpoint shift_loop (n : nat) (j : Z) (envvars : rktio_envvars_t) : E rktio_envvars_t :=
  match n with
  | O => ret envvars
  | S n' =>
      c <- cell (names envvars) j ;; a <- set_cell (names envvars) (j - 1) c ;; let envvars := set_names a envvars in
      c <- cell (vals envvars) j ;; a <- set_cell (vals envvars) (j - 1) c ;; let envvars := set_vals a envvars in
      shift_loop n' (j + 1) envvars
  end.

(** The first loop of [rktio_envvars_set], and whether the function returns in
    it *)
Fixpoint replace_entries (n : nat) (i : Z) (envvars : rktio_envvars_t) (name : list Z) (value : option (list Z)) :
    E (rktio_envvars_t * bool) :=
  match n with
  | O => ret (envvars, false)
  | S n' =>
      p <- cell_ptr (names envvars) i ;; b <- str p ;;
      if decide (b = name) then
        match value with
        | Some value' =>
            q <- cell_ptr (vals envvars) i ;; free q ;;;
            q <- strdup value' ;;
            envvars <- set_val_at envvars i q ;;
            replace_entries n' (i + 1) envvars name value
        | None =>
            free p ;;;
            q <- cell_ptr (vals envvars) i ;; free q ;;;
            envvars <- shift_loop n' (i + 1) envvars ;;
            if (4 <? e_size envvars) && (e_count envvars <=? Z.shiftr (e_size envvars) 2)
            then envvars <- envvars_resize envvars (Z.shiftr (e_size envvars) 1) ;; ret (envvars, true)
            else ret (envvars, true)
        end
      else replace_entries n' (i + 1) envvars name value
  end.

Definition rktio_envvars_set (envvars : rktio_envvars_t) (name : list Z) (value : option (list Z)) : E rktio_envvars_t :=
  r <- replace_entries (Z.to_nat (e_count envvars)) 0 envvars name value ;;
  let '(envvars, returned) := r in
  if returned then ret envvars
  else
    match value with
    | None => ret envvars
    | Some value =>
        envvars <- (if e_count envvars =? e_size envvars
                    then n <- signed_word (e_size envvars * 2) ;; envvars_resize envvars n
                    else ret envvars) ;;
        p <- strdup name ;;
        envvars <- set_name_at envvars (e_count envvars) p ;;
        q <- strdup value ;;
        envvars <- set_val_at envvars (e_count envvars) q ;;
        n <- signed_word (e_count envvars + 1) ;;
        ret (set_e_count n envvars)
    end.

(** ** The block for [execve] *)

(** the room for the strings: [len] *)
Fixpoint block_len (n : nat) (i : Z) (envvars : rktio_envvars_t) (len : Z) : E Z :=
  match n with
  | O => ret len
  | S n' =>
      p <- cell_ptr (names envvars) i ;; a <- str p ;;
      q <- cell_ptr (vals envvars) i ;; b <- str q ;;
      len <- signed_word (len + Z.of_nat (length a) + Z.of_nat (length b) + 2) ;;
      block_len n' (i + 1) envvars len
  end.

(** [memcpy] of [bytes] into the text, at [pos] *)
Definition copy_in (a : list (option Z)) (pos : Z) (bytes : list Z) : E (list (option Z)) := λ s,
  if (0 <=? pos) && (pos + Z.of_nat (length bytes) <=? Z.of_nat (length a))
  then Ok (take (Z.to_nat pos) a ++ (Some <$> bytes) ++ drop (Z.to_nat pos + length bytes) a) s else UB "outside of the block".

(** The allocated block: its size in bytes, the pointers at its start, and the
    text behind them.  A pointer into the block is the distance to its start;
    [0] is the null pointer, and [None] what is not yet written. *)
Record block_t := Block {
  b_room : Z;
  b_ptrs : list (option Z);
  b_text : list (option Z)
}.

Definition sizeof_pointer : Z := 8.

(** [text] starts at [base] in the block, and [s] is at [pos] in it. *)
Fixpoint block_loop (n : nat) (i : Z) (envvars : rktio_envvars_t) (base c pos : Z) (r text : list (option Z)) :
    E (Z * list (option Z) * list (option Z)) :=
  match n with
  | O => ret (c, r, text)
  | S n' =>
      r <- set_cell r c (Some (base + pos)) ;;
      p <- cell_ptr (names envvars) i ;; name <- str p ;;
      let slen := Z.of_nat (length name) in
      text <- copy_in text pos name ;;
      text <- set_cell text (pos + slen) (Some 61) ;;
      let pos := pos + (slen + 1) in
      q <- cell_ptr (vals envvars) i ;; val <- str q ;;
      let slen := Z.of_nat (length val) in
      text <- copy_in text pos val ;;
      text <- set_cell text (pos + slen) (Some 0) ;;
      block_loop n' (i + 1) envvars base (c + 1) (pos + (slen + 1)) r text
  end.

(** The argument of [malloc] is unsigned. *)
Definition rktio_envvars_to_block (envvars : rktio_envvars_t) : E block_t :=
  len <- block_len (Z.to_nat (e_count envvars)) 0 envvars 0 ;;
  let base := (e_count envvars + 1) * sizeof_pointer in
  let room := to_u64 (base + len) in
  let r := malloc_array (Z.min (e_count envvars + 1) (room / sizeof_pointer)) in
  let text := malloc_array (room - base) in
  x <- block_loop (Z.to_nat (e_count envvars)) 0 envvars base 0 0 r text ;;
  let '(c, r, text) := x in
  r <- set_cell r c (Some 0) ;;
  ret (Block room r text).
