(* ===== verification/RktioWide.v ===== *)
(** * Conversion of paths between bytes and 16-bit units

    [rktio_wide.c] as it is compiled for Windows: a variant of UTF-8 and a
    variant of UTF-16 in which surrogates may be unpaired.  The state is the
    buffer that is written, [None] for the null pointer; the C library always
    has memory. *)

From S2P Require Import Prelude.

Abbreviation W := (comp (option (list Z)) Empty_set).

(** [if (us) us[j] = x], with [x] brought to [w] bits *)
Definition put_at (w j x : Z) : W unit := λ b,
  match b with
  | None => Ok tt None
  | Some b =>
      if (0 <=? j) && (j <? Z.of_nat (length b)) then Ok tt (Some (<[Z.to_nat j := x mod 2 ^ w]> b))
      else UB "outside of the buffer"
  end.

(** ** From bytes to units *)

(** The part of the body that outputs [v], for the rest of the loop [next]; -1
    for a failure *)
Definition output (next : Z → Z → W Z) (j v pending_surrogate : Z) : W Z :=
  if 65535 <? v then
    r <- (if pending_surrogate =? 0 then ret (j, 0) else put_at 16 j pending_surrogate ;;; ret (j + 1, 0)) ;;
    let '(j, pending_surrogate) := r in
    let v' := v - 65536 in
    put_at 16 j (Z.lor 55296 (Z.land (Z.shiftr v' 10) 1023)) ;;;
    put_at 16 (j + 1) (Z.lor 56320 (Z.land v' 1023)) ;;;
    next (j + 2) pending_surrogate
  else
    let surrogate := (55296 <=? v) && (v <=? 57343) in
    if surrogate && negb (pending_surrogate =? 0) && (Z.land v 56320 =? 56320) then ret (-1)
    else
      j <- (if pending_surrogate =? 0 then ret j else put_at 16 j pending_surrogate ;;; ret (j + 1)) ;;
      if surrogate && (Z.land v 56320 =? 55296) then next j v
      else put_at 16 j v ;;; next (j + 1) 0.

Fixpoint utf8_loop (s : list Z) (j state nextbits v pending_surrogate : Z) : W Z :=
  match s with
  | [] =>
      j <- (if pending_surrogate =? 0 then ret j else put_at 16 j pending_surrogate ;;; ret (j + 1)) ;;
      if state =? 0 then ret j else ret (-1)
  | sc :: s' =>
      let out v nextbits := output (λ j p, utf8_loop s' j 0 nextbits v p) j v pending_surrogate in
      if sc <? 128 then if state =? 0 then out sc nextbits else ret (-1)
      else if Z.land sc 192 =? 128 then
        if state =? 0 then ret (-1)
        else if (nextbits =? 0) || negb (Z.land sc nextbits =? 0) then
          let v := Z.shiftl v 6 + Z.land sc 63 in
          let state := state - 1 in
          if negb (state =? 0) then utf8_loop s' j state 0 v pending_surrogate
          else if 1114111 <? v then ret (-1)
          else out v 0
        else ret (-1)
      else if negb (state =? 0) then ret (-1)
      else if Z.land sc 224 =? 192 then
        if Z.land sc 30 =? 0 then ret (-1) else utf8_loop s' j 1 nextbits (Z.land sc 31) pending_surrogate
      else if Z.land sc 240 =? 224 then
        let v := Z.land sc 15 in
        utf8_loop s' j 2 (if v =? 0 then 32 else nextbits) v pending_surrogate
      else if Z.land sc 248 =? 240 then
        let v := Z.land sc 7 in
        if v <=? 4 then utf8_loop s' j 3 (if v =? 0 then 48 else nextbits) v pending_surrogate else ret (-1)
      else ret (-1)
  end.

Definition utf8ish_to_utf16ish (s : list Z) : W Z := utf8_loop s 0 0 0 0 0.

(** ** From units to bytes *)

(** The bytes written for [wc] *)
Definition wc_bytes (wc : Z) : list Z :=
  let b mask shift := Z.shiftr (Z.land wc mask) shift in
  if wc <? 128 then [wc]
  else if wc <? 2048 then [Z.lor 192 (b 1984 6); Z.lor 128 (Z.land wc 63)]
  else if wc <? 65536 then [Z.lor 224 (b 61440 12); Z.lor 128 (b 4032 6); Z.lor 128 (Z.land wc 63)]
  else if wc <? 2097152 then
    [Z.lor 240 (b 1835008 18); Z.lor 128 (b 258048 12); Z.lor 128 (b 4032 6); Z.lor 128 (Z.land wc 63)]
  else if wc <? 67108864 then
    [Z.lor 248 (b 50331648 24); Z.lor 128 (b 16515072 18); Z.lor 128 (b 258048 12); Z.lor 128 (b 4032 6); Z.lor 128 (Z.land wc 63)]
  else
    [Z.lor 252 (b 1073741824 30); Z.lor 128 (b 1056964608 24); Z.lor 128 (b 16515072 18); Z.lor 128 (b 258048 12);
     Z.lor 128 (b 4032 6); Z.lor 128 (Z.land wc 63)].

(** How many there are, when nothing is written *)
Definition wc_size (wc : Z) : Z :=
  if wc <? 128 then 1 else if wc <? 2048 then 2 else if wc <? 65536 then 3
  else if wc <? 2097152 then 4 else if wc <? 67108864 then 5 else 6.

(** [s[j++] = b] for each byte *)
Fixpoint put_bytes (j : Z) (bs : list Z) : W Z :=
  match bs with
  | [] => ret j
  | b :: bs' => put_at 8 j b ;;; put_bytes (j + 1) bs'
  end.

Definition get_buffer : W (option (list Z)) := λ b, Ok b b.

Definition put_wc (j wc : Z) : W Z :=
  b <- get_buffer ;;
  match b with
  | None => ret (j + wc_size wc)
  | Some _ => put_bytes j (wc_bytes wc)
  end.

Fixpoint utf16_loop (us : list Z) (j : Z) : W Z :=
  match us with
  | [] => ret j
  | wc :: us' =>
      if (Z.land wc 63488 =? 55296) && (Z.land wc 64512 =? 55296) then
        match us' with
        | u :: us'' =>
            if Z.land u 64512 =? 56320
            then j <- put_wc j (Z.shiftl (Z.land wc 1023) 10 + Z.land u 1023 + 65536) ;; utf16_loop us'' j
            else j <- put_wc j wc ;; utf16_loop us' j
        | [] => j <- put_wc j wc ;; utf16_loop us' j
        end
      else j <- put_wc j wc ;; utf16_loop us' j
  end.

Definition utf16ish_to_utf8ish (us : list Z) : W Z := utf16_loop us 0.

(** ** The conversions of whole strings *)

(** A buffer from [malloc], whose contents [g] are arbitrary *)
Definition malloc_buffer (g : list Z) (n : Z) : list Z := take (Z.to_nat n) (g ++ replicate (Z.to_nat n) 0).

Definition RKTIO_MAX_IDEAL_BUFFER_SIZE : Z := 4096.

(** The shared buffer of [rktio_t] *)
Record wide := Wide { wide_buffer : list Z; wide_buffer_size : Z }.

Inductive converted :=
  | Invalid_path
  | Converted (ws : list Z) (shared : wide).

(** The string is given by its bytes before the nul. *)
Definition rktio_convert_to_wchar (g : list Z) (rktio : wide) (s : list Z) (do_copy : bool) : outcome (option (list Z)) Empty_set converted :=
  let s := c_str s ++ [0] in
  match utf8ish_to_utf16ish s None with
  | Ok len _ =>
      if len <? 0 then Ok Invalid_path None
      else
        let '(ws, size) :=
          if do_copy then (malloc_buffer g len, wide_buffer_size rktio)
          else if wide_buffer_size rktio <? len then (malloc_buffer g len, len)
          else if (len <? RKTIO_MAX_IDEAL_BUFFER_SIZE) && (RKTIO_MAX_IDEAL_BUFFER_SIZE <? wide_buffer_size rktio)
          then (malloc_buffer g RKTIO_MAX_IDEAL_BUFFER_SIZE, RKTIO_MAX_IDEAL_BUFFER_SIZE)
          else (wide_buffer rktio, wide_buffer_size rktio) in
        match utf8ish_to_utf16ish s (Some ws) with
        | Ok _ (Some ws) => Ok (Converted ws (if do_copy then rktio else Wide ws size)) None
        | Ok _ None => UB "no buffer"
        | Fail e b => Fail e b
        | UB w => UB w
        | Diverge => Diverge
        end
  | Fail e b => Fail e b
  | UB w => UB w
  | Diverge => Diverge
  end.

(** The units before the nul *)
Definition rktio_convert_from_wchar (g : list Z) (ws : list Z) : outcome (option (list Z)) Empty_set (list Z) :=
  let ws := c_str ws ++ [0] in
  match utf16ish_to_utf8ish ws None with
  | Ok len _ =>
      match utf16ish_to_utf8ish ws (Some (malloc_buffer g len)) with
      | Ok _ (Some s) => Ok s None
      | Ok _ None => UB "no buffer"
      | Fail e b => Fail e b
      | UB w => UB w
      | Diverge => Diverge
      end
  | Fail e b => Fail e b
  | UB w => UB w
  | Diverge => Diverge
  end.
