(* ===== verification/RktioHashSpec.v ===== *)
(** * What the hash tables of the I/O library hold

    A table stands for a finite map.  Each key is on the sequence of slots that
    its hash code gives, behind slots that are filled or vacated; the sequence
    visits every slot once, since its step is odd and the number of slots is a
    power of two. *)

From S2P Require Import Prelude RktioHash.
From Stdlib Require Import Znumtheory.

(** ** The slots for a key *)

Definition slot (n : nat) (k : Z) (j : nat) : nat :=
  Z.to_nat ((k + Z.of_nat j * stride k (2 ^ Z.of_nat n - 1)) mod 2 ^ Z.of_nat n).

Lemma land_mask a (n : nat) : Z.land a (2 ^ Z.of_nat n - 1) = a mod 2 ^ Z.of_nat n.
Proof. rewrite <- Z.land_ones by lia. f_equal. rewrite Z.ones_equiv. lia. Qed.

Lemma slot_of n k j : Z.of_nat (slot n k j) = (k + Z.of_nat j * stride k (2 ^ Z.of_nat n - 1)) mod 2 ^ Z.of_nat n.
Proof. unfold slot. apply Z2Nat.id, Z.mod_pos_bound. lia. Qed.

Lemma slot_lt n k j : (Z.of_nat (slot n k j) < 2 ^ Z.of_nat n).
Proof. rewrite slot_of. apply Z.mod_pos_bound. lia. Qed.

Lemma pow2_nat (n : nat) : Z.of_nat (2 ^ n) = 2 ^ Z.of_nat n.
Proof. by rewrite Nat2Z.inj_pow. Qed.

Lemma slot_0 n k : Z.land k (2 ^ Z.of_nat n - 1) = Z.of_nat (slot n k 0).
Proof. rewrite slot_of, land_mask. f_equal. lia. Qed.

Lemma slot_S n k j :
  Z.land (Z.of_nat (slot n k j) + stride k (2 ^ Z.of_nat n - 1)) (2 ^ Z.of_nat n - 1) = Z.of_nat (slot n k (S j)).
Proof. rewrite !slot_of, land_mask, Zplus_mod_idemp_l. f_equal. lia. Qed.

Lemma stride_odd k m : stride k m mod 2 = 1.
Proof.
  unfold stride. rewrite <- Z.bit0_mod, Z.lor_spec. cbn. by rewrite orb_true_r.
Qed.

Lemma odd_coprime d (n : nat) : d mod 2 = 1 → Z.gcd (2 ^ Z.of_nat n) d = 1.
Proof.
  intros Hd. induction n as [|n IH]; [apply Z.gcd_1_l|].
  apply Zgcd_1_rel_prime. apply Zgcd_1_rel_prime in IH. rewrite Nat2Z.inj_succ, Z.pow_succ_r by lia.
  apply rel_prime_sym, rel_prime_mult; [|by apply rel_prime_sym].
  apply rel_prime_sym, Zgcd_1_rel_prime. rewrite <- Z.gcd_mod, Hd by lia. reflexivity.
Qed.

Lemma slot_inj n k i j :
  (Z.of_nat i < 2 ^ Z.of_nat n) → (Z.of_nat j < 2 ^ Z.of_nat n) → slot n k i = slot n k j → i = j.
Proof.
  intros Hi Hj E. apply (f_equal Z.of_nat) in E. rewrite !slot_of in E. set (N := 2 ^ Z.of_nat n) in *.
  set (d := stride k (N - 1)) in *. assert (HN : 0 < N) by lia.
  assert (Hdiv : (N | d * (Z.of_nat i - Z.of_nat j))).
  { apply Z.mod_divide; [lia|]. replace (d * (Z.of_nat i - Z.of_nat j)) with ((k + Z.of_nat i * d) - (k + Z.of_nat j * d)) by ring.
    rewrite Zminus_mod, E, Z.sub_diag. apply Z.mod_0_l. lia. }
  apply Z.gauss in Hdiv; [|apply odd_coprime, stride_odd].
  destruct Hdiv as [q Hq]. assert (q = 0) by nia. lia.
Qed.

(** The sequence is periodic. *)
Lemma slot_period n k j : slot n k (j mod 2 ^ n) = slot n k j.
Proof.
  apply Nat2Z.inj. rewrite !slot_of. set (d := stride k _). rewrite Nat2Z.inj_mod, Nat2Z.inj_pow. set (N := 2 ^ Z.of_nat n).
  assert (HN : 0 < N) by (unfold N; lia). rewrite (Z.add_mod k), (Z.add_mod k (Z.of_nat j * d)) by lia.
  f_equal. f_equal. rewrite Zmult_mod_idemp_l. done.
Qed.

Lemma slot_back n k j : (j < 2 ^ n)%nat → slot n k (S j) = slot n k 0 ↔ S j = (2 ^ n)%nat.
Proof.
  intros Hj. split.
  - intros E. destruct (decide (S j = 2 ^ n)%nat) as [|Hne]; [done|].
    assert (HS : (S j < 2 ^ n)%nat) by lia. assert (H0 : S j = 0%nat); [|lia].
    apply (slot_inj n k); [rewrite <- pow2_nat; lia|lia|done].
  - intros E. rewrite <- (slot_period n k (S j)), E, Nat.Div0.mod_same. done.
Qed.

(** ** The invariant *)

Section spec.
Context {V : Type}.
Implicit Types (bs : list (bucket_t V)) (m : gmap Z V) (ht : rktio_hash_t V) (x : V).

(** A search goes on behind such a bucket. *)
Definition passed (b : bucket_t V) : bool := is_used b || (key b =? -1).

Definition holds bs (i : nat) (k : Z) x : Prop := bs !! i = Some (Bucket k (Some x)).

Record table_ok (n : nat) bs m : Prop := {
  t_len : length bs = (2 ^ n)%nat;
  t_keys i k x : holds bs i k x → 0 ≤ k;
  t_empty i k : bs !! i = Some (Bucket k None) → k = 0 ∨ k = -1;
  t_map k x : m !! k = Some x ↔ ∃ i, holds bs i k x;
  t_uniq i i' k x x' : holds bs i k x → holds bs i' k x' → i = i';
  t_place i k x : holds bs i k x → ∃ j, i = slot n k j ∧ ∀ j', (j' < j)%nat → ∃ b, bs !! slot n k j' = Some b ∧ passed b = true }.

(** [ht] stands for [m]: it has no buckets yet, or at most half of them are in
    use. *)
Definition stands_for ht m : Prop :=
  match buckets ht with
  | None => ht_size ht = 0 ∧ count ht = 0 ∧ m = ∅
  | Some bs => ∃ n, (4 ≤ n ≤ 60)%nat ∧ ht_size ht = 2 ^ Z.of_nat n ∧ table_ok n bs m
      ∧ count ht = Z.of_nat (size m) ∧ 2 * count ht < ht_size ht
  end.

(** The slots before the [j]-th are passed and have other keys. *)
Definition searched n bs (k : Z) (j : nat) : Prop :=
  ∀ j', (j' < j)%nat → ∃ b, bs !! slot n k j' = Some b ∧ passed b = true ∧ key b ≠ k.

Lemma slot_bucket n bs m k j : table_ok n bs m → ∃ b, bs !! slot n k j = Some b.
Proof.
  intros Ht. apply lookup_lt_is_Some. rewrite (t_len _ _ _ Ht). pose proof (slot_lt n k j) as H. rewrite <- pow2_nat in H. lia.
Qed.

Lemma searched_S n bs k j b :
  searched n bs k j → bs !! slot n k j = Some b → passed b = true → key b ≠ k → searched n bs k (S j).
Proof. intros Hs Hb Hp Hk j' Hj. destruct (decide (j' = j)) as [->|]; [by exists b|]. apply Hs. lia. Qed.

(** A key that is in the table is not behind the end of a search. *)
Lemma searched_place n bs m k j i x :
  table_ok n bs m → 0 ≤ k → searched n bs k j → holds bs i k x →
  ∃ j0, i = slot n k j0 ∧ (j ≤ j0)%nat ∧ ∀ j', (j' < j0)%nat → ∃ b, bs !! slot n k j' = Some b ∧ passed b = true.
Proof.
  intros Ht Hk Hs Hi. destruct (t_place _ _ _ Ht _ _ _ Hi) as (j0 & -> & Hp). exists j0. split; [done|]. split; [|done].
  destruct (decide (j ≤ j0)%nat); [done|]. destruct (Hs j0) as (b & Hb & _ & Hne); [lia|].
  unfold holds in Hi. rewrite Hb in Hi. by injection Hi as ->.
Qed.

Lemma search_hit n bs m k j b :
  table_ok n bs m → 0 ≤ k → searched n bs k j → bs !! slot n k j = Some b → key b = k → v b = m !! k.
Proof.
  intros Ht Hk Hs Hb <-. destruct b as [k [x|]]; cbn in *.
  - symmetry. apply (t_map _ _ _ Ht). by exists (slot n k j).
  - destruct (m !! k) as [x|] eqn:E; [|done]. apply (t_map _ _ _ Ht) in E as [i Hi].
    destruct (searched_place _ _ _ _ _ _ _ Ht Hk Hs Hi) as (j0 & -> & Hj & Hp).
    destruct (decide (j0 = j)) as [->|Hne]; [unfold holds in Hi; congruence|].
    destruct (Hp j) as (b & Hb' & Hpass); [lia|]. rewrite Hb in Hb'. injection Hb' as <-.
    unfold passed in Hpass. cbn in Hpass. lia.
Qed.

Lemma search_end n bs m k j b :
  table_ok n bs m → 0 ≤ k → searched n bs k j → bs !! slot n k j = Some b → key b ≠ k → passed b = false → m !! k = None.
Proof.
  intros Ht Hk Hs Hb Hne Hpass. destruct (m !! k) as [x|] eqn:E; [|done]. apply (t_map _ _ _ Ht) in E as [i Hi].
  destruct (searched_place _ _ _ _ _ _ _ Ht Hk Hs Hi) as (j0 & -> & Hj & Hp).
  destruct (decide (j0 = j)) as [->|]; [unfold holds in Hi; rewrite Hb in Hi; by injection Hi as ->|].
  destruct (Hp j) as (b' & Hb' & Hpass'); [lia|]. congruence.
Qed.

Lemma search_all n bs m k : table_ok n bs m → 0 ≤ k → searched n bs k (2 ^ n) → m !! k = None.
Proof.
  intros Ht Hk Hs. destruct (m !! k) as [x|] eqn:E; [|done]. apply (t_map _ _ _ Ht) in E as [i Hi].
  destruct (t_place _ _ _ Ht _ _ _ Hi) as (j0 & -> & _). unfold holds in Hi. rewrite <- slot_period in Hi.
  destruct (Hs (j0 mod 2 ^ n)%nat) as (b & Hb & _ & Hne); [apply Nat.mod_upper_bound, Nat.pow_nonzero; lia|].
  rewrite Hb in Hi. by injection Hi as ->.
Qed.

(** ** Reading *)

Lemma bucket_ok ht bs i b : buckets ht = Some bs → bs !! i = Some b → bucket (Z.of_nat i) ht = Ok b ht.
Proof. intros Hb Hi. unfold bucket. rewrite Hb. rewrite (proj2 (Z.ltb_ge _ 0)) by lia. by rewrite Nat2Z.id, Hi. Qed.

Lemma signed_ok i ht : in_s64 i → signed i ht = Ok i ht.
Proof. intros H. unfold signed. by rewrite decide_True. Qed.

Lemma stride_range k n : 0 ≤ k → (1 ≤ n)%nat → 0 ≤ stride k (2 ^ Z.of_nat n - 1) < 2 ^ Z.of_nat n.
Proof.
  intros Hk Hn. unfold stride. rewrite land_mask. pose proof (Z.mod_pos_bound (Z.shiftr k 3) (2 ^ Z.of_nat n)) as Ha.
  set (a := Z.shiftr k 3 mod 2 ^ Z.of_nat n) in *. specialize (Ha ltac:(lia)).
  assert (H0 : 0 ≤ Z.lor a 1) by (apply Z.lor_nonneg; lia). split; [done|].
  destruct (decide (Z.lor a 1 = 0)) as [->|]; [lia|]. apply Z.log2_lt_pow2; [lia|]. rewrite Z.log2_lor by lia.
  apply Z.max_lub_lt; [|cbn; lia]. destruct (decide (a = 0)) as [Ha0|]; [rewrite Ha0; cbn; lia|]. apply Z.log2_lt_pow2; lia.
Qed.

(** The step to the next slot *)
Lemma next_ok ht n k j :
  0 ≤ k → (4 ≤ n ≤ 60)%nat →
  signed (Z.of_nat (slot n k j) + stride k (2 ^ Z.of_nat n - 1)) ht = Ok (Z.of_nat (slot n k j) + stride k (2 ^ Z.of_nat n - 1)) ht.
Proof.
  intros Hk Hn. apply signed_ok. unfold in_s64. pose proof (slot_lt n k j). pose proof (stride_range k n Hk ltac:(lia)).
  assert (2 ^ Z.of_nat n ≤ 2 ^ 60) by (apply Z.pow_le_mono_r; lia). lia.
Qed.

Lemma at_start n k j : (j < 2 ^ n)%nat → (Z.of_nat (slot n k (S j)) =? Z.of_nat (slot n k 0)) = bool_decide (S j = 2 ^ n)%nat.
Proof.
  intros Hj. pose proof (slot_back n k j Hj). destruct (bool_decide_reflect (S j = 2 ^ n)%nat) as [E|E].
  - apply Z.eqb_eq. f_equal. tauto.
  - apply Z.eqb_neq. intros E'. apply Nat2Z.inj in E'. tauto.
Qed.

Lemma hash_get_loop_ok ht n bs m k :
  (4 ≤ n ≤ 60)%nat → buckets ht = Some bs → table_ok n bs m → 0 ≤ k →
  ∀ f j, (j + f = 2 ^ n)%nat → (0 < f)%nat → searched n bs k j →
  get_loop f k (2 ^ Z.of_nat n - 1) (stride k (2 ^ Z.of_nat n - 1)) (Z.of_nat (slot n k 0)) (Z.of_nat (slot n k j)) ht = Ok (m !! k) ht.
Proof.
  intros Hn Hb Ht Hk f. induction f as [|f IH]; intros j Hj Hf Hs; [lia|]. cbn [get_loop].
  destruct (slot_bucket n bs m k j Ht) as [b Hslot]. step_ok (bucket_ok ht bs _ b Hb Hslot).
  destruct (Z.eqb_spec (key b) k) as [E|E].
  - unfold ret. by rewrite (search_hit n bs m k j b).
  - fold (passed b). destruct (passed b) eqn:Hp.
    + step_ok (next_ok ht n k j Hk Hn). cbn zeta. rewrite slot_S, at_start by lia.
      pose proof (searched_S _ _ _ _ _ Hs Hslot Hp E) as Hs'.
      case_bool_decide as Hend; [|apply IH; [lia|lia|done]].
      unfold ret. rewrite (search_all n bs m k); [done|done|done|]. by rewrite <- Hend.
    + unfold ret. by rewrite (search_end n bs m k j b).
Qed.

Lemma searched_0 n bs k : searched n bs k 0.
Proof. intros j Hj. lia. Qed.

(** C34. Looking a key up gives its value and leaves the table as it is: the
    search always ends, however many slots are in use or vacated. *)
Theorem rktio_hash_get_correct ht m k :
  stands_for ht m → 0 ≤ k → rktio_hash_get k ht = Ok (m !! k) ht.
Proof.
  unfold stands_for, rktio_hash_get. intros Hm Hk. step_ok (eq_refl : get_ht ht = Ok ht ht).
  destruct (buckets ht) as [bs|] eqn:Hb; [|destruct Hm as (_ & _ & ->); by rewrite lookup_empty].
  destruct Hm as (n & Hn & Hsz & Ht & _). rewrite Hsz, slot_0, (t_len _ _ _ Ht).
  apply (hash_get_loop_ok ht n bs); [done..|lia| |apply searched_0]. pose proof (Nat.pow_nonzero 2 n). lia.
Qed.

(** ** Changes of a slot *)

Lemma passed_insert n bs i b k j :
  passed b = true → (∃ b', bs !! slot n k j = Some b' ∧ passed b' = true) → ∃ b', <[i:=b]> bs !! slot n k j = Some b' ∧ passed b' = true.
Proof.
  intros Hb (b' & Hb' & Hp). destruct (decide (i = slot n k j)) as [->|].
  - exists b. split; [|done]. apply list_lookup_insert_eq. by eapply lookup_lt_Some.
  - exists b'. by rewrite list_lookup_insert_ne.
Qed.

Lemma holds_insert bs i b i' k x :
  holds (<[i:=b]> bs) i' k x ↔ (i' = i ∧ b = Bucket k (Some x) ∧ (i < length bs)%nat) ∨ (i' ≠ i ∧ holds bs i' k x).
Proof. unfold holds. rewrite list_lookup_insert_Some. naive_solver. Qed.

(** A value in a slot that was not in use *)
Lemma table_fill n bs m k x j b :
  table_ok n bs m → 0 ≤ k → m !! k = None → bs !! slot n k j = Some b → is_used b = false →
  (∀ j', (j' < j)%nat → ∃ b, bs !! slot n k j' = Some b ∧ passed b = true) →
  table_ok n (<[slot n k j := Bucket k (Some x)]> bs) (<[k:=x]> m).
Proof.
  intros Ht Hk Hm Hb Hu Hs. pose proof (lookup_lt_Some _ _ _ Hb) as Hlt.
  assert (Hno : ∀ k' x', ¬ holds bs (slot n k j) k' x') by (unfold holds; intros k' x' H; rewrite Hb in H; by injection H as ->).
  assert (Hk' : ∀ i x', ¬ holds bs i k x') by (intros i x' H; assert (m !! k = Some x') by (apply (t_map _ _ _ Ht); eauto); congruence).
  split.
  - rewrite length_insert. apply Ht.
  - intros i k' x' [(-> & [= <- <-] & _)|[_ H]]%holds_insert; [done|by apply (t_keys _ _ _ Ht _ _ _ H)].
  - intros i k' [(_ & E & _)|[_ H]]%list_lookup_insert_Some; [done|by apply (t_empty _ _ _ Ht _ _ H)].
  - intros k' x'. rewrite lookup_insert_Some. setoid_rewrite holds_insert. rewrite (t_map _ _ _ Ht). split.
    + intros [[<- <-]|[Hne [i Hi]]]; [exists (slot n k j); tauto|]. exists i. right. split; [|done]. intros ->. by apply (Hno k' x').
    + intros [i [(-> & [= <- <-] & _)|[Hne Hi]]]; [by left|]. right. split; [|by exists i]. intros <-. by apply (Hk' i x').
  - intros i i' k' x1 x2 [(-> & [= <- <-] & _)|[Hi H]]%holds_insert [(-> & E & _)|[Hi' H']]%holds_insert; try done.
    + by apply Hk' in H'.
    + injection E as <- <-. by apply Hk' in H.
    + by apply (t_uniq _ _ _ Ht _ _ _ _ _ H H').
  - intros i k' x' [(-> & [= <- <-] & _)|[_ H]]%holds_insert.
    + exists j. split; [done|]. intros j' Hj'. apply passed_insert; [done|by apply Hs].
    + destruct (t_place _ _ _ Ht _ _ _ H) as (j0 & E & Hp). exists j0. split; [done|]. intros j' Hj'. apply passed_insert; [done|by apply Hp].
Qed.

(** Another value for the key of a slot *)
Lemma table_replace n bs m k x x0 i :
  table_ok n bs m → holds bs i k x0 → table_ok n (<[i := Bucket k (Some x)]> bs) (<[k:=x]> m).
Proof.
  intros Ht Hi. pose proof (lookup_lt_Some _ _ _ Hi) as Hlt. pose proof (t_keys _ _ _ Ht _ _ _ Hi) as Hk.
  assert (Huniq : ∀ i' x', holds bs i' k x' → i' = i) by (intros i' x' H; by apply (t_uniq _ _ _ Ht _ _ _ _ _ H Hi)).
  split.
  - rewrite length_insert. apply Ht.
  - intros i' k' x' [(-> & [= <- <-] & _)|[_ H]]%holds_insert; [done|by apply (t_keys _ _ _ Ht _ _ _ H)].
  - intros i' k' [(_ & E & _)|[_ H]]%list_lookup_insert_Some; [done|by apply (t_empty _ _ _ Ht _ _ H)].
  - intros k' x'. rewrite lookup_insert_Some. setoid_rewrite holds_insert. rewrite (t_map _ _ _ Ht). split.
    + intros [[<- <-]|[Hne [i' Hi']]]; [exists i; tauto|]. exists i'. right. split; [|done].
      intros ->. unfold holds in *. congruence.
    + intros [i' [(-> & [= <- <-] & _)|[Hne Hi']]]; [by left|]. right. split; [|by exists i'].
      intros <-. by apply Hne, (Huniq i' x').
  - intros i1 i2 k' x1 x2 [(-> & [= <- <-] & _)|[Hne1 H]]%holds_insert [(-> & E & _)|[Hne2 H']]%holds_insert; try done.
    + by apply Huniq in H'.
    + injection E as <- <-. by apply Huniq in H.
    + by apply (t_uniq _ _ _ Ht _ _ _ _ _ H H').
  - assert (H0 : ∀ i' k' x', holds bs i' k' x' → ∃ j, i' = slot n k' j ∧ ∀ j', (j' < j)%nat →
      ∃ b, <[i := Bucket k (Some x)]> bs !! slot n k' j' = Some b ∧ passed b = true).
    { intros i' k' x' H. destruct (t_place _ _ _ Ht _ _ _ H) as (j0 & E & Hp). exists j0. split; [done|].
      intros j' Hj'. apply passed_insert; [done|by apply Hp]. }
    intros i' k' x' [(-> & [= <- <-] & _)|[_ H]]%holds_insert; by eapply H0.
Qed.

(** A vacated slot *)
Lemma table_vacate n bs m k x i :
  table_ok n bs m → holds bs i k x → table_ok n (<[i := Bucket (-1) None]> bs) (delete k m).
Proof.
  intros Ht Hi. pose proof (lookup_lt_Some _ _ _ Hi) as Hlt.
  assert (Huniq : ∀ i' x', holds bs i' k x' → i' = i) by (intros i' x' H; by apply (t_uniq _ _ _ Ht _ _ _ _ _ H Hi)).
  split.
  - rewrite length_insert. apply Ht.
  - intros i' k' x' [(_ & E & _)|[_ H]]%holds_insert; [done|by apply (t_keys _ _ _ Ht _ _ _ H)].
  - intros i' k' [(_ & [= <-] & _)|[_ H]]%list_lookup_insert_Some; [by right|by apply (t_empty _ _ _ Ht _ _ H)].
  - intros k' x'. rewrite lookup_delete_Some. setoid_rewrite holds_insert. rewrite (t_map _ _ _ Ht). split.
    + intros [Hne [i' Hi']]. exists i'. right. split; [|done]. intros ->. unfold holds in *. congruence.
    + intros [i' [(_ & E & _)|[Hne Hi']]]; [done|]. split; [|by exists i']. intros <-. by apply Hne, (Huniq i' x').
  - intros i1 i2 k' x1 x2 [(_ & E & _)|[_ H]]%holds_insert [(_ & E' & _)|[_ H']]%holds_insert; try done.
    by apply (t_uniq _ _ _ Ht _ _ _ _ _ H H').
  - intros i' k' x' [(_ & E & _)|[_ H]]%holds_insert; [done|]. destruct (t_place _ _ _ Ht _ _ _ H) as (j0 & E & Hp).
    exists j0. split; [done|]. intros j' Hj'. apply passed_insert; [done|by apply Hp].
Qed.

Lemma table_fresh n : table_ok n (replicate (2 ^ n) (Bucket 0 None)) (∅ : gmap Z V).
Proof.
  assert (Hno : ∀ i k x, ¬ holds (replicate (2 ^ n) (Bucket 0 None)) i k x).
  { unfold holds. intros i k x [E _]%lookup_replicate. by injection E. }
  split.
  - apply length_replicate.
  - intros i k x H. by apply Hno in H.
  - intros i k [[= <-] _]%lookup_replicate. by left.
  - intros k x. rewrite lookup_empty. split; [done|]. intros [i H]. by apply Hno in H.
  - intros i i' k x x' H. by apply Hno in H.
  - intros i k x H. by apply Hno in H.
Qed.

(** Not every slot is in use. *)
Lemma table_not_full n bs m k :
  table_ok n bs m → (size m < 2 ^ n)%nat → ¬ (∀ j, (j < 2 ^ n)%nat → ∃ b, bs !! slot n k j = Some b ∧ is_used b = true).
Proof.
  intros Ht Hsz Hall. set (kf := λ j, match bs !! slot n k j with Some b => key b | None => 0 end).
  assert (Hkf : ∀ j, (j < 2 ^ n)%nat → ∃ x, holds bs (slot n k j) (kf j) x).
  { intros j Hj. destruct (Hall j Hj) as ([k' [x|]] & Hb & Hu); [|done]. exists x. unfold holds, kf. by rewrite Hb. }
  assert (Hsub : list_to_set (kf <$> seq 0 (2 ^ n)) ⊆ dom m).
  { intros k' Hk'. apply elem_of_list_to_set, list_elem_of_fmap in Hk' as (j & -> & Hj%elem_of_seq).
    destruct (Hkf j) as [x Hx]; [lia|]. apply elem_of_dom. exists x. apply (t_map _ _ _ Ht). eauto. }
  apply subseteq_size in Hsub. rewrite size_dom, size_list_to_set, length_fmap, length_seq in Hsub; [lia|].
  apply NoDup_fmap_2_strong; [|apply NoDup_seq]. intros j1 j2 H1%elem_of_seq H2%elem_of_seq E.
  destruct (Hkf j1) as [x1 Hx1]; [lia|]. destruct (Hkf j2) as [x2 Hx2]; [lia|]. rewrite E in Hx1.
  apply (slot_inj n k); [rewrite <- pow2_nat; lia..|]. by apply (t_uniq _ _ _ Ht _ _ _ _ _ Hx1 Hx2).
Qed.

(** ** Setting *)

Definition no_vacated bs : Prop := ∀ i b, bs !! i = Some b → is_used b = false → key b ≠ -1.

Definition with_bucket (i : nat) (b : bucket_t V) ht : rktio_hash_t V := Hash (<[i:=b]> <$> buckets ht) (ht_size ht) (count ht).

Lemma set_bucket_ok ht bs i b :
  buckets ht = Some bs → (i < length bs)%nat → set_bucket (Z.of_nat i) b ht = Ok tt (with_bucket i b ht).
Proof.
  intros Hb Hi. unfold set_bucket, with_bucket. rewrite Hb, Nat2Z.id.
  rewrite (proj2 (Z.leb_le 0 _)), (proj2 (Z.ltb_lt (Z.of_nat i) _)) by lia. done.
Qed.

Lemma set_loop_ok ht n bs m k x :
  (4 ≤ n ≤ 60)%nat → buckets ht = Some bs → table_ok n bs m → 0 ≤ k → (size m < 2 ^ n)%nat → m !! k = None ∨ no_vacated bs →
  ∀ f j, (j + f = 2 ^ n)%nat → (0 < f)%nat →
  (∀ j', (j' < j)%nat → ∃ b, bs !! slot n k j' = Some b ∧ is_used b = true ∧ key b ≠ k) →
  let r := set_loop f k x (2 ^ Z.of_nat n - 1) (stride k (2 ^ Z.of_nat n - 1)) (Z.of_nat (slot n k 0)) (Z.of_nat (slot n k j)) (-1) ht in
  (∃ i x0, holds bs i k x0 ∧ r = Ok None (with_bucket i (Bucket k (Some x)) ht))
  ∨ m !! k = None ∧ ∃ j b, bs !! slot n k j = Some b ∧ is_used b = false ∧ r = Ok (Some (Z.of_nat (slot n k j))) ht
      ∧ ∀ j', (j' < j)%nat → ∃ b, bs !! slot n k j' = Some b ∧ passed b = true.
Proof.
  intros Hn Hb Ht Hk Hsz Hv f. induction f as [|f IH]; intros j Hj Hf Hs; [lia|]. cbn zeta. cbn [set_loop].
  assert (Hs' : searched n bs k j).
  { intros j' Hj'. destruct (Hs j' Hj') as (b & Hb' & Hu & Hne). exists b. unfold passed. by rewrite Hu. }
  destruct (slot_bucket n bs m k j Ht) as [b Hslot]. step_ok (bucket_ok ht bs _ b Hb Hslot).
  destruct (is_used b) eqn:Hu.
  - destruct (Z.eqb_spec (key b) k) as [<-|E].
    + left. destruct b as [k [x0|]]; [|done]. exists (slot n k j), x0. split; [done|]. cbn [key].
      by step_ok (set_bucket_ok ht bs _ (Bucket k (Some x)) Hb (lookup_lt_Some _ _ _ Hslot)).
    + assert (key b ≠ -1).
      { destruct b as [k' [x0|]]; [|done]. cbn. pose proof (t_keys _ _ _ Ht _ _ _ Hslot). lia. }
      rewrite (proj2 (Z.eqb_neq (key b) (-1))) by done. cbn zeta. step_ok (next_ok ht n k j Hk Hn). cbn zeta.
      rewrite slot_S, at_start by lia.
      assert (HsS : ∀ j', (j' < S j)%nat → ∃ b, bs !! slot n k j' = Some b ∧ is_used b = true ∧ key b ≠ k).
      { intros j' Hj'. destruct (decide (j' = j)) as [->|]; [by exists b|]. apply Hs. lia. }
      case_bool_decide as Hend; [exfalso|apply IH; [lia|lia|done]].
      apply (table_not_full n bs m k Ht Hsz). rewrite <- Hend. intros j' Hj'. destruct (HsS j' Hj') as (b' & ? & ? & _). by exists b'.
  - right. split.
    + destruct Hv as [|Hv]; [done|]. destruct (Z.eqb_spec (key b) k) as [E|E].
      * rewrite <- (search_hit n bs m k j b) by done. unfold is_used in Hu. by destruct (v b).
      * apply (search_end n bs m k j b); [done..|]. unfold passed. rewrite Hu. apply Z.eqb_neq. by apply (Hv _ _ Hslot).
    + exists j, b. split; [done|]. split; [done|]. split; [done|]. intros j' Hj'.
      destruct (Hs' j' Hj') as (b' & ? & ? & _). by exists b'.
Qed.

Definition buckets_of ht : list (bucket_t V) := default [] (buckets ht).

(** A table that stands for [m], without regard to how full it is *)
Definition table_at n ht m : Prop :=
  (4 ≤ n ≤ 60)%nat ∧ ht_size ht = 2 ^ Z.of_nat n ∧ (∃ bs, buckets ht = Some bs ∧ table_ok n bs m) ∧ count ht = Z.of_nat (size m).

Lemma stands_table ht m n : stands_for ht m → ht_size ht = 2 ^ Z.of_nat n → table_at n ht m ∧ 2 * Z.of_nat (size m) < 2 ^ Z.of_nat n.
Proof.
  unfold stands_for, table_at. destruct (buckets ht) as [bs|]; [|lia].
  intros (n' & Hn & Hsz & Ht & Hc & Hl) Hsz'. rewrite Hsz in Hsz', Hl.
  assert (n' = n) as <- by (apply Nat2Z.inj, (Z.pow_inj_r 2); lia).
  split; [|lia]. split; [done|]. split; [done|]. split; [by exists bs|done].
Qed.

Lemma table_stands n ht m : table_at n ht m → 2 * Z.of_nat (size m) < 2 ^ Z.of_nat n → stands_for ht m.
Proof. intros (Hn & Hsz & (bs & Hb & Ht) & Hc) Hl. unfold stands_for. rewrite Hb. exists n. rewrite Hsz, Hc. done. Qed.

(** What [rktio_hash_set] does in a table with buckets *)
Lemma set_table fuel n ht m k x :
  table_at n ht m → 2 * Z.of_nat (size m) < 2 ^ Z.of_nat n → 0 ≤ k → m !! k = None ∨ no_vacated (buckets_of ht) →
  ∃ ht1, table_at n ht1 (<[k:=x]> m) ∧
    rktio_hash_set (S fuel) k x ht =
      if bool_decide (m !! k = None ∧ 2 ^ Z.of_nat n ≤ 2 * Z.of_nat (S (size m)))
      then (new_size <- signed (Z.shiftl (2 ^ Z.of_nat n) 1) ;; do_rehash fuel new_size) ht1
      else Ok tt ht1.
Proof.
  intros (Hn & Hsz & (bs & Hb & Ht) & Hc) Hl Hk Hv. unfold buckets_of in Hv. rewrite Hb in Hv. cbn [rktio_hash_set].
  assert (E : make_buckets ht = Ok tt ht) by (unfold make_buckets; by rewrite Hb). step_ok E.
  step_ok (eq_refl : get_ht ht = Ok ht ht). rewrite Hsz, Hb, slot_0. change (default [] (Some bs)) with bs. rewrite (t_len _ _ _ Ht). cbn zeta.
  assert (Hs : (size m < 2 ^ n)%nat) by (rewrite <- pow2_nat in Hl; lia).
  destruct (set_loop_ok ht n bs m k x Hn Hb Ht Hk Hs Hv (2 ^ n) 0) as [(i & x0 & Hi & Er)|(Hm & j & b & Hslot & Hu & Er & Hp)];
    [lia|pose proof (Nat.pow_nonzero 2 n); lia|intros; lia| |].
  - step_ok Er. assert (Hm : m !! k = Some x0) by (apply (t_map _ _ _ Ht); eauto). rewrite bool_decide_false by (rewrite Hm; naive_solver).
    exists (with_bucket i (Bucket k (Some x)) ht). split; [|done]. split; [done|]. split; [done|]. split.
    + exists (<[i := Bucket k (Some x)]> bs). split; [cbn; by rewrite Hb|]. by eapply table_replace.
    + cbn. rewrite Hc. f_equal. symmetry. by apply map_size_insert_Some.
  - step_ok Er. step_ok (set_bucket_ok ht bs _ (Bucket k (Some x)) Hb (lookup_lt_Some _ _ _ Hslot)).
    assert (H60 : 2 ^ Z.of_nat n ≤ 2 ^ 60) by (apply Z.pow_le_mono_r; lia).
    assert (Hc1 : Z.of_nat (size m) + 1 < 2 ^ 60) by (clear -Hl H60 Hn; lia).
    set (ht1 := with_bucket (slot n k j) (Bucket k (Some x)) ht). rewrite Hc.
    assert (Hs1 : in_s64 (Z.of_nat (size m) + 1) ∧ in_s64 (2 * (Z.of_nat (size m) + 1))) by (unfold in_s64; lia).
    step_ok (signed_ok _ ht1 (proj1 Hs1)).
    set (ht2 := Hash (buckets ht1) (ht_size ht1) (Z.of_nat (size m) + 1)).
    step_ok (eq_refl : set_count (Z.of_nat (size m) + 1) ht1 = Ok tt ht2).
    step_ok (signed_ok _ ht2 (proj2 Hs1)).
    exists ht2. split.
    + split; [done|]. split; [done|]. split.
      * exists (<[slot n k j := Bucket k (Some x)]> bs). split; [cbn; by rewrite Hb|]. by eapply table_fill.
      * cbn. rewrite map_size_insert_None by done. lia.
    + destruct (Z.leb_spec (2 ^ Z.of_nat n) (2 * (Z.of_nat (size m) + 1))) as [H|H].
      * by rewrite bool_decide_true by (split; [done|lia]).
      * by rewrite bool_decide_false by lia.
Qed.

(** ** Rehashing *)

(** The map of the buckets from the [i]-th on *)
Definition part bs (i : nat) m : Prop := ∀ k x, m !! k = Some x ↔ ∃ i', (i ≤ i')%nat ∧ holds bs i' k x.

Lemma rehash_loop_ok (set : Z → V → comp (rktio_hash_t V) Empty_set unit) (I : rktio_hash_t V → gmap Z V → Prop) n bs m :
  table_ok n bs m →
  (∀ ht m' k x, I ht m' → 0 ≤ k → m' !! k = None → m' ⊆ m → (size m' < size m)%nat → ∃ ht', set k x ht = Ok tt ht' ∧ I ht' (<[k:=x]> m')) →
  ∀ i ht m', (i ≤ 2 ^ n)%nat → part bs i m' → I ht m' → ∃ ht', rehash_loop set bs i ht = Ok tt ht' ∧ I ht' m.
Proof.
  intros Ht Hset i. induction i as [|i IH]; intros ht m' Hi Hpart HI.
  - exists ht. split; [done|]. replace m with m'; [done|]. apply map_eq. intros k. apply option_eq. intros x.
    rewrite (Hpart k x), (t_map _ _ _ Ht). split; intros [i Hx]; [exists i; tauto|exists i; split; [lia|done]].
  - cbn [rehash_loop]. assert (Hlt : is_Some (bs !! i)) by (apply lookup_lt_is_Some; rewrite (t_len _ _ _ Ht); lia). destruct Hlt as [[k o] Hb]. rewrite Hb. cbn [v key].
    destruct o as [x|].
    + assert (Hn : m' !! k = None).
      { destruct (m' !! k) as [x'|] eqn:E; [|done]. apply Hpart in E as (i' & Hi' & Hx').
        pose proof (t_uniq _ _ _ Ht _ _ _ _ _ Hx' Hb). lia. }
      assert (Hsub : m' ⊆ m).
      { apply map_subseteq_spec. intros k' x' (i' & _ & Hx')%Hpart. apply (t_map _ _ _ Ht). eauto. }
      assert (Hmk : m !! k = Some x) by (apply (t_map _ _ _ Ht); eauto).
      assert (Hlt' : (size m' < size m)%nat).
      { apply map_subset_size. apply map_subset_alt. split; [done|]. exists k. by rewrite Hn, Hmk. }
      destruct (Hset ht m' k x HI (t_keys _ _ _ Ht _ _ _ Hb) Hn Hsub Hlt') as (ht1 & E1 & HI1). step_ok E1.
      apply (IH ht1 (<[k:=x]> m')); [lia| |done]. intros k' x'. rewrite lookup_insert_Some, (Hpart k' x'). split.
      * intros [[<- <-]|[Hne (i' & Hi' & Hx')]]; [by exists i|]. exists i'. split; [lia|done].
      * intros (i' & Hi' & Hx'). destruct (decide (i' = i)) as [->|].
        -- left. unfold holds in Hx'. rewrite Hb in Hx'. by injection Hx' as <- <-.
        -- right. split; [|exists i'; split; [lia|done]]. intros <-. pose proof (t_uniq _ _ _ Ht _ _ _ _ _ Hx' Hb). lia.
    + step_ok (eq_refl : (ret tt : comp _ Empty_set unit) ht = Ok tt ht). apply (IH ht m'); [lia| |done].
      intros k' x'. rewrite (Hpart k' x'). split; intros (i' & Hi' & Hx'); [exists i'; split; [lia|done]|].
      exists i'. split; [|done]. destruct (decide (i' = i)) as [->|]; [|lia]. unfold holds in Hx'. by rewrite Hb in Hx'.
Qed.

Definition fresh (n : nat) : rktio_hash_t V := Hash (Some (replicate (2 ^ n) (Bucket 0 None))) (2 ^ Z.of_nat n) 0.

Lemma fresh_stands n : (4 ≤ n ≤ 60)%nat → stands_for (fresh n) ∅.
Proof.
  intros Hn. apply (table_stands n); [|rewrite map_size_empty; lia]. split; [done|]. split; [done|].
  split; [eexists; split; [done|apply table_fresh]|by rewrite map_size_empty].
Qed.

Lemma do_rehash_with_ok set (I : rktio_hash_t V → gmap Z V → Prop) n n' ht m :
  table_at n ht m → (4 ≤ n')%nat → I (fresh n') ∅ →
  (∀ ht m' k x, I ht m' → 0 ≤ k → m' !! k = None → m' ⊆ m → (size m' < size m)%nat → ∃ ht', set k x ht = Ok tt ht' ∧ I ht' (<[k:=x]> m')) →
  ∃ ht', do_rehash_with set (2 ^ Z.of_nat n') ht = Ok tt ht' ∧ I ht' m.
Proof.
  intros (Hn & Hsz & (bs & Hb & Ht) & Hc) Hn' HI Hset. unfold do_rehash_with.
  assert (16 ≤ 2 ^ Z.of_nat n') by (change 16 with (2 ^ 4); apply Z.pow_le_mono_r; lia).
  rewrite (proj2 (Z.leb_le 16 _)) by done. step_ok (eq_refl : get_ht ht = Ok ht ht).
  assert (E : Z.to_nat (2 ^ Z.of_nat n') = (2 ^ n')%nat) by (rewrite <- pow2_nat; lia).
  unfold bind at 1. rewrite E, Hb, Hsz. change (default [] (Some bs)) with bs.
  assert (E' : Z.to_nat (2 ^ Z.of_nat n) = (2 ^ n)%nat) by (rewrite <- pow2_nat; lia). rewrite E'.
  apply (rehash_loop_ok set I n bs m Ht Hset _ (fresh n') ∅); [done| |done].
  intros k x. rewrite lookup_empty. split; [done|]. intros (i & Hi & Hx). apply lookup_lt_Some in Hx. rewrite (t_len _ _ _ Ht) in Hx. lia.
Qed.

(** With room for all the keys, no further rehash happens on the way. *)
Lemma do_rehash_roomy fuel n n' ht m :
  table_at n ht m → (4 ≤ n' ≤ 60)%nat → 2 * Z.of_nat (size m) < 2 ^ Z.of_nat n' →
  ∃ ht', do_rehash (S fuel) (2 ^ Z.of_nat n') ht = Ok tt ht' ∧ stands_for ht' m.
Proof.
  intros Ht Hn' Hroom.
  destruct (do_rehash_with_ok (rktio_hash_set (S fuel)) (λ ht m', stands_for ht m' ∧ ht_size ht = 2 ^ Z.of_nat n') n n' ht m Ht)
    as (ht' & E & Hs & _); [lia|split; [by apply fresh_stands|done]| |by exists ht'].
  intros ht1 m' k x [Hs Hsz] Hk Hm' _ Hlt. destruct (stands_table _ _ _ Hs Hsz) as [Ht1 Hl1].
  destruct (set_table fuel n' ht1 m' k x Ht1 Hl1 Hk (or_introl Hm')) as (ht2 & Ht2 & E).
  rewrite bool_decide_false in E by lia. exists ht2. split; [done|]. split; [|apply Ht2].
  apply (table_stands n'); [done|]. rewrite map_size_insert_None by done. lia.
Qed.

Lemma set_no_buckets fuel k x ht :
  stands_for ht ∅ → buckets ht = None → rktio_hash_set fuel k x ht = rktio_hash_set fuel k x (fresh 4).
Proof.
  unfold stands_for. intros Hs Hb. rewrite Hb in Hs. destruct ht as [b s c]. cbn in *. destruct Hs as (-> & -> & _). subst b.
  destruct fuel as [|fuel]; [reflexivity|]. cbn [rktio_hash_set].
  assert (E1 : make_buckets (Hash None 0 0) = Ok tt (fresh 4)) by reflexivity.
  assert (E2 : make_buckets (fresh 4) = Ok tt (fresh 4)) by reflexivity.
  by rewrite (bind_ok _ _ _ _ _ E1), (bind_ok _ _ _ _ _ E2).
Qed.

Lemma hash_set_ok fuel ht m k x :
  stands_for ht m → 0 ≤ k → m !! k = None ∨ no_vacated (buckets_of ht) → Z.of_nat (size m) < 2 ^ 58 →
  ∃ ht', rktio_hash_set (S (S fuel)) k x ht = Ok tt ht' ∧ stands_for ht' (<[k:=x]> m).
Proof.
  intros Hs Hk Hv Hbound.
  assert (H : ∀ n ht, ht_size ht = 2 ^ Z.of_nat n → stands_for ht m → m !! k = None ∨ no_vacated (buckets_of ht) →
    ∃ ht', rktio_hash_set (S (S fuel)) k x ht = Ok tt ht' ∧ stands_for ht' (<[k:=x]> m)).
  { clear ht Hs Hv. intros n ht Hsz Hs Hv. destruct (stands_table _ _ _ Hs Hsz) as [Ht Hl].
    destruct (set_table (S fuel) n ht m k x Ht Hl Hk Hv) as (ht1 & Ht1 & E). rewrite E. destruct Ht as (Hn & _).
    case_bool_decide as Hc.
    - destruct Hc as [Hm Hfull].
      assert (Hn' : (S n ≤ 60)%nat).
      { destruct (decide (n = 60)%nat) as [->|]; [|lia]. change (2 ^ Z.of_nat 60) with (4 * 2 ^ 58) in Hfull. lia. }
      assert (Hsh : Z.shiftl (2 ^ Z.of_nat n) 1 = 2 ^ Z.of_nat (S n)) by (rewrite Z.shiftl_mul_pow2, Nat2Z.inj_succ, Z.pow_succ_r by lia; lia).
      rewrite Hsh. assert (2 ^ Z.of_nat (S n) ≤ 2 ^ 60) by (apply Z.pow_le_mono_r; lia).
      assert (Hin : in_s64 (2 ^ Z.of_nat (S n))) by (unfold in_s64; lia). step_ok (signed_ok _ ht1 Hin).
      apply (do_rehash_roomy fuel n (S n)); [done|lia|]. rewrite map_size_insert_None by done.
      assert (2 ^ 4 ≤ 2 ^ Z.of_nat n) by (apply Z.pow_le_mono_r; lia).
      rewrite (Nat2Z.inj_succ n), Z.pow_succ_r by lia. lia.
    - exists ht1. split; [done|]. apply (table_stands n); [done|]. destruct (m !! k) as [x0|] eqn:Hm.
      + by rewrite map_size_insert_Some by (rewrite Hm; eauto).
      + rewrite map_size_insert_None by done. destruct (decide (2 ^ Z.of_nat n ≤ 2 * Z.of_nat (S (size m)))); [|lia].
        exfalso. by apply Hc. }
  destruct (buckets ht) as [bs|] eqn:Hb.
  - pose proof Hs as Hs'. unfold stands_for in Hs'. rewrite Hb in Hs'. destruct Hs' as (n & _ & Hsz & _). by apply (H n).
  - assert (m = ∅) as -> by (unfold stands_for in Hs; rewrite Hb in Hs; tauto).
    rewrite (set_no_buckets _ k x ht Hs Hb). apply (H 4%nat); [done|apply fresh_stands; lia|left; apply lookup_empty].
Qed.

(** C33. Setting a key that is not there, or any key of a table without vacated
    slots, gives a table with that value for the key and no other change, for
    up to 2^58 keys: a free slot is always found, nothing overflows, and a
    rehash, when one is due, ends and keeps every value.  Calls two deep are
    enough. *)
Theorem rktio_hash_set_correct fuel ht m k x :
  stands_for ht m → 0 ≤ k → m !! k = None ∨ no_vacated (buckets_of ht) → Z.of_nat (size m) < 2 ^ 58 → (2 ≤ fuel)%nat →
  ∃ ht', rktio_hash_set fuel k x ht = Ok tt ht' ∧ stands_for ht' (<[k:=x]> m)
    ∧ (rktio_hash_is_empty ht' = false).
Proof.
  intros Hs Hk Hv Hb Hf. destruct fuel as [|[|fuel]]; [lia..|].
  destruct (hash_set_ok fuel ht m k x Hs Hk Hv Hb) as (ht' & E & Hs'). exists ht'. split; [done|]. split; [done|].
  unfold stands_for in Hs'. unfold rktio_hash_is_empty. apply Z.eqb_neq. destruct (buckets ht') as [bs|].
  - destruct Hs' as (n & _ & _ & _ & -> & _). destruct (m !! k) as [x0|] eqn:Hm.
    + rewrite map_size_insert_Some by (rewrite Hm; eauto). intros E0.
      assert (size m = 0%nat) as ->%map_size_empty_inv by lia. by rewrite lookup_empty in Hm.
    + rewrite map_size_insert_None by done. lia.
  - destruct Hs' as (_ & _ & E0). by apply insert_non_empty in E0.
Qed.

(** ** Removing *)

(** A search for a key that is not 0, or is there, ends at its slot or
    nowhere. *)
Lemma remove_loop_ok ht n bs m k :
  (4 ≤ n ≤ 60)%nat → buckets ht = Some bs → table_ok n bs m → 0 ≤ k → k ≠ 0 ∨ is_Some (m !! k) →
  ∀ f j, (j + f = 2 ^ n)%nat → (0 < f)%nat → searched n bs k j →
  let r := remove_loop f k (2 ^ Z.of_nat n - 1) (stride k (2 ^ Z.of_nat n - 1)) (Z.of_nat (slot n k 0)) (Z.of_nat (slot n k j)) ht in
  (m !! k = None ∧ r = Ok None ht) ∨ ∃ i x, holds bs i k x ∧ r = Ok (Some (Z.of_nat i)) ht.
Proof.
  intros Hn Hb Ht Hk H0 f. induction f as [|f IH]; intros j Hj Hf Hs; [lia|]. cbn zeta. cbn [remove_loop].
  destruct (slot_bucket n bs m k j Ht) as [b Hslot]. step_ok (bucket_ok ht bs _ b Hb Hslot).
  destruct (Z.eqb_spec (key b) k) as [E|E].
  - right. exists (slot n k j). pose proof (search_hit n bs m k j b Ht Hk Hs Hslot E) as Hv. destruct b as [k' [x|]]; cbn in E, Hv; subst k'.
    + by exists x.
    + destruct (t_empty _ _ _ Ht _ _ Hslot) as [->| ->]; [|lia]. rewrite <- Hv in H0. destruct H0 as [|[y Hy]]; done.
  - fold (passed b). destruct (passed b) eqn:Hp.
    + step_ok (next_ok ht n k j Hk Hn). cbn zeta. rewrite slot_S, at_start by lia.
      pose proof (searched_S _ _ _ _ _ Hs Hslot Hp E) as Hs'. case_bool_decide as Hend; [|apply IH; [lia|lia|done]].
      left. split; [|done]. apply (search_all n bs); [done|done|]. by rewrite <- Hend.
    + left. split; [|done]. by apply (search_end n bs m k j b).
Qed.

Lemma hash_remove_ok fuel ht m k dont_rehash :
  stands_for ht m → 0 ≤ k → k ≠ 0 ∨ is_Some (m !! k) →
  ∃ ht', rktio_hash_remove (S (S fuel)) k dont_rehash ht = Ok tt ht' ∧ stands_for ht' (delete k m).
Proof.
  intros Hs Hk H0. pose proof Hs as Hs'. unfold stands_for in Hs'. unfold rktio_hash_remove. step_ok (eq_refl : get_ht ht = Ok ht ht).
  destruct (buckets ht) as [bs|] eqn:Hb; [|exists ht; split; [done|]; destruct Hs' as (_ & _ & ->); by rewrite delete_empty].
  destruct Hs' as (n & Hn & Hsz & Ht & Hc & Hl). rewrite Hsz, slot_0, (t_len _ _ _ Ht).
  destruct (remove_loop_ok ht n bs m k Hn Hb Ht Hk H0 (2 ^ n) 0) as [[Hm Er]|(i & x & Hi & Er)];
    [lia|pose proof (Nat.pow_nonzero 2 n); lia|apply searched_0| |].
  - step_ok Er. exists ht. split; [done|]. by rewrite delete_id.
  - step_ok Er. step_ok (set_bucket_ok ht bs i (Bucket (-1) None) Hb (lookup_lt_Some _ _ _ Hi)).
    assert (Hm : is_Some (m !! k)) by (exists x; apply (t_map _ _ _ Ht); eauto).
    assert (Hpos : (0 < size m)%nat) by (destruct (size m) eqn:E; [apply map_size_empty_inv in E as ->; by destruct Hm|lia]).
    assert (Hdel : Z.of_nat (size (delete k m)) = Z.of_nat (size m) - 1) by (rewrite map_size_delete_Some by done; lia).
    assert (H60 : 2 ^ Z.of_nat n ≤ 2 ^ 60) by (apply Z.pow_le_mono_r; lia). rewrite Hsz, Hc in Hl. rewrite Hc.
    set (ht1 := with_bucket i (Bucket (-1) None) ht).
    assert (Hin : in_s64 (Z.of_nat (size m) - 1) ∧ in_s64 (4 * (Z.of_nat (size m) - 1))) by (unfold in_s64; lia).
    step_ok (signed_ok _ ht1 (proj1 Hin)). set (ht2 := Hash (buckets ht1) (ht_size ht1) (Z.of_nat (size m) - 1)).
    step_ok (eq_refl : set_count (Z.of_nat (size m) - 1) ht1 = Ok tt ht2).
    assert (Ht2 : table_at n ht2 (delete k m)).
    { split; [done|]. split; [done|]. split; [|cbn; lia]. exists (<[i := Bucket (-1) None]> bs).
      split; [cbn; by rewrite Hb|by eapply table_vacate]. }
    assert (Hs2 : stands_for ht2 (delete k m)) by (apply (table_stands n); [done|lia]).
    destruct dont_rehash; [by exists ht2|]. step_ok (signed_ok _ ht2 (proj2 Hin)).
    destruct (Z.leb_spec (4 * (Z.of_nat (size m) - 1)) (2 ^ Z.of_nat n)) as [Hq|Hq]; [|by exists ht2].
    destruct (decide (n = 4%nat)) as [->|Hn4]; [by exists ht2|]. destruct n as [|n]; [lia|].
    assert (Hsh : Z.shiftr (2 ^ Z.of_nat (S n)) 1 = 2 ^ Z.of_nat n).
    { rewrite Z.shiftr_div_pow2, Nat2Z.inj_succ, Z.pow_succ_r by lia. rewrite Z.mul_comm. by apply Z.div_mul. }
    rewrite Hsh. apply (do_rehash_with_ok _ stands_for (S n)); [done|lia|apply fresh_stands; lia|].
    intros ht3 m' k' x' Hs3 Hk' Hm' _ Hlt. apply hash_set_ok; [done|done|by left|].
    assert (2 ^ Z.of_nat (S n) ≤ 4 * 2 ^ 58) by (change (4 * 2 ^ 58) with (2 ^ 60); done). lia.
Qed.

(** C35. Removing a key leaves a table without it and with the other keys as
    they were, whether or not the buckets are rehashed; a key that is not there
    changes nothing.  The key 0 must be there: see [Findings]. *)
Theorem rktio_hash_remove_correct fuel ht m k dont_rehash :
  stands_for ht m → 0 ≤ k → k ≠ 0 ∨ is_Some (m !! k) → (2 ≤ fuel)%nat →
  ∃ ht', rktio_hash_remove fuel k dont_rehash ht = Ok tt ht' ∧ stands_for ht' (delete k m)
    ∧ (m !! k = None → stands_for ht' m).
Proof.
  intros Hs Hk H0 Hf. destruct fuel as [|[|fuel]]; [lia..|].
  destruct (hash_remove_ok fuel ht m k dont_rehash Hs Hk H0) as (ht' & E & Hs'). exists ht'. split; [done|]. split; [done|].
  intros Hm. by rewrite delete_id in Hs'.
Qed.

(** ** Freeing *)

Lemma free_loop_S i :
  free_loop (V := V) (S (S i)) =
    (b <- bucket (Z.of_nat (S i)) ;; xs <- free_loop (S i) ;; ret (match v b with Some x => x :: xs | None => xs end)).
Proof. reflexivity. Qed.

Lemma free_loop_ok ht bs n :
  buckets ht = Some bs → length bs = S n → free_loop (length bs) ht = Ok (omap v (reverse (drop 1 bs))) ht.
Proof.
  intros Hb Hlen. rewrite Hlen. assert (H : ∀ i, (i ≤ n)%nat → free_loop (S i) ht = Ok (omap v (reverse (take i (drop 1 bs)))) ht).
  { induction i as [|i IH]; intros Hi; [done|]. destruct (lookup_lt_is_Some_2 bs (S i)) as [b Hbi]; [lia|].
    rewrite free_loop_S. step_ok (bucket_ok ht bs (S i) b Hb Hbi).
    assert (Hi' : (i ≤ n)%nat) by lia. step_ok (IH Hi'). assert (Hd : drop 1 bs !! i = Some b) by (by rewrite lookup_drop).
    rewrite (take_S_r _ _ _ Hd), reverse_snoc. cbn. by destruct (v b). }
  rewrite (H n) by done. by rewrite take_ge by (rewrite length_drop; lia).
Qed.

(** What is freed with the table: the values of all buckets but the first *)
Theorem rktio_hash_free_values ht m n bs :
  stands_for ht m → buckets ht = Some bs → length bs = S n → rktio_hash_free true ht = Ok (omap v (reverse (drop 1 bs))) ht.
Proof.
  unfold stands_for, rktio_hash_free. intros Hs Hb Hlen. step_ok (eq_refl : get_ht ht = Ok ht ht). rewrite Hb in Hs |- *.
  destruct Hs as (n' & _ & Hsz & Ht & _). rewrite Hsz. replace (Z.to_nat (2 ^ Z.of_nat n')) with (length bs).
  - by apply (free_loop_ok ht bs n).
  - rewrite (t_len _ _ _ Ht), <- pow2_nat. lia.
Qed.

(** ** Hash codes of strings *)

Lemma hash_string_loop_range s k : in_u64 k → Forall (λ c, 0 ≤ c < 256) s → in_u64 (hash_string_loop s k).
Proof.
  intros Hk Hs. revert k Hk. induction Hs as [|c s Hc Hs IH]; intros k Hk; [done|]. cbn [hash_string_loop]. apply IH.
  set (a := to_u64 _). pose proof (to_u64_range (to_u64 (k + c) + to_u64 (Z.shiftl (to_u64 (k + c)) 10))) as Ha. fold a in Ha.
  unfold in_u64 in *. assert (Hb : 0 ≤ Z.shiftr a 6 < 2 ^ 64).
  { split; [apply Z.shiftr_nonneg; lia|]. rewrite Z.shiftr_div_pow2 by lia. apply Z.div_lt_upper_bound; lia. }
  split; [apply Z.lxor_nonneg; lia|]. destruct (decide (Z.lxor a (Z.shiftr a 6) = 0)) as [->|]; [lia|].
  assert (0 ≤ Z.lxor a (Z.shiftr a 6)) by (apply Z.lxor_nonneg; lia).
  apply Z.log2_lt_pow2; [lia|]. eapply Z.le_lt_trans; [apply Z.log2_lxor; lia|]. apply Z.max_lub_lt.
  - destruct (decide (a = 0)) as [->|]; [cbn; lia|]. apply Z.log2_lt_pow2; lia.
  - destruct (decide (Z.shiftr a 6 = 0)) as [->|]; [cbn; lia|]. apply Z.log2_lt_pow2; lia.
Qed.
End spec.

(** The hash code of a string is a key: not negative, and a signed word. *)
Theorem rktio_hash_string_is_key s : Forall (λ c, 0 ≤ c < 256) s → 0 ≤ rktio_hash_string s < 2 ^ 63.
Proof.
  intros Hs. unfold rktio_hash_string. assert (Hc : Forall (λ c, 0 ≤ c < 256) (c_str s)).
  { clear -Hs. induction Hs as [|c s Hc Hs IH]; [constructor|]. cbn. destruct (c =? 0); by constructor. }
  pose proof (hash_string_loop_range (c_str s) 0 ltac:(unfold in_u64; lia) Hc) as Hk. set (k := hash_string_loop (c_str s) 0) in *.
  pose proof (to_s64_range k) as Hs64. unfold in_s64, in_u64 in *. cbn zeta. destruct (Z.ltb_spec (to_s64 k) 0); [|lia].
  rewrite Z.shiftr_div_pow2 by lia. split; [apply Z.div_pos; lia|apply Z.div_lt_upper_bound; lia].
Qed.

(** ** Witnesses *)

Lemma new_stands : stands_for (rktio_hash_new : rktio_hash_t Z) ∅.
Proof. done. Qed.

(** Two keys with the same first slot, 3: the second one is at slot 6. *)
Definition one_key : rktio_hash_t Z := Hash (Some (<[3%nat := Bucket 3 (Some 30)]> (replicate 16 (Bucket 0 None)))) 16 1.
Definition two_keys : rktio_hash_t Z :=
  Hash (Some (<[6%nat := Bucket 19 (Some 190)]> (<[3%nat := Bucket 3 (Some 30)]> (replicate 16 (Bucket 0 None))))) 16 2.

Lemma one_key_stands : stands_for one_key {[3 := 30]}.
Proof.
  destruct (hash_set_ok 0 rktio_hash_new ∅ 3 30 new_stands) as (ht & E & H); [lia|by left|rewrite map_size_empty; lia|].
  assert (E' : rktio_hash_set 2 3 30 rktio_hash_new = Ok tt one_key) by (vm_compute; reflexivity). rewrite E in E'. by injection E' as ->.
Qed.

Lemma two_keys_stands : stands_for two_keys (<[19 := 190]> {[3 := 30]}).
Proof.
  destruct (hash_set_ok 0 one_key _ 19 190 one_key_stands) as (ht & E & H); [lia|by left|rewrite map_size_singleton; lia|].
  assert (E' : rktio_hash_set 2 19 190 one_key = Ok tt two_keys) by (vm_compute; reflexivity). rewrite E in E'. by injection E' as ->.
Qed.

Lemma rktio_hash_get_correct_witness :
  rktio_hash_get 19 two_keys = Ok (Some 190) two_keys ∧ rktio_hash_get 35 two_keys = Ok None two_keys.
Proof.
  split.
  - rewrite (rktio_hash_get_correct two_keys _ 19 two_keys_stands ltac:(lia)). by rewrite lookup_insert_eq.
  - rewrite (rktio_hash_get_correct two_keys _ 35 two_keys_stands ltac:(lia)). by rewrite lookup_insert_ne, lookup_singleton_ne.
Defined.

(** A key that is there, in a table without vacated slots *)
Lemma rktio_hash_set_correct_witness :
  ∃ ht, rktio_hash_set 2 19 191 two_keys = Ok tt ht ∧ stands_for ht (<[19 := 191]> (<[19 := 190]> {[3 := 30]})) ∧ rktio_hash_is_empty ht = false.
Proof.
  apply (rktio_hash_set_correct 2 two_keys _ 19 191 two_keys_stands).
  - lia.
  - right. intros i b Hb Hu. assert (H : forallb (λ b : bucket_t Z, is_used b || negb (key b =? -1)) (buckets_of two_keys) = true) by reflexivity.
    rewrite List.forallb_forall in H. specialize (H b (proj1 (list_elem_of_In _ _) (list_elem_of_lookup_2 _ _ _ Hb))). rewrite Hu in H. cbn in H. lia.
  - rewrite map_size_insert_None by done. rewrite map_size_singleton. lia.
  - lia.
Defined.

Lemma rktio_hash_remove_correct_witness :
  ∃ ht, rktio_hash_remove 2 3 false two_keys = Ok tt ht ∧ stands_for ht (delete 3 (<[19 := 190]> {[3 := 30]})).
Proof.
  destruct (rktio_hash_remove_correct 2 two_keys _ 3 false two_keys_stands) as (ht & E & H & _); [lia|by left|lia|]. by exists ht.
Defined.
