(* ===== verification/RktioEnvvarsSpec.v ===== *)
(** * What the sets of environment variables hold

    A set owns its strings: they are all different, and what else is allocated
    is not touched. *)

From S2P Require Import Prelude RktioEnvvars.

Definition mem_wf (s : memory) : Prop := ∀ p, is_Some (strs s !! p) → p < next s.

(** The arrays [nm] and [vl] start with the pointers [ps] and [qs], to strings
    with the bytes [ns] and [vs]; the rest of the memory is [F]. *)
Record owns (F : gmap Z (list Z)) (s : memory) (nm vl : list (option Z)) (ps qs : list Z) (ns vs : list (list Z)) : Prop := {
  o_nm : ∃ tl, nm = (Some <$> ps) ++ tl;
  o_vl : ∃ tl, vl = (Some <$> qs) ++ tl;
  o_ps : Forall2 (λ p b, strs s !! p = Some b) ps ns;
  o_qs : Forall2 (λ q b, strs s !! q = Some b) qs vs;
  o_nodup : NoDup (ps ++ qs);
  o_frame p : p ∉ ps ++ qs → strs s !! p = F !! p;
  o_disj p : p ∈ ps ++ qs → F !! p = None;
  o_wf : mem_wf s }.

(** The set has these entries, in this order. *)
Definition env_has F s (ev : rktio_envvars_t) (l : list (list Z * list Z)) : Prop :=
  ∃ ps qs, owns F s (names ev) (vals ev) ps qs l.*1 l.*2
    ∧ e_count ev = Z.of_nat (length l)
    ∧ e_size ev = Z.of_nat (length (names ev)) ∧ e_size ev = Z.of_nat (length (vals ev)).

(** The first entry with a name *)
Fixpoint env_ref (n : list Z) (l : list (list Z * list Z)) : option (list Z) :=
  match l with
  | [] => None
  | (n', x) :: l' => if decide (n' = n) then Some x else env_ref n l'
  end.

(** ** Steps *)

Lemma cell_ptr_ok (a : list (option Z)) ps tl i p s :
  a = (Some <$> ps) ++ tl → ps !! i = Some p → cell_ptr a (Z.of_nat i) s = Ok p s.
Proof.
  intros -> Hp. unfold cell_ptr. assert (E : cell ((Some <$> ps) ++ tl) (Z.of_nat i) s = Ok (Some p) s).
  { unfold cell. rewrite (proj2 (Z.ltb_ge _ 0)), Nat2Z.id by lia.
    by rewrite lookup_app_l, list_lookup_fmap, Hp by (rewrite length_fmap; by eapply lookup_lt_Some). }
  by step_ok E.
Qed.

Lemma str_ok p b s : strs s !! p = Some b → str p s = Ok b s.
Proof. unfold str. by intros ->. Qed.

Lemma set_cell_ok a i c s : (i < length a)%nat → set_cell a (Z.of_nat i) c s = Ok (<[i:=c]> a) s.
Proof.
  intros Hi. unfold set_cell. rewrite (proj2 (Z.leb_le 0 _)), (proj2 (Z.ltb_lt (Z.of_nat i) _)), Nat2Z.id by lia. done.
Qed.

Lemma set_name_at_ok ev i p s :
  (i < length (names ev))%nat → set_name_at ev (Z.of_nat i) p s = Ok (set_names (<[i := Some p]> (names ev)) ev) s.
Proof. intros Hi. unfold set_name_at. by step_ok (set_cell_ok (names ev) i (Some p) s Hi). Qed.

Lemma set_val_at_ok ev i p s :
  (i < length (vals ev))%nat → set_val_at ev (Z.of_nat i) p s = Ok (set_vals (<[i := Some p]> (vals ev)) ev) s.
Proof. intros Hi. unfold set_val_at. by step_ok (set_cell_ok (vals ev) i (Some p) s Hi). Qed.

(** The memory with another string *)
Definition plus_string (b : list Z) (s : memory) : memory := Memory (<[next s := b]> (strs s)) (next s + 1).

Lemma plus_string_wf b s : mem_wf s → mem_wf (plus_string b s).
Proof.
  intros Hwf p. cbn. destruct (decide (p = next s)) as [->|Hne]; [lia|]. rewrite lookup_insert_ne by done.
  intros H%Hwf. lia.
Qed.

Lemma next_free s : mem_wf s → strs s !! next s = None.
Proof. intros Hwf. destruct (strs s !! next s) eqn:E; [|done]. assert (next s < next s) by (apply Hwf; eauto). lia. Qed.

Lemma owned_lt F s nm vl ps qs ns vs p : owns F s nm vl ps qs ns vs → p ∈ ps ++ qs → p < next s.
Proof.
  intros Ho [Hp|Hp]%elem_of_app; apply (o_wf _ _ _ _ _ _ _ _ Ho); apply list_elem_of_lookup in Hp as [i Hi].
  - destruct (Forall2_lookup_l _ _ _ _ _ (o_ps _ _ _ _ _ _ _ _ Ho) Hi) as (b & _ & Hb). eauto.
  - destruct (Forall2_lookup_l _ _ _ _ _ (o_qs _ _ _ _ _ _ _ _ Ho) Hi) as (b & _ & Hb). eauto.
Qed.

Lemma insert_end (ps : list Z) tl p : (0 < length tl)%nat → ∃ tl', <[length ps := Some p]> ((Some <$> ps) ++ tl) = (Some <$> (ps ++ [p])) ++ tl'.
Proof.
  intros Htl. destruct tl as [|c tl]; [cbn in Htl; lia|]. exists tl.
  rewrite insert_app_r_alt, length_fmap, Nat.sub_diag by (by rewrite length_fmap). cbn. by rewrite fmap_app, <- app_assoc.
Qed.

Lemma strings_plus s b ps bs :
  mem_wf s → Forall2 (λ p b, strs s !! p = Some b) ps bs → Forall2 (λ p b', strs (plus_string b s) !! p = Some b') ps bs.
Proof.
  intros Hwf H. eapply Forall2_impl; [exact H|]. cbn. intros p b' Hp. rewrite lookup_insert_ne; [done|].
  intros <-. by rewrite next_free in Hp.
Qed.

Lemma push_name F s nm vl ps qs ns vs b :
  owns F s nm vl ps qs ns vs → (length ps < length nm)%nat →
  owns F (plus_string b s) (<[length ps := Some (next s)]> nm) vl (ps ++ [next s]) qs (ns ++ [b]) vs.
Proof.
  intros Ho Hlt. pose proof (o_wf _ _ _ _ _ _ _ _ Ho) as Hwf.
  assert (Hnew : next s ∉ ps ++ qs) by (intros H; pose proof (owned_lt _ _ _ _ _ _ _ _ _ Ho H); lia).
  assert (HF : F !! next s = None) by (rewrite <- (o_frame _ _ _ _ _ _ _ _ Ho _ Hnew); by apply next_free).
  destruct Ho as [[tl ->] Hvl Hps Hqs Hnd Hfr Hdj _]. rewrite length_app, length_fmap in Hlt. split.
  - apply insert_end. lia.
  - done.
  - apply Forall2_app; [by apply strings_plus|]. constructor; [|constructor]. cbn. by rewrite lookup_insert_eq.
  - by apply strings_plus.
  - rewrite <- app_assoc, (app_assoc ps), (Permutation_app_comm ps [next s]), <- app_assoc. cbn. by constructor.
  - intros p Hp. cbn. rewrite lookup_insert_ne by set_solver. apply Hfr. set_solver.
  - intros p Hp. destruct (decide (p = next s)) as [->|]; [done|]. apply Hdj. set_solver.
  - by apply plus_string_wf.
Qed.

Lemma push_val F s nm vl ps qs ns vs b :
  owns F s nm vl ps qs ns vs → (length qs < length vl)%nat →
  owns F (plus_string b s) nm (<[length qs := Some (next s)]> vl) ps (qs ++ [next s]) ns (vs ++ [b]).
Proof.
  intros Ho Hlt. pose proof (o_wf _ _ _ _ _ _ _ _ Ho) as Hwf.
  assert (Hnew : next s ∉ ps ++ qs) by (intros H; pose proof (owned_lt _ _ _ _ _ _ _ _ _ Ho H); lia).
  assert (HF : F !! next s = None) by (rewrite <- (o_frame _ _ _ _ _ _ _ _ Ho _ Hnew); by apply next_free).
  destruct Ho as [Hnm [tl ->] Hps Hqs Hnd Hfr Hdj _]. rewrite length_app, length_fmap in Hlt. split.
  - done.
  - apply insert_end. lia.
  - by apply strings_plus.
  - apply Forall2_app; [by apply strings_plus|]. constructor; [|constructor]. cbn. by rewrite lookup_insert_eq.
  - rewrite app_assoc, (Permutation_app_comm (ps ++ qs)). cbn. by constructor.
  - intros p Hp. cbn. rewrite lookup_insert_ne by set_solver. apply Hfr. set_solver.
  - intros p Hp. destruct (decide (p = next s)) as [->|]; [done|]. apply Hdj. set_solver.
  - by apply plus_string_wf.
Qed.

Lemma owns_nothing s n : mem_wf s → owns (strs s) s (malloc_array n) (malloc_array n) [] [] [] [].
Proof. intros Hwf. split; try done; try (by eexists); [constructor|]. by intros p []%not_elem_of_nil. Qed.

(** ** Reading *)

Lemma name_read F s nm vl ps qs ns vs i b :
  owns F s nm vl ps qs ns vs → ns !! i = Some b → ∃ p, ps !! i = Some p ∧ cell_ptr nm (Z.of_nat i) s = Ok p s ∧ str p s = Ok b s.
Proof.
  intros Ho Hb. destruct (Forall2_lookup_r _ _ _ _ _ (o_ps _ _ _ _ _ _ _ _ Ho) Hb) as (p & Hp & Hs).
  destruct (o_nm _ _ _ _ _ _ _ _ Ho) as [tl E]. exists p. split; [done|]. split; [by eapply cell_ptr_ok|by apply str_ok].
Qed.

Lemma val_read F s nm vl ps qs ns vs i b :
  owns F s nm vl ps qs ns vs → vs !! i = Some b → ∃ q, qs !! i = Some q ∧ cell_ptr vl (Z.of_nat i) s = Ok q s ∧ str q s = Ok b s.
Proof.
  intros Ho Hb. destruct (Forall2_lookup_r _ _ _ _ _ (o_qs _ _ _ _ _ _ _ _ Ho) Hb) as (q & Hq & Hs).
  destruct (o_vl _ _ _ _ _ _ _ _ Ho) as [tl E]. exists q. split; [done|]. split; [by eapply cell_ptr_ok|by apply str_ok].
Qed.

(** A string of the caller *)
Lemma owns_plus F s nm vl ps qs ns vs b :
  owns F s nm vl ps qs ns vs → owns (<[next s := b]> F) (plus_string b s) nm vl ps qs ns vs.
Proof.
  intros Ho. pose proof (o_wf _ _ _ _ _ _ _ _ Ho) as Hwf.
  assert (Hnew : next s ∉ ps ++ qs) by (intros H; pose proof (owned_lt _ _ _ _ _ _ _ _ _ Ho H); lia).
  destruct Ho as [Hnm Hvl Hps Hqs Hnd Hfr Hdj _]. split; [done|done|by apply strings_plus|by apply strings_plus|done| | |by apply plus_string_wf].
  - intros p Hp. cbn. destruct (decide (p = next s)) as [->|]; [by rewrite !lookup_insert_eq|]. rewrite !lookup_insert_ne by done. by apply Hfr.
  - intros p Hp. rewrite lookup_insert_ne; [by apply Hdj|]. by intros <-.
Qed.

Lemma entry_lookup (l : list (list Z * list Z)) i e : l !! i = Some e → l.*1 !! i = Some e.1 ∧ l.*2 !! i = Some e.2.
Proof. intros H. by rewrite !list_lookup_fmap, H. Qed.

Lemma drop_cons {A} (l : list A) i e : l !! i = Some e → drop i l = e :: drop (S i) l.
Proof. apply drop_S. Qed.

Lemma envvars_get_loop_ok F s ev ps qs l name :
  owns F s (names ev) (vals ev) ps qs l.*1 l.*2 → ∀ n i, (i + n = length l)%nat →
  envvars_get_loop n (Z.of_nat i) ev name s =
    match env_ref name (drop i l) with Some x => Ok (Some (next s)) (plus_string x s) | None => Ok None s end.
Proof.
  intros Ho n. induction n as [|n IH]; intros i Hi; cbn [envvars_get_loop]; [by rewrite drop_ge by lia|].
  destruct (lookup_lt_is_Some_2 l i) as [[a x] He]; [lia|]. destruct (entry_lookup _ _ _ He) as [Ha Hx]. rewrite (drop_cons _ _ _ He).
  destruct (name_read _ _ _ _ _ _ _ _ _ _ Ho Ha) as (p & _ & E1 & E2). step_ok E1. step_ok E2. cbn [fst snd env_ref] in *.
  destruct (decide (a = name)) as [->|Hne].
  - destruct (val_read _ _ _ _ _ _ _ _ _ _ Ho Hx) as (q & _ & E3 & E4). step_ok E3. step_ok E4. done.
  - replace (Z.of_nat i + 1) with (Z.of_nat (S i)) by lia. apply IH. lia.
Qed.

(** C38. Looking a name up gives a new copy of the value of the first entry with
    this name, or null when there is none; the set and the rest of the memory
    are as they were. *)
Theorem rktio_envvars_get_correct F s ev l name :
  env_has F s ev l →
  match env_ref name l with
  | Some x => ∃ p s', rktio_envvars_get ev name s = Ok (Some p) s' ∧ strs s !! p = None ∧ strs s' !! p = Some x
      ∧ env_has (<[p := x]> F) s' ev l
  | None => rktio_envvars_get ev name s = Ok None s
  end.
Proof.
  intros (ps & qs & Ho & Hc & Hn & Hv). unfold rktio_envvars_get. rewrite Hc, Nat2Z.id.
  pose proof (envvars_get_loop_ok F s ev ps qs l name Ho (length l) 0 eq_refl) as E. rewrite drop_0 in E.
  destruct (env_ref name l) as [x|]; [|exact E]. exists (next s), (plus_string x s). split; [exact E|].
  split; [apply next_free, (o_wf _ _ _ _ _ _ _ _ Ho)|]. split; [cbn; by rewrite lookup_insert_eq|].
  exists ps, qs. split; [by apply owns_plus|done].
Qed.

(** ** Freeing *)

Lemma free_entries_ok F s ev ps qs ns vs :
  owns F s (names ev) (vals ev) ps qs ns vs → length ps = length qs → ∀ n i s1, (i + n = length ps)%nat →
  (∀ p, strs s1 !! p = if decide (p ∈ take i ps ++ take i qs) then None else strs s !! p) → next s1 = next s →
  ∃ s2, free_entries n (Z.of_nat i) ev s1 = Ok tt s2 ∧ next s2 = next s
    ∧ ∀ p, strs s2 !! p = if decide (p ∈ ps ++ qs) then None else strs s !! p.
Proof.
  intros Ho Hlen n. induction n as [|n IH]; intros i s1 Hi Hs1 Hnx.
  - exists s1. split; [done|]. split; [done|]. intros p. rewrite Hs1, !take_ge by lia. done.
  - cbn [free_entries]. destruct (lookup_lt_is_Some_2 ps i) as [p Hp]; [lia|]. destruct (lookup_lt_is_Some_2 qs i) as [q Hq]; [lia|].
    destruct (o_nm _ _ _ _ _ _ _ _ Ho) as [tl1 En]. destruct (o_vl _ _ _ _ _ _ _ _ Ho) as [tl2 Ev].
    pose proof (o_nodup _ _ _ _ _ _ _ _ Ho) as Hnd. apply NoDup_app in Hnd as (Hndp & Hdis & Hndq).
    assert (Hpq : p ≠ q) by (intros <-; apply (Hdis p); by eapply list_elem_of_lookup_2).
    assert (Hnt : ∀ (xs : list Z) x, NoDup xs → xs !! i = Some x → x ∉ take i xs).
    { intros xs x Hx Hxi Hin. apply list_elem_of_lookup in Hin as [j [Hj Hlt]%lookup_take_Some]. pose proof (NoDup_lookup _ _ _ _ Hx Hxi Hj). lia. }
    destruct (Forall2_lookup_l _ _ _ _ _ (o_ps _ _ _ _ _ _ _ _ Ho) Hp) as (a & _ & Ha).
    destruct (Forall2_lookup_l _ _ _ _ _ (o_qs _ _ _ _ _ _ _ _ Ho) Hq) as (x & _ & Hx).
    assert (Hp1 : strs s1 !! p = Some a).
    { rewrite Hs1, decide_False; [done|]. intros [H|H]%elem_of_app; [by apply (Hnt ps p)|].
      apply (Hdis p); [by eapply list_elem_of_lookup_2|by eapply subseteq_take]. }
    assert (Hq1 : strs s1 !! q = Some x).
    { rewrite Hs1, decide_False; [done|]. intros [H|H]%elem_of_app; [|by apply (Hnt qs q)].
      apply (Hdis q); [by eapply subseteq_take|by eapply list_elem_of_lookup_2]. }
    step_ok (cell_ptr_ok (names ev) ps tl1 i p s1 En Hp).
    set (s1' := Memory (delete p (strs s1)) (next s1)). assert (Ef : free p s1 = Ok tt s1') by (unfold free; by rewrite Hp1). step_ok Ef.
    step_ok (cell_ptr_ok (vals ev) qs tl2 i q s1' Ev Hq).
    set (s1'' := Memory (delete q (strs s1')) (next s1)).
    assert (Ef2 : free q s1' = Ok tt s1'') by (unfold free; cbn; by rewrite lookup_delete_ne, Hq1 by done). step_ok Ef2.
    replace (Z.of_nat i + 1) with (Z.of_nat (S i)) by lia. apply IH; [lia| |done].
    intros p'. cbn. rewrite (take_S_r _ _ _ Hp), (take_S_r _ _ _ Hq). rewrite lookup_delete.
    destruct (decide (q = p')) as [<-|Hq']; [rewrite decide_True; [done|set_solver]|]. rewrite lookup_delete.
    destruct (decide (p = p')) as [<-|Hp']; [rewrite decide_True; [done|set_solver]|]. rewrite Hs1. apply decide_ext. set_solver.
Qed.

Lemma envvars_free_ok F s ev l :
  env_has F s ev l → ∃ s', rktio_envvars_free ev s = Ok tt s' ∧ strs s' = F.
Proof.
  intros (ps & qs & Ho & Hc & _). pose proof (Forall2_length _ _ _ (o_ps _ _ _ _ _ _ _ _ Ho)) as Hp.
  pose proof (Forall2_length _ _ _ (o_qs _ _ _ _ _ _ _ _ Ho)) as Hq. rewrite length_fmap in Hp, Hq.
  unfold rktio_envvars_free. rewrite Hc, Nat2Z.id.
  destruct (free_entries_ok F s ev ps qs _ _ Ho ltac:(congruence) (length l) 0 s) as (s' & E & _ & Hs'); [lia|done|done|].
  exists s'. split; [exact E|]. apply map_eq. intros p. rewrite Hs'. case_decide as Hin.
  - symmetry. by apply (o_disj _ _ _ _ _ _ _ _ Ho).
  - by apply (o_frame _ _ _ _ _ _ _ _ Ho).
Qed.

(** ** Adding an entry *)

(** Two strings in the next cells *)
Lemma push_entry F s ev ps qs ns vs a b :
  owns F s (names ev) (vals ev) ps qs ns vs → length ps = length qs → (length ps < length (names ev))%nat → (length ps < length (vals ev))%nat →
  let i := Z.of_nat (length ps) in
  let s1 := plus_string a s in
  let ev1 := set_names (<[length ps := Some (next s)]> (names ev)) ev in
  let s2 := plus_string b s1 in
  let ev2 := set_vals (<[length ps := Some (next s1)]> (vals ev)) ev1 in
  strdup a s = Ok (next s) s1 ∧ set_name_at ev i (next s) s1 = Ok ev1 s1
  ∧ strdup b s1 = Ok (next s1) s2 ∧ set_val_at ev1 i (next s1) s2 = Ok ev2 s2
  ∧ owns F s2 (names ev2) (vals ev2) (ps ++ [next s]) (qs ++ [next s1]) (ns ++ [a]) (vs ++ [b])
  ∧ length (names ev2) = length (names ev) ∧ length (vals ev2) = length (vals ev).
Proof.
  intros Ho Hlen Hn Hv. cbn zeta. split; [done|]. split; [by apply set_name_at_ok|]. split; [done|]. split; [exact (set_val_at_ok (set_names _ ev) _ _ _ Hv)|].
  cbn [names vals set_names set_vals]. rewrite !length_insert. split; [|done]. rewrite Hlen.
  apply (push_val F (plus_string a s) _ (vals ev)); [|lia]. rewrite <- Hlen. by apply push_name.
Qed.

Lemma copy_cells_ok (a : list (option Z)) ps tl n s :
  a = (Some <$> ps) ++ tl → (length ps ≤ n)%nat →
  ∃ tl', copy_cells (malloc_array (Z.of_nat n)) a (Z.of_nat (length ps)) s = Ok ((Some <$> ps) ++ tl') s
    ∧ length ((Some <$> ps) ++ tl') = n.
Proof.
  intros -> Hn. unfold copy_cells, malloc_array. rewrite !Nat2Z.id, length_replicate, length_app, length_fmap.
  rewrite !(proj2 (Z.leb_le _ _)) by lia. cbn [andb]. rewrite take_app_le, take_ge by (rewrite length_fmap; lia).
  eexists. split; [done|]. rewrite length_app, length_fmap, length_drop, length_replicate. lia.
Qed.

Lemma envvars_resize_ok F s ev ps qs ns vs n :
  owns F s (names ev) (vals ev) ps qs ns vs → length ps = length qs → e_count ev = Z.of_nat (length ps) → (length ps ≤ n)%nat →
  ∃ ev', envvars_resize ev (Z.of_nat n) s = Ok ev' s ∧ owns F s (names ev') (vals ev') ps qs ns vs
    ∧ e_count ev' = e_count ev ∧ e_size ev' = Z.of_nat n ∧ length (names ev') = n ∧ length (vals ev') = n.
Proof.
  intros Ho Hlen Hc Hn. destruct (o_nm _ _ _ _ _ _ _ _ Ho) as [tl1 En]. destruct (o_vl _ _ _ _ _ _ _ _ Ho) as [tl2 Ev].
  destruct (copy_cells_ok _ _ _ n s En Hn) as (tl1' & E1 & L1). rewrite Hlen in Hn. destruct (copy_cells_ok _ _ _ n s Ev Hn) as (tl2' & E2 & L2).
  unfold envvars_resize. rewrite Hc. step_ok E1. rewrite Hlen. step_ok E2. eexists. split; [done|]. cbn [names vals e_count e_size].
  split; [|done]. destruct Ho as [_ _ H1 H2 H3 H4 H5 H6]. split; [by eexists|by eexists|done..].
Qed.

(** ** Setting *)

(** Each entry with the name has the value. *)
Definition updated (name x : list Z) (l : list (list Z * list Z)) : list (list Z * list Z) :=
  (λ e, if decide (e.1 = name) then (e.1, x) else e) <$> l.

Lemma updated_names name x l : (updated name x l).*1 = l.*1.
Proof. unfold updated. rewrite <- list_fmap_compose. apply list_fmap_ext. intros i [a b] _. cbn. by case_decide. Qed.

Lemma updated_val name x l i e :
  l !! i = Some e → (updated name x l).*2 !! i = Some (if decide (e.1 = name) then x else e.2).
Proof. intros He. unfold updated. rewrite !list_lookup_fmap, He. cbn. by case_decide. Qed.

Lemma length_updated name x l : length (updated name x l) = length l.
Proof. apply length_fmap. Qed.

Lemma updated_absent name x l : env_ref name l = None → updated name x l = l.
Proof.
  induction l as [|[a b] l IH]; [done|]. cbn [env_ref]. case_decide as Ha; [done|]. intros H.
  change (updated name x ((a, b) :: l)) with ((if decide (a = name) then (a, x) else (a, b)) :: updated name x l).
  by rewrite decide_False, IH.
Qed.

Lemma env_ref_set name x l n :
  env_ref n (updated name x l ++ [(name, x)]) = if decide (n = name) then Some x else env_ref n l.
Proof.
  induction l as [|[a b] l IH]; [cbn; repeat case_decide; congruence|].
  change (updated name x ((a, b) :: l)) with ((if decide (a = name) then (a, x) else (a, b)) :: updated name x l).
  destruct (decide (a = name)) as [->|Ha]; cbn [env_ref app].
  - destruct (decide (name = n)) as [->|Hne]; [by rewrite decide_True|]. rewrite IH. by rewrite !decide_False by congruence.
  - destruct (decide (a = n)) as [->|Hne]; [by rewrite decide_False|]. exact IH.
Qed.

Lemma NoDup_insert_fresh (xs : list Z) i x : NoDup xs → x ∉ xs → NoDup (<[i := x]> xs).
Proof.
  intros Hnd Hx. apply NoDup_alt. intros j k y Hj Hk.
  apply list_lookup_insert_Some in Hj as [(-> & <- & _)|[Hj Hj']]; apply list_lookup_insert_Some in Hk as [(-> & E & _)|[Hk Hk']]; try done.
  - exfalso. apply Hx. by eapply list_elem_of_lookup_2.
  - exfalso. apply Hx. rewrite E. by eapply list_elem_of_lookup_2.
  - by apply (NoDup_lookup _ _ _ _ Hnd Hj' Hk').
Qed.

(** Another string for a value: the old one is freed. *)
Lemma replace_val F s nm vl ps qs ns vs i q x :
  owns F s nm vl ps qs ns vs → qs !! i = Some q →
  ∃ s1, free q s = Ok tt s1 ∧ strdup x s1 = Ok (next s1) (plus_string x s1)
    ∧ owns F (plus_string x s1) nm (<[i := Some (next s1)]> vl) ps (<[i := next s1]> qs) ns (<[i := x]> vs).
Proof.
  intros Ho Hq. pose proof (o_wf _ _ _ _ _ _ _ _ Ho) as Hwf.
  destruct (Forall2_lookup_l _ _ _ _ _ (o_qs _ _ _ _ _ _ _ _ Ho) Hq) as (b & Hb & Hs).
  exists (Memory (delete q (strs s)) (next s)). split; [unfold free; by rewrite Hs|]. split; [done|]. cbn [next].
  assert (Hnew : next s ∉ ps ++ qs) by (intros H; pose proof (owned_lt _ _ _ _ _ _ _ _ _ Ho H); lia).
  assert (HF : F !! next s = None) by (rewrite <- (o_frame _ _ _ _ _ _ _ _ Ho _ Hnew); by apply next_free).
  assert (Hi : (i < length qs)%nat) by (by eapply lookup_lt_Some).
  destruct Ho as [Hnm [tl ->] Hps Hqs Hnd Hfr Hdj _]. apply NoDup_app in Hnd as (Hndp & Hdis & Hndq).
  assert (Hin : q ∈ qs) by (by eapply list_elem_of_lookup_2).
  assert (Hqs' : ∀ p, p ∈ <[i := next s]> qs ↔ p = next s ∨ (p ∈ qs ∧ p ≠ q)).
  { intros p. rewrite !list_elem_of_lookup. split.
    - intros [j Hj]. apply list_lookup_insert_Some in Hj as [(_ & <- & _)|[Hne Hj]]; [by left|]. right. split; [by exists j|].
      intros ->. by apply Hne, (NoDup_lookup _ _ _ _ Hndq Hq Hj).
    - intros [->|[[j Hj] Hne]]; [exists i; by apply list_lookup_insert_eq|]. exists j. rewrite list_lookup_insert_ne; [done|]. intros ->. congruence. }
  split.
  - done.
  - exists tl. by rewrite insert_app_l, list_fmap_insert by (by rewrite length_fmap).
  - apply Forall2_lookup. intros j. rewrite Forall2_lookup in Hps. specialize (Hps j).
    destruct (ps !! j) as [p|] eqn:Ep; inversion Hps as [? b' H Eb|]; subst; constructor.
    apply list_elem_of_lookup_2 in Ep. cbn. rewrite lookup_insert_ne, lookup_delete_ne; [done| |].
    + intros <-. by apply (Hdis q).
    + intros <-. apply Hnew, elem_of_app. by left.
  - apply Forall2_lookup. intros j. destruct (decide (j = i)) as [->|Hne].
    + rewrite !list_lookup_insert_eq by (try done; by eapply lookup_lt_Some). constructor. cbn. apply lookup_insert_eq.
    + rewrite !list_lookup_insert_ne by done. rewrite Forall2_lookup in Hqs. specialize (Hqs j).
      destruct (qs !! j) as [q'|] eqn:Eq; inversion Hqs as [? b' H Eb|]; subst; constructor.
      cbn. rewrite lookup_insert_ne, lookup_delete_ne; [done| |].
      * intros <-. by apply Hne, (NoDup_lookup _ _ _ _ Hndq Eq Hq).
      * intros <-. apply Hnew, elem_of_app. right. by eapply list_elem_of_lookup_2.
  - apply NoDup_app. split; [done|]. split.
    + intros p Hp [->|[Hp' _]]%Hqs'; [by apply Hnew, elem_of_app; left|by apply (Hdis p)].
    + apply NoDup_insert_fresh; [done|]. intros H. apply Hnew, elem_of_app. by right.
  - intros p Hp. cbn. assert (p ≠ next s) by (intros ->; apply Hp, elem_of_app; right; apply Hqs'; by left).
    rewrite lookup_insert_ne by done. destruct (decide (q = p)) as [<-|Hne].
    + rewrite lookup_delete_eq. symmetry. apply Hdj, elem_of_app. by right.
    + rewrite lookup_delete_ne by done. apply Hfr. intros [H'|H']%elem_of_app; apply Hp, elem_of_app; [by left|right]. apply Hqs'. right. by split.
  - intros p [Hp|[->|[Hp _]]%Hqs']%elem_of_app; [apply Hdj, elem_of_app; by left|done|apply Hdj, elem_of_app; by right].
  - apply plus_string_wf. intros p. cbn. intros [b' [_ H]%lookup_delete_Some]. apply Hwf. eauto.
Qed.

(** The values of the entries before the [i]-th were replaced. *)
Lemma replace_entries_ok F name x l : ∀ n i ev s qs ps,
  (i + n = length l)%nat → length ps = length l →
  owns F s (names ev) (vals ev) ps qs l.*1 (take i (updated name x l).*2 ++ drop i l.*2) →
  ∃ ev' s' qs', replace_entries n (Z.of_nat i) ev name (Some x) s = Ok (ev', false) s'
    ∧ owns F s' (names ev') (vals ev') ps qs' l.*1 (updated name x l).*2
    ∧ e_count ev' = e_count ev ∧ e_size ev' = e_size ev ∧ length (names ev') = length (names ev) ∧ length (vals ev') = length (vals ev).
Proof.
  intros n. induction n as [|n IH]; intros i ev s qs ps Hi Hlen Ho.
  - exists ev, s, qs. split; [done|]. split; [|done].
    assert (H1 : (length (updated name x l).*2 ≤ i)%nat) by (rewrite length_fmap, length_updated; lia).
    assert (H2 : (length l.*2 ≤ i)%nat) by (rewrite length_fmap; lia). by rewrite take_ge, drop_ge, app_nil_r in Ho.
  - cbn [replace_entries]. destruct (lookup_lt_is_Some_2 l i) as [e He]; [lia|]. destruct (entry_lookup _ _ _ He) as [Ha Hx].
    pose proof (updated_val name x l i e He) as Hu.
    assert (Hlu : length (take i (updated name x l).*2) = i) by (rewrite length_take, length_fmap, length_updated; lia).
    assert (Hvi : (take i (updated name x l).*2 ++ drop i l.*2) !! i = Some e.2).
    { rewrite lookup_app_r, Hlu, Nat.sub_diag by lia. by rewrite lookup_drop, Nat.add_0_r. }
    destruct (name_read _ _ _ _ _ _ _ _ _ _ Ho Ha) as (p & _ & E1 & E2). step_ok E1. step_ok E2.
    destruct (decide (e.1 = name)) as [En|En].
    + destruct (val_read _ _ _ _ _ _ _ _ _ _ Ho Hvi) as (q & Hq & E3 & E4). step_ok E3.
      destruct (replace_val F s (names ev) (vals ev) ps qs l.*1 _ i q x Ho Hq) as (s1 & E5 & E6 & Ho').
      step_ok E5. step_ok E6. destruct (o_vl _ _ _ _ _ _ _ _ Ho) as [tl Ev].
      assert (Hli : (i < length (vals ev))%nat) by (rewrite Ev, length_app, length_fmap; apply lookup_lt_Some in Hq; lia).
      step_ok (set_val_at_ok ev i (next s1) (plus_string x s1) Hli). replace (Z.of_nat i + 1) with (Z.of_nat (S i)) by lia.
      edestruct (IH (S i) (set_vals (<[i:=Some (next s1)]> (vals ev)) ev)) as (ev' & s' & qs' & E & Ho2 & Hc & Hs & Hl1 & Hl2);
        [lia|exact Hlen| |exists ev', s', qs'; split; [exact E|]; split; [exact Ho2|]].
      * cbn [names vals set_vals]. rewrite (take_S_r _ _ _ Hu), <- app_assoc. cbn [app].
        replace (<[i:=x]> (take i (updated name x l).*2 ++ drop i l.*2)) with (take i (updated name x l).*2 ++ x :: drop (S i) l.*2) in Ho'; [exact Ho'|].
        rewrite insert_app_r_alt, Hlu, Nat.sub_diag, (drop_cons _ _ _ Hx) by lia. done.
      * cbn in Hc, Hs, Hl1, Hl2. by rewrite length_insert in Hl2.
    + replace (Z.of_nat i + 1) with (Z.of_nat (S i)) by lia. apply (IH (S i) ev s qs ps); [lia|done|].
      rewrite (take_S_r _ _ _ Hu), <- app_assoc. cbn [app]. by rewrite <- (drop_cons _ _ _ Hx).
Qed.

Lemma signed_word_ok i s : in_s64 i → signed_word i s = Ok i s.
Proof. intros H. unfold signed_word. by rewrite decide_True. Qed.

(** Room for one more entry *)
Lemma room_ok F s ev l :
  env_has F s ev l → 0 < e_size ev < 2 ^ 61 →
  ∃ ev', (if e_count ev =? e_size ev then n <- signed_word (e_size ev * 2) ;; envvars_resize ev n else ret ev) s = Ok ev' s
    ∧ env_has F s ev' l ∧ e_count ev' < e_size ev' ∧ e_size ev' < 2 ^ 62.
Proof.
  intros (ps & qs & Ho & Hc & Hn & Hv) Hsz.
  pose proof (Forall2_length _ _ _ (o_ps _ _ _ _ _ _ _ _ Ho)) as Hp. pose proof (Forall2_length _ _ _ (o_qs _ _ _ _ _ _ _ _ Ho)) as Hq.
  rewrite length_fmap in Hp, Hq. destruct (o_nm _ _ _ _ _ _ _ _ Ho) as [tl En].
  assert (Hle : (length l ≤ length (names ev))%nat) by (rewrite En, length_app, length_fmap; lia).
  destruct (Z.eqb_spec (e_count ev) (e_size ev)) as [E|E].
  - assert (Hin : in_s64 (e_size ev * 2)) by (unfold in_s64; lia). step_ok (signed_word_ok _ s Hin).
    replace (e_size ev * 2) with (Z.of_nat (length (names ev) * 2)) by lia.
    destruct (envvars_resize_ok F s ev ps qs _ _ (length (names ev) * 2) Ho) as (ev' & E1 & Ho' & Hc' & Hs' & L1 & L2); [lia|lia|lia|].
    exists ev'. split; [exact E1|]. split; [|lia]. exists ps, qs. split; [done|]. lia.
  - exists ev. split; [done|]. split; [by exists ps, qs|lia].
Qed.

(** An entry behind the others *)
Lemma add_entry_ok F s ev l name x :
  env_has F s ev l → e_count ev < e_size ev → e_size ev < 2 ^ 62 →
  ∃ ev' s', (p <- strdup name ;; envvars <- set_name_at ev (e_count ev) p ;; q <- strdup x ;;
             envvars <- set_val_at envvars (e_count envvars) q ;; n <- signed_word (e_count envvars + 1) ;; ret (set_e_count n envvars)) s
      = Ok ev' s' ∧ env_has F s' ev' (l ++ [(name, x)]) ∧ e_size ev' = e_size ev.
Proof.
  intros (ps & qs & Ho & Hc & Hn & Hv) Hlt Hmax.
  pose proof (Forall2_length _ _ _ (o_ps _ _ _ _ _ _ _ _ Ho)) as Hp. pose proof (Forall2_length _ _ _ (o_qs _ _ _ _ _ _ _ _ Ho)) as Hq.
  rewrite length_fmap in Hp, Hq.
  destruct (push_entry F s ev ps qs _ _ name x Ho) as (E1 & E2 & E3 & E4 & Ho' & L1 & L2); [lia|lia|lia|].
  rewrite Hp in Ho', L1, L2. rewrite Hp, <- Hc in E2, E4. step_ok E1. step_ok E2. step_ok E3. cbn [e_count set_names]. step_ok E4. cbn [e_count set_vals set_names].
  set (s2 := plus_string x (plus_string name s)) in *. assert (Hin : in_s64 (e_count ev + 1)) by (unfold in_s64; lia).
  step_ok (signed_word_ok _ s2 Hin). eexists _, s2. split; [done|]. cbn [e_size set_e_count set_vals set_names]. split; [|done].
  eexists _, _. split; [rewrite !fmap_app; exact Ho'|]. cbn [e_count e_size names vals set_e_count set_vals set_names] in *.
  rewrite length_app, L1, L2. cbn [length]. lia.
Qed.

(** C37. Setting a name to a value that is not null, in a set with room for at
    least one entry and less than 2^61:
    from then on the name has this value and every other name the one it had;
    the strings that are replaced are freed, and the rest of the memory is as
    it was.  The entry is always added behind the others, also when the name
    was there. *)
Theorem rktio_envvars_set_correct F s ev l name x :
  env_has F s ev l → 0 < e_size ev < 2 ^ 61 →
  ∃ ev' s' l', rktio_envvars_set ev name (Some x) s = Ok ev' s' ∧ env_has F s' ev' l' ∧ 0 < e_size ev'
    ∧ (∀ n, env_ref n l' = if decide (n = name) then Some x else env_ref n l)
    ∧ (env_ref name l = None → l' = l ++ [(name, x)]) ∧ length l' = S (length l).
Proof.
  intros (ps & qs & Ho & Hc & Hn & Hv) Hsz. pose proof (Forall2_length _ _ _ (o_ps _ _ _ _ _ _ _ _ Ho)) as Hp.
  rewrite length_fmap in Hp. unfold rktio_envvars_set. rewrite Hc, Nat2Z.id.
  destruct (replace_entries_ok F name x l (length l) 0 ev s qs ps) as (ev1 & s1 & qs1 & E1 & Ho1 & Hc1 & Hs1 & L1 & L2); [done|done|by rewrite take_0, drop_0|].
  step_ok E1. cbn [fst snd]. rewrite <- (updated_names name x l) in Ho1.
  assert (H1 : env_has F s1 ev1 (updated name x l)) by (exists ps, qs1; rewrite length_updated; split; [done|]; lia).
  destruct (room_ok _ _ _ _ H1) as (ev2 & E2 & H2 & Hlt & Hmax); [lia|]. step_ok E2.
  destruct (add_entry_ok _ _ _ _ name x H2 Hlt Hmax) as (ev3 & s3 & E3 & H3 & Hs3).
  exists ev3, s3, (updated name x l ++ [(name, x)]). split; [exact E3|]. split; [done|].
  split; [destruct H2 as (? & ? & _ & ? & _); lia|]. split; [apply env_ref_set|].
  split; [|rewrite length_app, length_updated; cbn; lia]. intros Hno. f_equal. by apply updated_absent.
Qed.

(** ** From and to the environment of a process *)

(** the text of an entry *)
Definition entry_text (e : list Z * list Z) : list Z := e.1 ++ 61 :: e.2.

Lemma split_name_ok p : 61 ∈ p → ∃ n v, split_name p = (n, 61 :: v) ∧ p = n ++ 61 :: v.
Proof.
  induction p as [|c p IH]; [by intros ?%not_elem_of_nil|]. intros H. cbn. destruct (Z.eqb_spec c 61) as [->|Hc].
  - by exists [], p.
  - assert (Hp : 61 ∈ p) by (apply elem_of_cons in H as [H|H]; [congruence|exact H]).
    destruct (IH Hp) as (n & v & E & ->). rewrite E. by exists (c :: n), v.
Qed.

Lemma environ_loop_ok F : ∀ ea s ev ps qs l,
  Forall (λ p, 61 ∈ p) ea → owns F s (names ev) (vals ev) ps qs l.*1 l.*2 →
  length (names ev) = (length l + length ea)%nat → length (vals ev) = (length l + length ea)%nat →
  ∃ ev' s' ps' qs' l', environ_loop ea (Z.of_nat (length l)) ev s = Ok ev' s'
    ∧ owns F s' (names ev') (vals ev') ps' qs' (l ++ l').*1 (l ++ l').*2 ∧ entry_text <$> l' = ea
    ∧ e_count ev' = e_count ev ∧ e_size ev' = e_size ev ∧ length (names ev') = length (names ev) ∧ length (vals ev') = length (vals ev).
Proof.
  intros ea. induction ea as [|p ea IH]; intros s ev ps qs l Hea Ho Hn Hv.
  - exists ev, s, ps, qs, []. split; [done|]. by rewrite app_nil_r.
  - apply Forall_cons in Hea as [Hp Hea]. destruct (split_name_ok p Hp) as (n & v & Es & ->). cbn [environ_loop]. rewrite Es.
    pose proof (Forall2_length _ _ _ (o_ps _ _ _ _ _ _ _ _ Ho)) as Lp. pose proof (Forall2_length _ _ _ (o_qs _ _ _ _ _ _ _ _ Ho)) as Lq.
    rewrite length_fmap in Lp, Lq. cbn [length] in Hn, Hv.
    destruct (push_entry F s ev ps qs _ _ n v Ho) as (E1 & E2 & E3 & E4 & Ho' & L1 & L2); [lia|lia|lia|].
    rewrite Lp in E2, E4, Ho', L1, L2. step_ok E1. step_ok E2. step_ok E3. step_ok E4.
    replace (Z.of_nat (length l) + 1) with (Z.of_nat (length (l ++ [(n, v)]))) by (rewrite length_app; cbn; lia).
    match type of E4 with _ = Ok ?e _ => set (ev2 := e) in * end.
    destruct (IH (plus_string v (plus_string n s)) ev2 (ps ++ [next s]) (qs ++ [next (plus_string n s)]) (l ++ [(n, v)]) Hea)
      as (ev' & s' & ps' & qs' & l' & E & Ho2 & Et & Hc & Hsz & L1' & L2');
      [rewrite !fmap_app; exact Ho'|rewrite L1, length_app; cbn; lia|rewrite L2, length_app; cbn; lia|].
    exists ev', s', ps', qs', ((n, v) :: l'). split; [exact E|]. rewrite <- app_assoc in Ho2. split; [exact Ho2|].
    split; [cbn; by rewrite Et|]. rewrite L1', L2', L1, L2, Hc, Hsz. done.
Qed.

Lemma envvars_ok ea s :
  Forall (λ p, 61 ∈ p) ea → mem_wf s →
  ∃ ev s' l, rktio_envvars ea s = Ok ev s' ∧ env_has (strs s) s' ev l ∧ entry_text <$> l = ea.
Proof.
  intros Hea Hwf. unfold rktio_envvars. set (n := Z.of_nat (length ea)).
  assert (Ln : length (malloc_array n) = length ea) by (unfold malloc_array; rewrite length_replicate; lia).
  destruct (environ_loop_ok (strs s) ea s (Envvars n n (malloc_array n) (malloc_array n)) [] [] [] Hea) as (ev & s' & ps & qs & l & E & Ho & Et & Hc & Hs & L1 & L2);
    [by apply owns_nothing|done|done|]. exists ev, s', l. split; [exact E|]. split; [|done].
  exists ps, qs. split; [exact Ho|]. rewrite Hc, Hs, L1, L2. cbn. rewrite Ln. rewrite <- (length_fmap entry_text l), Et. done.
Qed.

(** the bytes of the block *)
Definition block_text (l : list (list Z * list Z)) : list Z := concat ((λ e, entry_text e ++ [0]) <$> l).

Lemma block_text_app l1 l2 : block_text (l1 ++ l2) = block_text l1 ++ block_text l2.
Proof. unfold block_text. by rewrite fmap_app, concat_app. Qed.

Lemma block_len_ok F s ev ps qs l :
  owns F s (names ev) (vals ev) ps qs l.*1 l.*2 → Z.of_nat (length (block_text l)) < 2 ^ 63 → ∀ n i, (i + n = length l)%nat →
  block_len n (Z.of_nat i) ev (Z.of_nat (length (block_text (take i l)))) s = Ok (Z.of_nat (length (block_text l))) s.
Proof.
  intros Ho Hmax n. induction n as [|n IH]; intros i Hi; cbn [block_len]; [by rewrite take_ge by lia|].
  destruct (lookup_lt_is_Some_2 l i) as [[a x] He]; [lia|]. destruct (entry_lookup _ _ _ He) as [Ha Hx].
  destruct (name_read _ _ _ _ _ _ _ _ _ _ Ho Ha) as (p & _ & E1 & E2). step_ok E1. step_ok E2.
  destruct (val_read _ _ _ _ _ _ _ _ _ _ Ho Hx) as (q & _ & E3 & E4). step_ok E3. step_ok E4. cbn [fst snd] in *.
  assert (El : Z.of_nat (length (block_text (take i l))) + Z.of_nat (length a) + Z.of_nat (length x) + 2
    = Z.of_nat (length (block_text (take (S i) l)))).
  { rewrite (take_S_r _ _ _ He), block_text_app, length_app. unfold block_text, entry_text. cbn. rewrite !length_app. cbn. lia. }
  assert (Hle : (length (block_text (take (S i) l)) ≤ length (block_text l))%nat).
  { rewrite <- (take_drop (S i) l) at 2. rewrite block_text_app, length_app. lia. }
  rewrite El. assert (Hin : in_s64 (Z.of_nat (length (block_text (take (S i) l))))) by (unfold in_s64; lia).
  step_ok (signed_word_ok _ s Hin). replace (Z.of_nat i + 1) with (Z.of_nat (S i)) by lia. apply IH. lia.
Qed.

(** Writing behind what has been written. *)
Lemma copy_in_next w bs k s :
  copy_in ((Some <$> w) ++ replicate (length bs + k) None) (Z.of_nat (length w)) bs s = Ok ((Some <$> w ++ bs) ++ replicate k None) s.
Proof.
  unfold copy_in. rewrite length_app, length_fmap, length_replicate, (proj2 (Z.leb_le 0 _)), (proj2 (Z.leb_le _ _)) by lia. cbn [andb].
  rewrite Nat2Z.id, fmap_app, <- app_assoc. rewrite take_app_length' by (by rewrite length_fmap). do 3 f_equal.
  rewrite drop_app_ge by (rewrite length_fmap; lia). rewrite length_fmap, drop_replicate. f_equal. lia.
Qed.

Lemma set_cell_next w x k s :
  set_cell ((Some <$> w) ++ replicate (S k) None) (Z.of_nat (length w)) (Some x) s = Ok ((Some <$> w ++ [x]) ++ replicate k None) s.
Proof.
  unfold set_cell. rewrite length_app, length_fmap, length_replicate, (proj2 (Z.leb_le 0 _)), (proj2 (Z.ltb_lt _ _)) by lia. cbn [andb].
  rewrite Nat2Z.id, fmap_app, <- app_assoc. rewrite insert_app_r_alt by (by rewrite length_fmap).
  by rewrite length_fmap, Nat.sub_diag.
Qed.

(** where the strings start *)
Definition positions (base : Z) (l : list (list Z * list Z)) (n : nat) : list Z :=
  (λ i, base + Z.of_nat (length (block_text (take i l)))) <$> seq 0 n.

Lemma positions_S base l n : positions base l (S n) = positions base l n ++ [base + Z.of_nat (length (block_text (take n l)))].
Proof. unfold positions. by rewrite seq_S, fmap_app. Qed.

Lemma length_positions base l n : length (positions base l n) = n.
Proof. unfold positions. by rewrite length_fmap, length_seq. Qed.

Lemma block_text_take_S l i a x :
  l !! i = Some (a, x) → block_text (take (S i) l) = (((block_text (take i l) ++ a) ++ [61]) ++ x) ++ [0].
Proof.
  intros He. rewrite (take_S_r _ _ _ He), block_text_app. unfold block_text at 2, entry_text. cbn. by rewrite app_nil_r, <- !app_assoc.
Qed.

(** What is in the block after the first [i] entries. *)
Definition text_upto (l : list (list Z * list Z)) (i : nat) : list (option Z) :=
  (Some <$> block_text (take i l)) ++ replicate (length (block_text l) - length (block_text (take i l))) None.
Definition ptrs_upto (base : Z) (l : list (list Z * list Z)) (i : nat) : list (option Z) :=
  (Some <$> positions base l i) ++ replicate (S (length l) - i) None.

Lemma block_loop_ok F s ev ps qs l base :
  owns F s (names ev) (vals ev) ps qs l.*1 l.*2 → ∀ n i, (i + n = length l)%nat →
  block_loop n (Z.of_nat i) ev base (Z.of_nat i) (Z.of_nat (length (block_text (take i l)))) (ptrs_upto base l i) (text_upto l i) s
    = Ok (Z.of_nat (length l), ptrs_upto base l (length l), text_upto l (length l)) s.
Proof.
  intros Ho n. induction n as [|n IH]; intros i Hi; cbn [block_loop]; [by replace i with (length l) by lia|].
  destruct (lookup_lt_is_Some_2 l i) as [[a x] He]; [lia|]. destruct (entry_lookup _ _ _ He) as [Ha Hx].
  destruct (name_read _ _ _ _ _ _ _ _ _ _ Ho Ha) as (p & _ & E1 & E2).
  destruct (val_read _ _ _ _ _ _ _ _ _ _ Ho Hx) as (q & _ & E3 & E4). cbn [fst snd] in *.
  pose proof (block_text_take_S l i a x He) as El.
  assert (Hlen : (length (block_text l) - length (block_text (take i l))
    = length a + S (length x + S (length (block_text l) - length (block_text (take (S i) l)))))%nat).
  { rewrite <- (take_drop (S i) l) at 1 3. rewrite block_text_app, El, !length_app. cbn [length]. lia. }
  unfold ptrs_upto at 1. replace (S (length l) - i)%nat with (S (S (length l) - S i)) by lia.
  pose proof (set_cell_next (positions base l i) (base + Z.of_nat (length (block_text (take i l)))) (S (length l) - S i) s) as Er.
  rewrite length_positions, <- positions_S in Er. step_ok Er. step_ok E1. step_ok E2.
  unfold text_upto at 1. rewrite Hlen. step_ok (copy_in_next (block_text (take i l)) a (S (length x + S (length (block_text l) - length (block_text (take (S i) l))))) s).
  rewrite <- Nat2Z.inj_add, <- length_app.
  step_ok (set_cell_next (block_text (take i l) ++ a) 61 (length x + S (length (block_text l) - length (block_text (take (S i) l)))) s).
  step_ok E3. step_ok E4.
  replace (Z.of_nat (length (block_text (take i l))) + (Z.of_nat (length a) + 1)) with (Z.of_nat (length ((block_text (take i l) ++ a) ++ [61])))
    by (rewrite !length_app; cbn; lia).
  step_ok (copy_in_next ((block_text (take i l) ++ a) ++ [61]) x (S (length (block_text l) - length (block_text (take (S i) l)))) s).
  rewrite <- Nat2Z.inj_add, <- length_app.
  step_ok (set_cell_next (((block_text (take i l) ++ a) ++ [61]) ++ x) 0 (length (block_text l) - length (block_text (take (S i) l))) s).
  replace (Z.of_nat (length ((block_text (take i l) ++ a) ++ [61])) + (Z.of_nat (length x) + 1)) with (Z.of_nat (length (block_text (take (S i) l))))
    by (rewrite El, !length_app; cbn; lia).
  rewrite <- El. replace (Z.of_nat i + 1) with (Z.of_nat (S i)) by lia. apply IH. lia.
Qed.

Lemma to_block_ok F s ev l :
  env_has F s ev l → sizeof_pointer * (Z.of_nat (length l) + 1) + Z.of_nat (length (block_text l)) < 2 ^ 63 →
  let base := sizeof_pointer * (Z.of_nat (length l) + 1) in
  rktio_envvars_to_block ev s
    = Ok (Block (base + Z.of_nat (length (block_text l))) (Some <$> positions base l (length l) ++ [0]) (Some <$> block_text l)) s.
Proof.
  intros (ps & qs & Ho & Hc & _) Hmax base. unfold rktio_envvars_to_block. rewrite Hc, Nat2Z.id. unfold sizeof_pointer in *.
  assert (Hmax' : Z.of_nat (length (block_text l)) < 2 ^ 63) by lia.
  step_ok (block_len_ok F s ev ps qs l Ho Hmax' (length l) 0 eq_refl). cbn zeta.
  replace ((Z.of_nat (length l) + 1) * 8) with base by (subst base; lia).
  unfold to_u64. rewrite (Z.mod_small (base + _)) by (subst base; lia).
  rewrite Z.min_l by (subst base; apply Z.div_le_lower_bound; lia). rewrite Z.add_simpl_l.
  assert (Er : malloc_array (Z.of_nat (length l) + 1) = ptrs_upto base l 0) by (unfold malloc_array; replace (Z.to_nat _) with (S (length l)) by lia; done).
  assert (Et : malloc_array (Z.of_nat (length (block_text l))) = text_upto l 0) by (unfold malloc_array, text_upto; rewrite Nat2Z.id, take_0, Nat.sub_0_r; done).
  rewrite Er, Et. step_ok (block_loop_ok F s ev ps qs l base Ho (length l) 0 eq_refl).
  assert (Ep : ptrs_upto base l (length l) = (Some <$> positions base l (length l)) ++ replicate 1 None) by (unfold ptrs_upto; do 2 f_equal; lia).
  rewrite Ep. pose proof (set_cell_next (positions base l (length l)) 0 0 s) as E0. rewrite length_positions in E0. step_ok E0.
  unfold ret. do 2 f_equal; [by rewrite app_nil_r|]. unfold text_upto. rewrite take_ge, Nat.sub_diag by lia. apply app_nil_r.
Qed.

(** ** What [execve] reads of a block *)

(** the string that starts at a cell; [None] when it has no end, or is not
    written *)
Fixpoint cell_str (a : list (option Z)) : option (list Z) :=
  match a with
  | Some c :: a' => if c =? 0 then Some [] else (c ::.) <$> cell_str a'
  | _ => None
  end.

(** the strings up to the null pointer *)
Fixpoint strings_from (base : Z) (ptrs text : list (option Z)) : option (list (list Z)) :=
  match ptrs with
  | Some p :: ptrs' =>
      if p =? 0 then Some []
      else if p <? base then None
      else x ← cell_str (drop (Z.to_nat (p - base)) text); xs ← strings_from base ptrs' text; Some (x :: xs)
  | _ => None
  end.

Definition block_strings (b : block_t) : option (list (list Z)) :=
  strings_from (sizeof_pointer * Z.of_nat (length (b_ptrs b))) (b_ptrs b) (b_text b).

Lemma cell_str_nul a r : 0 ∉ a → cell_str ((Some <$> a ++ [0]) ++ r) = Some a.
Proof.
  induction a as [|c a IH]; intros H; [done|]. cbn. rewrite not_elem_of_cons in H. destruct H as [Hc Ha].
  destruct (Z.eqb_spec c 0); [congruence|]. by rewrite IH.
Qed.

Lemma strings_from_ok base l : 0 < base → Forall (λ p, 0 ∉ p) (entry_text <$> l) → ∀ n i, (i + n = length l)%nat →
  strings_from base (Some <$> drop i (positions base l (length l)) ++ [0]) (Some <$> block_text l) = Some (entry_text <$> drop i l).
Proof.
  intros Hb Hz n. induction n as [|n IH]; intros i Hi.
  - rewrite !drop_ge by (rewrite ?length_positions; lia). done.
  - destruct (lookup_lt_is_Some_2 l i) as [e He]; [lia|].
    assert (Hp : positions base l (length l) !! i = Some (base + Z.of_nat (length (block_text (take i l))))).
    { unfold positions. rewrite list_lookup_fmap, lookup_seq_lt by lia. done. }
    rewrite (drop_S _ _ _ Hp), (drop_S _ _ _ He). cbn [app fmap list_fmap strings_from].
    rewrite (proj2 (Z.eqb_neq _ _)), (proj2 (Z.ltb_ge _ _)) by lia. rewrite Z.add_simpl_l, Nat2Z.id.
    assert (Ht : block_text l = block_text (take i l) ++ (entry_text e ++ [0]) ++ block_text (drop (S i) l)).
    { rewrite <- (take_drop_middle l i e He) at 1. rewrite block_text_app. done. }
    assert (Hstr : cell_str (drop (length (block_text (take i l))) (Some <$> block_text l)) = Some (entry_text e)).
    { rewrite Ht, fmap_app, drop_app_length' by (by rewrite length_fmap). rewrite fmap_app. apply cell_str_nul.
      rewrite Forall_forall in Hz. apply Hz, list_elem_of_fmap. exists e. split; [done|]. by eapply list_elem_of_lookup_2. }
    rewrite Hstr. cbn [mbind option_bind]. specialize (IH (S i) ltac:(lia)). cbn [fmap list_fmap] in IH. by rewrite IH.
Qed.

(** C36. What the environment of a process is made into, turned back into a
    block for another process, gives the same strings in the same order, up to
    the null pointer, for strings with an equals sign and a block of less than
    2^63 bytes; the block is allocated with exactly the size of its pointers
    and of the strings with their nuls, and all of it is written; and freeing
    the set then leaves the memory as it was. *)
Theorem rktio_envvars_round_trip ea s :
  let size := sizeof_pointer * (Z.of_nat (length ea) + 1) + Z.of_nat (length (concat ea) + length ea) in
  Forall (λ p, 61 ∈ p ∧ 0 ∉ p) ea → size < 2 ^ 63 → mem_wf s →
  ∃ ev s1 b s2, rktio_envvars ea s = Ok ev s1 ∧ rktio_envvars_count ev = Z.of_nat (length ea)
    ∧ rktio_envvars_to_block ev s1 = Ok b s1 ∧ block_strings b = Some ea
    ∧ b_room b = size ∧ sizeof_pointer * Z.of_nat (length (b_ptrs b)) + Z.of_nat (length (b_text b)) = size
    ∧ Forall is_Some (b_ptrs b) ∧ Forall is_Some (b_text b)
    ∧ rktio_envvars_free ev s1 = Ok tt s2 ∧ strs s2 = strs s.
Proof.
  intros size Hea Hmax Hwf. apply Forall_and in Hea as [Heq Hnul]. destruct (envvars_ok ea s Heq Hwf) as (ev & s1 & l & E & Hl & Et).
  destruct (envvars_free_ok _ _ _ _ Hl) as (s2 & Ef & Hs2).
  assert (Hlen : (length (block_text l) = length (concat ea) + length ea)%nat).
  { rewrite <- Et. clear. induction l as [|e l IH]; [done|]. unfold block_text in *. cbn. rewrite !length_app, IH. cbn. lia. }
  assert (Hll : length l = length ea) by (by rewrite <- Et, length_fmap).
  assert (Hmax' : sizeof_pointer * (Z.of_nat (length l) + 1) + Z.of_nat (length (block_text l)) < 2 ^ 63) by (rewrite Hll, Hlen; exact Hmax).
  pose proof (to_block_ok _ _ _ _ Hl Hmax') as Eb. cbn zeta in Eb.
  eexists ev, s1, _, s2. split; [exact E|]. split; [destruct Hl as (? & ? & _ & Hc & _); unfold rktio_envvars_count; by rewrite Hc, Hll|].
  split; [exact Eb|]. unfold block_strings. cbn [b_room b_ptrs b_text]. rewrite !length_fmap, length_app, length_positions. cbn [length].
  split.
  { replace (Z.of_nat (length l + 1)) with (Z.of_nat (length l) + 1) by lia.
    assert (Hb : 0 < sizeof_pointer * (Z.of_nat (length l) + 1)) by (unfold sizeof_pointer; lia).
    assert (Hz : Forall (λ p, 0 ∉ p) (entry_text <$> l)) by (by rewrite Et).
    pose proof (strings_from_ok _ l Hb Hz (length l) 0%nat eq_refl) as Hs. rewrite !drop_0, Et in Hs. exact Hs. }
  split; [by rewrite Hll, Hlen|]. split; [unfold size; rewrite Hll, Hlen; lia|].
  by split_and!; [apply Forall_fmap, Forall_true; intros; eexists..|done|].
Qed.

(** ** Witnesses *)

Definition no_memory : memory := Memory ∅ 1.

Lemma no_memory_wf : mem_wf no_memory.
Proof. intros p [b Hb]. cbn in Hb. by rewrite lookup_empty in Hb. Qed.

Definition home : list Z := bytes_of "HOME".
Definition root : list Z := bytes_of "/root".

(** the set with one variable *)
Definition with_home : rktio_envvars_t := Envvars 1 2 [Some 1; None] [Some 2; None].
Definition home_memory : memory := Memory (<[2 := root]> {[1 := home]}) 3.

Lemma with_home_has : env_has ∅ home_memory with_home [(home, root)].
Proof.
  exists [1], [2]. split; [|done]. split.
  - by exists [None].
  - by exists [None].
  - repeat constructor.
  - repeat constructor.
  - apply (bool_decide_eq_true_1 _). vm_compute. reflexivity.
  - intros p Hp. cbn in *. rewrite !not_elem_of_cons in Hp. destruct Hp as (H1 & H2 & _). by rewrite lookup_insert_ne, lookup_singleton_ne by done.
  - intros p _. apply lookup_empty.
  - intros p. cbn. destruct (decide (p = 2)) as [->|]; [lia|]. rewrite lookup_insert_ne by done.
    destruct (decide (p = 1)) as [->|]; [lia|]. rewrite lookup_singleton_ne by done. by intros [].
Qed.

Lemma rktio_envvars_get_correct_witness :
  ∃ p s, rktio_envvars_get with_home home home_memory = Ok (Some p) s ∧ strs s !! p = Some root.
Proof.
  pose proof (rktio_envvars_get_correct ∅ home_memory with_home _ home with_home_has) as H. cbn [env_ref] in H.
  rewrite decide_True in H by done. destruct H as (p & s & E & _ & Hp & _). by exists p, s.
Defined.

Lemma rktio_envvars_set_correct_witness :
  ∃ ev s l, rktio_envvars_set with_home home (Some []) home_memory = Ok ev s ∧ env_has ∅ s ev l ∧ env_ref home l = Some [] ∧ length l = 2%nat.
Proof.
  destruct (rktio_envvars_set_correct ∅ home_memory with_home _ home [] with_home_has) as (ev & s & l & E & Hl & _ & Hr & _ & Hlen); [cbn; lia|].
  exists ev, s, l. split; [exact E|]. split; [exact Hl|]. split; [|exact Hlen]. rewrite Hr. by rewrite decide_True.
Defined.

Lemma rktio_envvars_round_trip_witness :
  ∃ ev s1 b s2, rktio_envvars [bytes_of "A=1"; bytes_of "B="] no_memory = Ok ev s1 ∧ rktio_envvars_to_block ev s1 = Ok b s1
    ∧ block_strings b = Some [bytes_of "A=1"; bytes_of "B="] ∧ b_room b = 31
    ∧ rktio_envvars_free ev s1 = Ok tt s2 ∧ strs s2 = ∅.
Proof.
  destruct (rktio_envvars_round_trip [bytes_of "A=1"; bytes_of "B="] no_memory) as (ev & s1 & b & s2 & E1 & _ & E2 & E3 & E4 & _ & _ & _ & E5 & E6).
  - apply (bool_decide_eq_true_1 _). vm_compute. reflexivity.
  - vm_compute. reflexivity.
  - exact no_memory_wf.
  - by exists ev, s1, b, s2.
Defined.
