(* ===== verification/RktioWideSpec.v ===== *)
(** * The conversions of paths are inverse to each other

    Both sides stand for a list of code points in which no high surrogate is
    followed by a low one: each has its bytes, and one unit or two. *)

From S2P Require Import Prelude RktioWide.

(** ** Bits *)

Lemma shiftr_mask c m k : 0 ≤ k → Z.shiftr (Z.land c m) k = Z.land (Z.shiftr c k) (Z.shiftr m k).
Proof. intros. apply Z.shiftr_land. Qed.

Lemma land_63 c : Z.land c 63 = c mod 64.
Proof. exact (Z.land_ones c 6 ltac:(lia)). Qed.
Lemma land_1023 c : Z.land c 1023 = c mod 1024.
Proof. exact (Z.land_ones c 10 ltac:(lia)). Qed.

Lemma shiftr_6 c : Z.shiftr c 6 = c / 64.
Proof. by rewrite Z.shiftr_div_pow2. Qed.
Lemma shiftr_12 c : Z.shiftr c 12 = c / 4096.
Proof. by rewrite Z.shiftr_div_pow2. Qed.
Lemma shiftr_18 c : Z.shiftr c 18 = c / 262144.
Proof. by rewrite Z.shiftr_div_pow2. Qed.
Lemma shiftl_6 c : Z.shiftl c 6 = c * 64.
Proof. by rewrite Z.shiftl_mul_pow2. Qed.

(** The upper bits of a number *)
Lemma land_upper x a k : 0 ≤ a → 0 ≤ k → 0 ≤ x < 2 ^ (a + k) → Z.land x (Z.shiftl (Z.ones a) k) = x / 2 ^ k * 2 ^ k.
Proof.
  intros Ha Hk Hx. rewrite <- Z.shiftr_div_pow2, <- Z.shiftl_mul_pow2 by done. apply Z.bits_inj'. intros i Hi.
  rewrite Z.land_spec, !Z.shiftl_spec by done. destruct (decide (i < k)) as [Hlt|Hge].
  - rewrite !(Z.testbit_neg_r _ (i - k)) by lia. apply andb_false_r.
  - rewrite Z.shiftr_spec by lia. replace (i - k + k) with i by lia. destruct (decide (i - k < a)) as [H|H].
    + rewrite Z.ones_spec_low by lia. apply andb_true_r.
    + rewrite Z.ones_spec_high by lia. rewrite andb_false_r. symmetry. destruct (decide (x = 0)) as [->|]; [apply Z.bits_0|].
      apply Z.bits_above_log2; [lia|]. apply Z.log2_lt_pow2; [lia|]. apply Z.lt_le_trans with (2 ^ (a + k)); [lia|]. apply Z.pow_le_mono_r; lia.
Qed.

(** Facts on few values, by looking at all of them *)
Lemma all_below (P : Z → bool) n x : forallb P (seqZ 0 n) = true → 0 ≤ x < n → P x = true.
Proof. intros H Hx. rewrite List.forallb_forall in H. apply H, list_elem_of_In, elem_of_seqZ. lia. Qed.

Lemma lead_2 x : 0 ≤ x < 32 →
  Z.lor 192 x = 192 + x ∧ (192 + x <? 128) = false ∧ (Z.land (192 + x) 192 =? 128) = false ∧ (Z.land (192 + x) 224 =? 192) = true
  ∧ (Z.land (192 + x) 30 =? 0) = (x <? 2) ∧ Z.land (192 + x) 31 = x.
Proof.
  intros Hx. pose proof (all_below (λ x, bool_decide (Z.lor 192 x = 192 + x ∧ (192 + x <? 128) = false ∧ (Z.land (192 + x) 192 =? 128) = false
    ∧ (Z.land (192 + x) 224 =? 192) = true ∧ (Z.land (192 + x) 30 =? 0) = (x <? 2) ∧ Z.land (192 + x) 31 = x)) 32 x eq_refl Hx) as H.
  by apply bool_decide_eq_true in H.
Qed.

Lemma lead_3 x : 0 ≤ x < 16 →
  Z.lor 224 x = 224 + x ∧ (224 + x <? 128) = false ∧ (Z.land (224 + x) 192 =? 128) = false ∧ (Z.land (224 + x) 224 =? 192) = false
  ∧ (Z.land (224 + x) 240 =? 224) = true ∧ Z.land (224 + x) 15 = x.
Proof.
  intros Hx. pose proof (all_below (λ x, bool_decide (Z.lor 224 x = 224 + x ∧ (224 + x <? 128) = false ∧ (Z.land (224 + x) 192 =? 128) = false
    ∧ (Z.land (224 + x) 224 =? 192) = false ∧ (Z.land (224 + x) 240 =? 224) = true ∧ Z.land (224 + x) 15 = x)) 16 x eq_refl Hx) as H.
  by apply bool_decide_eq_true in H.
Qed.

Lemma lead_4 x : 0 ≤ x < 8 →
  Z.lor 240 x = 240 + x ∧ (240 + x <? 128) = false ∧ (Z.land (240 + x) 192 =? 128) = false ∧ (Z.land (240 + x) 224 =? 192) = false
  ∧ (Z.land (240 + x) 240 =? 224) = false ∧ (Z.land (240 + x) 248 =? 240) = true ∧ Z.land (240 + x) 7 = x.
Proof.
  intros Hx. pose proof (all_below (λ x, bool_decide (Z.lor 240 x = 240 + x ∧ (240 + x <? 128) = false ∧ (Z.land (240 + x) 192 =? 128) = false
    ∧ (Z.land (240 + x) 224 =? 192) = false ∧ (Z.land (240 + x) 240 =? 224) = false ∧ (Z.land (240 + x) 248 =? 240) = true
    ∧ Z.land (240 + x) 7 = x)) 8 x eq_refl Hx) as H.
  by apply bool_decide_eq_true in H.
Qed.

Lemma continuation x : 0 ≤ x < 64 →
  Z.lor 128 x = 128 + x ∧ (128 + x <? 128) = false ∧ (Z.land (128 + x) 192 =? 128) = true ∧ Z.land (128 + x) 63 = x
  ∧ (Z.land (128 + x) 32 =? 0) = (x <? 32) ∧ (Z.land (128 + x) 48 =? 0) = (x <? 16).
Proof.
  intros Hx. pose proof (all_below (λ x, bool_decide (Z.lor 128 x = 128 + x ∧ (128 + x <? 128) = false ∧ (Z.land (128 + x) 192 =? 128) = true
    ∧ Z.land (128 + x) 63 = x ∧ (Z.land (128 + x) 32 =? 0) = (x <? 32) ∧ (Z.land (128 + x) 48 =? 0) = (x <? 16))) 64 x eq_refl Hx) as H.
  by apply bool_decide_eq_true in H.
Qed.

(** ** The bytes of a code point *)

Definition valid (c : Z) : Prop := 0 ≤ c ≤ 1114111.

Lemma wc_bytes_eq c : valid c →
  wc_bytes c = if c <? 128 then [c]
    else if c <? 2048 then [192 + c / 64; 128 + c mod 64]
    else if c <? 65536 then [224 + c / 4096; 128 + c / 64 mod 64; 128 + c mod 64]
    else [240 + c / 262144; 128 + c / 4096 mod 64; 128 + c / 64 mod 64; 128 + c mod 64].
Proof.
  intros Hc. unfold valid in Hc. unfold wc_bytes. rewrite !shiftr_mask by lia.
  change (Z.shiftr 1984 6) with (Z.ones 5). change (Z.shiftr 61440 12) with (Z.ones 4). change (Z.shiftr 4032 6) with (Z.ones 6).
  change (Z.shiftr 1835008 18) with (Z.ones 3). change (Z.shiftr 258048 12) with (Z.ones 6). rewrite !Z.land_ones, land_63 by lia.
  rewrite shiftr_6, shiftr_12, shiftr_18. change (2 ^ 5) with 32. change (2 ^ 4) with 16. change (2 ^ 6) with 64. change (2 ^ 3) with 8.
  pose proof (Z.mod_pos_bound c 64). pose proof (Z.mod_pos_bound (c / 64) 64). pose proof (Z.mod_pos_bound (c / 4096) 64).
  destruct (continuation (c mod 64)) as [E0 _]; [lia|]. destruct (continuation (c / 64 mod 64)) as [E1 _]; [lia|].
  destruct (continuation (c / 4096 mod 64)) as [E2 _]; [lia|]. rewrite E0, E1, E2. clear E0 E1 E2.
  destruct (Z.ltb_spec c 128); [done|]. destruct (Z.ltb_spec c 2048).
  { rewrite (Z.mod_small (c / 64) 32) by (split; [apply Z.div_pos|apply Z.div_lt_upper_bound]; lia).
    destruct (lead_2 (c / 64)) as [-> _]; [split; [apply Z.div_pos|apply Z.div_lt_upper_bound]; lia|]. done. }
  destruct (Z.ltb_spec c 65536).
  { rewrite (Z.mod_small (c / 4096) 16) by (split; [apply Z.div_pos|apply Z.div_lt_upper_bound]; lia).
    destruct (lead_3 (c / 4096)) as [-> _]; [split; [apply Z.div_pos|apply Z.div_lt_upper_bound]; lia|]. done. }
  destruct (Z.ltb_spec c 2097152); [|lia].
  rewrite (Z.mod_small (c / 262144) 8) by (split; [apply Z.div_pos|apply Z.div_lt_upper_bound]; lia).
  destruct (lead_4 (c / 262144)) as [-> _]; [split; [apply Z.div_pos|apply Z.div_lt_upper_bound]; lia|]. done.
Qed.

(** ** A code point read from its bytes *)

Definition rest_of (s : list Z) (nextbits v : Z) : Z → Z → W Z := λ j p, utf8_loop s j 0 nextbits v p.

Lemma cont_step x s j state nextbits v p b :
  0 ≤ x < 64 → state ≠ 0 → nextbits = 0 ∨ Z.land (128 + x) nextbits ≠ 0 →
  utf8_loop (128 + x :: s) j state nextbits v p b =
    if decide (state = 1)
    then (if 1114111 <? v * 64 + x then Ok (-1) b else output (rest_of s 0 (v * 64 + x)) j (v * 64 + x) p b)
    else utf8_loop s j (state - 1) 0 (v * 64 + x) p b.
Proof.
  intros Hx Hs Hn. cbn [utf8_loop]. destruct (continuation x Hx) as (_ & -> & -> & -> & _ & _). rewrite shiftl_6.
  rewrite (proj2 (Z.eqb_neq state 0)) by done.
  assert (E : (nextbits =? 0) || negb (Z.land (128 + x) nextbits =? 0) = true).
  { destruct Hn as [->|Hn]; [done|]. rewrite (proj2 (Z.eqb_neq _ 0) Hn). apply orb_true_r. }
  rewrite E. destruct (decide (state = 1)) as [->|Hs1].
  - cbn [negb Z.sub]. change (negb (1 - 1 =? 0)) with false. cbn iota. by destruct (1114111 <? v * 64 + x).
  - rewrite (proj2 (Z.eqb_neq (state - 1) 0)) by lia. done.
Qed.

Lemma lead_2_step x s j v p b :
  2 ≤ x < 32 → utf8_loop (192 + x :: s) j 0 0 v p b = utf8_loop s j 1 0 x p b.
Proof.
  intros Hx. cbn [utf8_loop]. destruct (lead_2 x) as (_ & -> & -> & -> & -> & ->); [lia|]. by rewrite (proj2 (Z.ltb_ge x 2)) by lia.
Qed.

Lemma lead_3_step x s j v p b :
  0 ≤ x < 16 → utf8_loop (224 + x :: s) j 0 0 v p b = utf8_loop s j 2 (if x =? 0 then 32 else 0) x p b.
Proof. intros Hx. cbn [utf8_loop]. destruct (lead_3 x) as (_ & -> & -> & -> & -> & ->); [lia|]. done. Qed.

Lemma lead_4_step x s j v p b :
  0 ≤ x < 8 → utf8_loop (240 + x :: s) j 0 0 v p b = if x <=? 4 then utf8_loop s j 3 (if x =? 0 then 48 else 0) x p b else Ok (-1) b.
Proof. intros Hx. cbn [utf8_loop]. destruct (lead_4 x) as (_ & -> & -> & -> & -> & -> & ->); [lia|]. by destruct (x <=? 4). Qed.

Lemma read_code_point c s j v p b :
  valid c → utf8_loop (wc_bytes c ++ s) j 0 0 v p b = output (rest_of s 0 c) j c p b.
Proof.
  intros Hc. rewrite wc_bytes_eq by done. unfold valid in Hc.
  pose proof (Z.mod_pos_bound c 64 ltac:(lia)) as H0. pose proof (Z.mod_pos_bound (c / 64) 64 ltac:(lia)) as H1.
  pose proof (Z.mod_pos_bound (c / 4096) 64 ltac:(lia)) as H2. pose proof (Z.div_mod c 64 ltac:(lia)) as D0.
  assert (E1 : c / 4096 = c / 64 / 64) by (rewrite Z.div_div by lia; done).
  assert (E2 : c / 262144 = c / 64 / 64 / 64) by (rewrite !Z.div_div by lia; done).
  pose proof (Z.div_mod (c / 64) 64 ltac:(lia)) as D1. pose proof (Z.div_mod (c / 64 / 64) 64 ltac:(lia)) as D2. rewrite <- E1 in *.
  destruct (Z.ltb_spec c 128) as [L1|L1].
  { cbn [app utf8_loop]. by rewrite (proj2 (Z.ltb_lt c 128) L1). }
  destruct (Z.ltb_spec c 2048) as [L2|L2]; cbn [app].
  { rewrite lead_2_step, cont_step by (lia || auto). rewrite decide_True by done.
    replace (c / 64 * 64 + c mod 64) with c by lia. by rewrite (proj2 (Z.ltb_ge 1114111 c)) by lia. }
  destruct (Z.ltb_spec c 65536) as [L3|L3]; cbn [app].
  { rewrite lead_3_step by lia. rewrite cont_step; [|done|done|].
    - rewrite decide_False by done. change (2 - 1) with 1. rewrite cont_step by (lia || auto). rewrite decide_True by done.
      replace ((c / 4096 * 64 + c / 64 mod 64) * 64 + c mod 64) with c by lia. by rewrite (proj2 (Z.ltb_ge 1114111 c)) by lia.
    - destruct (Z.eqb_spec (c / 4096) 0) as [Z0|]; [right|by left].
      destruct (continuation _ H1) as (_ & _ & _ & _ & E & _). apply Z.eqb_neq. rewrite E. apply Z.ltb_ge. lia. }
  rewrite lead_4_step by lia. rewrite (proj2 (Z.leb_le (c / 262144) 4)) by lia. rewrite cont_step; [|done|done|].
  - rewrite decide_False by done. change (3 - 1) with 2. rewrite cont_step by (lia || auto). rewrite decide_False by done.
    change (2 - 1) with 1. rewrite cont_step by (lia || auto). rewrite decide_True by done.
    replace (((c / 262144 * 64 + c / 4096 mod 64) * 64 + c / 64 mod 64) * 64 + c mod 64) with c by lia.
    by rewrite (proj2 (Z.ltb_ge 1114111 c)) by lia.
  - destruct (Z.eqb_spec (c / 262144) 0) as [Z0|]; [right|by left].
    destruct (continuation _ H2) as (_ & _ & _ & _ & _ & E). apply Z.eqb_neq. rewrite E. apply Z.ltb_ge. lia.
Qed.

(** ** Units *)

Definition is_high (c : Z) : bool := (55296 <=? c) && (c <=? 56319).
Definition is_low (c : Z) : bool := (56320 <=? c) && (c <=? 57343).

(** The units of a code point *)
Definition units (c : Z) : list Z :=
  if 65535 <? c then [55296 + (c - 65536) / 1024; 56320 + (c - 65536) mod 1024] else [c].

(** A high surrogate that is not written yet *)
Definition pending (p : Z) : list Z := if p =? 0 then [] else [p].

(** The buffer [b] when [ws] has been written to it *)
Definition written (b : option (list Z)) (ws : list Z) : option (list Z) := (λ l, ws ++ drop (length ws) l) <$> b.
Definition fits (b : option (list Z)) (n : nat) : Prop := match b with Some l => (n ≤ length l)%nat | None => True end.

Lemma fits_le b m n : fits b n → (m ≤ n)%nat → fits b m.
Proof. destruct b; cbn; [lia|done]. Qed.

Lemma put_at_ok w b ws x :
  fits b (S (length ws)) → 0 ≤ x < 2 ^ w → put_at w (Z.of_nat (length ws)) x (written b ws) = Ok tt (written b (ws ++ [x])).
Proof.
  destruct b as [l|]; [|done]. cbn [fits]. intros Hf Hx. unfold put_at, written. cbn [fmap option_fmap option_map].
  rewrite (proj2 (Z.leb_le 0 _)), (proj2 (Z.ltb_lt (Z.of_nat (length ws)) _)) by (rewrite ?length_app, ?length_drop; lia). cbn [andb].
  rewrite Nat2Z.id, (Z.mod_small x) by done. rewrite insert_app_r_alt, Nat.sub_diag by lia.
  destruct (drop (length ws) l) as [|y l'] eqn:E; [apply (f_equal length) in E; rewrite length_drop in E; cbn in E; lia|].
  cbn. rewrite length_app. cbn [length]. rewrite <- drop_drop, E, <- app_assoc. done.
Qed.

Lemma surrogate_bits v : 55296 ≤ v ≤ 57343 → (Z.land v 56320 =? 56320) = is_low v ∧ (Z.land v 56320 =? 55296) = is_high v.
Proof.
  intros Hv. pose proof (all_below (λ y, eqb (Z.land (55296 + y) 56320 =? 56320) (is_low (55296 + y))
    && eqb (Z.land (55296 + y) 56320 =? 55296) (is_high (55296 + y))) 2048 (v - 55296) ltac:(vm_compute; reflexivity) ltac:(lia)) as H.
  cbn beta in H. apply andb_true_iff in H as [H1%eqb_prop H2%eqb_prop]. by replace (55296 + (v - 55296)) with v in * by lia.
Qed.

Lemma high_lor a : 0 ≤ a < 1024 → Z.lor 55296 a = 55296 + a.
Proof. intros Ha. exact (lor_shiftl_add 54 a 10 ltac:(lia) Ha). Qed.
Lemma low_lor a : 0 ≤ a < 1024 → Z.lor 56320 a = 56320 + a.
Proof. intros Ha. exact (lor_shiftl_add 55 a 10 ltac:(lia) Ha). Qed.

(** A pair that would look like one code point is refused. *)
Lemma output_refused next j v p b : p ≠ 0 → is_low v = true → output next j v p b = Ok (-1) b.
Proof.
  intros Hp Hv. unfold is_low in Hv. unfold output. destruct (Z.ltb_spec 65535 v); [lia|].
  destruct (surrogate_bits v) as [-> _]; [lia|]. assert (E : (55296 <=? v) && (v <=? 57343) = true) by lia.
  cbn zeta. rewrite E. rewrite (proj2 (Z.eqb_neq p 0)) by done. cbn [negb andb]. unfold is_low. by rewrite Hv.
Qed.

Lemma flush_ok b ws p :
  p = 0 ∨ is_high p = true → fits b (length (ws ++ pending p)) →
  (if p =? 0 then ret (Z.of_nat (length ws)) else put_at 16 (Z.of_nat (length ws)) p ;;; ret (Z.of_nat (length ws) + 1)) (written b ws)
    = Ok (Z.of_nat (length (ws ++ pending p))) (written b (ws ++ pending p)).
Proof.
  intros Hp Hf. unfold pending in *. destruct (Z.eqb_spec p 0) as [->|Hne]; [by rewrite app_nil_r|].
  destruct Hp as [|Hp]; [done|]. unfold is_high in Hp. rewrite length_app in Hf. cbn [length] in Hf.
  assert (Hf' : fits b (S (length ws))) by (eapply fits_le; [exact Hf|lia]). assert (Hr : 0 ≤ p < 2 ^ 16) by lia.
  step_ok (put_at_ok 16 b ws p Hf' Hr). unfold ret. rewrite length_app. cbn [length]. f_equal. lia.
Qed.

Lemma output_ok next b ws v p :
  valid v → p = 0 ∨ is_high p = true → (p ≠ 0 → is_low v = false) → fits b (length (ws ++ pending p ++ units v)) →
  output next (Z.of_nat (length ws)) v p (written b ws) =
    if is_high v then next (Z.of_nat (length (ws ++ pending p))) v (written b (ws ++ pending p))
    else next (Z.of_nat (length (ws ++ pending p ++ units v))) 0 (written b (ws ++ pending p ++ units v)).
Proof.
  intros Hv Hp Hlow Hf. unfold valid in Hv. rewrite app_assoc in Hf. rewrite (app_assoc ws). unfold output.
  assert (Hf1 : fits b (length (ws ++ pending p))) by (eapply fits_le; [exact Hf|rewrite (length_app (ws ++ _)); lia]).
  pose proof (flush_ok b ws p Hp Hf1) as E. set (ws1 := ws ++ pending p) in *. unfold units in *.
  destruct (Z.ltb_spec 65535 v) as [Hbig|Hbig].
  - assert (Eh : is_high v = false) by (unfold is_high; lia). rewrite Eh.
    assert (E' : (if p =? 0 then ret (Z.of_nat (length ws), 0) else put_at 16 (Z.of_nat (length ws)) p ;;; ret (Z.of_nat (length ws) + 1, 0)) (written b ws)
      = Ok (Z.of_nat (length ws1), 0) (written b ws1)).
    { destruct (p =? 0); [unfold ret in *; injection E as E1 E2; by rewrite E1, E2|]. unfold bind in *.
      destruct (put_at 16 (Z.of_nat (length ws)) p (written b ws)) as [[] b'| | |]; try done. unfold ret in *. injection E as E1 E2. by rewrite E1, E2. }
    step_ok E'. rewrite Z.shiftr_div_pow2 by lia. change (2 ^ 10) with 1024. rewrite !land_1023.
    set (hi := (v - 65536) / 1024) in *. set (lo := (v - 65536) mod 1024) in *.
    assert (Hhi : 0 ≤ hi < 1024) by (unfold hi; split; [apply Z.div_pos|apply Z.div_lt_upper_bound]; lia).
    assert (Hlo : 0 ≤ lo < 1024) by (apply Z.mod_pos_bound; lia). rewrite (Z.mod_small hi) by done. rewrite high_lor, low_lor by done.
    rewrite length_app in Hf. cbn [length] in Hf.
    assert (F1 : fits b (S (length ws1))) by (eapply fits_le; [exact Hf|lia]).
    assert (F2 : fits b (S (length (ws1 ++ [55296 + hi])))) by (rewrite length_app; cbn [length]; eapply fits_le; [exact Hf|lia]).
    step_ok (put_at_ok 16 b ws1 (55296 + hi) F1 ltac:(lia)).
    replace (Z.of_nat (length ws1) + 1) with (Z.of_nat (length (ws1 ++ [55296 + hi]))) by (rewrite length_app; cbn [length]; lia).
    step_ok (put_at_ok 16 b _ (56320 + lo) F2 ltac:(lia)). rewrite <- app_assoc. cbn [app].
    f_equal; try done. rewrite length_app. cbn [length]. lia.
  - assert (Hsur : (55296 <=? v) && (v <=? 57343) = is_high v || is_low v) by (unfold is_high, is_low; lia). cbn zeta. rewrite Hsur.
    assert (Hb : (is_high v || is_low v) && negb (p =? 0) && (Z.land v 56320 =? 56320) = false).
    { destruct (is_high v || is_low v) eqn:Es; [|done]. destruct (surrogate_bits v) as [-> _]; [lia|].
      destruct (Z.eqb_spec p 0); [done|]. rewrite Hlow by done. apply andb_false_r. }
    rewrite Hb. step_ok E.
    assert (Hh : (is_high v || is_low v) && (Z.land v 56320 =? 55296) = is_high v).
    { destruct (is_high v || is_low v) eqn:Es; [destruct (surrogate_bits v) as [_ ->]; [lia|done]|]. by destruct (is_high v). }
    rewrite Hh. destruct (is_high v); [done|]. rewrite length_app in Hf. cbn [length] in Hf.
    assert (F1 : fits b (S (length ws1))) by (eapply fits_le; [exact Hf|lia]). step_ok (put_at_ok 16 b ws1 v F1 ltac:(lia)).
    f_equal; try done. rewrite length_app. cbn [length]. lia.
Qed.

(** ** Whole strings *)

(** Code points in which no high surrogate is followed by a low one; [h] says
    whether the one before is a high surrogate. *)
Fixpoint proper (h : bool) (cps : list Z) : Prop :=
  match cps with
  | [] => True
  | c :: cps' => valid c ∧ (h = true → is_low c = false) ∧ proper (is_high c) cps'
  end.

Definition bytes_of_points (cps : list Z) : list Z := concat (wc_bytes <$> cps).
Definition units_of_points (cps : list Z) : list Z := concat (units <$> cps).

Lemma high_pending c : is_high c = true → pending c = [c] ∧ units c = [c] ∧ c ≠ 0.
Proof.
  unfold is_high, pending, units. intros H. rewrite (proj2 (Z.eqb_neq c 0)) by lia. destruct (Z.ltb_spec 65535 c); [lia|]. split_and!; [done|done|lia].
Qed.

Lemma read_all b cps : ∀ ws p v,
  p = 0 ∨ is_high p = true → proper (negb (p =? 0)) cps → fits b (length (ws ++ pending p ++ units_of_points cps)) →
  utf8_loop (bytes_of_points cps) (Z.of_nat (length ws)) 0 0 v p (written b ws) =
    Ok (Z.of_nat (length (ws ++ pending p ++ units_of_points cps))) (written b (ws ++ pending p ++ units_of_points cps)).
Proof.
  induction cps as [|c cps IH]; intros ws p v Hp Hpr Hf.
  - unfold units_of_points in *. cbn [fmap list_fmap concat] in *. rewrite app_nil_r in Hf |- *. unfold bytes_of_points. cbn [fmap list_fmap concat utf8_loop].
    by step_ok (flush_ok b ws p Hp Hf).
  - destruct Hpr as (Hc & Hl & Hpr). change (bytes_of_points (c :: cps)) with (wc_bytes c ++ bytes_of_points cps).
    change (units_of_points (c :: cps)) with (units c ++ units_of_points cps) in *. rewrite read_code_point by done.
    rewrite output_ok; [|done|done|intros Hne; apply Hl; by rewrite (proj2 (Z.eqb_neq p 0)) by done|].
    2: { eapply fits_le; [exact Hf|]. rewrite !length_app. lia. }
    unfold rest_of. destruct (is_high c) eqn:Eh.
    + destruct (high_pending c Eh) as (E1 & E2 & E3). rewrite E2 in *. rewrite (IH (ws ++ pending p) c c); rewrite ?E1, <- ?app_assoc; [done|by right| |done].
      by rewrite (proj2 (Z.eqb_neq c 0)) by done.
    + rewrite (IH (ws ++ pending p ++ units c) 0 c); change (pending 0) with (@nil Z); cbn [app]; rewrite <- ?app_assoc;
        [done|by left|done|done].
Qed.

Fixpoint code_points (us : list Z) : list Z :=
  match us with
  | [] => []
  | wc :: us' =>
      match us' with
      | u :: us'' =>
          if is_high wc && is_low u then ((wc - 55296) * 1024 + (u - 56320) + 65536) :: code_points us''
          else wc :: code_points us'
      | [] => [wc]
      end
  end.

(** Induction along the code points *)
Lemma units_ind (P : list Z → Prop) :
  P [] → (∀ wc u us, is_high wc = true → is_low u = true → P us → P (wc :: u :: us)) →
  (∀ wc us, code_points (wc :: us) = wc :: code_points us → (is_high wc = true → match us with u :: _ => is_low u = false | [] => True end) → P us → P (wc :: us)) →
  ∀ us, P us.
Proof.
  intros H0 H1 H2 us. remember (length us) as n eqn:Hn. assert (Hle : (length us ≤ n)%nat) by lia. clear Hn. revert us Hle.
  induction n as [|n IH]; intros [|wc us] Hle; cbn in Hle; try done; try lia.
  destruct us as [|u us]; [apply H2; [done|done|apply H0]|]. destruct (is_high wc && is_low u) eqn:E.
  - apply andb_true_iff in E as [E1 E2]. apply H1; [done|done|]. apply IH. cbn in Hle. lia.
  - apply H2; [cbn [code_points]; by rewrite E| |apply IH; lia]. intros Hh. by rewrite Hh in E.
Qed.

Definition unit16 (u : Z) : Prop := 0 ≤ u < 65536.

Lemma units_code_points us : Forall unit16 us → units_of_points (code_points us) = us.
Proof.
  induction us as [|wc u us Hh Hl IH|wc us E Hn IH] using units_ind; intros HF; [done| |].
  - apply Forall_cons in HF as [_ HF]. apply Forall_cons in HF as [_ HF]. cbn [code_points]. rewrite Hh, Hl. cbn [andb].
    change (units_of_points (?c :: ?cps)) with (units c ++ units_of_points cps). rewrite IH by done. unfold units.
    unfold is_high, is_low in *. destruct (Z.ltb_spec 65535 ((wc - 55296) * 1024 + (u - 56320) + 65536)); [|lia].
    replace ((wc - 55296) * 1024 + (u - 56320) + 65536 - 65536) with ((wc - 55296) * 1024 + (u - 56320)) by lia.
    rewrite Z.div_add_l, (Z.div_small (u - 56320)) by lia.
    rewrite (Z.add_comm (_ * 1024)), Z.mod_add, Z.mod_small by lia. cbn [app]. f_equal; [lia|f_equal; lia].
  - apply Forall_cons in HF as [Hu HF]. rewrite E. change (units_of_points (wc :: code_points us)) with (units wc ++ units_of_points (code_points us)).
    rewrite IH by done. unfold units, unit16 in *. destruct (Z.ltb_spec 65535 wc); [lia|done].
Qed.

Lemma code_points_proper us : Forall unit16 us → ∀ h, (h = true → match us with u :: _ => is_low u = false | [] => True end) → proper h (code_points us).
Proof.
  induction us as [|wc u us Hh Hl IH|wc us E Hn IH] using units_ind; intros HF h Hhead; [done| |].
  - apply Forall_cons in HF as [_ HF]. apply Forall_cons in HF as [_ HF]. cbn [code_points]. rewrite Hh, Hl. cbn [andb proper].
    unfold is_high, is_low in Hh, Hl. split; [unfold valid; lia|]. split; [intros _; unfold is_low; lia|]. apply IH; [done|].
    intros Hx. exfalso. unfold is_high in Hx. lia.
  - apply Forall_cons in HF as [Hu HF]. rewrite E. cbn [proper]. split; [unfold valid, unit16 in *; lia|]. split; [done|]. by apply IH.
Qed.

Lemma code_points_units cps : ∀ h, proper h cps → code_points (units_of_points cps) = cps.
Proof.
  induction cps as [|c cps IH]; intros h Hpr; [done|]. destruct Hpr as (Hc & _ & Hpr).
  change (units_of_points (c :: cps)) with (units c ++ units_of_points cps). specialize (IH _ Hpr). unfold valid in Hc. unfold units at 1.
  destruct (Z.ltb_spec 65535 c) as [Hb|Hb].
  - cbn [app code_points]. pose proof (Z.mod_pos_bound (c - 65536) 1024 ltac:(lia)). pose proof (Z.div_mod (c - 65536) 1024 ltac:(lia)).
    assert (0 ≤ (c - 65536) / 1024 < 1024) by (split; [apply Z.div_pos|apply Z.div_lt_upper_bound]; lia).
    assert (E : is_high (55296 + (c - 65536) / 1024) && is_low (56320 + (c - 65536) mod 1024) = true) by (unfold is_high, is_low; lia).
    rewrite E, IH. f_equal. lia.
  - cbn [app code_points]. destruct (units_of_points cps) as [|u us] eqn:Eu; [by rewrite <- IH|].
    assert (Hn : is_high c && is_low u = false).
    { destruct (is_high c) eqn:Eh; [|done]. cbn. destruct cps as [|c' cps]; [done|]. destruct Hpr as (Hc' & Hl & _). specialize (Hl eq_refl). unfold valid in Hc'.
      change (units_of_points (c' :: cps)) with (units c' ++ units_of_points cps) in Eu. unfold units in Eu. destruct (Z.ltb_spec 65535 c'); injection Eu as <- _; [|done].
      assert ((c' - 65536) / 1024 < 1024) by (apply Z.div_lt_upper_bound; lia). unfold is_low. lia. }
    rewrite Hn, IH. done.
Qed.

(** ** From units to bytes *)

Lemma land_surrogate wc : unit16 wc → (Z.land wc 63488 =? 55296) = is_high wc || is_low wc.
Proof.
  intros Hw. change 63488 with (Z.shiftl (Z.ones 5) 11). rewrite land_upper by (done || lia). change (2 ^ 11) with 2048.
  unfold is_high, is_low, unit16 in *. pose proof (Z.div_mod wc 2048 ltac:(lia)). pose proof (Z.mod_pos_bound wc 2048 ltac:(lia)).
  destruct (Z.eqb_spec (wc / 2048 * 2048) 55296); lia.
Qed.

Lemma land_pair wc : unit16 wc → (Z.land wc 64512 =? 55296) = is_high wc ∧ (Z.land wc 64512 =? 56320) = is_low wc.
Proof.
  intros Hw. change 64512 with (Z.shiftl (Z.ones 6) 10). rewrite land_upper by (done || lia). change (2 ^ 10) with 1024.
  unfold is_high, is_low, unit16 in *. pose proof (Z.div_mod wc 1024 ltac:(lia)). pose proof (Z.mod_pos_bound wc 1024 ltac:(lia)).
  destruct (Z.eqb_spec (wc / 1024 * 1024) 55296), (Z.eqb_spec (wc / 1024 * 1024) 56320); lia.
Qed.

Lemma wc_bytes_range c : valid c → Forall (λ b, 0 ≤ b < 256) (wc_bytes c).
Proof.
  intros Hc. rewrite wc_bytes_eq by done. unfold valid in Hc.
  pose proof (Z.mod_pos_bound c 64). pose proof (Z.mod_pos_bound (c / 64) 64). pose proof (Z.mod_pos_bound (c / 4096) 64).
  repeat case_match; repeat constructor; try lia.
  all: try (apply Z.ltb_ge in H2 || idtac); try (apply Z.add_nonneg_nonneg; [lia|apply Z.div_pos; lia]).
  - apply Z.ltb_lt in H3. assert (c / 64 < 32) by (apply Z.div_lt_upper_bound; lia). lia.
  - apply Z.ltb_lt in H4. assert (c / 4096 < 16) by (apply Z.div_lt_upper_bound; lia). lia.
  - assert (c / 262144 < 5) by (apply Z.div_lt_upper_bound; lia). lia.
Qed.

Lemma put_bytes_ok b bs : ∀ ws,
  Forall (λ x, 0 ≤ x < 256) bs → fits b (length (ws ++ bs)) →
  put_bytes (Z.of_nat (length ws)) bs (written b ws) = Ok (Z.of_nat (length (ws ++ bs))) (written b (ws ++ bs)).
Proof.
  induction bs as [|x bs IH]; intros ws HF Hf; [by rewrite app_nil_r|]. apply Forall_cons in HF as [Hx HF]. cbn [put_bytes].
  rewrite length_app in Hf. cbn [length] in Hf. assert (Hf' : fits b (S (length ws))) by (eapply fits_le; [exact Hf|lia]).
  step_ok (put_at_ok 8 b ws x Hf' Hx). replace (Z.of_nat (length ws) + 1) with (Z.of_nat (length (ws ++ [x]))) by (rewrite length_app; cbn [length]; lia).
  rewrite (cons_middle x ws bs), app_assoc. apply IH; [done|]. rewrite !length_app. cbn [length]. by rewrite <- Nat.add_assoc.
Qed.

Lemma put_wc_ok b ws c :
  valid c → fits b (length (ws ++ wc_bytes c)) →
  put_wc (Z.of_nat (length ws)) c (written b ws) = Ok (Z.of_nat (length (ws ++ wc_bytes c))) (written b (ws ++ wc_bytes c)).
Proof.
  intros Hc Hf. unfold put_wc. step_ok (eq_refl : get_buffer (written b ws) = Ok (written b ws) (written b ws)). destruct b as [l|].
  - apply put_bytes_ok; [by apply wc_bytes_range|done].
  - cbn. f_equal. rewrite length_app. unfold wc_size, wc_bytes, valid in *. repeat case_match; cbn [length]; lia.
Qed.

Lemma write_all b us : Forall unit16 us → ∀ ws,
  fits b (length (ws ++ bytes_of_points (code_points us))) →
  utf16_loop us (Z.of_nat (length ws)) (written b ws) =
    Ok (Z.of_nat (length (ws ++ bytes_of_points (code_points us)))) (written b (ws ++ bytes_of_points (code_points us))).
Proof.
  induction us as [|wc u us Hh Hl IH|wc us E Hn IH] using units_ind; intros HF ws Hf.
  - cbn. by rewrite app_nil_r.
  - apply Forall_cons in HF as [Hw HF]. apply Forall_cons in HF as [Hu HF]. cbn [utf16_loop].
    destruct (land_pair wc Hw) as [E1 _]. destruct (land_pair u Hu) as [_ E2]. rewrite land_surrogate, E1, E2, Hh, Hl by done. cbn [orb andb].
    cbn [code_points] in *. rewrite Hh, Hl in *. cbn [andb] in *. unfold is_high, is_low in Hh, Hl.
    assert (Ec : Z.shiftl (Z.land wc 1023) 10 + Z.land u 1023 + 65536 = (wc - 55296) * 1024 + (u - 56320) + 65536).
    { rewrite !land_1023, Z.shiftl_mul_pow2 by lia. change (2 ^ 10) with 1024.
      replace (wc mod 1024) with (wc - 55296) by (apply (Z.mod_unique_pos _ _ 54); lia).
      replace (u mod 1024) with (u - 56320) by (apply (Z.mod_unique_pos _ _ 55); lia). done. }
    rewrite Ec. set (c := (wc - 55296) * 1024 + (u - 56320) + 65536) in *.
    change (bytes_of_points (c :: code_points us)) with (wc_bytes c ++ bytes_of_points (code_points us)) in *. rewrite app_assoc in Hf |- *.
    assert (Hc : valid c) by (unfold valid, c; lia).
    step_ok (put_wc_ok b ws c Hc ltac:(eapply fits_le; [exact Hf|rewrite (length_app (ws ++ _)); lia])). by apply IH.
  - apply Forall_cons in HF as [Hw HF]. rewrite E in *.
    change (bytes_of_points (wc :: code_points us)) with (wc_bytes wc ++ bytes_of_points (code_points us)) in *. rewrite app_assoc in Hf |- *.
    assert (Hc : valid wc) by (unfold valid, unit16 in *; lia).
    assert (Estep : utf16_loop (wc :: us) (Z.of_nat (length ws)) (written b ws) = (j <- put_wc (Z.of_nat (length ws)) wc ;; utf16_loop us j) (written b ws)).
    { cbn [utf16_loop]. destruct (land_pair wc Hw) as [E1 _]. rewrite land_surrogate, E1 by done.
      destruct (is_high wc) eqn:Hh; [|by rewrite andb_false_r]. cbn [orb andb]. destruct us as [|u us]; [done|].
      apply Forall_cons in HF as [Hu _]. destruct (land_pair u Hu) as [_ E2]. by rewrite E2, (Hn eq_refl). }
    rewrite Estep. step_ok (put_wc_ok b ws wc Hc ltac:(eapply fits_le; [exact Hf|rewrite (length_app (ws ++ _)); lia])). by apply IH.
Qed.

(** ** What is accepted *)

Lemma byte_class b : 0 ≤ b < 256 →
  (Z.land b 192 =? 128) = (128 <=? b) && (b <? 192) ∧ (Z.land b 224 =? 192) = (192 <=? b) && (b <? 224)
  ∧ (Z.land b 240 =? 224) = (224 <=? b) && (b <? 240) ∧ (Z.land b 248 =? 240) = (240 <=? b) && (b <? 248).
Proof.
  intros Hb. pose proof (all_below (λ b, eqb (Z.land b 192 =? 128) ((128 <=? b) && (b <? 192)) && eqb (Z.land b 224 =? 192) ((192 <=? b) && (b <? 224))
    && eqb (Z.land b 240 =? 224) ((224 <=? b) && (b <? 240)) && eqb (Z.land b 248 =? 240) ((240 <=? b) && (b <? 248))) 256 b
    ltac:(vm_compute; reflexivity) Hb) as H. cbn beta in H.
  apply andb_true_iff in H as [H H4%eqb_prop]. apply andb_true_iff in H as [H H3%eqb_prop]. by apply andb_true_iff in H as [H1%eqb_prop H2%eqb_prop].
Qed.

(** In a sequence, a continuation follows or the bytes are refused. *)
Lemma next_byte s j state nextbits v p :
  state ≠ 0 → Forall (λ b, 0 ≤ b < 256) s →
  (∃ x s', 0 ≤ x < 64 ∧ s = 128 + x :: s' ∧ (nextbits = 0 ∨ Z.land (128 + x) nextbits ≠ 0)) ∨ utf8_loop s j state nextbits v p None = Ok (-1) None.
Proof.
  intros Hs HF. destruct s as [|b s].
  - right. cbn [utf8_loop]. rewrite (proj2 (Z.eqb_neq state 0)) by done. by destruct (p =? 0).
  - apply Forall_cons in HF as [Hb HF]. destruct (byte_class b Hb) as (E & _). cbn [utf8_loop]. rewrite (proj2 (Z.eqb_neq state 0)), E by done. cbn [negb].
    destruct (Z.ltb_spec b 128); [by right|]. destruct (Z.ltb_spec b 192); [|rewrite andb_false_r; by right].
    rewrite (proj2 (Z.leb_le 128 b)) by done. cbn [andb].
    destruct ((nextbits =? 0) || negb (Z.land b nextbits =? 0)) eqn:En; [left|by right]. exists (b - 128), s.
    replace (128 + (b - 128)) with b by lia. split; [lia|]. split; [done|]. apply orb_true_iff in En as [En|En]; [left; lia|right]. apply negb_true_iff in En. lia.
Qed.

Lemma div_mod_64 a b : 0 ≤ b < 64 → (a * 64 + b) / 64 = a ∧ (a * 64 + b) mod 64 = b.
Proof. intros Hb. split; [rewrite Z.div_add_l, Z.div_small by lia; lia|rewrite Z.add_comm, Z.mod_add, Z.mod_small by lia; done]. Qed.

Lemma points_2 x y : 2 ≤ x < 32 → 0 ≤ y < 64 → valid (x * 64 + y) ∧ wc_bytes (x * 64 + y) = [192 + x; 128 + y].
Proof.
  intros Hx Hy. assert (Hv : valid (x * 64 + y)) by (unfold valid; lia). split; [done|]. rewrite wc_bytes_eq by done.
  destruct (div_mod_64 x y Hy) as [-> ->]. by rewrite (proj2 (Z.ltb_ge _ 128)), (proj2 (Z.ltb_lt _ 2048)) by lia.
Qed.

Lemma points_3 x y z : 0 ≤ x < 16 → 0 ≤ y < 64 → 0 ≤ z < 64 → x ≠ 0 ∨ 32 ≤ y →
  let c := (x * 64 + y) * 64 + z in valid c ∧ wc_bytes c = [224 + x; 128 + y; 128 + z].
Proof.
  intros Hx Hy Hz Hxy c. assert (Hv : valid c) by (unfold valid, c; lia). split; [done|]. rewrite wc_bytes_eq by done.
  destruct (div_mod_64 (x * 64 + y) z Hz) as [E1 E2]. destruct (div_mod_64 x y Hy) as [E3 E4].
  assert (E5 : c / 4096 = x) by (change 4096 with (64 * 64); rewrite <- Z.div_div by lia; unfold c; by rewrite E1, E3). rewrite E5. unfold c. rewrite E1, E2, E4.
  by rewrite (proj2 (Z.ltb_ge _ 128)), (proj2 (Z.ltb_ge _ 2048)), (proj2 (Z.ltb_lt _ 65536)) by lia.
Qed.

Lemma points_4 x y z w : 0 ≤ x → 0 ≤ y < 64 → 0 ≤ z < 64 → 0 ≤ w < 64 → x ≠ 0 ∨ 16 ≤ y →
  let c := ((x * 64 + y) * 64 + z) * 64 + w in c ≤ 1114111 → valid c ∧ wc_bytes c = [240 + x; 128 + y; 128 + z; 128 + w].
Proof.
  intros Hx Hy Hz Hw Hxy c Hc. assert (Hv : valid c) by (unfold valid, c in *; lia). split; [done|]. rewrite wc_bytes_eq by done.
  destruct (div_mod_64 ((x * 64 + y) * 64 + z) w Hw) as [E1 E2]. destruct (div_mod_64 (x * 64 + y) z Hz) as [E3 E4]. destruct (div_mod_64 x y Hy) as [E5 E6].
  assert (E7 : c / 4096 = x * 64 + y) by (change 4096 with (64 * 64); rewrite <- Z.div_div by lia; unfold c; by rewrite E1, E3).
  assert (E8 : c / 262144 = x) by (change 262144 with (4096 * 64); rewrite <- Z.div_div, E7 by lia; exact E5).
  rewrite E7, E8, E6. unfold c. rewrite E1, E2, E4.
  by rewrite (proj2 (Z.ltb_ge _ 128)), (proj2 (Z.ltb_ge _ 2048)), (proj2 (Z.ltb_ge _ 65536)) by lia.
Qed.

(** The bytes of a code point, or bytes that are refused *)
Lemma parse_point s j v p :
  Forall (λ b, 0 ≤ b < 256) s → s ≠ [] →
  (∃ c s', valid c ∧ s = wc_bytes c ++ s') ∨ utf8_loop s j 0 0 v p None = Ok (-1) None.
Proof.
  intros HF Hne. destruct s as [|b0 s]; [done|]. clear Hne. apply Forall_cons in HF as [H0 HF].
  destruct (decide (b0 < 128)) as [L|L].
  { left. exists b0, s. assert (Hv : valid b0) by (unfold valid; lia). split; [done|]. rewrite wc_bytes_eq by done. by rewrite (proj2 (Z.ltb_lt b0 128)). }
  destruct (byte_class b0 H0) as (C1 & C2 & C3 & C4). destruct (decide (192 ≤ b0 < 248)) as [L1|L1].
  2: { right. cbn [utf8_loop]. rewrite (proj2 (Z.ltb_ge b0 128)) by lia. rewrite C1, C2, C3, C4. cbn [Z.eqb negb].
    destruct (decide (b0 < 192)); [assert (E : (128 <=? b0) && (b0 <? 192) = true) by lia; by rewrite E|].
    assert (E1 : (128 <=? b0) && (b0 <? 192) = false) by lia. assert (E2 : (192 <=? b0) && (b0 <? 224) = false) by lia.
    assert (E3 : (224 <=? b0) && (b0 <? 240) = false) by lia. assert (E4 : (240 <=? b0) && (b0 <? 248) = false) by lia. by rewrite E1, E2, E3, E4. }
  destruct (decide (b0 < 224)) as [L2|L2].
  { replace b0 with (192 + (b0 - 192)) by lia. set (x := b0 - 192) in *. destruct (decide (x < 2)) as [Lx|Lx].
    - right. cbn [utf8_loop]. destruct (lead_2 x) as (_ & -> & -> & -> & -> & _); [unfold x; lia|]. by rewrite (proj2 (Z.ltb_lt x 2)).
    - assert (Hx : 2 ≤ x < 32) by (unfold x in *; lia). rewrite lead_2_step by done.
      destruct (next_byte s j 1 0 x p ltac:(done) HF) as [(y & s' & Hy & -> & _)|E]; [|by right].
      left. destruct (points_2 x y Hx Hy) as [Hv E]. exists (x * 64 + y), s'. by rewrite E. }
  destruct (decide (b0 < 240)) as [L3|L3].
  { replace b0 with (224 + (b0 - 224)) by lia. set (x := b0 - 224) in *. assert (Hx : 0 ≤ x < 16) by (unfold x; lia). rewrite lead_3_step by done.
    destruct (next_byte s j 2 (if x =? 0 then 32 else 0) x p ltac:(done) HF) as [(y & s1 & Hy & -> & Hn)|E]; [|by right].
    apply Forall_cons in HF as [_ HF]. rewrite cont_step by done. rewrite decide_False by done. change (2 - 1) with 1.
    destruct (next_byte s1 j 1 0 (x * 64 + y) p ltac:(done) HF) as [(z & s2 & Hz & -> & _)|E]; [|by right].
    left. destruct (points_3 x y z Hx Hy Hz) as [Hv E]; [|by exists ((x * 64 + y) * 64 + z), s2; rewrite E].
    destruct (Z.eqb_spec x 0) as [->|]; [right|by left]. destruct Hn as [|Hn]; [done|].
    destruct (continuation y Hy) as (_ & _ & _ & _ & E & _). apply Z.eqb_neq in Hn. rewrite E in Hn. lia. }
  replace b0 with (240 + (b0 - 240)) by lia. set (x := b0 - 240) in *. assert (Hx : 0 ≤ x < 8) by (unfold x; lia). rewrite lead_4_step by done.
  destruct (Z.leb_spec x 4) as [Lx|Lx]; [|by right].
  destruct (next_byte s j 3 (if x =? 0 then 48 else 0) x p ltac:(done) HF) as [(y & s1 & Hy & -> & Hn)|E]; [|by right].
  apply Forall_cons in HF as [_ HF]. rewrite cont_step by done. rewrite decide_False by done. change (3 - 1) with 2.
  destruct (next_byte s1 j 2 0 (x * 64 + y) p ltac:(done) HF) as [(z & s2 & Hz & -> & _)|E]; [|by right].
  apply Forall_cons in HF as [_ HF]. rewrite cont_step by auto. rewrite decide_False by done. change (2 - 1) with 1.
  destruct (next_byte s2 j 1 0 ((x * 64 + y) * 64 + z) p ltac:(done) HF) as [(w & s3 & Hw & -> & _)|E]; [|by right].
  rewrite cont_step by auto. rewrite decide_True by done.
  destruct (Z.ltb_spec 1114111 (((x * 64 + y) * 64 + z) * 64 + w)) as [Hbig|Hbig]; [by right|]. left.
  destruct (points_4 x y z w ltac:(lia) Hy Hz Hw) as [Hv E]; [|done|by exists (((x * 64 + y) * 64 + z) * 64 + w), s3; rewrite E].
  destruct (Z.eqb_spec x 0) as [->|]; [right|by left]. destruct Hn as [|Hn]; [done|].
  destruct (continuation y Hy) as (_ & _ & _ & _ & _ & E). apply Z.eqb_neq in Hn. rewrite E in Hn. lia.
Qed.

(** What is not refused is the bytes of proper code points. *)
Lemma parse_all s : Forall (λ b, 0 ≤ b < 256) s → ∀ (ws : list Z) p v,
  p = 0 ∨ is_high p = true →
  (∃ cps, s = bytes_of_points cps ∧ proper (negb (p =? 0)) cps) ∨ utf8_loop s (Z.of_nat (length ws)) 0 0 v p None = Ok (-1) None.
Proof.
  remember (length s) as n eqn:Hn. assert (Hle : (length s ≤ n)%nat) by lia. clear Hn. revert s Hle.
  induction n as [|n IH]; intros s Hle HF ws p v Hp; (destruct (decide (s = [])) as [->|Hne]; [by left; exists []|]);
    [destruct s; [done|cbn in Hle; lia]|].
  destruct (parse_point s (Z.of_nat (length ws)) v p HF Hne) as [(c & s' & Hc & ->)|E]; [|by right].
  rewrite read_code_point by done. destruct (decide (p ≠ 0 ∧ is_low c = true)) as [[Hp0 Hl]|Hok].
  { right. by apply output_refused. }
  assert (Hlow : p ≠ 0 → is_low c = false) by (intros Hp0; destruct (is_low c); [exfalso; by apply Hok|done]).
  pose proof (output_ok (rest_of s' 0 c) None ws c p Hc Hp Hlow I) as E. cbn [written fmap option_fmap option_map] in E.
  change (written None ?w) with (@None (list Z)) in E. rewrite E. apply Forall_app in HF as [_ HF].
  assert (Hlt : (length s' ≤ n)%nat).
  { rewrite length_app in Hle. assert (length (wc_bytes c) ≠ 0%nat) by (rewrite wc_bytes_eq by done; repeat case_match; done). lia. }
  assert (Hpc : ∀ cps, proper (is_high c) cps → proper (negb (p =? 0)) (c :: cps)).
  { intros cps Hcps. split; [done|]. split; [|done]. intros Hb. apply Hlow. destruct (Z.eqb_spec p 0); done. }
  unfold rest_of. destruct (is_high c) eqn:Eh.
  - destruct (high_pending c Eh) as (_ & _ & Hc0).
    destruct (IH s' Hlt HF (ws ++ pending p) c c (or_intror Eh)) as [(cps & -> & Hpr)|E']; [left|by right].
    exists (c :: cps). split; [done|]. apply Hpc. by rewrite (proj2 (Z.eqb_neq c 0)) in Hpr by done.
  - destruct (IH s' Hlt HF (ws ++ pending p ++ units c) 0 c (or_introl eq_refl)) as [(cps & -> & Hpr)|E']; [left|by right].
    exists (c :: cps). split; [done|]. by apply Hpc.
Qed.

(** ** Round trips *)

Lemma proper_end h cps : proper h (cps ++ [0]) ↔ proper h cps.
Proof.
  revert h. induction cps as [|c cps IH]; intros h; cbn [app proper]; [|rewrite IH; done].
  split; [done|]. intros _. split; [unfold valid; lia|]. done.
Qed.

Lemma bytes_end cps : bytes_of_points (cps ++ [0]) = bytes_of_points cps ++ [0].
Proof. unfold bytes_of_points. by rewrite fmap_app, concat_app. Qed.
Lemma units_end cps : units_of_points (cps ++ [0]) = units_of_points cps ++ [0].
Proof. unfold units_of_points. by rewrite fmap_app, concat_app. Qed.

Lemma proper_valid h cps : proper h cps → Forall valid cps.
Proof. revert h. induction cps as [|c cps IH]; intros h; [constructor|]. intros (Hc & _ & Hp). constructor; [done|by eapply IH]. Qed.

Lemma wc_bytes_0 c : valid c → 0 ∈ wc_bytes c → c = 0.
Proof.
  intros Hc. rewrite wc_bytes_eq by done. unfold valid in Hc. pose proof (Z.mod_pos_bound c 64 ltac:(lia)).
  pose proof (Z.mod_pos_bound (c / 64) 64 ltac:(lia)). pose proof (Z.mod_pos_bound (c / 4096) 64 ltac:(lia)).
  pose proof (Z.div_pos c 64 ltac:(lia) ltac:(lia)). pose proof (Z.div_pos c 4096 ltac:(lia) ltac:(lia)). pose proof (Z.div_pos c 262144 ltac:(lia) ltac:(lia)).
  repeat case_match; rewrite !elem_of_cons; intros Hin; destruct_or?; try lia; by apply not_elem_of_nil in Hin.
Qed.

Lemma units_0 c : valid c → 0 ∈ units c → c = 0.
Proof.
  intros Hc. unfold units, valid in *. pose proof (Z.mod_pos_bound (c - 65536) 1024 ltac:(lia)).
  destruct (Z.ltb_spec 65535 c); [pose proof (Z.div_pos (c - 65536) 1024 ltac:(lia) ltac:(lia))|];
    rewrite !elem_of_cons; intros Hin; destruct_or?; try lia; by apply not_elem_of_nil in Hin.
Qed.

(** A nul on one side is one on the other. *)
Lemma no_nul cps : Forall valid cps → (0 ∉ bytes_of_points cps ↔ 0 ∉ cps) ∧ (0 ∉ units_of_points cps ↔ 0 ∉ cps).
Proof.
  intros Hv. rewrite Forall_forall in Hv. unfold bytes_of_points, units_of_points.
  assert (H : ∀ f : Z → list Z, (∀ c, valid c → 0 ∈ f c → c = 0) → 0 ∈ f 0 → (0 ∉ concat (f <$> cps) ↔ 0 ∉ cps)).
  { intros f Hf H0. apply not_iff_compat. rewrite list_elem_of_In, in_concat. setoid_rewrite <- list_elem_of_In. split.
    - intros (l & (c & -> & Hc)%list_elem_of_fmap & Hl). by rewrite <- (Hf c (Hv c Hc) Hl).
    - intros Hin. exists (f 0). split; [|done]. apply list_elem_of_fmap. by exists 0. }
  split; apply H; [apply wc_bytes_0|by left|apply units_0|by left].
Qed.

Lemma c_str_no_nul s : 0 ∉ s → c_str s = s.
Proof. intros H. apply c_str_id. apply Forall_forall. by intros c Hc ->. Qed.

Lemma length_malloc_buffer g n : length (malloc_buffer g n) = Z.to_nat n.
Proof. unfold malloc_buffer. rewrite length_take, length_app, length_replicate. lia. Qed.

(** The size that is kept is that of the shared buffer. *)
Definition wide_ok (w : wide) : Prop := wide_buffer_size w = Z.of_nat (length (wide_buffer w)).

Lemma convert_from_ok g cps :
  proper false cps → 0 ∉ cps → Forall unit16 (units_of_points cps) →
  rktio_convert_from_wchar g (units_of_points cps) = Ok (bytes_of_points cps ++ [0]) None.
Proof.
  intros Hp H0 Hu. destruct (no_nul cps (proper_valid _ _ Hp)) as [_ Hn]. unfold rktio_convert_from_wchar.
  rewrite c_str_no_nul by tauto. rewrite <- units_end. set (us := units_of_points (cps ++ [0])).
  assert (HF : Forall unit16 us).
  { unfold us. rewrite units_end. apply Forall_app. split; [done|]. constructor; [unfold unit16; lia|constructor]. }
  assert (Ec : code_points us = cps ++ [0]) by (apply (code_points_units _ false), proper_end, Hp).
  pose proof (write_all None us HF [] I) as E. change (written None ?w) with (@None (list Z)) in E. unfold utf16ish_to_utf8ish.
  cbn [app length] in E. rewrite Ec, bytes_end in E. change (Z.of_nat 0) with 0 in E. rewrite E.
  set (buf := malloc_buffer g _). assert (Hl : length buf = length (bytes_of_points cps ++ [0])) by (unfold buf; by rewrite length_malloc_buffer, Nat2Z.id).
  pose proof (write_all (Some buf) us HF []) as E2. cbn [app length] in E2. rewrite Ec, bytes_end in E2. cbn [fits] in E2. rewrite Hl in E2.
  specialize (E2 (le_n _)). change (Z.of_nat 0) with 0 in E2. change (written (Some buf) []) with (Some buf) in E2. rewrite E2.
  cbn [written fmap option_fmap option_map]. rewrite drop_ge by lia. by rewrite app_nil_r.
Qed.

Lemma convert_to_ok g rktio cps do_copy :
  wide_ok rktio → proper false cps → 0 ∉ cps →
  ∃ rest rktio', rktio_convert_to_wchar g rktio (bytes_of_points cps) do_copy = Ok (Converted (units_of_points cps ++ 0 :: rest) rktio') None
    ∧ wide_ok rktio' ∧ (if do_copy then rest = [] ∧ rktio' = rktio else wide_buffer rktio' = units_of_points cps ++ 0 :: rest).
Proof.
  intros Hw Hp H0. destruct (no_nul cps (proper_valid _ _ Hp)) as [Hn _]. unfold rktio_convert_to_wchar.
  rewrite c_str_no_nul by tauto. rewrite <- bytes_end. apply proper_end in Hp. set (us := units_of_points cps).
  pose proof (read_all None (cps ++ [0]) [] 0 0 (or_introl eq_refl) Hp I) as E. change (written None ?w) with (@None (list Z)) in E.
  change (pending 0) with (@nil Z) in E. cbn [app length] in E. rewrite units_end in E. change (Z.of_nat 0) with 0 in E. fold us in E.
  unfold utf8ish_to_utf16ish. rewrite E. set (n := Z.of_nat (length (us ++ [0]))). rewrite (proj2 (Z.ltb_ge n 0)) by lia.
  assert (Hbuf : ∀ ws : list Z, (length (us ++ [0%Z]) ≤ length ws)%nat →
    utf8_loop (bytes_of_points (cps ++ [0])) 0 0 0 0 0 (Some ws) = Ok n (Some (us ++ 0 :: drop (length (us ++ [0])) ws))).
  { intros ws Hws. pose proof (read_all (Some ws) (cps ++ [0]) [] 0 0 (or_introl eq_refl) Hp) as E2. change (pending 0) with (@nil Z) in E2.
    cbn [app length] in E2. rewrite units_end in E2. fold us in E2. specialize (E2 Hws). change (Z.of_nat 0) with 0 in E2.
    change (written (Some ws) []) with (Some ws) in E2. rewrite E2. unfold written. cbn [fmap option_fmap option_map]. by rewrite <- app_assoc. }
  assert (Hlen : ∀ ws : list Z, (length (us ++ [0%Z]) ≤ length ws)%nat → length (us ++ 0 :: drop (length (us ++ [0])) ws) = length ws).
  { intros ws Hws. rewrite length_app. cbn [length]. rewrite length_drop. rewrite length_app in Hws |- *. cbn [length] in *. lia. }
  assert (Hex : length (malloc_buffer g n) = length (us ++ [0])) by (rewrite length_malloc_buffer; unfold n; lia).
  unfold wide_ok in *. destruct do_copy.
  - rewrite Hbuf by lia. eexists _, rktio. split; [done|]. split; [done|]. split; [|done]. apply drop_ge. lia.
  - destruct (Z.ltb_spec (wide_buffer_size rktio) n) as [Hs|Hs].
    + rewrite Hbuf by lia. eexists _, _. split; [done|]. cbn. rewrite Hlen by lia. split; [lia|done].
    + destruct (Z.ltb_spec n RKTIO_MAX_IDEAL_BUFFER_SIZE) as [Hm|Hm]; cbn [andb].
      * destruct (RKTIO_MAX_IDEAL_BUFFER_SIZE <? wide_buffer_size rktio).
        -- pose proof (length_malloc_buffer g RKTIO_MAX_IDEAL_BUFFER_SIZE) as Hl. unfold n in Hm.
           assert (Hf : (length (us ++ [0%Z]) ≤ length (malloc_buffer g RKTIO_MAX_IDEAL_BUFFER_SIZE))%nat) by (rewrite Hl; lia).
           rewrite Hbuf by done. eexists _, _. split; [done|]. cbn [wide_buffer wide_buffer_size]. rewrite Hlen, Hl by done. split; [unfold RKTIO_MAX_IDEAL_BUFFER_SIZE; lia|done].
        -- rewrite Hbuf by lia. eexists _, _. split; [done|]. cbn. rewrite Hlen by lia. split; [lia|done].
      * rewrite Hbuf by lia. eexists _, _. split; [done|]. cbn. rewrite Hlen by lia. split; [lia|done].
Qed.

(** C39. Every string of 16-bit units, with paired and unpaired surrogates, is
    converted to bytes, and these back to the same units, into a fresh buffer
    or the shared one, whose recorded size stays its size; no conversion writes
    outside of its buffer. *)
Theorem wide_units_round_trip g g' rktio us do_copy :
  Forall unit16 us → 0 ∉ us → wide_ok rktio →
  ∃ s, rktio_convert_from_wchar g us = Ok (s ++ [0]) None ∧ 0 ∉ s
    ∧ ∃ rest rktio', rktio_convert_to_wchar g' rktio s do_copy = Ok (Converted (us ++ 0 :: rest) rktio') None ∧ wide_ok rktio'
      ∧ (if do_copy then rest = [] ∧ rktio' = rktio else wide_buffer rktio' = us ++ 0 :: rest).
Proof.
  intros Hu H0 Hw. pose proof (units_code_points us Hu) as E. assert (Hp : proper false (code_points us)) by (by apply code_points_proper).
  destruct (no_nul _ (proper_valid _ _ Hp)) as [Hb Hc]. rewrite E in Hc. assert (H0' : 0 ∉ code_points us) by tauto.
  exists (bytes_of_points (code_points us)).
  pose proof (convert_from_ok g _ Hp H0') as E1. rewrite E in E1. split; [by apply E1|]. split; [tauto|].
  destruct (convert_to_ok g' rktio _ do_copy Hw Hp H0') as (rest & rktio' & E2 & Hw' & Hd). rewrite E in E2, Hd. by exists rest, rktio'.
Qed.

Lemma points_units16 h cps : proper h cps → Forall unit16 (units_of_points cps).
Proof.
  revert h. induction cps as [|c cps IH]; intros h Hp; [constructor|]. destruct Hp as (Hc & _ & Hp).
  change (units_of_points (c :: cps)) with (units c ++ units_of_points cps). apply Forall_app. split; [|by eapply IH].
  unfold units, valid in *. pose proof (Z.mod_pos_bound (c - 65536) 1024 ltac:(lia)). destruct (Z.ltb_spec 65535 c).
  - assert (0 ≤ (c - 65536) / 1024 < 1024) by (split; [apply Z.div_pos|apply Z.div_lt_upper_bound]; lia).
    constructor; [unfold unit16; lia|]. constructor; [unfold unit16; lia|constructor].
  - constructor; [unfold unit16; lia|constructor].
Qed.

(** C40. A path in bytes is refused, or it is converted to units that are
    converted back to the same bytes: no two paths have the same units. *)
Theorem wide_bytes_round_trip g g' rktio s do_copy :
  Forall (λ b, 0 ≤ b < 256) s → 0 ∉ s → wide_ok rktio →
  rktio_convert_to_wchar g rktio s do_copy = Ok Invalid_path None
  ∨ ∃ us rest rktio', rktio_convert_to_wchar g rktio s do_copy = Ok (Converted (us ++ 0 :: rest) rktio') None ∧ wide_ok rktio'
      ∧ 0 ∉ us ∧ rktio_convert_from_wchar g' us = Ok (s ++ [0]) None.
Proof.
  intros Hs H0 Hw. assert (HF : Forall (λ b, 0 ≤ b < 256) (s ++ [0])) by (apply Forall_app; split; [done|repeat constructor; lia]).
  destruct (parse_all (s ++ [0]) HF [] 0 0 (or_introl eq_refl)) as [(cps' & Es & Hp)|E].
  - right. assert (Hv' := proper_valid _ _ Hp). destruct cps' as [|c cps _] using rev_ind; [by destruct s|].
    unfold bytes_of_points in Es. rewrite fmap_app, concat_app in Es. cbn [fmap list_fmap concat] in Es. rewrite app_nil_r in Es.
    apply Forall_app in Hv' as [_ Hv']. apply Forall_cons in Hv' as [Hc _].
    assert (c = 0) as ->.
    { apply wc_bytes_0; [done|]. assert (Hne : wc_bytes c ≠ []) by (rewrite wc_bytes_eq by done; repeat case_match; done).
      destruct (exists_last Hne) as (l & b & Eb). rewrite Eb in Es. rewrite app_assoc in Es. apply app_inj_tail in Es as [_ <-].
      rewrite Eb. apply elem_of_app. right. by left. }
    apply app_inj_tail in Es as [-> _]. apply (proj1 (proper_end _ _)) in Hp. fold (bytes_of_points cps) in *.
    destruct (no_nul _ (proper_valid _ _ Hp)) as [Hb Hu]. assert (H0' : 0 ∉ cps) by (by apply Hb).
    destruct (convert_to_ok g rktio cps do_copy Hw Hp H0') as (rest & rktio' & E & Hw' & _).
    exists (units_of_points cps), rest, rktio'. split; [exact E|]. split; [done|]. split; [by apply Hu|].
    apply convert_from_ok; [done|done|by eapply points_units16].
  - left. unfold rktio_convert_to_wchar, utf8ish_to_utf16ish. rewrite c_str_no_nul by done. change (Z.of_nat (length [])) with 0 in E. by rewrite E.
Qed.

(** ** Witnesses *)

Definition no_wide : wide := Wide [] 0.

(** A letter, an unpaired surrogate and a pair *)
Lemma wide_units_round_trip_witness :
  ∃ s rest rktio, rktio_convert_from_wchar [] [97; 56320; 55296; 56320] = Ok (s ++ [0]) None
    ∧ rktio_convert_to_wchar [] no_wide s false = Ok (Converted ([97; 56320; 55296; 56320] ++ 0 :: rest) rktio) None.
Proof.
  destruct (wide_units_round_trip [] [] no_wide [97; 56320; 55296; 56320] false) as (s & E & _ & rest & rktio & E' & _).
  - repeat (apply Forall_cons_2; [unfold unit16; lia|]). apply Forall_nil_2.
  - by apply (bool_decide_eq_false_1 _).
  - done.
  - by exists s, rest, rktio.
Defined.

(** The two bytes of one character *)
Lemma wide_bytes_round_trip_witness :
  rktio_convert_to_wchar [] no_wide [195; 169] true = Ok Invalid_path None
  ∨ ∃ us rest rktio, rktio_convert_to_wchar [] no_wide [195; 169] true = Ok (Converted (us ++ 0 :: rest) rktio) None
      ∧ rktio_convert_from_wchar [] us = Ok ([195; 169] ++ [0]) None.
Proof.
  destruct (wide_bytes_round_trip [] [] no_wide [195; 169] true) as [E|(us & rest & rktio & E & _ & _ & E')].
  - repeat constructor; lia.
  - by apply (bool_decide_eq_false_1 _).
  - done.
  - by left.
  - right. by exists us, rest, rktio.
Defined.
