(* ===== verification/Scope.v ===== *)
(** * Well-scoped programs on trees

    The invariant of running programs whose variables are bound: the values,
    the environments and the continuations that a machine state holds have the
    shapes that the evaluator expects.  A step of the machine keeps it. *)

From S2P Require Import Prelude Sys Heap Alloc Gc GcCorrect Objects Trie Lists ImageOk Value Intern Sort Printer Reader Prims Interp Machine.

(** The identifiers that the formals bind, in front of [Γ]. *)
Fixpoint scope_formals (f : val) (Γ : list Z) : option (list Z) :=
  match f with
  | Vnull => Some Γ
  | Vsym id => Some (id :: Γ)
  | Vpair (Vsym id) f' => scope_formals f' (id :: Γ)
  | _ => None
  end.

(** Values without parts, save the environment and the evaluator itself. *)
Definition plain (v : val) : bool :=
  match v with
  | Vnull | Vtrue | Vfalse | Veof | Vvoid | Vapply | Vcall_cc | Vcall_prompt
  | Vdone_k | Vint _ | Vstr _ | Vsym _ => true
  | _ => false
  end.

Section scope.
Context (K : keywords) (T : Z → option val).
(** [S] tells the primitives that programs may use. *)
Context (S : dispatcher → string → Z → Prop).

Inductive good : val → Prop :=
  | g_plain v : plain v = true → good v
  | g_pair a d : good a → good d → good (Vpair a d)
  | g_prim disp proc mask : S disp proc mask → good (Vprim disp proc mask)
  | g_closure lambda env Γ : good_env env Γ → scoped_lambda Γ lambda → good (Vclosure lambda env)
  | g_cont tag data env next : good_k (Vcont tag data env next) → good (Vcont tag data env next)
with good_env : val → list Z → Prop :=
  | ge_top : good_env Vtop_env []
  | ge_bind x v env Γ : good v → good_env env Γ → good_env (env_add env (Vsym x) v) (x :: Γ)
with good_k : val → Prop :=
  | gk_done : good_k Vdone_k
  | gk_frame tag data env next Γ :
      good_env env Γ → good_k next → good_data tag Γ data → good_k (Vcont tag data env next)
with good_data : zuo_cont_tag_t → list Z → val → Prop :=
  | gd_apply Γ rv vs exps : vlist rv = Some vs → good rv → scoped_seq Γ exps → good_data zuo_apply_cont Γ (Vpair rv exps)
  | gd_let Γ x r1 r2 b r3 :
      scoped (x :: Γ) b → good_data zuo_let_cont Γ (Vpair (Vpair (Vpair (Vsym x) r1) r2) (Vpair b r3))
  | gd_begin Γ x d : scoped Γ x → scoped_seq Γ d → good_data zuo_begin_cont Γ (Vpair x d)
  | gd_if Γ t f r : scoped Γ t → scoped Γ f → good_data zuo_if_cont Γ (Vpair t (Vpair f r))
with scoped : list Z → val → Prop :=
  | sc_var Γ e id : view K e = Some (Fvar id) → id ∈ Γ ∨ is_Some (T id) → scoped Γ e
  | sc_const Γ e v : view K e = Some (Fconst v) → good v → scoped Γ e
  | sc_quote Γ e v : view K e = Some (Fquote v) → good v → scoped Γ e
  | sc_if Γ e c t f r :
      view K e = Some (Fif c (Vpair t (Vpair f r))) → scoped Γ c → scoped Γ t → scoped Γ f → scoped Γ e
  | sc_lambda Γ e : view K e = Some Flambda → scoped_lambda Γ e → scoped Γ e
  | sc_let Γ e x rhs r1 r2 b r3 :
      view K e = Some (Flet (Vsym x) rhs (Vpair (Vpair (Vpair (Vsym x) (Vpair rhs r1)) r2) (Vpair b r3))) →
      scoped Γ rhs → scoped (x :: Γ) b → scoped Γ e
  | sc_begin Γ e x dd : view K e = Some (Fbegin x dd) → scoped Γ x → scoped_seq Γ dd → scoped Γ e
  | sc_app Γ e rator d : view K e = Some (Fapp rator d) → scoped Γ rator → scoped_seq Γ d → scoped Γ e
with scoped_seq : list Z → val → Prop :=
  | ss_nil Γ : scoped_seq Γ Vnull
  | ss_cons Γ a d : scoped Γ a → scoped_seq Γ d → scoped_seq Γ (Vpair a d)
with scoped_lambda : list Z → val → Prop :=
  | sl_lambda Γ Γ' kw formals b body_d body :
      scope_formals formals Γ = Some Γ' → lambda_body b body_d = Some body → scoped Γ' body →
      body_d = Vnull ∨ (∃ n, b = Vstr n) →
      scoped_lambda Γ (Vpair kw (Vpair formals (Vpair b body_d))).

Definition good_meta (m : meta) : Prop := Forall (λ kt, good_k (fst kt)) m.

Definition good_state (a : astate) : Prop :=
  match a with
  | AEval e env k m => ∃ Γ, scoped Γ e ∧ good_env env Γ ∧ good_k k ∧ good_meta m
  | ARet v k m => good v ∧ good_k k ∧ good_meta m
  end.

(** ** Values *)

Lemma good_cont v : good_k v → good v.
Proof. intros H. destruct H; [by apply g_plain|]. apply g_cont. by eapply gk_frame. Qed.

Lemma good_of_list vs : good (of_list vs) ↔ Forall good vs.
Proof.
  induction vs as [|v vs IH]; cbn.
  - split; [constructor|]. intros _. by apply g_plain.
  - rewrite Forall_cons, <- IH. split; [intros H; inversion H; by subst|]. intros [? ?]. by apply g_pair.
Qed.

Lemma good_pair a d : good (Vpair a d) → good a ∧ good d.
Proof. intros H. inversion H; by subst. Qed.

Context (HT : ∀ id v, T id = Some v → good v).

Lemma env_find_good env Γ id : good_env env Γ → id ∈ Γ ∨ is_Some (T id) → ∃ v, env_find T env id = Some v ∧ good v.
Proof.
  intros H. induction H as [|x v env Γ Hv Henv IH]; intros Hid; cbn.
  - destruct Hid as [Hid|[v Hv]]; [set_solver|]. exists v. split; [done|by eapply HT].
  - case_decide as E; [by exists v|]. apply IH. set_solver.
Qed.

(** ** A step *)

Lemma interp_good Γ e env k m :
  scoped Γ e → good_env env Γ → good_k k → good_meta m →
  ∃ b, interp K T e env k m = Some b ∧ good_state b.
Proof.
  intros He Henv Hk Hm. unfold interp.
  inversion He as [? ? id Hv Hid|? ? v Hv Hg|? ? v Hv Hg|? ? c t f r Hv Hc Ht Hf|? ? Hv Hl|? ? x rhs r1 r2 b r3 Hv Hr Hb
    |? ? x dd Hv Hx Hd|? ? rator d Hv Hr Hd]; subst; rewrite Hv; cbn [mbind option_bind].
  - destruct (env_find_good _ _ _ Henv Hid) as (v & -> & Hg). by eexists.
  - by eexists.
  - by eexists.
  - eexists. split; [done|]. exists Γ. split; [done|]. split; [done|]. split; [|done].
    eapply gk_frame; [done|done|by apply gd_if].
  - eexists. split; [done|]. split; [by eapply g_closure|done].
  - eexists. split; [done|]. exists Γ. split; [done|]. split; [done|]. split; [|done].
    eapply gk_frame; [done|done|by apply gd_let].
  - eexists. split; [done|]. exists Γ. split; [done|]. split; [done|]. split; [|done].
    case_decide; [done|]. inversion Hd; subst; [done|]. eapply gk_frame; [done|done|by apply gd_begin].
  - eexists. split; [done|]. exists Γ. split; [done|]. split; [done|]. split; [|done].
    eapply gk_frame; [done|done|]. eapply gd_apply; [done|by apply g_plain|done].
Qed.

(** Frames other than those of applications. *)
Lemma resume_good P n v tag data env next m Γ :
  tag ≠ zuo_apply_cont → good v → good_env env Γ → good_k next → good_meta m → good_data tag Γ data →
  ∃ b, resume K P n v tag data env next m = Some b ∧ good_state b.
Proof.
  intros Ht Hv Henv Hk Hm Hd. inversion Hd as [|? x r1 r2 b r3 Hb|? x d Hx Hs|? t f r Hst Hsf]; subst; try done; cbn [resume].
  - eexists. split; [done|]. exists (x :: Γ). split; [done|]. split; [by apply ge_bind|done].
  - eexists. split; [done|]. exists Γ. split; [done|]. split; [done|]. split; [|done].
    case_decide; [done|]. inversion Hs; subst; [done|]. eapply gk_frame; [done|done|by apply gd_begin].
  - case_decide; (eexists; split; [done|]; by exists Γ).
Qed.

Lemma bind_args_good formals : ∀ args env Γ Γ' E,
  scope_formals formals Γ = Some Γ' → good args → good_env env Γ → bind_args formals args env = Some E → good_env E Γ'.
Proof.
  induction formals as [| | | | | | | | | | | | |id|f IHf fs IHfs| | |]; intros args env Γ Γ' E Hs Ha He Hb; try done; cbn in Hs, Hb.
  - case_decide; by simplify_eq.
  - simplify_eq. by apply ge_bind.
  - destruct f; try done. destruct args as [| | | | | | | | | | | | | |a as'| | |]; try done.
    apply good_pair in Ha as [Ha Has]. eapply IHfs; [done|done| |done]. by apply ge_bind.
Qed.

Lemma enter_good lambda env Γ args be :
  good_env env Γ → scoped_lambda Γ lambda → good args → enter lambda env args = Some be →
  ∃ Γ', scoped Γ' (fst be) ∧ good_env (snd be) Γ'.
Proof.
  intros He Hl Ha H. inversion Hl as [? Γ' kw formals b body_d body Hs Hb Hbody Hn]; subst. cbn in H. rewrite Hb in H. cbn in H.
  destruct (bind_args formals args env) as [E|] eqn:Eb; [|done]. cbn in H. simplify_eq. exists Γ'. split; [done|].
  by eapply bind_args_good.
Qed.

(** The operator and the arguments of an application. *)
Lemma unrev_good rv vs v : vlist rv = Some vs → good rv → good v →
  ∃ f args ws, unrev (Vpair v rv) Vnull = Some (f, args) ∧ vlist args = Some ws ∧ good f ∧ good args.
Proof.
  intros Hl Hrv Hv. apply vlist_Some in Hl as ->. apply good_of_list in Hrv.
  assert (Hall : Forall good (v :: vs)) by (by constructor). change (Vpair v (of_list vs)) with (of_list (v :: vs)).
  destruct (exists_last (l := v :: vs) ltac:(done)) as (l & f & E). rewrite E in *.
  apply Forall_app in Hall as [Hl Hf]. apply Forall_cons in Hf as [Hf _].
  exists f, (of_list (reverse l)), (reverse l). pose proof (unrev_ok f l []) as Hu. rewrite app_nil_r in Hu.
  split; [exact Hu|]. split; [apply vlist_of_list|]. split; [done|]. apply good_of_list. by apply Forall_reverse.
Qed.
End scope.
