(* ===== verification/Closed.v ===== *)
(** * A check that an expression is closed

    [closed] decides, on the tree of a kernel expression, that every variable
    is bound by an enclosing [lambda] or [let] or defined in the top
    environment, and that quoted data hold no procedures; such an expression
    is well scoped. *)

From S2P Require Import Prelude Sys Heap Alloc Gc GcCorrect Objects Trie Lists ImageOk Value Intern Sort Printer Reader Prims Interp Machine Simulate Syntax Scope.

(** Constants and pairs of constants. *)
Fixpoint datumb (v : val) : bool :=
  match v with
  | Vpair a d => datumb a && datumb d
  | _ => plain v
  end.

Section closed.
Context (K : keywords) (T : Z → option val).

Fixpoint closed (Γ : list Z) (e : val) : bool :=
  let seq := fix seq (l : val) : bool :=
    match l with
    | Vnull => true
    | Vpair a l' => closed Γ a && seq l'
    | _ => false
    end in
  match e with
  | Vsym id => bool_decide (id ∈ Γ) || bool_decide (is_Some (T id))
  | Vpair rator d =>
      if decide (rator = Vsym (k_quote K)) then
        match d with Vpair x Vnull => datumb x | _ => false end
      else if decide (rator = Vsym (k_if K)) then
        match d with
        | Vpair a (Vpair b (Vpair c Vnull)) => closed Γ a && closed Γ b && closed Γ c
        | _ => false
        end
      else if decide (rator = Vsym (k_lambda K)) then
        match d with
        | Vpair f (Vpair b Vnull) =>
            match scope_formals f Γ with Some Γ' => closed Γ' b | None => false end
        | Vpair f (Vpair (Vstr _) (Vpair b Vnull)) =>
            match scope_formals f Γ with Some Γ' => closed Γ' b | None => false end
        | _ => false
        end
      else if decide (rator = Vsym (k_let K)) then
        match d with
        | Vpair (Vpair (Vpair (Vsym x) (Vpair rhs Vnull)) Vnull) (Vpair b Vnull) =>
            closed Γ rhs && closed (x :: Γ) b
        | _ => false
        end
      else if decide (rator = Vsym (k_begin K)) then
        match d with Vpair a l => closed Γ a && seq l | _ => false end
      else closed Γ rator && seq d
  | v => plain v
  end.

(** A sequence of closed expressions. *)
Definition closed_seq (Γ : list Z) : val → bool :=
  fix seq (l : val) : bool :=
    match l with
    | Vnull => true
    | Vpair a l' => closed Γ a && seq l'
    | _ => false
    end.

Definition closed_quote (d : val) : bool := match d with Vpair x Vnull => datumb x | _ => false end.
Definition closed_if (Γ : list Z) (d : val) : bool :=
  match d with
  | Vpair a (Vpair b (Vpair c Vnull)) => closed Γ a && closed Γ b && closed Γ c
  | _ => false
  end.
Definition closed_body (Γ : list Z) (f b : val) : bool :=
  match scope_formals f Γ with Some Γ' => closed Γ' b | None => false end.
Definition closed_lambda (Γ : list Z) (d : val) : bool :=
  match d with
  | Vpair f (Vpair b Vnull) => closed_body Γ f b
  | Vpair f (Vpair (Vstr _) (Vpair b Vnull)) => closed_body Γ f b
  | _ => false
  end.
Definition closed_let (Γ : list Z) (d : val) : bool :=
  match d with
  | Vpair (Vpair (Vpair (Vsym x) (Vpair rhs Vnull)) Vnull) (Vpair b Vnull) =>
      closed Γ rhs && closed (x :: Γ) b
  | _ => false
  end.
Definition closed_begin (Γ : list Z) (d : val) : bool :=
  match d with Vpair a l => closed Γ a && closed_seq Γ l | _ => false end.

Lemma closed_pair Γ rator d :
  closed Γ (Vpair rator d) =
    (if decide (rator = Vsym (k_quote K)) then closed_quote d
     else if decide (rator = Vsym (k_if K)) then closed_if Γ d
     else if decide (rator = Vsym (k_lambda K)) then closed_lambda Γ d
     else if decide (rator = Vsym (k_let K)) then closed_let Γ d
     else if decide (rator = Vsym (k_begin K)) then closed_begin Γ d
     else closed Γ rator && closed_seq Γ d).
Proof. cbn [closed]. repeat (case_decide; [done|]). done. Qed.

Context (S : dispatcher → string → Z → Prop).
Abbreviation good := (good K T S).
Abbreviation scoped := (scoped K T S).

Lemma datumb_good v : datumb v = true → good v.
Proof.
  induction v; cbn [datumb]; intros H; try (by apply g_plain).
  apply andb_true_iff in H as [? ?]. apply g_pair; auto.
Qed.

Lemma closed_seq_scoped n Γ l :
  (∀ Γ e, (vsize e < n)%nat → closed Γ e = true → scoped Γ e) →
  (vsize l ≤ n)%nat → closed_seq Γ l = true → scoped_seq K T S Γ l.
Proof.
  intros IH. induction l as [| | | | | | | | | | | | | |a _ d IHd| | |]; try done; [intros; apply ss_nil|].
  cbn [vsize closed_seq]. intros Hn [Ha Hd]%andb_true_iff.
  apply ss_cons; [apply IH; [lia|done]|apply IHd; [lia|done]].
Qed.

Lemma vsize_pos v : (0 < vsize v)%nat.
Proof. destruct v; cbn; lia. Qed.

Section forms.
Context (n : nat) (IH : ∀ Γ e, (vsize e < n)%nat → closed Γ e = true → scoped Γ e).

Lemma lambda_scoped Γ d : (vsize d < n)%nat → closed_lambda Γ d = true → scoped_lambda K T S Γ (Vpair (Vsym (k_lambda K)) d).
Proof.
  assert (Hb : ∀ f b body_d body, (vsize body < n)%nat → lambda_body b body_d = Some body →
    body_d = Vnull ∨ (∃ x, b = Vstr x) → closed_body Γ f body = true →
    scoped_lambda K T S Γ (Vpair (Vsym (k_lambda K)) (Vpair f (Vpair b body_d)))).
  { intros f b body_d body Hn Hb Hname H. unfold closed_body in H. destruct (scope_formals f Γ) as [Γ'|] eqn:E; [|done].
    eapply sl_lambda; [exact E|exact Hb|by apply IH|done]. }
  intros Hn H. destruct d as [| | | | | | | | | | | | | |f d| | |]; try done.
  destruct d as [| | | | | | | | | | | | | |b d| | |]; try done. cbn [vsize] in Hn.
  destruct d as [| | | | | | | | | | | | | |b' d| | |]; try (by destruct b).
  - apply (Hb f b Vnull b); [lia|by destruct b|by left|by destruct b].
  - destruct b; try done. destruct d; try done. cbn [vsize] in Hn.
    apply (Hb f (Vstr b) (Vpair b' Vnull) b'); [lia|done|eauto|done].
Qed.

Lemma if_scoped Γ rator d : view K (Vpair rator d) = (match d with Vpair c dd => Some (Fif c dd) | _ => None end) →
  (vsize d < n)%nat → closed_if Γ d = true → scoped Γ (Vpair rator d).
Proof.
  intros Hv Hn H. destruct d as [| | | | | | | | | | | | | |a d| | |]; try done.
  destruct d as [| | | | | | | | | | | | | |b d| | |]; try done. destruct d as [| | | | | | | | | | | | | |c d| | |]; try done.
  destruct d; try done. cbn [vsize closed_if] in Hn, H.
  apply andb_true_iff in H as [H Hc]. apply andb_true_iff in H as [Ha Hb].
  eapply sc_if; [exact Hv|apply IH; [lia|done]..].
Qed.

Lemma let_scoped Γ d :
  (∀ x rhs r1 r2 r3, d = Vpair (Vpair (Vpair x (Vpair rhs r1)) r2) r3 → view K (Vpair (Vsym (k_let K)) d) = Some (Flet x rhs d)) →
  (vsize d < n)%nat → closed_let Γ d = true → scoped Γ (Vpair (Vsym (k_let K)) d).
Proof.
  intros Hv Hn H. destruct d as [| | | | | | | | | | | | | |b d| | |]; try done.
  destruct b as [| | | | | | | | | | | | | |b e2| | |]; try done. destruct b as [| | | | | | | | | | | | | |x r| | |]; try done.
  destruct x as [| | | | | | | | | | | | |x| | | |]; try done. destruct r as [| | | | | | | | | | | | | |rhs e3| | |]; try done.
  destruct e3; try done. destruct e2; try done. destruct d as [| | | | | | | | | | | | | |body d| | |]; try done. destruct d; try done.
  cbn [vsize closed_let] in Hn, H. apply andb_true_iff in H as [Hr Hb].
  eapply sc_let; [by eapply Hv|apply IH; [lia|done]..].
Qed.

Lemma begin_scoped Γ rator d : view K (Vpair rator d) = (match d with Vpair c dd => Some (Fbegin c dd) | _ => None end) →
  (vsize d < n)%nat → closed_begin Γ d = true → scoped Γ (Vpair rator d).
Proof.
  intros Hv Hn H. destruct d as [| | | | | | | | | | | | | |a d| | |]; try done. cbn [vsize closed_begin] in Hn, H.
  apply andb_true_iff in H as [Ha Hd].
  eapply sc_begin; [exact Hv|apply IH; [lia|done]|apply (closed_seq_scoped n); [done|lia|done]].
Qed.
End forms.

Lemma closed_scoped Γ e : closed Γ e = true → scoped Γ e.
Proof.
  revert Γ e. assert (Hall : ∀ n Γ e, (vsize e < n)%nat → closed Γ e = true → scoped Γ e);
    [|intros Γ e; apply (Hall (Datatypes.S (vsize e))); lia].
  induction n as [|n IH]; intros Γ e Hn H; [lia|].
  destruct e as [| | | | | | | | | | | | |id|rator d| | |]; try (by eapply sc_const; [done|apply g_plain]).
  { cbn in H. apply orb_true_iff in H as [H|H]; apply bool_decide_eq_true in H; (eapply sc_var; [done|auto]). }
  rewrite closed_pair in H. cbn [vsize] in Hn. pose proof (vsize_pos rator).
  repeat (case_decide; [subst rator|]).
  - destruct d as [| | | | | | | | | | | | | |x d| | |]; try done. destruct d; try done.
    eapply sc_quote; [cbn [view]; by rewrite decide_True by done|by apply datumb_good].
  - apply (if_scoped n IH); [|lia|done]. cbn [view]. by rewrite decide_False, decide_True by done.
  - apply sc_lambda; [cbn [view]; by rewrite !decide_False, decide_True by done|]. apply (lambda_scoped n IH); [lia|done].
  - apply (let_scoped n IH); [|lia|done]. intros x rhs r1 r2 r3 ->. cbn [view]. by rewrite !decide_False, decide_True by done.
  - apply (begin_scoped n IH); [|lia|done]. cbn [view]. by rewrite !decide_False, decide_True by done.
  - apply andb_true_iff in H as [Hr Hd].
    eapply sc_app; [cbn [view]; by rewrite !decide_False by done|apply IH; [lia|done]|apply (closed_seq_scoped n); [done|lia|done]].
Qed.

(** ** A closed expression is well formed *)

Lemma scope_formals_wf f : ∀ Γ Γ', scope_formals f Γ = Some Γ' → wf_formals f = true.
Proof.
  induction f as [| | | | | | | | | | | | | |x _ f IH| | |]; intros Γ Γ' H; try done. destruct x; try done. by eapply IH.
Qed.

Lemma closed_body_wf Γ f b : (∀ Γ, closed Γ b = true → wf_expr K b = true) → closed_body Γ f b = true → wf_formals f && wf_expr K b = true.
Proof.
  intros Hb H. unfold closed_body in H. destruct (scope_formals f Γ) eqn:E; [|done].
  by rewrite (scope_formals_wf _ _ _ E), (Hb _ H).
Qed.

Lemma closed_seq_wf n Γ l :
  (∀ Γ e, (vsize e < n)%nat → closed Γ e = true → wf_expr K e = true) →
  (vsize l ≤ n)%nat → closed_seq Γ l = true → wf_seq K l = true.
Proof.
  intros IH. induction l as [| | | | | | | | | | | | | |a _ d IHd| | |]; try done.
  cbn [vsize closed_seq wf_seq]. intros Hn [Ha Hd]%andb_true_iff. pose proof (vsize_pos d). pose proof (vsize_pos a).
  rewrite (IH Γ a) by (done || lia). apply IHd; [lia|done].
Qed.

Lemma closed_wf Γ e : closed Γ e = true → wf_expr K e = true.
Proof.
  revert Γ e. assert (Hall : ∀ n Γ e, (vsize e < n)%nat → closed Γ e = true → wf_expr K e = true);
    [|intros Γ e; apply (Hall (Datatypes.S (vsize e))); lia].
  induction n as [|n IH]; intros Γ e Hn H; [lia|]. destruct e as [| | | | | | | | | | | | | |rator d| | |]; try done.
  rewrite closed_pair in H. rewrite wf_expr_eq. cbn [vsize] in Hn. pose proof (vsize_pos rator).
  case_decide; [by destruct d as [| | | | | | | | | | | | | |x []| | |]|].
  case_decide.
  { destruct d as [| | | | | | | | | | | | | |a [| | | | | | | | | | | | | |b [| | | | | | | | | | | | | |c []| | |]| | |]| | |]; try done.
    cbn [vsize closed_if wf_if] in *. apply andb_true_iff in H as [H Hc]. apply andb_true_iff in H as [Ha Hb].
    by rewrite (IH Γ a), (IH Γ b), (IH Γ c) by (done || lia). }
  case_decide.
  { assert (Hbody : ∀ f b, (vsize b < n)%nat → closed_body Γ f b = true → wf_formals f && wf_expr K b = true)
      by (intros f b Hb; apply closed_body_wf; intros; by eapply IH).
    destruct d as [| | | | | | | | | | | | | |f [| | | | | | | | | | | | | |b d| | |]| | |]; try done. cbn [vsize] in Hn.
    destruct d as [| | | | | | | | | | | | | |b' d| | |]; try (by destruct b).
    - assert (H' : closed_body Γ f b = true) by (by destruct b). apply Hbody in H'; [|lia]. by destruct b.
    - destruct b; try done. destruct d; try done. cbn [vsize closed_lambda wf_lambda] in *. apply Hbody; [lia|done]. }
  case_decide.
  { destruct d as [| | | | | | | | | | | | | |bs d| | |]; try done. destruct bs as [| | | | | | | | | | | | | |b e2| | |]; try done.
    destruct b as [| | | | | | | | | | | | | |x r| | |]; try done. destruct x; try done. destruct r as [| | | | | | | | | | | | | |rhs e3| | |]; try done.
    destruct e3; try done. destruct e2; try done. destruct d as [| | | | | | | | | | | | | |body d| | |]; try done. destruct d; try done.
    cbn [vsize closed_let wf_let] in *. apply andb_true_iff in H as [Hr Hb]. by rewrite (IH Γ rhs ltac:(lia) Hr), (IH _ body ltac:(lia) Hb). }
  case_decide.
  { destruct d as [| | | | | | | | | | | | | |a d| | |]; try done. cbn [vsize closed_begin wf_begin] in *. apply andb_true_iff in H as [Ha Hd].
    rewrite (IH Γ a) by (done || lia). apply (closed_seq_wf n Γ); [done|lia|done]. }
  apply andb_true_iff in H as [Hr Hd]. rewrite (IH Γ rator) by (done || lia). apply (closed_seq_wf n Γ); [done|lia|done].
Qed.
End closed.
