(* ===== verification/PrintSafe.v ===== *)
(** * Printing never fails

    The printer ends without an error on the values of running programs, in any
    mode, once its bound is the number of objects that it prints.  It allocates
    frames and reuses them, and it may even add nodes to the intern table when
    it looks a symbol up. *)

From S2P Require Import Prelude Sys Heap Alloc Gc GcCorrect Objects Trie Lists ImageOk Value Intern Sort Printer Reader Prims Interp Machine Simulate RoundTrip.

(** ** Computations without undefined behaviour *)

(** [m] returns with [Q], unless [F] lets it end with an error or [D] lets it
    run out of its bounds. *)
Definition behaves (F D : Prop) {A} (m : M A) (s : st) (Q : A → st → Prop) : Prop :=
  match m s with
  | Ok a s' => Q a s'
  | Fail _ _ => F
  | Diverge => D
  | UB _ => False
  end.
Abbreviation no_ub := (behaves True True).

Lemma behaves_bind {F D : Prop} {A B} (m : M A) (f : A → M B) s R Q :
  behaves F D m s R → (∀ a s', R a s' → behaves F D (f a) s' Q) → behaves F D (bind m f) s Q.
Proof. unfold behaves, bind. intros Hm Hf. destruct (m s); try done. by apply Hf. Qed.

Lemma behaves_step {F D : Prop} {A B} (m : M A) (f : A → M B) s a s' Q : m s = Ok a s' → behaves F D (f a) s' Q → behaves F D (bind m f) s Q.
Proof. intros E H. unfold behaves. by rewrite (bind_ok _ _ _ _ _ E). Qed.

Lemma behaves_ok {F D : Prop} {A} (m : M A) s a s' (Q : A → st → Prop) : m s = Ok a s' → Q a s' → behaves F D m s Q.
Proof. unfold behaves. by intros ->. Qed.

Lemma behaves_weaken {F D : Prop} {A} (m : M A) s (R Q : A → st → Prop) : behaves F D m s R → (∀ a s', R a s' → Q a s') → behaves F D m s Q.
Proof. unfold behaves. destruct (m s); auto. Qed.

Lemma behaves_assoc {F D : Prop} {A B C} (m : M A) (f : A → M B) (g : B → M C) s Q :
  behaves F D (bind m (λ a, bind (f a) g)) s Q → behaves F D (bind (bind m f) g) s Q.
Proof. unfold behaves. by rewrite bind_assoc. Qed.

Lemma behaves_returns {A} (m : M A) s (Q : A → st → Prop) : behaves False False m s Q → ∃ a s', m s = Ok a s' ∧ Q a s'.
Proof. unfold behaves. destruct (m s); eauto; done. Qed.

Lemma no_ub_fail {A} e s (Q : A → st → Prop) : no_ub (fail e) s Q.
Proof. done. Qed.

(** ** Growth that may add to tries *)

Definition not_trie (o : obj) : Prop := match o with Otrie_node _ _ _ _ => False | _ => True end.

Definition typed_tries (s : st) : Prop :=
  ∀ l c k v next, s_heap s !! l = Some (Otrie_node c k v next) →
    length next = 16%nat ∧ Forall (λ n, n = o_undefined (s_img s) ∨ obj_is (s_heap s) is_trie n = true) next.

(** [σ] has what [s] has, save that trie nodes may have more children. *)
Record extends (s σ : st) : Prop := {
  pe_mem : mem_ok (s_mem σ);
  pe_img : s_img σ = s_img s;
  pe_keep : ∀ l o, s_heap s !! l = Some o → not_trie o → s_heap σ !! l = Some o;
  pe_trie : ∀ l, obj_is (s_heap s) is_trie l = true → obj_is (s_heap σ) is_trie l = true;
  pe_typed : typed_tries σ }.

Lemma extends_refl s : mem_ok (s_mem s) → typed_tries s → extends s s.
Proof. by split. Qed.

Lemma extends_trans s1 s2 s3 : extends s1 s2 → extends s2 s3 → extends s1 s3.
Proof. intros [] []. split; [done|congruence|auto..]. Qed.

Lemma is_trie_at h l : obj_is h is_trie l = true → ∃ c k v next, h !! l = Some (Otrie_node c k v next) ∧ length next = 16%nat.
Proof.
  unfold obj_is. destruct (h !! l) as [o|]; [|done]. destruct o; try done. cbn. intros H%Nat.eqb_eq. eauto 10.
Qed.

(** A new object. *)
Lemma extends_alloc {o : st → obj} c s :
  allocates c o → mem_ok (s_mem s) → typed_tries s →
  match o s with Otrie_node _ _ _ next => length next = 16%nat ∧ Forall (λ n, n = o_undefined (s_img s)) next | _ => True end →
  ∃ p s', c s = Ok p s' ∧ s_heap s !! p = None ∧ s_heap s' !! p = Some (o s) ∧ extends s s'
    ∧ (∀ l x, s_heap s !! l = Some x → s_heap s' !! l = Some x).
Proof.
  intros Hc Hm Ht Ho. destruct (allocates_grows c o s Hc Hm) as (p & s' & E & Hp & Hg).
  exists p, s'. split; [done|]. split; [done|]. pose proof (grows_new _ _ _ _ Hg) as Hp'. split; [done|].
  assert (Hk : ∀ l x, s_heap s !! l = Some x → s_heap s' !! l = Some x) by (intros l x; by apply (grows_lookup _ _ _ _ _ Hg)).
  split; [|done]. pose proof (gr_img _ _ _ Hg) as Ei. pose proof (grows_subseteq _ _ _ Hg) as Hs.
  split; [apply Hg|done|auto|intros l; by apply obj_is_weaken|]. intros l n k v next Hl. rewrite Ei.
  assert (Hcase : l = p ∧ o s = Otrie_node n k v next ∨ s_heap s !! l = Some (Otrie_node n k v next)).
  { destruct (decide (l = p)) as [->|Hne]; [left; split; [done|congruence]|right]. rewrite (gr_heap _ _ _ Hg) in Hl.
    rewrite lookup_union_r in Hl; [done|]. by rewrite lookup_singleton_ne. }
  destruct Hcase as [[-> E']|Hl'].
  - rewrite E' in Ho. destruct Ho as [? HF]. split; [done|]. eapply Forall_impl; [exact HF|]. auto.
  - destruct (Ht _ _ _ _ _ Hl') as [? HF]. split; [done|]. eapply Forall_impl; [exact HF|].
    intros x [?|?]; [by left|right; by eapply obj_is_weaken].
Qed.

Lemma extends_put s l o o' :
  mem_ok (s_mem s) → typed_tries s → s_heap s !! l = Some o → space_of o' = space_of o →
  match o' with
  | Otrie_node _ _ _ next => is_trie o = true ∧ length next = 16%nat
      ∧ Forall (λ n, n = o_undefined (s_img s) ∨ obj_is (s_heap s) is_trie n = true) next
  | _ => is_trie o = false
  end →
  put l o' s = Ok tt (set_heap_at l o' s) ∧ mem_ok (s_mem (set_heap_at l o' s)) ∧ typed_tries (set_heap_at l o' s)
  ∧ ∀ x, obj_is (s_heap s) is_trie x = true → obj_is (<[l := o']> (s_heap s)) is_trie x = true.
Proof.
  intros Hm Ht Hl Hsp Ho. split; [by eapply put_ok|].
  assert (Hx : ∀ x, obj_is (s_heap s) is_trie x = true → obj_is (<[l := o']> (s_heap s)) is_trie x = true).
  { intros x Hx. unfold obj_is in *. destruct (decide (x = l)) as [->|Hne]; [|by rewrite lookup_insert_ne].
    rewrite lookup_insert_eq. rewrite Hl in Hx. destruct o'; try congruence. destruct Ho as (_ & Hlen & _). cbn. by apply Nat.eqb_eq. }
  split; [by eapply put_mem_ok|]. split; [|done].
  intros a c k v next Ha. rewrite s_heap_set, s_img_set in *.
  assert (HF : length next = 16%nat ∧ Forall (λ n, n = o_undefined (s_img s) ∨ obj_is (s_heap s) is_trie n = true) next).
  { apply lookup_insert_Some in Ha as [[<- ->]|[_ Ha]]; [tauto|by eapply Ht]. }
  destruct HF as [? HF]. split; [done|]. eapply Forall_impl; [exact HF|]. intros n [?|?]; auto.
Qed.

(** ** Looking a symbol up *)

Section lookup.
Context {F D : Prop}.

(** A child of a node, added when it is not there. *)
Lemma add_child s node i :
  mem_ok (s_mem s) → typed_tries s → obj_is (s_heap s) is_trie node = true → 0 ≤ i < 16 →
  ∃ n, trie_next node i s = Ok n s ∧
  behaves F D ((if bool_decide (n = o_undefined (s_img s)) then (q <- zuo_trie_node ;; set_trie_next node i q) else ret tt) ;;; trie_next node i) s
    (λ m s', extends s s' ∧ obj_is (s_heap s') is_trie m = true).
Proof.
  intros Hm Ht Hn Hi. destruct (is_trie_at _ _ Hn) as (c & k & v & next & Hnode & Hlen).
  destruct (lookup_lt_is_Some_2 next (Z.to_nat i) ltac:(lia)) as [n Hnx].
  exists n. split; [by eapply trie_next_ok|]. destruct (decide (n = o_undefined (s_img s))) as [Hu|Hu].
  2:{ rewrite bool_decide_eq_false_2 by done. eapply behaves_step; [done|]. eapply behaves_ok; [by eapply trie_next_ok|].
      split; [by apply extends_refl|]. destruct (Ht _ _ _ _ _ Hnode) as [_ HF]. rewrite Forall_lookup in HF.
      by destruct (HF _ _ Hnx). }
  rewrite bool_decide_eq_true_2 by done.
  destruct (extends_alloc _ s zuo_trie_node_ok Hm Ht) as (q & s1 & E1 & Hq & Hq1 & Hx1 & Hk1).
  { unfold empty_node. split; [by rewrite length_replicate|]. apply Forall_replicate. done. }
  pose proof (Hk1 _ _ Hnode) as Hnode1.
  assert (Hqt : obj_is (s_heap s1) is_trie q = true) by (unfold obj_is; rewrite Hq1; done).
  destruct (extends_put s1 node _ (Otrie_node c k v (<[Z.to_nat i := q]> next)) (pe_mem _ _ Hx1) (pe_typed _ _ Hx1) Hnode1)
    as (E2 & Hm2 & Ht2 & Hx2).
  { cbn. done. }
  { split; [cbn; by apply Nat.eqb_eq|]. split; [by rewrite length_insert|]. destruct (pe_typed _ _ Hx1 _ _ _ _ _ Hnode1) as [_ HF].
    apply Forall_insert; [done|by right]. }
  assert (E3 : set_trie_next node i q s1 = Ok tt (set_heap_at node (Otrie_node c k v (<[Z.to_nat i := q]> next)) s1)).
  { unfold set_trie_next. run_step (get_ok _ _ _ Hnode1). rewrite decide_True by lia. exact E2. }
  unfold behaves. rewrite bind_assoc. run_step E1. run_step E3.
  rewrite (trie_next_ok node i c k v (<[Z.to_nat i := q]> next) q); [|by rewrite s_heap_set, lookup_insert_eq|apply list_lookup_insert_eq; lia].
  split; [|by rewrite s_heap_set; apply Hx2]. split; try done.
  - by rewrite s_img_set, (pe_img _ _ Hx1).
  - intros l o Hl Ho. rewrite s_heap_set. rewrite lookup_insert_ne; [by apply Hk1|]. intros <-. rewrite Hnode in Hl. by simplify_eq.
  - intros l Hl. rewrite s_heap_set. by apply Hx2, (pe_trie _ _ Hx1).
Qed.

Lemma intern_walk_safe str : ∀ s node so,
  mem_ok (s_mem s) → typed_tries s → obj_is (s_heap s) is_trie node = true → Forall is_byte str →
  behaves F D (intern_walk str node so) s (λ r s', extends s s' ∧ ∀ m, r = inr m → obj_is (s_heap s') is_trie m = true).
Proof.
  induction str as [|c str IH]; intros s node so Hm Ht Hn Hb.
  { eapply behaves_ok; [done|]. split; [by apply extends_refl|]. by intros m [= <-]. }
  apply Forall_cons in Hb as [Hc Hb]. unfold is_byte in Hc. cbn [intern_walk]. destruct (c =? 0).
  { eapply behaves_ok; [done|]. split; [by apply extends_refl|]. by intros m [= <-]. }
  cbn zeta. set (lo := Z.land c ZUO_TRIE_BFACTOR_MASK). set (hi := Z.shiftr c ZUO_TRIE_BFACTOR_BITS).
  assert (Hlo : 0 ≤ lo < 16) by (unfold lo; change ZUO_TRIE_BFACTOR_MASK with (Z.ones 4); rewrite Z.land_ones by lia; apply Z.mod_pos_bound; lia).
  assert (Hhi : 0 ≤ hi < 16).
  { unfold hi. change ZUO_TRIE_BFACTOR_BITS with 4. rewrite Z.shiftr_div_pow2 by lia. change (2 ^ 4) with 16.
    split; [apply Z.div_pos; lia|apply Z.div_lt_upper_bound; lia]. }
  destruct (add_child s node lo Hm Ht Hn Hlo) as (n & E1 & H1). eapply behaves_step; [exact E1|].
  eapply behaves_step; [apply is_zi_bool|]. eapply behaves_step; [apply is_zi_bool|].
  destruct (_ && _); [eapply behaves_ok; [done|]; split; [by apply extends_refl|done]|].
  unfold behaves in H1 |- *. rewrite <- bind_assoc. revert H1.
  fold (behaves F D ((if bool_decide (n = o_undefined (s_img s)) then q <- zuo_trie_node;; set_trie_next node lo q else ret tt);;; trie_next node lo) s
    (λ m s', extends s s' ∧ obj_is (s_heap s') is_trie m = true)). intros H1.
  eapply behaves_bind; [exact H1|]. intros node1 s1 [Hx1 Hn1].
  destruct (add_child s1 node1 hi (pe_mem _ _ Hx1) (pe_typed _ _ Hx1) Hn1 Hhi) as (n2 & E2 & H2). eapply behaves_step; [exact E2|].
  eapply behaves_step; [apply is_zi_bool|]. unfold behaves. rewrite <- bind_assoc.
  eapply behaves_bind; [exact H2|]. intros node2 s2 [Hx2 Hn2]. eapply behaves_weaken; [apply IH; [apply Hx2|apply Hx2|done|done]|].
  intros r s' [Hx Hr]. split; [|done]. eapply extends_trans; [exact Hx1|]. by eapply extends_trans.
Qed.

Lemma symbol_lookup_safe s b f :
  mem_ok (s_mem s) → typed_tries s → obj_is (s_heap s) is_trie (o_intern_table (s_img s)) = true → Forall is_byte b →
  f = o_false (s_img s) →
  behaves F D (zuo_symbol_from_string b f) s (λ _ s', extends s s').
Proof.
  intros Hm Ht Hn Hb ->. unfold zuo_symbol_from_string. eapply behaves_step; [done|].
  eapply behaves_bind; [by apply intern_walk_safe|]. intros [x|m] s' [Hx Hr]; [by eapply behaves_ok|].
  destruct (is_trie_at _ _ (Hr m eq_refl)) as (c & k & v & next & Hm' & _). unfold intern_at.
  eapply behaves_step; [by eapply trie_val_ok|]. eapply behaves_step; [apply is_zi_bool|].
  destruct (bool_decide _); [|by eapply behaves_ok]. eapply behaves_step; [apply is_zi_eq; by rewrite (pe_img _ _ Hx)|].
  by eapply behaves_ok.
Qed.
End lookup.

(** ** Values that can be printed *)

(** Every tree but those with the kernel environment in them, which prints
    with all that is defined. *)
Fixpoint printable (v : val) : bool :=
  match v with
  | Vpair a d => printable a && printable d
  | Vclosure (Vpair _ (Vpair _ (Vpair _ _))) _ => true
  | Vclosure _ _ => false
  | Vprim _ proc _ => bool_decide (proc ∉ private_procs)
  | Vtop_env => false
  | _ => true
  end.

Lemma is_list_keep h h' nl l vs :
  (∀ a x d, h !! a = Some (Opair x d) → h' !! a = Some (Opair x d)) → is_list h nl l vs → is_list h' nl l vs.
Proof.
  intros Hk. revert l. induction vs as [|v vs IH]; intros l; cbn; [done|]. intros (d & Hn & Hl & Hd). exists d. auto.
Qed.

(** The number of objects that the loop of the printer prints for a tree, which
    may be the [tail] of a list that it has begun. *)
Fixpoint printed (tail : bool) (v : val) : nat :=
  match v with
  | Vpair a d => (if tail then 0 else 1) + (printed false a + printed true d)
  | Vnull => if tail then 0 else 1
  | _ => 1
  end.

Lemma printed_pos v : (1 ≤ printed false v)%nat.
Proof. destruct v; cbn; lia. Qed.

Section print.
(** [F] and [D] say whether errors are allowed, and running out of bounds. *)
Context {F D : Prop} (K : keywords) (T : Z → option val) (s0 : st) (Hok : ok K T s0).
Abbreviation nl := (o_null (s_img s0)).
Abbreviation prints := (behaves F D).

Lemma base_typed : typed_tries s0.
Proof. intros l c k v next Hl. by apply (hv_tries _ _ _ _ (ok_inv _ _ _ Hok) l c k v). Qed.

Lemma base_extends : extends s0 s0.
Proof. apply extends_refl; [apply Hok|apply base_typed]. Qed.

Lemma extends_obj σ l o :
  extends s0 σ → s_heap s0 !! l = Some o → ∃ o', s_heap σ !! l = Some o' ∧ obj_tag o' = obj_tag o ∧ (not_trie o → o' = o).
Proof.
  intros Hx Hl. destruct (decide (is_trie o = true)) as [Ht|Ht].
  - assert (H : obj_is (s_heap σ) is_trie l = true) by (apply (pe_trie _ _ Hx); unfold obj_is; by rewrite Hl).
    destruct (is_trie_at _ _ H) as (c & k & v & next & E & _). exists (Otrie_node c k v next). split; [done|].
    destruct o; try done.
  - assert (Hn : not_trie o).
    { destruct o; try done. destruct Ht. cbn. apply Nat.eqb_eq. by destruct (base_typed _ _ _ _ _ Hl). }
    exists o. split; [by apply (pe_keep _ _ Hx)|done].
Qed.

Lemma extends_tag σ l v t : extends s0 σ → reps s0 l v → has_tag t l σ = Ok (bool_decide (vtag v = t)) σ.
Proof.
  intros Hx Hl. destruct (rep_obj K T _ _ (ok_inv _ _ _ Hok) _ _ Hl) as (o & Ho & <-).
  destruct (extends_obj _ _ _ Hx Ho) as (o' & Ho' & <- & _). by apply has_tag_ok.
Qed.

Lemma extends_pair σ l a d : extends s0 σ → reps s0 l (Vpair a d) →
  ∃ la ld, s_heap σ !! l = Some (Opair la ld) ∧ reps s0 la a ∧ reps s0 ld d.
Proof. intros Hx (la & ld & H & Ha & Hd). exists la, ld. split; [by apply (pe_keep _ _ Hx)|done]. Qed.

Lemma extends_new σ l : extends s0 σ → s_heap σ !! l = None → s_heap s0 !! l = None.
Proof.
  intros Hx Hl. destruct (s_heap s0 !! l) as [o|] eqn:E; [|done]. destruct (extends_obj _ _ _ Hx E) as (o' & Ho' & _). congruence.
Qed.

Lemma extends_size σ : extends s0 σ → (size (s_heap s0) ≤ size (s_heap σ))%nat.
Proof.
  intros Hx. rewrite <- !size_dom. apply subseteq_size. intros l [o Ho]%elem_of_dom.
  destruct (extends_obj _ _ _ Hx Ho) as (o' & Ho' & _). apply elem_of_dom. by exists o'.
Qed.

(** [heap_fuel] is enough for a loop along a tree. *)
Lemma extends_spine σ l V : extends s0 σ → reps s0 l V → (spine V < heap_fuel σ)%nat.
Proof.
  intros Hx Hl. pose proof (extends_size _ Hx). pose proof (rep_spine K T _ _ (ok_inv _ _ _ Hok) _ _ Hl). unfold heap_fuel. lia.
Qed.

Lemma pair_not_single l a d x : s_heap s0 !! l = Some (Opair a d) → x ∈ singletons (s_img s0) → l ≠ x.
Proof. intros Hl Hx ->. apply (single_at K T _ _ (ok_inv _ _ _ Hok)) in Hx. congruence. Qed.

Lemma false_not_true : o_false (s_img s0) ≠ o_true (s_img s0).
Proof.
  intros E. assert (H : reps s0 (o_false (s_img s0)) Vfalse) by done.
  by apply (rep_is_const K T _ _ (ok_inv _ _ _ Hok) _ _ Vtrue (o_true (s_img s0)) eq_refl eq_refl H) in E.
Qed.

(** ** The stack of frames *)

(** A frame in which [w] objects are left to be printed: one value, or the tail
    of a list. *)
Definition frame_ok (σ : st) (op : loc) (w : nat) : Prop :=
  s_heap s0 !! op = None ∧ ∃ m v V, s_heap σ !! op = Some (Opair m v)
    ∧ (m = o_false (s_img s0) ∧ w = printed false V ∨ m = o_true (s_img s0) ∧ w = printed true V)
    ∧ reps s0 v V ∧ printable V = true.

Record pstate (σ : st) (stack : loc) (ops : list loc) (ws : list nat) : Prop := {
  pt_base : extends s0 σ;
  pt_list : is_list (s_heap σ) nl stack ops;
  pt_nodup : NoDup ops;
  pt_frames : Forall2 (frame_ok σ) ops ws }.

Lemma frame_pair σ op w : frame_ok σ op w → ∃ x y, s_heap σ !! op = Some (Opair x y).
Proof. intros (_ & x & y & _ & H & _). eauto. Qed.

Lemma frames_pairs σ ops ws : Forall2 (frame_ok σ) ops ws → Forall (λ o, ∃ x y, s_heap σ !! o = Some (Opair x y)) ops.
Proof. intros H. eapply Forall2_Forall_l; [exact H|]. apply Forall_true. intros w o. apply frame_pair. Qed.

Lemma pstate_extends σ σ' stack ops ws : pstate σ stack ops ws → extends σ σ' → pstate σ' stack ops ws.
Proof.
  intros [Hb Hl Hn Hf] Hx. split; [by eapply extends_trans| |done|].
  - eapply is_list_keep; [|exact Hl]. intros a x d H. by apply (pe_keep _ _ Hx).
  - eapply Forall2_impl; [exact Hf|]. intros op w (H0 & m & v & V & H & ?). split; [done|]. exists m, v, V.
    split; [by apply (pe_keep _ _ Hx)|done].
Qed.

Lemma pstate_empty σ : extends s0 σ → pstate σ nl [] [].
Proof. intros Hx. split; [done|done|constructor|constructor]. Qed.

(** The frames are objects, so that [heap_fuel] is enough to pop them all. *)
Lemma pstate_fuel σ stack ops ws : pstate σ stack ops ws → (length ops < heap_fuel σ)%nat.
Proof.
  intros Hs. unfold heap_fuel. rewrite <- size_dom, <- (size_list_to_set (C := gset Z) ops) by apply Hs.
  apply Nat.lt_succ_r, subseteq_size. intros l Hl%elem_of_list_to_set.
  pose proof (frames_pairs _ _ _ (pt_frames _ _ _ _ Hs)) as HF. rewrite Forall_forall in HF.
  destruct (HF _ Hl) as (x & y & H). apply elem_of_dom. eauto.
Qed.

Lemma pstate_pop σ stack op ops ws : pstate σ stack (op :: ops) ws →
  ∃ stk m v V w ws', ws = w :: ws' ∧ stack ≠ nl ∧ ZUO_CAR stack σ = Ok op σ ∧ ZUO_CDR stack σ = Ok stk σ ∧ pstate σ stk ops ws'
    ∧ ZUO_CAR op σ = Ok m σ ∧ ZUO_CDR op σ = Ok v σ
    ∧ (m = o_false (s_img s0) ∧ w = printed false V ∨ m = o_true (s_img s0) ∧ w = printed true V)
    ∧ reps s0 v V ∧ printable V = true.
Proof.
  intros [Hb (stk & Hnl & Hst & Hl) [Hin Hn]%NoDup_cons (w & ws' & Hf & HF & ->)%Forall2_cons_inv_l].
  destruct Hf as (_ & m & v & V & H & Hm & HV & Hp).
  exists stk, m, v, V, w, ws'. split; [done|]. split; [done|]. split; [by eapply ZUO_CAR_ok|]. split; [by eapply ZUO_CDR_ok|]. split; [by split|].
  split; [by eapply ZUO_CAR_ok|]. split; [by eapply ZUO_CDR_ok|done].
Qed.

Lemma pstate_push σ stack ops ws m w v V :
  pstate σ stack ops ws → (m = o_false (s_img s0) ∧ w = printed false V ∨ m = o_true (s_img s0) ∧ w = printed true V) →
  reps s0 v V → printable V = true →
  ∃ st σ' ops', push_frame m v stack σ = Ok st σ' ∧ extends σ σ' ∧ pstate σ' st ops' (w :: ws).
Proof.
  intros Hs Hm HV Hp. pose proof (pt_base _ _ _ _ Hs) as Hb. unfold push_frame.
  destruct (extends_alloc _ σ (zuo_cons_ok m v) (pe_mem _ _ Hb) (pe_typed _ _ Hb) I) as (op & σ1 & E1 & Hop & Hop1 & Hx1 & Hk1).
  run_step E1.
  destruct (extends_alloc _ σ1 (zuo_cons_ok op stack) (pe_mem _ _ Hx1) (pe_typed _ _ Hx1) I) as (st & σ2 & E2 & Hst & Hst2 & Hx2 & Hk2).
  exists st, σ2, (op :: ops). split; [done|]. pose proof (extends_trans _ _ _ Hx1 Hx2) as Hx. split; [done|].
  destruct (pstate_extends _ _ _ _ _ Hs Hx) as [Hb' Hl' Hn' Hf']. split; [done| | |].
  - exists stack. split; [|done]. intros ->.
    assert (Hnull : s_heap s0 !! nl = Some Osingleton) by (apply (single_at K T _ _ (ok_inv _ _ _ Hok)); unfold singletons; set_solver).
    apply (pe_keep _ _ Hb) in Hnull; [|done]. apply Hk1 in Hnull. congruence.
  - constructor; [|done]. intros Hin. pose proof (frames_pairs _ _ _ (pt_frames _ _ _ _ Hs)) as HF. rewrite Forall_forall in HF.
    destruct (HF _ Hin) as (? & ? & H). congruence.
  - constructor; [|done]. split; [exact (extends_new _ _ Hb Hop)|]. exists m, v, V. split; [by apply Hk2|done].
Qed.

(** The frame on top is used again. *)
Lemma pstate_reuse σ stack op ops w ws v V :
  pstate σ stack (op :: ops) (w :: ws) → reps s0 v V → printable V = true →
  ∃ σ', reuse_frame op (o_true (s_img s0)) v σ = Ok tt σ' ∧ pstate σ' stack (op :: ops) (printed true V :: ws).
Proof.
  intros [Hb Hl Hn Hf] HV Hp. pose proof (frames_pairs _ _ _ Hf) as Hpairs.
  apply Forall2_cons in Hf as [(H0 & m & v0 & V0 & Hop & Hm & _) HF]. apply NoDup_cons in Hn as [Hin Hn].
  destruct (extends_put σ op _ (Opair (o_true (s_img s0)) v) (pe_mem _ _ Hb) (pe_typed _ _ Hb) Hop eq_refl eq_refl) as (E & Hm' & Ht' & Hx').
  exists (set_heap_at op (Opair (o_true (s_img s0)) v) σ). split; [unfold reuse_frame; by run_step (get_ok _ _ _ Hop)|].
  assert (Hsing : s_heap σ !! m = Some Osingleton).
  { apply (pe_keep _ _ Hb); [|done]. apply (single_at K T _ _ (ok_inv _ _ _ Hok)). destruct Hm as [[-> _]|[-> _]]; unfold singletons; set_solver. }
  split; [| |by constructor|].
  - split; [done|by rewrite s_img_set; apply Hb| | |done].
    + intros l o Hl' Ho. rewrite s_heap_set, lookup_insert_ne by congruence. by apply (pe_keep _ _ Hb).
    + intros l Hl'. rewrite s_heap_set. by apply Hx', (pe_trie _ _ Hb).
  - rewrite s_heap_set. clear -Hl Hpairs Hop Hsing. revert stack Hl Hpairs. generalize (op :: ops) as vs.
    induction vs as [|x vs IH]; intros stack Hl HF; cbn in *; [done|]. destruct Hl as (d & Hnl & Hst & Hd).
    apply Forall_cons in HF as [(x1 & y1 & Hx) HF]. exists d. split; [done|]. split; [|by apply IH].
    rewrite lookup_insert_ne; [done|]. intros <-. rewrite Hop in Hst. simplify_eq.
  - constructor; [split; [done|]; exists (o_true (s_img s0)), v, V; rewrite s_heap_set, lookup_insert_eq; auto 6|].
    clear -HF Hin. induction HF as [|o wo ops ws Ho HF IH]; [constructor|].
    rewrite not_elem_of_cons in Hin. destruct Hin as [Hne Hin]. constructor; [|by apply IH].
    destruct Ho as (H1 & x & y & Y & H2 & H3). split; [done|]. exists x, y, Y. by rewrite s_heap_set, lookup_insert_ne.
Qed.

(** ** Nested calls, for names *)

(** What the printer expects of the direct call: it prints strings, and the
    symbols that name primitives. *)
Record self_safe (self : zuo_out_t → loc → zuo_print_mode_t → M zuo_out_t) : Prop := {
  sf_string : ∀ σ out l b mode, extends s0 σ → s_heap s0 !! l = Some (Ostring b) → prints (self out l mode) σ (λ _ σ', extends σ σ');
  sf_symbol : ∀ σ out l id n, extends s0 σ → s_heap s0 !! l = Some (Osymbol id n) →
    prints (self out l zuo_display_mode) σ (λ _ σ', extends σ σ') }.

Lemma resume_empty self fuel out mode σ : extends s0 σ →
  prints (out_resume self (S fuel) out nl mode) σ (λ r σ', r = (out, nl, None) ∧ σ' = σ).
Proof.
  intros Hx. cbn [out_resume].
  eapply behaves_step; [apply is_zi_eq; by rewrite (pe_img _ _ Hx)|]. by eapply behaves_ok.
Qed.

Lemma out_begin_tagged_safe self out l o mode stack σ Q :
  extends s0 σ → s_heap s0 !! l = Some o → (∀ out', Q (out', stack) σ) →
  prints (out_tagged self out l mode stack) σ Q → prints (out_begin self out l mode stack) σ Q.
Proof.
  intros Hx Hl HQ H. unfold out_begin. eapply behaves_step; [done|]. cbn zeta.
  repeat (case_decide; [by eapply behaves_ok|]). exact H.
Qed.

(** One object, without anything on the stack. *)
Lemma nested_once depth fuel out l o mode σ :
  D ∨ (0 < depth ∧ 0 < fuel)%nat → extends s0 σ → s_heap s0 !! l = Some o →
  (∀ self, (∀ d, depth = S d → self = zuo_out_nested d fuel) →
     prints (out_tagged self out l mode nl) σ (λ r σ', snd r = nl ∧ extends σ σ')) →
  prints (zuo_out_nested depth fuel out l mode) σ (λ _ σ', extends σ σ').
Proof.
  intros Hd Hx Hl H. destruct depth as [|depth]; [destruct Hd; [done|lia]|]. cbn [zuo_out_nested].
  assert (Hr : extends σ σ) by (apply extends_refl; apply Hx).
  eapply behaves_step; [done|]. rewrite (pe_img _ _ Hx). destruct fuel as [|fuel]; [destruct Hd; [done|lia]|]. cbn [out_loop].
  eapply behaves_bind with (R := λ r σ', snd r = nl ∧ extends σ σ').
  { eapply out_begin_tagged_safe; [done|done|by intros; split|apply H; congruence]. }
  intros [out' stack] σ' [E Hx']. cbn in E. subst stack. eapply behaves_step; [done|].
  eapply behaves_bind; [apply resume_empty; by eapply extends_trans|]. intros r σ2 [-> ->]. by eapply behaves_ok.
Qed.

Lemma nested_string depth fuel out l b mode σ :
  D ∨ (0 < depth ∧ 0 < fuel)%nat → extends s0 σ → s_heap s0 !! l = Some (Ostring b) → prints (zuo_out_nested depth fuel out l mode) σ (λ _ σ', extends σ σ').
Proof.
  intros Hd Hx Hl. eapply nested_once; [done|done|done|]. intros self _. unfold out_tagged.
  eapply behaves_step; [apply get_ok; by apply (pe_keep _ _ Hx)|]. eapply behaves_ok; [done|].
  split; [done|]. apply extends_refl; apply Hx.
Qed.

Lemma symbol_name l id n : s_heap s0 !! l = Some (Osymbol id n) → ∃ b, s_heap s0 !! n = Some (Ostring b) ∧ Forall is_byte b.
Proof. apply (hv_names _ _ _ _ (ok_inv _ _ _ Hok)). Qed.

(** A symbol, in any mode. *)
Lemma out_symbol_safe self out l id n mode σ :
  (∀ σ out l b mode, extends s0 σ → s_heap s0 !! l = Some (Ostring b) → prints (self out l mode) σ (λ _ σ', extends σ σ')) →
  extends s0 σ → s_heap s0 !! l = Some (Osymbol id n) → prints (out_symbol self out l mode) σ (λ _ σ', extends σ σ').
Proof.
  intros Hself Hx Hl. destruct (symbol_name _ _ _ Hl) as (b & Hn & Hb). unfold out_symbol.
  assert (Hr : extends σ σ) by (apply extends_refl; apply Hx).
  eapply behaves_step; [eapply symbol_str_ok, (pe_keep _ _ Hx); [exact Hl|done]|].
  eapply behaves_bind with (R := λ _ σ', extends σ σ').
  { case_decide; [by eapply behaves_ok|].
    eapply behaves_step; [eapply ZUO_STRING_PTR_ok, (pe_keep _ _ Hx); [exact Hn|done]|]. eapply behaves_step; [done|].
    eapply behaves_bind; [apply symbol_lookup_safe; [apply Hx|apply Hx| |done|done]|].
    { rewrite (pe_img _ _ Hx). apply (pe_trie _ _ Hx), (hv_intern _ _ _ _ (ok_inv _ _ _ Hok)). }
    intros i σ1 Hx1. by eapply behaves_ok. }
  intros plain σ1 Hx1. pose proof (extends_trans _ _ _ Hx Hx1) as Hx01. destruct plain.
  - eapply behaves_weaken; [by eapply Hself|]. intros ? σ2 Hx2. by eapply extends_trans.
  - eapply behaves_bind; [by eapply Hself|]. intros out' σ2 Hx2. eapply behaves_ok; [done|]. by eapply extends_trans.
Qed.

Lemma nested_symbol depth fuel out l id n σ :
  D ∨ (1 < depth ∧ 0 < fuel)%nat → extends s0 σ → s_heap s0 !! l = Some (Osymbol id n) →
  prints (zuo_out_nested depth fuel out l zuo_display_mode) σ (λ _ σ', extends σ σ').
Proof.
  intros Hd Hx Hl. destruct depth as [|depth]; [destruct Hd; [done|lia]|].
  eapply nested_once; [destruct Hd; [by left|right; lia]|done|done|]. intros self Hself.
  specialize (Hself _ eq_refl). subst self. unfold out_tagged.
  eapply behaves_step; [apply get_ok; by apply (pe_keep _ _ Hx)|]. cbn zeta.
  eapply behaves_bind; [eapply out_symbol_safe; [|done|exact Hl]; intros; eapply nested_string; [|done..]; destruct Hd; [by left|right; lia]|].
  intros out' σ' Hx'. by eapply behaves_ok.
Qed.

Lemma nested_safe depth fuel : D ∨ (1 < depth ∧ 0 < fuel)%nat → self_safe (zuo_out_nested depth fuel).
Proof.
  intros Hd. split; intros; [eapply nested_string; [|done..]|by eapply nested_symbol]. destruct Hd; [by left|right; lia].
Qed.

(** ** The loop *)

Section loop.
Context (self : zuo_out_t → loc → zuo_print_mode_t → M zuo_out_t) (Hself : self_safe self).

Lemma last_cdr_safe fuel : ∀ σ l V, (spine V < fuel)%nat → extends s0 σ → reps s0 l V →
  prints (last_cdr fuel l) σ (λ _ σ', σ' = σ).
Proof.
  induction fuel as [|fuel IH]; intros σ l V Hf Hx Hl; [lia|]. cbn [last_cdr].
  eapply behaves_step; [by eapply extends_tag|]. case_bool_decide as Ht; [|by eapply behaves_ok].
  destruct V; try done. destruct (extends_pair _ _ _ _ Hx Hl) as (la & ld & H & _ & Hd).
  eapply behaves_step; [by eapply ZUO_CDR_ok|]. eapply IH; [|done..]. cbn in Hf. lia.
Qed.

(** What the first half of the loop's body leaves on the stack. *)
Definition begun (V : val) (ws : list nat) (r : zuo_out_t * loc) (σ' : st) : Prop :=
  ∃ ops' ws', pstate σ' (snd r) ops' ws' ∧ S (sum_list ws') = (printed false V + sum_list ws)%nat.

Lemma out_pair_safe σ out l a d mode stack ops ws :
  pstate σ stack ops ws → reps s0 l (Vpair a d) → printable a = true → printable d = true →
  prints (out_pair out l mode stack) σ (begun (Vpair a d) ws).
Proof.
  intros Hs Hl Ha Hd. pose proof (pt_base _ _ _ _ Hs) as Hx. destruct (extends_pair _ _ _ _ Hx Hl) as (la & ld & H & Hla & Hld).
  unfold out_pair. eapply behaves_bind with (R := λ _ σ', σ' = σ).
  { case_decide; [|by eapply behaves_ok]. eapply behaves_step; [done|].
    eapply behaves_bind; [apply (last_cdr_safe _ _ _ (Vpair a d)); [by eapply extends_spine|done..]|]. intros p2 σ' ->. eapply behaves_step; [apply is_zi_bool|].
    case_bool_decide; [by eapply behaves_ok|]. eapply behaves_step; [by eapply ZUO_CDR_ok|].
    eapply behaves_step; [by eapply extends_tag|]. by eapply behaves_ok. }
  intros out' σ' ->. eapply behaves_step; [by eapply ZUO_CDR_ok|]. eapply behaves_step; [done|]. rewrite (pe_img _ _ Hx).
  destruct (pstate_push σ stack ops ws _ _ ld d Hs (or_intror (conj eq_refl eq_refl)) Hld Hd) as (st1 & σ1 & ops1 & E1 & Hx1 & Hs1).
  eapply behaves_step; [exact E1|]. eapply behaves_step; [eapply ZUO_CAR_ok, (pe_keep _ _ Hx1); [exact H|done]|].
  eapply behaves_step; [done|]. rewrite (pe_img _ _ Hx1), (pe_img _ _ Hx).
  destruct (pstate_push σ1 st1 ops1 _ _ _ la a Hs1 (or_introl (conj eq_refl eq_refl)) Hla Ha) as (st2 & σ2 & ops2 & E2 & Hx2 & Hs2).
  eapply behaves_step; [exact E2|]. eapply behaves_ok; [done|]. exists ops2, (printed false a :: printed true d :: ws).
  split; [done|]. cbn. lia.
Qed.

Lemma out_closure_safe σ out lam x Fm b bd :
  extends s0 σ → reps s0 lam (Vpair x (Vpair Fm (Vpair b bd))) → prints (out_closure self out lam) σ (λ _ σ', extends σ σ').
Proof.
  intros Hx Hl. unfold out_closure. assert (Hr : extends σ σ) by (apply extends_refl; apply Hx).
  destruct (extends_pair _ _ _ _ Hx Hl) as (l1 & l2 & H1 & _ & Hl2). eapply behaves_step; [by eapply ZUO_CDR_ok|].
  destruct (extends_pair _ _ _ _ Hx Hl2) as (l3 & l4 & H2 & _ & Hl4). eapply behaves_step; [by eapply ZUO_CDR_ok|].
  destruct (extends_pair _ _ _ _ Hx Hl4) as (l5 & l6 & H3 & Hl5 & _). eapply behaves_step; [by eapply ZUO_CAR_ok|].
  eapply behaves_step; [by eapply extends_tag|]. case_bool_decide as Ht.
  - destruct b; try done. eapply behaves_bind; [by eapply (sf_string _ Hself)|]. intros out' σ' Hx'. by eapply behaves_ok.
  - eapply behaves_step; [done|]. by eapply behaves_ok.
Qed.

(** What is not a pair is printed at once. *)
Lemma begun_atom σ out stack ops ws V : pstate σ stack ops ws → vtag V ≠ zuo_pair_tag → begun V ws (out, stack) σ.
Proof. intros Hs Hv. exists ops, ws. split; [done|]. by destruct V. Qed.

Lemma out_begin_safe σ out l V mode stack ops ws :
  pstate σ stack ops ws → reps s0 l V → printable V = true →
  prints (out_begin self out l mode stack) σ (begun V ws).
Proof.
  intros Hs Hl Hp. pose proof (pt_base _ _ _ _ Hs) as Hx.
  destruct (rep_obj K T _ _ (ok_inv _ _ _ Hok) _ _ Hl) as (o & Ho & Ht).
  assert (Hnt : not_trie o) by (by destruct o, V). destruct (decide (vtag V = zuo_pair_tag)) as [Hv|Hv].
  { destruct V as [| | | | | | | | | | | | | |a d| | |]; try done. pose proof Hl as (la & ld & Hl' & _). rewrite Ho in Hl'. simplify_eq.
    apply andb_true_iff in Hp as [? ?]. unfold out_begin. eapply behaves_step; [done|]. cbn zeta. rewrite (pe_img _ _ Hx).
    repeat (rewrite decide_False by (eapply pair_not_single; [exact Ho|unfold singletons; set_solver])).
    unfold out_tagged. eapply behaves_step; [apply get_ok; by apply (pe_keep _ _ Hx)|]. by eapply out_pair_safe. }
  eapply out_begin_tagged_safe; [done|exact Ho|intros; by eapply begun_atom|]. unfold out_tagged.
  eapply behaves_step; [apply get_ok; by apply (pe_keep _ _ Hx)|]. cbn zeta.
  assert (Hret : ∀ out' : zuo_out_t, prints (ret (out', stack)) σ (begun V ws)) by (intros; by eapply begun_atom).
  assert (Hatom : ∀ (m : M zuo_out_t) (f : zuo_out_t → zuo_out_t), prints m σ (λ _ σ', extends σ σ') →
    prints (out <- m ;; ret (f out, stack)) σ (begun V ws)).
  { intros m f Hm. eapply behaves_bind; [exact Hm|]. intros out' σ' Hx'. eapply behaves_ok; [done|]. eapply begun_atom; [by eapply pstate_extends|done]. }
  destruct o as [|i|x y|b|id n|? ? ? ?|? ?|d p m n|lam env|? ?|? ? ?|? ? ? ? ?|?]; try apply Hret; try (by destruct V).
  - apply (Hatom _ (λ out, out)). eapply out_symbol_safe; [apply Hself|done|exact Ho].
  - destruct V; try done. destruct Hl as [n' Hl]. rewrite Ho in Hl. simplify_eq.
    cbn in Hp. apply bool_decide_eq_true in Hp. destruct (hv_procs _ _ _ _ (ok_inv _ _ _ Hok) _ _ _ _ _ Ho Hp) as (id & str & Hn).
    apply behaves_assoc, (Hatom _ (λ out, out_string out ">")). by eapply (sf_symbol _ Hself).
  - destruct V as [| | | | | | | | | | | | | | |L E| |]; try done. destruct Hl as (la & ld & Hl & Ha & Hd). rewrite Ho in Hl. simplify_eq.
    apply (Hatom _ (λ out, out)). cbn in Hp. destruct L as [| | | | | | | | | | | | | |x L| | |]; try done.
    destruct L as [| | | | | | | | | | | | | |Fm L| | |]; try done. destruct L; try done. by eapply out_closure_safe.
Qed.

(** The object to print next, and what is left on the stack then. *)
Definition resumed (ws : list nat) (r : zuo_out_t * loc * option loc) (σ' : st) : Prop :=
  ∃ ops' ws', pstate σ' (snd (fst r)) ops' ws'
    ∧ ∀ l, snd r = Some l → ∃ V, reps s0 l V ∧ printable V = true ∧ (printed false V + sum_list ws' ≤ sum_list ws)%nat.

Lemma out_resume_safe fuel : ∀ σ out stack ops ws mode,
  (length ops < fuel)%nat → pstate σ stack ops ws →
  prints (out_resume self fuel out stack mode) σ (resumed ws).
Proof.
  induction fuel as [|fuel IH]; intros σ out stack ops ws mode Hfu Hs; [lia|]. cbn [out_resume].
  pose proof (pt_base _ _ _ _ Hs) as Hx. pose proof (pe_img _ _ Hx) as Ei. destruct ops as [|op ops].
  { pose proof (pt_list _ _ _ _ Hs) as Hl. cbn in Hl. subst stack. eapply behaves_step; [apply is_zi_eq; by rewrite Ei|].
    eapply behaves_ok; [done|]. exists [], ws. split; [done|]. by intros l. }
  destruct (pstate_pop _ _ _ _ _ Hs) as (stk & m & v & V & w & ws' & -> & Hnl & E1 & E2 & Hs' & E3 & E4 & Hm & HV & Hp).
  eapply behaves_step; [apply is_zi_ne; by rewrite Ei|]. eapply behaves_step; [exact E1|]. eapply behaves_step; [exact E3|].
  eapply behaves_step; [exact E4|]. eapply behaves_step; [done|]. cbn zeta. rewrite Ei. case_decide as Hf.
  { destruct Hm as [[_ ->]|[-> _]]; [|by destruct false_not_true]. eapply behaves_step; [exact E2|]. eapply behaves_ok; [done|].
    exists ops, ws'. split; [done|]. intros l [= <-]. eauto. }
  destruct Hm as [[Hm _]|[Hm ->]]; [done|]. rewrite decide_True by done. unfold resume_pair. apply behaves_assoc.
  eapply behaves_step; [done|]. apply behaves_assoc. eapply behaves_step; [by eapply extends_tag|]. case_bool_decide as Ht.
  { destruct V; try done. destruct (extends_pair _ _ _ _ Hx HV) as (la & ld & H & Ha & Hd). cbn in Hp. apply andb_true_iff in Hp as [Hpa Hpd].
    apply behaves_assoc. eapply behaves_step; [by eapply ZUO_CAR_ok|]. apply behaves_assoc. eapply behaves_step; [by eapply ZUO_CDR_ok|].
    destruct (pstate_reuse σ stack op ops _ ws' ld _ Hs Hd Hpd) as (σ1 & E5 & Hs1). rewrite Ei. apply behaves_assoc.
    eapply behaves_step; [exact E5|]. eapply behaves_step; [done|]. eapply behaves_ok; [done|]. eexists (op :: ops), _. split; [done|].
    intros l [= <-]. eexists. split; [exact Ha|]. split; [done|]. cbn. lia. }
  apply behaves_assoc. eapply behaves_step; [apply is_zi_bool|]. case_bool_decide as Hn.
  { apply behaves_assoc. eapply behaves_step; [exact E2|]. eapply behaves_step; [done|].
    eapply behaves_weaken; [eapply (IH σ _ stk ops ws'); [cbn in Hfu; lia|done]|]. intros r σ' (ops' & ws2 & H1 & H2).
    exists ops', ws2. split; [done|]. intros l E. destruct (H2 l E) as (V' & H3 & H4 & H5). exists V'. cbn. split_and!; [done..|lia]. }
  apply behaves_assoc. eapply behaves_step; [done|].
  destruct (pstate_reuse σ stack op ops _ ws' nl Vnull Hs eq_refl eq_refl) as (σ1 & E5 & Hs1). rewrite Ei. apply behaves_assoc.
  eapply behaves_step; [exact E5|]. eapply behaves_step; [done|]. eapply behaves_ok; [done|]. eexists (op :: ops), _. split; [done|].
  intros l [= <-]. exists V. split; [done|]. split; [done|]. destruct V; try done. destruct Hn. rewrite Ei. by injection HV.
Qed.

Lemma out_loop_safe fuel : ∀ σ out l V mode stack ops ws,
  D ∨ (printed false V + sum_list ws ≤ fuel)%nat → pstate σ stack ops ws → reps s0 l V → printable V = true →
  prints (out_loop self fuel out l mode stack) σ (λ _ σ', extends s0 σ').
Proof.
  induction fuel as [|fuel IH]; intros σ out l V mode stack ops ws Hf Hs Hl Hp.
  { destruct Hf; [done|]. pose proof (printed_pos V). lia. }
  cbn [out_loop]. eapply behaves_bind; [by eapply out_begin_safe|]. intros [out1 st1] σ1 (ops1 & ws1 & Hs1 & Hw1). eapply behaves_step; [done|].
  eapply behaves_bind; [eapply out_resume_safe; [by eapply pstate_fuel|done]|]. intros [[out2 st2] [l2|]] σ2 (ops2 & ws2 & Hs2 & Hl2).
  - destruct (Hl2 _ eq_refl) as (V2 & HV2 & Hp2 & Hw2). eapply IH; [|done..]. destruct Hf; [by left|right; lia].
  - eapply behaves_ok; [done|]. apply Hs2.
Qed.
End loop.

Lemma zuo_out_safe fuel σ out l V mode :
  D ∨ (printed false V ≤ fuel)%nat → extends s0 σ → reps s0 l V → printable V = true →
  prints (zuo_out fuel out l mode) σ (λ _ σ', extends s0 σ').
Proof.
  intros Hf Hx Hl Hp. unfold zuo_out, out_depth. cbn [zuo_out_nested]. eapply behaves_step; [done|]. rewrite (pe_img _ _ Hx).
  pose proof (printed_pos V). eapply (out_loop_safe _ (nested_safe 2 fuel ltac:(destruct Hf; [by left|right; lia]))); [|by apply pstate_empty|done|done].
  destruct Hf; [by left|right]. cbn. lia.
Qed.

Lemma to_string_safe lfuel fuel : ∀ σ out l vs V mode,
  (spine V < lfuel)%nat → extends s0 σ → reps s0 l V → vlist V = Some vs →
  Forall (λ v, printable v = true ∧ (D ∨ (printed false v ≤ fuel)%nat)) vs →
  prints (to_string_loop lfuel fuel out l mode) σ (λ r σ', extends s0 σ' ∧ snd r = nl).
Proof.
  induction lfuel as [|lfuel IH]; intros σ out l vs V mode Hn Hx Hl Hv Hp; [lia|]. cbn [to_string_loop].
  eapply behaves_step; [by eapply extends_tag|]. destruct V; try done; cbn in Hv.
  - eapply behaves_ok; [done|]. split; [done|]. by injection Hl.
  - destruct (vlist V2) as [vs'|] eqn:E; [|done]. cbn in Hv. simplify_eq. apply Forall_cons in Hp as [[Hp Hf] Hps].
    rewrite bool_decide_eq_true_2 by done. destruct (extends_pair _ _ _ _ Hx Hl) as (la & ld & H & Ha & Hd).
    eapply behaves_step; [by eapply ZUO_CAR_ok|]. eapply behaves_bind; [by eapply zuo_out_safe|]. intros out' σ1 Hx1.
    destruct (extends_pair _ _ _ _ Hx1 Hl) as (la' & ld' & H' & _ & Hd'). eapply behaves_step; [by eapply ZUO_CDR_ok|].
    eapply behaves_step; [apply is_zi_bool|]. eapply IH; [|done..]. cbn in Hn. lia.
Qed.

Lemma zuo_to_string_safe fuel σ l vs V mode :
  extends s0 σ → reps s0 l V → vlist V = Some vs →
  Forall (λ v, printable v = true ∧ (D ∨ (printed false v ≤ fuel)%nat)) vs →
  prints (zuo_to_string fuel l mode) σ (λ p σ', extends s0 σ' ∧ s_heap s0 !! p = None ∧ ∃ b, s_heap σ' !! p = Some (Ostring b)).
Proof.
  intros Hx Hl Hv Hp. unfold zuo_to_string. eapply behaves_step; [done|].
  eapply behaves_bind; [by eapply to_string_safe; [eapply extends_spine|..]|]. intros [out l'] σ1 [Hx1 E]. cbn in E. subst l'. cbn [fst snd].
  eapply behaves_step; [apply is_zi_eq; by rewrite (pe_img _ _ Hx1)|]. eapply behaves_step; [done|].
  destruct (extends_alloc _ σ1 (zuo_sized_string_ok (out_s out)) (pe_mem _ _ Hx1) (pe_typed _ _ Hx1) I) as (p & σ2 & E2 & Hn2 & Hp2 & Hx2 & _).
  eapply behaves_ok; [exact E2|]. split; [by eapply extends_trans|]. split; [by eapply extends_new|eauto].
Qed.
End print.

(** ** Strings that were just made *)

Lemma extends_self s σ : extends s σ → extends σ σ.
Proof. intros Hx. apply extends_refl; apply Hx. Qed.

Lemma strings_loop_safe {F D : Prop} lfuel fuel : ∀ σ out l ls mode,
  (length ls < lfuel)%nat → D ∨ (0 < fuel)%nat →
  extends σ σ → is_list (s_heap σ) (o_null (s_img σ)) l ls →
  s_heap σ !! o_null (s_img σ) = Some Osingleton →
  Forall (λ x, ∃ b, s_heap σ !! x = Some (Ostring b)) ls →
  behaves F D (to_string_loop lfuel fuel out l mode) σ (λ r σ', snd r = o_null (s_img σ) ∧ extends σ σ').
Proof.
  induction lfuel as [|lfuel IH]; intros σ out l ls mode Hlen Hf Hx Hl Hnull Hs; [lia|]. cbn [to_string_loop].
  destruct ls as [|x ls]; cbn in Hl.
  - subst l. eapply behaves_step; [by eapply has_tag_ok|]. by eapply behaves_ok.
  - destruct Hl as (d & Hne & H & Hd). apply Forall_cons in Hs as [[b Hb] Hs].
    eapply behaves_step; [by eapply has_tag_ok|]. rewrite bool_decide_eq_true_2 by done.
    eapply behaves_step; [by eapply ZUO_CAR_ok|].
    eapply behaves_bind; [eapply (nested_string σ); [destruct Hf; [by left|right; unfold out_depth; lia]|done..]|]. intros out' σ1 Hx1.
    eapply behaves_step; [by eapply ZUO_CDR_ok, (pe_keep _ _ Hx1)|]. eapply behaves_step; [apply is_zi_bool|].
    rewrite <- (pe_img _ _ Hx1). eapply behaves_weaken.
    + eapply (IH σ1 _ d ls); [cbn in Hlen; lia|done|exact (extends_self _ _ Hx1)|rewrite (pe_img _ _ Hx1); eapply is_list_keep; [|exact Hd]; intros; by apply (pe_keep _ _ Hx1)
        |rewrite (pe_img _ _ Hx1); by apply (pe_keep _ _ Hx1)|].
      eapply Forall_impl; [exact Hs|]. intros y [c Hc]. exists c. by apply (pe_keep _ _ Hx1).
    + intros r σ2 [? Hx2]. split; [done|exact (extends_trans _ _ _ Hx1 Hx2)].
Qed.

Lemma strings_to_string_safe {F D : Prop} fuel σ l ls mode :
  D ∨ (0 < fuel)%nat → extends σ σ → is_list (s_heap σ) (o_null (s_img σ)) l ls →
  s_heap σ !! o_null (s_img σ) = Some Osingleton →
  Forall (λ x, ∃ b, s_heap σ !! x = Some (Ostring b)) ls →
  behaves F D (zuo_to_string fuel l mode) σ (λ p σ', extends σ σ' ∧ ∃ b, s_heap σ' !! p = Some (Ostring b)).
Proof.
  intros Hf Hx Hl Hn Hs. unfold zuo_to_string. eapply behaves_step; [done|].
  eapply behaves_bind; [by eapply strings_loop_safe; [eapply is_list_heap_fuel|..]|]. intros [out l'] σ1 [E Hx1]. cbn in E. subst l'. cbn [fst snd].
  eapply behaves_step; [apply is_zi_eq; by rewrite (pe_img _ _ Hx1)|]. eapply behaves_step; [done|].
  destruct (extends_alloc _ σ1 (zuo_sized_string_ok (out_s out)) (pe_mem _ _ Hx1) (pe_typed _ _ Hx1) I) as (p & σ2 & E2 & _ & Hp2 & Hx2 & _).
  eapply behaves_ok; [exact E2|]. split; [by eapply extends_trans|eauto].
Qed.
