(* ===== verification/Sound.v ===== *)
(** * Programs without undefined behaviour

    A closed program over the primitives that the interface [PrimSafe] covers
    never meets undefined behaviour, whatever it does: it returns a value, it
    ends with an error, or it runs for ever. *)

From S2P Require Import Prelude Sys Heap Alloc Gc GcCorrect Objects Trie Lists ImageOk Value Intern Sort Printer Reader Prims Interp Machine Simulate Syntax Path Module Shell Sha256 Fasl Init Boot RoundTrip ListSpec Eval Scope PrintSafe.

(** What the evaluator expects of the primitives [S]: when [P] has no result
    for good arguments, the call ends with an error. *)
Class PrimSafe (K : keywords) (T : Z → option val) (S : dispatcher → string → Z → Prop)
    (call : dispatcher → string → loc → M loc) (P : dispatcher → string → list val → option val) : Prop := {
  ps_public : ∀ disp proc mask, S disp proc mask → proc ∉ private_procs;
  ps_good : ∀ disp proc mask vs v, S disp proc mask → Forall (good K T S) vs → P disp proc vs = Some v → good K T S v;
  ps_fails : ∀ s disp proc mask args ls vs,
    ok K T s → S disp proc mask → arity_accepts mask (Z.of_nat (length vs)) = true →
    is_list (s_heap s) (o_null (s_img s)) args ls → Forall2 (reps s) ls vs → P disp proc vs = None →
    ∃ e s', call disp proc args s = Fail e s' }.

Section sound.
Context (K : keywords) (T : Z → option val) (S : dispatcher → string → Z → Prop).
Context (call : dispatcher → string → loc → M loc) (P : dispatcher → string → list val → option val).
Context `{!PrimSpec K T call P} `{!PrimSafe K T S call P}.
Abbreviation ok := (ok K T).
Abbreviation ext := (ext K T).
Abbreviation sim := (sim K T).
Abbreviation conts := (conts K T).
Abbreviation follows := (follows K T).
Abbreviation good := (good K T S).
Abbreviation good_k := (good_k K T S).
Abbreviation good_meta := (good_meta K T S).
Abbreviation good_state := (good_state K T S).

Lemma good_printable v : good v → printable v = true.
Proof.
  induction v; intros H; inversion H; subst; cbn; try done.
  - apply andb_true_iff. auto.
  - match goal with H : scoped_lambda _ _ _ _ _ |- _ => by inversion H end.
  - apply bool_decide_eq_true. by eapply ps_public.
Qed.

(** ** The error for a wrong number of arguments *)

Lemma arity_error_safe {A} fuel s name nm args AV vs (Q : A → st → Prop) :
  ok s → reps s name nm → nm = Vfalse ∨ (∃ b, nm = Vstr b) → reps s args AV → vlist AV = Some vs →
  Forall (λ v, printable v = true) vs →
  no_ub (zuo_arity_error fuel name args ;;; ub "arity-error returned") s Q.
Proof.
  intros Hok Hn Hnm Ha Hv Hp. unfold zuo_arity_error. cbn zeta. apply behaves_assoc.
  eapply behaves_step; [by apply (reps_const K T s _ nm o_false Vfalse)|].
  assert (Eb : (if bool_decide (nm = Vfalse) then ret true else has_tag zuo_string_tag name) s = Ok true s).
  { case_bool_decide; [done|]. rewrite (reps_tag K T _ _ _ _ Hok Hn). by destruct Hnm as [->|[b ->]]. }
  apply behaves_assoc. eapply behaves_step; [exact Eb|]. cbn [negb]. apply behaves_assoc.
  eapply behaves_step; [by eapply (reps_list_p K T)|]. apply behaves_assoc. eapply behaves_step; [by apply is_zi_eq|]. cbn [negb].
  apply behaves_assoc. eapply behaves_step; [by eapply (reps_null K T)|]. apply behaves_assoc. eapply behaves_step; [done|].
  apply behaves_assoc. eapply behaves_bind with (R := λ p σ, extends s σ ∧ ∃ b, s_heap σ !! p = Some (Ostring b)).
  { pose proof (base_extends K T s Hok) as Hx. destruct (decide (AV = Vnull)) as [->|Hne];
      [rewrite bool_decide_eq_true_2 by done|rewrite bool_decide_eq_false_2 by done;
       eapply behaves_weaken; [eapply (zuo_to_string_safe K T s Hok); try done|by intros p σ (? & _ & ?)];
       eapply Forall_impl; [exact Hp|]; auto].
    destruct (extends_alloc _ s (zuo_string_ok (bytes_of "[no arguments]")) (pe_mem _ _ Hx) (pe_typed _ _ Hx) I) as (p & σ & E & _ & Hp' & Hx' & _).
    eapply behaves_ok; [exact E|]. split; [done|eauto]. }
  intros shown σ1 [Hx1 [b1 Hb1]].
  destruct (extends_alloc _ σ1 (zuo_cons_ok shown (o_null (s_img s))) (pe_mem _ _ Hx1) (pe_typed _ _ Hx1) I) as (l1 & σ2 & E2 & N2 & H2 & Hx2 & _).
  apply behaves_assoc. eapply behaves_step; [exact E2|].
  destruct (extends_alloc _ σ2 (zuo_string_ok (bytes_of ": wrong number of arguments: ")) (pe_mem _ _ Hx2) (pe_typed _ _ Hx2) I)
    as (m & σ3 & E3 & N3 & H3 & Hx3 & _).
  apply behaves_assoc. eapply behaves_step; [exact E3|].
  destruct (extends_alloc _ σ3 (zuo_cons_ok m l1) (pe_mem _ _ Hx3) (pe_typed _ _ Hx3) I) as (l2 & σ4 & E4 & N4 & H4 & Hx4 & _).
  apply behaves_assoc. eapply behaves_step; [exact E4|].
  pose proof (extends_trans _ _ _ Hx2 Hx3) as Hx23. pose proof (extends_trans _ _ _ Hx23 Hx4) as Hx24.
  pose proof (extends_trans _ _ _ Hx1 Hx24) as Hx14.
  apply behaves_assoc. eapply behaves_bind with (R := λ p σ, extends σ4 σ ∧ ∃ b, s_heap σ !! p = Some (Ostring b)).
  { destruct (decide (nm = Vfalse)) as [Hf|Hf]; [rewrite bool_decide_eq_true_2 by done|rewrite bool_decide_eq_false_2 by done].
    - destruct (extends_alloc _ σ4 (zuo_string_ok (bytes_of "[procedure]")) (pe_mem _ _ Hx4) (pe_typed _ _ Hx4) I) as (p & σ & E & _ & Hp' & Hx' & _).
      eapply behaves_ok; [exact E|]. split; [done|eauto].
    - eapply behaves_ok; [done|]. split; [exact (extends_self _ _ Hx14)|]. destruct Hnm as [->|[b ->]]; [done|].
      exists b. apply (pe_keep _ _ Hx14); [exact Hn|done]. }
  intros p σ5 [Hx5 [b5 Hb5]].
  destruct (extends_alloc _ σ5 (zuo_cons_ok p l2) (pe_mem _ _ Hx5) (pe_typed _ _ Hx5) I) as (l3 & σ6 & E6 & N6 & H6 & Hx6 & _).
  apply behaves_assoc. eapply behaves_step; [exact E6|]. apply behaves_assoc.
  pose proof (extends_trans _ _ _ Hx5 Hx6) as Hx46. pose proof (extends_trans _ _ _ Hx14 Hx46) as Hx06.
  pose proof (pe_img _ _ Hx06) as Ei.
  assert (Hnull : s_heap σ6 !! o_null (s_img s) = Some Osingleton).
  { apply (pe_keep _ _ Hx06); [|done]. apply (single_at K T _ _ (ok_inv _ _ _ Hok)). unfold singletons. set_solver. }
  eapply behaves_bind; [apply (strings_to_string_safe fuel σ6 l3 [p; m; shown]); [by left|..]|].
  - exact (extends_self _ _ Hx06).
  - rewrite Ei. assert (Hne : ∀ x o, s_heap σ6 !! x = Some o → o ≠ Osingleton → x ≠ o_null (s_img s)) by (intros x o Hx Ho ->; congruence).
    assert (G1 : s_heap σ6 !! l1 = Some (Opair shown (o_null (s_img s))))
      by exact (pe_keep _ _ Hx46 _ _ (pe_keep _ _ Hx4 _ _ (pe_keep _ _ Hx3 _ _ H2 I) I) I).
    assert (G2 : s_heap σ6 !! l2 = Some (Opair m l1)) by (by apply (pe_keep _ _ Hx46)).
    exists l2. split; [by eapply Hne|]. split; [done|]. exists l1. split; [by eapply Hne|]. split; [done|].
    exists (o_null (s_img s)). split; [by eapply Hne|]. done.
  - by rewrite Ei.
  - repeat constructor.
    + exists b5. by apply (pe_keep _ _ Hx6).
    + eexists. exact (pe_keep _ _ Hx46 _ _ (pe_keep _ _ Hx4 _ _ H3 I) I).
    + exists b1. exact (pe_keep _ _ Hx46 _ _ (pe_keep _ _ Hx24 _ _ Hb1 I) I).
  - intros msg σ7 [_ [b7 Hb7]]. apply behaves_assoc. eapply behaves_step; [by eapply ZUO_STRING_PTR_ok|]. done.
Qed.

(** What [zuo_fail_arity] looks at in the procedure. *)
Definition arity_named (f : val) : Prop :=
  match f with
  | Vclosure (Vpair _ (Vpair _ (Vpair b body_d))) _ => body_d = Vnull ∨ ∃ n, b = Vstr n
  | Vclosure _ _ => False
  | Vprim _ proc _ => proc ∉ private_procs
  | _ => True
  end.

Lemma good_named f : good f → arity_named f.
Proof.
  intros H. inversion H as [v Hv| |? ? ? Hs|lam env Γ He Hl|]; subst; cbn; try done.
  - by destruct f.
  - by eapply ps_public.
  - by inversion Hl; subst.
Qed.

Lemma fail_arity_safe {A} fuel s rator args F AV vs (Q : A → st → Prop) :
  ok s → reps s rator F → arity_named F → reps s args AV → vlist AV = Some vs → Forall (λ v, printable v = true) vs →
  no_ub (zuo_fail_arity fuel rator args) s Q.
Proof.
  intros Hok HF Hn Ha Hv Hp. destruct (rep_obj K T _ _ (ok_inv _ _ _ Hok) _ _ HF) as (o & Ho & Ht).
  unfold zuo_fail_arity. eapply behaves_step; [by apply get_ok|]. eapply behaves_step; [done|]. cbn zeta.
  assert (Hname : ∀ (m : M loc), (∃ name s' nm, m s = Ok name s' ∧ ext s s' ∧ reps s' name nm ∧ (nm = Vfalse ∨ ∃ b, nm = Vstr b)) →
    no_ub (name <- m ;; zuo_arity_error fuel name args ;;; @ub A "arity-error returned") s Q).
  { intros m (name & s' & nm & E & Hx & Hnm & Hc). eapply behaves_step; [exact E|].
    eapply (arity_error_safe fuel s' name nm args AV vs Q); try done; [apply Hx|by apply (ext_reps _ _ _ _ Hx)]. }
  assert (Hfalse : ∃ name s' nm, zi o_false s = Ok name s' ∧ ext s s' ∧ reps s' name nm ∧ (nm = Vfalse ∨ ∃ b, nm = Vstr b)).
  { exists (o_false (s_img s)), s, Vfalse. split; [done|]. split; [by apply ext_refl|]. split; [done|by left]. }
  assert (Hstr : ∀ x, ∃ name s' nm, zuo_string x s = Ok name s' ∧ ext s s' ∧ reps s' name nm ∧ (nm = Vfalse ∨ ∃ b, nm = Vstr b)).
  { intros x. destruct (allocates_ext K T s _ _ (zuo_string_ok x) Hok) as (p & s' & E & He & Hp' & _); try done.
    exists p, s', (Vstr (c_str x)). split; [done|]. split; [done|]. split; [done|]. right. eauto. }
  apply Hname. destruct o as [| | | | | | |d p m n|lam env| | | |]; try (repeat case_decide; first [apply Hfalse|apply Hstr]).
  - destruct F; try done. destruct HF as [n' HF]. rewrite Ho in HF. simplify_eq. cbn in Hn.
    destruct (hv_procs _ _ _ _ (ok_inv _ _ _ Hok) _ _ _ _ _ Ho Hn) as (id & str & Hsym).
    destruct (hv_names _ _ _ _ (ok_inv _ _ _ Hok) _ _ _ Hsym) as (b & Hb & _).
    exists str, s, (Vstr b). split; [by eapply symbol_str_ok|]. split; [by apply ext_refl|]. split; [done|eauto].
  - destruct F as [| | | | | | | | | | | | | | |L E| |]; try done. destruct HF as (la & ld & HF & HL & _). rewrite Ho in HF. simplify_eq. cbn in Hn.
    destruct L as [| | | | | | | | | | | | | |x L| | |]; try done. destruct L as [| | | | | | | | | | | | | |f L| | |]; try done.
    destruct L as [| | | | | | | | | | | | | |b bd| | |]; try done.
    destruct (reps_cdr _ _ _ _ HL) as (l1 & E1 & H1). run_step E1. destruct (reps_cdr _ _ _ _ H1) as (l2 & E2 & H2). run_step E2.
    destruct (reps_cdr _ _ _ _ H2) as (l3 & E3 & H3). run_step E3. run_step (reps_null K T _ _ _ Hok H3).
    case_bool_decide as Hb; [apply Hfalse|]. destruct (reps_car _ _ _ _ H2) as (l4 & E4 & H4).
    exists l4, s, b. split; [done|]. split; [by apply ext_refl|]. split; [done|]. destruct Hn as [?|[n ->]]; [done|eauto].
Qed.

(** ** Applying a closure to the wrong number of arguments *)

Lemma bind_formals_stuck fuel : ∀ s env formals args E F A Γ Γ' ws,
  ok s → reps s env E → reps s formals F → reps s args A → vlist A = Some ws →
  scope_formals F Γ = Some Γ' → bind_args F A E = None → (spine F < fuel)%nat →
  ∃ lenv lf la s' F1 A1, bind_formals fuel env formals args s = Ok (lenv, lf, la) s'
    ∧ ext s s' ∧ s_rt s' = s_rt s ∧ reps s' lf F1 ∧ reps s' la A1
    ∧ vtag F1 ≠ zuo_symbol_tag ∧ (F1 ≠ Vnull ∨ A1 ≠ Vnull).
Proof.
  induction fuel as [|fuel IH]; intros s env formals args E F A Γ Γ' ws Hok HE HF HA Hv Hs Hb Hfuel; [lia|].
  cbn [bind_formals]. unfold is_pair. run_step (reps_tag K T _ _ _ zuo_pair_tag Hok HF).
  destruct F as [| | | | | | | | | | | | |id|f fs| | |]; try done.
  - rewrite bool_decide_false by done. exists env, formals, args, s, Vnull, A.
    split; [done|]. split; [by apply ext_refl|]. cbn in Hb. case_decide; [done|]. auto 10.
  - rewrite bool_decide_true by done. run_step (reps_null K T _ _ _ Hok HA).
    destruct A as [| | | | | | | | | | | | | |a as'| | |]; try done.
    + rewrite bool_decide_true by done. exists env, formals, args, s, (Vpair f fs), Vnull.
      split; [done|]. split; [by apply ext_refl|]. split; [done|]. split; [done|]. split; [done|]. split; [done|]. by left.
    + rewrite bool_decide_false by done. cbn in Hv, Hb, Hs, Hfuel.
      destruct (vlist as') as [ws'|] eqn:Ew; [|done]. destruct f; try done.
      destruct (reps_car _ _ _ _ HF) as (l1 & E1 & H1), (reps_cdr _ _ _ _ HF) as (l2 & E2 & H2).
      destruct (reps_car _ _ _ _ HA) as (l3 & E3 & H3). run_step E1. run_step E3.
      destruct (env_extend_ok K T s env l1 l3 E _ a Hok HE H1 H3) as (p & s1 & E5 & He1 & Hr1 & Hp). run_step E5.
      destruct (reps_cdr _ _ _ _ (ext_reps _ _ _ _ He1 _ _ HA)) as (l5 & E6 & H5).
      destruct (reps_cdr _ _ _ _ (ext_reps _ _ _ _ He1 _ _ HF)) as (l6 & E7 & H6).
      run_step E6. run_step E7.
      destruct (IH s1 p l6 l5 _ _ _ _ Γ' ws' (ext_ok _ _ _ _ He1) Hp H6 H5 Ew Hs Hb) as (lenv & lf & la & s' & F1 & A1 & E8 & He & Hr & Hrest); [lia|].
      exists lenv, lf, la, s', F1, A1. split; [done|]. split; [by eapply ext_trans|]. split; [congruence|done].
Qed.

Lemma apply_closure_stuck fuel s rator lambda lenv args L E A ws k m Γ (Q : unit → st → Prop) :
  conts s k m → reps s rator (Vclosure L E) → reps s lambda L → reps s lenv E → reps s args A → vlist A = Some ws →
  good (Vclosure L E) → good A → scoped_lambda K T S Γ L → enter L E A = None →
  no_ub (apply_closure fuel rator lambda lenv args) s Q.
Proof.
  intros Hc HR HL HE HA Hv Hg HgA Hl Hen. pose proof Hc as (Hok & _).
  inversion Hl as [? Γ' kw F b body_d x Hs Hx Hbody Hn]; subst. cbn in Hen. rewrite Hx in Hen. cbn in Hen.
  destruct (bind_args F A E) eqn:Hb; [done|]. unfold apply_closure. cbn zeta.
  destruct (reps_cdr _ _ _ _ HL) as (l1 & E1 & H1). eapply behaves_step; [exact E1|].
  destruct (reps_car _ _ _ _ H1) as (l2 & E2 & H2). eapply behaves_step; [exact E2|].
  destruct (reps_cdr _ _ _ _ H1) as (l3 & E3 & H3). eapply behaves_step; [exact E3|].
  destruct (closure_body_ok K T s l3 b body_d x k m Hc H3 Hx) as (lb & s1 & rest & E4 & He1 & Hc1 & Hlb).
  pose proof (ext_reps _ _ _ _ He1) as Hx1. pose proof (ext_ok _ _ _ _ He1) as Hok1.
  destruct (bind_formals_stuck (heap_fuel s1) s1 lenv l2 args E F A Γ Γ' ws)
    as (le & lf & la & s2 & F1 & A1 & E5 & He2 & Hr2 & HF & HA1 & Hns & Hne); auto.
  { unfold heap_fuel. pose proof (rep_spine K T _ _ (ok_inv _ _ _ Hok1) _ _ (Hx1 _ _ H2)). lia. }
  pose proof (ext_ok _ _ _ _ He2) as Hok2. pose proof (ext_trans _ _ _ _ _ He1 He2) as He12.
  unfold behaves. rewrite E4. regs. run_step E5.
  run_step (reps_tag K T _ _ _ zuo_symbol_tag Hok2 HF). rewrite bool_decide_false by done.
  rewrite !bind_assoc. run_step (reps_null K T _ _ _ Hok2 HF). rewrite !bind_assoc. run_step (reps_null K T _ _ _ Hok2 HA1).
  assert (Et : negb (bool_decide (F1 = Vnull)) || negb (bool_decide (A1 = Vnull)) = true).
  { destruct Hne; [by rewrite bool_decide_false by done|]. rewrite (bool_decide_false (A1 = Vnull)) by done. apply orb_true_r. }
  rewrite Et.
  match goal with |- match ?c s2 with _ => _ end => change (no_ub c s2 Q) end.
  apply vlist_Some in Hv as EA. subst A.
  apply (behaves_bind _ _ _ (λ _ _, False)); [|by intros ? ? []].
  eapply fail_arity_safe; [done|by apply (ext_reps _ _ _ _ He12)|by apply good_named|by apply (ext_reps _ _ _ _ He12)|done|].
  apply good_of_list in HgA. eapply Forall_impl; [exact HgA|]. apply good_printable.
Qed.

(** ** Applications *)

(** The state stands for a state of the machine that holds good values. *)
Definition lands (s : st) : Prop := ∃ b, sim s b ∧ good_state b.

Lemma follows_lands {A} s (c : M A) b : follows s c (Some b) → good_state b → no_ub c s (λ _, lands).
Proof. intros H Hg. destruct (H b eq_refl) as (x & s' & E & Hs). eapply behaves_ok; [exact E|]. by exists b. Qed.

(** The end of a chain of pairs. *)
Fixpoint vlast (v : val) : val := match v with Vpair _ d => vlast d | _ => v end.

Lemma vlist_vlast v : vlist v = None → vlast v ≠ Vnull ∧ vtag (vlast v) ≠ zuo_pair_tag.
Proof.
  induction v as [| | | | | | | | | | | | | |a _ d IH| | |]; try done. cbn. intros H. apply IH. by destruct (vlist d).
Qed.

Lemma last_cdr_tree fuel : ∀ s l v, ok s → reps s l v → (spine v < fuel)%nat →
  ∃ l', last_cdr fuel l s = Ok l' s ∧ reps s l' (vlast v).
Proof.
  induction fuel as [|fuel IH]; intros s l v Hok H Hf; [lia|]. cbn [last_cdr]. run_step (reps_tag K T s l v zuo_pair_tag Hok H).
  case_bool_decide as Ht; [|exists l; split; [done|by destruct v]].
  destruct v as [| | | | | | | | | | | | | |a d| | |]; try done. destruct (reps_cdr _ _ _ _ H) as (l' & E & Hl). run_step E. exact (IH s l' d Hok Hl ltac:(cbn in Hf; lia)).
Qed.

Lemma spine_heap_fuel s l v : ok s → reps s l v → (spine v < heap_fuel s)%nat.
Proof. intros Hok H. unfold heap_fuel. pose proof (rep_spine K T _ _ (ok_inv _ _ _ Hok) _ _ H). lia. Qed.

Lemma reps_not_list s l v : ok s → reps s l v → vlist v = None → zuo_list_p l s = Ok (o_false (s_img s)) s.
Proof.
  intros Hok H Hv. unfold zuo_list_p. rewrite (bind_ok get_st _ _ _ _ eq_refl).
  destruct (last_cdr_tree _ s l v Hok H (spine_heap_fuel s l v Hok H)) as (l' & E & Hl). run_step E.
  unfold zuo_null_p. run_step (reps_null K T _ _ _ Hok Hl). by rewrite bool_decide_false by (by apply vlist_vlast).
Qed.

Lemma good_args_printable A vs : good A → vlist A = Some vs → Forall good vs ∧ Forall (λ v, printable v = true) vs.
Proof.
  intros HA ->%vlist_Some. apply good_of_list in HA. split; [done|]. eapply Forall_impl; [exact HA|]. apply good_printable.
Qed.

Lemma apply_closure_safe fuel s rator lambda lenv args L E A ws k m :
  conts s k m → good_k k → good_meta m → reps s rator (Vclosure L E) → reps s lambda L → reps s lenv E →
  reps s args A → vlist A = Some ws → good (Vclosure L E) → good A →
  no_ub (apply_closure fuel rator lambda lenv args) s (λ _, lands).
Proof.
  intros Hc Hk Hm HR HL HE HA Hv Hg HgA. inversion Hg as [| | |? ? Γ Henv Hlam|]; subst; [done|].
  pose proof (apply_closure_ok K T s fuel rator lambda lenv args L E A k m Hc HL HE HA) as Hf.
  destruct (enter L E A) as [[body env]|] eqn:Ee; cbn [mbind option_bind fst snd] in Hf.
  - eapply follows_lands; [exact Hf|]. destruct (enter_good K T S _ _ _ _ _ Henv Hlam HgA Ee) as (Γ' & Hb & He).
    by exists Γ'.
  - by eapply (apply_closure_stuck fuel s rator lambda lenv args L E A ws k m Γ).
Qed.

(** Values that are not applied: the loop ends with an error. *)
Lemma not_procedure afuel fuel s rator F args n (Q : unit → st → Prop) :
  ok s → reps s rator F → F ∉ [Vapply; Vcall_cc; Vcall_prompt; Vkernel_eval] →
  vtag F ∉ [zuo_closure_tag; zuo_primitive_tag; zuo_cont_tag] →
  no_ub (apply_loop call afuel fuel rator args n) s Q.
Proof.
  intros Hok HF Hni Ht. destruct afuel as [|afuel]; [done|]. cbn [apply_loop].
  destruct (rep_obj K T _ _ (ok_inv _ _ _ Hok) _ _ HF) as (o & Ho & Hto).
  eapply behaves_step; [exact (get_ok _ _ _ Ho)|]. eapply behaves_step; [done|]. cbn zeta.
  rewrite (intrinsic_case K T s rator F Vapply o_apply), decide_False by (done || set_solver).
  rewrite (intrinsic_case K T s rator F Vcall_cc o_call_cc), decide_False by (done || set_solver).
  rewrite (intrinsic_case K T s rator F Vcall_prompt o_call_prompt), decide_False by (done || set_solver).
  rewrite (intrinsic_case K T s rator F Vkernel_eval o_kernel_eval), decide_False by (done || set_solver).
  rewrite <- Hto in Ht. destruct o; try done; set_solver.
Qed.

Lemma fail_arity_args {A'} fuel s rator F args A vs (Q : A' → st → Prop) :
  ok s → reps s rator F → good F ∨ vtag F = zuo_singleton_tag → reps s args A → vlist A = Some vs → good A →
  no_ub (zuo_fail_arity fuel rator args) s Q.
Proof.
  intros Hok HF Hg HA Hv HgA. destruct (good_args_printable A vs HgA Hv) as [_ Hp].
  eapply fail_arity_safe; try done. destruct Hg as [Hg|Hg]; [by apply good_named|by destruct F].
Qed.

(** Continuations. *)
Lemma apply_cont_safe fuel s rator F args A vs k m :
  conts s k m → good_meta m → reps s rator F → good_k F → reps s args A → vlist A = Some vs → good A →
  no_ub (if Z.of_nat (length vs) =? 1 then
           set_zr set_o_interp_k rator ;;; v <- ZUO_CAR args ;; set_zr set_o_interp_v v
         else zuo_fail_arity fuel rator args) s (λ _, lands).
Proof.
  intros Hc Hm HR HF HA Hv HgA. pose proof Hc as (Hok & _).
  pose proof (apply_cont_ok K T s fuel rator F args A vs k m Hc HR HA Hv) as Hf.
  destruct (Z.eqb_spec (Z.of_nat (length vs)) 1) as [E|E].
  - destruct vs as [|v [|w vs]]; cbn in E; try lia. apply vlist_Some in Hv as ->. cbn [of_list] in Hf.
    eapply follows_lands; [exact Hf|]. by apply good_pair in HgA as [? _].
  - eapply fail_arity_args; try done. left. by apply good_cont.
Qed.

Lemma apply_prim_safe fuel s rator disp proc mask args A vs k m :
  conts s k m → good_k k → good_meta m → reps s rator (Vprim disp proc mask) → S disp proc mask →
  reps s args A → vlist A = Some vs → good A →
  no_ub (if arity_accepts mask (Z.of_nat (length vs)) then v <- call disp proc args ;; set_zr set_o_interp_v v
         else zuo_fail_arity fuel rator args) s (λ _, lands).
Proof.
  intros Hc Hk Hm HR HS HA Hv HgA. pose proof Hc as (Hok & _).
  pose proof (apply_prim_ok K T call P s fuel rator disp proc mask args A vs k m Hc HA Hv) as Hf.
  rewrite Hv in Hf. cbn [mbind option_bind] in Hf. destruct (good_args_printable A vs HgA Hv) as [Hgv _].
  destruct (arity_accepts mask (Z.of_nat (length vs))) eqn:Ea.
  - destruct (P disp proc vs) as [v|] eqn:Ep; cbn [mbind option_bind] in Hf.
    + eapply follows_lands; [exact Hf|]. split; [by eapply ps_good|done].
    + destruct (reps_vlist K T s args A vs Hok HA Hv) as (ls & Hls & HF).
      destruct (ps_fails s disp proc mask args ls vs Hok HS Ea Hls HF Ep) as (e & s' & E).
      unfold behaves, bind. by rewrite E.
  - eapply fail_arity_args; try done. left. by apply g_prim.
Qed.

(** The number of arguments of an intrinsic procedure. *)
Lemma intrinsic_count {A'} s fuel rator F c args A vs (n : nat) (m : M A') (Q : A' → st → Prop) :
  ok s → reps s c F → vtag F = zuo_singleton_tag → reps s args A → vlist A = Some vs → good A →
  (length vs = n → no_ub m s Q) →
  rator = c →
  no_ub (if negb (Z.of_nat (length vs) =? Z.of_nat n) then zuo_fail_arity fuel rator args else m) s Q.
Proof.
  intros Hok HF Ht HA Hv HgA Hm ->. destruct (Z.eqb_spec (Z.of_nat (length vs)) (Z.of_nat n)) as [E|E]; cbn [negb].
  - apply Hm. lia.
  - eapply fail_arity_args; try done. by right.
Qed.

Definition loop_safe (afuel : nat) : Prop := ∀ fuel s rator args F A vs k m,
  conts s k m → good_k k → good_meta m → reps s rator F → reps s args A → vlist A = Some vs → good F → good A →
  no_ub (apply_loop call afuel fuel rator args (Z.of_nat (length vs))) s (λ _, lands).

Lemma apply_apply_safe afuel fuel s rator args A vs k m :
  loop_safe afuel → conts s k m → good_k k → good_meta m → reps s rator Vapply → reps s args A → vlist A = Some vs → good A →
  no_ub (apply_loop call (Datatypes.S afuel) fuel rator args (Z.of_nat (length vs))) s (λ _, lands).
Proof.
  intros IH Hc Hk Hm HF HA Hv HgA. pose proof Hc as (Hok & Hrk & Hrm).
  destruct (rep_obj K T _ _ (ok_inv _ _ _ Hok) _ _ HF) as (o & Ho & Ht).
  cbn [apply_loop]. eapply behaves_step; [exact (get_ok _ _ _ Ho)|]. eapply behaves_step; [done|]. cbn zeta.
  destruct o; try done. rewrite decide_True by (by injection HF as <-).
  change 2 with (Z.of_nat 2). eapply (intrinsic_count s fuel _ Vapply); try done; [|by injection HF as <-]. intros Hn.
  destruct vs as [|f [|a [|]]]; try done. apply vlist_Some in Hv as ->. cbn [of_list] in HA, HgA.
  apply good_pair in HgA as [Hgf HgA]. apply good_pair in HgA as [Hga _].
  destruct (reps_car _ _ _ _ HA) as (l1 & E1 & H1). eapply behaves_step; [exact E1|].
  destruct (reps_cdr _ _ _ _ HA) as (l2 & E2 & H2). eapply behaves_step; [exact E2|].
  destruct (reps_car _ _ _ _ H2) as (l3 & E3 & H3). eapply behaves_step; [exact E3|].
  destruct (vlist a) as [ws|] eqn:Ew.
  - eapply behaves_step; [by eapply (reps_list_p K T)|]. eapply behaves_step; [by apply is_zi_eq|]. cbn [negb].
    eapply behaves_step; [by eapply (reps_length K T)|]. by eapply IH.
  - eapply behaves_step; [by eapply reps_not_list|]. eapply behaves_step; [apply is_zi_ne; exact (false_not_true K T _ Hok)|]. done.
Qed.

Lemma apply_call_cc_safe afuel fuel s rator args A vs k m :
  loop_safe afuel → conts s k m → good_k k → good_meta m → reps s rator Vcall_cc → reps s args A → vlist A = Some vs → good A →
  no_ub (apply_loop call (Datatypes.S afuel) fuel rator args (Z.of_nat (length vs))) s (λ _, lands).
Proof.
  intros IH Hc Hk Hm HF HA Hv HgA. pose proof Hc as (Hok & Hrk & Hrm).
  destruct (rep_obj K T _ _ (ok_inv _ _ _ Hok) _ _ HF) as (o & Ho & Ht).
  cbn [apply_loop]. eapply behaves_step; [exact (get_ok _ _ _ Ho)|]. eapply behaves_step; [done|]. cbn zeta.
  destruct o; try done. rewrite (intrinsic_case K T s rator Vcall_cc Vapply o_apply), decide_False by done.
  rewrite decide_True by (by injection HF as <-).
  change 1 with (Z.of_nat 1) at 1. eapply (intrinsic_count s fuel _ Vcall_cc); try done; [|by injection HF as <-]. intros Hn.
  destruct vs as [|f [|]]; try done. apply vlist_Some in Hv as ->. cbn [of_list] in HA, HgA. apply good_pair in HgA as [Hgf _].
  destruct (reps_car _ _ _ _ HA) as (l1 & E1 & H1). eapply behaves_step; [exact E1|].
  eapply behaves_step; [done|]. eapply behaves_step; [done|].
  destruct (zuo_cons_ext K T s (o_interp_k (s_rt s)) (o_null (s_img s)) k Vnull Hok Hrk eq_refl) as (p & s1 & E2 & He & Hp1 & Hr).
  eapply behaves_step; [exact E2|].
  apply (IH fuel s1 l1 p f (Vpair k Vnull) [k] k m); try done; [by eapply conts_ext|by apply (ext_reps _ _ _ _ He)|].
  apply g_pair; [by apply good_cont|by apply g_plain].
Qed.

Lemma apply_call_prompt_safe afuel fuel s rator args A vs k m :
  loop_safe afuel → conts s k m → good_k k → good_meta m → reps s rator Vcall_prompt → reps s args A → vlist A = Some vs → good A →
  no_ub (apply_loop call (Datatypes.S afuel) fuel rator args (Z.of_nat (length vs))) s (λ _, lands).
Proof.
  intros IH Hc Hk Hm HF HA Hv HgA. pose proof Hc as (Hok & Hrk & Hrm).
  destruct (rep_obj K T _ _ (ok_inv _ _ _ Hok) _ _ HF) as (o & Ho & Ht).
  cbn [apply_loop]. eapply behaves_step; [exact (get_ok _ _ _ Ho)|]. eapply behaves_step; [done|]. cbn zeta.
  destruct o; try done. rewrite (intrinsic_case K T s rator Vcall_prompt Vapply o_apply), decide_False by done.
  rewrite (intrinsic_case K T s rator Vcall_prompt Vcall_cc o_call_cc), decide_False by done.
  rewrite decide_True by (by injection HF as <-).
  change 2 with (Z.of_nat 2). eapply (intrinsic_count s fuel _ Vcall_prompt); try done; [|by injection HF as <-]. intros Hn.
  destruct vs as [|f [|tag [|]]]; try done. apply vlist_Some in Hv as ->. cbn [of_list] in HA, HgA.
  apply good_pair in HgA as [Hgf HgA]. apply good_pair in HgA as [Hgt _].
  destruct (reps_car _ _ _ _ HA) as (l1 & E1 & H1). eapply behaves_step; [exact E1|].
  destruct (reps_cdr _ _ _ _ HA) as (l2 & E2 & H2). eapply behaves_step; [exact E2|].
  destruct (reps_car _ _ _ _ H2) as (l3 & E3 & H3). eapply behaves_step; [exact E3|].
  eapply behaves_step; [by eapply (reps_tag K T)|]. case_bool_decide as Htag; cbn [negb]; [|done].
  destruct tag; try done. eapply behaves_step; [done|].
  destruct (suspend_ok K T s k m l3 (Some id) Hc H3) as (p & q & s1 & s2 & E4 & E5 & Hx & Hr1 & Hr2 & Hi1 & Hm2).
  pose proof (ext_ok _ _ _ _ Hx) as Hok2. assert (Hd : reps s2 (o_done_k (s_img s2)) Vdone_k) by done.
  pose proof (live_reps K T _ _ _ Hok2 Hd). pose proof (rep_meta_live K T _ _ _ Hok2 Hm2).
  eapply behaves_step; [exact E4|]. unfold behaves. regs. rewrite Hr1, (bind_ok _ _ _ _ _ E5). regs.
  rewrite ?s_rt_set_rt, ?set_s_rt_twice, ?s_img_set_rt. set (s3 := set_s_rt _ s2).
  change 0 with (Z.of_nat 0) at 1.
  refine (IH fuel s3 l1 (o_null (s_img s2)) f Vnull [] Vdone_k ((k, Some id) :: m) _ _ _ _ _ _ _ _); try done.
  - eapply (conts_set K T s2 k m); [by eapply conts_ext|reg_live|by destruct (s_rt s2)|by destruct (s_rt s2)].
  - apply gk_done.
  - by constructor.
  - apply reps_set_rt. by apply (ext_reps _ _ _ _ Hx).
  - by apply reps_set_rt.
  - by apply g_plain.
Qed.

Lemma apply_loop_safe afuel : loop_safe afuel.
Proof.
  induction afuel as [|afuel IH]; intros fuel s rator args F A vs k m Hc Hk Hm HF HA Hv HgF HgA; [done|].
  pose proof Hc as (Hok & Hrk & Hrm). destruct (rep_obj K T _ _ (ok_inv _ _ _ Hok) _ _ HF) as (o & Ho & Ht).
  assert (Hc' := λ H1 H2, not_procedure (Datatypes.S afuel) fuel s rator F args (Z.of_nat (length vs)) (λ _, lands) Hok HF H1 H2).
  inversion HgF as [v Hp|a d _ _|disp proc mask HS|L E Γ _ _|tag data env next Hgk]; subst.
  - destruct F; try done; try (apply Hc'; by rewrite !not_elem_of_cons; repeat split; try apply not_elem_of_nil).
    + by eapply apply_apply_safe.
    + by eapply apply_call_cc_safe.
    + by eapply apply_call_prompt_safe.
    + destruct o; try done. cbn [apply_loop]. eapply behaves_step; [exact (get_ok _ _ _ Ho)|]. eapply behaves_step; [done|]. cbn zeta.
      eapply apply_cont_safe; try done. apply gk_done.
  - apply Hc'; by rewrite !not_elem_of_cons; repeat split; try apply not_elem_of_nil.
  - destruct HF as [nm HF]. cbn [apply_loop]. eapply behaves_step; [exact (get_ok _ _ _ HF)|]. eapply behaves_step; [done|]. cbn zeta.
    eapply apply_prim_safe; try done. by exists nm.
  - pose proof HF as (la & ld & H & HL & HE). cbn [apply_loop]. eapply behaves_step; [exact (get_ok _ _ _ H)|]. eapply behaves_step; [done|]. cbn zeta.
    by eapply apply_closure_safe.
  - destruct o; try done. cbn [apply_loop]. eapply behaves_step; [exact (get_ok _ _ _ Ho)|]. eapply behaves_step; [done|]. cbn zeta.
    by eapply apply_cont_safe.
Qed.

(** ** The loop *)

Context (HT : ∀ id v, T id = Some v → good v).

Lemma continue_step_safe fuel s v tag data env next m :
  sim s (ARet v (Vcont tag data env next) m) → good_state (ARet v (Vcont tag data env next) m) →
  no_ub (continue_step call fuel) s (λ _, lands).
Proof.
  intros Hs (Hgv & Hgk & Hgm). inversion Hgk as [|? ? ? ? Γ Henv Hnext Hdata]; subst.
  destruct (decide (tag = zuo_apply_cont)) as [->|Hne].
  2:{ destruct (resume_good K T S P 0 v tag data env next m Γ Hne Hgv Henv Hnext Hgm Hdata) as (b & Eb & Hgb).
      pose proof (continue_step_ok K T call P s v tag data env next m 0 fuel Hs ltac:(lia)) as Hf. rewrite Eb in Hf.
      by eapply follows_lands. }
  inversion Hdata as [? rv vs exps Hrv Hgrv Hseq| | |]; subst. inversion Hseq as [|? x d Hx Hd]; subst.
  2:{ pose proof (continue_step_ok K T call P s v _ _ env next m 0 fuel Hs ltac:(lia)) as Hf. cbn [resume] in Hf.
      eapply follows_lands; [exact Hf|]. exists Γ. split; [done|]. split; [done|]. split; [|done].
      eapply gk_frame; [done|done|]. apply (gd_apply _ _ _ Γ _ (v :: vs)); [|by apply g_pair|done]. cbn. by rewrite Hrv. }
  pose proof Hs as (Hok & _). destruct (unrev_good K T S rv vs v Hrv Hgrv Hgv) as (f & args & ws & Eu & Hws & Hgf & Hga).
  destruct (continue_step_pop K T call s v _ _ env next m fuel Hs) as (ld & le & s1 & E & Hp & Hd & He).
  destruct (continue_apply_last K T call s1 v rv ld le next m fuel f args Hp Hd Eu) as (lf & la & s2 & us & E2 & Hc & Hf & Ha & Hv).
  unfold behaves. rewrite E, E2. by eapply (apply_loop_safe fuel fuel).
Qed.

Lemma interp_step_safe s e env k m :
  sim s (AEval e env k m) → good_state (AEval e env k m) → no_ub interp_step s (λ _, lands).
Proof.
  intros Hs (Γ & He & Henv & Hk & Hm).
  destruct (interp_good K T S HT Γ e env k m He Henv Hk Hm) as (b & Eb & Hb).
  pose proof (interp_step_ok K T s e env k m Hs) as Hf. rewrite Eb in Hf. by eapply follows_lands.
Qed.

(** One iteration: it goes on from another good state, or the value is good. *)
Lemma eval_step_safe s a fuel :
  sim s a → good_state a →
  no_ub (eval_step call fuel) s (λ r s', match r with None => lands s' | Some l => ok s' ∧ ∃ v, reps s' l v ∧ good v end).
Proof.
  intros Hs Hg.
  destruct a as [e env k m|v k m].
  - unfold eval_step. destruct (sim_collect K T call P s _ Hs) as (s1 & E1 & Hs1). eapply behaves_step; [exact E1|].
    pose proof Hs1 as (_ & Hu & _). eapply behaves_step; [done|]. rewrite Hu. eapply behaves_step; [by apply is_zi_eq|].
    eapply behaves_bind; [by eapply interp_step_safe|]. intros [] s' H. by eapply behaves_ok.
  - destruct Hg as (Hgv & Hgk & Hgm). destruct k as [| | | | | | | | | | | | | | | | |tag data env next]; try by inversion Hgk.
    + destruct m as [|[k t] m].
      * destruct (eval_step_done K T call P s v fuel Hs) as (l & s' & E & Hok & Hr). eapply behaves_ok; [exact E|]. split; [done|]. by exists v.
      * destruct (eval_step_ok K T call P s _ (ARet v k m) 0 fuel Hs ltac:(lia) eq_refl) as (s' & E & Hs').
        eapply behaves_ok; [exact E|]. exists (ARet v k m). split; [done|]. apply Forall_cons in Hgm as [? ?]. done.
    + unfold eval_step. destruct (sim_collect K T call P s _ Hs) as (s1 & E1 & Hs1). eapply behaves_step; [exact E1|].
      pose proof Hs1 as (Hok & Hv & Hk & Hm). eapply behaves_step; [done|].
      eapply behaves_step; [by eapply (reps_defined K T)|]. eapply behaves_step; [done|].
      eapply behaves_step; [by eapply (reps_done K T)|]. rewrite bool_decide_false by done.
      eapply behaves_bind; [by eapply continue_step_safe|]. intros [] s' H. by eapply behaves_ok.
Qed.

Lemma eval_loop_safe fuel steps : ∀ s a, sim s a → good_state a →
  no_ub (eval_loop call steps fuel) s (λ l s', ok s' ∧ ∃ v, reps s' l v ∧ good v).
Proof.
  induction steps as [|steps IH]; intros s a Hs Hg; [done|]. cbn [eval_loop].
  eapply behaves_bind; [by eapply eval_step_safe|]. intros [l|] s' H; [by eapply behaves_ok|].
  destruct H as (b & Hb & Hgb). by eapply IH.
Qed.

Lemma zuo_kernel_eval_safe s steps fuel e E :
  ok s → reps s e E → scoped K T S [] E → (vsize E < fuel)%nat →
  no_ub (zuo_kernel_eval call steps fuel e) s (λ l s', ok s' ∧ ∃ v, reps s' l v ∧ good v).
Proof.
  intros Hok He Hs Hf. destruct (wf_expr K E) eqn:Hwf.
  - destruct (zuo_kernel_eval_start K T call s steps fuel e E Hok He Hwf Hf) as (s2 & E2 & Hsim).
    unfold behaves. rewrite E2. eapply eval_loop_safe; [exact Hsim|]. exists []. split; [done|].
    split; [apply ge_top|]. split; [apply gk_done|constructor].
  - unfold zuo_kernel_eval. pose proof (check_syntax_ok K T s fuel e E Hok He Hf) as Hc. unfold verdict in Hc.
    unfold behaves, bind. destruct (check_syntax fuel e s) as [[] s1|err s1| |]; try done. destruct Hc as (_ & _ & Hc). congruence.
Qed.
End sound.
