(* ===== verification/SoundSpec.v ===== *)
(** * Closed programs never meet undefined behaviour

    The primitives of [Running.v] meet the interface [PrimSafe], and so
    [zuo_kernel_eval] is safe on every closed expression over them; and the
    printer is safe on every value. *)

From S2P Require Import Prelude Sys Heap Alloc Gc GcCorrect Objects Trie Lists ImageOk Value Intern Sort Printer Reader Prims Interp Machine Simulate Syntax Path Module Shell Sha256 Fasl Init Boot RoundTrip ListSpec ArithSpec Running Eval EvalSpec Scope PrintSafe Sound Closed.

(** ** The primitives that programs may use *)

Definition safe_prims : list (dispatcher * string * Z) :=
  [ (dispatch_primitive1, "zuo_pair_p", 2); (dispatch_primitive1, "zuo_integer_p", 2);
    (dispatch_primitive1, "zuo_string_p", 2); (dispatch_primitive1, "zuo_symbol_p", 2);
    (dispatch_primitive1, "zuo_null_p", 2); (dispatch_primitive1, "zuo_not", 2);
    (dispatch_primitive1, "zuo_car", 2); (dispatch_primitive1, "zuo_cdr", 2);
    (dispatch_primitive1, "zuo_length", 2);
    (dispatch_primitive2, "zuo_cons", 4); (dispatch_primitive2, "zuo_eql", 4);
    (dispatch_primitive2, "zuo_lt", 4); (dispatch_primitive2, "zuo_le", 4);
    (dispatch_primitive2, "zuo_gt", 4); (dispatch_primitive2, "zuo_ge", 4);
    (dispatch_primitiveN, "zuo_list", -1); (dispatch_primitiveN, "zuo_add", -1);
    (dispatch_primitiveN, "zuo_multiply", -1); (dispatch_primitiveN, "zuo_subtract", -2) ].

Definition safe (disp : dispatcher) (proc : string) (mask : Z) : Prop := (disp, proc, mask) ∈ safe_prims.

#[export] Instance safe_dec disp proc mask : Decision (safe disp proc mask).
Proof. unfold safe. apply _. Defined.

(** The table of the program has them with these dispatchers and masks. *)
Lemma safe_prims_registered os fuel :
  Forall (λ t, t ∈ map (λ p, (p_dispatcher p, p_proc p, p_mask p)) (all_prims os fuel)) safe_prims.
Proof. refine (bool_decide_eq_true_1 _ _). vm_compute. reflexivity. Qed.

(** The definitions of the top environment that programs may use. *)
Definition safe_value (v : val) : bool :=
  match v with
  | Vint _ | Vapply | Vcall_cc | Vcall_prompt | Veof => true
  | Vprim disp proc mask => bool_decide (safe disp proc mask)
  | _ => false
  end.

Definition T_safe (s : st) (id : Z) : option val :=
  v ← T_of s id; if safe_value v then Some v else None.

Section restrict.
Context (K : keywords) (T T' : Z → option val) (HT : ∀ id v, T' id = Some v → T id = Some v).

(** Fewer known definitions. *)
Lemma ok_restrict s : ok K T s → ok K T' s.
Proof. intros [Hm [] Hc Hi]. split; [done| |done|done]. split; try done. intros id v H. auto. Qed.
End restrict.

Section instance.
Context (K : keywords) (T : Z → option val) (os : os_ops) (fuel : nat).
Abbreviation good := (good K T safe).

Lemma vbool_good b : good (vbool b).
Proof. by destruct b; apply g_plain. Qed.

Lemma pure1_good proc v w : good v → pure1 proc v = Some w → good w.
Proof.
  intros Hv. unfold pure1. repeat (case_decide; [intros Hw; simplify_eq; try apply vbool_good|]); try done.
  - destruct v; try done. simplify_eq. by apply good_pair in Hv as [? ?].
  - destruct v; try done. simplify_eq. by apply good_pair in Hv as [? ?].
  - destruct (vlist v); [|done]. cbn in Hw. simplify_eq. by apply g_plain.
Qed.

Lemma pure2_good proc v w r : good v → good w → pure2 proc v w = Some r → good r.
Proof.
  intros Hv Hw. unfold pure2. case_decide; [intros [= <-]; by apply g_pair|].
  destruct v; try done. destruct w; try done. repeat (case_decide; [intros [= <-]; apply vbool_good|]). done.
Qed.

Lemma pureN_good proc vs r : Forall good vs → pureN proc vs = Some r → good r.
Proof.
  intros Hvs. unfold pureN. repeat (case_decide; [intros Hw|]); try done.
  - simplify_eq. by apply good_of_list.
  - destruct (ints_of vs); [|done]. cbn in Hw. simplify_eq. by apply g_plain.
  - destruct (ints_of vs); [|done]. cbn in Hw. simplify_eq. by apply g_plain.
  - destruct (ints_of vs) as [[|]|]; try done. cbn in Hw. simplify_eq. by apply g_plain.
Qed.

(** A call that ends with an error. *)
Definition fails {A} (s : st) (c : M A) : Prop := ∃ e s', c s = Fail e s'.

Lemma fails_step {A B} s (c : M A) x (g : A → M B) : c s = Ok x s → fails s (g x) → fails s (bind c g).
Proof. intros E H. unfold fails. by rewrite (bind_ok _ _ _ _ _ E). Qed.

Lemma fails_now {A B} s (c : M A) (g : A → M B) : fails s c → fails s (bind c g).
Proof. intros (e & s' & E). exists e, s'. unfold bind. by rewrite E. Qed.

Lemma fails_arg {A} s who what l : fails s (zuo_fail_arg (A:=A) who what l).
Proof. by eexists _, _. Qed.

Lemma length_loop_tree n : ∀ s l v i, ok K T s → reps s l v → (spine v < n)%nat →
  ∃ l' j, length_loop n l i s = Ok (l', j) s ∧ reps s l' (vlast v).
Proof.
  induction n as [|n IH]; intros s l v i Hok H Hf; [lia|]. cbn [length_loop]. run_step (reps_tag K T s l v zuo_pair_tag Hok H).
  case_bool_decide as Ht; [|exists l, i; split; [done|by destruct v]].
  destruct v as [| | | | | | | | | | | | | |a d| | |]; try done. destruct (reps_cdr _ _ _ _ H) as (l' & E & Hl). run_step E.
  exact (IH s l' d _ Hok Hl ltac:(cbn in Hf; lia)).
Qed.

Lemma pure1_fails s proc l v :
  ok K T s → reps s l v → safe dispatch_primitive1 proc 2 → pure1 proc v = None →
  ∃ n p f, list_find (λ p, p_proc p = proc) (all_prims os fuel) = Some (n, p) ∧ p_fun p = PF1 f ∧ fails s (f l).
Proof.
  intros Hok Hl Hs. unfold safe, safe_prims in Hs. rewrite !elem_of_cons, elem_of_nil in Hs.
  repeat (destruct Hs as [Hs|Hs]; [simplify_eq|]); try done; intros Hp; cbn in Hp; try done;
    (eexists _, _, _; split; [reflexivity|]; split; [reflexivity|]).
  - eapply fails_step; [by eapply (reps_tag K T)|]. destruct v; try done; apply fails_arg.
  - eapply fails_step; [by eapply (reps_tag K T)|]. destruct v; try done; apply fails_arg.
  - change ((vs ← vlist v; Some (Vint (Z.of_nat (length vs)))) = None) in Hp. destruct (vlist v) eqn:Ev; [done|].
    destruct (length_loop_tree (heap_fuel s) s l v 0 Hok Hl (spine_heap_fuel K T s l v Hok Hl)) as (l' & j & E & Hl').
    apply fails_now. unfold zuo_length_int. eapply fails_step; [done|]. eapply fails_step; [exact E|]. cbn [fst snd].
    eapply fails_step; [by eapply (reps_null K T)|]. rewrite bool_decide_false by (by apply vlist_vlast). apply fails_arg.
Qed.

Lemma reps_no_int s l v : ok K T s → reps s l v → vtag v ≠ zuo_integer_tag → int_at s l = None.
Proof.
  intros Hok H Ht. destruct (rep_obj K T _ _ (ok_inv _ _ _ Hok) _ _ H) as (o & Ho & Eo). unfold int_at. rewrite Ho.
  rewrite <- Eo in Ht. by destruct o.
Qed.

Lemma check_integer_tree s who l v :
  ok K T s → reps s l v → (vtag v = zuo_integer_tag ∧ check_integer who l s = Ok tt s) ∨ (vtag v ≠ zuo_integer_tag ∧ fails s (check_integer who l)).
Proof.
  intros Hok H. unfold check_integer. pose proof (reps_tag K T s l v zuo_integer_tag Hok H) as E.
  destruct (decide (vtag v = zuo_integer_tag)) as [Ht|Ht].
  - left. split; [done|]. run_step E. by rewrite bool_decide_true by done.
  - right. split; [done|]. eapply fails_step; [exact E|]. rewrite bool_decide_false by done. apply fails_arg.
Qed.

Lemma compare_fails s who cmp a b v w :
  ok K T s → reps s a v → reps s b w → vtag v ≠ zuo_integer_tag ∨ vtag w ≠ zuo_integer_tag →
  fails s (compare_ints who cmp a b).
Proof.
  intros Hok Ha Hb Hne. unfold compare_ints. apply fails_now. unfold check_ints.
  destruct (check_integer_tree s (bytes_of who) a v Hok Ha) as [[Hv Ea]|[Hv Ea]]; [|by apply fails_now].
  eapply fails_step; [exact Ea|]. destruct (check_integer_tree s (bytes_of who) b w Hok Hb) as [[Hw Eb]|[Hw Eb]]; [|done].
  tauto.
Qed.

Lemma pure2_fails s proc a b v w :
  ok K T s → reps s a v → reps s b w → safe dispatch_primitive2 proc 4 → pure2 proc v w = None →
  ∃ n p f, list_find (λ p, p_proc p = proc) (all_prims os fuel) = Some (n, p) ∧ p_fun p = PF2 f ∧ fails s (f a b).
Proof.
  intros Hok Ha Hb Hs. unfold safe, safe_prims in Hs. rewrite !elem_of_cons, elem_of_nil in Hs.
  assert (Hne : (∀ i j, v = Vint i → w = Vint j → False) → vtag v ≠ zuo_integer_tag ∨ vtag w ≠ zuo_integer_tag).
  { intros H. destruct v; try (by left). destruct w; try (by right). by destruct (H i i0). }
  repeat (destruct Hs as [Hs|Hs]; [simplify_eq|]); try done; intros Hp; cbn in Hp;
    (eexists _, _, _; split; [reflexivity|]; split; [reflexivity|]);
    (eapply compare_fails; [done|done|done|apply Hne; intros i j -> ->; done]).
Qed.

Lemma ints_at_none s ls vs : ok K T s → Forall2 (reps s) ls vs → ints_of vs = None → ∃ v, ints_at s ls = inr v.
Proof.
  intros Hok HF. induction HF as [|l v ls vs Hl HF IH]; [done|]. intros H. cbn [ints_at].
  destruct (decide (vtag v = zuo_integer_tag)) as [Ht|Ht].
  - destruct v; try done. rewrite (reps_int_at _ _ _ Hl). unfold ints_of in H, IH. cbn in H.
    destruct (mapM _ vs); [done|]. destruct (IH eq_refl) as [x ->]. by exists x.
  - rewrite (reps_no_int _ _ _ Hok Hl Ht). by exists l.
Qed.

Lemma arith_fails s who c ls vs f :
  ok K T s → arith_result s who c ls f → Forall2 (reps s) ls vs → ints_of vs = None → fails s c.
Proof.
  intros Hok Ha HF Hn. destruct (ints_at_none s ls vs Hok HF Hn) as [x Hx]. unfold arith_result in Ha. rewrite Hx in Ha.
  destruct (fails_arg (A:=loc) s (bytes_of who) (bytes_of "integer") x) as (e & s' & E). exists e, s'. by rewrite Ha.
Qed.

Lemma pureN_fails s proc mask l ls vs :
  ok K T s → is_list (s_heap s) (o_null (s_img s)) l ls → Forall2 (reps s) ls vs →
  safe dispatch_primitiveN proc mask → arity_accepts mask (Z.of_nat (length vs)) = true → pureN proc vs = None →
  ∃ n p f, list_find (λ p, p_proc p = proc) (all_prims os fuel) = Some (n, p) ∧ p_fun p = PF1 f ∧ fails s (f l).
Proof.
  intros Hok Hls HF Hs. unfold safe, safe_prims in Hs. rewrite !elem_of_cons, elem_of_nil in Hs.
  pose proof (ok_image _ _ _ Hok) as Him.
  assert (Hlive : Forall (λ v, is_Some (s_heap s !! v)) ls).
  { apply Forall_forall. intros x Hx. apply list_elem_of_lookup in Hx as [i Hi].
    destruct (Forall2_lookup_l _ _ _ _ _ HF Hi) as (y & _ & Hy). by eapply (live_reps K T). }
  repeat (destruct Hs as [Hs|Hs]; [simplify_eq|]); try done; intros Ha Hp; unfold pureN in Hp; cbn -[ints_of] in Hp; try done;
    (eexists _, _, _; split; [reflexivity|]; split; [reflexivity|]).
  - eapply (arith_fails s "+" _ ls vs (λ ns, fold_left Z.add ns 0)); [done|by apply zuo_add_ok|done|by destruct (ints_of vs)].
  - eapply (arith_fails s "*" _ ls vs (λ ns, fold_left Z.mul ns 1)); [done|by apply zuo_multiply_ok|done|by destruct (ints_of vs)].
  - destruct ls as [|l0 ls]; [apply Forall2_nil_inv_l in HF as ->; by vm_compute in Ha|].
    eapply (arith_fails s "-" _ (l0 :: ls) vs difference); [done|by apply zuo_subtract_ok|done|].
    destruct (ints_of vs) as [ns|] eqn:En; [|done]. cbn in Hp. destruct ns; [|done].
    apply Forall2_cons_inv_l in HF as (y & ys & _ & _ & ->). cbn in En. destruct y; try done. by destruct (mapM _ ys).
Qed.

(** The masks of the primitives with one and with two arguments. *)
Lemma arity_exact k n : k ∈ [1; 2]%nat → arity_accepts (2 ^ Z.of_nat k) (Z.of_nat n) = true → n = k.
Proof.
  intros Hk H. assert (Hn : (n < 10)%nat ∨ ZUO_MAX_PRIM_ARITY <= Z.of_nat n) by (unfold ZUO_MAX_PRIM_ARITY; lia).
  rewrite !elem_of_cons, elem_of_nil in Hk. destruct Hn as [Hn|Hn].
  - do 10 (destruct n as [|n]; [destruct Hk as [->|[->|[]]]; by vm_compute in H|]). lia.
  - unfold arity_accepts in H. rewrite (proj2 (Z.leb_le _ _) Hn) in H. destruct Hk as [->|[->|[]]]; by vm_compute in H.
Qed.

#[export] Instance pure_prims_safe : PrimSafe K T safe (call_primitive os fuel) pure_prims.
Proof.
  split.
  - intros disp proc mask Hs. unfold safe, safe_prims in Hs. rewrite !elem_of_cons, elem_of_nil in Hs.
    repeat (destruct Hs as [Hs|Hs]; [simplify_eq; refine (bool_decide_eq_true_1 _ _); vm_compute; reflexivity|]). done.
  - intros disp proc mask vs v Hs Hg Hp. unfold pure_prims in Hp. destruct disp; try done.
    + destruct vs as [|x [|]]; try done. apply Forall_cons in Hg as [Hx _]. exact (pure1_good proc x v Hx Hp).
    + destruct vs as [|x [|y [|]]]; try done. apply Forall_cons in Hg as [Hx Hg]. apply Forall_cons in Hg as [Hy _]. exact (pure2_good proc x y v Hx Hy Hp).
    + exact (pureN_good proc vs v Hg Hp).
  - intros s disp proc mask args ls vs Hok Hs Ha Hls HF Hp. change (fails s (call_primitive os fuel disp proc args)).
    assert (Hl : reps s args (of_list vs)) by (by eapply reps_of_list).
    unfold call_primitive. pose proof Hs as Hs'. unfold safe, safe_prims in Hs'. rewrite !elem_of_cons, elem_of_nil in Hs'.
    destruct disp; try (exfalso; by repeat (destruct Hs' as [Hs'|Hs']; [by simplify_eq|])).
    + assert (mask = 2) as -> by (by repeat (destruct Hs' as [Hs'|Hs']; [by simplify_eq|])). clear Hs'.
      apply (arity_exact 1) in Ha; [|set_solver]. destruct vs as [|x [|]]; try done. cbn in Hl, Hp.
      destruct (reps_car _ _ _ _ Hl) as (la & Ea & Hla).
      destruct (pure1_fails s proc la x Hok Hla Hs Hp) as (n & p & f & -> & Ef & Hy). rewrite Ef. by eapply fails_step.
    + assert (mask = 4) as -> by (by repeat (destruct Hs' as [Hs'|Hs']; [by simplify_eq|])). clear Hs'.
      apply (arity_exact 2) in Ha; [|set_solver]. destruct vs as [|x [|y [|]]]; try done. cbn in Hl, Hp.
      destruct (reps_car _ _ _ _ Hl) as (la & Ea & Hla), (reps_cdr _ _ _ _ Hl) as (ld & Ed & Hd), (reps_car _ _ _ _ Hd) as (lb & Eb & Hlb).
      destruct (pure2_fails s proc la lb x y Hok Hla Hlb Hs Hp) as (n & p & f & -> & Ef & Hy). rewrite Ef.
      eapply fails_step; [exact Ea|]. eapply fails_step; [exact Ed|]. by eapply fails_step.
    + destruct (pureN_fails s proc mask args ls vs Hok Hls HF Hs Ha Hp) as (n & p & f & -> & Ef & Hy). by rewrite Ef.
Qed.
End instance.

Lemma safe_value_good K T v : safe_value v = true → good K T safe v.
Proof. destruct v; try done; intros H; try by apply g_plain. apply g_prim. by apply bool_decide_eq_true in H. Qed.

(** ** The theorems *)

Section theorems.
Context (K : keywords) (T : Z → option val) (os : os_ops) (pfuel : nat).
Context (HT : ∀ id v, T id = Some v → safe_value v = true).
Abbreviation call := (call_primitive os pfuel).

(** C7. Progress and preservation for the evaluator: from registers that stand
    for a well-scoped state of the machine, an iteration of the loop goes on
    with registers that stand for a well-scoped state, or returns an address
    that stands for a good value; it reports an error, or runs out of the
    bounds of its loops, only where the machine on trees has no step within
    these bounds; and it never meets undefined behaviour. *)
Theorem eval_step_sound s a fuel :
  sim K T s a → good_state K T safe a →
  match eval_step call fuel s with
  | Ok None s' => ∃ b, sim K T s' b ∧ good_state K T safe b
  | Ok (Some l) s' => ok K T s' ∧ ∃ v, reps s' l v ∧ good K T safe v
  | Fail _ _ | Diverge => ∀ n b, (n ≤ fuel)%nat → astep K T pure_prims n a ≠ Some b
  | UB _ => False
  end.
Proof.
  intros Hs Hg. pose proof (eval_step_safe K T safe call pure_prims (λ id v H, safe_value_good K T v (HT id v H)) s a fuel Hs Hg) as H.
  assert (Hstep : ∀ n b, (n ≤ fuel)%nat → astep K T pure_prims n a = Some b → ∃ s', eval_step call fuel s = Ok None s')
    by (intros n b Hn E; destruct (eval_step_ok K T call pure_prims s a b n fuel Hs Hn E) as (s' & E' & _); eauto).
  unfold behaves in H. destruct (eval_step call fuel s) as [[l|] s'| | |]; try done.
  all: intros n b Hn E; destruct (Hstep n b Hn E) as [s1 E1]; done.
Qed.

(** C6. Closed programs are safe: [zuo_kernel_eval] on a closed expression
    over the primitives of [safe_prims] never meets undefined behaviour,
    whatever errors the program runs into, with the collector running at any
    step; the value it returns is a good one, and when it reports an error or
    stops at the bound on its steps, the machine on trees does not reach a
    value within the bounds. *)
Theorem closed_program_safe s steps fuel e E :
  ok K T s → reps s e E → closed K T [] E = true → (vsize E < fuel)%nat →
  match zuo_kernel_eval call steps fuel e s with
  | Ok l s' => ok K T s' ∧ ∃ v, reps s' l v ∧ good K T safe v
  | Fail _ _ | Diverge =>
      ∀ n j v, asteps K T pure_prims n j (AEval E Vtop_env Vdone_k []) (ARet v Vdone_k []) →
      (steps ≤ j)%nat ∨ (fuel < n)%nat
  | UB _ => False
  end.
Proof.
  intros Hok He Hc Hf.
  pose proof (zuo_kernel_eval_safe K T safe call pure_prims (λ id v H, safe_value_good K T v (HT id v H))
    s steps fuel e E Hok He (closed_scoped K T safe _ _ Hc) Hf) as H.
  destruct (zuo_kernel_eval_start K T call s steps fuel e E Hok He (closed_wf K T _ _ Hc) Hf) as (s2 & E2 & Hsim).
  assert (Hruns : ∀ n j v, asteps K T pure_prims n j (AEval E Vtop_env Vdone_k []) (ARet v Vdone_k []) →
    (steps ≤ j)%nat ∨ (fuel < n)%nat ∨ ∃ l s', zuo_kernel_eval call steps fuel e s = Ok l s').
  { intros n j v Hj. destruct (decide (steps ≤ j)%nat); [by left|]. destruct (decide (fuel < n)%nat); [by right; left|].
    right. right. rewrite E2. destruct (eval_loop_ok K T call pure_prims n j _ v Hj steps fuel s2 Hsim) as (l & s' & E' & _); [lia..|]. eauto. }
  unfold behaves in H. destruct (zuo_kernel_eval call steps fuel e s) as [l s'| | |]; try done.
  all: intros n j v Hj; destruct (Hruns n j v Hj) as [|[|(l & s1 & E1)]]; [by left|by right|done].
Qed.

End theorems.

(** ** The program of [EvalSpec.v] *)

Lemma T_safe_values s id v : T_safe s id = Some v → safe_value v = true.
Proof.
  unfold T_safe. destruct (T_of s id) as [w|]; [|done]. cbn. destruct (safe_value w) eqn:E; [|done]. by intros [= <-].
Qed.

Lemma T_safe_known s id v : T_safe s id = Some v → T_of s id = Some v.
Proof. unfold T_safe. destruct (T_of s id); [|done]. cbn. by case_match. Qed.

Lemma program_ok_safe : ok (K_of program_st) (T_safe program_st) program_st.
Proof. exact (ok_restrict _ _ _ (T_safe_known program_st) _ program_ok). Qed.

Lemma program_closed : closed (K_of program_st) (T_safe program_st) [] program_tree = true.
Proof. vm_compute. reflexivity. Qed.

Lemma program_start_sim_safe :
  sim (K_of program_st) (T_safe program_st) program_start (AEval program_tree Vtop_env Vdone_k []).
Proof.
  pose proof program_start_sim as [Hok Hs]. split; [|exact Hs]. exact (ok_restrict _ _ _ (T_safe_known program_st) _ Hok).
Qed.

Lemma program_start_good :
  good_state (K_of program_st) (T_safe program_st) safe (AEval program_tree Vtop_env Vdone_k []).
Proof.
  exists []. split; [by apply closed_scoped, program_closed|]. split; [apply ge_top|]. split; [apply gk_done|constructor].
Qed.

Lemma eval_step_sound_witness :
  match eval_step (call_primitive no_os 100) 100 program_start with
  | Ok None s' => ∃ b, sim (K_of program_st) (T_safe program_st) s' b ∧ good_state (K_of program_st) (T_safe program_st) safe b
  | Ok (Some l) s' => ok (K_of program_st) (T_safe program_st) s' ∧ ∃ v, reps s' l v ∧ good (K_of program_st) (T_safe program_st) safe v
  | Fail _ _ | Diverge => ∀ n b, (n ≤ 100)%nat →
      astep (K_of program_st) (T_safe program_st) pure_prims n (AEval program_tree Vtop_env Vdone_k []) ≠ Some b
  | UB _ => False
  end.
Proof.
  exact (eval_step_sound (K_of program_st) (T_safe program_st) no_os 100 (T_safe_values program_st)
    program_start _ 100 program_start_sim_safe program_start_good).
Defined.

(** [(car (car (cons 1 2)))]: a closed program that ends with an error. *)
Definition failing : st * loc := read_in "(car (car (cons 1 2)))".
Definition failing_st : st := fst failing.
Definition failing_loc : loc := snd failing.
Definition failing_tree : val := default Vnull (tree_at 100 (s_img failing_st) (s_heap failing_st) failing_loc).

Lemma failing_ok : ok (K_of failing_st) (T_safe failing_st) failing_st.
Proof. apply (ok_restrict _ _ _ (T_safe_known failing_st)), okb_sound. vm_compute. reflexivity. Qed.

Lemma failing_reps : reps failing_st failing_loc failing_tree.
Proof. apply (tree_at_sound 100). vm_compute. reflexivity. Qed.

Lemma failing_closed : closed (K_of failing_st) (T_safe failing_st) [] failing_tree = true.
Proof. vm_compute. reflexivity. Qed.

Example failing_fails :
  match zuo_kernel_eval (call_primitive no_os 100) 100 100 failing_loc failing_st with Fail _ _ => true | _ => false end = true.
Proof. vm_compute. reflexivity. Qed.

Lemma closed_program_safe_witness :
  match zuo_kernel_eval (call_primitive no_os 100) 100 100 failing_loc failing_st with
  | Ok l s' => ok (K_of failing_st) (T_safe failing_st) s' ∧ ∃ v, reps s' l v ∧ good (K_of failing_st) (T_safe failing_st) safe v
  | Fail _ _ | Diverge =>
      ∀ n j v, asteps (K_of failing_st) (T_safe failing_st) pure_prims n j (AEval failing_tree Vtop_env Vdone_k []) (ARet v Vdone_k []) →
      (100 ≤ j)%nat ∨ (100 < n)%nat
  | UB _ => False
  end.
Proof.
  refine (closed_program_safe (K_of failing_st) (T_safe failing_st) no_os 100 (T_safe_values failing_st)
    failing_st 100 100 failing_loc failing_tree failing_ok failing_reps failing_closed _).
  apply (proj1 (Nat.ltb_lt _ _)). vm_compute. reflexivity.
Defined.

