(* ===== verification/Findings.v ===== *)
(** * What modelling showed

    Programs and calls on which the code does something else than it means to,
    run in the model.  A program is read, checked, evaluated and printed by the
    definitions of the runtime in the state after start-up. *)

From S2P Require Import Prelude Sys Heap Alloc Gc GcCorrect Objects Trie Lists ImageOk Value Intern Sort Printer Reader Prims Interp Machine Path Module Shell Sha256 Fasl Init Boot Running Files Processes FileSystem System FdSpec FaslSpec Main RktioHash RktioEnvvars.

Inductive answer := Printed (s : list Z) | Reported (who msg : list Z) | Undefined | Other.

(** The text of the value of a program *)
Definition run (program : list Z) : answer :=
  match (f <- zi o_false ;;
         r <- zuo_in program 0 f false ;;
         v <- zuo_kernel_eval (call_primitive no_os 200) 500 200 (fst r) ;;
         out <- zuo_out 200 out_init v zuo_write_mode ;;
         ret (out_s out)) booted with
  | Ok s _ => Printed s
  | Fail (Efail1w who msg _) _ => Reported who msg
  | Fail _ _ => Other
  | UB _ => Undefined
  | Diverge => Other
  end.

Example run_sum : run (bytes_of "(+ 40 2)") = Printed (bytes_of "42").
Proof. vm_compute. reflexivity. Qed.

(** A literal above 2^64 whose digits wrap past the value before them. *)
Lemma reader_accepts_overflow :
  run (bytes_of "42000000000000000000") = Printed (bytes_of "5106511852580896768")
  ∧ 42000000000000000000 mod 2 ^ 64 = 5106511852580896768.
Proof. vm_compute. split; reflexivity. Qed.

(** A table with the key [integer?] alone counts as a subset of one with the
    key [append] alone: the identifiers of these symbols are 2 and 18. *)
Lemma keys_subset_ignores_keys :
  run (bytes_of "(hash-keys-subset? (hash 'integer? 1) (hash 'append 1))") = Printed (bytes_of "#t").
Proof. vm_compute. reflexivity. Qed.

(** A key of the kernel environment is not a subset of its keys. *)
Lemma kernel_env_has_no_counts :
  run (bytes_of "(hash-ref (kernel-env) 'car #f)") = Printed (bytes_of "#<procedure:car>")
  ∧ run (bytes_of "(hash-keys-subset? (hash 'car 1) (kernel-env))") = Printed (bytes_of "#f").
Proof. vm_compute. split; reflexivity. Qed.

(** The sum of the index and the width leaves the range of [zuo_int_t]. *)
Lemma string_ref_overflows :
  run (bytes_of "(string-ref " ++ quoted "abc" ++ bytes_of " 9223372036854775807)") = Undefined.
Proof. vm_compute. reflexivity. Qed.

(** An integer is read as a string. *)
Lemma sha256_unchecked : run (bytes_of "(string-sha256 1)") = Undefined.
Proof. vm_compute. reflexivity. Qed.

(** [a\ b], outside of quotes: the backslash is kept and the space dropped. *)
Lemma shell_keeps_backslash : zuo_shell_to_strings_c (bytes_of "a\ b") = Some [bytes_of "a\b"].
Proof. vm_compute. reflexivity. Qed.
(** A backslash at the end steps over the terminator. *)
Lemma shell_overruns : zuo_shell_to_strings_c (bytes_of "a\") = None.
Proof. vm_compute. reflexivity. Qed.

(** An escaped double quote inside of double quotes ends the quotes: the
    command (with Q for the double quote) is Qa\Q bQ. *)
Lemma shell_escaped_quote :
  zuo_shell_to_strings_c ([34] ++ bytes_of "a\" ++ [34] ++ bytes_of " b" ++ [34]) = Some [bytes_of "a\"; bytes_of "b"].
Proof. vm_compute. reflexivity. Qed.

(** More [..] than the absolute base has elements: the root is lost. *)
Lemma build_path_loses_root :
  run (bytes_of "(build-path " ++ quoted "/a" ++ quoted "../../b" ++ bytes_of ")") = Printed (quoted "b").
Proof. vm_compute. reflexivity. Qed.

(** The image holds nothing of the count of a trie node and of the tag of a
    continuation. *)
Lemma fasl_drops_count table c c' k v next stream :
  zuo_fasl_out table (Otrie_node c k v next) stream = zuo_fasl_out table (Otrie_node c' k v next) stream.
Proof. reflexivity. Qed.
Lemma fasl_drops_cont_tag table t t' d e p n stream :
  zuo_fasl_out table (Ocont t d e p n) stream = zuo_fasl_out table (Ocont t' d e p n) stream.
Proof. reflexivity. Qed.

(** What a big-endian machine writes for a dump: the magic word has the same
    bytes on every machine, and the other words have theirs in the other
    order. *)
Definition big_endian_bytes (ws : list Z) : list Z := flat_map (λ w, reverse (dump_bytes [w])) ws.
Definition big_endian_dump (dump : list Z) : list Z := dump_bytes (take 1 dump) ++ big_endian_bytes (drop 1 dump).

Lemma dump_words_big_endian ws : dump_words (big_endian_bytes ws) = SWAP_ENDIAN <$> ws.
Proof.
  induction ws as [|w ws IH]; [done|].
  change (dump_words (big_endian_bytes (w :: ws))) with
    (dump_words ([Z.land (Z.shiftr w 24) 255; Z.land (Z.shiftr w 16) 255; Z.land (Z.shiftr w 8) 255; Z.land w 255] ++ big_endian_bytes ws)).
  cbn [app dump_words fmap list_fmap]. rewrite IH, SWAP_ENDIAN_bytes. do 2 f_equal.
  change 255 with (Z.ones 8). rewrite !Z.land_ones, !Z.shiftr_div_pow2 by lia. change (2 ^ 8) with 256.
  pose proof (Z.mod_pos_bound w 256). pose proof (Z.mod_pos_bound (w / 256) 256).
  pose proof (Z.mod_pos_bound (w / 2 ^ 16) 256). pose proof (Z.mod_pos_bound (w / 2 ^ 24) 256).
  rewrite (lor_shiftl_add (w / 2 ^ 16 mod 256) _ 8), (lor_shiftl_add (w / 256 mod 256) _ 16), (lor_shiftl_add (w mod 256) _ 24) by lia. lia.
Qed.

(** Its magic word is the one of this machine: no word is swapped, and what is
    taken for the size of the map has its bytes reversed. *)
Lemma image_byte_order_unseen rest s :
  fasl_byte_order (dump_words (big_endian_dump (zuo_magic :: rest))) s = Ok (zuo_magic :: (SWAP_ENDIAN <$> rest)) s.
Proof.
  change (dump_words (big_endian_dump (zuo_magic :: rest))) with (zuo_magic :: dump_words (big_endian_bytes rest)).
  by rewrite dump_words_big_endian.
Qed.

(** The empty symbol is a module path. *)
Lemma empty_module_path :
  run (bytes_of "(module-path? (string->uninterned-symbol " ++ quoted "" ++ bytes_of "))") = Printed (bytes_of "#t").
Proof. vm_compute. reflexivity. Qed.

(** An environment entry without an equals sign is read beyond its end. *)
Lemma envvars_overrun : ∃ why, zuo_get_envvars [bytes_of "HOME"] booted = UB why.
Proof. eexists. vm_compute. reflexivity. Qed.

(** The message repeats the article. *)
Lemma list_ref_message :
  run (bytes_of "(list-ref (cons 1 '()) 'a)") = Reported (bytes_of "list-ref") (bytes_of "not a not a nonnegative integer").
Proof. vm_compute. reflexivity. Qed.

(** The status of a process that is an open file, with the descriptor 9. *)
Lemma process_status_of_file :
  option_map fst (calls_in (λ _, Sret 9 []) (bytes_of "(process-status (fd-open-input " ++ quoted "a" ++ bytes_of "))")) = Some (bytes_of "9").
Proof. vm_compute. reflexivity. Qed.

(** Nothing is there to read, and the stream has not ended. *)
Definition idle_os (h : list syscall) : sysret :=
  match reverse h with Sread _ _ :: _ => Serrno EAGAIN | _ => Sret 0 [] end.

Lemma fd_read_avail_empty :
  option_map fst (calls_in idle_os (bytes_of "(fd-read (fd-open-input " ++ quoted "a" ++ bytes_of ") 'avail)")) = Some (quoted "").
Proof. vm_compute. reflexivity. Qed.

(** The integer 2^32 is the standard input: a read from it reads from the
    descriptor 0. *)
Lemma fd_number_cut :
  calls_of (bytes_of "(fd-read (fd-open-input 4294967296) 10)") = Some (bytes_of "#<eof>", [Sread 0 10]).
Proof. vm_compute. reflexivity. Qed.

(** The source has four bytes, and a write takes two bytes at most. *)
Definition short_os (h : list syscall) : sysret :=
  match reverse h with
  | Sread _ _ :: h' => if existsb (λ c, match c with Sread _ _ => true | _ => false end) h' then Sret 0 [] else Sret 4 (bytes_of "abcd")
  | Swrite _ b :: _ => Sret (Z.min 2 (Z.of_nat (length b))) []
  | Sopen _ [O_RDONLY] _ :: _ => Sret 3 []
  | Sopen _ _ _ :: _ => Sret 4 []
  | _ => Sret 0 []
  end.

(** What is left of a block is written from the start of the buffer again: the
    copy of abcd is abab. *)
Lemma cp_repeats :
  option_map (λ r, moved short_os (taken 4) [] (snd r)) (calls_in short_os (bytes_of "(cp " ++ quoted "from" ++ quoted "to" ++ bytes_of ")"))
  = Some (bytes_of "abab").
Proof. vm_compute. reflexivity. Qed.

(** The mode is set although it should not be. *)
Lemma cp_replace_mode :
  option_map (λ r, existsb (λ c, match c with Sfchmod _ _ => true | _ => false end) (snd r))
    (calls_in short_os (bytes_of "(cp " ++ quoted "from" ++ quoted "to" ++ bytes_of " (hash 'replace-mode #f))"))
  = Some true.
Proof. vm_compute. reflexivity. Qed.

(** A table that was restored from an image with a count that is not zero,
    here the empty one: opening a file without options looks for an option in
    it. *)
Definition restored_count : st := set_heap_at (o_empty_hash (s_img booted))
  (Otrie_node 7 (o_undefined (s_img booted)) (o_undefined (s_img booted)) (replicate 16 (o_undefined (s_img booted)))) booted.
Lemma restored_count_options : check_options_consumed (bytes_of "fd-open-input") (o_empty_hash (s_img booted)) restored_count
  = UB "car of a non-pair".
Proof. vm_compute. reflexivity. Qed.

(** A library path that was given stays when the empty one follows. *)
Lemma empty_library_path_kept :
  parse_flags (bytes_of "zuo") [bytes_of "-X"; bytes_of "a"; bytes_of "-X"; []] initial_options
  = Pgo (Options None (Some (bytes_of "a")) None None false) [].
Proof. vm_compute. reflexivity. Qed.

(** The environment brings a library path back that the command line took
    away. *)
Lemma empty_library_path_undone : zuo_configure [bytes_of "ZUO_LIB_PATH=b"] None = Some (bytes_of "b").
Proof. vm_compute. reflexivity. Qed.

(** ** The I/O library *)

(** 3 and 19 have the same first slot.  When 3 is removed, its slot is vacated,
    and setting 19 again takes that slot without looking further: the key is
    there twice, is counted twice, and removing it brings the old value back. *)
Definition set_after_remove : comp (rktio_hash_t Z) Empty_set (option Z * option Z) :=
  rktio_hash_set 2 3 30 ;;; rktio_hash_set 2 19 190 ;;; rktio_hash_remove 2 3 false ;;; rktio_hash_set 2 19 191 ;;;
  a <- rktio_hash_get 19 ;; rktio_hash_remove 2 19 false ;;; b <- rktio_hash_get 19 ;; ret (a, b).

Lemma hash_set_duplicates :
  match set_after_remove rktio_hash_new with Ok r ht => r = (Some 191, Some 190) ∧ count ht = 1 | _ => False end.
Proof. vm_compute. by split. Qed.

(** An empty bucket has the key 0: removing 0 from a table without it counts an
    entry less, and a table with one entry then says that it is empty. *)
Lemma hash_remove_absent_zero :
  match (rktio_hash_set 2 5 50 ;;; rktio_hash_remove 2 0 false ;;; rktio_hash_get 5) (rktio_hash_new (V := Z)) with
  | Ok r ht => r = Some 50 ∧ rktio_hash_is_empty ht = true
  | _ => False
  end.
Proof. vm_compute. by split. Qed.

(** The value of the first bucket is not freed with the table. *)
Lemma hash_free_keeps_first :
  match (rktio_hash_set 2 0 7 ;;; rktio_hash_set 2 1 8 ;;; rktio_hash_free true) (rktio_hash_new (V := Z)) with
  | Ok freed _ => freed = [8]
  | _ => False
  end.
Proof. vm_compute. reflexivity. Qed.

(** Keys from 1 to [n] *)
Fixpoint set_keys (n : nat) : comp (rktio_hash_t Z) Empty_set unit :=
  match n with O => ret tt | S n' => set_keys n' ;;; rktio_hash_set 2 (Z.of_nat n) 1 end.

(** With 8 keys left in 32 slots, [rktio_hash_remove] rehashes into 16 slots,
    and the last of the 8 keys makes [rktio_hash_set] rehash into 32 again. *)
Lemma hash_shrink_undone :
  match (set_keys 9 ;;; rktio_hash_remove 2 9 true) rktio_hash_new with
  | Ok _ ht => ht_size ht = 32 ∧ count ht = 8
      ∧ match do_rehash 2 16 ht with Ok _ ht' => ht_size ht' = 32 | _ => False end
  | _ => False
  end.
Proof. vm_compute. done. Qed.

Definition empty_memory : memory := Memory ∅ 1.
Definition name_a : list Z := bytes_of "A".

(** Setting a variable again adds it once more: the block has it twice. *)
Lemma envvars_set_twice :
  match (ev <- rktio_envvars_set rktio_empty_envvars name_a (Some (bytes_of "1")) ;; ev <- rktio_envvars_set ev name_a (Some (bytes_of "2")) ;;
         b <- rktio_envvars_to_block ev ;; ret (rktio_envvars_count ev, b)) empty_memory with
  | Ok (n, b) _ => n = 2 ∧ b_text b = Some <$> bytes_of "A=2" ++ [0] ++ bytes_of "A=2" ++ [0]
  | _ => False
  end.
Proof. vm_compute. by split. Qed.

(** Removing a variable frees its strings and does not count it down: the next
    look into the set reads what is freed, and with another variable behind it,
    freeing the set frees that one twice. *)
Lemma envvars_removed_read :
  (ev <- rktio_envvars_set rktio_empty_envvars name_a (Some (bytes_of "1")) ;; ev <- rktio_envvars_set ev name_a None ;;
   rktio_envvars_get ev name_a) empty_memory = UB "read of what is not allocated".
Proof. vm_compute. reflexivity. Qed.

Lemma envvars_removed_free :
  (ev <- rktio_envvars_set rktio_empty_envvars name_a (Some (bytes_of "1")) ;; ev <- rktio_envvars_set ev (bytes_of "B") (Some (bytes_of "2")) ;;
   ev <- rktio_envvars_set ev name_a None ;; rktio_envvars_free ev) empty_memory = UB "free of what is not allocated".
Proof. vm_compute. reflexivity. Qed.

(** A set without room for an entry, such as the copy of an empty one, is
    resized to twice of nothing. *)
Lemma envvars_copy_full :
  (ev <- rktio_envvars_copy rktio_empty_envvars ;; rktio_envvars_set ev name_a (Some (bytes_of "1"))) empty_memory = UB "outside of the array".
Proof. vm_compute. reflexivity. Qed.

(** A string of the environment without an equals sign is read behind its end. *)
Lemma envvars_no_equals : rktio_envvars [name_a] empty_memory = UB "read behind the end of a string".
Proof. vm_compute. reflexivity. Qed.
